(* ===== verification/_CoqProject ===== *)
-Q . S2P
Prelude.v
OMap.v
Util.v
Internal.v
Services.v
BtValue.v
ThirdParty.v
Bencode.v
BtMerge.v
ConfigData.v
ConfigDataFacts.v
ConfigParse.v
ConfigParseFacts.v
ConfigMessage.v
MessageFacts.v
MergeFacts.v
ReplayFacts.v
Encrypt.v
SessionEncrypt.v
Protos.v
Instances.v
ConfigBase.v
BaseFacts.v
DictField.v
DictFieldFacts.v
Multipart.v
MultipartFacts.v
BaseSync.v
SyncFacts.v
DumpFacts.v
MultiEncrypt.v
OnionRequest.v
OnionFacts.v
NetworkData.v
NetworkResponse.v
NetworkState.v
NetworkRun.v
NetworkFacts.v
NetworkStepFacts.v
NetworkDataFacts.v
NetworkPathFacts.v
Community.v
CommunityFacts.v
UserProfileConfig.v
ContactsConfig.v
ContactsFacts.v
UserGroupsConfig.v
UserGroupsFacts.v
GroupRecordFacts.v
ConvoInfoConfig.v
ConvoInfoFacts.v
ConvoPruneFacts.v
GroupInfoConfig.v
GroupMembers.v
GroupMembersFacts.v
GroupKeys.v
GroupKeysFacts.v
MultiFacts.v
GroupMessages.v
GroupLoadFacts.v
DataProperties.v
MessageProperties.v
SyncProperties.v
CStructs.v
CMemory.v
CConfigs.v
FieldProperties.v
GroupListProperties.v
GroupProperties.v
OnionProperties.v
Blinding.v
SessionMessages.v
BlindingFacts.v
BlindedMessageFacts.v
SwarmSubaccount.v
CMessages.v
CNetwork.v
CurveInstance.v
BlindingProperties.v
NetworkProperties.v
