(* ===== verification/Prelude.v ===== *)
(** * libsession-util: a verification development

    libsession-util keeps the configuration of a Session user (profile, contacts, groups, ...) in
    sync between the user's devices, and reaches the service nodes that store it.  A config is a tree of dicts, sets and scalars; every change
    produces a new message with a sequence number, the data, and the diffs of the last few
    versions; devices exchange the messages, encrypted, through storage servers; and a device
    that sees several messages merges them deterministically by replaying the diffs.  Requests
    travel through onion paths of service nodes, which a network object builds and repairs.  This
    development models these parts and proves what makes them work.

    ** How the program is put together, and which file models what

    Paths are relative to the repository.  A definition has the name of the C++ function it models
    where possible.

    - Shared foundations.  This file: byte strings, results ([res]: a value or the class of the
      exception thrown), 64-bit integers, tactics.  [OMap]: [std::map] and [std::set] as sorted
      lists, over a class [Ordered].  [Util]: [src/util.cpp], [include/session/util.hpp].
      [Services]: the buffers and arrays for secrets ([src/sodium_array.cpp],
      [include/session/sodium_array.hpp], over a class for libsodium's allocator), as a machine that
      runs commands on arrays, [src/random.cpp] and [src/file.cpp].
    - Libraries that are not part of the repository are classes of functions with the documented
      facts the code relies on: [BtValue] (oxenc bencoding, class [Oxenc]), [Internal]
      (oxenc text encodings, class [TextEncodings]), [ThirdParty] (libsodium and zstd: [Blake2b],
      [Aead], [Ed25519], [CryptoBox], [X25519],
      [Randombytes], [Zstd]), [Protos] (class [Protobuf]), [OnionRequest] (AES-GCM and JSON: [AesGcm],
      [Json]), [NetworkData] (libquic and the random generator: [Quic], [Rng]), [NetworkResponse]
      (conversions and texts of the JSON library: [JsonNumbers], [Texts]).  [Bencode] is a
      complete bencoding that satisfies [Oxenc]; [Instances] has simple instances of the others.
      They show that the assumed facts are consistent, and the examples run on them.
    - Config data.  [ConfigData] ([src/config.cpp]: [prune_], [diff_impl], [apply_diff]) and
      [ConfigParse] ([load_diff], [serialize_data], [parse_data], [parse_lagged_diffs],
      [verify_config_sig]; [append_unknown] and [load_unknowns] of [src/config/internal.cpp]),
      with [ConfigDataFacts] and [ConfigParseFacts].  [BtMerge]: [src/bt_merge.cpp].
    - Config messages.  [ConfigMessage]: the classes [ConfigMessage] and [MutableConfigMessage]
      of [src/config.cpp] as one record ([orig_data_] is present exactly in a mutable message),
      all constructors, serialization, incrementing, merging.  Facts: [MessageFacts] (encoding),
      [MergeFacts] (which messages survive, order), [ReplayFacts] (the merged data,
      editing), [SyncFacts] (merging the merged message again).
    - Encryption.  [Encrypt]: [src/config/encrypt.cpp].  [SessionEncrypt]: the parts of
      [src/session_encrypt.cpp] that [Protos] ([src/config/protos.cpp]) uses; [SessionMessages]:
      the rest of it.
    - Keys.  [Blinding]: [src/ed25519.cpp], [src/curve25519.cpp], [src/hash.cpp],
      [src/xed25519.cpp] and [src/blinding.cpp], over the classes [EdCurve] (the numbers modulo the
      group order and the points of the main subgroup) and [Fe25519] (the field of the
      coordinates).  Facts: [BlindingFacts] (ids and key pairs), [BlindedMessageFacts]
      (signatures and messages).  [CurveInstance] has a group of five points over the field of
      seven elements with these laws.
    - The config object, [ConfigBase] of [src/config/base.cpp]: [ConfigBase] (state, keys,
      signing keys), [Multipart] (splitting and reassembling big messages), [BaseSync] ([merge],
      [push], [confirm_pushed], [dump], construction), [DictField] (the field proxies of
      [base.hpp]).  Facts: [BaseFacts], [MultipartFacts], [SyncFacts], [DumpFacts],
      [DictFieldFacts].
    - Typed configs over the object: [UserProfileConfig] ([src/config/user_profile.cpp],
      [src/config/local.cpp]) and [ContactsConfig] ([src/config/contacts.cpp]), with
      [ContactsFacts].  [Internal]: session ids and encoded keys.
      [Community] ([src/config/community.cpp]: names, URLs and keys of communities) with
      [CommunityFacts] is the base of [UserGroupsConfig] ([src/config/user_groups.cpp]: groups,
      legacy groups and communities, and iterating over them) and of [ConvoInfoConfig]
      ([src/config/convo_info_volatile.cpp]: what was read, and pruning it), with
      [UserGroupsFacts], [GroupRecordFacts], [ConvoInfoFacts], [ConvoPruneFacts].
      [GroupInfoConfig] ([src/config/groups/info.cpp]), with its facts.
    - Encryption for several recipients, [MultiEncrypt] ([src/multi_encrypt.cpp] and
      [include/session/multi_encrypt.hpp]), with [MultiFacts].
    - Groups.  The members are a typed config with a list of pending invitations,
      [GroupMembers] ([src/config/groups/members.cpp]), with [GroupMembersFacts].  The keys
      ([src/config/groups/keys.cpp]) are an object of their own: [GroupKeys] is its state (the
      sorted key list, the messages per generation, the pending key), insertion, expiry and
      dumps; [GroupMessages] is [rekey], [key_supplement], [load_key_message] and the
      encryption of messages to the group.  A change of the key list is handed to the group's
      two configs, which are one record ([group_configs]) here.  Facts: [GroupKeysFacts]
      (insertion, expiry, dumps), [GroupLoadFacts] (key messages and messages to the group).
      [SwarmSubaccount]: the swarm subaccounts of the same file, with their facts.
    - The C interface.  [CStructs]: the structs of the C headers with arrays of fixed size, and the
      conversions between them and the records of contacts, members, groups and conversations
      ([into] and the constructors), with their facts.  [CMemory]: the functions of
      [src/config/base.cpp] that pass arrays and texts through memory (blocks with addresses, words
      and texts; an access outside of the blocks is an error), with their facts.  [CConfigs]: the
      exported functions of the typed configs that make objects, read, store and erase records and
      iterate over them, and those for community URLs.  [CMessages]: those of
      [src/session_encrypt.cpp], of the group keys, of [src/multi_encrypt.cpp], and of the files for
      keys, signatures, hashes and blinding.  [CNetwork]: those of [src/session_network.cpp] and of
      [src/onionreq/builder.cpp], with the request for the client version, which is signed with a
      key derived from the account.
    - Onion requests.  [OnionRequest]: [src/onionreq/] (key types, hop encryption, the builder of
      requests, the parsers of requests and responses), with [OnionFacts].
    - The network object, [Network] of [src/session_network.cpp].  [NetworkData]: service nodes
      and their text form, swarms, requests, limits.  [NetworkResponse]: reading node lists and
      answers, batches.  [NetworkState]: the object as a record, and the handlers of responses
      and errors.  [NetworkRun]: the operations and [step], one event; an event is a
      call of the application, a scheduled call, a connection that opens or closes, an answer, or
      a step of the disk thread or of a thread of the application.  A request runs on the thread of
      its caller and goes to the loop for a path only: what is left of it is an [app_call], and
      other events can come between its parts.  The counter of pending requests is not
      synchronised; an increment is a read and a later write, and a link on which something else
      was written in between is marked ([lk_raced]).  An exception of [Builder::make] goes to the
      caller, or to the callback if the caller is a C function.  Function objects that wait to be called are data (a [callback],
      a [task], ...), so that it can be stated where a request is.  Facts: [NetworkFacts] and
      [NetworkStepFacts] (what every handler keeps), [NetworkDataFacts] (nodes, swarms),
      [NetworkPathFacts] (paths, timeouts, refreshes).

    State is passed explicitly: an operation maps an object to a result with the new object.  The
    current time is an argument.  A nested bencoded value is read as a tree; a top-level dict is
    read through a consumer state, because the signature covers the bytes read so far.

    ** What the theorems show

    The theorems named below are stated in [DataProperties], [MessageProperties],
    [SyncProperties], [FieldProperties], [GroupListProperties], [GroupProperties],
    [OnionProperties], [BlindingProperties], [NetworkProperties] and [Services]; those with hypotheses have an example that
    applies them.

    - Diffs: [diff_impl] refines a declarative specification ([diff_rel]); a diff carries the old
      to the new version; a replayed change wins; what a diff does not name is untouched; pruning
      loses nothing.
    - Encoding: data, diffs and whole messages are read back as written; the data encoding is
      canonical; what is parsed is well formed; which diffs [load_diff] terminates on.
    - Merging: exactly the messages that no other one includes and that are recent enough take
      part; the result does not depend on the order of arrival; the highest message's changes
      win; the history is kept; merging the result with its sources gives the result.
    - Editing and the object: the edit cycle, the state invariant, the key list, pushing and
      receiving (for every type, wrapped for older clients or not; in one part or many, in any order), dumping and restoring.
    - Encryption and wrapping round trips, padding sizes, refusal of short ciphertexts.
    - Fields and typed configs: what is assigned is read, the rest does not change; the setters
      of the group info refine an abstract record (and change nothing on a member's object);
      records of contacts, members, groups and
      communities are read back; iterating visits all of them; pruning removes exactly what is
      stale.
    - Groups: which keys expire; that keys can arrive in any order (two times of one key are told
      apart by the first arrival); that a new key reaches the
      admins and members, and nobody for whom no entry opens; that the status of a stored group
      follows the operations and a group that was left has no keys; messages to the group, dumps,
      encryption for several recipients and member records are read back as written.
    - Onion requests: every node of the path learns the next one and nothing else, the
      destination reads the payload, and its reply is decrypted.
    - Blinded ids: every way to compute an id gives the same one, and the check for a match accepts
      exactly the ids of the key; signatures with blinded keys and XEd25519 signatures are valid;
      messages between blinded ids and sealed messages are read back, with the sender.
    - Swarm subaccounts: what an admin makes for a member is accepted by the member exactly with the
      permissions it has, and the member's requests carry signatures that the group's key proves.
    - Secure arrays: every program that uses them behaves like one over byte strings, without leaks,
      double frees and shared buffers; where it is undefined.
    - The C interface: when writing a text into an array stays inside the array (and that the code
      overflows it otherwise), in particular the text about an id that is not valid; contacts, group members and legacy groups that are stored in C are read
      back in C; a loop over the members of a legacy group can erase members; where the status of a
      group in C differs from that in C++; what [config_push] puts into
      memory fills the block it asked for exactly and is read back through the pointers, and can be
      given to [config_merge], which then does what [merge] does ([push] is virtual: conversations
      are pruned first); a message that is sent with the C functions arrives in a block of its own,
      with everything else in memory unchanged, and the sender's id fills its array; the request functions let no
      exception out and account for every request like those of C++, but a node that is named in C
      is not left out when its request is redirected; when taking a community URL apart stays inside
      the arrays; a builder that is set up in C is the one of C++; the loops over contacts, members and
      groups visit all of them.
    - The network: in every run of the object, each request of the application is answered exactly
      once, or is still waiting, or its C++ caller got an exception, after at most fifteen commands;
      paths and connections stay well formed, and the counters of pending requests are exact on
      connections without a race (an example shows what a race does); queued requests time out as long as the object was not suspended (and an example
      shows that this is needed); new paths have three nodes with different addresses; the swarm
      of an account is the nearest one; a refresh takes what three nodes agree on; the cache
      survives a restart.

    A number that comes out of a hash (a blinding factor, the [r] of a signature) is zero modulo the
    group order with negligible probability only; where that matters it is a hypothesis.  The
    cipher is only assumed to open what it sealed.  Where the code tries a key on ciphertexts
    made with other keys, the theorem has the hypothesis that none of those opens ([opens_only],
    [opens_alone]).

    ** Bounds, fuel, undefined behaviour

    Integers are unbounded [Z]; where the code computes with [int64_t] an overflow is the result
    [Throw UB], and sizes that wrap as [size_t] are reduced explicitly.  Loops without a
    structural measure take fuel: [diff_walk] the number of entries of both trees, [load_diff]
    the number of pairs, [split] the length; the theorems show that this is enough, and for
    [load_diff] exactly when.  [OutOfFuel] is not a behaviour of the code.  The time of a group
    key is in milliseconds; a time that the clock, which counts nanoseconds in 64 bits, cannot
    represent is the result [Throw UB].  The loop over a bencoded node list has as much fuel as the
    list has elements and one more; it only runs out on an element at which the code loops
    forever.  A state of the network object in which an exception or undefined behaviour has left
    the event loop is marked [broken].

    ** What is not modelled

    Of the C API, the functions that free objects, and the texts that [last_error] points to; logging
    ([src/logging.cpp] only calls a library); the protobuf code that the build generates, which is a class;
    exception texts (but for those that are compared, passed on or too long for a buffer); the iteration order of unordered containers (ascending here).  An operation that throws has
    no resulting object.  The application's callbacks are reported and do not call the
    network object from inside a handler.  The events of the disk thread are
    those of an object with a cache directory. *)
From Stdlib Require Export Ascii String ZArith Lia.
From stdpp Require Export base list gmap strings sorting.
#[export] Set Default Goal Selector "!".

(** ** Byte strings

    [std::string], [std::vector<unsigned char>] and [std::span<const unsigned char>] are all
    sequences of 8-bit units; they are [list ascii] here, and a string literal is coerced. *)
Abbreviation bytes := (list ascii).

Definition bs (s : string) : bytes := list_ascii_of_string s.
Coercion bs : string >-> list.

Declare Scope session_scope.
Delimit Scope session_scope with session.
Open Scope string_scope.
Open Scope list_scope.
Open Scope Z_scope.
Open Scope session_scope.

(** [x.size()] as the (unbounded) integer the code compares and adds. *)
Definition size_of {A} (l : list A) : Z := Z.of_nat (length l).

(** Unsigned value of one byte, and the byte with a given value (modulo 256). *)
Definition byte_val (c : ascii) : Z := Z.of_N (N_of_ascii c).
Definition byte_of (z : Z) : ascii := ascii_of_N (Z.to_N (z mod 256)).
Definition char_nul : ascii := ascii_of_N 0.

(** Machine integer ranges used by the code. *)
Definition INT64_MIN : Z := - 2 ^ 63.
Definition INT64_MAX : Z := 2 ^ 63 - 1.
Definition UINT64_MAX : Z := 2 ^ 64 - 1.
Definition in_int64 (z : Z) : bool := (INT64_MIN <=? z) && (z <=? INT64_MAX).

(** ** Exceptions and results

    A C++ call either returns or throws; [exn] lists the exception classes the code throws (their
    message texts are not modelled).  [UB] marks executions that C++ leaves undefined (for
    instance dereferencing an empty [std::optional]); [OutOfFuel] marks a fuelled loop whose
    fuel was used up, and is never a behaviour of the code. *)
Inductive exn :=
| BtInvalid            (* oxenc::bt_deserialize_invalid *)
| ConfigError          (* config_error *)
| ConfigParseError     (* config_parse_error, a config_error *)
| ConfigValueError     (* config_value_error, a config_parse_error *)
| SignatureError       (* signature_error, a config_error *)
| MissingSignature     (* missing_signature, a signature_error *)
| DecryptError         (* decrypt_error *)
| InvalidArgument      (* std::invalid_argument *)
| RuntimeError         (* std::runtime_error *)
| LogicError           (* std::logic_error *)
| LengthError          (* std::length_error *)
| OverflowError        (* std::overflow_error *)
| JsonError            (* nlohmann::json::exception *)
| UB
| OutOfFuel.

#[export] Instance exn_eq_dec : EqDecision exn.
Proof. solve_decision. Defined.

(** What [catch (const std::exception&)] catches. *)
Definition is_std_exception (e : exn) : bool := match e with UB | OutOfFuel => false | _ => true end.

Inductive res (A : Type) :=
| Ok (a : A)
| Throw (e : exn).
Arguments Ok {A} a.
Arguments Throw {A} e.

#[export] Instance res_ret : MRet res := fun A a => Ok a.
#[export] Instance res_bind : MBind res := fun A B f m =>
  match m with Ok a => f a | Throw e => Throw e end.
#[export] Instance res_fmap : FMap res := fun A B f m =>
  match m with Ok a => Ok (f a) | Throw e => Throw e end.
#[export] Instance res_eq_dec {A} `{EqDecision A} : EqDecision (res A).
Proof. solve_decision. Defined.

(** Sequencing with a pattern for the result. *)
Notation "'let!' x ':=' c1 'in' c2" :=
  (match c1 return res _ with Ok x => c2 | Throw e => Throw e end)
  (at level 200, x pattern, c1 at level 200, c2 at level 200, right associativity) : session_scope.

(** [if (cond) throw e;] *)
Definition throw_if (cond : bool) (e : exn) : res unit := if cond then Throw e else Ok tt.

(** [catch (const config_error&)]: the subclasses of [config_error]. *)
Definition is_config_error (e : exn) : bool :=
  match e with
  | ConfigError | ConfigParseError | ConfigValueError | SignatureError | MissingSignature => true
  | _ => false
  end.

(** Signed 64-bit addition and subtraction: overflow is undefined. *)
Definition int64_add (a b : Z) : res Z := if in_int64 (a + b) then Ok (a + b) else Throw UB.
Definition int64_sub (a b : Z) : res Z := if in_int64 (a - b) then Ok (a - b) else Throw UB.

Definition is_ok {A} (r : res A) : bool := match r with Ok _ => true | Throw _ => false end.

(** [value_or] of a [std::optional]. *)
Definition value_or {A} (o : option A) (d : A) : A := match o with Some a => a | None => d end.

(** A [for] loop over a list that threads a state and may throw. *)
Fixpoint foldM {A B} (f : B -> A -> res B) (b : B) (l : list A) : res B :=
  match l with
  | [] => Ok b
  | a :: l' => b' ← f b a; foldM f b' l'
  end.

(** ** Tactics *)

(** Case analysis on the first computation a monadic hypothesis runs. *)
Ltac res_step H :=
  match type of H with
  | mbind _ ?m = Ok _ =>
      let E := fresh "E" in
      destruct m eqn:E; cbn [mbind res_bind] in H; [|discriminate H]
  | throw_if ?b _ = Ok _ =>
      let E := fresh "E" in destruct b eqn:E; cbn in H; [discriminate H|]
  | (if ?b then _ else _) = Ok _ =>
      let E := fresh "E" in destruct b eqn:E; try discriminate H
  | (match ?b with _ => _ end) = Ok _ =>
      let E := fresh "E" in destruct b eqn:E; try discriminate H
  end.
Ltac res_inv H := repeat (res_step H); try (injection H as H; subst).

Ltac bool_prop :=
  repeat match goal with
  | H : (_ && _) = true |- _ => apply andb_true_iff in H as [? ?]
  | H : (_ || _) = false |- _ => apply orb_false_iff in H as [? ?]
  | H : negb _ = true |- _ => apply negb_true_iff in H
  | H : negb _ = false |- _ => apply negb_false_iff in H
  | H : (_ <? _)%Z = true |- _ => apply Z.ltb_lt in H
  | H : (_ <? _)%Z = false |- _ => apply Z.ltb_ge in H
  | H : (_ <=? _)%Z = true |- _ => apply Z.leb_le in H
  | H : (_ <=? _)%Z = false |- _ => apply Z.leb_gt in H
  | H : (_ =? _)%Z = true |- _ => apply Z.eqb_eq in H
  | H : (_ =? _)%Z = false |- _ => apply Z.eqb_neq in H
  | H : bool_decide _ = true |- _ => apply bool_decide_eq_true in H
  | H : bool_decide _ = false |- _ => apply bool_decide_eq_false in H
  end.

Create HintDb session.
#[export] Hint Constructors StronglySorted : session.

(** ** Generic lemmas *)

Lemma size_of_app {A} (l1 l2 : list A) : size_of (l1 ++ l2) = size_of l1 + size_of l2.
Proof. unfold size_of. rewrite length_app. lia. Qed.

Lemma size_of_nonneg {A} (l : list A) : 0 <= size_of l.
Proof. unfold size_of. lia. Qed.

Lemma foldM_app {A B} (f : B -> A -> res B) b l1 l2 :
  foldM f b (l1 ++ l2) = (b' ← foldM f b l1; foldM f b' l2).
Proof.
  revert b; induction l1 as [|a l1 IH]; intros b; cbn; [done|].
  destruct (f b a); cbn; auto.
Qed.

Lemma res_bind_ok {A B} (m : res A) (f : A -> res B) b :
  mbind f m = Ok b <-> exists a, m = Ok a /\ f a = Ok b.
Proof. destruct m; cbn; naive_solver. Qed.

Lemma byte_val_range c : 0 <= byte_val c < 256.
Proof. unfold byte_val. pose proof (N_ascii_bounded c). lia. Qed.

Lemma byte_val_inj c c' : byte_val c = byte_val c' -> c = c'.
Proof.
  unfold byte_val. intros H%N2Z.inj.
  by rewrite <- (ascii_N_embedding c), H, ascii_N_embedding.
Qed.

Lemma byte_of_val c : byte_of (byte_val c) = c.
Proof.
  unfold byte_of. pose proof (byte_val_range c). rewrite Z.mod_small by lia.
  unfold byte_val. by rewrite N2Z.id, ascii_N_embedding.
Qed.

Lemma byte_val_of z : 0 <= z < 256 -> byte_val (byte_of z) = z.
Proof.
  intros. unfold byte_val, byte_of. rewrite Z.mod_small by lia.
  rewrite N_ascii_embedding by lia. lia.
Qed.
