(* ===== verification/OMap.v ===== *)
(** * Ordered containers

    [std::map] and [std::set] iterate in key order, and the code relies on it (two-iterator
    merges in the diff, sorted encodings, [rbegin()] as the largest key).  They are modelled as
    lists sorted by a comparison function; [Ordered] is what the code needs of a key type.
    Extensionality ([mext], [sext]) makes two containers with the same contents equal. *)
From S2P Require Import Prelude.

Class Ordered (K : Type) := {
  cmp : K -> K -> comparison;
  cmp_eq : forall x y, cmp x y = Eq <-> x = y;
  cmp_opp : forall x y, cmp y x = CompOpp (cmp x y);
  cmp_trans : forall x y z, cmp x y = Lt -> cmp y z = Lt -> cmp x z = Lt
}.

Definition klt `{Ordered K} (x y : K) : Prop := cmp x y = Lt.
Definition kltb `{Ordered K} (x y : K) : bool := match cmp x y with Lt => true | _ => false end.
Definition kleb `{Ordered K} (x y : K) : bool := match cmp x y with Gt => false | _ => true end.
Definition keqb `{Ordered K} (x y : K) : bool := match cmp x y with Eq => true | _ => false end.
Notation "x ≺ y" := (klt x y) (at level 70) : session_scope.

(** Lexicographic comparison, as [std::lexicographical_compare]. *)
Fixpoint lex_cmp {A} `{Ordered A} (l1 l2 : list A) : comparison :=
  match l1, l2 with
  | [], [] => Eq
  | [], _ :: _ => Lt
  | _ :: _, [] => Gt
  | x :: l1', y :: l2' => match cmp x y with Eq => lex_cmp l1' l2' | c => c end
  end.

Definition pair_cmp {A B} `{Ordered A, Ordered B} (p q : A * B) : comparison :=
  match cmp p.1 q.1 with Eq => cmp p.2 q.2 | c => c end.

Section Maps.
Context {K V : Type} `{Ordered K}.
Implicit Types (k : K) (v : V) (m : list (K * V)).

Fixpoint mfind k m : option V :=
  match m with
  | [] => None
  | (k', v) :: m' => if keqb k k' then Some v else mfind k m'
  end.

(** [m[k] = v] and [insert_or_assign]. *)
Fixpoint minsert k v m : list (K * V) :=
  match m with
  | [] => [(k, v)]
  | (k', v') :: m' =>
      match cmp k k' with
      | Lt => (k, v) :: (k', v') :: m'
      | Eq => (k, v) :: m'
      | Gt => (k', v') :: minsert k v m'
      end
  end.

(** [emplace]: keeps the value of a key that is already there. *)
Definition memplace k v m : list (K * V) :=
  match mfind k m with Some _ => m | None => minsert k v m end.

Fixpoint merase k m : list (K * V) :=
  match m with
  | [] => []
  | (k', v') :: m' => if keqb k k' then merase k m' else (k', v') :: merase k m'
  end.

Definition msorted m : Prop := StronglySorted klt m.*1.
Fixpoint msortedb m : bool :=
  match m with
  | [] => true
  | (k, _) :: m' =>
      match m' with [] => true | (k', _) :: _ => kltb k k' end && msortedb m'
  end.
End Maps.

Section Sets.
Context {A : Type} `{Ordered A}.
Implicit Types (x : A) (s : list A).

Fixpoint smem x s : bool :=
  match s with [] => false | y :: s' => if keqb x y then true else smem x s' end.

Fixpoint sinsert x s : list A :=
  match s with
  | [] => [x]
  | y :: s' =>
      match cmp x y with
      | Lt => x :: y :: s'
      | Eq => y :: s'
      | Gt => y :: sinsert x s'
      end
  end.

Fixpoint serase x s : list A :=
  match s with [] => [] | y :: s' => if keqb x y then serase x s' else y :: serase x s' end.

Definition ssorted s : Prop := StronglySorted klt s.
End Sets.

(** ** Lemmas on the order *)
Section OrderFacts.
Context {K : Type} `{Ordered K}.
Implicit Types (x y z : K).

Lemma cmp_refl x : cmp x x = Eq.
Proof. by apply cmp_eq. Qed.

Lemma klt_irrefl x : ~ x ≺ x.
Proof. unfold klt. by rewrite cmp_refl. Qed.

Lemma klt_trans x y z : x ≺ y -> y ≺ z -> x ≺ z.
Proof. apply cmp_trans. Qed.

#[global] Instance klt_transitive : Transitive (klt (K:=K)).
Proof. intros x y z. apply klt_trans. Qed.

Lemma cmp_gt x y : cmp x y = Gt <-> y ≺ x.
Proof. unfold klt. rewrite (cmp_opp x y). by destruct (cmp x y). Qed.

Lemma klt_neq x y : x ≺ y -> x <> y.
Proof. intros Hlt ->. by apply klt_irrefl in Hlt. Qed.

Lemma klt_asym x y : x ≺ y -> ~ y ≺ x.
Proof. intros H1 H2. by apply (klt_irrefl x), (klt_trans _ y). Qed.

Lemma keqb_eq x y : keqb x y = true <-> x = y.
Proof. unfold keqb. rewrite <- cmp_eq. by destruct (cmp x y). Qed.

Lemma keqb_neq x y : keqb x y = false <-> x <> y.
Proof. rewrite <- keqb_eq. by destruct (keqb x y). Qed.

Lemma keqb_refl x : keqb x x = true.
Proof. by apply keqb_eq. Qed.

Lemma kltb_refl x : kltb x x = false.
Proof. unfold kltb. by rewrite cmp_refl. Qed.

Lemma keqb_spec x y : reflect (x = y) (keqb x y).
Proof. apply iff_reflect. by rewrite keqb_eq. Qed.

Lemma kltb_lt x y : kltb x y = true <-> x ≺ y.
Proof. unfold kltb, klt. by destruct (cmp x y). Qed.

Lemma kltb_nlt x y : kltb x y = false <-> ~ x ≺ y.
Proof. rewrite <- kltb_lt. by destruct (kltb x y). Qed.

Lemma kleb_gt x y : kleb x y = false <-> y ≺ x.
Proof. unfold kleb. rewrite <- cmp_gt. by destruct (cmp x y). Qed.

Lemma kleb_le x y : kleb x y = true <-> x ≺ y \/ x = y.
Proof. unfold kleb, klt. rewrite <- cmp_eq. destruct (cmp x y); naive_solver. Qed.

Lemma klt_total x y : x ≺ y \/ x = y \/ y ≺ x.
Proof.
  destruct (cmp x y) eqn:E; [|by left|].
  - right; left. by apply cmp_eq.
  - right; right. by apply cmp_gt.
Qed.
End OrderFacts.

#[export] Hint Resolve klt_irrefl klt_neq : session.

(** Case analysis on a comparison, with the matching order facts. *)
Ltac cmp_case x y :=
  let E := fresh "Ecmp" in
  destruct (cmp x y) eqn:E;
  [apply cmp_eq in E; subst | change (klt x y) in E | apply cmp_gt in E].

#[export] Instance ordered_Z : Ordered Z.
Proof.
  refine {| cmp := Z.compare |}.
  - intros. apply Z.compare_eq_iff.
  - intros. apply Z.compare_antisym.
  - intros x y z. rewrite !Z.compare_lt_iff. lia.
Defined.

#[export] Instance ordered_ascii : Ordered ascii.
Proof.
  refine {| cmp c c' := Z.compare (byte_val c) (byte_val c') |}.
  - intros. rewrite Z.compare_eq_iff. split; [apply byte_val_inj | by intros ->].
  - intros. apply Z.compare_antisym.
  - intros x y z. rewrite !Z.compare_lt_iff. lia.
Defined.

Section LexFacts.
Context {A : Type} `{Ordered A}.

Lemma lex_cmp_eq (l1 l2 : list A) : lex_cmp l1 l2 = Eq <-> l1 = l2.
Proof.
  revert l2; induction l1 as [|x l1 IH]; intros [|y l2]; cbn; try done.
  cmp_case x y.
  - rewrite IH. naive_solver.
  - apply klt_neq in Ecmp. naive_solver.
  - apply klt_neq in Ecmp. naive_solver.
Qed.

Lemma lex_cmp_opp (l1 l2 : list A) : lex_cmp l2 l1 = CompOpp (lex_cmp l1 l2).
Proof.
  revert l2; induction l1 as [|x l1 IH]; intros [|y l2]; cbn; try done.
  rewrite (cmp_opp x y). destruct (cmp x y); cbn; auto.
Qed.

Lemma lex_cmp_trans (l1 l2 l3 : list A) :
  lex_cmp l1 l2 = Lt -> lex_cmp l2 l3 = Lt -> lex_cmp l1 l3 = Lt.
Proof.
  revert l2 l3; induction l1 as [|x l1 IH]; intros [|y l2] [|z l3]; cbn; try done.
  cmp_case x y; cmp_case y z; try done; intros; eauto.
  - by rewrite Ecmp.
  - by rewrite (cmp_trans x y z).
Qed.
End LexFacts.

#[export] Instance ordered_list {A} `{Ordered A} : Ordered (list A) :=
  {| cmp := lex_cmp; cmp_eq := lex_cmp_eq; cmp_opp := lex_cmp_opp; cmp_trans := lex_cmp_trans |}.

#[export] Instance ordered_prod {A B} `{Ordered A, Ordered B} : Ordered (A * B).
Proof.
  refine {| cmp := pair_cmp |}; unfold pair_cmp.
  - intros [a b] [a' b']; cbn. cmp_case a a'.
    + rewrite cmp_eq. naive_solver.
    + apply klt_neq in Ecmp. naive_solver.
    + apply klt_neq in Ecmp. naive_solver.
  - intros [a b] [a' b']; cbn. rewrite (cmp_opp a a').
    destruct (cmp a a'); cbn; auto. apply cmp_opp.
  - intros [a b] [a' b'] [a2 b2]; cbn. cmp_case a a'; cmp_case a' a2; try done; intros;
      eauto using cmp_trans.
    + by rewrite Ecmp.
    + by rewrite (cmp_trans a a' a2).
Defined.

(** ** Lemmas on maps *)
Section MapFacts.
Context {K V : Type} `{Ordered K}.
Implicit Types (k : K) (v : V) (m : list (K * V)).

Lemma mfind_minsert k k' v m :
  mfind k' (minsert k v m) = if keqb k' k then Some v else mfind k' m.
Proof.
  induction m as [|[k0 v0] m IH]; cbn; [done|]. cmp_case k k0; cbn.
  - by destruct (keqb_spec k' k0).
  - done.
  - rewrite IH. destruct (keqb_spec k' k0), (keqb_spec k' k); subst; auto.
    by apply klt_irrefl in Ecmp.
Qed.

Lemma mfind_minsert_eq k v m : mfind k (minsert k v m) = Some v.
Proof. by rewrite mfind_minsert, keqb_refl. Qed.

Lemma mfind_minsert_ne k k' v m : k' <> k -> mfind k' (minsert k v m) = mfind k' m.
Proof. intros Hne. rewrite mfind_minsert. by apply keqb_neq in Hne as ->. Qed.

Lemma mfind_merase k k' m : mfind k' (merase k m) = if keqb k' k then None else mfind k' m.
Proof.
  induction m as [|[k0 v0] m IH]; cbn; [by destruct (keqb k' k)|].
  destruct (keqb_spec k k0); cbn; rewrite IH;
    destruct (keqb_spec k' k), (keqb_spec k' k0); subst; congruence.
Qed.

Lemma mfind_merase_eq k m : mfind k (merase k m) = None.
Proof. by rewrite mfind_merase, keqb_refl. Qed.

Lemma mfind_merase_ne k k' m : k' <> k -> mfind k' (merase k m) = mfind k' m.
Proof. intros Hne. rewrite mfind_merase. by apply keqb_neq in Hne as ->. Qed.

Lemma mfind_memplace k k' v m :
  mfind k' (memplace k v m) =
  if keqb k' k then Some (value_or (mfind k m) v) else mfind k' m.
Proof.
  unfold memplace. destruct (mfind k m) eqn:E; cbn.
  - destruct (keqb_spec k' k); [by subst|done].
  - apply mfind_minsert.
Qed.

Lemma msorted_nil : msorted (V:=V) [].
Proof. constructor. Qed.

Lemma msorted_cons k v m : msorted ((k, v) :: m) <-> msorted m /\ Forall (fun p => k ≺ p.1) m.
Proof.
  unfold msorted. cbn. split.
  - intros [? ?]%StronglySorted_inv. rewrite Forall_map in *. done.
  - intros [? ?]. constructor; [done|]. by rewrite Forall_map.
Qed.

Lemma mfind_In k v m : mfind k m = Some v -> (k, v) ∈ m.
Proof.
  induction m as [|[k0 v0] m IH]; cbn; [done|].
  destruct (keqb_spec k k0); intros; simplify_eq; [left | right; auto].
Qed.

Lemma mfind_lt k m : Forall (fun p => k ≺ p.1) m -> mfind k m = None.
Proof.
  induction 1 as [|[k0 v0] m Hlt _ IH]; cbn; [done|].
  apply klt_neq, keqb_neq in Hlt. cbn in Hlt. by rewrite Hlt.
Qed.

Lemma In_mfind k v m : msorted m -> (k, v) ∈ m -> mfind k m = Some v.
Proof.
  induction m as [|[k0 v0] m IH]; [by intros _ ?%not_elem_of_nil|].
  intros [Hs Hlt]%msorted_cons [?|Hin]%elem_of_cons; simplify_eq; cbn.
  - by rewrite keqb_refl.
  - rewrite Forall_forall in Hlt. pose proof (Hlt _ Hin) as Hlt'. cbn in Hlt'.
    apply klt_neq in Hlt'. destruct (keqb_spec k k0); [congruence | auto].
Qed.

Lemma mfind_Some_iff k v m : msorted m -> mfind k m = Some v <-> (k, v) ∈ m.
Proof. split; [apply mfind_In | by apply In_mfind]. Qed.

Lemma minsert_Forall (P : K * V -> Prop) k v m :
  P (k, v) -> Forall P m -> Forall P (minsert k v m).
Proof.
  induction 2 as [|[k0 v0] m ?? IH]; cbn; [by repeat constructor|].
  destruct (cmp k k0); auto.
Qed.

Lemma merase_Forall (P : K * V -> Prop) k m : Forall P m -> Forall P (merase k m).
Proof. induction 1 as [|[k0 v0] m ?? IH]; cbn; [done|]. destruct (keqb k k0); auto. Qed.

Lemma msorted_minsert k v m : msorted m -> msorted (minsert k v m).
Proof.
  induction m as [|[k0 v0] m IH]; cbn; [intros; repeat constructor|].
  intros [Hs Hlt]%msorted_cons. cmp_case k k0; apply msorted_cons; auto using minsert_Forall.
  - split; [by apply msorted_cons|]. constructor; [done|].
    eapply Forall_impl; [apply Hlt|]. cbn; eauto using klt_trans.
Qed.

Lemma msorted_merase k m : msorted m -> msorted (merase k m).
Proof.
  induction m as [|[k0 v0] m IH]; cbn; [done|].
  intros [Hs Hlt]%msorted_cons. destruct (keqb k k0); auto.
  apply msorted_cons. auto using merase_Forall.
Qed.

Lemma msorted_memplace k v m : msorted m -> msorted (memplace k v m).
Proof. unfold memplace. destruct (mfind k m); auto using msorted_minsert. Qed.

(** Two sorted maps with the same contents are equal. *)
Lemma mext m1 m2 : msorted m1 -> msorted m2 -> (forall k, mfind k m1 = mfind k m2) -> m1 = m2.
Proof.
  revert m2; induction m1 as [|[k1 v1] m1 IH]; intros [|[k2 v2] m2] Hs1 Hs2 Heq; [done| | |].
  - specialize (Heq k2). cbn in Heq. by rewrite keqb_refl in Heq.
  - specialize (Heq k1). cbn in Heq. by rewrite keqb_refl in Heq.
  - apply msorted_cons in Hs1 as [Hs1 Hlt1], Hs2 as [Hs2 Hlt2].
    assert (k1 = k2) as ->.
    { destruct (klt_total k1 k2) as [Hlt|[->|Hlt]]; [|done|].
      - pose proof (Heq k1) as E. cbn in E. rewrite keqb_refl in E.
        rewrite (proj2 (keqb_neq _ _) (klt_neq _ _ Hlt)), mfind_lt in E; [done|].
        eapply Forall_impl; [apply Hlt2|]. cbn; eauto using klt_trans.
      - pose proof (Heq k2) as E. cbn in E. rewrite keqb_refl in E.
        rewrite (proj2 (keqb_neq _ _) (klt_neq _ _ Hlt)), mfind_lt in E; [done|].
        eapply Forall_impl; [apply Hlt1|]. cbn; eauto using klt_trans. }
    pose proof (Heq k2) as E. cbn in E. rewrite keqb_refl in E. simplify_eq. f_equal.
    apply IH; [done..|]. intros k. specialize (Heq k). cbn in Heq.
    destruct (keqb_spec k k2) as [Hk|]; [|done]. rewrite Hk. by rewrite !mfind_lt.
Qed.

Lemma msortedb_spec m : msortedb m = true <-> msorted m.
Proof.
  induction m as [|[k v] m IH]; cbn; [split; [constructor|done]|].
  rewrite andb_true_iff, IH, msorted_cons. split.
  - intros [Hh Hs]. split; [done|]. destruct m as [|[k' v'] m]; [done|].
    apply kltb_lt in Hh. apply msorted_cons in Hs as [_ Hlt]. constructor; [done|].
    eapply Forall_impl; [apply Hlt|]. cbn; eauto using klt_trans.
  - intros [Hs Hlt]. split; [|done]. destruct m as [|[k' v'] m]; [done|].
    apply kltb_lt. by apply Forall_cons in Hlt as [? _].
Qed.

Lemma minsert_last k v m : Forall (fun p => p.1 ≺ k) m -> minsert k v m = m ++ [(k, v)].
Proof.
  induction 1 as [|[k0 v0] m Hlt _ IH]; cbn; [done|].
  cbn in Hlt. apply cmp_gt in Hlt. by rewrite Hlt, IH.
Qed.

Lemma msorted_app m1 m2 :
  msorted (m1 ++ m2) <->
  msorted m1 /\ msorted m2 /\ (forall p q, p ∈ m1 -> q ∈ m2 -> p.1 ≺ q.1).
Proof.
  induction m1 as [|[k v] m1 IH]; cbn.
  - split; [intros; split_and!; [constructor|done|by intros ?? ?%not_elem_of_nil]|naive_solver].
  - rewrite !msorted_cons, IH, Forall_app, !Forall_forall. split.
    + intros [(?&?&Hlt) [??]]. split_and!; auto. intros p q [->|]%elem_of_cons ?; auto.
    + intros ([??]&?&Hlt). split_and!; auto.
      * intros p q ??. apply Hlt; [by right|done].
      * intros q ?. apply (Hlt (k, v)); [by left|done].
Qed.
End MapFacts.

#[export] Hint Resolve msorted_nil msorted_minsert msorted_merase msorted_memplace : session.

(** ** Lemmas on sets *)
Section SetFacts.
Context {A : Type} `{Ordered A}.
Implicit Types (x y : A) (s : list A).

Lemma smem_In x s : smem x s = true <-> x ∈ s.
Proof.
  induction s as [|y s IH]; cbn; [split; [done|by intros ?%not_elem_of_nil]|].
  rewrite elem_of_cons, <- IH. destruct (keqb_spec x y); naive_solver.
Qed.

Lemma sinsert_In x y s : y ∈ sinsert x s <-> y = x \/ y ∈ s.
Proof.
  induction s as [|z s IH]; cbn; [by rewrite list_elem_of_singleton, elem_of_nil; naive_solver|].
  cmp_case x z; rewrite !elem_of_cons, ?IH; naive_solver.
Qed.

Lemma serase_In x y s : y ∈ serase x s <-> y <> x /\ y ∈ s.
Proof.
  induction s as [|z s IH]; cbn; [rewrite elem_of_nil; naive_solver|].
  destruct (keqb_spec x z); rewrite ?elem_of_cons, IH; naive_solver.
Qed.

Lemma ssorted_cons x s : ssorted (x :: s) <-> ssorted s /\ Forall (klt x) s.
Proof. split; [apply StronglySorted_inv | intros []; by constructor]. Qed.

Lemma sinsert_Forall (P : A -> Prop) x s : P x -> Forall P s -> Forall P (sinsert x s).
Proof.
  rewrite !Forall_forall. intros Hx Hs y [->|]%sinsert_In; auto.
Qed.

Lemma ssorted_sinsert x s : ssorted s -> ssorted (sinsert x s).
Proof.
  induction s as [|y s IH]; cbn; [intros; repeat constructor|].
  intros Hy. pose proof Hy as [Hs Hlt]%ssorted_cons.
  cmp_case x y; [done | | apply ssorted_cons; auto using sinsert_Forall].
  apply ssorted_cons. split; [done|]. constructor; [done|].
  eapply Forall_impl; [apply Hlt|]. cbn; eauto using klt_trans.
Qed.

Lemma ssorted_serase x s : ssorted s -> ssorted (serase x s).
Proof.
  induction s as [|y s IH]; cbn; [done|]. intros [Hs Hlt]%ssorted_cons.
  destruct (keqb x y); [auto|]. apply ssorted_cons. split; [auto|].
  rewrite Forall_forall in *. intros z [_ ?]%serase_In. auto.
Qed.

Lemma sext s1 s2 : ssorted s1 -> ssorted s2 -> (forall x, x ∈ s1 <-> x ∈ s2) -> s1 = s2.
Proof.
  revert s2; induction s1 as [|x s1 IH]; intros [|y s2] Hs1 Hs2 Heq; [done| | |].
  - destruct (Heq y) as [_ Hy]. by apply not_elem_of_nil in Hy; [|left].
  - destruct (Heq x) as [Hx _]. by apply not_elem_of_nil in Hx; [|left].
  - apply ssorted_cons in Hs1 as [Hs1 Hlt1], Hs2 as [Hs2 Hlt2].
    rewrite Forall_forall in Hlt1, Hlt2.
    assert (x = y) as ->.
    { destruct (Heq x) as [Hx _], (Heq y) as [_ Hy].
      destruct (proj1 (elem_of_cons _ _ _) (Hx ltac:(left))) as [|Hx']; [done|].
      destruct (proj1 (elem_of_cons _ _ _) (Hy ltac:(left))) as [|Hy']; [done|].
      by destruct (klt_asym _ _ (Hlt1 _ Hy') (Hlt2 _ Hx')). }
    f_equal. apply IH; [done..|]. intros z. specialize (Heq z).
    rewrite !elem_of_cons in Heq. split; intros Hz.
    + destruct (proj1 Heq (or_intror Hz)) as [->|]; [|done].
      by apply Hlt1, klt_irrefl in Hz.
    + destruct (proj2 Heq (or_intror Hz)) as [->|]; [|done].
      by apply Hlt2, klt_irrefl in Hz.
Qed.

Lemma sinsert_last x s : Forall (fun y => y ≺ x) s -> sinsert x s = s ++ [x].
Proof.
  induction 1 as [|y s Hlt _ IH]; cbn; [done|].
  apply cmp_gt in Hlt. by rewrite Hlt, IH.
Qed.
End SetFacts.

#[export] Hint Resolve ssorted_sinsert ssorted_serase : session.
