(* ===== verification/Util.v ===== *)
(** * Utilities

    [utf8_truncate], [to_epoch_seconds], [string_iequal] of [include/session/util.hpp] and [split]
    and [parse_url] of [src/util.cpp]. *)
From S2P Require Import Prelude OMap.

(** ** Truncating UTF-8 *)

(** [(c & 0b1100'0000) == 0b1000'0000] *)
Definition is_continuation (c : ascii) : bool := Z.land (byte_val c) 192 =? 128.

(** The loop [while (n > 0 && is_continuation(val[n])) --n]; [val[n]] is in range there. *)
Fixpoint truncate_point (val : bytes) (n : nat) : nat :=
  match n with
  | O => O
  | S n' => match val !! n with
            | Some c => if is_continuation c then truncate_point val n' else n
            | None => n
            end
  end.
Definition utf8_truncate (val : bytes) (n : nat) : bytes :=
  if (length val <=? n)%nat then val else take (truncate_point val n) val.

(** ** Timestamps *)

(** Seconds, milliseconds or microseconds to seconds (the values are positive where the division
    applies, so it does not matter which way it rounds). *)
Definition to_epoch_seconds (timestamp : Z) : Z :=
  if 9000000000000 <? timestamp then timestamp / 1000000
  else if 9000000000 <? timestamp then timestamp / 1000
  else timestamp.

(** Conversion of an [int64_t] to [int]. *)
Definition to_int (z : Z) : Z := (z + 2 ^ 31) mod 2 ^ 32 - 2 ^ 31.

(** ** Strings *)

Definition lower (c : ascii) : ascii :=
  let v := byte_val c in if (65 <=? v) && (v <=? 90) then byte_of (v + 32) else c.
Definition make_lc (s : bytes) : bytes := lower <$> s.
Definition string_iequal (s1 s2 : bytes) : bool := bool_decide (make_lc s1 = make_lc s2).

(** A [std::string] passed as a C string ends at its first null byte. *)
Fixpoint c_str (s : bytes) : bytes :=
  match s with
  | [] => []
  | c :: s' => if bool_decide (c = char_nul) then [] else c :: c_str s'
  end.

(** [str.find(delim)]: the position of the first occurrence. *)
Fixpoint find_sub (delim str : bytes) : option nat :=
  if bool_decide (take (length delim) str = delim) then Some O
  else match str with [] => None | _ :: str' => S <$> find_sub delim str' end.

Definition is_empty (b : bytes) : bool := match b with [] => true | _ => false end.

(** [while (!results.empty() && results.back().empty()) results.pop_back()], on the reversed list. *)
Fixpoint drop_empty (rresults : list bytes) : list bytes :=
  match rresults with
  | r :: rest => if is_empty r then drop_empty rest else rresults
  | [] => []
  end.

(** The loop of [split]; each step shortens [str] by at least the delimiter, so the fuel
    [S (length str)] is enough for a non-empty delimiter. *)
Fixpoint split_loop (fuel : nat) (str delim : bytes) (trim : bool) (results : list bytes) :
    res (list bytes) :=
  match fuel with
  | O => Throw OutOfFuel
  | S fuel =>
      match find_sub delim str with
      | Some pos =>
          let results :=
            if negb trim || negb (bool_decide (results = [])) || (0 <? pos)%nat
            then results ++ [take pos str] else results in
          split_loop fuel (drop (pos + length delim) str) delim trim results
      | None =>
          if negb trim || negb (is_empty str) then Ok (results ++ [str])
          else Ok (rev (drop_empty (rev results)))
      end
  end.
Definition split (str delim : bytes) (trim : bool) : res (list bytes) :=
  if is_empty delim then Ok ((fun c => [c]) <$> str)
  else split_loop (S (length str)) str delim trim [].

(** ** URLs *)

Definition in_range (lo hi : ascii) (c : ascii) : bool :=
  (byte_val lo <=? byte_val c) && (byte_val c <=? byte_val hi).

(** The loop over the host name: (host, has_dot, rest of the URL). *)
Fixpoint parse_host (url host : bytes) (next_allow_dot has_dot : bool) : bytes * bool * bytes :=
  match url with
  | [] => (host, has_dot, url)
  | c :: url' =>
      if in_range "0" "9" c || in_range "a" "z" c || bool_decide (c = "-"%char)
      then parse_host url' (host ++ [c]) true has_dot
      else if in_range "A" "Z" c then parse_host url' (host ++ [lower c]) true has_dot
      else if next_allow_dot && bool_decide (c = "."%char)
      then parse_host url' (host ++ [c]) false true
      else (host, has_dot, url)
  end.

(** [std::from_chars] for a [uint16_t]: the decimal digits at the front. *)
Fixpoint take_digits (acc : Z) (s : bytes) : Z * bytes :=
  match s with
  | c :: s' => if in_range "0" "9" c then take_digits (10 * acc + (byte_val c - 48)) s' else (acc, s)
  | [] => (acc, [])
  end.
Definition from_chars_u16 (s : bytes) : option (Z * bytes) :=
  match s with
  | c :: _ => if in_range "0" "9" c then
                let '(v, r) := take_digits 0 s in if v <=? 65535 then Some (v, r) else None
              else None
  | [] => None
  end.

(** [parse_url]: (protocol, host, port, path). *)
Definition parse_url (url : bytes) : res (bytes * bytes * option Z * option bytes) :=
  let! (proto, url) :=
    match find_sub "://" url with
    | Some pos =>
        let proto_name := take pos url in
        let rest := drop (pos + 3) url in
        if string_iequal proto_name "http" then Ok (bs "http://", rest)
        else if string_iequal proto_name "https" then Ok (bs "https://", rest)
        else Throw InvalidArgument
    | None => Throw InvalidArgument
    end in
  let '(host, has_dot, url) := parse_host url [] false false in
  let! _ := throw_if ((length host <? 4)%nat || negb has_dot ||
                      bool_decide (last host = Some "."%char)) InvalidArgument in
  let! (port, url) :=
    match url with
    | c :: url' =>
        if bool_decide (c = ":"%char) then
          match from_chars_u16 url' with
          | Some (target_port, rest) =>
              if ((target_port =? 80) && bool_decide (proto = bs "http://")) ||
                 ((target_port =? 443) && bool_decide (proto = bs "https://"))
              then Ok (None, rest) else Ok (Some target_port, rest)
          | None => Throw InvalidArgument
          end
        else Ok (None, url)
    | [] => Ok (None, url)
    end in
  let path := match url with
              | c :: _ :: _ => if bool_decide (c = "/"%char) then Some url else None
              | _ => None
              end in
  Ok (proto, host, port, path).

(** ** Facts *)

Lemma truncate_point_le val n : (truncate_point val n <= n)%nat.
Proof.
  induction n as [|n IH]; cbn; [done|].
  destruct (val !! S n) as [c|]; [destruct (is_continuation c)|]; lia.
Qed.

(** The cut is in front of a byte that does not continue a code point (or at the start). *)
Lemma truncate_point_boundary val n c :
  val !! truncate_point val n = Some c -> truncate_point val n <> 0%nat -> is_continuation c = false.
Proof.
  induction n as [|n IH]; cbn; [done|].
  destruct (val !! S n) as [c'|] eqn:E; [|by rewrite E].
  destruct (is_continuation c') eqn:Ec; [done|]. rewrite E. by intros [= ->].
Qed.

Lemma utf8_truncate_ok val n :
  exists k, utf8_truncate val n = take k val /\ (length (utf8_truncate val n) <= n)%nat /\
    (forall c, val !! k = Some c -> k <> 0%nat -> is_continuation c = false).
Proof.
  unfold utf8_truncate. destruct (Nat.leb_spec (length val) n) as [Hl|Hl].
  - exists (length val). rewrite firstn_all. split_and!; [done|done|].
    intros c Hc%lookup_lt_Some. lia.
  - exists (truncate_point val n). split; [done|]. split.
    + rewrite length_take. pose proof (truncate_point_le val n). lia.
    + intros c. apply truncate_point_boundary.
Qed.

Lemma to_epoch_seconds_bound t : t <= 9000000000000000 -> to_epoch_seconds t <= 9000000000.
Proof.
  intros Ht. unfold to_epoch_seconds. destruct (Z.ltb_spec 9000000000000 t).
  - apply (Z.div_le_upper_bound t 1000000); lia.
  - destruct (Z.ltb_spec 9000000000 t); [|lia]. apply (Z.div_le_upper_bound t 1000); lia.
Qed.

Lemma to_epoch_seconds_fix t : t <= 9000000000 -> to_epoch_seconds t = t.
Proof.
  intros Ht. unfold to_epoch_seconds. by rewrite !(proj2 (Z.ltb_ge _ _)) by lia.
Qed.

Lemma to_int_id z : - 2 ^ 31 <= z < 2 ^ 31 -> to_int z = z.
Proof. intros Hz. unfold to_int. rewrite Z.mod_small; lia. Qed.

Lemma find_sub_bound delim str pos :
  find_sub delim str = Some pos -> (pos + length delim <= length str)%nat.
Proof.
  revert pos; induction str as [|c str IH]; intros pos; cbn [find_sub].
  - destruct (bool_decide _) eqn:E; [|done]. intros [= <-]. apply bool_decide_eq_true in E.
    rewrite take_nil in E. by rewrite <- E.
  - destruct (bool_decide _) eqn:E.
    + intros [= <-]. apply bool_decide_eq_true in E. rewrite <- E at 1. rewrite length_take. lia.
    + destruct (find_sub delim str); cbn; [|done]. intros [= <-]. specialize (IH n eq_refl). cbn. lia.
Qed.

Lemma split_loop_total fuel str delim trim results :
  delim <> [] -> (length str < fuel)%nat -> exists r, split_loop fuel str delim trim results = Ok r.
Proof.
  intros Hd. revert str results; induction fuel as [|fuel IH]; intros str results Hf; [lia|].
  cbn [split_loop]. destruct (find_sub delim str) as [pos|] eqn:E.
  - apply IH. apply find_sub_bound in E. rewrite length_drop.
    assert (0 < length delim)%nat by (destruct delim; [done|cbn; lia]). lia.
  - destruct (_ || _); by eexists.
Qed.

Lemma split_total str delim trim : exists r, split str delim trim = Ok r.
Proof.
  unfold split. destruct delim as [|c delim]; cbn [is_empty]; [by eexists|].
  apply split_loop_total; [done|lia].
Qed.
