(* ===== verification/Internal.v ===== *)
(** * Session ids and encoded public keys

    The checks and conversions of [src/config/internal.cpp].  The text encodings themselves are
    oxenc's and an interface here. *)
From S2P Require Import Prelude OMap Util.

(** oxenc's hex, base64 and base32z: validity of a text, decoding, and encoding. *)
Class TextEncodings := {
  is_hex : bytes -> bool;
  from_hex : bytes -> bytes;
  to_hex : bytes -> bytes;
  is_base64 : bytes -> bool;
  from_base64 : bytes -> bytes;
  to_base64 : bytes -> bytes;
  is_base32z : bytes -> bool;
  from_base32z : bytes -> bytes;
  to_base32z : bytes -> bytes;
  is_hex_to_hex : forall b, is_hex (to_hex b) = true;
  from_to_hex : forall b, from_hex (to_hex b) = b;
  to_hex_size : forall b, size_of (to_hex b) = 2 * size_of b;
  from_hex_size : forall s, is_hex s = true -> 2 * size_of (from_hex s) = size_of s;
  from_hex_app : forall s t, is_hex s = true -> is_hex t = true -> from_hex (s ++ t) = from_hex s ++ from_hex t;
  is_hex_drop : forall s n, is_hex s = true -> Nat.even n = true -> is_hex (drop n s) = true;
  to_from_hex : forall s, is_hex s = true -> to_hex (from_hex s) = make_lc s;
  is_hex_digits : forall s c, is_hex s = true -> c ∈ s ->
    in_range "0" "9" c || in_range "a" "f" c || in_range "A" "F" c = true;
  to_hex_app : forall a b, to_hex (a ++ b) = to_hex a ++ to_hex b;
  to_hex_03 : to_hex [byte_of 3] = "03";
  to_hex_05 : to_hex [byte_of 5] = "05";
  to_hex_15 : to_hex [byte_of 21] = "15";
  to_hex_25 : to_hex [byte_of 37] = "25";
  from_base64_size : forall s, is_base64 s = true -> (size_of s = 43 \/ (size_of s = 44 /\ last s = Some "="%char)) ->
    size_of (from_base64 s) = 32;
  from_base32z_size : forall s, is_base32z s = true -> size_of s = 52 -> size_of (from_base32z s) = 32
}.

Section WithEncodings.
Context `{TextEncodings}.

(** [SessionID::hex()] of [src/fields.cpp]: the prefix is added as a byte, not as hex. *)
Definition SessionID_hex (pubkey : bytes) : bytes := byte_of 5 :: to_hex pubkey.

Definition check_session_id (session_id prefix : bytes) : res unit :=
  throw_if (negb ((size_of session_id =? 64 + size_of prefix) && is_hex session_id &&
                  bool_decide (take (length prefix) session_id = prefix))) InvalidArgument.

Definition session_id_to_bytes (session_id prefix : bytes) : res bytes :=
  _ ← check_session_id session_id prefix; Ok (from_hex session_id).

Definition session_id_pk (session_id prefix : bytes) : res bytes :=
  _ ← check_session_id session_id prefix; Ok (from_hex (drop 2 session_id)).

Definition hex_pubkey (pk : bytes) : bool := (size_of pk =? 64) && is_hex pk.
Definition base64_pubkey (pk : bytes) : bool :=
  ((size_of pk =? 43) || ((size_of pk =? 44) && bool_decide (last pk = Some "="%char))) &&
  is_base64 pk.
Definition base32z_pubkey (pk : bytes) : bool := (size_of pk =? 52) && is_base32z pk.

Definition check_encoded_pubkey (pk : bytes) : res unit :=
  throw_if (negb (hex_pubkey pk || base64_pubkey pk || base32z_pubkey pk)) InvalidArgument.

Definition decode_pubkey (pk : bytes) : res bytes :=
  if hex_pubkey pk then Ok (from_hex pk)
  else if base64_pubkey pk then Ok (from_base64 pk)
  else if base32z_pubkey pk then Ok (from_base32z pk)
  else Throw InvalidArgument.

(** ** Facts *)

Lemma session_id_inv sid prefix b :
  session_id_to_bytes sid prefix = Ok b ->
  size_of sid = 64 + size_of prefix /\ is_hex sid = true /\ take (length prefix) sid = prefix /\
  b = from_hex sid.
Proof.
  unfold session_id_to_bytes, check_session_id. intros Hs. res_step Hs. injection Hs as <-.
  unfold throw_if in E. destruct (_ && _) eqn:Eb; [|done].
  apply andb_true_iff in Eb as [[Es Eh]%andb_true_iff Et%bool_decide_eq_true].
  apply Z.eqb_eq in Es. done.
Qed.

Lemma session_id_size sid prefix b :
  session_id_to_bytes sid prefix = Ok b -> size_of prefix = 2 -> size_of b = 33.
Proof.
  intros (Hs & Hh & _ & ->)%session_id_inv Hp. pose proof (from_hex_size sid Hh). lia.
Qed.

(** A session id and the hex of its bytes are the same up to case. *)
Lemma session_id_roundtrip sid prefix b :
  session_id_to_bytes sid prefix = Ok b -> to_hex b = make_lc sid.
Proof. intros (_ & Hh & _ & ->)%session_id_inv. by apply to_from_hex. Qed.

Lemma decode_pubkey_size pk k : decode_pubkey pk = Ok k -> size_of k = 32.
Proof.
  unfold decode_pubkey, hex_pubkey, base64_pubkey, base32z_pubkey. intros Hd.
  destruct ((size_of pk =? 64) && is_hex pk) eqn:E1.
  { injection Hd as <-. bool_prop. pose proof (from_hex_size pk ltac:(done)). lia. }
  destruct (_ && is_base64 pk) eqn:E2.
  { injection Hd as <-. apply andb_true_iff in E2 as [E2 Hb]. apply from_base64_size; [done|].
    apply orb_true_iff in E2 as [E2|E2]; bool_prop; [by left|by right]. }
  destruct (_ && is_base32z pk) eqn:E3; [|done]. injection Hd as <-. bool_prop.
  by apply from_base32z_size.
Qed.

Lemma check_decode_pubkey pk :
  check_encoded_pubkey pk = Ok tt <-> exists k, decode_pubkey pk = Ok k.
Proof.
  unfold check_encoded_pubkey, decode_pubkey.
  destruct (hex_pubkey pk), (base64_pubkey pk), (base32z_pubkey pk); cbn; naive_solver.
Qed.

(** What [SessionID::hex()] returns is never a session id. *)
Lemma SessionID_hex_invalid pubkey : check_session_id (SessionID_hex pubkey) "05" = Throw InvalidArgument.
Proof.
  unfold check_session_id, SessionID_hex. rewrite (bool_decide_eq_false_2 (take _ _ = _)); [by rewrite andb_false_r|].
  by destruct (to_hex pubkey).
Qed.
End WithEncodings.
