(* ===== verification/Services.v ===== *)
(** * Secure memory, random texts and files

    [src/sodium_array.cpp] and [include/session/sodium_array.hpp]: the buffers for secrets that
    libsodium allocates, and [sodium_array<unsigned char>], the only array the code uses
    ([Ed25519Secret]).  A program that uses such arrays is a list of commands; the theorem shows that
    it behaves like a program over values, without a leak, a double free or a shared buffer.
    [src/random.cpp]: [random_base32].  [src/file.cpp]: whole files.

    [sodium_ptr] is not used by the code and cannot be (its destructor and [emplace] do not compile
    when they are instantiated); neither are the branches of [sodium_array] for elements that are not
    trivial. *)
From S2P Require Import Prelude.

Definition null_bytes (n : nat) : bytes := replicate n char_nul.

(** ** Buffers

    The buffers that are allocated, by their addresses; the address 0 is the null pointer. *)
Abbreviation heap := (gmap Z bytes).

(** libsodium's allocator: a new buffer with the size that is asked for, whose bytes are not known, or
    nothing. *)
Class SodiumMalloc := {
  sodium_malloc : heap -> Z -> option (Z * bytes);
  sodium_malloc_new : forall h n p d,
    sodium_malloc h n = Some (p, d) -> p <> 0 /\ h !! p = None /\ size_of d = n
}.

(** [None] is the exception [std::bad_alloc]. *)
Definition sodium_buffer_allocate `{SodiumMalloc} (h : heap) (length : Z) : option (Z * heap) :=
  match sodium_malloc h length with
  | Some (p, d) => Some (p, <[p := d]> h)
  | None => None
  end.
(** [sodium_free] of an address that is not one of an allocated buffer is undefined. *)
Definition sodium_buffer_deallocate (h : heap) (p : Z) : res heap :=
  if p =? 0 then Ok h
  else match h !! p with Some _ => Ok (delete p h) | None => Throw UB end.
(** Writing bytes at the beginning of a buffer. *)
Definition write_buffer (h : heap) (p : Z) (s : bytes) : res heap :=
  match h !! p with
  | Some d => if size_of d <? size_of s then Throw UB else Ok (<[p := s ++ drop (length s) d]> h)
  | None => Throw UB
  end.
Definition sodium_zero_buffer (h : heap) (ptr : Z) (size : nat) : res heap :=
  if ptr =? 0 then Ok h else write_buffer h ptr (null_bytes size).
(** The destructor of a [sodium_cleared] object at an address. *)
Definition sodium_cleared_destroy (h : heap) (this : Z) (size : nat) : res heap := sodium_zero_buffer h this size.
(** [sodium_allocator<T>], with the size of an element; the product is a [size_t]. *)
Definition sodium_allocator_allocate `{SodiumMalloc} (h : heap) (n sizeof_T : Z) : option (Z * heap) :=
  sodium_buffer_allocate h ((n * sizeof_T) mod 2 ^ 64).
Definition sodium_allocator_deallocate (h : heap) (p : Z) : res heap := sodium_buffer_deallocate h p.

(** ** Arrays *)

Module SodiumArray.

Record sodium_array := { buf : Z; len : nat }.
Definition empty_array : sodium_array := {| buf := 0; len := 0%nat |}.

Section Arrays.
Context `{SodiumMalloc}.

(** The functions that allocate return whether they finished; otherwise [std::bad_alloc] was thrown. *)

Definition new_array (h : heap) (length : nat) : res (option (sodium_array * heap)) :=
  if (length =? 0)%nat then Ok (Some (empty_array, h))
  else match sodium_buffer_allocate h (Z.of_nat length) with
       | None => Ok None
       | Some (p, h) => h ← write_buffer h p (null_bytes length); Ok (Some ({| buf := p; len := length |}, h))
       end.

(** The move constructor: the new array and the other one. *)
Definition move_array (other : sodium_array) : sodium_array * sodium_array := (other, empty_array).

Definition array_reset (h : heap) (a : sodium_array) : res (heap * sodium_array) :=
  h ← sodium_buffer_deallocate h (buf a); Ok (h, empty_array).

Definition array_reset_length (h : heap) (a : sodium_array) (length : nat) : res (heap * sodium_array * bool) :=
  let! (h, a) := array_reset h a in
  if (0 <? length)%nat then
    match sodium_buffer_allocate h (Z.of_nat length) with
    | None => Ok (h, a, false)
    | Some (p, h) => h ← write_buffer h p (null_bytes length); Ok (h, {| buf := p; len := length |}, true)
    end
  else Ok (h, a, true).

(** Where [array_load] reads from: memory of the caller or a buffer. *)
Inductive source := Outside (d : bytes) | Buffer (p : Z).
Definition read_source (h : heap) (data : source) (length : nat) : res bytes :=
  match (match data with Outside d => Some d | Buffer p => h !! p end) with
  | Some d => if size_of d <? Z.of_nat length then Throw UB else Ok (take length d)
  | None => Throw UB
  end.
(** The buffers that the source can be in are those that are left after [reset()]: a buffer that is
    allocated afterwards is another one, even at the same address. *)
Definition array_load (h : heap) (a : sodium_array) (data : source) (length : nat) : res (heap * sodium_array * bool) :=
  let! (rest, _) := array_reset h a in
  let! (h, a, ok) := array_reset_length h a length in
  if negb ok || (length =? 0)%nat then Ok (h, a, ok)
  else d ← read_source rest data length; h ← write_buffer h (buf a) d; Ok (h, a, true).

(** A failing [assert] ends the program; without assertions the access is outside of the array. *)
Definition array_at (h : heap) (a : sodium_array) (i : nat) : res ascii :=
  _ ← throw_if (negb (i <? len a)%nat) UB;
  match h !! buf a with
  | Some d => match d !! i with Some c => Ok c | None => Throw UB end
  | None => Throw UB
  end.
Definition array_set_at (h : heap) (a : sodium_array) (i : nat) (c : ascii) : res heap :=
  _ ← throw_if (negb (i <? len a)%nat) UB;
  match h !! buf a with
  | Some d => if size_of d <=? Z.of_nat i then Throw UB else Ok (<[buf a := <[i := c]> d]> h)
  | None => Throw UB
  end.
Definition array_size (a : sodium_array) : nat := len a.
Definition array_empty (a : sodium_array) : bool := (len a =? 0)%nat.

(** ** Programs

    An array has a number.  Using one that is not there, or making one that is, cannot be written in
    C++ and is [Throw UB] here. *)
Inductive command :=
| New (x : nat)                                (* sodium_array() *)
| NewLength (x : nat) (length : nat)             (* sodium_array(length) *)
| Move (x y : nat)                             (* sodium_array(std::move(y)) *)
| Assign (x y : nat)                           (* x = std::move(y) *)
| Destroy (x : nat)
| Reset (x : nat)
| ResetLength (x : nat) (length : nat)
| Load (x : nat) (d : bytes) (length : nat)
| LoadArray (x y : nat) (length : nat)           (* x.load(y.data(), length) *)
| At (x : nat) (i : nat)
| SetAt (x : nat) (i : nat) (c : ascii)
| Size (x : nat)
| Empty (x : nat).

Inductive output := Done | BadAlloc | Byte (c : ascii) | Number (n : nat) | Flag (b : bool).

Record state := { objects : gmap nat sodium_array; buffers : heap }.
Definition no_arrays : state := {| objects := ∅; buffers := ∅ |}.

Definition object {A} (m : gmap nat A) (x : nat) : res A := match m !! x with Some a => Ok a | None => Throw UB end.
Definition no_object {A} (m : gmap nat A) (x : nat) : res unit := match m !! x with Some _ => Throw UB | None => Ok tt end.
Definition finished (ok : bool) : output := if ok then Done else BadAlloc.
Definition set_object (st : state) (x : nat) (a : sodium_array) (h : heap) : state :=
  {| objects := <[x := a]> (objects st); buffers := h |}.

(** The move assignment has no return statement: its execution is undefined. *)
Definition array_move_assign (h : heap) (a other : sodium_array) : res (heap * sodium_array * sodium_array) :=
  h ← sodium_buffer_deallocate h (buf a); Throw UB.

Definition array_step (st : state) (c : command) : res (state * output) :=
  match c with
  | New x => _ ← no_object (objects st) x; Ok (set_object st x empty_array (buffers st), Done)
  | NewLength x length =>
      _ ← no_object (objects st) x;
      o ← new_array (buffers st) length;
      Ok (match o with Some (a, h) => (set_object st x a h, Done) | None => (st, BadAlloc) end)
  | Move x y =>
      _ ← no_object (objects st) x;
      other ← object (objects st) y;
      let '(a, other) := move_array other in
      Ok ({| objects := <[x := a]> (<[y := other]> (objects st)); buffers := buffers st |}, Done)
  | Assign x y =>
      a ← object (objects st) x;
      other ← object (objects st) y;
      let! (h, a, other) := array_move_assign (buffers st) a other in
      Ok ({| objects := <[x := a]> (<[y := other]> (objects st)); buffers := h |}, Done)
  | Destroy x =>
      a ← object (objects st) x;
      let! (h, _) := array_reset (buffers st) a in
      Ok ({| objects := delete x (objects st); buffers := h |}, Done)
  | Reset x =>
      a ← object (objects st) x;
      let! (h, a) := array_reset (buffers st) a in Ok (set_object st x a h, Done)
  | ResetLength x length =>
      a ← object (objects st) x;
      let! (h, a, ok) := array_reset_length (buffers st) a length in Ok (set_object st x a h, finished ok)
  | Load x d length =>
      a ← object (objects st) x;
      let! (h, a, ok) := array_load (buffers st) a (Outside d) length in Ok (set_object st x a h, finished ok)
  | LoadArray x y length =>
      a ← object (objects st) x;
      other ← object (objects st) y;
      let! (h, a, ok) := array_load (buffers st) a (Buffer (buf other)) length in Ok (set_object st x a h, finished ok)
  | At x i => a ← object (objects st) x; c ← array_at (buffers st) a i; Ok (st, Byte c)
  | SetAt x i c =>
      a ← object (objects st) x; h ← array_set_at (buffers st) a i c; Ok (set_object st x a h, Done)
  | Size x => a ← object (objects st) x; Ok (st, Number (array_size a))
  | Empty x => a ← object (objects st) x; Ok (st, Flag (array_empty a))
  end.

Fixpoint array_run (st : state) (cs : list command) : res (state * list output) :=
  match cs with
  | [] => Ok (st, [])
  | c :: cs => let! (st, o) := array_step st c in let! (st, os) := array_run st cs in Ok (st, o :: os)
  end.

(** ** Programs over values

    The specification: an array is its bytes, and an allocation succeeds or fails as [ok] says. *)
Definition spec_fill (s : gmap nat bytes) (x : nat) (d : bytes) (length : nat) (ok : bool) :
    res (gmap nat bytes * output) :=
  if (0 <? length)%nat && negb ok then Ok (<[x := []]> s, BadAlloc)
  else if size_of d <? Z.of_nat length then Throw UB
  else Ok (<[x := take length d]> s, Done).

Definition spec_step (s : gmap nat bytes) (c : command) (ok : bool) : res (gmap nat bytes * output) :=
  match c with
  | New x => _ ← no_object s x; Ok (<[x := []]> s, Done)
  | NewLength x length =>
      _ ← no_object s x;
      if (0 <? length)%nat && negb ok then Ok (s, BadAlloc) else Ok (<[x := null_bytes length]> s, Done)
  | Move x y => _ ← no_object s x; d ← object s y; Ok (<[x := d]> (<[y := []]> s), Done)
  | Assign x y => Throw UB
  | Destroy x => _ ← object s x; Ok (delete x s, Done)
  | Reset x => _ ← object s x; Ok (<[x := []]> s, Done)
  | ResetLength x length => _ ← object s x; spec_fill s x (null_bytes length) length ok
  | Load x d length => _ ← object s x; spec_fill s x d length ok
  | LoadArray x y length =>
      _ ← object s x; d ← object s y; spec_fill s x (if decide (x = y) then [] else d) length ok
  | At x i => d ← object s x; match d !! i with Some c => Ok (s, Byte c) | None => Throw UB end
  | SetAt x i c =>
      d ← object s x; if (i <? length d)%nat then Ok (<[x := <[i := c]> d]> s, Done) else Throw UB
  | Size x => d ← object s x; Ok (s, Number (length d))
  | Empty x => d ← object s x; Ok (s, Flag (bool_decide (d = [])))
  end.

Fixpoint spec_run (s : gmap nat bytes) (cs : list command) (oks : list bool) : res (gmap nat bytes * list output) :=
  match cs, oks with
  | c :: cs, ok :: oks => let! (s, o) := spec_step s c ok in let! (s, os) := spec_run s cs oks in Ok (s, o :: os)
  | _, _ => Ok (s, [])
  end.

(** The buffer of an array holds its value; there is none for the empty one. *)
Definition holds (h : heap) (a : sodium_array) (d : bytes) : Prop :=
  len a = length d /\ if decide (buf a = 0) then d = [] else h !! buf a = Some d /\ d <> [].

(** Arrays with the same numbers hold the values, no two share a buffer, and every buffer belongs to an
    array. *)
Record related (o : gmap nat sodium_array) (h : heap) (s : gmap nat bytes) : Prop := {
  rel_dom : forall x, o !! x = None <-> s !! x = None;
  rel_holds : forall x a d, o !! x = Some a -> s !! x = Some d -> holds h a d;
  rel_apart : forall x y a b, o !! x = Some a -> o !! y = Some b -> buf a = buf b -> buf a <> 0 -> x = y;
  rel_owned : forall p d, h !! p = Some d -> p <> 0 /\ exists x a, o !! x = Some a /\ buf a = p
}.
Definition state_related (st : state) (s : gmap nat bytes) : Prop := related (objects st) (buffers st) s.

(** A result of the program and one of the specification. *)
Definition same_result (r : res (state * list output)) (r' : res (gmap nat bytes * list output)) : Prop :=
  match r, r' with
  | Ok (st, os), Ok (s, os') => state_related st s /\ os = os'
  | Throw e, Throw e' => e = e'
  | _, _ => False
  end.
End Arrays.

(** *** How the operations keep the relation *)

Lemma related_object o h s x a : related o h s -> o !! x = Some a -> exists d, s !! x = Some d /\ holds h a d.
Proof.
  intros R E. destruct (s !! x) as [d|] eqn:Es.
  - exists d. split; [done|]. by apply (rel_holds o h s R x).
  - apply (rel_dom o h s R) in Es. congruence.
Qed.

Lemma related_value o h s x d : related o h s -> s !! x = Some d -> exists a, o !! x = Some a /\ holds h a d.
Proof.
  intros R E. destruct (o !! x) as [a|] eqn:Eo.
  - exists a. split; [done|]. by apply (rel_holds o h s R x).
  - apply (rel_dom o h s R) in Eo. congruence.
Qed.

Lemma related_null o h s : related o h s -> h !! 0 = None.
Proof. intros R. destruct (h !! 0) eqn:E; [|done]. by apply (rel_owned o h s R) in E as [[] _]. Qed.

(** Another array keeps its value if the buffer that changes is not its own. *)
Lemma holds_other h a d p h' : holds h a d -> buf a <> p -> (forall q, q <> p -> h' !! q = h !! q) -> holds h' a d.
Proof. unfold holds. intros [? Ha] Hp Hh. split; [done|]. destruct (decide _); [done|]. by rewrite Hh. Qed.

(** Everything at once: the array [x] is replaced by one with another value, and only the buffer at
    [p], which no other array has, changes. *)
Lemma related_update o h s x a d h' p :
  related o h s -> holds h' a d -> (forall q, q <> p -> h' !! q = h !! q) ->
  (forall y b, y <> x -> o !! y = Some b -> buf b <> 0 -> buf b <> p /\ buf b <> buf a) ->
  (forall b, o !! x = Some b -> buf b = 0 \/ buf b = p \/ buf b = buf a) ->
  (p = 0 \/ h' !! p = None \/ buf a = p) -> h' !! 0 = None ->
  related (<[x := a]> o) h' (<[x := d]> s).
Proof.
  intros R Ha Hh Hy Hx Hp H0. constructor.
  - intros y. destruct (decide (y = x)) as [->|Hn]; [by rewrite !lookup_insert_eq|].
    rewrite !lookup_insert_ne by done. apply (rel_dom o h s R).
  - intros y b e. destruct (decide (y = x)) as [->|Hn].
    + rewrite !lookup_insert_eq. by intros [= <-] [= <-].
    + rewrite !lookup_insert_ne by done. intros Eb Ee. pose proof (rel_holds o h s R y b e Eb Ee) as Hb.
      destruct (decide (buf b = 0)) as [E0|Hb0].
      * unfold holds in *. by rewrite !decide_True in * by done.
      * apply (holds_other h b e p); [done| |done]. by apply (Hy y b).
  - intros y z b c. destruct (decide (y = x)) as [->|Hn], (decide (z = x)) as [->|Hn'];
      rewrite ?lookup_insert_eq, ?lookup_insert_ne by done; [done|..].
    + intros [= <-] Ec E Hne. rewrite E in Hne. by destruct (Hy z c Hn' Ec Hne) as [_ []].
    + intros Eb [= <-] E Hne. by destruct (Hy y b Hn Eb Hne) as [_ []].
    + apply (rel_apart o h s R).
  - intros q e Eq. assert (q <> 0) as Hq by congruence. split; [done|].
    destruct (decide (q = buf a)) as [->|Hqa]; [exists x, a; by rewrite lookup_insert_eq|].
    destruct (decide (q = p)) as [->|Hqp]; [destruct Hp as [?|[?|?]]; congruence|].
    rewrite Hh in Eq by done. destruct (rel_owned o h s R q e Eq) as (_ & y & b & Ey & Eb).
    destruct (decide (y = x)) as [->|Hn]; [|exists y, b; by rewrite lookup_insert_ne].
    destruct (Hx b Ey) as [?|[?|?]]; congruence.
Qed.

Lemma holds_empty h : holds h empty_array [].
Proof. by unfold holds. Qed.

Lemma related_new_empty o h s x : related o h s -> o !! x = None -> related (<[x := empty_array]> o) h (<[x := []]> s).
Proof.
  intros R E. apply (related_update o h s x empty_array [] h 0); [done|apply holds_empty|done|..].
  - cbn. done.
  - congruence.
  - by left.
  - by apply (related_null o h s).
Qed.

Lemma reset_related o h s x a :
  related o h s -> o !! x = Some a ->
  exists h', array_reset h a = Ok (h', empty_array) /\ related (<[x := empty_array]> o) h' (<[x := []]> s).
Proof.
  intros R E. destruct (related_object o h s x a R E) as (d & Es & _ & Hd). unfold array_reset, sodium_buffer_deallocate.
  destruct (decide (buf a = 0)) as [E0|H0].
  - rewrite E0. exists h. split; [done|].
    apply (related_update o h s x empty_array [] h 0); [done|apply holds_empty|done|cbn; done|..].
    + intros b Eb. left. congruence.
    + by left.
    + by apply (related_null o h s).
  - destruct Hd as [Hd _]. rewrite (proj2 (Z.eqb_neq _ _) H0), Hd. cbn [mbind res_bind].
    exists (delete (buf a) h). split; [done|].
    apply (related_update o h s x empty_array [] _ (buf a)); [done|apply holds_empty|..].
    + intros q Hq. by rewrite lookup_delete_ne.
    + intros y b Hy Eb Hb. split; [|done]. intros Eq. apply Hy. by apply (rel_apart o h s R y x b a).
    + intros b Eb. right; left. congruence.
    + right; left. by rewrite lookup_delete_eq.
    + rewrite lookup_delete_ne by done. by apply (related_null o h s).
Qed.

(** A new buffer for an array that has none. *)
Lemma alloc_related o h s x p d n :
  related o h s -> (forall b, o !! x = Some b -> buf b = 0) -> p <> 0 -> h !! p = None -> length d = n -> d <> [] ->
  related (<[x := {| buf := p; len := n |}]> o) (<[p := d]> h) (<[x := d]> s).
Proof.
  intros R Hx Hp Eh Hn Hd. apply (related_update o h s x _ d _ p); [done|..].
  - split; [done|]. cbn. rewrite decide_False by done. by rewrite lookup_insert_eq.
  - intros q Hq. by rewrite lookup_insert_ne.
  - cbn. intros y b Hy Eb Hb. assert (buf b <> p); [|done]. intros <-.
    destruct (related_object o h s y b R Eb) as (e & _ & _ & He). rewrite decide_False in He by done. destruct He. congruence.
  - intros b Eb. left. by apply Hx.
  - by right; right.
  - rewrite lookup_insert_ne by done. by apply (related_null o h s).
Qed.

(** New bytes for the buffer of an array. *)
Lemma write_related o h s x a d :
  related o h s -> o !! x = Some a -> buf a <> 0 -> length d = len a -> d <> [] ->
  related o (<[buf a := d]> h) (<[x := d]> s).
Proof.
  intros R E H0 Hl Hd. rewrite <- (insert_id o x a E).
  apply (related_update o h s x a d _ (buf a)); [done|..].
  - split; [done|]. rewrite decide_False by done. by rewrite lookup_insert_eq.
  - intros q Hq. by rewrite lookup_insert_ne.
  - intros y b Hy Eb Hb. assert (buf b <> buf a); [|done]. intros Eq. apply Hy. by apply (rel_apart o h s R y x b a).
  - intros b Eb. right; left. congruence.
  - by right; right.
  - rewrite lookup_insert_ne by done. by apply (related_null o h s).
Qed.

Lemma write_whole h p d s :
  h !! p = Some d -> length s = length d -> write_buffer h p s = Ok (<[p := s]> h).
Proof.
  intros E Hl. unfold write_buffer. rewrite E. rewrite (proj2 (Z.ltb_ge _ _)) by (unfold size_of; lia).
  rewrite drop_ge by lia. by rewrite app_nil_r.
Qed.

Lemma length_null n : length (null_bytes n) = n.
Proof. apply length_replicate. Qed.
Lemma null_not_nil n : (0 < n)%nat -> null_bytes n <> [].
Proof. by destruct n; [lia|]. Qed.

Section Steps.
Context `{SodiumMalloc}.

(** Allocating and clearing a buffer. *)
Lemma allocate_null h n p h' :
  sodium_buffer_allocate h (Z.of_nat n) = Some (p, h') ->
  p <> 0 /\ h !! p = None /\ write_buffer h' p (null_bytes n) = Ok (<[p := null_bytes n]> h).
Proof.
  unfold sodium_buffer_allocate. destruct (sodium_malloc h (Z.of_nat n)) as [[q d]|] eqn:E; [|done].
  intros [= -> <-]. apply sodium_malloc_new in E as (? & ? & Hs). split_and!; [done..|].
  rewrite (write_whole _ p d); [by rewrite insert_insert_eq|by rewrite lookup_insert_eq|].
  rewrite length_null. unfold size_of in Hs. lia.
Qed.

Lemma reset_length_related o h s x a n :
  related o h s -> o !! x = Some a ->
  exists h' a' ok, array_reset_length h a n = Ok (h', a', ok) /\ ((0 <? n)%nat = false -> ok = true) /\
    related (<[x := a']> o) h' (<[x := if ok : bool then null_bytes n else []]> s) /\ (ok = true -> (0 < n)%nat -> buf a' <> 0).
Proof.
  intros R E. destruct (reset_related o h s x a R E) as (h1 & E1 & R1). unfold array_reset_length. rewrite E1.
  destruct (Nat.ltb_spec 0 n) as [Hn|Hn].
  - destruct (sodium_buffer_allocate h1 (Z.of_nat n)) as [[p h2]|] eqn:Ea.
    + apply allocate_null in Ea as (Hp & E0 & ->). cbn [mbind res_bind].
      do 3 eexists. split; [reflexivity|]. split; [done|]. split; [|done].
      pose proof (alloc_related _ _ _ x p (null_bytes n) n R1) as R2. rewrite !insert_insert_eq in R2. apply R2.
      * intros b. rewrite lookup_insert_eq. by intros [= <-].
      * done.
      * done.
      * apply length_null.
      * by apply null_not_nil.
    + do 3 eexists. split; [reflexivity|]. done.
  - assert (n = 0%nat) as -> by lia. do 3 eexists. split; [reflexivity|]. split_and!; [done|done|intros; lia].
Qed.

(** A source and the bytes that are in it once the array [x] is reset. *)
Definition source_is (o : gmap nat sodium_array) (x : nat) (s : gmap nat bytes) (data : source) (d : bytes) : Prop :=
  match data with
  | Outside d' => d = d'
  | Buffer p => exists y b, o !! y = Some b /\ p = buf b /\ if decide (x = y) then d = [] else s !! y = Some d
  end.

Lemma read_source_related o h s x h' data d n :
  related o h s -> related (<[x := empty_array]> o) h' (<[x := []]> s) -> source_is o x s data d -> (0 < n)%nat ->
  (forall a, o !! x = Some a -> h' !! buf a = None) ->
  read_source h' data n = if size_of d <? Z.of_nat n then Throw UB else Ok (take n d).
Proof.
  intros R R' Hd Hn Hx. unfold read_source. destruct data as [d'|p]; [by cbn in Hd; subst|].
  destruct Hd as (y & b & Eb & -> & Hd). destruct (decide (x = y)) as [<-|Hxy].
  - rewrite (Hx b Eb), Hd. change (size_of []) with 0. by rewrite (proj2 (Z.ltb_lt _ _)) by lia.
  - assert (holds h' b d) as [_ Hb]; [apply (rel_holds _ _ _ R' y); by rewrite lookup_insert_ne|].
    destruct (decide (buf b = 0)) as [E0|].
    + rewrite E0, (related_null _ _ _ R'), Hb. change (size_of []) with 0. by rewrite (proj2 (Z.ltb_lt _ _)) by lia.
    + by destruct Hb as [-> _].
Qed.

Lemma reset_freed o h s x a h' : related o h s -> o !! x = Some a -> array_reset h a = Ok (h', empty_array) -> h' !! buf a = None.
Proof.
  intros R E Er. unfold array_reset, sodium_buffer_deallocate in Er. destruct (buf a =? 0) eqn:E0.
  - apply Z.eqb_eq in E0 as ->. injection Er as <-. by apply (related_null o h s).
  - destruct (h !! buf a); [|done]. injection Er as <-. by rewrite lookup_delete_eq.
Qed.

(** [load] does what the specification does, for the result [ok] of its allocation. *)
Lemma load_related o h s x a data d n :
  related o h s -> o !! x = Some a -> source_is o x s data d ->
  exists ok, match array_load h a data n, spec_fill s x d n ok with
             | Ok (h', a', ok'), Ok (s', out) => related (<[x := a']> o) h' s' /\ out = finished ok'
             | Throw e, Throw e' => e = e'
             | _, _ => False
             end.
Proof.
  intros R E Hd. destruct (reset_related o h s x a R E) as (h1 & E1 & R1).
  destruct (reset_length_related o h s x a n R E) as (h2 & a2 & ok & E2 & Hok & R2 & Hb).
  exists ok. unfold array_load, spec_fill. rewrite E1, E2. destruct ok; cbn [negb orb]; rewrite ?andb_false_r, ?andb_true_r.
  - destruct (Nat.eqb_spec n 0) as [->|Hn].
    { pose proof (size_of_nonneg d). rewrite (proj2 (Z.ltb_ge _ _)) by lia. done. }
    rewrite (read_source_related o h s x h1 data d n R R1 Hd) by
      (lia || (intros b Eb; assert (b = a) as -> by congruence; by apply (reset_freed o h s x))).
    destruct (Z.ltb_spec (size_of d) (Z.of_nat n)) as [Hs|Hs]; [done|]. cbn [mbind res_bind].
    destruct (related_object _ _ _ x a2 R2) as (e & Ee & Hl & Hh); [by rewrite lookup_insert_eq|].
    rewrite lookup_insert_eq in Ee. injection Ee as <-. rewrite decide_False in Hh by (apply Hb; lia). destruct Hh as [Hh _].
    assert (length (take n d) = n) as Ht by (rewrite length_take; unfold size_of in Hs; lia).
    rewrite (write_whole _ _ _ _ Hh) by (by rewrite length_null). split; [|done].
    pose proof (write_related _ _ _ x a2 (take n d) R2) as R3. rewrite insert_insert_eq in R3. apply R3.
    + by rewrite lookup_insert_eq.
    + apply Hb; [done|lia].
    + by rewrite Hl, length_null, Ht.
    + intros E0. rewrite E0 in Ht. cbn in Ht. lia.
  - destruct (0 <? n)%nat eqn:En; [done|]. by discriminate Hok.
Qed.

Lemma related_move o h s x y a d :
  related o h s -> o !! x = None -> o !! y = Some a -> s !! y = Some d ->
  related (<[x := a]> (<[y := empty_array]> o)) h (<[x := d]> (<[y := []]> s)).
Proof.
  intros R Ex Ey Es. assert (x <> y) as Hxy by congruence. constructor.
  - intros z. by rewrite !lookup_insert_None, (rel_dom o h s R z).
  - intros z b e. destruct (decide (z = x)) as [->|]; [rewrite !lookup_insert_eq|rewrite !(lookup_insert_ne _ x) by done].
    + intros [= <-] [= <-]. by apply (rel_holds o h s R y).
    + destruct (decide (z = y)) as [->|]; [rewrite !lookup_insert_eq|rewrite !lookup_insert_ne by done].
      * intros [= <-] [= <-]. apply holds_empty.
      * apply (rel_holds o h s R z).
  - intros z w b c Eb Ec E H0. rewrite !lookup_insert_Some in Eb, Ec.
    destruct Eb as [[<- <-]|[? [[<- <-]|[? Eb]]]], Ec as [[<- <-]|[? [[<- <-]|[? Ec]]]]; try done; try (by rewrite E in H0).
    + by pose proof (rel_apart o h s R y w a c Ey Ec E H0).
    + by pose proof (rel_apart o h s R z y b a Eb Ey E H0).
    + by apply (rel_apart o h s R z w b c).
  - intros p e Ep. destruct (rel_owned o h s R p e Ep) as (H0 & z & b & Ez & Eb). split; [done|].
    destruct (decide (z = y)) as [->|Hz].
    + exists x, a. rewrite lookup_insert_eq. split; [done|congruence].
    + exists z, b. rewrite !lookup_insert_ne by congruence. done.
Qed.

Lemma related_delete o h s x : related (<[x := empty_array]> o) h (<[x := []]> s) -> related (delete x o) h (delete x s).
Proof.
  intros R. constructor.
  - intros y. rewrite !lookup_delete_None. pose proof (rel_dom _ _ _ R y) as Hy. rewrite !lookup_insert_None in Hy.
    destruct (decide (x = y)); tauto.
  - intros y a d (Hy & Ea)%lookup_delete_Some (_ & Ed)%lookup_delete_Some.
    apply (rel_holds _ _ _ R y); by rewrite lookup_insert_ne.
  - intros y z a b (Hy & Ea)%lookup_delete_Some (Hz & Eb)%lookup_delete_Some.
    apply (rel_apart _ _ _ R); by rewrite lookup_insert_ne.
  - intros p d Ep. destruct (rel_owned _ _ _ R p d Ep) as (H0 & y & a & Ey & Ea). split; [done|].
    apply lookup_insert_Some in Ey as [[-> <-]|[Hy Ey]]; [by subst p|]. exists y, a. by rewrite lookup_delete_ne.
Qed.

Lemma at_related o h s x a d i :
  related o h s -> o !! x = Some a -> s !! x = Some d ->
  array_at h a i = match d !! i with Some c => Ok c | None => Throw UB end.
Proof.
  intros R Ea Ed. destruct (rel_holds o h s R x a d Ea Ed) as [Hl Hd]. unfold array_at, throw_if. rewrite Hl.
  destruct (Nat.ltb_spec i (length d)) as [Hi|Hi]; cbn [negb mbind res_bind].
  - destruct (decide _); [subst; cbn in Hi; lia|]. by destruct Hd as [-> _].
  - by rewrite lookup_ge_None_2.
Qed.

Lemma set_at_related o h s x a d i c :
  related o h s -> o !! x = Some a -> s !! x = Some d ->
  if (i <? length d)%nat then exists h', array_set_at h a i c = Ok h' /\ related o h' (<[x := <[i := c]> d]> s)
  else array_set_at h a i c = Throw UB.
Proof.
  intros R Ea Ed. destruct (rel_holds o h s R x a d Ea Ed) as [Hl Hd]. unfold array_set_at, throw_if. rewrite Hl.
  destruct (Nat.ltb_spec i (length d)) as [Hi|Hi]; cbn [negb mbind res_bind]; [|done].
  destruct (decide _) as [|H0]; [subst; cbn in Hi; lia|]. destruct Hd as [-> Hn].
  rewrite (proj2 (Z.leb_gt _ _)) by (unfold size_of; lia). eexists. split; [reflexivity|].
  apply write_related; [done..| |].
  - by rewrite length_insert.
  - intros E%(f_equal length). rewrite length_insert in E. cbn in E. lia.
Qed.

Lemma object_related st s x :
  state_related st s ->
  (exists a d, object (objects st) x = Ok a /\ object s x = Ok d /\ objects st !! x = Some a /\ s !! x = Some d) \/
  (object (objects st) x = Throw UB /\ object s x = Throw UB).
Proof.
  intros R. unfold object. destruct (objects st !! x) as [a|] eqn:Ea.
  - destruct (related_object _ _ _ _ _ R Ea) as (d & -> & _). left. by exists a, d.
  - right. by rewrite (proj1 (rel_dom _ _ _ R x) Ea).
Qed.

Lemma no_object_related st s x :
  state_related st s ->
  (no_object (objects st) x = Ok tt /\ no_object s x = Ok tt /\ objects st !! x = None) \/
  (no_object (objects st) x = Throw UB /\ no_object s x = Throw UB).
Proof.
  intros R. unfold no_object. destruct (objects st !! x) as [a|] eqn:Ea.
  - destruct (related_object _ _ _ _ _ R Ea) as (d & -> & _). by right.
  - left. by rewrite (proj1 (rel_dom _ _ _ R x) Ea).
Qed.

(** The results of a command. *)
Definition same_step (r : res (state * output)) (r' : res (gmap nat bytes * output)) : Prop :=
  match r, r' with
  | Ok (st, o), Ok (s, o') => state_related st s /\ o = o'
  | Throw e, Throw e' => e = e'
  | _, _ => False
  end.
Ltac with_object R x a d :=
  let Ea := fresh "Ea" in let Ed := fresh "Ed" in
  destruct (object_related _ _ x R) as [(a & d & -> & -> & Ea & Ed)|[-> ->]]; cbn [mbind res_bind]; [|by exists true].
Ltac without_object R x :=
  let Ea := fresh "Ea" in
  destruct (no_object_related _ _ x R) as [(-> & -> & Ea)|[-> ->]]; cbn [mbind res_bind]; [|by exists true].

Lemma fill_step st s x a data d n :
  state_related st s -> objects st !! x = Some a -> source_is (objects st) x s data d ->
  exists ok, same_step (let! (h, a, ok) := array_load (buffers st) a data n in Ok (set_object st x a h, finished ok))
                       (spec_fill s x d n ok).
Proof.
  intros R Ea Hd. destruct (load_related _ _ _ x a data d n R Ea Hd) as [ok Hok]. exists ok.
  destruct (array_load _ _ _ _) as [[[h' a'] ok']|], (spec_fill _ _ _ _ _) as [[s' out]|]; try done.
  by destruct Hok as [? ->].
Qed.

Lemma new_length_step st s x n :
  state_related st s -> objects st !! x = None ->
  exists ok, same_step (o ← new_array (buffers st) n;
                        Ok (match o with Some (a, h) => (set_object st x a h, Done) | None => (st, BadAlloc) end))
                       (if (0 <? n)%nat && negb ok then Ok (s, BadAlloc) else Ok (<[x := null_bytes n]> s, Done)).
Proof.
  intros R Ex. unfold new_array. destruct (Nat.eqb_spec n 0) as [->|Hn].
  - exists true. split; [|done]. by apply related_new_empty.
  - destruct (sodium_buffer_allocate (buffers st) (Z.of_nat n)) as [[p h]|] eqn:Ea.
    + apply allocate_null in Ea as (Hp & E0 & ->). exists true. rewrite andb_false_r. split; [|done].
      apply alloc_related; [done|congruence|done..|apply length_null|apply null_not_nil; lia].
    + exists false. by rewrite (proj2 (Nat.ltb_lt _ _)) by lia.
Qed.

Lemma step_related st s c : state_related st s -> exists ok, same_step (array_step st c) (spec_step s c ok).
Proof.
  intros R. destruct c as [x|x n|x y|x y|x|x|x n|x d n|x y n|x i|x i c|x|x]; cbn [array_step spec_step].
  - without_object R x. exists true. split; [|done]. by apply related_new_empty.
  - without_object R x. by apply new_length_step.
  - without_object R x. with_object R y a d. exists true. split; [|done]. by apply related_move.
  - exists true. unfold object, array_move_assign, sodium_buffer_deallocate.
    destruct (objects st !! x) as [a|]; [|done]. destruct (objects st !! y); [|done]. cbn [mbind res_bind].
    destruct (buf a =? 0); [done|]. by destruct (buffers st !! buf a).
  - with_object R x a d. destruct (reset_related _ _ _ x a R Ea) as (h & -> & R'). exists true. split; [|done].
    by apply related_delete.
  - with_object R x a d. destruct (reset_related _ _ _ x a R Ea) as (h & -> & R'). by exists true.
  - with_object R x a d.
    destruct (reset_length_related _ _ _ x a n R Ea) as (h & a' & ok & -> & Hok & R' & _). exists ok. unfold spec_fill.
    rewrite (proj2 (Z.ltb_ge _ _)) by (unfold size_of; rewrite length_null; lia).
    rewrite (take_ge (null_bytes n)) by (by rewrite length_null).
    destruct ok; [by rewrite andb_false_r|]. destruct (0 <? n)%nat; [done|]. by discriminate Hok.
  - with_object R x a e. by apply fill_step.
  - with_object R x a d. with_object R y b e. apply fill_step; [done..|]. exists y, b. split_and!; [done..|].
    by destruct (decide (x = y)).
  - with_object R x a d. exists true. rewrite (at_related _ _ _ x a d i R Ea Ed). by destruct (d !! i).
  - with_object R x a d. exists true. pose proof (set_at_related _ _ _ x a d i c R Ea Ed) as Hs.
    destruct (i <? length d)%nat; [|by rewrite Hs]. destruct Hs as (h & -> & R'). split; [|done].
    unfold state_related, set_object. cbn. by rewrite insert_id.
  - with_object R x a d. exists true. split; [done|]. unfold array_size. by rewrite (proj1 (rel_holds _ _ _ R x a d Ea Ed)).
  - with_object R x a d. exists true. split; [done|]. unfold array_empty.
    rewrite (proj1 (rel_holds _ _ _ R x a d Ea Ed)). by destruct d.
Qed.

Lemma run_related cs st s :
  state_related st s -> exists oks, length oks = length cs /\ same_result (array_run st cs) (spec_run s cs oks).
Proof.
  revert st s. induction cs as [|c cs IH]; intros st s R; [by exists []|].
  destruct (step_related st s c R) as [ok Hok]. unfold same_step in Hok. cbn [array_run].
  destruct (array_step st c) as [[st' o]|e], (spec_step s c ok) as [[s' o']|e'] eqn:Es; try done.
  - destruct Hok as [R' <-]. destruct (IH st' s' R') as (oks & Hl & Ho). exists (ok :: oks).
    split; [by cbn; rewrite Hl|]. cbn [spec_run]. rewrite Es. unfold same_result in *.
    destruct (array_run st' cs) as [[st'' os]|], (spec_run s' cs oks) as [[s'' os']|]; try done.
    by destruct Ho as [? <-].
  - exists (ok :: replicate (length cs) true). split; [by cbn; rewrite length_replicate|]. cbn [spec_run]. by rewrite Es, Hok.
Qed.

Lemma related_nothing : state_related no_arrays ∅.
Proof. constructor; cbn; [done|by intros ??? []%lookup_empty_Some|by intros ???? []%lookup_empty_Some|by intros ?? []%lookup_empty_Some]. Qed.

Lemma no_leak o h s : related o h s -> o = ∅ -> h = ∅.
Proof.
  intros R ->. apply map_empty. intros p. destruct (h !! p) eqn:E; [|done].
  destruct (rel_owned _ _ _ R p _ E) as (_ & x & a & Ex & _). by rewrite lookup_empty in Ex.
Qed.
End Steps.
End SodiumArray.

(** ** Random texts *)

Definition base32_charset : bytes := "ABCDEFGHIJKLMNOPQRSTUVWXYZ234567".

(** [random_base32(size)] with the numbers that [csrng] gives one after the other. *)
Definition random_base32 (csrng : nat -> Z) (size : nat) : bytes :=
  let n_chars := size_of base32_charset in
  (fun i => nth (Z.to_nat (csrng i mod n_chars)) base32_charset char_nul) <$> seq 0 size.

Lemma length_random_base32 csrng size : length (random_base32 csrng size) = size.
Proof. unfold random_base32. by rewrite length_fmap, length_seq. Qed.

Lemma random_base32_chars csrng size : Forall (fun c => c ∈ base32_charset) (random_base32 csrng size).
Proof.
  apply Forall_fmap, Forall_true. intros i. unfold compose. apply list_elem_of_In, nth_In.
  assert (0 <= csrng i mod size_of base32_charset < size_of base32_charset) as Hi by (by apply Z.mod_pos_bound).
  unfold size_of in *. lia.
Qed.

(** ** Files

    The regular files by their names.  Whether a file can be opened for writing is up to the system;
    opening one that cannot be opened throws ([std::ios_base::failure], a [std::runtime_error]). *)
Section Files.
Abbreviation files := (gmap bytes bytes).
Variable writable : bytes -> bool.

(** The stream at the beginning of a file that is empty now. *)
Definition open_for_writing (fs : files) (filename : bytes) : res files :=
  if writable filename then Ok (<[filename := []]> fs) else Throw RuntimeError.
(** The contents behind the stream. *)
Definition open_for_reading (fs : files) (filename : bytes) : res bytes :=
  match fs !! filename with Some contents => Ok contents | None => Throw RuntimeError end.
Definition read_whole_file (fs : files) (filename : bytes) : res bytes :=
  contents ← open_for_reading fs filename;
  let size := length contents in Ok (take size contents).
Definition write_whole_file (fs : files) (filename contents : bytes) : res files :=
  fs ← open_for_writing fs filename;
  Ok (<[filename := contents]> fs).

(** What is written is read, and other files do not change. *)
Lemma write_read_file fs filename contents fs' other :
  write_whole_file fs filename contents = Ok fs' ->
  read_whole_file fs' other = if decide (other = filename) then Ok contents else read_whole_file fs other.
Proof.
  unfold write_whole_file, open_for_writing, read_whole_file, open_for_reading. destruct (writable filename); [|done].
  cbn [mbind res_bind]. intros [= <-]. rewrite insert_insert_eq. destruct (decide _) as [->|].
  - rewrite lookup_insert_eq. cbn. by rewrite take_ge.
  - by rewrite lookup_insert_ne.
Qed.
End Files.

(** ** The property of the arrays *)

Import SodiumArray.

(** C31: programs that use secure arrays behave like programs over byte strings.  For every sequence of
    constructions, moves, resets, loads, accesses and destructions, the outputs are those of the
    specification, in which an array is its bytes and an allocation may fail; each array then holds its
    value in a buffer of its own, and no buffer is left when no array is.  The program is undefined
    exactly where the specification is: for an index or a source that is too short, for an array that is
    loaded from itself, for every move assignment, and for an array that does not exist, or is made
    again, which a program in C++ cannot do. *)
Theorem secure_arrays_refine `{SodiumMalloc} cs :
  exists oks, length oks = length cs /\ same_result (array_run no_arrays cs) (spec_run ∅ cs oks) /\
    forall st os, array_run no_arrays cs = Ok (st, os) -> objects st = ∅ -> buffers st = ∅.
Proof.
  destruct (run_related cs no_arrays ∅) as (oks & Hl & Hr); [by apply related_nothing|]. exists oks. split_and!; [done..|].
  intros st os E Ho. rewrite E in Hr. unfold same_result in Hr.
  destruct (spec_run ∅ cs oks) as [[s os']|]; [|done]. destruct Hr as [R _]. by apply (no_leak (objects st) (buffers st) s).
Qed.

(** An allocator that takes the addresses above all others, and at most 64 bytes at once. *)
Definition top (h : heap) : Z := map_fold (fun p _ m => Z.max p m) 0 h.
Lemma top_spec h p d : h !! p = Some d -> p <= top h.
Proof.
  revert p d. unfold top.
  apply (map_fold_weak_ind (fun (r : Z) (m : heap) => forall p d, m !! p = Some d -> p <= r)); [done|].
  intros i x m r Hi IH p d [[-> ->]|[Hn E]]%lookup_insert_Some; [lia|]. apply IH in E. lia.
Qed.
#[refine] Definition toy_malloc : SodiumMalloc := {|
  sodium_malloc h n := if (0 <=? n) && (n <=? 64) then Some (Z.max 0 (top h) + 1, replicate (Z.to_nat n) "x"%char) else None
|}.
Proof.
  intros h n p d. destruct ((0 <=? n) && (n <=? 64)) eqn:E; [|done]. bool_prop. intros [= <- <-]. split_and!.
  - lia.
  - destruct (h !! _) eqn:Eh; [|done]. apply top_spec in Eh. lia.
  - unfold size_of. rewrite length_replicate. lia.
Defined.

Definition ex_program : list command :=
  [New 0; NewLength 1 3; Load 0 "secret" 6; Move 2 0; At 2 3; Size 0; LoadArray 1 2 4; SetAt 1 0 "S"%char; At 1 0;
   ResetLength 2 65; Size 2; Destroy 0; Destroy 1; Destroy 2].
Lemma secure_arrays_refine_example :
  exists st, @array_run toy_malloc no_arrays ex_program =
      Ok (st, [Done; Done; Done; Done; Byte "r"%char; Number 0; Done; Done; Byte "S"%char; BadAlloc; Number 0; Done; Done; Done]) /\
    buffers st = ∅.
Proof.
  destruct (@secure_arrays_refine toy_malloc ex_program) as (oks & _ & _ & Hleak).
  exists (match @array_run toy_malloc no_arrays ex_program with Ok (st, _) => st | Throw _ => no_arrays end).
  split; [vm_compute; reflexivity|]. eapply Hleak; vm_compute; reflexivity.
Defined.
