(* ===== verification/BtValue.v ===== *)
(** * bt-encoded values and the oxenc interface

    [oxenc::bt_value] / [bt_list] / [bt_dict], the tree the config code reads and writes, and the
    interface ([Oxenc]) through which the development uses the oxenc library, whose sources are
    not part of the repository: the encoder, the decoder, and the laws the code relies on. *)
From S2P Require Import Prelude OMap.

(** [std::variant<std::string, std::string_view, int64_t, uint64_t, bt_list, bt_dict>]: the two
    string and the two integer alternatives are one constructor each.  A [BDict] read by a
    consumer has its pairs in document order; a [bt_dict] in memory is a [std::map], so sorted. *)
Inductive bt_value :=
| BInt (z : Z)
| BStr (s : bytes)
| BList (l : list bt_value)
| BDict (d : list (bytes * bt_value)).

Abbreviation bt_dict := (list (bytes * bt_value)).
Abbreviation bt_list := (list bt_value).

Section BtInd.
Variable P : bt_value -> Prop.
Hypothesis HInt : forall z, P (BInt z).
Hypothesis HStr : forall s, P (BStr s).
Hypothesis HList : forall l, Forall P l -> P (BList l).
Hypothesis HDict : forall d, Forall (fun kv => P kv.2) d -> P (BDict d).

Fixpoint bt_value_nested_ind (v : bt_value) : P v :=
  match v with
  | BInt z => HInt z
  | BStr s => HStr s
  | BList l =>
      HList l ((fix go l : Forall P l :=
        match l with
        | [] => Forall_nil_2 _
        | x :: l' => Forall_cons_2 _ _ _ (bt_value_nested_ind x) (go l')
        end) l)
  | BDict d =>
      HDict d ((fix go d : Forall (fun kv => P kv.2) d :=
        match d with
        | [] => Forall_nil_2 _
        | kv :: d' => Forall_cons_2 _ _ _ (bt_value_nested_ind kv.2) (go d')
        end) d)
  end.
End BtInd.

Definition bt_value_eq_dec_ : forall x y : bt_value, {x = y} + {x <> y}.
Proof.
  fix IH 1. intros [] []; try (right; discriminate).
  - destruct (decide (z = z0)) as [->|]; [by left | right; congruence].
  - destruct (decide (s = s0)) as [->|]; [by left | right; congruence].
  - destruct (list_eq_dec (dec := IH) l l0) as [->|]; [by left | right; congruence].
  - assert (forall a b : bytes * bt_value, {a = b} + {a <> b}) as IHp.
    { intros [k v] [k' v']. destruct (decide (k = k')) as [->|]; [|right; congruence].
      destruct (IH v v') as [->|]; [by left | right; congruence]. }
    destruct (list_eq_dec (dec := IHp) d d0) as [->|]; [by left | right; congruence].
Defined.
#[export] Instance bt_value_eq_dec : EqDecision bt_value := bt_value_eq_dec_.

(** Encodable values: integers that fit [int64_t] or [uint64_t], and dicts with keys in strictly
    ascending order (a [bt_dict], or what a [bt_dict_producer] accepts). *)
Fixpoint bt_wf (v : bt_value) : Prop :=
  match v with
  | BInt z => INT64_MIN <= z <= UINT64_MAX
  | BStr _ => True
  | BList l => foldr (fun x acc => bt_wf x /\ acc) True l
  | BDict d => msorted d /\ foldr (fun kv acc => bt_wf kv.2 /\ acc) True d
  end.
Definition bt_wf_dict (d : bt_dict) : Prop := msorted d /\ Forall (fun kv => bt_wf kv.2) d.
Definition bt_wf_list (l : bt_list) : Prop := Forall bt_wf l.

Lemma bt_wf_BList l : bt_wf (BList l) <-> bt_wf_list l.
Proof.
  unfold bt_wf_list. cbn. induction l; cbn; [done|]. by rewrite Forall_cons, IHl.
Qed.

Lemma bt_wf_BDict d : bt_wf (BDict d) <-> bt_wf_dict d.
Proof.
  unfold bt_wf_dict. cbn. apply and_iff_compat_l.
  induction d; cbn; [done|]. by rewrite Forall_cons, IHd.
Qed.

(** ** The oxenc library

    - [bt_dict_parse s] is the sequence of pairs a [bt_dict_consumer] over [s] yields, with
      [true] if it ends at the dict's closing [e] and [false] if what follows the last pair is
      not decodable; [None] if [s] does not start a dict.  Bytes after the [e] are not looked at.
    - [bt_dict_prefix s n] is the part of [s] before its [n]th pair (what [consume_signature]
      hands to the verifier).
    - [bt_dict_print] / [bt_list_print] are the finished outputs of the producers, and
      [bt_dict_open d] the output so far, without the closing [e] (what [append_signature]
      hands to the signer).
    - [bt_load_list] / [bt_load_dict] are [consume_list()] / [consume_dict()]: the in-memory value
      of a list or dict that is being consumed.
    - [bt_get_int] is [oxenc::get_int<int64_t>]. *)
Class Oxenc := {
  bt_dict_parse : bytes -> option (bt_dict * bool);
  bt_dict_prefix : bytes -> nat -> bytes;
  bt_dict_print : bt_dict -> bytes;
  bt_dict_open : bt_dict -> bytes;
  bt_list_parse : bytes -> option (bt_list * bool);
  bt_list_print : bt_list -> bytes;
  bt_load_list : bt_list -> bt_list;
  bt_load_dict : bt_dict -> bt_dict;
  bt_get_int : Z -> res Z;

  bt_dict_parse_print : forall d junk,
    bt_wf_dict d -> bt_dict_parse (bt_dict_print d ++ junk) = Some (d, true);
  bt_dict_prefix_print : forall d junk n,
    bt_wf_dict d -> (n <= length d)%nat ->
    bt_dict_prefix (bt_dict_print d ++ junk) n = bt_dict_open (take n d);
  bt_dict_print_d : forall d, exists rest, bt_dict_print d = ("d"%char : ascii) :: rest;
  bt_dict_print_e : forall d, exists rest, bt_dict_print d = rest ++ [("e"%char : ascii)];
  bt_list_parse_print : forall l junk,
    bt_wf_list l -> bt_list_parse (bt_list_print l ++ junk) = Some (l, true);
  bt_list_print_size : forall l : list bytes,
    Forall (fun s => size_of s <= 99999) l ->
    size_of (bt_list_print (BStr <$> l)) <=
      2 + foldr (fun s acc =>
                   (if (size_of s) <? 10 then 2 else if size_of s <? 100 then 3 else 6)
                   + size_of s + acc) 0 l;
  bt_load_list_wf : forall l, bt_wf_list l -> bt_load_list l = l;
  bt_load_dict_wf : forall d, bt_wf_dict d -> bt_load_dict d = d;
  bt_get_int_ok : forall z, in_int64 z = true -> bt_get_int z = Ok z;
  bt_get_int_err : forall z, in_int64 z = false -> bt_get_int z = Throw OverflowError
}.

(** ** Consuming a top-level dict

    The state of a [bt_dict_consumer]: the bytes it was built on, how many pairs it has consumed,
    and the pairs that remain.  A consumer over a nested dict or list is the list of the pairs
    or elements that remain (oxenc decodes nested data before it hands out their consumer). *)
Record dict_consumer := {
  dc_src : bytes;
  dc_pos : nat;
  dc_rest : bt_dict;
  dc_complete : bool
}.

Definition dc_advance (c : dict_consumer) : dict_consumer :=
  {| dc_src := dc_src c; dc_pos := S (dc_pos c); dc_rest := tail (dc_rest c);
     dc_complete := dc_complete c |}.

Definition dc_is_finished (c : dict_consumer) : bool :=
  match dc_rest c with [] => dc_complete c | _ :: _ => false end.

(** [key()]: throws when there is no further pair. *)
Definition dc_key (c : dict_consumer) : res bytes :=
  match dc_rest c with [] => Throw BtInvalid | (k, _) :: _ => Ok k end.

(** The value of the current pair, and the consumer after it. *)
Definition dc_next (c : dict_consumer) : res (bytes * bt_value * dict_consumer) :=
  match dc_rest c with [] => Throw BtInvalid | (k, v) :: _ => Ok (k, v, dc_advance c) end.

(** [skip_until(find)]: drops pairs with smaller keys; true iff the key was found. *)
Fixpoint skip_pairs (find : bytes) (rest : bt_dict) : nat * bt_dict :=
  match rest with
  | [] => (O, [])
  | (k, v) :: rest' =>
      if kltb k find then let '(n, r) := skip_pairs find rest' in (S n, r) else (O, rest)
  end.

Definition dc_skip_until (find : bytes) (c : dict_consumer) : res (bool * dict_consumer) :=
  let '(n, r) := skip_pairs find (dc_rest c) in
  let c' := {| dc_src := dc_src c; dc_pos := dc_pos c + n; dc_rest := r;
               dc_complete := dc_complete c |} in
  match r with
  | [] => if dc_complete c then Ok (false, c') else Throw BtInvalid
  | (k, _) :: _ => Ok (keqb k find, c')
  end.

Definition dc_open `{Oxenc} (s : bytes) : res dict_consumer :=
  match bt_dict_parse s with
  | Some (d, complete) => Ok {| dc_src := s; dc_pos := 0; dc_rest := d; dc_complete := complete |}
  | None => Throw BtInvalid
  end.

(** Typed accessors of a consumed value; all throw on a value of another type. *)
Definition as_int64 (v : bt_value) : res Z :=
  match v with BInt z => if in_int64 z then Ok z else Throw BtInvalid | _ => Throw BtInvalid end.
Definition as_string (v : bt_value) : res bytes :=
  match v with BStr s => Ok s | _ => Throw BtInvalid end.
Definition as_list (v : bt_value) : res bt_list :=
  match v with BList l => Ok l | _ => Throw BtInvalid end.
Definition as_dict (v : bt_value) : res bt_dict :=
  match v with BDict d => Ok d | _ => Throw BtInvalid end.
