(* ===== verification/ThirdParty.v ===== *)
(** * Interfaces of the other libraries the code calls

    libsodium and zstd are not part of the repository: each is a class with the functions the
    code uses and the documented facts it relies on. *)
From S2P Require Import Prelude.

(** libsodium's [crypto_generichash_blake2b(out, outlen, in, inlen, key, keylen)]. *)
Class Blake2b := {
  generichash : Z -> bytes -> bytes -> bytes;
  generichash_size : forall n key inp, 0 <= n -> size_of (generichash n key inp) = n
}.

(** [crypto_aead_xchacha20poly1305_ietf_encrypt] / [_decrypt] without additional data:
    (message, nonce, key). *)
Definition XCHACHA_ABYTES : Z := 16.
Definition XCHACHA_NPUBBYTES : Z := 24.
Class Aead := {
  aead_encrypt : bytes -> bytes -> bytes -> bytes;
  aead_decrypt : bytes -> bytes -> bytes -> option bytes;
  aead_encrypt_size : forall m n k, size_of (aead_encrypt m n k) = size_of m + XCHACHA_ABYTES;
  aead_decrypt_encrypt : forall m n k, aead_decrypt (aead_encrypt m n k) n k = Some m;
  aead_decrypt_size : forall c n k m,
    aead_decrypt c n k = Some m -> size_of c = size_of m + XCHACHA_ABYTES
}.

(** Ed25519: key pairs from seeds (a secret key is the seed followed by the public key),
    detached signatures. *)
Class Ed25519 := {
  ed_seed_keypair : bytes -> bytes * bytes;  (* seed -> (pubkey, secret key) *)
  ed_sign : bytes -> bytes -> bytes;          (* data, secret key *)
  ed_verify : bytes -> bytes -> bytes -> bool;  (* signature, data, pubkey *)
  ed_seed_pk_size : forall seed, size_of seed = 32 -> size_of (ed_seed_keypair seed).1 = 32;
  ed_seed_sk : forall seed, size_of seed = 32 ->
    (ed_seed_keypair seed).2 = seed ++ (ed_seed_keypair seed).1;
  ed_sign_size : forall data sk, size_of (ed_sign data sk) = 64;
  ed_verify_sign : forall data seed, size_of seed = 32 ->
    ed_verify (ed_sign data (ed_seed_keypair seed).2) data (ed_seed_keypair seed).1 = true
}.

(** [crypto_sign_ed25519_sk_to_pk] copies the second half of the secret key. *)
Definition ed_sk_to_pk (sk : bytes) : bytes := drop 32 sk.

(** X25519 keys and boxes.  A sealed box is the ephemeral public key followed by a box whose
    nonce is the blake2b hash of the two public keys. *)
Definition BOX_SEALBYTES : Z := 48.
Class CryptoBox `{Blake2b} `{Ed25519} := {
  ed_pk_to_curve25519 : bytes -> option bytes;
  ed_sk_to_curve25519 : bytes -> bytes;
  scalarmult_base : bytes -> bytes;
  box_seed_keypair : bytes -> bytes * bytes;
  box_easy : bytes -> bytes -> bytes -> bytes -> bytes;  (* message, nonce, pubkey, seckey *)
  box_seal_open : bytes -> bytes -> bytes -> option bytes;  (* ciphertext, pubkey, seckey *)
  ed_curve_keys : forall seed, size_of seed = 32 ->
    ed_pk_to_curve25519 (ed_seed_keypair seed).1 =
      Some (scalarmult_base (ed_sk_to_curve25519 (ed_seed_keypair seed).2));
  ed_sk_to_curve25519_size : forall sk, size_of sk = 64 -> size_of (ed_sk_to_curve25519 sk) = 32;
  scalarmult_base_size : forall sk, size_of (scalarmult_base sk) = 32;
  box_pk_size : forall seed, size_of (box_seed_keypair seed).1 = 32;
  box_easy_size : forall m n pk sk, size_of (box_easy m n pk sk) = size_of m + 16;
  box_seal_open_easy : forall m seed sk,
    let pk := scalarmult_base sk in
    let '(eph_pk, eph_sk) := box_seed_keypair seed in
    box_seal_open (eph_pk ++ box_easy m (generichash 24 [] (eph_pk ++ pk)) pk eph_sk) pk sk = Some m
}.

(** [crypto_scalarmult_curve25519(secret key, public key)]: fails on public keys of small order;
    otherwise both sides of a key exchange compute the same secret. *)
Class X25519 `{CryptoBox} := {
  x_scalarmult : bytes -> bytes -> option bytes;
  x_scalarmult_comm : forall a b,
    x_scalarmult a (scalarmult_base b) = x_scalarmult b (scalarmult_base a);
  x_scalarmult_base : forall a b, is_Some (x_scalarmult a (scalarmult_base b))
}.

(** [randombytes_buf_deterministic(size, seed)]. *)
Class Randombytes := {
  randombytes_deterministic : Z -> bytes -> bytes;
  randombytes_size : forall n seed, 0 <= n -> size_of (randombytes_deterministic n seed) = n
}.

(** zstd: one-shot compression, and streaming decompression as the sequence of outputs of the
    successive [ZSTD_decompressStream] calls (each at most the 4096 bytes of the buffer), with
    [false] if the last call returned an error. *)
Class Zstd := {
  ZSTD_compress : bytes -> Z -> bytes;
  ZSTD_decompressStream : bytes -> list bytes * bool;
  ZSTD_roundtrip : forall data level,
    (ZSTD_decompressStream (ZSTD_compress data level)).2 = true /\
    concat (ZSTD_decompressStream (ZSTD_compress data level)).1 = data;
  ZSTD_compress_nonempty : forall data level, ZSTD_compress data level <> []
}.
