(* ===== verification/Bencode.v ===== *)
(** * A concrete bencoding

    An executable encoder and decoder that satisfies the [Oxenc] interface: it shows that the
    interface's laws can hold together, and lets the examples of the development run on the
    byte strings of the repository's own tests. *)
From S2P Require Import Prelude OMap BtValue.

Definition digit_char (d : Z) : ascii := byte_of (48 + d).
Definition digit_of (c : ascii) : option Z :=
  let v := byte_val c in if (48 <=? v) && (v <=? 57) then Some (v - 48) else None.

(** Decimal digits of [n], in front of [acc]. *)
Fixpoint print_digits (fuel : nat) (n : Z) (acc : bytes) : bytes :=
  match fuel with
  | O => acc
  | S fuel =>
      let acc := digit_char (n mod 10) :: acc in
      if n / 10 =? 0 then acc else print_digits fuel (n / 10) acc
  end.
Definition print_nat (n : Z) : bytes := print_digits (S (Z.to_nat (Z.log2 n))) n [].
Definition print_int (z : Z) : bytes :=
  if z <? 0 then ("-"%char : ascii) :: print_nat (- z) else print_nat z.

Fixpoint parse_digits (acc : Z) (s : bytes) : Z * bytes :=
  match s with
  | c :: s' => match digit_of c with
               | Some d => parse_digits (10 * acc + d) s'
               | None => (acc, s)
               end
  | [] => (acc, [])
  end.

Definition print_str (s : bytes) : bytes := print_nat (size_of s) ++ ":"%char :: s.
Definition parse_str (s : bytes) : option (bytes * bytes) :=
  match s with
  | c :: _ =>
      match digit_of c with
      | None => None
      | Some _ =>
          let '(n, r) := parse_digits 0 s in
          match r with
          | c' :: body =>
              if bool_decide (c' = ":"%char) && (n <=? size_of body)
              then Some (take (Z.to_nat n) body, drop (Z.to_nat n) body) else None
          | [] => None
          end
      end
  | [] => None
  end.

Definition parse_int (s : bytes) : option (Z * bytes) :=
  let '(sign, s) := match s with
                    | c :: s' => if bool_decide (c = "-"%char) then (-1, s') else (1, s)
                    | [] => (1, s)
                    end in
  match s with
  | c :: _ =>
      match digit_of c with
      | None => None
      | Some _ =>
          let '(n, r) := parse_digits 0 s in
          match r with
          | c' :: r' => if bool_decide (c' = "e"%char) then Some (sign * n, r') else None
          | [] => None
          end
      end
  | [] => None
  end.

Fixpoint print_value (v : bt_value) : bytes :=
  match v with
  | BInt z => "i"%char :: print_int z ++ ["e"%char]
  | BStr s => print_str s
  | BList l => "l"%char :: (foldr (fun x acc => print_value x ++ acc) [] l) ++ ["e"%char]
  | BDict d => "d"%char ::
      (foldr (fun kv acc => print_str kv.1 ++ print_value kv.2 ++ acc) [] d) ++ ["e"%char]
  end.

Definition print_elems (l : bt_list) : bytes := foldr (fun x acc => print_value x ++ acc) [] l.
Definition print_pairs (d : bt_dict) : bytes :=
  foldr (fun kv acc => print_str kv.1 ++ print_value kv.2 ++ acc) [] d.

(** Elements up to the closing [e] ([Some rest]) or to what cannot be decoded ([None]). *)
Fixpoint parse_val (fuel : nat) (s : bytes) : option (bt_value * bytes) :=
  match fuel, s with
  | S fuel, c :: s' =>
      if bool_decide (c = "i"%char) then '(z, r) ← parse_int s'; Some (BInt z, r)
      else if bool_decide (c = "l"%char) then
        match parse_elems fuel s' with (l, Some r) => Some (BList l, r) | _ => None end
      else if bool_decide (c = "d"%char) then
        match parse_pairs fuel s' with (d, Some r) => Some (BDict d, r) | _ => None end
      else '(b, r) ← parse_str s; Some (BStr b, r)
  | _, _ => None
  end
with parse_elems (fuel : nat) (s : bytes) : bt_list * option bytes :=
  match fuel, s with
  | S fuel, c :: s' =>
      if bool_decide (c = "e"%char) then ([], Some s')
      else match parse_val fuel s with
           | Some (v, r) => let '(l, o) := parse_elems fuel r in (v :: l, o)
           | None => ([], None)
           end
  | _, _ => ([], None)
  end
with parse_pairs (fuel : nat) (s : bytes) : bt_dict * option bytes :=
  match fuel, s with
  | S fuel, c :: s' =>
      if bool_decide (c = "e"%char) then ([], Some s')
      else match parse_str s with
           | Some (k, r) =>
               match parse_val fuel r with
               | Some (v, r') => let '(d, o) := parse_pairs fuel r' in ((k, v) :: d, o)
               | None => ([], None)
               end
           | None => ([], None)
           end
  | _, _ => ([], None)
  end.

Definition parse_fuel (s : bytes) : nat := (2 * length s + 2)%nat.

Definition bencode_dict_parse (s : bytes) : option (bt_dict * bool) :=
  match s with
  | c :: s' =>
      if bool_decide (c = "d"%char) then
        let '(d, o) := parse_pairs (parse_fuel s) s' in
        Some (d, match o with Some _ => true | None => false end)
      else None
  | [] => None
  end.

Definition bencode_list_parse (s : bytes) : option (bt_list * bool) :=
  match s with
  | c :: s' =>
      if bool_decide (c = "l"%char) then
        let '(l, o) := parse_elems (parse_fuel s) s' in
        Some (l, match o with Some _ => true | None => false end)
      else None
  | [] => None
  end.

Definition bencode_dict_open (d : bt_dict) : bytes := "d"%char :: print_pairs d.
Definition bencode_dict_prefix (s : bytes) (n : nat) : bytes :=
  match bencode_dict_parse s with
  | Some (d, _) => take (length (bencode_dict_open (take n d))) s
  | None => []
  end.

(** ** Correctness of the decimal notation *)

Lemma digit_of_char d : 0 <= d < 10 -> digit_of (digit_char d) = Some d.
Proof.
  intros. unfold digit_of, digit_char. rewrite byte_val_of by lia.
  replace (48 <=? 48 + d) with true by lia. replace (48 + d <=? 57) with true by lia.
  cbn. f_equal. lia.
Qed.

Lemma digit_of_other c : In c ["e"; ":"; "-"]%char -> digit_of c = None.
Proof. intros [<-|[<-|[<-|[]]]]; done. Qed.

Lemma log2_div10 n : 10 <= n -> (Z.to_nat (Z.log2 (n / 10)) < Z.to_nat (Z.log2 n))%nat.
Proof.
  intros Hn. assert (n / 10 <= n / 2) by (apply Z.div_le_compat_l; lia).
  assert (Z.log2 (n / 10) <= Z.log2 (n / 2)) by (apply Z.log2_le_mono; done).
  rewrite <- Z.div2_div, Z.div2_spec, Z.log2_shiftr in H0 by lia.
  assert (3 <= Z.log2 n) by (apply (Z.log2_le_mono 8); lia). lia.
Qed.

Lemma parse_print_digits fuel n acc a :
  0 <= n -> (Z.to_nat (Z.log2 n) < fuel)%nat ->
  exists k, 0 <= k /\ parse_digits a (print_digits fuel n acc) = parse_digits (a * k + n) acc.
Proof.
  revert n acc; induction fuel as [|fuel IH]; intros n acc Hn Hf; [lia|].
  cbn [print_digits]. pose proof (Z.mod_pos_bound n 10 ltac:(lia)).
  pose proof (Z.div_mod n 10 ltac:(lia)). destruct (Z.eqb_spec (n / 10) 0).
  - exists 10. cbn [parse_digits]. rewrite digit_of_char by lia. split; [lia|]. f_equal. lia.
  - assert (10 <= n). { destruct (Z.le_gt_cases 10 n); [done|]. rewrite Z.div_small in n0; lia. }
    pose proof (log2_div10 n ltac:(done)).
    destruct (IH (n / 10) (digit_char (n mod 10) :: acc)) as (k & Hk & ->).
    { apply Z.div_pos; lia. } { lia. }
    exists (10 * k). split; [lia|]. cbn [parse_digits]. rewrite digit_of_char by lia.
    f_equal. lia.
Qed.

Lemma print_digits_app fuel n acc : print_digits fuel n acc = print_digits fuel n [] ++ acc.
Proof.
  revert n acc; induction fuel as [|fuel IH]; intros n acc; [done|]. cbn [print_digits].
  destruct (n / 10 =? 0); [done|]. rewrite IH, (IH _ [_]). by rewrite <- app_assoc.
Qed.

Lemma parse_print_nat n c r :
  0 <= n -> digit_of c = None -> parse_digits 0 (print_nat n ++ c :: r) = (n, c :: r).
Proof.
  intros Hn Hc. unfold print_nat. rewrite <- print_digits_app.
  destruct (parse_print_digits (S (Z.to_nat (Z.log2 n))) n (c :: r) 0) as (k & _ & ->); [lia..|].
  cbn [parse_digits]. rewrite Hc. done.
Qed.

Lemma print_digits_head fuel n acc :
  0 <= n -> exists d r, 0 <= d < 10 /\ print_digits (S fuel) n acc = digit_char d :: r.
Proof.
  revert n acc; induction fuel as [|fuel IH]; intros n acc Hn; cbn [print_digits];
    pose proof (Z.mod_pos_bound n 10 ltac:(lia)); destruct (n / 10 =? 0); eauto.
  apply IH. apply Z.div_pos; lia.
Qed.

Lemma print_nat_head n : 0 <= n -> exists d r, 0 <= d < 10 /\ print_nat n = digit_char d :: r.
Proof. apply print_digits_head. Qed.

Lemma parse_print_str s r : parse_str (print_str s ++ r) = Some (s, r).
Proof.
  unfold print_str. rewrite <- app_assoc. cbn [app].
  destruct (print_nat_head (size_of s)) as (d & t & Hd & E); [apply size_of_nonneg|].
  unfold parse_str. rewrite E. cbn [app]. rewrite digit_of_char by done.
  change (digit_char d :: t ++ ?x) with ((digit_char d :: t) ++ x). rewrite <- E.
  rewrite parse_print_nat by (apply size_of_nonneg || done). cbn zeta iota beta.
  rewrite bool_decide_eq_true_2 by done. cbn [andb].
  assert ((size_of s <=? size_of (s ++ r)) = true) as ->.
  { apply Z.leb_le. rewrite size_of_app. pose proof (size_of_nonneg r). lia. }
  unfold size_of. rewrite Nat2Z.id. by rewrite take_app_length, drop_app_length.
Qed.

Lemma parse_print_int z r : parse_int (print_int z ++ "e"%char :: r) = Some (z, r).
Proof.
  assert (forall n, 0 <= n -> exists d t, 0 <= d < 10 /\ print_nat n = digit_char d :: t) as Hh
    by apply print_nat_head.
  unfold print_int. destruct (Z.ltb_spec z 0); cbn [app].
  - unfold parse_int. rewrite bool_decide_eq_true_2 by done.
    destruct (Hh (- z) ltac:(lia)) as (d & t & Hd & E). rewrite E. cbn [app].
    rewrite digit_of_char by done.
    change (digit_char d :: t ++ ?x) with ((digit_char d :: t) ++ x). rewrite <- E.
    rewrite parse_print_nat by (lia || done). cbn. f_equal. f_equal. lia.
  - destruct (Hh z ltac:(lia)) as (d & t & Hd & E). unfold parse_int. rewrite E. cbn [app].
    assert (digit_char d <> "-"%char) as Hne.
    { intros Heq. pose proof (digit_of_char d Hd) as Hx. by rewrite Heq in Hx. }
    rewrite bool_decide_eq_false_2 by done. cbn zeta iota beta. rewrite digit_of_char by done.
    change (digit_char d :: t ++ ?x) with ((digit_char d :: t) ++ x). rewrite <- E.
    rewrite parse_print_nat by (lia || done). cbn. f_equal. f_equal. lia.
Qed.

(** ** Correctness of values *)

(** The first byte of a string is a digit, so it is not one of the type markers. *)
Lemma print_str_head s :
  exists c r, print_str s = c :: r /\ c <> "i"%char /\ c <> "l"%char /\ c <> "d"%char /\ c <> "e"%char.
Proof.
  unfold print_str. destruct (print_nat_head (size_of s)) as (d & r & Hd & ->);
    [apply size_of_nonneg|].
  eexists _, _. split; [done|]. pose proof (digit_of_char d Hd) as Hx.
  split_and!; intros E; by rewrite E in Hx.
Qed.

Lemma print_value_head v : exists c r, print_value v = c :: r /\ c <> "e"%char.
Proof.
  destruct v; cbn [print_value]; eauto. destruct (print_str_head s) as (c & r & -> & ? & ? & ? & ?). eauto.
Qed.

Lemma print_value_length v : (1 <= length (print_value v))%nat.
Proof. destruct (print_value_head v) as (c & r & -> & _). cbn. lia. Qed.

Definition val_ok (v : bt_value) : Prop :=
  forall fuel r, (2 * length (print_value v) <= fuel)%nat ->
                 parse_val fuel (print_value v ++ r) = Some (v, r).

Lemma parse_print_elems l fuel r :
  Forall val_ok l -> (2 * length (print_elems l) < fuel)%nat ->
  parse_elems fuel (print_elems l ++ "e"%char :: r) = (l, Some r).
Proof.
  revert fuel; induction l as [|x l IH]; intros fuel Hl Hf; destruct fuel as [|fuel];
    try (cbn in Hf; lia); cbn [print_elems foldr app parse_elems].
  - by rewrite bool_decide_eq_true_2.
  - fold (print_elems l) in *. cbn [print_elems foldr] in Hf. fold (print_elems l) in Hf.
    rewrite length_app in Hf. pose proof (print_value_length x).
    apply Forall_cons in Hl as [Hx Hl].
    destruct (print_value_head x) as (c & t & E & Hc). rewrite <- app_assoc, E. cbn [app].
    rewrite bool_decide_eq_false_2 by done.
    change (c :: t ++ ?y) with ((c :: t) ++ y). rewrite <- E.
    rewrite Hx by lia. by rewrite IH by (done || lia).
Qed.

Lemma parse_print_pairs d fuel r :
  Forall (fun kv => val_ok kv.2) d -> (2 * length (print_pairs d) < fuel)%nat ->
  parse_pairs fuel (print_pairs d ++ "e"%char :: r) = (d, Some r).
Proof.
  revert fuel; induction d as [|[k x] d IH]; intros fuel Hl Hf; destruct fuel as [|fuel];
    try (cbn in Hf; lia); cbn [print_pairs foldr app parse_pairs].
  - by rewrite bool_decide_eq_true_2.
  - fold (print_pairs d) in *. cbn [print_pairs foldr fst snd] in Hf. fold (print_pairs d) in Hf.
    rewrite !length_app in Hf. pose proof (print_value_length x).
    apply Forall_cons in Hl as [Hx Hl]. cbn [fst snd].
    destruct (print_str_head k) as (c & t & E & _ & _ & _ & Hc).
    rewrite <- !app_assoc, E. cbn [app]. rewrite bool_decide_eq_false_2 by done.
    change (c :: t ++ ?y) with ((c :: t) ++ y). rewrite <- E, parse_print_str.
    cbn in Hx. rewrite Hx by lia. by rewrite IH by (done || lia).
Qed.

Lemma parse_print_value v : val_ok v.
Proof.
  induction v as [z|s|l IH|d IH] using bt_value_nested_ind; intros fuel r Hf;
    (destruct fuel as [|fuel];
     [match type of Hf with context [print_value ?v] => pose proof (print_value_length v) end; lia|]).
  - cbn [parse_val print_value app]. rewrite bool_decide_eq_true_2 by done.
    rewrite <- app_assoc. cbn [app]. by rewrite parse_print_int.
  - cbn [print_value]. destruct (print_str_head s) as (c & t & E & ? & ? & ? & ?).
    rewrite E. cbn [app parse_val]. rewrite !bool_decide_eq_false_2 by done.
    change (c :: t ++ ?y) with ((c :: t) ++ y). rewrite <- E. by rewrite parse_print_str.
  - cbn [parse_val print_value app]. fold (print_elems l).
    rewrite bool_decide_eq_false_2 by done. rewrite bool_decide_eq_true_2 by done.
    rewrite <- app_assoc. cbn [app]. rewrite parse_print_elems; [done|done|].
    cbn [print_value length] in Hf. fold (print_elems l) in Hf. rewrite length_app in Hf. lia.
  - cbn [parse_val print_value app]. fold (print_pairs d).
    rewrite !bool_decide_eq_false_2 by done. rewrite bool_decide_eq_true_2 by done.
    rewrite <- app_assoc. cbn [app]. rewrite parse_print_pairs; [done|done|].
    cbn [print_value length] in Hf. fold (print_pairs d) in Hf. rewrite length_app in Hf. lia.
Qed.

Lemma bencode_dict_parse_print d junk :
  bencode_dict_parse (print_value (BDict d) ++ junk) = Some (d, true).
Proof.
  cbn [print_value app bencode_dict_parse]. fold (print_pairs d).
  rewrite bool_decide_eq_true_2 by done. rewrite <- app_assoc. cbn [app].
  rewrite parse_print_pairs; [done| |].
  - apply Forall_forall. intros. apply parse_print_value.
  - unfold parse_fuel. cbn [length]. rewrite length_app. lia.
Qed.

Lemma bencode_list_parse_print l junk :
  bencode_list_parse (print_value (BList l) ++ junk) = Some (l, true).
Proof.
  cbn [print_value app bencode_list_parse]. fold (print_elems l).
  rewrite bool_decide_eq_true_2 by done. rewrite <- app_assoc. cbn [app].
  rewrite parse_print_elems; [done| |].
  - apply Forall_forall. intros. apply parse_print_value.
  - unfold parse_fuel. cbn [length]. rewrite length_app. lia.
Qed.

Lemma print_pairs_app d1 d2 : print_pairs (d1 ++ d2) = print_pairs d1 ++ print_pairs d2.
Proof.
  unfold print_pairs. induction d1 as [|kv d1 IH]; [done|]. cbn [app foldr].
  rewrite IH. by rewrite !app_assoc.
Qed.

Lemma bencode_dict_prefix_print d junk n :
  bencode_dict_prefix (print_value (BDict d) ++ junk) n = bencode_dict_open (take n d).
Proof.
  unfold bencode_dict_prefix. rewrite bencode_dict_parse_print.
  cbn [print_value]. fold (print_pairs d). rewrite <- (take_drop n d) at 2.
  rewrite print_pairs_app. cbn [app]. rewrite <- !app_assoc.
  change ("d"%char :: print_pairs (take n d) ++ ?x) with (bencode_dict_open (take n d) ++ x).
  apply take_app_length.
Qed.

(** ** The size of printed lists *)

Lemma print_digits_length fuel n acc k :
  0 <= n < 10 ^ Z.of_nat k -> (length (print_digits fuel n acc) <= length acc + Nat.max 1 k)%nat.
Proof.
  revert n acc k; induction fuel as [|fuel IH]; intros n acc k Hn; [cbn; lia|].
  cbn [print_digits]. destruct (Z.eqb_spec (n / 10) 0); [cbn [length]; lia|].
  destruct k as [|k]; [cbn in Hn; rewrite Z.div_small in n0; lia|].
  destruct k as [|k]; [cbn in Hn; rewrite Z.div_small in n0; lia|].
  etransitivity; [apply (IH _ _ (S k))|cbn [length]; lia].
  split; [apply Z.div_pos; lia|]. apply Z.div_lt_upper_bound; [lia|].
  rewrite <- Z.pow_succ_r by lia. replace (Z.succ (Z.of_nat (S k))) with (Z.of_nat (S (S k))) by lia.
  lia.
Qed.

Definition str_overhead (s : bytes) : Z :=
  if size_of s <? 10 then 2 else if size_of s <? 100 then 3 else 6.

Lemma print_str_size s :
  size_of s <= 99999 -> size_of (print_str s) <= str_overhead s + size_of s.
Proof.
  intros Hs. unfold print_str. rewrite size_of_app.
  change (":"%char :: s) with ([":"%char] ++ s). rewrite (size_of_app [_] s).
  change (size_of [":"%char]) with 1.
  pose proof (size_of_nonneg s).
  assert (forall k, size_of s < 10 ^ Z.of_nat k -> size_of (print_nat (size_of s)) <= Z.of_nat (Nat.max 1 k)) as Hk.
  { intros k Hk. unfold size_of at 1, print_nat.
    pose proof (print_digits_length (S (Z.to_nat (Z.log2 (size_of s)))) (size_of s) [] k) as Hl.
    cbn [length] in Hl. specialize (Hl ltac:(lia)). lia. }
  unfold str_overhead. fold (size_of s).
  destruct (Z.ltb_spec (size_of s) 10); [specialize (Hk 1%nat ltac:(done)); lia|].
  destruct (Z.ltb_spec (size_of s) 100); [specialize (Hk 2%nat ltac:(done)); lia|].
  specialize (Hk 5%nat ltac:(cbn; lia)); lia.
Qed.

Lemma print_elems_size (l : list bytes) :
  Forall (fun s => size_of s <= 99999) l ->
  size_of (print_elems (BStr <$> l)) <= foldr (fun s acc => str_overhead s + size_of s + acc) 0 l.
Proof.
  induction 1 as [|s l Hs _ IH]; [done|]. cbn [fmap list_fmap print_elems foldr print_value].
  fold (print_elems (list_fmap _ _ BStr l)). rewrite size_of_app.
  pose proof (print_str_size s Hs). unfold print_elems in IH. lia.
Qed.

(** ** The instance *)
#[refine] Definition bencode : Oxenc := {|
  bt_dict_parse := bencode_dict_parse;
  bt_dict_prefix := bencode_dict_prefix;
  bt_dict_print d := print_value (BDict d);
  bt_dict_open := bencode_dict_open;
  bt_list_parse := bencode_list_parse;
  bt_list_print l := print_value (BList l);
  bt_load_list l := l;
  bt_load_dict d := d;
  bt_get_int z := if in_int64 z then Ok z else Throw OverflowError
|}.
Proof.
  - intros d junk _. apply bencode_dict_parse_print.
  - intros d junk n _ _. apply bencode_dict_prefix_print.
  - intros d. by eexists.
  - intros d. cbn [print_value]. rewrite app_comm_cons. by eexists.
  - intros l junk _. apply bencode_list_parse_print.
  - intros l Hl. cbn [print_value]. fold (print_elems (BStr <$> l)).
    pose proof (print_elems_size l Hl) as Hp. unfold str_overhead in Hp.
    change (?c :: ?x ++ ?y) with ([c] ++ (x ++ y)). rewrite !size_of_app.
    change (size_of ["l"%char]) with 1. change (size_of ["e"%char]) with 1. lia.
  - done.
  - done.
  - by intros z ->.
  - by intros z ->.
Defined.
