(* ===== verification/BtMerge.v ===== *)
(** * bt dict and list merging

    [merge] of [src/bt_merge.cpp] and [merge_sorted] of [include/session/bt_merge.hpp]. *)
From S2P Require Import Prelude OMap BtValue.

(** One round of the loop of [merge]; [c] is the three-way comparison of the code.  The loop
    runs while an input is left, so [length a + length b] rounds are enough. *)
Fixpoint merge (a : bt_dict) : bt_dict -> bt_dict :=
  fix go (b : bt_dict) : bt_dict :=
    match a, b with
    | [], [] => []
    | x :: a', [] => x :: merge a' []
    | [], y :: b' => y :: go b'
    | (ka, va) :: a', (kb, vb) :: b' =>
        match cmp ka kb with
        | Lt => (ka, va) :: merge a' b
        | Eq => (ka, va) :: merge a' b'  (* equal keys: ignore value from b *)
        | Gt => (kb, vb) :: go b'
        end
    end.

Section Sorted.
Variable lt : bt_value -> bt_value -> bool.

(** [merge_sorted(a, b, cmp, duplicates)]; the two [insert]s of what is left after the loops are
    the [[]] cases. *)
Fixpoint merge_sorted_dup (a : bt_list) : bt_list -> bt_list :=
  fix go (b : bt_list) : bt_list :=
    match a, b with
    | [], _ => b
    | _, [] => a
    | x :: a', y :: b' => if negb (lt x y) then y :: go b' else x :: merge_sorted_dup a' b
    end.
Fixpoint merge_sorted_uniq (a : bt_list) : bt_list -> bt_list :=
  fix go (b : bt_list) : bt_list :=
    match a, b with
    | [], _ => b
    | _, [] => a
    | x :: a', y :: b' =>
        if lt y x then y :: go b' else if lt x y then x :: merge_sorted_uniq a' b else go b'
    end.
Definition merge_sorted (a b : bt_list) (duplicates : bool) : bt_list :=
  if duplicates then merge_sorted_dup a b else merge_sorted_uniq a b.
End Sorted.

(** ** Facts *)

Lemma merge_nil_l b : merge [] b = b.
Proof. induction b as [|y b IH]; [done|]. exact (f_equal (cons y) IH). Qed.

Lemma merge_cons_cons ka va a kb vb b :
  merge ((ka, va) :: a) ((kb, vb) :: b) =
  match cmp ka kb with
  | Lt => (ka, va) :: merge a ((kb, vb) :: b)
  | Eq => (ka, va) :: merge a b
  | Gt => (kb, vb) :: merge ((ka, va) :: a) b
  end.
Proof. reflexivity. Qed.

Lemma merge_nil_r a : merge a [] = a.
Proof. induction a as [|[k v] a IH]; [done|]. cbn. by rewrite IH. Qed.

Lemma merge_keys (P : bytes -> Prop) a b :
  Forall (fun p => P p.1) a -> Forall (fun p => P p.1) b -> Forall (fun p => P p.1) (merge a b).
Proof.
  intros Ha; revert b; induction Ha as [|[ka va] a Hka Ha IH]; intros b Hb; [by rewrite merge_nil_l|].
  induction Hb as [|[kb vb] b Hkb Hb IHb]; [by rewrite merge_nil_r; constructor|].
  rewrite merge_cons_cons. destruct (cmp ka kb); constructor; auto.
Qed.

Lemma Forall_klt_weaken {V} (k k' : bytes) (m : list (bytes * V)) :
  k ≺ k' -> Forall (fun p => k' ≺ p.1) m -> Forall (fun p => k ≺ p.1) m.
Proof. intros Hk Hf. eapply Forall_impl; [apply Hf|]. intros. by eapply klt_trans. Qed.

Lemma merge_ok a b :
  msorted a -> msorted b ->
  msorted (merge a b) /\
  forall k, mfind k (merge a b) = match mfind k a with Some v => Some v | None => mfind k b end.
Proof.
  revert b; induction a as [|[ka va] a IH]; intros b Ha Hb; [by rewrite merge_nil_l|].
  pose proof Ha as [Has Hal]%msorted_cons.
  induction b as [|[kb vb] b IHb].
  { rewrite merge_nil_r. split; [done|]. intros k. by destruct (mfind k _). }
  pose proof Hb as [Hbs Hbl]%msorted_cons. rewrite merge_cons_cons. cmp_case ka kb.
  - destruct (IH b Has Hbs) as [Hs Hf]. split; [apply msorted_cons; split; [done|by apply merge_keys]|].
    intros k. cbn [mfind]. destruct (keqb k kb); [done|]. apply Hf.
  - destruct (IH ((kb, vb) :: b) Has Hb) as [Hs Hf]. split.
    + apply msorted_cons. split; [done|]. apply merge_keys; [done|].
      constructor; [done|]. by eapply Forall_klt_weaken.
    + intros k. cbn [mfind]. destruct (keqb k ka); [done|]. apply Hf.
  - destruct (IHb Hbs) as [Hs Hf]. split.
    + apply msorted_cons. split; [done|]. apply (merge_keys (klt kb)); [|done].
      constructor; [done|]. by eapply Forall_klt_weaken.
    + intros k. cbn [mfind]. destruct (keqb_spec k kb) as [Hk|Hk]; [|apply Hf].
      subst k. destruct (keqb_spec kb ka) as [Hk|_]; [subst ka; by apply klt_irrefl in Ecmp|].
      rewrite mfind_lt; [done|]. by eapply Forall_klt_weaken.
Qed.

Section SortedFacts.
Variable lt : bt_value -> bt_value -> bool.

Lemma merge_sorted_dup_nil_r a : merge_sorted_dup lt a [] = a.
Proof. by destruct a. Qed.

Lemma merge_sorted_dup_perm a b : merge_sorted_dup lt a b ≡ₚ a ++ b.
Proof.
  revert b; induction a as [|x a IH]; intros b; [by destruct b|].
  induction b as [|y b IHb]; [by rewrite app_nil_r|].
  cbn [merge_sorted_dup]. destruct (negb (lt x y)).
  - etransitivity; [apply Permutation_skip, IHb|]. cbn. rewrite <- Permutation_middle.
    apply Permutation_swap.
  - cbn. by rewrite IH.
Qed.

(** Every element of the result is one of [a] or of [b], all of [a] are kept, and an element of
    [b] is dropped only if it is equivalent to one of [a]. *)
Lemma merge_sorted_uniq_elem a b :
  (forall v, v ∈ merge_sorted_uniq lt a b -> v ∈ a \/ v ∈ b) /\
  (forall v, v ∈ a -> v ∈ merge_sorted_uniq lt a b) /\
  (forall v, v ∈ b -> v ∈ merge_sorted_uniq lt a b \/ exists w, w ∈ a /\ lt v w = false /\ lt w v = false).
Proof.
  revert b; induction a as [|x a IH]; intros b.
  { destruct b; cbn; set_solver. }
  induction b as [|y b (IH1 & IH2 & IH3)].
  { cbn. set_solver. }
  destruct (IH (y :: b)) as (J1 & J2 & J3). cbn [merge_sorted_uniq] in *.
  destruct (lt y x) eqn:E1; [|destruct (lt x y) eqn:E2].
  - split_and!; [set_solver..|]. intros v [->|Hv]%elem_of_cons; [left; by left|].
    destruct (IH3 v Hv) as [?|?]; [left; by right|by right].
  - split_and!; [set_solver..|]. intros v Hv. destruct (J3 v Hv) as [?|(w & ? & ?)]; [left; by right|].
    right. exists w. split; [by right|done].
  - split_and!; [set_solver..|]. intros v [->|Hv]%elem_of_cons; [|by apply IH3].
    right. exists x. split; [by left|done].
Qed.
End SortedFacts.
