(* ===== verification/ConfigData.v ===== *)
(** * Config data: scalars, sets, dicts; pruning, diffs, and applying diffs

    Models the data types of [include/session/config.hpp] and the anonymous-namespace helpers
    [prune_], [diff_impl], [get_bt_*] and [apply_diff] of [src/config.cpp]. *)
From S2P Require Import Prelude OMap BtValue.

(** ** Data model *)

(** [using scalar = std::variant<int64_t, std::string>] *)
Inductive scalar :=
| SInt (z : Z)
| SStr (s : bytes).

#[export] Instance scalar_eq_dec : EqDecision scalar.
Proof. solve_decision. Defined.

(** The order of [std::variant]: by alternative first (integers before strings), then by value. *)
Definition scalar_cmp (a b : scalar) : comparison :=
  match a, b with
  | SInt x, SInt y => cmp x y
  | SInt _, SStr _ => Lt
  | SStr _, SInt _ => Gt
  | SStr x, SStr y => cmp x y
  end.

#[export] Instance ordered_scalar : Ordered scalar.
Proof.
  refine {| cmp := scalar_cmp |}; unfold scalar_cmp.
  - intros [] []; rewrite ?cmp_eq; naive_solver.
  - intros [] []; auto using cmp_opp.
  - intros [] [] []; try done; apply cmp_trans.
Defined.

(** [using dict_variant = std::variant<dict, set, scalar>], [dict = std::map<std::string, ...>],
    [set = std::set<scalar>]. *)
Inductive dict_value :=
| VDict (d : list (bytes * dict_value))
| VSet (s : list scalar)
| VScalar (s : scalar).

Abbreviation dict := (list (bytes * dict_value)).
Abbreviation cset := (list scalar).

(** [std::variant::index]. *)
Definition value_index (v : dict_value) : nat :=
  match v with VDict _ => 0 | VSet _ => 1 | VScalar _ => 2 end.

Definition is_nil {A} (l : list A) : bool := match l with [] => true | _ => false end.

(** ** Pruning *)

(** The loop of [prune_(dict&)]: (some subkey was removed, what is left). *)
Definition prune_entries (prune_value : dict_value -> bool * bool * dict_value) :
    dict -> bool * dict :=
  fix go (d : dict) :=
    match d with
    | [] => (false, [])
    | (k, v) :: d' =>
        let '(rm_key, rm_subkeys, v') := prune_value v in
        let '(removed_subkeys, rest) := go d' in
        (rm_key || rm_subkeys || removed_subkeys, if rm_key then rest else (k, v') :: rest)
    end.

(** [prune_(dict_value&)]: (should be removed from its parent, nested subkeys were removed,
    the pruned value). *)
Fixpoint prune_value (v : dict_value) : bool * bool * dict_value :=
  match v with
  | VDict d => let '(removed_subkeys, d') := prune_entries prune_value d in
               (is_nil d', removed_subkeys, VDict d')
  | VSet s => (is_nil s, false, VSet s)
  | VScalar s => (false, false, VScalar s)
  end.

(** [prune_(dict&)] on the top-level dict, as [MutableConfigMessage::prune] uses it. *)
Definition prune_dict (d : dict) : bool * dict := prune_entries prune_value d.

(** ** Diffs *)

(** The bt value a scalar is written as. *)
Definition bt_of_scalar (s : scalar) : bt_value :=
  match s with SInt z => BInt z | SStr b => BStr b end.

(** The two-iterator loop of [diff_impl(const set&, const set&)]: (added, removed). *)
Fixpoint set_diff_walk (old : cset) : cset -> cset * cset :=
  fix walk (new_ : cset) : cset * cset :=
    match old, new_ with
    | [], [] => ([], [])
    | [], n :: new' => let '(a, r) := walk new' in (n :: a, r)
    | o :: old', [] => let '(a, r) := set_diff_walk old' [] in (a, o :: r)
    | o :: old', n :: new' =>
        if kltb n o then let '(a, r) := walk new' in (n :: a, r)
        else if kltb o n then let '(a, r) := set_diff_walk old' new_ in (a, o :: r)
        else set_diff_walk old' new'
    end.

Definition diff_set (old new_ : cset) : option bt_list :=
  let '(added, removed) := set_diff_walk old new_ in
  if is_nil added && is_nil removed then None
  else Some [BList (bt_of_scalar <$> added); BList (bt_of_scalar <$> removed)].

(** [*opt] on an optional the code assumes to be engaged. *)
Definition deref {A} (o : option A) : res A :=
  match o with Some a => Ok a | None => Throw UB end.

Definition nonempty_dict (d : bt_dict) : option bt_dict := if is_nil d then None else Some d.

(** What [diff_impl(const dict&, const dict&)] records for a key that is treated as new, and for
    a key that was removed; [diff_dict] is the recursive call. *)
Definition record_added (diff_dict : dict -> dict -> res bt_dict) (n : dict_value) :
    res bt_value :=
  match n with
  | VDict d => r ← nonempty_dict <$> diff_dict [] d; BDict <$> deref r
  | VSet s => BList <$> deref (diff_set [] s)
  | VScalar _ => Ok (BStr "")
  end.
Definition record_removed (diff_dict : dict -> dict -> res bt_dict) (o : dict_value) :
    res bt_value :=
  match o with
  | VDict d => r ← nonempty_dict <$> diff_dict d []; BDict <$> deref r
  | VSet s => BList <$> deref (diff_set s [])
  | VScalar _ => Ok (BStr "-")
  end.

(** The loop of [diff_impl(const dict&, const dict&)].  Each step consumes a pair of [old] or of
    [new_], and nested calls are on values of consumed pairs, so the fuel [diff_fuel] is enough
    (see [diff_walk_total]). *)
Fixpoint diff_walk (fuel : nat) (old new_ : dict) : res bt_dict :=
  match fuel with
  | O => Throw OutOfFuel
  | S fuel =>
      let added := record_added (diff_walk fuel) in
      let removed := record_removed (diff_walk fuel) in
      match old, new_ with
      | [], [] => Ok []
      | [], (k, n) :: new' => v ← added n; df ← diff_walk fuel [] new'; Ok (minsert k v df)
      | (k, o) :: old', [] => v ← removed o; df ← diff_walk fuel old' []; Ok (minsert k v df)
      | (ko, o) :: old', (kn, n) :: new' =>
          if kltb kn ko then
            v ← added n; df ← diff_walk fuel old new'; Ok (minsert kn v df)
          else if kltb ko kn then
            v ← removed o; df ← diff_walk fuel old' new_; Ok (minsert ko v df)
          else
            match o, n with
            | VScalar a, VScalar b =>
                df ← diff_walk fuel old' new';
                Ok (if decide (a = b) then df else minsert kn (BStr "") df)
            | VDict a, VDict b =>
                r ← nonempty_dict <$> diff_walk fuel a b; df ← diff_walk fuel old' new';
                Ok (match r with Some sub => minsert kn (BDict sub) df | None => df end)
            | VSet a, VSet b =>
                df ← diff_walk fuel old' new';
                Ok (match diff_set a b with Some sub => minsert kn (BList sub) df | None => df end)
            | _, _ => (* the type changed: treated as a new value *)
                v ← added n; df ← diff_walk fuel old' new'; Ok (minsert kn v df)
            end
      end
  end.

Fixpoint value_size (v : dict_value) : nat :=
  match v with
  | VDict d => S (foldr (fun kv acc => S (value_size kv.2 + acc)) 0 d)%nat
  | _ => 1
  end.
Definition dict_size (d : dict) : nat := foldr (fun kv acc => S (value_size kv.2 + acc)) 0%nat d.
Definition diff_fuel (old new_ : dict) : nat := S (dict_size old + dict_size new_).

(** [diff_impl(const dict&, const dict&)]: [None] is [std::nullopt]. *)
Definition diff_impl (old new_ : dict) : res (option bt_dict) :=
  nonempty_dict <$> diff_walk (diff_fuel old new_) old new_.

(** ** Reading diff values *)
Section WithOxenc.
Context `{Oxenc}.

(** [get_bt_int], [get_bt_str], [get_bt_scalar] *)
Definition get_bt_int (v : bt_value) : res (option Z) :=
  match v with BInt z => Some <$> bt_get_int z | _ => Ok None end.
Definition get_bt_str (v : bt_value) : option bytes :=
  match v with BStr s => Some s | _ => None end.
Definition get_bt_scalar (v : bt_value) : res (option scalar) :=
  i ← get_bt_int v;
  match i with
  | Some z => Ok (Some (SInt z))
  | None => Ok (SStr <$> get_bt_str v)
  end.

(** ** Applying a diff *)

(** The two loops over the [added] and [removed] lists of a set diff. *)
Definition apply_added (subset : cset) (added : bt_list) : res cset :=
  foldM (fun s a => o ← get_bt_scalar a;
                    match o with Some x => Ok (sinsert x s) | None => Throw ConfigError end)
        subset added.
Definition apply_removed (subset : cset) (removed : bt_list) : res cset :=
  foldM (fun s a => o ← get_bt_scalar a;
                    match o with Some x => Ok (serase x s) | None => Throw ConfigError end)
        subset removed.

(** [std::get<bt_list>] of the list element behind an iterator that is assumed valid. *)
Definition get_sublist (l : bt_list) (i : nat) : res bt_list :=
  match l !! i with
  | Some (BList x) => Ok x
  | Some _ => Throw RuntimeError  (* std::bad_variant_access *)
  | None => Throw UB
  end.

Definition as_subdict (v : option dict_value) : dict :=
  match v with Some (VDict d) => d | _ => [] end.
Definition as_subset (v : option dict_value) : cset :=
  match v with Some (VSet s) => s | _ => [] end.

(** The body of the loop of [apply_diff] for one pair [(k, v)] of the diff; [apply_sub] is the
    recursive call.  Returns the new state of [data[k]] ([None]: erased). *)
Definition apply_entry (apply_sub : dict -> bt_dict -> dict -> res dict)
    (cur : option dict_value) (v : bt_value) (src : option dict_value) :
    res (option dict_value) :=
  match src with
  | None => Ok None
  | Some sv =>
      match v, sv with
      | BStr m, VScalar x =>
          if decide (m = "-") then Ok None
          else if decide (m = "") then Ok (Some (VScalar x))
          else Throw ConfigError
      | BStr _, _ => Ok None
      | BDict dd, VDict sd => (Some ∘ VDict) <$> apply_sub (as_subdict cur) dd sd
      | BDict _, _ => Ok None
      | BList sl, VSet _ =>
          a ← get_sublist sl 0; s ← apply_added (as_subset cur) a;
          r ← get_sublist sl 1; s' ← apply_removed s r;
          Ok (Some (VSet s'))
      | BList _, _ => Ok None
      | BInt _, _ => Throw ConfigError
      end
  end.

Definition set_entry (data : dict) (k : bytes) (r : option dict_value) : dict :=
  match r with Some v => minsert k v data | None => merase k data end.

(** [apply_diff(dict& data, const bt_dict& diff, const dict& source)], on a diff value: recursion
    is on the diff. *)
Fixpoint apply_diff_value (diff : bt_value) (data source : dict) : res dict :=
  match diff with
  | BDict df =>
      (fix go (df : bt_dict) (data : dict) : res dict :=
         match df with
         | [] => Ok data
         | (k, v) :: df' =>
             r ← apply_entry (fun d _ s => apply_diff_value v d s) (mfind k data) v
                             (mfind k source);
             go df' (set_entry data k r)
         end) df data
  | _ => Throw ConfigError
  end.

Definition apply_diff (data : dict) (diff : bt_dict) (source : dict) : res dict :=
  apply_diff_value (BDict diff) data source.
End WithOxenc.
