(* ===== verification/ConfigDataFacts.v ===== *)
(** * Facts about config data: well-formedness, pruning, the diff specification

    The declarative specification [diff_rel] of the diff format (the prose of
    docs/api/docs/config_merge_logic.md, section "Config diff updates"), the proof that
    [diff_impl] implements it, and what [apply_diff] does with such a diff. *)
From S2P Require Import Prelude OMap BtValue ConfigData.

(** ** Well-formed and pruned data *)

Definition wf_scalar (s : scalar) : Prop :=
  match s with SInt z => in_int64 z = true | SStr _ => True end.

(** The representation invariant of the C++ types: maps and sets are sorted, integers fit. *)
Fixpoint wf_value (v : dict_value) : Prop :=
  match v with
  | VDict d => msorted d /\ foldr (fun kv acc => wf_value kv.2 /\ acc) True d
  | VSet s => ssorted s /\ Forall wf_scalar s
  | VScalar s => wf_scalar s
  end.
Definition wf_dict (d : dict) : Prop := msorted d /\ Forall (fun kv => wf_value kv.2) d.

(** No empty dict or set below the top level. *)
Fixpoint pruned_value (v : dict_value) : Prop :=
  match v with
  | VDict d => d <> [] /\ foldr (fun kv acc => pruned_value kv.2 /\ acc) True d
  | VSet s => s <> []
  | VScalar _ => True
  end.
Definition pruned_dict (d : dict) : Prop := Forall (fun kv => pruned_value kv.2) d.

(** ** The diff specification *)

(** A set diff lists, in order, exactly the elements added and the elements removed. *)
Definition set_diff_rel (old new_ : cset) (added removed : cset) : Prop :=
  ssorted added /\ ssorted removed /\
  (forall x, x ∈ added <-> x ∈ new_ /\ x ∉ old) /\
  (forall x, x ∈ removed <-> x ∈ old /\ x ∉ new_).

Definition bt_set_diff (added removed : cset) : bt_value :=
  BList [BList (bt_of_scalar <$> added); BList (bt_of_scalar <$> removed)].

Inductive diff_rel : dict -> dict -> bt_dict -> Prop :=
| DiffRel old new_ df :
    msorted df ->
    (forall k, diff_entry (mfind k old) (mfind k new_) (mfind k df)) ->
    diff_rel old new_ df
with diff_entry : option dict_value -> option dict_value -> option bt_value -> Prop :=
| DE_absent : diff_entry None None None
| DE_add_scalar x : diff_entry None (Some (VScalar x)) (Some (BStr ""))
| DE_add_set s a r : set_diff_rel [] s a r -> s <> [] ->
    diff_entry None (Some (VSet s)) (Some (bt_set_diff a r))
| DE_add_dict d sub : diff_rel [] d sub -> sub <> [] ->
    diff_entry None (Some (VDict d)) (Some (BDict sub))
| DE_rm_scalar x : diff_entry (Some (VScalar x)) None (Some (BStr "-"))
| DE_rm_set s a r : set_diff_rel s [] a r -> s <> [] ->
    diff_entry (Some (VSet s)) None (Some (bt_set_diff a r))
| DE_rm_dict d sub : diff_rel d [] sub -> sub <> [] ->
    diff_entry (Some (VDict d)) None (Some (BDict sub))
| DE_same_scalar x : diff_entry (Some (VScalar x)) (Some (VScalar x)) None
| DE_set_scalar x y : x <> y -> diff_entry (Some (VScalar x)) (Some (VScalar y)) (Some (BStr ""))
| DE_same_set s : diff_entry (Some (VSet s)) (Some (VSet s)) None
| DE_chg_set s s' a r : set_diff_rel s s' a r -> s <> s' ->
    diff_entry (Some (VSet s)) (Some (VSet s')) (Some (bt_set_diff a r))
| DE_same_dict d d' : diff_rel d d' [] -> diff_entry (Some (VDict d)) (Some (VDict d')) None
| DE_chg_dict d d' sub : diff_rel d d' sub -> sub <> [] ->
    diff_entry (Some (VDict d)) (Some (VDict d')) (Some (BDict sub))
| DE_type o n v : value_index o <> value_index n -> diff_entry None (Some n) v ->
    diff_entry (Some o) (Some n) v.

Scheme diff_rel_mut := Induction for diff_rel Sort Prop
with diff_entry_mut := Induction for diff_entry Sort Prop.
Combined Scheme diff_mutind from diff_rel_mut, diff_entry_mut.

(** ** Observations: what is at a path *)

Fixpoint value_at (p : list bytes) (v : dict_value) : option dict_value :=
  match p with
  | [] => Some v
  | k :: p' =>
      match v with
      | VDict d => match mfind k d with Some v' => value_at p' v' | None => None end
      | _ => None
      end
  end.

(** The scalar at a path, or whether a set at a path holds a given element. *)
Inductive observation := OScalar | OMember (x : scalar).

Definition observe (o : observation) (v : option dict_value) : option scalar :=
  match o, v with
  | OScalar, Some (VScalar x) => Some x
  | OMember x, Some (VSet s) => if smem x s then Some x else None
  | _, _ => None
  end.
Definition observe_at (o : observation) (p : list bytes) (d : dict) : option scalar :=
  observe o (value_at p (VDict d)).

(** ** Basic lemmas *)

Section ValueInd.
Variable P : dict_value -> Prop.
Hypothesis HDict : forall d, Forall (fun kv => P kv.2) d -> P (VDict d).
Hypothesis HSet : forall s, P (VSet s).
Hypothesis HScalar : forall s, P (VScalar s).

Fixpoint dict_value_nested_ind (v : dict_value) : P v :=
  match v with
  | VDict d =>
      HDict d ((fix go d : Forall (fun kv => P kv.2) d :=
        match d with
        | [] => Forall_nil_2 _
        | kv :: d' => Forall_cons_2 _ _ _ (dict_value_nested_ind kv.2) (go d')
        end) d)
  | VSet s => HSet s
  | VScalar s => HScalar s
  end.
End ValueInd.

Lemma foldr_and_Forall {A} (P : A -> Prop) l :
  foldr (fun x acc => P x /\ acc) True l <-> Forall P l.
Proof. induction l; cbn; [done|]. by rewrite Forall_cons, IHl. Qed.

Lemma wf_VDict d : wf_value (VDict d) <-> wf_dict d.
Proof. cbn. unfold wf_dict. by rewrite (foldr_and_Forall (fun kv => wf_value kv.2)). Qed.

Lemma pruned_VDict d : pruned_value (VDict d) <-> d <> [] /\ pruned_dict d.
Proof. cbn. unfold pruned_dict. by rewrite (foldr_and_Forall (fun kv => pruned_value kv.2)). Qed.

Lemma wf_dict_cons k v d :
  wf_dict ((k, v) :: d) <-> wf_value v /\ Forall (fun p => k ≺ p.1) d /\ wf_dict d.
Proof. unfold wf_dict. rewrite msorted_cons, Forall_cons. cbn. tauto. Qed.

Lemma pruned_dict_cons k v d : pruned_dict ((k, v) :: d) <-> pruned_value v /\ pruned_dict d.
Proof. unfold pruned_dict. by rewrite Forall_cons. Qed.

Lemma wf_dict_nil : wf_dict [].
Proof. split; [apply msorted_nil | constructor]. Qed.

Lemma pruned_dict_nil : pruned_dict [].
Proof. constructor. Qed.

Lemma wf_dict_find d k v : wf_dict d -> mfind k d = Some v -> wf_value v.
Proof.
  intros [_ Hf] Hk%mfind_In. rewrite Forall_forall in Hf. by apply Hf in Hk.
Qed.

Lemma pruned_dict_find d k v : pruned_dict d -> mfind k d = Some v -> pruned_value v.
Proof. intros Hf Hk%mfind_In. unfold pruned_dict in Hf. rewrite Forall_forall in Hf. by apply Hf in Hk. Qed.

Lemma wf_dict_insert d k v : wf_dict d -> wf_value v -> wf_dict (minsert k v d).
Proof. intros [Hs Hf] Hv. split; auto with session. by apply minsert_Forall. Qed.

Lemma wf_dict_erase d k : wf_dict d -> wf_dict (merase k d).
Proof. intros [Hs Hf]. split; auto with session. by apply merase_Forall. Qed.

#[export] Hint Resolve wf_dict_nil pruned_dict_nil wf_dict_insert wf_dict_erase : session.

Lemma is_nil_true {A} (l : list A) : is_nil l = true <-> l = [].
Proof. by destruct l. Qed.

(** ** Pruning *)

Lemma prune_dict_cons k v d :
  prune_dict ((k, v) :: d) =
  let '(rm_key, rm_subkeys, v') := prune_value v in
  let '(removed_subkeys, rest) := prune_dict d in
  (rm_key || rm_subkeys || removed_subkeys, if rm_key then rest else (k, v') :: rest).
Proof. reflexivity. Qed.

Lemma prune_value_VDict d :
  prune_value (VDict d) =
  let '(removed_subkeys, d') := prune_dict d in (is_nil d', removed_subkeys, VDict d').
Proof. reflexivity. Qed.

Lemma prune_dict_keys (P : bytes -> Prop) d :
  Forall (fun p => P p.1) d -> Forall (fun p => P p.1) (prune_dict d).2.
Proof.
  induction 1 as [|[k v] d Hk _ IH]; [constructor|]. rewrite prune_dict_cons.
  destruct (prune_value v) as [[rk rs] v']. destruct (prune_dict d) as [b rest].
  cbn in *. destruct rk; auto.
Qed.

(** Statement of [prune_value_good] for a list of values, from the statement for each. *)
Definition prune_good (v : dict_value) : Prop :=
  let '(rm, _, v') := prune_value v in wf_value v' /\ (rm = false -> pruned_value v').

Lemma prune_dict_good_aux d :
  Forall (fun kv => wf_value kv.2 -> prune_good kv.2) d -> wf_dict d ->
  wf_dict (prune_dict d).2 /\ pruned_dict (prune_dict d).2.
Proof.
  induction 1 as [|[k v] d Hv _ IH]; [cbn; auto with session|].
  rewrite wf_dict_cons. intros (Hwv & Hlt & Hd). apply (prune_dict_keys (klt k)) in Hlt.
  destruct (IH Hd) as [IHw IHp]. specialize (Hv Hwv). unfold prune_good in Hv. cbn in Hv.
  rewrite prune_dict_cons. destruct (prune_value v) as [[rk rs] v']. destruct Hv as [Hw' Hp'].
  destruct (prune_dict d) as [b rest]. cbn in *. destruct rk; [done|].
  rewrite wf_dict_cons, pruned_dict_cons. auto.
Qed.

Lemma prune_value_good v : wf_value v -> prune_good v.
Proof.
  induction v as [d IH|s|s] using dict_value_nested_ind; unfold prune_good.
  - rewrite prune_value_VDict, wf_VDict. intros Hd.
    destruct (prune_dict_good_aux d IH Hd) as [Hw Hp]. destruct (prune_dict d) as [b d'].
    cbn in *. split; [by apply wf_VDict|]. intros Hn. apply pruned_VDict. split; [|done].
    by intros ->.
  - cbn. intros Hs. split; [done|]. by destruct s.
  - cbn. auto.
Qed.

Lemma prune_dict_good d :
  wf_dict d -> wf_dict (prune_dict d).2 /\ pruned_dict (prune_dict d).2.
Proof.
  intros Hd. apply prune_dict_good_aux; [|done].
  apply Forall_forall. intros kv _. apply prune_value_good.
Qed.

(** Pruning reports a change exactly when it removes something. *)
Lemma prune_dict_changed_aux d :
  Forall (fun kv => let '(rm, ch, v') := prune_value kv.2 in
            (value_size v' <= value_size kv.2)%nat /\
            (rm = false -> ch = true -> (value_size v' < value_size kv.2)%nat) /\
            (rm = false -> ch = false -> v' = kv.2)) d ->
  (dict_size (prune_dict d).2 <= dict_size d)%nat /\
  ((prune_dict d).1 = true -> (dict_size (prune_dict d).2 < dict_size d)%nat) /\
  ((prune_dict d).1 = false -> (prune_dict d).2 = d).
Proof.
  induction 1 as [|[k v] d Hv _ IH]; [done|]. rewrite prune_dict_cons. cbn [snd] in Hv.
  destruct (prune_value v) as [[rk rs] v']. destruct Hv as (H1 & H2 & H3).
  destruct (prune_dict d) as [b rest]. unfold dict_size in *. cbn in *.
  destruct IH as (I1 & I2 & I3).
  destruct rk, rs, b; cbn in *; try specialize (H2 eq_refl eq_refl);
    try specialize (I2 eq_refl); try specialize (I3 eq_refl);
    repeat split; intros; try discriminate; try lia; (f_equal; [f_equal|]; auto).
Qed.

Lemma prune_value_changed v :
  let '(rm, ch, v') := prune_value v in
  (value_size v' <= value_size v)%nat /\
  (rm = false -> ch = true -> (value_size v' < value_size v)%nat) /\
  (rm = false -> ch = false -> v' = v).
Proof.
  induction v as [d IH|s|s] using dict_value_nested_ind; [|cbn; auto with lia..].
  apply prune_dict_changed_aux in IH. rewrite prune_value_VDict.
  destruct (prune_dict d) as [b d']. cbn in *. destruct IH as (I1 & I2 & I3).
  unfold dict_size in *. split_and!; [lia | intros _ Hb; specialize (I2 Hb); lia |].
  intros _ Hb. f_equal. auto.
Qed.

Lemma prune_dict_changed d :
  (dict_size (prune_dict d).2 <= dict_size d)%nat /\
  ((prune_dict d).1 = true -> (dict_size (prune_dict d).2 < dict_size d)%nat) /\
  ((prune_dict d).1 = false -> (prune_dict d).2 = d).
Proof. apply prune_dict_changed_aux, Forall_forall. intros kv _. apply prune_value_changed. Qed.

Lemma prune_dict_pruned_aux d :
  Forall (fun kv => pruned_value kv.2 -> prune_value kv.2 = (false, false, kv.2)) d ->
  pruned_dict d -> prune_dict d = (false, d).
Proof.
  induction 1 as [|[k v] d Hv _ IH]; [done|]. rewrite pruned_dict_cons. intros [Hpv Hpd].
  rewrite prune_dict_cons. cbn in Hv. by rewrite (Hv Hpv), (IH Hpd).
Qed.

Lemma prune_value_pruned v : pruned_value v -> prune_value v = (false, false, v).
Proof.
  induction v as [d IH|s|s] using dict_value_nested_ind.
  - rewrite pruned_VDict. intros [Hne Hd]. rewrite prune_value_VDict.
    rewrite (prune_dict_pruned_aux d IH Hd). by destruct d.
  - cbn. by destruct s.
  - done.
Qed.

Lemma prune_dict_pruned d : pruned_dict d -> prune_dict d = (false, d).
Proof. apply prune_dict_pruned_aux, Forall_forall. intros kv _. apply prune_value_pruned. Qed.

(** ** Set diffs *)

Lemma set_diff_nil_nil : set_diff_rel [] [] [] [].
Proof. repeat split; try constructor; set_solver. Qed.

Lemma ssorted_notin x s : ssorted (x :: s) -> x ∉ s.
Proof.
  intros [_ Hlt]%ssorted_cons Hin. rewrite Forall_forall in Hlt.
  by apply Hlt, klt_irrefl in Hin.
Qed.

Lemma ssorted_notin_lt x y s : ssorted (y :: s) -> x ≺ y -> x ∉ y :: s.
Proof.
  intros [_ Hlt]%ssorted_cons Hxy [->|Hin]%elem_of_cons; [by apply klt_irrefl in Hxy|].
  rewrite Forall_forall in Hlt. specialize (Hlt _ Hin).
  by apply (klt_irrefl x), (klt_trans _ y).
Qed.

(** Prepending an element smaller than everything still to come keeps a set diff one. *)
Lemma set_diff_add n old new_ a r :
  set_diff_rel old new_ a r -> n ∉ old -> ssorted (n :: new_) ->
  set_diff_rel old (n :: new_) (n :: a) r.
Proof.
  intros (Ha & Hr & Ia & Ir) Hno Hs.
  assert (n ∉ new_) by by apply ssorted_notin.
  apply ssorted_cons in Hs as [_ Hlt]. rewrite Forall_forall in Hlt.
  split_and!; auto.
  - apply ssorted_cons. split; [done|]. apply Forall_forall. intros x [? _]%Ia. auto.
  - intros x. rewrite !elem_of_cons, Ia. naive_solver.
  - intros x. rewrite elem_of_cons, Ir. split; [|naive_solver].
    intros [Hx Hx']. split; [done|]. intros [->|]; auto.
Qed.

Lemma set_diff_rm o old new_ a r :
  set_diff_rel old new_ a r -> o ∉ new_ -> ssorted (o :: old) ->
  set_diff_rel (o :: old) new_ a (o :: r).
Proof.
  intros (Ha & Hr & Ia & Ir) Hno Hs.
  destruct (set_diff_add o new_ old r a) as (? & ? & ? & ?); [|done..|].
  - repeat split; auto; naive_solver.
  - repeat split; auto; naive_solver.
Qed.

Lemma set_diff_both x old new_ a r :
  set_diff_rel old new_ a r -> ssorted (x :: old) -> ssorted (x :: new_) ->
  set_diff_rel (x :: old) (x :: new_) a r.
Proof.
  intros (Ha & Hr & Ia & Ir) Ho%ssorted_notin Hn%ssorted_notin.
  split_and!; auto; intros y; rewrite !elem_of_cons, ?Ia, ?Ir;
    split; [|naive_solver| |naive_solver]; intros [Hy Hy']; (split; [by right|]);
    intros [->|]; auto.
Qed.

Lemma set_diff_walk_spec old new_ :
  ssorted old -> ssorted new_ ->
  set_diff_rel old new_ (set_diff_walk old new_).1 (set_diff_walk old new_).2.
Proof.
  revert new_; induction old as [|o old IHo]; induction new_ as [|n new_ IHn]; intros Ho Hn.
  - apply set_diff_nil_nil.
  - cbn. pose proof Hn as [Hn' _]%ssorted_cons. specialize (IHn Ho Hn').
    cbn in IHn. destruct (_ new_) as [a r]. by apply set_diff_add; [|set_solver|].
  - cbn. pose proof Ho as [Ho' _]%ssorted_cons. specialize (IHo [] Ho' Hn).
    destruct (set_diff_walk old []) as [a r]. by apply set_diff_rm; [|set_solver|].
  - pose proof Ho as [Ho' _]%ssorted_cons. pose proof Hn as [Hn' _]%ssorted_cons.
    cbn. destruct (kltb n o) eqn:E1; [|destruct (kltb o n) eqn:E2].
    + apply kltb_lt in E1. specialize (IHn Ho Hn'). cbn in IHn.
      destruct (_ new_) as [a r]. apply set_diff_add; [done| |done].
      by eapply ssorted_notin_lt.
    + apply kltb_lt in E2. specialize (IHo (n :: new_) Ho' Hn).
      destruct (set_diff_walk old (n :: new_)) as [a r]. apply set_diff_rm; [done| |done].
      by eapply ssorted_notin_lt.
    + apply kltb_nlt in E1, E2. destruct (klt_total o n) as [?|[->|?]]; [done| |done].
      by apply set_diff_both; [apply IHo|..].
Qed.

Lemma set_diff_rel_nil old new_ :
  ssorted old -> ssorted new_ -> set_diff_rel old new_ [] [] -> old = new_.
Proof.
  intros Ho Hn (_ & _ & Ia & Ir). apply sext; [done..|]. intros x.
  split; intros Hx; apply dec_stable; intros Hnx.
  - by apply (not_elem_of_nil x), Ir.
  - by apply (not_elem_of_nil x), Ia.
Qed.

Lemma set_diff_rel_refl s a r : set_diff_rel s s a r -> a = [] /\ r = [].
Proof.
  intros (_ & _ & Ia & Ir). split; apply elem_of_nil_inv; intros x Hx.
  - apply Ia in Hx. naive_solver.
  - apply Ir in Hx. naive_solver.
Qed.

(** [diff_impl] on sets: nothing if the sets are equal, otherwise the two sorted lists. *)
Lemma diff_set_spec old new_ :
  ssorted old -> ssorted new_ ->
  (diff_set old new_ = None /\ old = new_) \/
  (exists a r, diff_set old new_ = Some [BList (bt_of_scalar <$> a); BList (bt_of_scalar <$> r)]
               /\ set_diff_rel old new_ a r /\ old <> new_).
Proof.
  intros Ho Hn. unfold diff_set. pose proof (set_diff_walk_spec old new_ Ho Hn) as Hw.
  destruct (set_diff_walk old new_) as [a r]. cbn in Hw.
  destruct (is_nil a && is_nil r) eqn:E.
  - left. apply andb_true_iff in E as [->%is_nil_true ->%is_nil_true].
    split; [done|]. by apply set_diff_rel_nil.
  - right. exists a, r. split_and!; [done..|]. intros ->.
    by destruct (set_diff_rel_refl _ _ _ Hw) as [-> ->].
Qed.

(** ** [diff_impl] implements the specification *)

Definition wf_opt (o : option dict_value) : Prop := from_option wf_value True o.
Definition pruned_opt (o : option dict_value) : Prop := from_option pruned_value True o.

Lemma wf_opt_find k d : wf_dict d -> wf_opt (mfind k d).
Proof. intros Hd. destruct (mfind k d) eqn:E; cbn; [by eapply wf_dict_find | done]. Qed.

Lemma diff_added_some n v : diff_entry None (Some n) v -> is_Some v.
Proof. inversion 1; eauto. Qed.

(** An empty diff means equality. *)
Lemma diff_nil_eq_mut :
  (forall old new_ df, diff_rel old new_ df -> df = [] -> wf_dict old -> wf_dict new_ ->
     old = new_) /\
  (forall o n v, diff_entry o n v -> v = None -> wf_opt o -> wf_opt n -> o = n).
Proof.
  apply diff_mutind; try done.
  - intros old new_ df _ _ IH -> Ho Hn. apply mext; [apply Ho | apply Hn |].
    intros k. apply (IH k); auto using wf_opt_find.
  - intros d d' _ IH _ Ho%wf_VDict Hn%wf_VDict. by rewrite (IH eq_refl Ho Hn).
  - intros o n v _ Hadd _ ->. by apply diff_added_some in Hadd as [? ?].
Qed.

Lemma diff_rel_nil_eq old new_ :
  diff_rel old new_ [] -> wf_dict old -> wf_dict new_ -> old = new_.
Proof. intros H. by apply (proj1 diff_nil_eq_mut _ _ _ H). Qed.

Lemma diff_entry_none_eq o n : diff_entry o n None -> wf_opt o -> wf_opt n -> o = n.
Proof. intros H. by apply (proj2 diff_nil_eq_mut _ _ _ H). Qed.

Lemma diff_rel_refl d : wf_dict d -> diff_rel d d [].
Proof.
  intros Hd. enough (forall v, wf_value v -> diff_entry (Some v) (Some v) None) as Hv.
  { constructor; [constructor|]. intros k. destruct (mfind k d) eqn:E; [|constructor].
    cbn. apply Hv. by eapply wf_dict_find. }
  clear d Hd. intros v. induction v as [d IH|s|s] using dict_value_nested_ind; [|constructor..].
  rewrite wf_VDict. intros Hd. constructor. constructor; [constructor|]. intros k. cbn.
  destruct (mfind k d) eqn:E; [|constructor]. rewrite Forall_forall in IH.
  apply (IH (k, d0)); [by apply mfind_In|]. by eapply wf_dict_find.
Qed.

(** Nothing is recorded between equal data. *)
Lemma diff_self_mut :
  (forall old new_ df, diff_rel old new_ df -> old = new_ -> df = []) /\
  (forall o n v, diff_entry o n v -> o = n -> v = None).
Proof.
  apply diff_mutind; try (intros; simplify_eq; done).
  - intros old new_ df Hs _ IH ->. apply mext; [done|constructor|]. intros k. by apply IH.
  - intros d d' sub _ IH Hne [= ->]. by rewrite IH in Hne.
Qed.

Lemma diff_rel_self d df : diff_rel d d df -> df = [].
Proof. intros H. by apply (proj1 diff_self_mut _ _ _ H). Qed.

(** Extending a diff with the entry of one more key. *)
Lemma diff_rel_extend k0 old new_ old' new' df df' :
  diff_rel old' new' df' -> msorted df ->
  (forall k, k <> k0 -> mfind k old = mfind k old') ->
  (forall k, k <> k0 -> mfind k new_ = mfind k new') ->
  (forall k, k <> k0 -> mfind k df = mfind k df') ->
  diff_entry (mfind k0 old) (mfind k0 new_) (mfind k0 df) ->
  diff_rel old new_ df.
Proof.
  intros Hrel Hs Ho Hn Hd He. constructor; [done|]. intros k.
  destruct (keqb_spec k k0) as [->|Hk]; [done|].
  rewrite Ho, Hn, Hd by done. by inversion Hrel.
Qed.

Lemma mfind_cons_ne {V} (k k0 : bytes) (v : V) m : k <> k0 -> mfind k ((k0, v) :: m) = mfind k m.
Proof. cbn. by intros ->%keqb_neq. Qed.

Lemma mfind_cons_eq {V} (k0 : bytes) (v : V) m : mfind k0 ((k0, v) :: m) = Some v.
Proof. cbn. by rewrite keqb_refl. Qed.

(** Key [k0] first in [new_] and not in [old]; first in [old] and not in [new_]; first in both. *)
Lemma diff_rel_add k0 n v old new' df :
  diff_rel old new' df -> mfind k0 old = None -> diff_entry None (Some n) (Some v) ->
  diff_rel old ((k0, n) :: new') (minsert k0 v df).
Proof.
  intros Hrel Ho He. eapply (diff_rel_extend k0); [done|..].
  - inversion Hrel. auto with session.
  - done.
  - intros. by apply mfind_cons_ne.
  - intros. by apply mfind_minsert_ne.
  - by rewrite mfind_cons_eq, mfind_minsert_eq, Ho.
Qed.

Lemma diff_rel_rm k0 o v old' new_ df :
  diff_rel old' new_ df -> mfind k0 new_ = None -> diff_entry (Some o) None (Some v) ->
  diff_rel ((k0, o) :: old') new_ (minsert k0 v df).
Proof.
  intros Hrel Ho He. eapply (diff_rel_extend k0); [done|..].
  - inversion Hrel. auto with session.
  - intros. by apply mfind_cons_ne.
  - done.
  - intros. by apply mfind_minsert_ne.
  - by rewrite mfind_cons_eq, mfind_minsert_eq, Ho.
Qed.

Lemma diff_rel_both k0 o n v old' new' df :
  diff_rel old' new' df -> diff_entry (Some o) (Some n) (Some v) ->
  diff_rel ((k0, o) :: old') ((k0, n) :: new') (minsert k0 v df).
Proof.
  intros Hrel He. eapply (diff_rel_extend k0); [done|..].
  - inversion Hrel. auto with session.
  - intros. by apply mfind_cons_ne.
  - intros. by apply mfind_cons_ne.
  - intros. by apply mfind_minsert_ne.
  - by rewrite !mfind_cons_eq, mfind_minsert_eq.
Qed.

Lemma diff_rel_same k0 o n old' new' df :
  Forall (fun p => k0 ≺ p.1) old' -> Forall (fun p => k0 ≺ p.1) new' ->
  diff_rel old' new' df -> diff_entry (Some o) (Some n) None ->
  diff_rel ((k0, o) :: old') ((k0, n) :: new') df.
Proof.
  intros Ho Hn Hrel He. eapply (diff_rel_extend k0); [done|..].
  - by inversion Hrel.
  - intros. by apply mfind_cons_ne.
  - intros. by apply mfind_cons_ne.
  - done.
  - rewrite !mfind_cons_eq. inversion Hrel as [? ? ? _ Hk]; subst.
    specialize (Hk k0). rewrite !mfind_lt in Hk by done. by inversion Hk.
Qed.

Lemma dict_size_cons k v d : dict_size ((k, v) :: d) = S (value_size v + dict_size d).
Proof. reflexivity. Qed.

Lemma value_size_VDict d : value_size (VDict d) = S (dict_size d).
Proof. reflexivity. Qed.

(** What a recursive call on smaller data is assumed to do. *)
Definition diff_ok (diff_dict : dict -> dict -> res bt_dict) (bound : nat) : Prop :=
  forall old new_, wf_dict old -> wf_dict new_ -> pruned_dict old -> pruned_dict new_ ->
    (dict_size old + dict_size new_ < bound)%nat ->
    exists df, diff_dict old new_ = Ok df /\ diff_rel old new_ df.

Lemma nonempty_dict_some d : d <> [] -> nonempty_dict d = Some d.
Proof. by destruct d. Qed.

Lemma record_added_spec rec bound n :
  diff_ok rec bound -> wf_value n -> pruned_value n -> (value_size n <= bound)%nat ->
  exists v, record_added rec n = Ok v /\ diff_entry None (Some n) (Some v).
Proof.
  intros Hrec Hw Hp Hsz. destruct n as [d|s|x]; cbn [record_added].
  - apply wf_VDict in Hw. apply pruned_VDict in Hp as [Hne Hp]. rewrite value_size_VDict in Hsz.
    destruct (Hrec [] d) as (df & -> & Hdf); auto with session; try (cbn; lia).
    assert (df <> []) as Hdf'.
    { intros ->. by apply diff_rel_nil_eq in Hdf; auto with session. }
    cbn. rewrite nonempty_dict_some by done. cbn. eexists; split; [done|]. by constructor.
  - destruct Hw as [Hs _]. destruct (diff_set_spec [] s ltac:(constructor) Hs)
      as [[_ <-]|(a & r & -> & Hr & Hne)]; [done|].
    cbn. eexists; split; [done|]. by constructor.
  - eexists; split; [done|]. constructor.
Qed.

Lemma record_removed_spec rec bound o :
  diff_ok rec bound -> wf_value o -> pruned_value o -> (value_size o <= bound)%nat ->
  exists v, record_removed rec o = Ok v /\ diff_entry (Some o) None (Some v).
Proof.
  intros Hrec Hw Hp Hsz. destruct o as [d|s|x]; cbn [record_removed].
  - apply wf_VDict in Hw. apply pruned_VDict in Hp as [Hne Hp]. rewrite value_size_VDict in Hsz.
    destruct (Hrec d []) as (df & -> & Hdf); auto with session; try (cbn; lia).
    assert (df <> []) as Hdf'.
    { intros ->. by apply diff_rel_nil_eq in Hdf; auto with session. }
    cbn. rewrite nonempty_dict_some by done. cbn. eexists; split; [done|]. by constructor.
  - destruct Hw as [Hs _]. destruct (diff_set_spec s [] Hs ltac:(constructor))
      as [[_ ->]|(a & r & -> & Hr & Hne)]; [done|].
    cbn. eexists; split; [done|]. by constructor.
  - eexists; split; [done|]. constructor.
Qed.

(** The step for a key that is on both sides. *)
Lemma diff_walk_same_key fuel k o n old new_ df :
  diff_ok (diff_walk fuel) fuel ->
  wf_value o -> wf_value n -> pruned_value o -> pruned_value n ->
  (value_size o + value_size n <= fuel)%nat ->
  Forall (fun p => k ≺ p.1) old -> Forall (fun p => k ≺ p.1) new_ ->
  diff_walk fuel old new_ = Ok df -> diff_rel old new_ df ->
  exists df', diff_walk (S fuel) ((k, o) :: old) ((k, n) :: new_) = Ok df' /\
              diff_rel ((k, o) :: old) ((k, n) :: new_) df'.
Proof.
  intros IH Hwo Hwn Hpo Hpn Hsz Hlo Hln Hdf Hrel. cbn [diff_walk].
  assert (kltb k k = false) as -> by by apply kltb_nlt, klt_irrefl.
  destruct (decide (value_index o = value_index n)) as [Hidx|Hidx].
  - destruct o as [a|a|a], n as [b|b|b]; try discriminate Hidx.
    + rewrite !value_size_VDict in Hsz. apply wf_VDict in Hwo, Hwn.
      apply pruned_VDict in Hpo as [_ Hpo], Hpn as [_ Hpn].
      destruct (IH a b) as (sub & -> & Hsub); [done..|lia|]. cbn. rewrite Hdf. cbn.
      destruct sub as [|p sub]; (eexists; split; [reflexivity|]).
      * apply diff_rel_same; [done..|]. by constructor.
      * apply diff_rel_both; [done|]. by constructor.
    + rewrite Hdf. cbn. destruct Hwo as [Ha _], Hwn as [Hb _].
      destruct (diff_set_spec a b Ha Hb) as [[-> ->]|(x & y & -> & Hr & Hne)];
        (eexists; split; [reflexivity|]).
      * apply diff_rel_same; [done..|]. constructor.
      * apply diff_rel_both; [done|]. by constructor.
    + rewrite Hdf. cbn. destruct (decide (a = b)) as [->|Hne]; (eexists; split; [reflexivity|]).
      * apply diff_rel_same; [done..|]. constructor.
      * apply diff_rel_both; [done|]. by constructor.
  - destruct (record_added_spec _ _ n IH) as (v & Hv & He); [done..|lia|].
    exists (minsert k v df). split.
    + destruct o, n; try done; by rewrite Hv; cbn; rewrite Hdf.
    + apply diff_rel_both; [done|]. by constructor.
Qed.

(** With enough fuel the walk returns, never dereferences an empty optional, and its result is
    the diff. *)
Lemma diff_walk_total fuel : diff_ok (diff_walk fuel) fuel.
Proof.
  induction fuel as [|fuel IH]; intros old new_ Ho Hn Hpo Hpn Hsz; [lia|].
  pose proof Ho as Ho0. pose proof Hn as Hn0. pose proof Hpo as Hpo0. pose proof Hpn as Hpn0.
  destruct old as [|[ko o] old], new_ as [|[kn n] new_];
    rewrite ?dict_size_cons in Hsz;
    try apply wf_dict_cons in Ho as (Hwo & Hlo & Ho);
    try apply wf_dict_cons in Hn as (Hwn & Hln & Hn);
    try apply pruned_dict_cons in Hpo as [Hpo' Hpo];
    try apply pruned_dict_cons in Hpn as [Hpn' Hpn].
  - eexists; split; [done|]. by apply diff_rel_refl.
  - destruct (record_added_spec _ _ n IH) as (v & Hv & He); [done..|lia|].
    destruct (IH [] new_) as (df & Hdf & Hrel); [done..|cbn; lia|].
    cbn [diff_walk]. rewrite Hv. cbn. rewrite Hdf.
    eexists; split; [done|]. by apply diff_rel_add.
  - destruct (record_removed_spec _ _ o IH) as (v & Hv & He); [done..|lia|].
    destruct (IH old []) as (df & Hdf & Hrel); [done..|cbn in *; lia|].
    cbn [diff_walk]. rewrite Hv. cbn. rewrite Hdf.
    eexists; split; [done|]. by apply diff_rel_rm.
  - destruct (klt_total kn ko) as [Hlt|[->|Hlt]].
    + destruct (record_added_spec _ _ n IH) as (v & Hv & He); [done..|lia|].
      destruct (IH ((ko, o) :: old) new_) as (df & Hdf & Hrel);
        [done..|rewrite dict_size_cons; lia|].
      cbn [diff_walk]. rewrite (proj2 (kltb_lt _ _) Hlt), Hv. cbn [mbind res_bind].
      rewrite Hdf. eexists; split; [done|]. apply diff_rel_add; [done| |done].
      apply mfind_lt. constructor; [done|]. eapply Forall_impl; [apply Hlo|].
      cbn; eauto using klt_trans.
    + destruct (IH old new_) as (df & Hdf & Hrel); [done..|lia|].
      by eapply diff_walk_same_key; eauto; lia.
    + destruct (record_removed_spec _ _ o IH) as (v & Hv & He); [done..|lia|].
      destruct (IH old ((kn, n) :: new_)) as (df & Hdf & Hrel);
        [done..|rewrite dict_size_cons; lia|].
      cbn [diff_walk]. rewrite (proj2 (kltb_nlt _ _) (klt_asym _ _ Hlt)).
      rewrite (proj2 (kltb_lt _ _) Hlt), Hv. cbn [mbind res_bind].
      rewrite Hdf. eexists; split; [done|]. apply diff_rel_rm; [done| |done].
      apply mfind_lt. constructor; [done|]. eapply Forall_impl; [apply Hln|].
      cbn; eauto using klt_trans.
Qed.

Lemma diff_impl_spec old new_ :
  wf_dict old -> wf_dict new_ -> pruned_dict old -> pruned_dict new_ ->
  exists df, diff_impl old new_ = Ok (nonempty_dict df) /\ diff_rel old new_ df.
Proof.
  intros. unfold diff_impl.
  destruct (diff_walk_total (diff_fuel old new_) old new_) as (df & -> & Hdf);
    [done..|unfold diff_fuel; lia|].
  exists df. done.
Qed.

(** ** Applying diffs *)
Section ApplyFacts.
Context `{Oxenc}.
#[local] Arguments apply_diff : simpl never.

Lemma apply_entry_rec cur v src :
  apply_entry (fun d _ s => apply_diff_value v d s) cur v src = apply_entry apply_diff cur v src.
Proof. by destruct src as [[]|], v. Qed.

Lemma apply_diff_cons data k v df src :
  apply_diff data ((k, v) :: df) src =
  (r ← apply_entry apply_diff (mfind k data) v (mfind k src);
   apply_diff (set_entry data k r) df src).
Proof. unfold apply_diff at 1. cbn [apply_diff_value]. by rewrite apply_entry_rec. Qed.

Lemma mfind_set_entry data k r k' :
  mfind k' (set_entry data k r) = if keqb k' k then r else mfind k' data.
Proof. destruct r; cbn; [apply mfind_minsert | apply mfind_merase]. Qed.

Lemma wf_set_entry data k r : wf_dict data -> wf_opt r -> wf_dict (set_entry data k r).
Proof. destruct r; cbn; auto with session. Qed.

(** [apply_diff] works key by key. *)
Lemma apply_diff_find data df src r :
  msorted df -> apply_diff data df src = Ok r ->
  forall k, match mfind k df with
            | None => mfind k r = mfind k data
            | Some v => apply_entry apply_diff (mfind k data) v (mfind k src) = Ok (mfind k r)
            end.
Proof.
  revert data; induction df as [|[k0 v0] df IH]; intros data Hs.
  - intros [= ->] k. done.
  - apply msorted_cons in Hs as [Hs Hlt]. rewrite apply_diff_cons. intros Ha k.
    destruct (apply_entry _ _ _ _) as [o|] eqn:Eo; [|discriminate Ha]. cbn in Ha.
    specialize (IH _ Hs Ha k). rewrite mfind_set_entry in IH.
    cbn [mfind]. destruct (keqb_spec k k0) as [Hkk|Hk]; [subst k|done].
    rewrite mfind_lt in IH by done. by rewrite IH, <- Eo.
Qed.

Lemma apply_diff_total data df src :
  msorted df ->
  (forall k v, mfind k df = Some v ->
     exists o, apply_entry apply_diff (mfind k data) v (mfind k src) = Ok o) ->
  exists r, apply_diff data df src = Ok r.
Proof.
  revert data; induction df as [|[k0 v0] df IH]; intros data Hs Hok; [by eexists|].
  apply msorted_cons in Hs as [Hs Hlt]. rewrite apply_diff_cons.
  destruct (Hok k0 v0) as [o ->]; [by rewrite mfind_cons_eq|]. cbn.
  apply IH; [done|]. intros k v Hk. rewrite mfind_set_entry.
  assert (k <> k0) as Hne by (intros ->; by rewrite mfind_lt in Hk).
  rewrite (proj2 (keqb_neq _ _) Hne). apply Hok. by rewrite mfind_cons_ne.
Qed.

Lemma apply_diff_wf data df src r :
  msorted df -> wf_dict data -> apply_diff data df src = Ok r ->
  (forall k v o, mfind k df = Some v ->
     apply_entry apply_diff (mfind k data) v (mfind k src) = Ok o -> wf_opt o) ->
  wf_dict r.
Proof.
  revert data; induction df as [|[k0 v0] df IH]; intros data Hs Hd; [by intros [= ->]|].
  apply msorted_cons in Hs as [Hs Hlt]. rewrite apply_diff_cons. intros Ha Hok.
  destruct (apply_entry _ _ _ _) as [o|] eqn:Eo; [|discriminate Ha]. cbn in Ha.
  eapply IH; [done| |done|].
  - apply wf_set_entry; [done|]. eapply Hok; [apply mfind_cons_eq|done].
  - intros k v o' Hk. rewrite mfind_set_entry.
    assert (k <> k0) as Hne by (intros ->; by rewrite mfind_lt in Hk).
    rewrite (proj2 (keqb_neq _ _) Hne). apply Hok. by rewrite mfind_cons_ne.
Qed.

Lemma get_bt_scalar_of x : wf_scalar x -> get_bt_scalar (bt_of_scalar x) = Ok (Some x).
Proof.
  destruct x as [z|s]; cbn; [|done]. intros Hz. unfold get_bt_scalar; cbn.
  by rewrite bt_get_int_ok.
Qed.

Lemma apply_added_spec s a :
  Forall wf_scalar a -> ssorted s -> Forall wf_scalar s ->
  exists s', apply_added s (bt_of_scalar <$> a) = Ok s' /\ ssorted s' /\ Forall wf_scalar s' /\
             (forall x, x ∈ s' <-> x ∈ s \/ x ∈ a).
Proof.
  intros Ha; revert s; induction Ha as [|y a Hy Ha IH]; intros s Hs Hw.
  - exists s. split_and!; [done..|]. intros x. rewrite elem_of_nil. naive_solver.
  - destruct (IH (sinsert y s)) as (s' & Hs' & ? & ? & Hin);
      [auto with session | by apply sinsert_Forall |].
    exists s'. split_and!; [|done..|].
    + unfold apply_added. cbn. by rewrite get_bt_scalar_of.
    + intros x. rewrite Hin, sinsert_In, elem_of_cons. naive_solver.
Qed.

Lemma apply_removed_spec s a :
  Forall wf_scalar a -> ssorted s -> Forall wf_scalar s ->
  exists s', apply_removed s (bt_of_scalar <$> a) = Ok s' /\ ssorted s' /\ Forall wf_scalar s' /\
             (forall x, x ∈ s' <-> x ∈ s /\ x ∉ a).
Proof.
  intros Ha; revert s; induction Ha as [|y a Hy Ha IH]; intros s Hs Hw.
  - exists s. split_and!; [done..|]. intros x. rewrite elem_of_nil. naive_solver.
  - destruct (IH (serase y s)) as (s' & Hs' & ? & ? & Hin); [auto with session | |].
    { rewrite Forall_forall in *. intros x [_ ?]%serase_In. auto. }
    exists s'. split_and!; [|done..|].
    + unfold apply_removed. cbn. by rewrite get_bt_scalar_of.
    + intros x. rewrite Hin, serase_In, elem_of_cons. naive_solver.
Qed.

(** The value at a path below an optional value. *)
Definition opt_at (p : list bytes) (o : option dict_value) : option dict_value :=
  v ← o; value_at p v.

(** Every observation that differs between [o] and [n] is, in [r], as it is in [n]. *)
Definition wins (o n r : option dict_value) : Prop :=
  forall ob p, observe ob (opt_at p o) <> observe ob (opt_at p n) ->
    observe ob (opt_at p r) = observe ob (opt_at p n).

Lemma wf_opt_subset cur :
  wf_opt cur -> ssorted (as_subset cur) /\ Forall wf_scalar (as_subset cur).
Proof. destruct cur as [[]|]; cbn; intros; auto; split; constructor. Qed.

Lemma wf_opt_subdict cur : wf_opt cur -> wf_dict (as_subdict cur).
Proof.
  destruct cur as [[]|]; cbn [wf_opt from_option as_subdict]; auto with session.
  by rewrite wf_VDict.
Qed.

Lemma smem_iff_eq x s s' : (x ∈ s <-> x ∈ s') -> smem x s = smem x s'.
Proof.
  rewrite <- !smem_In. destruct (smem x s), (smem x s'); naive_solver.
Qed.

(** Set diffs: the elements that differ are taken over; on the original set the result is the
    new one. *)
Lemma apply_set_diff s s' a r cur :
  set_diff_rel s s' a r -> wf_value (VSet s) -> wf_value (VSet s') -> wf_opt cur ->
  exists t, apply_entry apply_diff cur (bt_set_diff a r) (Some (VSet s')) = Ok (Some (VSet t)) /\
    wf_value (VSet t) /\ wins (Some (VSet s)) (Some (VSet s')) (Some (VSet t)) /\
    (as_subset cur = s -> t = s').
Proof.
  intros (Ha & Hr & Ia & Ir) [Hs Hws] [Hs' Hws'] [Hc Hwc]%wf_opt_subset.
  assert (Forall wf_scalar a) as Hwa.
  { rewrite Forall_forall in *. intros x [? _]%Ia. auto. }
  assert (Forall wf_scalar r) as Hwr.
  { rewrite Forall_forall in *. intros x [? _]%Ir. auto. }
  destruct (apply_added_spec (as_subset cur) a) as (t1 & E1 & Ht1 & Hwt1 & I1); [done..|].
  destruct (apply_removed_spec t1 r) as (t & E2 & Ht & Hwt & I2); [done..|].
  exists t. split; [|split; [by split|split]].
  - cbn. rewrite E1. cbn. by rewrite E2.
  - intros ob [|k p]; [|done]. destruct ob as [|x]; cbn; [done|]. intros Hx.
    rewrite (smem_iff_eq x t s'); [done|]. rewrite I2, I1, Ia, Ir.
    destruct (smem x s) eqn:Es, (smem x s') eqn:Es'; try done;
      rewrite <- !smem_In, Es, Es'; naive_solver.
  - intros Hcs. apply sext; [done..|]. intros x. rewrite I2, I1, Hcs, Ia, Ir.
    destruct (decide (x ∈ s)), (decide (x ∈ s')); naive_solver.
Qed.

Lemma wins_refl_new o n : wins o n n.
Proof. by intros ob p. Qed.

Lemma wins_dict d d' r :
  (forall k, wins (mfind k d) (mfind k d') (mfind k r)) ->
  wins (Some (VDict d)) (Some (VDict d')) (Some (VDict r)).
Proof.
  intros Hk ob [|k p]; [by destruct ob|]. cbn. specialize (Hk k ob p). unfold opt_at in Hk.
  by destruct (mfind k d), (mfind k d'), (mfind k r).
Qed.

(** A value of another type below a path is no observation of the new type's. *)
Lemma apply_entry_index cur v n rv :
  apply_entry apply_diff cur v (Some n) = Ok (Some rv) -> value_index rv = value_index n.
Proof.
  destruct v, n; cbn; intros Ha; try discriminate Ha; try res_inv Ha; try done.
  destruct (apply_diff _ _ _); [|discriminate Ha]. cbn in Ha. by simplify_eq.
Qed.

Lemma apply_entry_type o n v :
  value_index o <> value_index n ->
  apply_entry apply_diff (Some o) v (Some n) = apply_entry apply_diff None v (Some n).
Proof. by destruct o, n, v. Qed.

Lemma wins_type o n r :
  value_index o <> value_index n -> from_option (fun rv => value_index rv = value_index n) True r ->
  wins None (Some n) r -> wins (Some o) (Some n) r.
Proof.
  intros Hidx Hr Hw ob p Hne. destruct (decide (observe ob (opt_at p (Some n)) = None)) as [En|En].
  - rewrite En in *. destruct p as [|k p], ob, o, n, r as [[]|]; cbn in *;
      try done; by destruct (mfind k d).
  - apply Hw. replace (observe ob (opt_at p None)) with (@None scalar); [done|by destruct ob].
Qed.

(** What applying one entry, and a whole diff, achieves. *)
Definition entry_applies (o n : option dict_value) (v : option bt_value) : Prop :=
  forall bv cur, v = Some bv -> wf_opt o -> wf_opt n -> wf_opt cur ->
    exists r, apply_entry apply_diff cur bv n = Ok r /\ wf_opt r /\ wins o n r /\
              (cur = o -> r = n).

Definition diff_applies (old new_ : dict) (df : bt_dict) : Prop :=
  forall data, wf_dict old -> wf_dict new_ -> wf_dict data ->
    exists r, apply_diff data df new_ = Ok r /\ wf_dict r /\
              wins (Some (VDict old)) (Some (VDict new_)) (Some (VDict r)) /\
              (data = old -> r = new_).

Lemma entry_applies_dict d d' sub :
  diff_applies d d' sub -> entry_applies (Some (VDict d)) (Some (VDict d')) (Some (BDict sub)).
Proof.
  intros IH bv cur [= <-] Ho%wf_VDict Hn%wf_VDict Hc%wf_opt_subdict.
  destruct (IH _ Ho Hn Hc) as (r & Hr & Hwr & Hw & Heq).
  exists (Some (VDict r)). cbn [apply_entry]. rewrite Hr. split_and!; [done| |done|].
  - by apply wf_VDict.
  - intros ->. cbn in Heq. by rewrite Heq.
Qed.

(** A dict that appears: as a change from the empty dict. *)
Lemma entry_applies_new_dict d sub :
  diff_applies [] d sub -> entry_applies None (Some (VDict d)) (Some (BDict sub)).
Proof.
  intros IH bv cur [= <-] _ Hn Hc.
  destruct (entry_applies_dict [] d sub IH _ cur eq_refl) as (r & Hr & Hwr & Hw & Heq);
    [by apply wf_VDict, wf_dict_nil | done | done |].
  exists r. split_and!; [done|done| |].
  - intros ob p Hne. apply Hw. by destruct p, ob.
  - intros ->. destruct (entry_applies_dict [] d sub IH _ (Some (VDict [])) eq_refl)
      as (r' & Hr' & _ & _ & Heq'); [by apply wf_VDict, wf_dict_nil | done
      | by apply wf_VDict, wf_dict_nil |].
    cbn [apply_entry as_subdict] in Hr, Hr'. rewrite Hr in Hr'. injection Hr' as <-. auto.
Qed.

Lemma diff_rel_find_none old new_ df data r k :
  diff_entry (mfind k old) (mfind k new_) (mfind k df) -> mfind k df = None ->
  wf_dict old -> wf_dict new_ -> mfind k r = mfind k data ->
  wins (mfind k old) (mfind k new_) (mfind k r) /\ (data = old -> mfind k r = mfind k new_).
Proof.
  intros He Hk Ho Hn Hr. rewrite Hk in He.
  apply diff_entry_none_eq in He; auto using wf_opt_find. rewrite He. split; [by intros ob p|].
  intros ->. congruence.
Qed.

(** A whole diff, from its entries. *)
Lemma diff_applies_entries old new_ df :
  msorted df -> (forall k, diff_entry (mfind k old) (mfind k new_) (mfind k df)) ->
  (forall k, entry_applies (mfind k old) (mfind k new_) (mfind k df)) -> diff_applies old new_ df.
Proof.
  intros Hs He IH data Ho Hn Hd.
  destruct (apply_diff_total data df new_) as [r Hr]; [done| |].
  { intros k v Hk. destruct (IH k v (mfind k data)) as (o & ? & _);
      eauto using wf_opt_find. }
  pose proof (apply_diff_find _ _ _ _ Hs Hr) as Hf.
  assert (wf_dict r) as Hwr.
  { eapply apply_diff_wf; [done|done|done|]. intros k v o Hk Eo.
    destruct (IH k v (mfind k data)) as (o' & Eo' & Hwo & _); auto using wf_opt_find.
    congruence. }
  assert (forall k, wins (mfind k old) (mfind k new_) (mfind k r) /\
                    (data = old -> mfind k r = mfind k new_)) as Hk.
  { intros k. specialize (Hf k). destruct (mfind k df) as [v|] eqn:Ek.
    - destruct (IH k v (mfind k data)) as (o' & Eo' & _ & Hw & Heq); auto using wf_opt_find.
      rewrite Hf in Eo'. injection Eo' as <-. split; [done|]. intros ->. auto.
    - eapply diff_rel_find_none; eauto. }
  exists r. split_and!; [done..| |].
  - apply wins_dict. intros k. apply Hk.
  - intros Heq. apply mext; [apply Hwr | apply Hn | intros k; by apply Hk].
Qed.

Lemma diff_applies_mut :
  (forall old new_ df, diff_rel old new_ df -> diff_applies old new_ df) /\
  (forall o n v, diff_entry o n v -> entry_applies o n v).
Proof.
  apply diff_mutind; try (by intros; intros ? ? ?).
  - intros old new_ df Hs He IH. by apply diff_applies_entries.
  - intros x bv cur [= <-] _ Hn _. exists (Some (VScalar x)).
    split_and!; try apply wins_refl_new; done.
  - intros s a r Hr Hne bv cur [= <-] _ Hn Hc.
    destruct (apply_set_diff [] s a r cur) as (t & ? & ? & Hw & Heq); [done| |done..|].
    { split; constructor. }
    exists (Some (VSet t)). split_and!; [done|done| |].
    + intros ob p Hp. apply Hw. by destruct p, ob.
    + intros ->. by rewrite Heq.
  - intros d sub _ IH _. by apply entry_applies_new_dict.
  - intros x bv cur [= <-] _ _ _. exists None.
    split_and!; try apply wins_refl_new; done.
  - intros s a r _ _ bv cur [= <-] _ _ _. exists None.
    split_and!; try apply wins_refl_new; done.
  - intros d sub _ _ _ bv cur [= <-] _ _ _. exists None.
    split_and!; try apply wins_refl_new; done.
  - intros x y Hne bv cur [= <-] _ Hn _. exists (Some (VScalar y)).
    split_and!; try apply wins_refl_new; done.
  - intros s s' a r Hr Hne bv cur [= <-] Ho Hn Hc.
    destruct (apply_set_diff s s' a r cur) as (t & ? & ? & Hw & Heq); [done..|].
    exists (Some (VSet t)). split_and!; [done..|]. intros ->. by rewrite Heq.
  - intros d d' sub _ IH _. by apply entry_applies_dict.
  - intros o n v Hidx He IH bv cur -> Ho Hn Hc.
    destruct (IH bv cur eq_refl I Hn Hc) as (r & Hr & Hwr & Hw & _).
    exists r. split_and!; [done|done| |].
    + apply wins_type; [done| |done]. destruct r; [|done]. by apply apply_entry_index in Hr.
    + intros ->. destruct (IH bv None eq_refl I Hn I) as (r' & Hr' & _ & _ & Heq).
      rewrite apply_entry_type in Hr by done. rewrite Hr in Hr'. injection Hr' as ->. auto.
Qed.
End ApplyFacts.
