(* ===== verification/ConfigParse.v ===== *)
(** * Parsing and serializing the parts of a config message

    [check_scalar_order], [load_diff], [serialize_data], [parse_data], [parse_lagged_diffs] and
    [verify_config_sig] of [src/config.cpp], and [append_unknown] / [load_unknowns] of
    [src/config/internal.cpp].  Values are read and written as bt trees; oxenc turns the trees
    into bytes. *)
From S2P Require Import Prelude OMap BtValue ConfigData.

(** [rbegin()->first], if any. *)
Definition last_key {K V} (m : list (K * V)) : option K := fst <$> last m.

(** [!m.empty() && key <= m.rbegin()->first] *)
Definition key_out_of_order {K V} `{Ordered K} (m : list (K * V)) (k : K) : bool :=
  match last_key m with Some l => kleb k l | None => false end.

(** [using seqno_hash_t = std::pair<seqno_t, hash_t>], [lagged_diffs_t]. *)
Abbreviation seqno_hash_t := (Z * bytes)%type.
Abbreviation lagged_diffs_t := (list (seqno_hash_t * bt_dict)).

Definition HASH_SIZE : Z := 32.

(** [verify_callable] and [sign_callable]: an empty [std::function] is [None]. *)
Abbreviation verify_callable := (bytes -> bytes -> bool).
Abbreviation sign_callable := (bytes -> bytes).

Section WithOxenc.
Context `{Oxenc}.

(** ** Diffs *)

Definition check_scalar_order (a b : bt_value) : res unit :=
  a_int ← get_bt_int a;
  b_int ← get_bt_int b;
  match a_int, get_bt_str a, b_int, get_bt_str b with
  | Some _, _, _, Some _ => Ok tt
  | _, Some _, Some _, _ => Throw ConfigParseError
  | Some x, _, Some y, _ => throw_if (y <=? x) ConfigParseError
  | None, Some x, None, Some y => throw_if (kleb y x) ConfigParseError
  | _, _, _, _ => Throw ConfigParseError
  end.

(** [for (i = begin, j = next(i); j != end; i = j++) check_scalar_order( *i, *j)] *)
Fixpoint check_sublist_order (elems : bt_list) : res unit :=
  match elems with
  | a :: (b :: _) as rest => _ ← check_scalar_order a b; check_sublist_order rest
  | _ => Ok tt
  end.

(** The checks on a set diff: two sub-lists of sorted scalars. *)
Definition check_set_diff (changed : bt_list) : res unit :=
  _ ← throw_if (negb (length changed =? 2)%nat) ConfigParseError;
  foldM (fun _ sublist =>
           match sublist with
           | BList elems => check_sublist_order elems
           | _ => Throw ConfigParseError
           end) tt changed.

(** [load_diff]: [dict] is what the consumer still has to read.  The loop has no branch for an
    integer value: nothing is consumed then and the loop state does not change. *)
Fixpoint load_diff_loop (fuel : nat) (dict : bt_dict) (result : bt_dict) : res bt_dict :=
  match fuel with
  | O => Throw OutOfFuel
  | S fuel =>
      match dict with
      | [] => Ok result
      | (key, v) :: rest =>
          if key_out_of_order result key then Throw BtInvalid
          else
            match v with
            | BStr mode =>
                if decide (mode = "" \/ mode = "-")
                then load_diff_loop fuel rest (result ++ [(key, BStr mode)])
                else Throw ConfigParseError
            | BList l =>
                let changed := bt_load_list l in
                _ ← check_set_diff changed;
                load_diff_loop fuel rest (result ++ [(key, BList changed)])
            | BDict sub =>
                sub' ← load_diff_loop fuel sub [];
                load_diff_loop fuel rest (result ++ [(key, BDict sub')])
            | BInt _ => load_diff_loop fuel dict result
            end
      end
  end.

Fixpoint bt_size (v : bt_value) : nat :=
  match v with
  | BDict d => S (foldr (fun kv acc => S (bt_size kv.2 + acc)) 0 d)%nat
  | _ => 1
  end.
Definition bt_dict_size (d : bt_dict) : nat :=
  foldr (fun kv acc => S (bt_size kv.2 + acc)) 0%nat d.

Definition load_diff (dict : bt_dict) : res bt_dict := load_diff_loop (S (bt_dict_size dict)) dict [].

(** ** Data *)

(** [serialize_data]: the tree that is written. *)
Fixpoint bt_of_value (v : dict_value) : bt_value :=
  match v with
  | VDict d => BDict ((fun kv => (kv.1, bt_of_value kv.2)) <$> d)
  | VSet s => BList (bt_of_scalar <$> s)
  | VScalar s => bt_of_scalar s
  end.
Definition serialize_data (d : dict) : bt_dict := (fun kv => (kv.1, bt_of_value kv.2)) <$> d.

(** [parse_data(set&, bt_list_consumer)] *)
Definition parse_scalar (v : bt_value) : res scalar :=
  match v with
  | BInt _ => SInt <$> as_int64 v
  | BStr s => Ok (SStr s)
  | _ => Throw ConfigParseError
  end.

Definition parse_set (l : bt_list) : res cset :=
  _ ← throw_if (is_nil l) BtInvalid;
  foldM (fun s v =>
           x ← parse_scalar v;
           _ ← throw_if (match last s with Some y => bool_decide (x = y) | None => false end)
                        ConfigParseError;
           _ ← throw_if (match last s with Some y => kltb x y | None => false end)
                        ConfigParseError;
           Ok (s ++ [x])) [] l.

(** The loop of [parse_data(dict&, bt_dict_consumer, bool)]; [parse_value] is what is stored for
    one value. *)
Definition parse_entries (parse_value : bt_value -> res dict_value) : bt_dict -> dict -> res dict :=
  fix go (inp : bt_dict) (d : dict) : res dict :=
    match inp with
    | [] => Ok d
    | (key, v) :: inp' =>
        _ ← throw_if (key_out_of_order d key) BtInvalid;
        x ← parse_value v;
        go inp' (d ++ [(key, x)])
    end.

Fixpoint parse_value (v : bt_value) : res dict_value :=
  match v with
  | BStr s => Ok (VScalar (SStr s))
  | BInt _ => (VScalar ∘ SInt) <$> as_int64 v
  | BDict sub => _ ← throw_if (is_nil sub) BtInvalid;
                 VDict <$> parse_entries parse_value sub []
  | BList l => VSet <$> parse_set l
  end.

(** [parse_data(data_, ..., /*top_level=*/true)] *)
Definition parse_data (inp : bt_dict) : res dict := parse_entries parse_value inp [].

(** ** Lagged diffs *)

Fixpoint parse_lagged_diffs (lagged_diffs : lagged_diffs_t) (inp : bt_list)
    (curr_seqno lag : Z) : res lagged_diffs_t :=
  match inp with
  | [] => Ok lagged_diffs
  | v :: inp' =>
      sublist ← as_list v;
      let! (seqno, sublist1) := match sublist with
                                | [] => Throw BtInvalid
                                | x :: l => (fun z => (z, l)) <$> as_int64 x
                                end in
      if curr_seqno <=? seqno then Throw ConfigParseError
      else
      oldest ← int64_sub curr_seqno lag;
      if seqno <=? oldest then parse_lagged_diffs lagged_diffs inp' curr_seqno lag
      else
        let! (hash, sublist2) := match sublist1 with
                                 | [] => Throw BtInvalid
                                 | x :: l => (fun s => (s, l)) <$> as_string x
                                 end in
        _ ← throw_if (negb (size_of hash =? HASH_SIZE)) ConfigParseError;
        _ ← throw_if (key_out_of_order lagged_diffs (seqno, hash)) ConfigParseError;
        let! (diff, sublist3) := match sublist2 with
                                 | [] => Throw BtInvalid
                                 | x :: l => d ← as_dict x; df ← load_diff d; Ok (df, l)
                                 end in
        _ ← throw_if (negb (is_nil sublist3)) ConfigParseError;
        parse_lagged_diffs (lagged_diffs ++ [((seqno, hash), diff)]) inp' curr_seqno lag
  end.

(** ** Unknown top-level keys *)

(** [load_unknowns]: the loop ends at a key that is not before [until], or at the end. *)
Definition load_unknown_value (v : bt_value) : res bt_value :=
  match v with
  | BStr s => Ok (BStr s)
  | BInt z => if z <? 0 then BInt <$> as_int64 v
              else if z <=? UINT64_MAX then Ok v else Throw BtInvalid
  | BList l => Ok (BList (bt_load_list l))
  | BDict d => Ok (BDict (bt_load_dict d))
  end.

Fixpoint load_unknowns_loop (rest : bt_dict) (unknown : bt_dict) (pos : nat)
    (previous until : bytes) : res (bt_dict * bt_dict * nat) :=
  match rest with
  | [] => Ok (unknown, [], pos)
  | (key, v) :: rest' =>
      if kltb key until then
        if kleb key previous || key_out_of_order unknown key then Throw BtInvalid
        else
          x ← load_unknown_value v;
          load_unknowns_loop rest' (unknown ++ [(key, x)]) (S pos) previous until
      else Ok (unknown, rest, pos)
  end.

Definition load_unknowns (unknown : bt_dict) (c : dict_consumer) (previous until : bytes) :
    res (bt_dict * dict_consumer) :=
  let! (unknown', rest, pos) :=
    load_unknowns_loop (dc_rest c) unknown (dc_pos c) previous until in
  if is_nil rest && negb (dc_complete c) then Throw BtInvalid  (* in.key() on undecodable data *)
  else Ok (unknown', {| dc_src := dc_src c; dc_pos := pos; dc_rest := rest;
                        dc_complete := dc_complete c |}).

(** [append_unknown]: the pairs of [[it, E)] that are written, and the pairs from [E] on. *)
Fixpoint append_unknown (it : bt_dict) (until : bytes) : bt_dict * bt_dict :=
  match it with
  | [] => ([], [])
  | (k, v) :: it' =>
      if kltb k until then let '(out, rest) := append_unknown it' until in ((k, v) :: out, rest)
      else ([], it)
  end.

(** ** Signatures *)

(** [verify_config_sig]: returns the value of [*verified_signature] afterwards. *)
Definition verify_config_sig (dict : dict_consumer) (verifier : option verify_callable)
    (verified_signature : option bytes) (trust_signature : bool) : res (option bytes) :=
  let! (found, dict1) := dc_skip_until "~" dict in
  let! (vsig, dict2) :=
    (if (found : bool) then
       let! (_, v, dict2) := dc_next dict1 in
       sig ← as_string v;
       let to_verify := bt_dict_prefix (dc_src dict1) (dc_pos dict1) in
       _ ← throw_if (negb (size_of sig =? 64)) SignatureError;
       _ ← throw_if (match verifier with Some f => negb (f to_verify sig) | None => false end)
                    SignatureError;
       let keep := match verifier with Some _ => true | None => trust_signature end in
       Ok (if keep then Some sig else verified_signature, dict2)
     else
       _ ← throw_if (match verifier with Some _ => true | None => false end) MissingSignature;
       Ok (verified_signature, dict1)) in
  _ ← throw_if (negb (dc_is_finished dict2)) ConfigParseError;
  Ok vsig.
End WithOxenc.
