(* ===== verification/ConfigParseFacts.v ===== *)
(** * Facts about parsing and serializing: round trips, canonical form, (non-)termination *)
From S2P Require Import Prelude OMap BtValue ConfigData ConfigDataFacts ConfigParse.

(** A diff as the code writes it and [load_diff] accepts it. *)
Definition valid_sublist (l : bt_list) : Prop :=
  exists s, l = bt_of_scalar <$> s /\ ssorted s /\ Forall wf_scalar s.

Fixpoint valid_diff_value (v : bt_value) : Prop :=
  match v with
  | BStr s => s = "" \/ s = "-"
  | BList l => exists a r, l = [BList a; BList r] /\ valid_sublist a /\ valid_sublist r
  | BDict d => msorted d /\ foldr (fun kv acc => valid_diff_value kv.2 /\ acc) True d
  | BInt _ => False
  end.
Definition valid_diff (d : bt_dict) : Prop :=
  msorted d /\ Forall (fun kv => valid_diff_value kv.2) d.

(** No integer is a value of the diff or of one of its nested diffs. *)
Fixpoint int_free (v : bt_value) : bool :=
  match v with
  | BInt _ => false
  | BDict d => forallb (fun kv => int_free kv.2) d
  | _ => true
  end.

(** ** Ordered accumulation *)
Section Accumulate.
Context {K V : Type} `{Ordered K}.
Implicit Types (m : list (K * V)).

Lemma key_in_order m k v :
  msorted m -> key_out_of_order m k = false <-> msorted (m ++ [(k, v)]).
Proof.
  intros Hs. unfold key_out_of_order, last_key.
  induction m as [|[k0 v0] m _] using rev_ind; cbn.
  - split; [|done]. intros _. apply msorted_cons. split; constructor.
  - rewrite last_snoc. cbn. rewrite kleb_gt. apply msorted_app in Hs as (Hs & _ & Hlt).
    rewrite <- app_assoc. cbn. rewrite msorted_app. split.
    + intros Hk. split_and!; [done| |].
      * apply msorted_cons. split; [apply msorted_cons; split; constructor|].
        constructor; [done|constructor].
      * intros p' q Hp' [->|[->|[]%not_elem_of_nil]%elem_of_cons]%elem_of_cons.
        { apply Hlt; [done|by left]. }
        cbn. eapply klt_trans; [|done]. apply (Hlt p' (k0, v0)); [done|by left].
    + intros (_ & Hpk & _). apply msorted_cons in Hpk as [_ Hf].
      by apply Forall_cons in Hf as [? _].
Qed.

Lemma msorted_app_l m1 m2 : msorted (m1 ++ m2) -> msorted m1.
Proof. by intros (? & _)%msorted_app. Qed.
End Accumulate.

Lemma parse_entries_cons pv k v inp d :
  parse_entries pv ((k, v) :: inp) d =
  (_ ← throw_if (key_out_of_order d k) BtInvalid; x ← pv v; parse_entries pv inp (d ++ [(k, x)])).
Proof. reflexivity. Qed.

Lemma parse_entries_sound pv inp d r :
  parse_entries pv inp d = Ok r -> msorted d ->
  exists d', r = d ++ d' /\ msorted r /\
             Forall2 (fun kv kx => kv.1 = kx.1 /\ pv kv.2 = Ok kx.2) inp d'.
Proof.
  revert d; induction inp as [|[k v] inp IH]; intros d.
  - intros [= ->] Hs. exists []. rewrite app_nil_r. auto.
  - rewrite parse_entries_cons. intros Hp Hs. res_step Hp. res_step Hp.
    unfold throw_if in E. destruct (key_out_of_order d k) eqn:Ek; [discriminate E|].
    apply IH in Hp as (d' & -> & Hs' & Hf); [|by apply (key_in_order d k a0)].
    exists ((k, a0) :: d'). rewrite <- app_assoc in *. split_and!; [done..|]. by constructor.
Qed.

Lemma parse_entries_complete pv inp d d' :
  Forall2 (fun kv kx => kv.1 = kx.1 /\ pv kv.2 = Ok kx.2) inp d' -> msorted (d ++ d') ->
  parse_entries pv inp d = Ok (d ++ d').
Proof.
  intros Hf; revert d; induction Hf as [|[k v] [k' x] inp d' [Hk Hv] _ IH]; intros d Hs.
  - by rewrite app_nil_r.
  - cbn in Hk, Hv. subst k'. rewrite parse_entries_cons.
    replace (d ++ (k, x) :: d') with ((d ++ [(k, x)]) ++ d') in * by by rewrite <- app_assoc.
    assert (key_out_of_order d k = false) as ->.
    { apply (key_in_order d k x); eauto using msorted_app_l. }
    cbn. rewrite Hv. cbn. by apply IH.
Qed.

(** ** Sets *)

Definition parse_set_step (s : cset) (v : bt_value) : res cset :=
  x ← parse_scalar v;
  _ ← throw_if (match last s with Some y => bool_decide (x = y) | None => false end)
               ConfigParseError;
  _ ← throw_if (match last s with Some y => kltb x y | None => false end) ConfigParseError;
  Ok (s ++ [x]).

Lemma parse_set_eq l :
  parse_set l = (_ ← throw_if (is_nil l) BtInvalid; foldM parse_set_step [] l).
Proof. reflexivity. Qed.

Lemma parse_scalar_of x : wf_scalar x -> parse_scalar (bt_of_scalar x) = Ok x.
Proof. destruct x; cbn; [by intros ->|done]. Qed.

Lemma parse_scalar_inv v x : parse_scalar v = Ok x -> wf_scalar x /\ bt_of_scalar x = v.
Proof. destruct v; cbn; try done; [destruct (in_int64 z) eqn:E|]; cbn; naive_solver. Qed.

Lemma ssorted_app s1 s2 :
  ssorted (A:=scalar) (s1 ++ s2) <->
  ssorted s1 /\ ssorted s2 /\ (forall x y, x ∈ s1 -> y ∈ s2 -> x ≺ y).
Proof.
  induction s1 as [|x s1 IH]; cbn.
  - split; [|naive_solver]. intros. split_and!; [constructor|done|]. by intros ? ? ?%not_elem_of_nil.
  - rewrite !ssorted_cons, IH, Forall_app, !Forall_forall. split.
    + intros [(? & ? & Hlt) [? ?]]. split_and!; auto. intros y z [->|]%elem_of_cons ?; auto.
    + intros ([? ?] & ? & Hlt). split_and!; auto; intros; apply Hlt; auto; by constructor.
Qed.

Lemma ssorted_snoc s x :
  ssorted s -> ssorted (s ++ [x]) <-> match last s with Some y => y ≺ x | None => True end.
Proof.
  intros Hs. induction s as [|y s _] using rev_ind; cbn.
  - split; [done|]. intros _. repeat constructor.
  - rewrite last_snoc. apply ssorted_app in Hs as (Hs & _ & Hlt). rewrite <- app_assoc. cbn.
    rewrite ssorted_app. split.
    + intros (_ & [_ Hf]%ssorted_cons & _). by apply Forall_cons in Hf as [? _].
    + intros Hyx. split_and!; [done|repeat constructor; done|].
      intros z w Hz [->|[->|[]%not_elem_of_nil]%elem_of_cons]%elem_of_cons.
      * apply Hlt; [done|by left].
      * eapply klt_trans; [|done]. apply Hlt; [done|by left].
Qed.

Lemma parse_set_step_ok s v s' :
  ssorted s -> parse_set_step s v = Ok s' <->
  exists x, s' = s ++ [x] /\ wf_scalar x /\ bt_of_scalar x = v /\ ssorted (s ++ [x]).
Proof.
  intros Hs. unfold parse_set_step. split.
  - intros Hp. res_inv Hp. unfold throw_if in E0, E1. exists a.
    apply parse_scalar_inv in E as [? ?]. split_and!; auto.
    apply ssorted_snoc; [done|]. destruct (last s) as [y|]; [|done].
    destruct (bool_decide _) eqn:B1 in E0; [done|]. destruct (kltb _ _) eqn:B2 in E1; [done|].
    bool_prop. apply kltb_nlt in B2. destruct (klt_total y a) as [?|[->|?]]; done.
  - intros (x & -> & Hw & <- & Hx). rewrite parse_scalar_of by done. cbn.
    apply ssorted_snoc in Hx; [|done]. destruct (last s) as [y|]; [|done].
    rewrite bool_decide_false by (intros ->; by apply klt_irrefl in Hx). cbn.
    by rewrite (proj2 (kltb_nlt _ _) (klt_asym _ _ Hx)).
Qed.

Lemma parse_set_sound_aux l s s' :
  ssorted s -> foldM parse_set_step s l = Ok s' ->
  exists t, s' = s ++ t /\ l = bt_of_scalar <$> t /\ Forall wf_scalar t /\ ssorted s'.
Proof.
  revert s; induction l as [|v l IH]; intros s Hs; cbn.
  - intros [= ->]. exists []. rewrite app_nil_r. split_and!; auto.
  - intros Hp. res_step Hp. apply parse_set_step_ok in E as (x & -> & Hw & <- & Hx); [|done].
    apply IH in Hp as (t & -> & -> & Ht & Hst); [|done].
    exists (x :: t). rewrite <- app_assoc in *. split_and!; auto.
Qed.

Lemma parse_set_complete_aux s t :
  Forall wf_scalar t -> ssorted (s ++ t) ->
  foldM parse_set_step s (bt_of_scalar <$> t) = Ok (s ++ t).
Proof.
  intros Hw; revert s; induction Hw as [|x t Hx _ IH]; intros s Hs; cbn.
  - by rewrite app_nil_r.
  - replace (s ++ x :: t) with ((s ++ [x]) ++ t) in * by by rewrite <- app_assoc.
    pose proof Hs as [Hsx _]%ssorted_app. pose proof Hsx as [Hs0 _]%ssorted_app.
    rewrite (proj2 (parse_set_step_ok s (bt_of_scalar x) (s ++ [x]) Hs0)) by eauto 6. cbn. auto.
Qed.

Lemma parse_set_sound l s :
  parse_set l = Ok s -> wf_value (VSet s) /\ s <> [] /\ l = bt_of_scalar <$> s.
Proof.
  rewrite parse_set_eq. intros Hp. res_step Hp. destruct l as [|v l]; [done|].
  apply parse_set_sound_aux in Hp as (t & -> & Ht & Hw & Hs); [|constructor].
  cbn [app] in *. split; [done|]. split; [|done]. by destruct t.
Qed.

Lemma parse_set_complete s :
  wf_value (VSet s) -> s <> [] -> parse_set (bt_of_scalar <$> s) = Ok s.
Proof.
  intros [Hs Hw] Hne. rewrite parse_set_eq. destruct s; [done|]. cbn.
  by apply (parse_set_complete_aux [] (s :: s0)).
Qed.

(** ** Data: parsing accepts exactly the canonical encodings of well-formed, pruned data *)

Definition parse_value_sound_at (v : bt_value) : Prop :=
  forall x, parse_value v = Ok x -> wf_value x /\ pruned_value x /\ bt_of_value x = v.

Lemma parse_entries_values inp d :
  Forall (fun kv => parse_value_sound_at kv.2) inp ->
  Forall2 (fun kv kx => kv.1 = kx.1 /\ parse_value kv.2 = Ok kx.2) inp d ->
  Forall (fun kv => wf_value kv.2) d /\ pruned_dict d /\ serialize_data d = inp.
Proof.
  intros Hs Hf; revert Hs; induction Hf as [|[k v] [k' x] inp d [Hk Hv] _ IH]; intros Hs.
  - split_and!; constructor.
  - apply Forall_cons in Hs as [Hx Hs]. destruct (Hx _ Hv) as (? & ? & Hb).
    destruct (IH Hs) as (? & ? & Hsd). cbn in Hk. subst k'.
    split_and!; [by constructor | by apply pruned_dict_cons |].
    unfold serialize_data in *. cbn in *. by rewrite Hsd, Hb.
Qed.

Lemma parse_value_sound v : parse_value_sound_at v.
Proof.
  induction v as [z|s|l IH|d IH] using bt_value_nested_ind; intros x Hp.
  - cbn in Hp. destruct (in_int64 z) eqn:E; [|done]. cbn in Hp. by simplify_eq.
  - cbn in Hp. by simplify_eq.
  - cbn in Hp. destruct (parse_set l) eqn:E; [|done]. cbn in Hp. simplify_eq.
    by apply parse_set_sound in E as (? & ? & ->).
  - cbn [parse_value] in Hp. res_step Hp. destruct d as [|kv d]; [done|].
    destruct (parse_entries parse_value (kv :: d) []) as [r|] eqn:Er; [|done].
    cbn in Hp. simplify_eq. apply parse_entries_sound in Er as (d' & -> & Hs & Hf); [|constructor].
    cbn [app] in *. apply parse_entries_values in Hf as (Hw & Hpr & Hb); [|done].
    split_and!; [by apply wf_VDict | apply pruned_VDict; split; [|done] |].
    + intros ->. done.
    + cbn. unfold serialize_data in Hb. by rewrite Hb.
Qed.

Lemma parse_data_sound inp d :
  parse_data inp = Ok d -> wf_dict d /\ pruned_dict d /\ serialize_data d = inp.
Proof.
  intros (d' & -> & Hs & Hf)%parse_entries_sound; [|constructor]. cbn [app] in *.
  apply parse_entries_values in Hf as (Hw & Hpr & Hb);
    [|apply Forall_forall; intros; apply parse_value_sound].
  by split_and!; [split|..].
Qed.

Lemma serialize_data_entries d :
  Forall (fun kv => wf_value kv.2 -> pruned_value kv.2 ->
                    parse_value (bt_of_value kv.2) = Ok kv.2) d ->
  wf_dict d -> pruned_dict d ->
  Forall2 (fun kv kx => kv.1 = kx.1 /\ parse_value kv.2 = Ok kx.2) (serialize_data d) d.
Proof.
  induction 1 as [|[k v] d Hv _ IH]; [constructor|].
  rewrite wf_dict_cons, pruned_dict_cons. intros (? & _ & ?) [? ?].
  unfold serialize_data. cbn. constructor; auto.
Qed.

Lemma parse_value_complete v :
  wf_value v -> pruned_value v -> parse_value (bt_of_value v) = Ok v.
Proof.
  induction v as [d IH|s|x] using dict_value_nested_ind.
  - rewrite wf_VDict, pruned_VDict. intros Hw [Hne Hp]. cbn [bt_of_value parse_value].
    change ((fun kv : bytes * dict_value => (kv.1, bt_of_value kv.2)) <$> d)
      with (serialize_data d).
    assert (is_nil (serialize_data d) = false) as -> by by destruct d. cbn [throw_if mbind res_bind].
    rewrite (parse_entries_complete _ _ [] d); [done| |apply Hw].
    by apply serialize_data_entries.
  - cbn [bt_of_value parse_value pruned_value]. intros. by rewrite parse_set_complete.
  - cbn [bt_of_value]. intros Hx _. destruct x as [z|s]; cbn in *; [by rewrite Hx|done].
Qed.

Lemma parse_data_complete d :
  wf_dict d -> pruned_dict d -> parse_data (serialize_data d) = Ok d.
Proof.
  intros Hw Hp. unfold parse_data. apply (parse_entries_complete _ _ [] d); [|apply Hw].
  apply serialize_data_entries; [|done..]. apply Forall_forall.
  intros kv _. apply parse_value_complete.
Qed.

(** ** Diffs *)

Lemma valid_diff_BDict d : valid_diff_value (BDict d) <-> valid_diff d.
Proof.
  cbn. unfold valid_diff. by rewrite (foldr_and_Forall (fun kv => valid_diff_value kv.2)).
Qed.

Lemma valid_diff_cons k v d :
  valid_diff ((k, v) :: d) <->
  valid_diff_value v /\ Forall (fun p => k ≺ p.1) d /\ valid_diff d.
Proof. unfold valid_diff. rewrite msorted_cons, Forall_cons. cbn. tauto. Qed.

Lemma bt_wf_of_scalar x : wf_scalar x -> bt_wf (bt_of_scalar x).
Proof.
  destruct x as [z|s]; cbn; [|done]. unfold in_int64, INT64_MIN, INT64_MAX, UINT64_MAX.
  intros Hz. bool_prop. lia.
Qed.

Lemma valid_sublist_wf l : valid_sublist l -> bt_wf_list l.
Proof.
  intros (s & -> & _ & Hw). unfold bt_wf_list. apply Forall_fmap.
  eapply Forall_impl; [apply Hw|]. intros. by apply bt_wf_of_scalar.
Qed.

Lemma valid_diff_value_wf v : valid_diff_value v -> bt_wf v.
Proof.
  induction v as [z|s|l IH|d IH] using bt_value_nested_ind; [done..| |].
  - intros (a & r & -> & Ha & Hr). apply bt_wf_BList. unfold bt_wf_list.
    repeat constructor; apply bt_wf_BList; by apply valid_sublist_wf.
  - rewrite valid_diff_BDict, bt_wf_BDict. intros [Hs Hv]. split; [done|].
    rewrite Forall_forall in *. intros kv Hkv. auto.
Qed.

Lemma valid_diff_wf d : valid_diff d -> bt_wf_dict d.
Proof.
  intros [Hs Hv]. split; [done|]. eapply Forall_impl; [apply Hv|].
  intros. by apply valid_diff_value_wf.
Qed.

(** The specification of diffs yields valid diffs. *)
Lemma set_diff_valid old new_ a r :
  set_diff_rel old new_ a r -> Forall wf_scalar old -> Forall wf_scalar new_ ->
  valid_diff_value (bt_set_diff a r).
Proof.
  intros (Ha & Hr & Ia & Ir) Ho Hn. eexists _, _. split; [done|]. rewrite Forall_forall in *.
  split; eexists; (split; [done|]); (split; [done|]); apply Forall_forall;
    intros x [? ?]%Ia || intros x [? ?]%Ir; auto.
Qed.

Lemma diff_valid_mut :
  (forall old new_ df, diff_rel old new_ df -> wf_dict old -> wf_dict new_ -> valid_diff df) /\
  (forall o n v, diff_entry o n v -> wf_opt o -> wf_opt n -> from_option valid_diff_value True v).
Proof.
  apply diff_mutind; try (intros; cbn; done || (by left) || (by right)).
  - intros old new_ df Hs _ IH Ho Hn. split; [done|]. apply Forall_forall.
    intros [k v] Hkv. apply In_mfind in Hkv; [|done]. specialize (IH k). rewrite Hkv in IH.
    apply IH; auto using wf_opt_find.
  - intros s a r Hr _ _ [_ Hw]. cbn [from_option]. by apply (set_diff_valid [] s).
  - intros d sub _ IH _ _ Hn%wf_VDict. apply valid_diff_BDict. auto with session.
  - intros s a r Hr _ [_ Hw] _. by apply (set_diff_valid s []).
  - intros d sub _ IH _ Ho%wf_VDict _. apply valid_diff_BDict. auto with session.
  - intros s s' a r Hr _ [_ Hw] [_ Hw']. by apply (set_diff_valid s s').
  - intros d d' sub _ IH _ Ho%wf_VDict Hn%wf_VDict. apply valid_diff_BDict. auto.
  - intros o n v _ _ IH _ Hn. by apply IH.
Qed.

Lemma diff_rel_valid old new_ df :
  diff_rel old new_ df -> wf_dict old -> wf_dict new_ -> valid_diff df.
Proof. intros H. by apply (proj1 diff_valid_mut _ _ _ H). Qed.

Section LoadFacts.
Context `{Oxenc}.

Lemma check_scalar_order_of x y :
  wf_scalar x -> wf_scalar y -> x ≺ y -> check_scalar_order (bt_of_scalar x) (bt_of_scalar y) = Ok tt.
Proof.
  unfold check_scalar_order, klt.
  destruct x as [z|s], y as [z'|s']; cbn; intros Hx Hy Hlt; try discriminate Hlt;
    rewrite ?bt_get_int_ok by done; cbn; try done.
  - apply Z.compare_lt_iff in Hlt. by rewrite (proj2 (Z.leb_gt _ _) Hlt).
  - change (klt s s') in Hlt. by rewrite (proj2 (kleb_gt _ _) Hlt).
Qed.

Lemma check_sublist_order_of s :
  ssorted s -> Forall wf_scalar s -> check_sublist_order (bt_of_scalar <$> s) = Ok tt.
Proof.
  induction s as [|x s IH]; [done|].
  intros [Hs Hlt]%ssorted_cons [Hx Hw]%Forall_cons. destruct s as [|y s]; [done|].
  cbn [check_sublist_order fmap list_fmap]. apply Forall_cons in Hlt as [Hxy _].
  pose proof Hw as [Hy _]%Forall_cons. rewrite check_scalar_order_of by done. by apply IH.
Qed.

Lemma check_set_diff_valid a r :
  valid_sublist a -> valid_sublist r -> check_set_diff [BList a; BList r] = Ok tt.
Proof.
  intros (s & -> & ? & ?) (t & -> & ? & ?). cbn. by rewrite !check_sublist_order_of.
Qed.

(** [load_diff] reads back every valid diff unchanged. *)
Lemma load_diff_loop_valid fuel d result :
  (bt_dict_size d < fuel)%nat -> valid_diff d -> msorted (result ++ d) ->
  load_diff_loop fuel d result = Ok (result ++ d).
Proof.
  revert d result; induction fuel as [|fuel IH]; intros d result Hf Hv Hs; [lia|].
  destruct d as [|[k v] d]; cbn [load_diff_loop]; [by rewrite app_nil_r|].
  apply valid_diff_cons in Hv as (Hv & _ & Hd).
  change (bt_dict_size ((k, v) :: d)) with (S (bt_size v + bt_dict_size d)) in Hf.
  replace (result ++ (k, v) :: d) with ((result ++ [(k, v)]) ++ d) in *
    by by rewrite <- app_assoc.
  assert (key_out_of_order result k = false) as ->.
  { apply (key_in_order result k v); eauto using msorted_app_l. }
  destruct v as [z|s|l|sub].
  - done.
  - rewrite decide_True by done. apply IH; [lia|done..].
  - pose proof (valid_diff_value_wf _ Hv) as Hw%bt_wf_BList. rewrite bt_load_list_wf by done.
    destruct Hv as (a & r & -> & Ha & Hr). rewrite check_set_diff_valid by done. cbn [mbind res_bind].
    apply IH; [lia|done..].
  - apply valid_diff_BDict in Hv.
    change (bt_size (BDict sub)) with (S (bt_dict_size sub)) in Hf.
    rewrite (IH sub []) by (lia || done || apply Hv). cbn [mbind res_bind].
    apply IH; [lia|done..].
Qed.

Lemma load_diff_valid d : valid_diff d -> load_diff d = Ok d.
Proof. intros Hv. apply (load_diff_loop_valid _ d []); [lia|done|apply Hv]. Qed.

(** The checks on a set diff never run out of fuel: they have none. *)
Lemma get_bt_int_fuel v : get_bt_int v <> Throw OutOfFuel.
Proof.
  destruct v; cbn; [|done..]. destruct (in_int64 z) eqn:E.
  - by rewrite bt_get_int_ok.
  - by rewrite bt_get_int_err.
Qed.

Lemma check_scalar_order_fuel a b : check_scalar_order a b <> Throw OutOfFuel.
Proof.
  unfold check_scalar_order, throw_if.
  destruct (get_bt_int a) as [oa|e] eqn:Ea; [|intros [= ->]; by apply get_bt_int_fuel in Ea].
  cbn. destruct (get_bt_int b) as [ob|e] eqn:Eb; [|intros [= ->]; by apply get_bt_int_fuel in Eb].
  cbn. repeat case_match; done.
Qed.

Lemma check_sublist_order_fuel l : check_sublist_order l <> Throw OutOfFuel.
Proof.
  induction l as [|a [|b l] IH]; [done..|]. cbn [check_sublist_order].
  destruct (check_scalar_order a b) as [|e] eqn:E; cbn [mbind res_bind]; [done|].
  intros [= ->]. by apply check_scalar_order_fuel in E.
Qed.

Lemma check_set_diff_fuel l : check_set_diff l <> Throw OutOfFuel.
Proof.
  unfold check_set_diff. destruct (throw_if _ _) as [|e] eqn:E; cbn [mbind res_bind].
  - clear E. induction l as [|v l IH]; cbn [foldM]; [done|].
    destruct v; try done. destruct (check_sublist_order l0) as [[]|e] eqn:E; [exact IH|].
    intros [= ->]. by apply check_sublist_order_fuel in E.
  - unfold throw_if in E. case_match; naive_solver.
Qed.

(** Without integers the loop ends, with a result or with an exception. *)
Lemma load_diff_loop_terminates fuel d result :
  (bt_dict_size d < fuel)%nat -> forallb (fun kv => int_free kv.2) d = true ->
  load_diff_loop fuel d result <> Throw OutOfFuel.
Proof.
  revert d result; induction fuel as [|fuel IH]; intros d result Hf Hi; [lia|].
  destruct d as [|[k v] d]; [done|]. cbn [load_diff_loop].
  change (bt_dict_size ((k, v) :: d)) with (S (bt_size v + bt_dict_size d)) in Hf.
  cbn in Hi. apply andb_true_iff in Hi as [Hv Hd].
  destruct (key_out_of_order result k); [done|].
  destruct v as [z|s|l|sub]; [done| | |].
  - destruct (decide _); [|done]. apply IH; [lia|done].
  - destruct (check_set_diff _) as [|e] eqn:E; cbn [mbind res_bind]; [apply IH; [lia|done]|].
    intros [= ->]. by apply check_set_diff_fuel in E.
  - change (bt_size (BDict sub)) with (S (bt_dict_size sub)) in Hf.
    destruct (load_diff_loop fuel sub []) as [|e] eqn:E; cbn [mbind res_bind].
    + apply IH; [lia|done].
    + intros [= ->]. refine (IH sub [] _ _ E); [lia|exact Hv].
Qed.

(** An integer value stops the loop from making progress. *)
Lemma load_diff_loop_int fuel k z rest result :
  key_out_of_order result k = false ->
  load_diff_loop fuel ((k, BInt z) :: rest) result = Throw OutOfFuel.
Proof.
  intros Hk. induction fuel as [|fuel IH]; [done|]. cbn [load_diff_loop]. by rewrite Hk.
Qed.
End LoadFacts.
