(* ===== verification/ConfigMessage.v ===== *)
(** * Config messages

    [ConfigMessage] and [MutableConfigMessage] of [src/config.cpp] and
    [include/session/config.hpp]: construction from one or several serialized messages (parsing,
    redundancy, merging by replaying diffs), incrementing, diffing, serializing and hashing. *)
From S2P Require Import Prelude OMap BtValue ThirdParty ConfigData ConfigParse.

(** [orig_data_] is the member that only [MutableConfigMessage] has: [None] is an object of the
    base class, [Some _] an object of the derived class. *)
Record ConfigMessage := {
  data_ : dict;
  diff_ : bt_dict;
  lagged_diffs_ : lagged_diffs_t;
  unknown_ : bt_dict;
  seqno_hash_ : seqno_hash_t;
  verified_signature_ : option bytes;
  unmerged_ : option nat;
  verifier : option verify_callable;
  signer : option sign_callable;
  lag : Z;
  orig_data_ : option dict
}.

Definition DEFAULT_DIFF_LAGS : Z := 5.
Definition zero_hash : bytes := replicate 32 char_nul.

Definition seqno (m : ConfigMessage) : Z := (seqno_hash_ m).1.
Definition merged (m : ConfigMessage) : bool :=
  match unmerged_ m with None => true | Some _ => false end.

(** Member assignments. *)
Definition with_data (m : ConfigMessage) (d : dict) : ConfigMessage :=
  {| data_ := d; diff_ := diff_ m; lagged_diffs_ := lagged_diffs_ m; unknown_ := unknown_ m;
     seqno_hash_ := seqno_hash_ m; verified_signature_ := verified_signature_ m;
     unmerged_ := unmerged_ m; verifier := verifier m; signer := signer m; lag := lag m;
     orig_data_ := orig_data_ m |}.
Definition with_diff (m : ConfigMessage) (d : bt_dict) : ConfigMessage :=
  {| data_ := data_ m; diff_ := d; lagged_diffs_ := lagged_diffs_ m; unknown_ := unknown_ m;
     seqno_hash_ := seqno_hash_ m; verified_signature_ := verified_signature_ m;
     unmerged_ := unmerged_ m; verifier := verifier m; signer := signer m; lag := lag m;
     orig_data_ := orig_data_ m |}.
Definition with_lagged (m : ConfigMessage) (l : lagged_diffs_t) : ConfigMessage :=
  {| data_ := data_ m; diff_ := diff_ m; lagged_diffs_ := l; unknown_ := unknown_ m;
     seqno_hash_ := seqno_hash_ m; verified_signature_ := verified_signature_ m;
     unmerged_ := unmerged_ m; verifier := verifier m; signer := signer m; lag := lag m;
     orig_data_ := orig_data_ m |}.
Definition with_seqno_hash (m : ConfigMessage) (sh : seqno_hash_t) : ConfigMessage :=
  {| data_ := data_ m; diff_ := diff_ m; lagged_diffs_ := lagged_diffs_ m;
     unknown_ := unknown_ m; seqno_hash_ := sh; verified_signature_ := verified_signature_ m;
     unmerged_ := unmerged_ m; verifier := verifier m; signer := signer m; lag := lag m;
     orig_data_ := orig_data_ m |}.
Definition with_signature (m : ConfigMessage) (s : option bytes) : ConfigMessage :=
  {| data_ := data_ m; diff_ := diff_ m; lagged_diffs_ := lagged_diffs_ m;
     unknown_ := unknown_ m; seqno_hash_ := seqno_hash_ m; verified_signature_ := s;
     unmerged_ := unmerged_ m; verifier := verifier m; signer := signer m; lag := lag m;
     orig_data_ := orig_data_ m |}.
Definition with_unmerged (m : ConfigMessage) (u : option nat) : ConfigMessage :=
  {| data_ := data_ m; diff_ := diff_ m; lagged_diffs_ := lagged_diffs_ m;
     unknown_ := unknown_ m; seqno_hash_ := seqno_hash_ m;
     verified_signature_ := verified_signature_ m; unmerged_ := u; verifier := verifier m;
     signer := signer m; lag := lag m; orig_data_ := orig_data_ m |}.
Definition with_callables (m : ConfigMessage) (v : option verify_callable)
    (s : option sign_callable) (l : Z) : ConfigMessage :=
  {| data_ := data_ m; diff_ := diff_ m; lagged_diffs_ := lagged_diffs_ m;
     unknown_ := unknown_ m; seqno_hash_ := seqno_hash_ m;
     verified_signature_ := verified_signature_ m; unmerged_ := unmerged_ m; verifier := v;
     signer := s; lag := l; orig_data_ := orig_data_ m |}.
Definition with_orig (m : ConfigMessage) (o : option dict) : ConfigMessage :=
  {| data_ := data_ m; diff_ := diff_ m; lagged_diffs_ := lagged_diffs_ m;
     unknown_ := unknown_ m; seqno_hash_ := seqno_hash_ m;
     verified_signature_ := verified_signature_ m; unmerged_ := unmerged_ m;
     verifier := verifier m; signer := signer m; lag := lag m; orig_data_ := o |}.

(** The members before any constructor body runs (the in-class initializers). *)
Definition blank_message : ConfigMessage :=
  {| data_ := []; diff_ := []; lagged_diffs_ := []; unknown_ := []; seqno_hash_ := (0, zero_hash);
     verified_signature_ := None; unmerged_ := None; verifier := None; signer := None;
     lag := DEFAULT_DIFF_LAGS; orig_data_ := None |}.

(** [std::map<seqno_hash_t, std::pair<const dict*, const bt_dict*>>] *)
Abbreviation replay_t := (list (seqno_hash_t * (dict * bt_dict))).

Section WithLibraries.
Context `{Oxenc} `{Blake2b}.

Definition hash_msg (serialized : bytes) : bytes := generichash HASH_SIZE [] serialized.

(** ** Serializing *)

(** The ["<"] list: the lagged diffs inside the window. *)
Fixpoint serialize_lags (seqno lag : Z) (lags : lagged_diffs_t) : res bt_list :=
  match lags with
  | [] => Ok []
  | ((lag_seqno, lag_hash), lag_data) :: lags' =>
      oldest ← int64_sub seqno lag;
      rest ← serialize_lags seqno lag lags';
      if (lag_seqno <=? oldest) || (seqno <=? lag_seqno) then Ok rest
      else Ok (BList [BInt lag_seqno; BStr lag_hash; BDict lag_data] :: rest)
  end.

(** The pairs of the outer dict before the signature. *)
Definition message_pairs (m : ConfigMessage) (curr_diff : bt_dict) : res bt_dict :=
  let '(u1, it) := append_unknown (unknown_ m) "&" in
  let '(u2, it) := append_unknown it "<" in
  lags ← serialize_lags (seqno m) (lag m) (lagged_diffs_ m);
  let '(u3, it) := append_unknown it "=" in
  let '(u4, it) := append_unknown it "~" in
  Ok ([(bs "#", BInt (seqno m))] ++ u1 ++ [(bs "&", BDict (serialize_data (data_ m)))] ++ u2 ++
      [(bs "<", BList lags)] ++ u3 ++ [(bs "=", BDict curr_diff)] ++ u4).

(** The ["~"] pair: the retained signature, or a new one over the output so far. *)
Definition signature_pair (m : ConfigMessage) (body : bt_dict) (enable_signing : bool) :
    res bt_dict :=
  match verified_signature_ m, signer m with
  | Some s, _ => Ok [(bs "~", BStr s)]
  | None, Some sign =>
      if enable_signing then
        let sig := sign (bt_dict_open body) in
        if size_of sig =? 64 then Ok [(bs "~", BStr sig)] else Throw LogicError
      else Ok []
  | None, None => Ok []
  end.

Definition serialize_impl (m : ConfigMessage) (curr_diff : bt_dict) (enable_signing : bool) :
    res bytes :=
  body ← message_pairs m curr_diff;
  sig ← signature_pair m body enable_signing;
  Ok (bt_dict_print (body ++ sig)).

(** [MutableConfigMessage::prune] *)
Definition prune (m : ConfigMessage) : bool * ConfigMessage :=
  let '(changed, d) := prune_dict (data_ m) in (changed, with_data m d).

(** [diff()], virtual: a base object returns its member, a derived one recomputes it. *)
Definition diff (m : ConfigMessage) : res (bt_dict * ConfigMessage) :=
  match orig_data_ m with
  | None => Ok (diff_ m, m)
  | Some orig =>
      let m := with_signature m None in
      let '(_, m) := prune m in
      d ← diff_impl orig (data_ m);
      let d := value_or d [] in
      Ok (d, with_diff m d)
  end.

Definition serialize (m : ConfigMessage) (enable_signing : bool) : res (bytes * ConfigMessage) :=
  let! (d, m) := diff m in
  out ← serialize_impl m d enable_signing;
  Ok (out, m).

(** [hash()], virtual. *)
Definition hash (m : ConfigMessage) : res (bytes * ConfigMessage) :=
  match orig_data_ m with
  | None => Ok ((seqno_hash_ m).2, m)
  | Some _ =>
      let! (s, m) := serialize m true in
      let h := hash_msg s in
      Ok (h, with_seqno_hash m (seqno m, h))
  end.

(** ** Incrementing *)

Fixpoint drop_old_lags (seqno lag : Z) (lags : lagged_diffs_t) : res lagged_diffs_t :=
  match lags with
  | [] => Ok []
  | ((s, h), d) :: lags' =>
      oldest ← int64_sub seqno lag;
      if s <=? oldest then drop_old_lags seqno lag lags' else Ok lags
  end.

(** The loop from [rbegin()] that erases seqnos that are not below the current one: after an
    erasure it goes on with an iterator to the erased element, which is undefined. *)
Definition drop_new_lags (seqno : Z) (lags : lagged_diffs_t) : res lagged_diffs_t :=
  match last lags with
  | Some ((s, _), _) => if seqno <=? s then Throw UB else Ok lags
  | None => Ok lags
  end.

Definition increment_impl (m : ConfigMessage) : res ConfigMessage :=
  let m := with_orig m (Some (data_ m)) in
  lags ← drop_old_lags (seqno m) (lag m) (lagged_diffs_ m);
  lags ← drop_new_lags (seqno m) lags;
  let m := with_lagged m (memplace (seqno_hash_ m) (diff_ m) lags) in
  next ← int64_add (seqno m) 1;
  Ok (with_diff (with_seqno_hash m (next, zero_hash)) []).

(** [MutableConfigMessage(const ConfigMessage&, increment_seqno_t)], which is [increment()]. *)
Definition increment (m : ConfigMessage) : res ConfigMessage :=
  match orig_data_ m with
  | Some _ => let! (_, m) := hash m in increment_impl m
  | None => increment_impl (with_orig m (Some []))
  end.

(** [MutableConfigMessage(ConfigMessage&&, retain_seqno_t)]: a base object is assigned over the
    base part of a default-constructed derived object, whose [orig_data_] is empty. *)
Definition retain_seqno (m : ConfigMessage) : ConfigMessage :=
  match orig_data_ m with
  | Some _ => m
  | None => with_orig m (Some [])
  end.

(** ** Construction *)

(** [ConfigMessage()] *)
Definition default_message : res ConfigMessage :=
  let! (s, m) := serialize blank_message true in
  Ok (with_seqno_hash m (seqno m, hash_msg s)).

(** [MutableConfigMessage(seqno, lag, signer)] *)
Definition new_mutable (s : Z) (lag : Z) (signer : option sign_callable) : res ConfigMessage :=
  m ← default_message;
  let m := with_orig m (Some (data_ m)) in
  let m := with_callables m (verifier m) signer lag in
  Ok (with_seqno_hash m (s, (seqno_hash_ m).2)).

(** [catch (const oxenc::bt_deserialize_invalid&) { throw config_parse_error }] *)
Definition rethrow_bt {A} (r : res A) : res A :=
  match r with Throw BtInvalid => Throw ConfigParseError | _ => r end.

(** The [try] block of the parsing constructor, on the dict's consumer. *)
Definition parse_body (dict : dict_consumer) (hash : bytes) (vf : option verify_callable)
    (sg : option sign_callable) (lag : Z) (trust_signature : bool) : res ConfigMessage :=
  let! (k, v, dict) := dc_next dict in
  let! seqno := as_int64 v in
  let! _ := throw_if (negb (keqb k "#")) ConfigParseError in
  let! (unknown, dict) := load_unknowns [] dict "#" "&" in
  let! (k, v, dict) := dc_next dict in
  let! sub := as_dict v in
  let! _ := throw_if (negb (keqb k "&")) ConfigParseError in
  let! data := parse_data sub in
  let! (unknown, dict) := load_unknowns unknown dict "&" "<" in
  let! k := dc_key dict in
  let! (lags, dict) :=
    (if keqb k "<" then
       let! (_, v, dict) := dc_next dict in
       l ← as_list v; lags ← parse_lagged_diffs [] l seqno lag; Ok (lags, dict)
     else Ok ([], dict)) in
  let! (unknown, dict) := load_unknowns unknown dict "<" "=" in
  let! k := dc_key dict in
  let! (df, dict) :=
    (if keqb k "=" then
       let! (_, v, dict) := dc_next dict in
       d ← as_dict v; df ← load_diff d; Ok (df, dict)
     else Ok ([], dict)) in
  let! (unknown, dict) := load_unknowns unknown dict "=" "~" in
  let! vsig := verify_config_sig dict vf None trust_signature in
  Ok {| data_ := data; diff_ := df; lagged_diffs_ := lags; unknown_ := unknown;
        seqno_hash_ := (seqno, hash); verified_signature_ := vsig; unmerged_ := None;
        verifier := vf; signer := sg; lag := lag; orig_data_ := None |}.

(** [ConfigMessage(serialized, verifier, signer, lag, trust_signature)] *)
Definition parse_message (serialized : bytes) (vf : option verify_callable)
    (sg : option sign_callable) (lag : Z) (trust_signature : bool) : res ConfigMessage :=
  dict ← dc_open serialized;
  rethrow_bt (parse_body dict (hash_msg serialized) vf sg lag trust_signature).

(** ** Merging several messages *)

(** The first loop: the messages that parse (an error goes to the handler, which may throw). *)
Fixpoint parse_confs (confs : list bytes) (i : nat) (vf : option verify_callable)
    (sg : option sign_callable) (lag : Z) (error_handler : nat -> exn -> res unit) :
    res (list ConfigMessage) :=
  match confs with
  | [] => Ok []
  | data :: confs' =>
      match parse_message data vf sg lag false with
      | Ok m => ms ← parse_confs confs' (S i) vf sg lag error_handler; Ok (m :: ms)
      | Throw e =>
          if is_config_error e then
            _ ← error_handler i e; parse_confs confs' (S i) vf sg lag error_handler
          else Throw e
      end
  end.

(** Is [conf], at position [i], made redundant by some message of [configs]? *)
Definition includes (conf2 conf : ConfigMessage) : bool :=
  match mfind (seqno_hash_ conf) (lagged_diffs_ conf2) with Some _ => true | None => false end.
Fixpoint redundant_with (i : nat) (conf : ConfigMessage) (j : nat) (configs : list ConfigMessage) :
    bool :=
  match configs with
  | [] => false
  | conf2 :: configs' =>
      (if (i =? j)%nat then false
       else includes conf2 conf
            || ((j <? i)%nat && keqb (seqno_hash_ conf2) (seqno_hash_ conf)))
      || redundant_with i conf (S j) configs'
  end.

Definition max_seqno (configs : list ConfigMessage) : Z :=
  foldl (fun mx c => if mx <? seqno c then seqno c else mx) INT64_MIN configs.

(** [conf.seqno() + lag <= max_seqno] *)
Definition too_old (lag mx : Z) (conf : ConfigMessage) : res bool :=
  top ← int64_add (seqno conf) lag; Ok (top <=? mx).

Fixpoint mark_redundant (lag mx : Z) (all : list ConfigMessage) (i : nat)
    (configs : list ConfigMessage) : res (list (ConfigMessage * bool)) :=
  match configs with
  | [] => Ok []
  | c :: configs' =>
      old ← too_old lag mx c;
      rest ← mark_redundant lag mx all (S i) configs';
      Ok ((c, redundant_with i c 0 all || old) :: rest)
  end.

(** The first entry that is not redundant, with its position. *)
Fixpoint first_good (i : nat) (configs : list (ConfigMessage * bool)) :
    option (nat * ConfigMessage) :=
  match configs with
  | [] => None
  | (c, r) :: configs' => if r then first_good (S i) configs' else Some (i, c)
  end.

(** [std::max_element] with the comparison used when the merge cannot be signed. *)
Definition entry_lt (a b : ConfigMessage * bool) : bool :=
  if Bool.eqb a.2 b.2 then kltb (seqno_hash_ a.1) (seqno_hash_ b.1) else a.2.
Fixpoint max_entry (best : nat * (ConfigMessage * bool)) (i : nat)
    (configs : list (ConfigMessage * bool)) : nat * (ConfigMessage * bool) :=
  match configs with
  | [] => best
  | c :: configs' => max_entry (if entry_lt best.2 c then (i, c) else best) (S i) configs'
  end.

(** [std::sort] by descending [seqno_hash_]. *)
Fixpoint insert_desc (c : ConfigMessage) (l : list ConfigMessage) : list ConfigMessage :=
  match l with
  | [] => [c]
  | c' :: l' => if kltb (seqno_hash_ c) (seqno_hash_ c') then c' :: insert_desc c l' else c :: l
  end.
Definition sort_desc (l : list ConfigMessage) : list ConfigMessage := foldr insert_desc [] l.

(** The [replay] map: for each change, the data it is read from and its diff.  [emplace] keeps the
    entry of the earlier (higher) message. *)
Definition replay_conf (replay : replay_t) (conf : ConfigMessage) : replay_t :=
  foldl (fun r sd => memplace sd.1 (data_ conf, sd.2) r)
        (memplace (seqno_hash_ conf) (data_ conf, diff_ conf) replay) (lagged_diffs_ conf).
Definition build_replay (configs : list ConfigMessage) : replay_t := foldl replay_conf [] configs.

(** Applying the diffs in ascending order. *)
Definition run_replay (data : dict) (replay : replay_t) : res dict :=
  foldM (fun data e => apply_diff data (e.2.2) (e.2.1)) data replay.

(** The part of the constructor after the survivors have been chosen and sorted. *)
Definition merge_sorted_confs (configs : list ConfigMessage) (mx : Z)
    (vf : option verify_callable) (sg : option sign_callable) (lag : Z) : res ConfigMessage :=
  next ← int64_add mx 1;
  let front := match configs with c :: _ => data_ c | [] => [] end in
  let replay := build_replay configs in
  data ← run_replay front replay;
  let '(_, data) := prune_dict data in
  let m := {| data_ := data; diff_ := [];
              lagged_diffs_ := (fun e => (e.1, e.2.2)) <$> replay; unknown_ := [];
              seqno_hash_ := (next, zero_hash); verified_signature_ := None; unmerged_ := None;
              verifier := vf; signer := sg; lag := lag; orig_data_ := None |} in
  s ← serialize_impl m [] true;
  Ok (with_seqno_hash m (next, hash_msg s)).

Definition count_good (configs : list (ConfigMessage * bool)) : nat :=
  length (filter (fun c => c.2 = false) configs).

(** The constructor after parsing. *)
Definition merge_configs (configs : list ConfigMessage) (vf : option verify_callable)
    (sg : option sign_callable) (lag : Z) : res ConfigMessage :=
  let mx := max_seqno configs in
  marked ← mark_redundant lag mx configs 0 configs;
  if (count_good marked =? 1)%nat then
    match first_good 0 marked with
    | Some (i, c) => Ok (with_unmerged c (Some i))
    | None => Throw UB
    end
  else
    match vf, sg, marked with
    | Some _, None, c :: marked' =>
        let '(i, (best, _)) := max_entry (0%nat, c) 1 marked' in
        Ok (with_unmerged best (Some i))
    | Some _, None, [] => Throw UB
    | _, _, _ =>
        let good := (filter (fun c => c.2 = false) marked).*1 in
        merge_sorted_confs (sort_desc good) mx vf sg lag
    end.

(** [ConfigMessage(configs, verifier, signer, lag, error_handler)] *)
Definition merge_message (confs : list bytes) (vf : option verify_callable)
    (sg : option sign_callable) (lag : Z) (error_handler : nat -> exn -> res unit) :
    res ConfigMessage :=
  configs ← parse_confs confs 0 vf sg lag error_handler;
  if is_nil configs then Throw ConfigError else merge_configs configs vf sg lag.

(** [MutableConfigMessage(configs, verifier, signer, lag, error_handler)] *)
Definition merge_mutable (confs : list bytes) (vf : option verify_callable)
    (sg : option sign_callable) (lag : Z) (error_handler : nat -> exn -> res unit) :
    res ConfigMessage :=
  m ← merge_message confs vf sg lag error_handler;
  let m := with_orig m (Some (data_ m)) in
  if merged m then Ok m else increment_impl m.

(** [MutableConfigMessage(config, verifier, signer, lag)]: the handler rethrows (as a plain
    [config_error]). *)
Definition parse_mutable (config : bytes) (vf : option verify_callable)
    (sg : option sign_callable) (lag : Z) : res ConfigMessage :=
  merge_mutable [config] vf sg lag (fun _ _ => Throw ConfigError).
End WithLibraries.
