(* ===== verification/MessageFacts.v ===== *)
(** * Facts about config messages: serializing and parsing back

    The invariant of a [ConfigMessage], what the window of lagged diffs is, and that a serialized
    message parses back to the message it was written from. *)
From S2P Require Import Prelude OMap BtValue ThirdParty ConfigData ConfigDataFacts ConfigParse.
From S2P Require Import ConfigParseFacts ConfigMessage.

(** ** Invariants *)

Definition seqno_ok (s l : Z) : Prop :=
  in_int64 s = true /\ in_int64 (s - l) = true.

Definition wf_lag (e : seqno_hash_t * bt_dict) : Prop :=
  in_int64 e.1.1 = true /\ size_of e.1.2 = HASH_SIZE /\ valid_diff e.2.
Definition wf_lags (lags : lagged_diffs_t) : Prop := msorted lags /\ Forall wf_lag lags.

Definition reserved_keys : list bytes := [bs "#"; bs "&"; bs "<"; bs "="; bs "~"].
Definition wf_unknown (u : bt_dict) : Prop :=
  msorted u /\
  Forall (fun kv => bt_wf kv.2 /\ bs "#" ≺ kv.1 /\ kv.1 ≺ bs "~" /\ kv.1 ∉ reserved_keys) u.

Record wf_message (m : ConfigMessage) : Prop := {
  wfm_data : wf_dict (data_ m);
  wfm_diff : valid_diff (diff_ m);
  wfm_lags : wf_lags (lagged_diffs_ m);
  wfm_unknown : wf_unknown (unknown_ m);
  wfm_seqno : seqno_ok (seqno m) (lag m);
  wfm_sig : from_option (fun s => size_of s = 64) True (verified_signature_ m)
}.

(** The lagged diffs that a message with seqno [s] still carries. *)
Definition in_window (s l : Z) (e : seqno_hash_t * bt_dict) : Prop := s - l < e.1.1 < s.
#[export] Instance in_window_dec s l e : Decision (in_window s l e).
Proof. apply and_dec; apply _. Defined.
Definition window (s l : Z) (lags : lagged_diffs_t) : lagged_diffs_t :=
  filter (in_window s l) lags.

(** ** Lagged diffs *)

Lemma int64_sub_ok a b : in_int64 (a - b) = true -> int64_sub a b = Ok (a - b).
Proof. unfold int64_sub. by intros ->. Qed.

Lemma int64_add_ok a b : in_int64 (a + b) = true -> int64_add a b = Ok (a + b).
Proof. unfold int64_add. by intros ->. Qed.

Definition bt_of_lag (e : seqno_hash_t * bt_dict) : bt_value :=
  BList [BInt e.1.1; BStr e.1.2; BDict e.2].

Lemma serialize_lags_window s l lags :
  in_int64 (s - l) = true -> serialize_lags s l lags = Ok (bt_of_lag <$> window s l lags).
Proof.
  intros Hsl. unfold window. induction lags as [|[[ls lh] d] lags IH]; [done|].
  cbn [serialize_lags]. rewrite int64_sub_ok by done. cbn [mbind res_bind].
  rewrite IH. cbn [mbind res_bind]. rewrite filter_cons.
  destruct (Z.leb_spec ls (s - l)), (Z.leb_spec s ls); cbn [orb];
    (rewrite decide_True by (unfold in_window; cbn; lia)) ||
    (rewrite decide_False by (unfold in_window; cbn; lia)); done.
Qed.

Lemma Forall_filter_sub {A} (Q P : A -> Prop) `{!forall x, Decision (P x)} l :
  Forall Q l -> Forall Q (filter P l).
Proof. rewrite !Forall_forall. by intros HQ x [_ ?%HQ]%list_elem_of_filter. Qed.

Lemma msorted_filter {K V} `{Ordered K} (P : K * V -> Prop) `{!forall x, Decision (P x)} m :
  msorted m -> msorted (filter P m).
Proof.
  induction m as [|[k v] m IH]; [done|]. intros [Hs Hlt]%msorted_cons. rewrite filter_cons.
  case_decide; [|auto]. apply msorted_cons. split; [auto|]. by apply Forall_filter_sub.
Qed.

Lemma wf_lags_window s l lags : wf_lags lags -> wf_lags (window s l lags).
Proof.
  intros [Hs Hw]. split; [by apply msorted_filter|]. by apply Forall_filter_sub.
Qed.

Lemma window_Forall s l lags : Forall (in_window s l) (window s l lags).
Proof. apply Forall_forall. by intros x [? _]%list_elem_of_filter. Qed.

Section WithLibraries.
Context `{Oxenc} `{Blake2b}.

(** Reading the list back gives the diffs of the window. *)
Lemma parse_lagged_diffs_complete s l lags acc :
  in_int64 (s - l) = true -> Forall wf_lag lags -> msorted (acc ++ lags) ->
  Forall (in_window s l) lags ->
  parse_lagged_diffs acc (bt_of_lag <$> lags) s l = Ok (acc ++ lags).
Proof.
  intros Hsl. revert acc. induction lags as [|[[ls lh] d] lags IH]; intros acc Hw Hs Hin.
  { cbn. by rewrite app_nil_r. }
  apply Forall_cons in Hw as [(Hi & Hh & Hd) Hw]. apply Forall_cons in Hin as [[Hlo Hhi] Hin].
  cbn [fst snd] in *.
  replace (acc ++ (ls, lh, d) :: lags) with ((acc ++ [(ls, lh, d)]) ++ lags) in *
    by by rewrite <- app_assoc.
  cbn [parse_lagged_diffs fmap list_fmap as_list bt_of_lag mbind res_bind as_int64 fst snd].
  rewrite Hi. cbn [fmap res_fmap]. rewrite (proj2 (Z.leb_gt s ls)) by lia.
  rewrite int64_sub_ok by done. cbn [mbind res_bind]. rewrite (proj2 (Z.leb_gt ls (s - l))) by lia.
  cbn [as_string fmap res_fmap]. rewrite Hh. cbn [Z.eqb negb throw_if mbind res_bind].
  change (HASH_SIZE =? HASH_SIZE) with true. cbn [negb throw_if mbind res_bind].
  assert (key_out_of_order acc (ls, lh) = false) as ->.
  { apply (key_in_order acc (ls, lh) d); eauto using msorted_app_l. }
  cbn [throw_if mbind res_bind as_dict]. rewrite load_diff_valid by done.
  cbn [mbind res_bind is_nil negb throw_if]. by apply IH.
Qed.

(** ** Unknown keys *)

Definition between (lo hi : bytes) (u : bt_dict) : Prop :=
  Forall (fun kv => lo ≺ kv.1 /\ kv.1 ≺ hi) u.

Lemma append_unknown_spec u until out rest :
  append_unknown u until = (out, rest) -> msorted u -> ~ until ∈ u.*1 ->
  u = out ++ rest /\ Forall (fun kv => kv.1 ≺ until) out /\ Forall (fun kv => until ≺ kv.1) rest.
Proof.
  revert out rest; induction u as [|[k v] u IH]; intros out rest; cbn.
  { intros [= <- <-] _ _. done. }
  intros Heq [Hs Hlt]%msorted_cons Hni. apply not_elem_of_cons in Hni as [Hne Hni].
  destruct (kltb k until) eqn:Hk.
  - destruct (append_unknown u until) as [o r] eqn:E. injection Heq as <- <-.
    apply kltb_lt in Hk. destruct (IH o r) as (-> & Ho & Hr); try done.
    split_and!; [done|by constructor|done].
  - injection Heq as <- <-. apply kltb_nlt in Hk.
    destruct (klt_total k until) as [?|[?|Hgt]]; [done|congruence|].
    split_and!; [done|constructor|]. constructor; [done|].
    eapply Forall_impl; [apply Hlt|]. intros [k' v'] ?. cbn in *. by eapply klt_trans.
Qed.

Lemma load_unknown_value_wf v : bt_wf v -> load_unknown_value v = Ok v.
Proof.
  destruct v as [z|s|l|d]; cbn [load_unknown_value].
  - cbn. intros [Hlo Hhi]. destruct (Z.ltb_spec z 0).
    + unfold in_int64, INT64_MAX. rewrite (proj2 (Z.leb_le _ _) Hlo).
      by rewrite (proj2 (Z.leb_le z _)) by lia.
    + by rewrite (proj2 (Z.leb_le _ _) Hhi).
  - done.
  - intros Hw%bt_wf_BList. by rewrite bt_load_list_wf.
  - intros Hw%bt_wf_BDict. by rewrite bt_load_dict_wf.
Qed.

Lemma load_unknowns_loop_complete us tail acc pos previous until :
  msorted (acc ++ us) -> Forall (fun kv => bt_wf kv.2) us -> between previous until us ->
  Forall (fun kv => ~ kv.1 ≺ until) (take 1 tail) ->
  load_unknowns_loop (us ++ tail) acc pos previous until = Ok (acc ++ us, tail, (pos + length us)%nat).
Proof.
  revert acc pos; induction us as [|[k v] us IH]; intros acc pos Hs Hw Hb Ht; cbn [app].
  - rewrite app_nil_r, Nat.add_0_r. destruct tail as [|[k v] tail]; [done|].
    apply Forall_cons in Ht as [Ht _]. cbn in *. by rewrite (proj2 (kltb_nlt _ _) Ht).
  - apply Forall_cons in Hw as [Hv Hw]. apply Forall_cons in Hb as [[Hlo Hhi] Hb]. cbn in *.
    replace (acc ++ (k, v) :: us) with ((acc ++ [(k, v)]) ++ us) in *
      by by rewrite <- app_assoc.
    rewrite (proj2 (kltb_lt _ _) Hhi), (proj2 (kleb_gt _ _) Hlo).
    assert (key_out_of_order acc k = false) as ->.
    { apply (key_in_order acc k v); eauto using msorted_app_l. }
    cbn. rewrite load_unknown_value_wf by done. cbn. rewrite IH by done. by rewrite Nat.add_succ_r.
Qed.
(** ** The outer dict *)

Abbreviation dcx src pos rest :=
  {| dc_src := src; dc_pos := pos; dc_rest := rest; dc_complete := true |}.

Lemma load_unknowns_complete us tail acc src pos previous until :
  msorted (acc ++ us) -> Forall (fun kv => bt_wf kv.2) us -> between previous until us ->
  Forall (fun kv => ~ kv.1 ≺ until) (take 1 tail) ->
  load_unknowns acc (dcx src pos (us ++ tail)) previous until =
    Ok (acc ++ us, dcx src (pos + length us)%nat tail).
Proof.
  intros. unfold load_unknowns. cbn [dc_rest dc_pos]. rewrite load_unknowns_loop_complete by done.
  cbn [dc_complete negb dc_src]. by rewrite andb_false_r.
Qed.

(** The pairs of the outer dict, with the unknown keys in their places. *)
Definition outer_pairs (s : Z) (u1 : bt_dict) (data : bt_dict) (u2 : bt_dict) (lags : bt_list)
    (u3 : bt_dict) (df : bt_dict) (u4 : bt_dict) : bt_dict :=
  [(bs "#", BInt s)] ++ u1 ++ [(bs "&", BDict data)] ++ u2 ++ [(bs "<", BList lags)] ++ u3 ++
  [(bs "=", BDict df)] ++ u4.

(** How the unknown keys are distributed. *)
Definition unknown_split (u u1 u2 u3 u4 : bt_dict) : Prop :=
  u = u1 ++ u2 ++ u3 ++ u4 /\ between "#" "&" u1 /\ between "&" "<" u2 /\ between "<" "=" u3 /\
  between "=" "~" u4.

Lemma wf_unknown_notin u k : wf_unknown u -> k ∈ reserved_keys -> k ∉ u.*1.
Proof.
  intros [_ Hf] Hk [[k' v] [-> Hin]]%list_elem_of_fmap. rewrite Forall_forall in Hf.
  apply Hf in Hin as (_ & _ & _ & Hr). done.
Qed.

Lemma message_pairs_eq m df :
  wf_unknown (unknown_ m) -> in_int64 (seqno m - lag m) = true ->
  exists u1 u2 u3 u4, unknown_split (unknown_ m) u1 u2 u3 u4 /\
  message_pairs m df =
      Ok (outer_pairs (seqno m) u1 (serialize_data (data_ m)) u2
            (bt_of_lag <$> window (seqno m) (lag m) (lagged_diffs_ m)) u3 df u4).
Proof.
  intros Hu Hsl. unfold message_pairs.
  assert (forall k, k ∈ reserved_keys -> k ∉ (unknown_ m).*1) as Hn
    by (intros; by apply wf_unknown_notin).
  destruct Hu as [Hs Hf].
  destruct (append_unknown (unknown_ m) "&") as [u1 r1] eqn:E1.
  apply append_unknown_spec in E1 as (Eu & B1 & A1); [|done|apply Hn; set_solver].
  rewrite Eu in Hs, Hf, Hn. apply msorted_app in Hs as (_ & Hs & _).
  rewrite fmap_app in Hn. apply Forall_app in Hf as [F1 Hf].
  destruct (append_unknown r1 "<") as [u2 r2] eqn:E2.
  apply append_unknown_spec in E2 as (-> & B2 & A2);
    [|done|intros ?; eapply (Hn "<"); [set_solver|set_solver]].
  apply msorted_app in Hs as (_ & Hs & _). apply Forall_app in A1 as [A1 _].
  apply Forall_app in Hf as [F2 Hf]. rewrite fmap_app in Hn.
  rewrite serialize_lags_window by done. cbn [mbind res_bind].
  destruct (append_unknown r2 "=") as [u3 r3] eqn:E3.
  apply append_unknown_spec in E3 as (-> & B3 & A3);
    [|done|intros ?; eapply (Hn "="); [set_solver|set_solver]].
  apply msorted_app in Hs as (_ & Hs & _). apply Forall_app in A2 as [A2 _].
  apply Forall_app in Hf as [F3 Hf]. rewrite fmap_app in Hn.
  destruct (append_unknown r3 "~") as [u4 r4] eqn:E4.
  apply append_unknown_spec in E4 as (-> & B4 & A4);
    [|done|intros ?; eapply (Hn "~"); [set_solver|set_solver]].
  apply Forall_app in A3 as [A3 _]. apply Forall_app in Hf as [F4 Hf].
  assert (r4 = []) as ->.
  { destruct r4 as [|[k v] r4]; [done|]. apply Forall_cons in A4 as [A4 _].
    apply Forall_cons in Hf as [(_ & _ & Hlt & _) _]. cbn in *. by apply klt_asym in A4. }
  exists u1, u2, u3, u4. split; [|done]. unfold unknown_split, between.
  rewrite Eu, app_nil_r. rewrite !Forall_forall in *. split_and!; [done|..]; naive_solver.
Qed.

(** Sortedness of the outer dict. *)
Definition above (k : bytes) (m : bt_dict) : Prop := Forall (fun p => k ≺ p.1) m.

Lemma above_run lo k v u X :
  msorted u -> between lo k u -> lo ≺ k -> msorted X -> above k X ->
  msorted (u ++ (k, v) :: X) /\ above lo (u ++ (k, v) :: X).
Proof.
  intros Hu Hb Hlk HX HaX. unfold between, above in *. split.
  - apply msorted_app. split_and!; [done|by apply msorted_cons|].
    intros p q Hp Hq. rewrite Forall_forall in *. apply elem_of_cons in Hq as [->|Hq].
    + by apply Hb.
    + eapply klt_trans; [apply Hb, Hp|]. by apply HaX.
  - apply Forall_app. split; [eapply Forall_impl; [done|naive_solver]|].
    constructor; [done|]. eapply Forall_impl; [apply HaX|]. intros. by eapply klt_trans.
Qed.

Lemma unknown_split_sorted u u1 u2 u3 u4 :
  unknown_split u u1 u2 u3 u4 -> msorted u -> msorted u1 /\ msorted u2 /\ msorted u3 /\ msorted u4.
Proof.
  intros (-> & _) (H1 & (H2 & (H3 & H4 & _)%msorted_app & _)%msorted_app & _)%msorted_app. done.
Qed.

Definition sig_pairs (sig : option bytes) : bt_dict :=
  match sig with Some s => [(bs "~", BStr s)] | None => [] end.

Lemma outer_sorted u s u1 data u2 lags u3 df u4 sig :
  unknown_split u u1 u2 u3 u4 -> msorted u ->
  msorted (outer_pairs s u1 data u2 lags u3 df u4 ++ sig_pairs sig).
Proof.
  intros Hsp Hs. pose proof (unknown_split_sorted _ _ _ _ _ Hsp Hs) as (H1 & H2 & H3 & H4).
  destruct Hsp as (_ & B1 & B2 & B3 & B4).
  assert (msorted (u4 ++ sig_pairs sig) /\ above "=" (u4 ++ sig_pairs sig)) as [S4 A4].
  { destruct sig as [sg|]; cbn [sig_pairs].
    - apply above_run; [done..| |by constructor]. constructor.
    - rewrite app_nil_r. split; [done|]. eapply Forall_impl; [apply B4|naive_solver]. }
  destruct (above_run "<" "=" (BDict df) u3 _ H3 B3 eq_refl S4 A4) as [S3 A3].
  destruct (above_run "&" "<" (BList lags) u2 _ H2 B2 eq_refl S3 A3) as [S2 A2].
  destruct (above_run "#" "&" (BDict data) u1 _ H1 B1 eq_refl S2 A2) as [S1 A1].
  unfold outer_pairs. rewrite <- !app_assoc. by apply msorted_cons.
Qed.

(** ** Parsing a serialized message back *)

Lemma bt_wf_of_value v : wf_value v -> bt_wf (bt_of_value v).
Proof.
  induction v as [d IH|s|x] using dict_value_nested_ind.
  - intros [Hs Hf]%wf_VDict. cbn [bt_of_value]. apply bt_wf_BDict. split.
    + unfold msorted in *. by rewrite <- list_fmap_compose.
    + rewrite Forall_fmap. rewrite Forall_forall in *. intros kv Hkv. apply IH; auto.
  - intros [_ Hf]. cbn [bt_of_value]. apply bt_wf_BList. unfold bt_wf_list. rewrite Forall_fmap.
    eapply Forall_impl; [apply Hf|]. intros. by apply bt_wf_of_scalar.
  - apply bt_wf_of_scalar.
Qed.

Lemma serialize_data_wf d : wf_dict d -> bt_wf_dict (serialize_data d).
Proof. intros Hw%wf_VDict%bt_wf_of_value. by apply bt_wf_BDict. Qed.

Lemma int64_bt z : in_int64 z = true -> bt_wf (BInt z).
Proof. unfold in_int64, INT64_MIN, INT64_MAX. intros. bool_prop. cbn. unfold UINT64_MAX, INT64_MIN. lia. Qed.

Lemma bt_of_lag_wf e : wf_lag e -> bt_wf (bt_of_lag e).
Proof.
  intros (Hi & _ & Hd). unfold bt_of_lag. apply bt_wf_BList. repeat constructor.
  - by apply int64_bt.
  - by apply int64_bt.
  - by apply valid_diff_wf.
  - apply (proj2 (bt_wf_BDict _) (valid_diff_wf _ Hd)).
Qed.

Lemma outer_wf u s u1 d u2 lags u3 df u4 sig :
  unknown_split u u1 u2 u3 u4 -> wf_unknown u -> in_int64 s = true -> wf_dict d ->
  Forall wf_lag lags -> valid_diff df ->
  bt_wf_dict (outer_pairs s u1 (serialize_data d) u2 (bt_of_lag <$> lags) u3 df u4 ++ sig_pairs sig).
Proof.
  intros Hsp [Hu Hf] Hs Hd Hl Hdf. split; [by eapply outer_sorted|].
  destruct Hsp as (-> & _). rewrite !Forall_app in Hf.
  destruct Hf as (F1 & F2 & F3 & F4).
  assert (forall u, Forall (fun kv : bytes * bt_value => bt_wf kv.2 /\ bs "#" ≺ kv.1 /\ kv.1 ≺ bs "~" /\
            kv.1 ∉ reserved_keys) u -> Forall (fun kv => bt_wf kv.2) u) as Hw.
  { intros u Hfu. eapply Forall_impl; [apply Hfu|naive_solver]. }
  assert (Forall (fun kv => bt_wf kv.2) (sig_pairs sig)) by (destruct sig; repeat constructor).
  unfold outer_pairs. rewrite !Forall_app, !Forall_singleton. cbn [fst snd].
  split_and!; auto using int64_bt.
  - by apply bt_wf_BDict, serialize_data_wf.
  - apply bt_wf_BList. unfold bt_wf_list. rewrite Forall_fmap.
    eapply Forall_impl; [apply Hl|]. apply bt_of_lag_wf.
  - by apply bt_wf_BDict, valid_diff_wf.
Qed.

(** What verification makes of the signature pair. *)
Definition sig_accepted (vf : option verify_callable) (body : bt_dict) (sig : option bytes) : Prop :=
  match vf with
  | None => True
  | Some f => match sig with Some s => f (bt_dict_open body) s = true | None => False end
  end.
Definition kept_sig (vf : option verify_callable) (trust : bool) (sig : option bytes) :
    option bytes :=
  match vf with Some _ => sig | None => if trust then sig else None end.

Lemma verify_config_sig_complete body sig vf trust junk :
  bt_wf_dict (body ++ sig_pairs sig) -> from_option (fun s => size_of s = 64) True sig ->
  sig_accepted vf body sig ->
  verify_config_sig (dcx (bt_dict_print (body ++ sig_pairs sig) ++ junk) (length body) (sig_pairs sig))
    vf None trust = Ok (kept_sig vf trust sig).
Proof.
  intros Hw Hs Ha. unfold verify_config_sig, dc_skip_until.
  destruct sig as [s|]; cbn [sig_pairs dc_rest skip_pairs].
  - rewrite kltb_refl. cbn iota beta zeta. rewrite keqb_refl.
    cbn [dc_pos dc_src dc_complete dc_next dc_rest as_string mbind res_bind].
    cbn in Hs. rewrite Hs. cbn [Z.eqb Pos.eqb negb throw_if mbind res_bind]. rewrite Nat.add_0_r.
    pose proof (bt_dict_prefix_print (body ++ sig_pairs (Some s)) junk (length body) Hw) as Hp.
    cbn [sig_pairs] in Hp. rewrite Hp by (rewrite length_app; lia).
    rewrite take_app_length.
    destruct vf as [f|]; cbn in *; [rewrite Ha|]; cbn; by destruct trust.
  - destruct vf as [f|]; [done|]. by destruct trust.
Qed.

Lemma load_unknowns_at acc us src pos lo k v X :
  msorted (acc ++ us) -> Forall (fun kv => bt_wf kv.2) us -> between lo k us ->
  load_unknowns acc (dcx src pos (us ++ (k, v) :: X)) lo k =
    Ok (acc ++ us, dcx src (pos + length us)%nat ((k, v) :: X)).
Proof.
  intros. apply load_unknowns_complete; try done. constructor; [|constructor]. apply klt_irrefl.
Qed.

Lemma dc_next_cons src pos k v X :
  dc_next (dcx src pos ((k, v) :: X)) = Ok (k, v, dcx src (S pos) X).
Proof. reflexivity. Qed.

Lemma dc_key_cons src pos k v X : dc_key (dcx src pos ((k, v) :: X)) = Ok k.
Proof. reflexivity. Qed.

Lemma parse_body_complete u s u1 d u2 lags u3 df u4 sig h vf sg l trust junk :
  let body := outer_pairs s u1 (serialize_data d) u2 (bt_of_lag <$> lags) u3 df u4 in
  unknown_split u u1 u2 u3 u4 -> wf_unknown u -> seqno_ok s l -> wf_dict d -> pruned_dict d ->
  wf_lags lags -> Forall (in_window s l) lags -> valid_diff df ->
  from_option (fun s => size_of s = 64) True sig -> sig_accepted vf body sig ->
  parse_body (dcx (bt_dict_print (body ++ sig_pairs sig) ++ junk) 0 (body ++ sig_pairs sig))
    h vf sg l trust =
  Ok {| data_ := d; diff_ := df; lagged_diffs_ := lags; unknown_ := u; seqno_hash_ := (s, h);
        verified_signature_ := kept_sig vf trust sig; unmerged_ := None; verifier := vf;
        signer := sg; lag := l; orig_data_ := None |}.
Proof.
  intros body Hsp Hu [Hs Hsl] Hd Hp [Hls Hlf] Hwin Hdf Hsig Hacc.
  pose proof (outer_wf _ _ _ _ _ _ _ _ _ sig Hsp Hu Hs Hd Hlf Hdf) as Hbw. fold body in Hbw.
  pose proof (verify_config_sig_complete body sig vf trust junk Hbw Hsig Hacc) as Hver.
  assert (length body = (4 + length u1 + length u2 + length u3 + length u4)%nat) as Hlen.
  { unfold body, outer_pairs. rewrite !length_app. cbn. lia. }
  set (src := bt_dict_print _ ++ junk) in *.
  destruct Hu as [Hus Huf]. destruct Hsp as (-> & B1 & B2 & B3 & B4).
  assert (Forall (fun kv => bt_wf kv.2) (u1 ++ u2 ++ u3 ++ u4)) as Hw
    by (eapply Forall_impl; [apply Huf|naive_solver]).
  apply Forall_app in Hw as (W1 & (W2 & (W3 & W4)%Forall_app)%Forall_app).
  assert (msorted (u1 ++ u2 ++ u3)) as Hs3 by (eapply (msorted_app_l _ u4); by rewrite <- !app_assoc).
  assert (msorted (u1 ++ u2)) as Hs2 by (eapply (msorted_app_l _ u3); by rewrite <- !app_assoc).
  assert (msorted u1) as Hs1 by (by eapply msorted_app_l).
  unfold body, outer_pairs. rewrite <- !app_assoc. cbn [app].
  unfold parse_body. rewrite dc_next_cons. cbn [as_int64].
  rewrite Hs. rewrite keqb_refl. cbn [negb throw_if].
  rewrite (load_unknowns_at [] u1) by done.
  rewrite dc_next_cons. cbn [as_dict app].
  rewrite keqb_refl. cbn [negb throw_if]. rewrite parse_data_complete by done.
  rewrite load_unknowns_at by done.
  rewrite dc_key_cons, dc_next_cons. cbn [as_list mbind res_bind].
  rewrite keqb_refl. cbn iota. rewrite parse_lagged_diffs_complete by done.
  cbn [mbind res_bind app]. rewrite load_unknowns_at by (rewrite <- ?app_assoc; done).
  rewrite dc_key_cons, dc_next_cons. cbn [as_dict mbind res_bind].
  rewrite keqb_refl. cbn iota. rewrite load_diff_valid by done. cbn [mbind res_bind].
  rewrite load_unknowns_complete; [|by rewrite <- !app_assoc|done..|].
  2: { destruct sig; repeat constructor. apply klt_irrefl. }
  replace (S _ + length u4)%nat with (length body) by lia.
  rewrite Hver. by rewrite <- !app_assoc.
Qed.

Lemma dc_open_print d junk :
  bt_wf_dict d -> dc_open (bt_dict_print d ++ junk) = Ok (dcx (bt_dict_print d ++ junk) 0 d).
Proof. intros. unfold dc_open. by rewrite bt_dict_parse_print. Qed.

(** The message that parsing the serialization of [m] gives. *)
Definition reparsed (m : ConfigMessage) (df : bt_dict) (h : bytes) (vf : option verify_callable)
    (sg : option sign_callable) (vsig : option bytes) : ConfigMessage :=
  {| data_ := data_ m; diff_ := df;
     lagged_diffs_ := window (seqno m) (lag m) (lagged_diffs_ m); unknown_ := unknown_ m;
     seqno_hash_ := (seqno m, h); verified_signature_ := vsig; unmerged_ := None;
     verifier := vf; signer := sg; lag := lag m; orig_data_ := None |}.

(** The signature that [signature_pair] writes. *)
Definition written_sig (m : ConfigMessage) (body : bt_dict) (enable : bool) : option bytes :=
  match verified_signature_ m, signer m with
  | Some s, _ => Some s
  | None, Some sign => if enable then Some (sign (bt_dict_open body)) else None
  | None, None => None
  end.

Lemma signature_pair_written m body enable :
  from_option (fun s => size_of s = 64) True (written_sig m body enable) ->
  signature_pair m body enable = Ok (sig_pairs (written_sig m body enable)).
Proof.
  unfold signature_pair, written_sig.
  destruct (verified_signature_ m), (signer m), enable; cbn; try done.
  by intros ->.
Qed.

Lemma serialize_parse m df enable vf sg trust junk :
  wf_message m -> pruned_dict (data_ m) -> valid_diff df ->
  (forall body, from_option (fun s => size_of s = 64) True (written_sig m body enable)) ->
  (forall body, sig_accepted vf body (written_sig m body enable)) ->
  exists out body, serialize_impl m df enable = Ok out /\ message_pairs m df = Ok body /\
    parse_message (out ++ junk) vf sg (lag m) trust =
      Ok (reparsed m df (hash_msg (out ++ junk)) vf sg
            (kept_sig vf trust (written_sig m body enable))).
Proof.
  intros [Hd _ Hl Hu Hs _] Hp Hdf H64 Hacc. pose proof Hs as [Hs1 Hs2].
  destruct (message_pairs_eq m df Hu Hs2) as (u1 & u2 & u3 & u4 & Hsp & Hm).
  set (body := outer_pairs _ _ _ _ _ _ _ _) in Hm.
  pose proof (wf_lags_window (seqno m) (lag m) _ Hl) as Hlw.
  exists (bt_dict_print (body ++ sig_pairs (written_sig m body enable))), body.
  unfold serialize_impl. rewrite Hm. cbn [mbind res_bind].
  rewrite signature_pair_written by done. cbn [mbind res_bind]. split_and!; [done..|].
  unfold parse_message. rewrite dc_open_print by (eapply outer_wf; eauto; apply Hlw).
  cbn [mbind res_bind]. unfold body at 3 4 5.
  unfold body at 1 2. rewrite (parse_body_complete (unknown_ m)); try done.
  apply window_Forall.
Qed.
End WithLibraries.
