(* ===== verification/MergeFacts.v ===== *)
(** * Facts about merging config messages

    What the parsing constructor guarantees, which messages survive, that the outcome does not
    depend on the order in which the messages are given, and what the merged data contains. *)
From S2P Require Import Prelude OMap BtValue ThirdParty ConfigData ConfigDataFacts ConfigParse.
From S2P Require Import ConfigParseFacts ConfigMessage MessageFacts.

(** What parsing guarantees without any trust in the sender. *)
Record parsed_ok (l : Z) (m : ConfigMessage) : Prop := {
  po_data : wf_dict (data_ m);
  po_pruned : pruned_dict (data_ m);
  po_sorted : msorted (lagged_diffs_ m);
  po_window : Forall (in_window (seqno m) l) (lagged_diffs_ m);
  po_seqno : in_int64 (seqno m) = true;
  po_orig : orig_data_ m = None
}.

(** The (specification of the) messages that are kept: not in another's history, not too old. *)
Definition survives (l mx : Z) (all : list ConfigMessage) (c : ConfigMessage) : Prop :=
  Forall (fun c2 => includes c2 c = false) all /\ mx < seqno c + l.

Section WithLibraries.
Context `{Oxenc} `{Blake2b}.

(** ** Parsing *)

Lemma in_int64_as v z : as_int64 v = Ok z -> in_int64 z = true.
Proof. destruct v; cbn; try done. destruct (in_int64 z0) eqn:E; [|done]. congruence. Qed.

Lemma parse_lagged_diffs_sound acc inp s l lags :
  parse_lagged_diffs acc inp s l = Ok lags -> msorted acc -> Forall (in_window s l) acc ->
  msorted lags /\ Forall (in_window s l) lags.
Proof.
  revert acc; induction inp as [|v inp IH]; intros acc; cbn [parse_lagged_diffs].
  { by intros [= ->]. }
  intros Hp Hs Hw. res_step Hp. destruct a as [|x sub]; [done|]. cbn [fmap res_fmap] in Hp.
  destruct (as_int64 x) as [sq|] eqn:Ex; [|done]. cbn [fmap res_fmap] in Hp.
  destruct (Z.leb_spec s sq); [done|]. res_step Hp.
  unfold int64_sub in E0. res_step E0. injection E0 as <-.
  destruct (Z.leb_spec sq (s - l)); [by eapply IH|].
  destruct sub as [|y sub]; [done|]. destruct (as_string y) as [h|] eqn:Ey; [|done].
  cbn [fmap res_fmap] in Hp. do 5 res_step Hp. apply IH in Hp; [done| |].
  - destruct (key_out_of_order acc (sq, h)) eqn:Ek; [done|]. by apply key_in_order.
  - apply Forall_app. split; [done|]. repeat constructor; cbn; lia.
Qed.

Lemma parse_body_sound dc h vf sg l trust m :
  parse_body dc h vf sg l trust = Ok m ->
  parsed_ok l m /\ verifier m = vf /\ signer m = sg /\ lag m = l /\ (seqno_hash_ m).2 = h.
Proof.
  unfold parse_body. intros Hp.
  repeat match type of Hp with
  | (match ?b with Ok _ => _ | Throw _ => _ end) = Ok _ =>
      let E := fresh "E" in destruct b as [?r|] eqn:E; [|discriminate Hp];
      repeat match type of Hp with
      | (let '(_, _) := ?p in _) = Ok _ => destruct p
      end
  end.
  injection Hp as <-. split; [|done].
  match goal with
  | E : parse_data _ = Ok _ |- _ => apply parse_data_sound in E as (Hd & Hpr & _)
  end.
  match goal with E : as_int64 _ = Ok _ |- _ => apply in_int64_as in E end.
  match goal with
  | E : (if keqb _ (bs "<") then _ else _) = Ok (?lg, _) |- _ =>
      assert (msorted lg /\ Forall (in_window r l) lg) as [? ?]; [|by constructor]; revert E
  end.
  intros Hx. res_inv Hx; [|split; constructor].
  eapply parse_lagged_diffs_sound; [done|constructor..].
Qed.

Lemma parse_message_sound s vf sg l trust m :
  parse_message s vf sg l trust = Ok m ->
  parsed_ok l m /\ verifier m = vf /\ signer m = sg /\ lag m = l /\
  (seqno_hash_ m).2 = hash_msg s.
Proof.
  unfold parse_message. intros Hp. res_step Hp. unfold rethrow_bt in Hp.
  destruct (parse_body _ _ _ _ _ _) as [m'|[]] eqn:Eb; try done. injection Hp as <-.
  by eapply parse_body_sound.
Qed.

(** Whatever can be rejected is reported, the rest is parsed. *)
Lemma parse_confs_sound confs i vf sg l eh ms :
  parse_confs confs i vf sg l eh = Ok ms ->
  Forall (fun m => parsed_ok l m /\ exists s, s ∈ confs /\ parse_message s vf sg l false = Ok m) ms.
Proof.
  revert i ms; induction confs as [|s confs IH]; intros i ms; cbn [parse_confs].
  { intros [= <-]. constructor. }
  destruct (parse_message s vf sg l false) as [m|e] eqn:E.
  - intros Hp. res_step Hp. injection Hp as <-. constructor.
    + split; [by apply parse_message_sound in E as [? _]|]. exists s. split; [by left|done].
    + eapply Forall_impl; [by eapply IH|]. intros x (? & s' & ? & ?). split; [done|].
      exists s'. split; [by right|done].
  - destruct (is_config_error e); [|done]. intros Hp. res_step Hp.
    eapply Forall_impl; [by eapply IH|]. intros x (? & s' & ? & ?). split; [done|].
    exists s'. split; [by right|done].
Qed.

(** ** Which messages survive *)

Lemma max_seqno_aux configs a :
  let mx := foldl (fun mx c => if mx <? seqno c then seqno c else mx) a configs in
  a <= mx /\ Forall (fun c => seqno c <= mx) configs /\
  (mx = a \/ Exists (fun c => seqno c = mx) configs).
Proof.
  revert a; induction configs as [|c configs IH]; intros a; cbn [foldl].
  { split_and!; [lia|constructor|by left]. }
  destruct (IH (if a <? seqno c then seqno c else a)) as (H1 & H2 & H3).
  destruct (Z.ltb_spec a (seqno c)).
  - split_and!; [lia|by constructor|]. right. destruct H3 as [->|?]; [by left|by right].
  - split_and!; [lia|constructor; [lia|done]|]. destruct H3 as [->|?]; [by left|by right; right].
Qed.

Lemma max_seqno_ge configs c : c ∈ configs -> seqno c <= max_seqno configs.
Proof. destruct (max_seqno_aux configs INT64_MIN) as (_ & Hf & _). rewrite Forall_forall in Hf. auto. Qed.

Lemma max_seqno_in configs l :
  configs <> [] -> Forall (parsed_ok l) configs -> exists c, c ∈ configs /\ seqno c = max_seqno configs.
Proof.
  intros Hne Hf. destruct (max_seqno_aux configs INT64_MIN) as (_ & Hle & [He|He]%or_comm).
  - apply Exists_exists in He. done.
  - destruct configs as [|c configs]; [done|]. exists c. split; [by left|].
    apply Forall_cons in Hf as [Hc _]. apply Forall_cons in Hle as [Hle _].
    unfold max_seqno in *. rewrite He in *. apply po_seqno in Hc. unfold in_int64 in Hc.
    bool_prop. lia.
Qed.

Lemma max_seqno_perm c1 c2 : c1 ≡ₚ c2 -> max_seqno c1 = max_seqno c2.
Proof.
  intros Hp. unfold max_seqno. generalize INT64_MIN.
  induction Hp as [|c l1 l2 _ IH|x y l1|l1 l2 l3 _ IH1 _ IH2]; intros a; cbn [foldl]; [done|auto| |].
  - f_equal. destruct (Z.ltb_spec a (seqno x)), (Z.ltb_spec a (seqno y));
      repeat case_match; bool_prop; lia.
  - by rewrite IH1.
Qed.

Lemma includes_lt l c2 c : parsed_ok l c2 -> includes c2 c = true -> seqno c < seqno c2.
Proof.
  intros Hp. unfold includes. destruct (mfind _ _) as [d|] eqn:E; [|done]. intros _.
  apply mfind_In in E. pose proof (po_window _ _ Hp) as Hw. rewrite Forall_forall in Hw.
  apply Hw in E as [_ ?]. done.
Qed.

Lemma redundant_with_spec i c j configs :
  redundant_with i c j configs = true <->
  exists n c2, configs !! n = Some c2 /\ i <> (j + n)%nat /\
    (includes c2 c = true \/ (j + n < i)%nat /\ seqno_hash_ c2 = seqno_hash_ c).
Proof.
  revert j; induction configs as [|c0 configs IH]; intros j; cbn [redundant_with].
  { split; [done|]. by intros (n & c2 & ? & _). }
  rewrite orb_true_iff, IH. split.
  - intros [Hh|(n & c2 & ? & ? & Hor)].
    + exists O, c0. destruct (Nat.eqb_spec i j); [done|]. rewrite Nat.add_0_r. split_and!; [done..|].
      rewrite orb_true_iff, andb_true_iff, Nat.ltb_lt, keqb_eq in Hh. done.
    + exists (S n), c2. replace (j + S n)%nat with (S j + n)%nat by lia. done.
  - intros ([|n] & c2 & Hl & Hne & Hor).
    + left. injection Hl as ->. rewrite Nat.add_0_r in *.
      destruct (Nat.eqb_spec i j); [done|].
      by rewrite orb_true_iff, andb_true_iff, Nat.ltb_lt, keqb_eq.
    + right. exists n, c2. replace (S j + n)%nat with (j + S n)%nat by lia. done.
Qed.

Definition good (marked : list (ConfigMessage * bool)) : list ConfigMessage :=
  (filter (fun c => c.2 = false) marked).*1.

Lemma good_cons c r marked :
  good ((c, r) :: marked) = if r then good marked else c :: good marked.
Proof. unfold good. rewrite filter_cons. by destruct r. Qed.

Lemma count_good_length marked : count_good marked = length (good marked).
Proof. unfold count_good, good. by rewrite length_fmap. Qed.

(** A message is unmarked iff it survives and no earlier message is its duplicate. *)
Lemma unmarked_iff l mx pre c configs :
  let all := pre ++ c :: configs in
  Forall (parsed_ok l) all ->
  redundant_with (length pre) c 0 all || (seqno c + l <=? mx) = false <->
  survives l mx all c /\ seqno_hash_ c ∉ seqno_hash_ <$> pre.
Proof.
  intros all Hpo. assert (all !! length pre = Some c) as Hc by apply list_lookup_middle, eq_refl.
  rewrite orb_false_iff, Z.leb_gt, <- not_true_iff_false, redundant_with_spec. unfold survives.
  rewrite Forall_lookup, list_elem_of_fmap. split.
  - intros [Hn Hlt]. split_and!; [|done|].
    + intros j c2 Hj. apply not_true_iff_false. intros Hi.
      destruct (decide (length pre = j)) as [<-|Hne].
      * rewrite Hc in Hj. injection Hj as <-. rewrite Forall_forall in Hpo.
        apply (includes_lt l) in Hi; [lia|]. apply Hpo. by eapply list_elem_of_lookup_2.
      * apply Hn. exists j, c2. cbn. auto.
    + intros (c2 & He & [j Hj]%list_elem_of_lookup). apply Hn. exists j, c2.
      pose proof (lookup_lt_Some _ _ _ Hj). unfold all. rewrite lookup_app_l by done. cbn.
      split_and!; [done|lia|right; split; [done|by symmetry]].
  - intros [[Hn Hlt] Hp]. split; [|done]. intros (j & c2 & Hj & Hne & [Hi|[Hlt' He]]).
    + by rewrite (Hn _ _ Hj) in Hi.
    + apply Hp. exists c2. split; [by symmetry|]. cbn in Hlt'. unfold all in Hj.
      rewrite lookup_app_l in Hj by done. by eapply list_elem_of_lookup_2.
Qed.

(** The loop that marks: a message is good iff it survives and has no earlier duplicate. *)
Lemma mark_redundant_good l mx pre configs marked :
  Forall (parsed_ok l) (pre ++ configs) ->
  mark_redundant l mx (pre ++ configs) (length pre) configs = Ok marked ->
  NoDup (seqno_hash_ <$> good marked) /\
  (forall c, c ∈ good marked ->
     c ∈ configs /\ survives l mx (pre ++ configs) c /\
     seqno_hash_ c ∉ seqno_hash_ <$> pre) /\
  (forall c, c ∈ configs -> survives l mx (pre ++ configs) c -> seqno_hash_ c ∉ seqno_hash_ <$> pre ->
     seqno_hash_ c ∈ seqno_hash_ <$> good marked).
Proof.
  revert pre marked; induction configs as [|c configs IH]; intros pre marked Hpo Hm.
  { injection Hm as <-. split_and!; [constructor|by intros ? ?%not_elem_of_nil..]. }
  cbn [mark_redundant] in Hm. unfold too_old, int64_add in Hm. repeat res_step Hm.
  destruct (in_int64 (seqno c + l)); [|discriminate E]. cbn [mbind res_bind] in E.
  injection E as <-. injection Hm as <-.
  specialize (IH (pre ++ [c]) a0). rewrite length_app, <- app_assoc, Nat.add_1_r in IH.
  cbn [app] in IH. destruct (IH Hpo E0) as (Hnd & Hin & Hout). clear IH.
  set (all := pre ++ c :: configs) in *.
  pose proof (unmarked_iff l mx pre c configs Hpo) as Hred. fold all in Hred.
  rewrite good_cons. destruct (redundant_with _ _ _ _ || _).
  - split_and!; [done| |].
    + intros c' (? & ? & Hn)%Hin. split_and!; [by right|done|].
      rewrite fmap_app in Hn. set_solver.
    + intros c' [->|Hc']%elem_of_cons Hs Hp; [by destruct Hred as [_ Hr]; discriminate Hr|].
      apply Hout; [done..|]. rewrite fmap_app, not_elem_of_app. split; [done|]. cbn.
      intros Heq%list_elem_of_singleton. destruct Hred as [_ Hr]. rewrite Heq in Hp.
      unfold survives, includes in *. rewrite Heq in Hs. unfold seqno in *. rewrite Heq in Hs.
      by discriminate Hr.
  - destruct Hred as [Hr _]. destruct (Hr eq_refl) as [Hsc Hpc]. clear Hr. split_and!.
    + cbn. constructor; [|done]. intros (c' & He & (_ & _ & Hn)%Hin)%list_elem_of_fmap.
      apply Hn. rewrite fmap_app, elem_of_app. right. rewrite <- He. by left.
    + intros c' [->|(? & ? & Hn)%Hin]%elem_of_cons; [split_and!; [by left|done..]|].
      split_and!; [by right|done|]. rewrite fmap_app in Hn. set_solver.
    + intros c' Hc' Hs Hp. cbn. destruct (decide (seqno_hash_ c' = seqno_hash_ c)) as [->|Hne];
        [by left|]. right. apply elem_of_cons in Hc' as [->|Hc']; [done|]. apply Hout; [done..|].
      rewrite fmap_app, not_elem_of_app. split; [done|]. cbn. by intros ?%list_elem_of_singleton.
Qed.

(** ** There is always a survivor *)

Lemma max_hash_exists (configs : list ConfigMessage) :
  configs <> [] -> exists c, c ∈ configs /\ Forall (fun c' => ~ seqno_hash_ c ≺ seqno_hash_ c') configs.
Proof.
  induction configs as [|c configs IH]; [done|]. intros _.
  destruct configs as [|c0 configs].
  { exists c. split; [by left|]. repeat constructor. apply klt_irrefl. }
  destruct IH as (m & Hm & Hf); [done|].
  destruct (klt_total (seqno_hash_ m) (seqno_hash_ c)) as [Hlt|Hge].
  - exists c. split; [by left|]. constructor; [apply klt_irrefl|].
    eapply Forall_impl; [apply Hf|]. intros c' Hn Hlt'. apply Hn. by eapply klt_trans.
  - exists m. split; [by right|]. constructor; [|done]. intros Hlt.
    destruct Hge as [He|Hgt]; [rewrite He in Hlt; by apply klt_irrefl in Hlt|].
    by apply klt_asym in Hgt.
Qed.

Lemma seqno_lt_klt c c' : seqno c < seqno c' -> seqno_hash_ c ≺ seqno_hash_ c'.
Proof.
  unfold seqno, klt. cbn. unfold pair_cmp. intros Hlt%Z.compare_lt_iff. cbn. by rewrite Hlt.
Qed.

(** The message with the highest (seqno, hash) survives. *)
Lemma max_survives l configs c :
  Forall (parsed_ok l) configs -> 1 <= l -> c ∈ configs ->
  Forall (fun c' => ~ seqno_hash_ c ≺ seqno_hash_ c') configs ->
  survives l (max_seqno configs) configs c /\ seqno c = max_seqno configs.
Proof.
  intros Hpo Hl Hc Hmax. rewrite Forall_forall in Hmax.
  assert (seqno c = max_seqno configs) as Hs.
  { destruct (max_seqno_in configs l) as (c' & Hc' & He); [by intros ->; apply not_elem_of_nil in Hc|done|].
    pose proof (max_seqno_ge _ _ Hc). pose proof (Hmax _ Hc') as Hn.
    destruct (Z.lt_ge_cases (seqno c) (seqno c')); [|lia]. by apply seqno_lt_klt in H2. }
  split; [|done]. split; [|lia]. rewrite Forall_forall in *. intros c2 Hc2.
  apply not_true_iff_false. intros Hi%(includes_lt l); [|auto].
  by apply (Hmax c2 Hc2), seqno_lt_klt.
Qed.

Lemma good_nonempty l configs marked :
  Forall (parsed_ok l) configs -> 1 <= l -> configs <> [] ->
  mark_redundant l (max_seqno configs) configs 0 configs = Ok marked -> good marked <> [].
Proof.
  intros Hpo Hl Hne Hm. destruct (max_hash_exists configs Hne) as (c & Hc & Hmax).
  destruct (max_survives l configs c Hpo Hl Hc Hmax) as [Hs _].
  apply (mark_redundant_good l _ [] configs marked) in Hm as (_ & _ & Hout); [|done].
  intros E. specialize (Hout c Hc Hs ltac:(by apply not_elem_of_nil)). rewrite E in Hout.
  by apply not_elem_of_nil in Hout.
Qed.

(** ** Sorting the survivors *)

Definition hash_gt (a b : ConfigMessage) : Prop := seqno_hash_ b ≺ seqno_hash_ a.

Lemma insert_desc_perm c l : insert_desc c l ≡ₚ c :: l.
Proof.
  induction l as [|c' l IH]; cbn; [done|]. destruct (kltb _ _); [|done].
  rewrite IH. apply Permutation_swap.
Qed.

Lemma sort_desc_perm l : sort_desc l ≡ₚ l.
Proof. induction l as [|c l IH]; cbn; [done|]. by rewrite insert_desc_perm, IH. Qed.

Lemma insert_desc_sorted c l :
  StronglySorted hash_gt l -> seqno_hash_ c ∉ seqno_hash_ <$> l ->
  StronglySorted hash_gt (insert_desc c l).
Proof.
  induction l as [|c' l IH]; intros Hs Hn; cbn; [repeat constructor|].
  cbn in Hn. apply not_elem_of_cons in Hn as [Hne Hn].
  apply StronglySorted_inv in Hs as [Hs Hf]. destruct (kltb _ _) eqn:E.
  - apply kltb_lt in E. constructor; [auto|]. rewrite insert_desc_perm. by constructor.
  - apply kltb_nlt in E. assert (hash_gt c c') as Hgt.
    { destruct (klt_total (seqno_hash_ c) (seqno_hash_ c')) as [?|[?|?]]; done. }
    constructor; [by constructor|]. constructor; [done|].
    eapply Forall_impl; [apply Hf|]. intros x Hx. unfold hash_gt in *. by eapply klt_trans.
Qed.

Lemma sort_desc_sorted l : NoDup (seqno_hash_ <$> l) -> StronglySorted hash_gt (sort_desc l).
Proof.
  induction l as [|c l IH]; cbn; [constructor|]. intros [Hn Hnd]%NoDup_cons.
  apply insert_desc_sorted; [auto|]. by rewrite sort_desc_perm.
Qed.

#[local] Instance hash_gt_antisymm : AntiSymm (=) hash_gt.
Proof. intros a b H1 H2. unfold hash_gt in *. by apply klt_asym in H1. Qed.

Lemma sort_desc_unique l1 l2 :
  NoDup (seqno_hash_ <$> l1) -> l1 ≡ₚ l2 -> sort_desc l1 = sort_desc l2.
Proof.
  intros Hnd Hp. apply (StronglySorted_unique hash_gt).
  - by apply sort_desc_sorted.
  - apply sort_desc_sorted. by rewrite <- Hp.
  - by rewrite !sort_desc_perm.
Qed.

(** ** The outcome does not depend on the order of the messages *)

(** No two different messages with the same seqno and hash (no hash collision). *)
Definition collision_free (configs : list ConfigMessage) : Prop :=
  forall c c', c ∈ configs -> c' ∈ configs -> seqno_hash_ c = seqno_hash_ c' -> c = c'.

Lemma good_elem l mx configs marked :
  Forall (parsed_ok l) configs -> collision_free configs ->
  mark_redundant l mx configs 0 configs = Ok marked ->
  NoDup (seqno_hash_ <$> good marked) /\
  forall c, c ∈ good marked <-> c ∈ configs /\ survives l mx configs c.
Proof.
  intros Hpo Hcf Hm. apply (mark_redundant_good l mx [] configs marked) in Hm as (Hnd & Hin & Hout);
    [|done]. split; [done|]. intros c. split; [intros Hc; by apply Hin in Hc as (? & ? & _)|].
  intros [Hc Hs]. specialize (Hout c Hc Hs ltac:(by apply not_elem_of_nil)).
  apply list_elem_of_fmap in Hout as (c' & He & Hg). pose proof Hg as (Hc' & _ & _)%Hin.
  by rewrite (Hcf c c').
Qed.

#[global] Instance survives_proper l mx :
  Proper (Permutation ==> (=) ==> iff) (survives l mx).
Proof. intros c1 c2 Hp c ? <-. unfold survives. by rewrite Hp. Qed.

Lemma good_perm l c1 c2 m1 m2 :
  c1 ≡ₚ c2 -> Forall (parsed_ok l) c1 -> collision_free c1 ->
  mark_redundant l (max_seqno c1) c1 0 c1 = Ok m1 ->
  mark_redundant l (max_seqno c2) c2 0 c2 = Ok m2 -> good m1 ≡ₚ good m2.
Proof.
  intros Hp Hpo Hcf H1 H2.
  assert (collision_free c2) as Hcf2.
  { intros a b Ha Hb. apply Hcf; by rewrite Hp. }
  apply good_elem in H1 as [N1 E1]; [|done..]. apply good_elem in H2 as [N2 E2]; [|by rewrite <- Hp|done].
  apply NoDup_Permutation; [by eapply NoDup_fmap_1..|].
  intros c. by rewrite E1, E2, (max_seqno_perm c1 c2 Hp), Hp.
Qed.

Lemma mark_redundant_total l mx all i configs :
  (exists marked, mark_redundant l mx all i configs = Ok marked) <->
  Forall (fun c => in_int64 (seqno c + l) = true) configs.
Proof.
  revert i; induction configs as [|c configs IH]; intros i; cbn [mark_redundant].
  { split; [constructor|]. intros _. by eexists. }
  rewrite Forall_cons, <- (IH (S i)). unfold too_old, int64_add. split.
  - intros [marked Hm]. destruct (in_int64 _); [|done]. cbn in Hm. split; [done|].
    destruct (mark_redundant _ _ _ _ _); [by eexists|done].
  - intros [-> [marked ->]]. cbn. by eexists.
Qed.

Lemma mark_redundant_fail l mx all i configs e :
  mark_redundant l mx all i configs = Throw e -> e = UB.
Proof.
  revert i; induction configs as [|c configs IH]; intros i; cbn [mark_redundant]; [done|].
  unfold too_old, int64_add. destruct (in_int64 _); cbn; [|by intros [= <-]].
  destruct (mark_redundant _ _ _ _ _) eqn:E; cbn; [done|]. intros [= ->]. by eapply IH.
Qed.

Lemma first_good_spec i marked :
  match first_good i marked with Some (_, c) => head (good marked) = Some c | None => good marked = [] end.
Proof.
  revert i; induction marked as [|[c r] marked IH]; intros i; cbn [first_good]; [done|].
  rewrite good_cons. destruct r; [apply IH|done].
Qed.

(** The best entry is a good one if there is one, and has the highest hash of those. *)
Definition entry_ge (a b : ConfigMessage * bool) : Prop := entry_lt a b = false.

Lemma entry_ge_trans a b c : entry_lt a b = true -> entry_ge a c -> entry_ge b c.
Proof.
  unfold entry_ge, entry_lt. destruct a as [a []], b as [b []], c as [c []]; cbn; try done;
    intros Hab Hac; apply kltb_lt in Hab; apply kltb_nlt in Hac; apply kltb_nlt; intros Hbc;
    apply Hac; by eapply klt_trans.
Qed.

Lemma entry_ge_refl a : entry_ge a a.
Proof. unfold entry_ge, entry_lt. by rewrite Bool.eqb_reflx, kltb_refl. Qed.

Lemma max_entry_spec best i marked :
  let r := (max_entry best i marked).2 in
  (r = best.2 \/ r ∈ marked) /\ entry_ge r best.2 /\ Forall (entry_ge r) marked.
Proof.
  revert best i; induction marked as [|c marked IH]; intros best i; cbn [max_entry].
  { split_and!; [by left|apply entry_ge_refl|constructor]. }
  destruct (IH (if entry_lt best.2 c then (i, c) else best) (S i)) as (Hin & Hge & Hf).
  set (r := (max_entry _ _ _).2) in *. destruct (entry_lt best.2 c) eqn:E; cbn in *.
  - split_and!; [set_solver| |by constructor].
    unfold entry_ge in *. apply not_true_iff_false. intros Hlt.
    pose proof (entry_ge_trans _ _ _ Hlt Hge) as Hx. unfold entry_ge in Hx. congruence.
  - split_and!; [set_solver|done|]. constructor; [|done].
    unfold entry_ge in *. apply not_true_iff_false. intros Hlt.
    apply not_true_iff_false in E. apply E. clear -Hlt Hge.
    pose proof (entry_ge_trans _ _ _ Hlt Hge) as Hx. unfold entry_ge in Hx.
    revert Hlt Hge Hx. unfold entry_lt. destruct r as [r []], c as [c []], best as [? [b []]];
      cbn; try done; intros Hlt Hge Hx; apply kltb_lt in Hlt; apply kltb_nlt in Hge, Hx;
      apply kltb_lt; destruct (klt_total (seqno_hash_ b) (seqno_hash_ c)) as [?|[He|?]]; try done.
    + exfalso. rewrite <- He in Hlt. done.
    + exfalso. rewrite <- He in Hlt. done.
Qed.

Lemma good_marked c marked : c ∈ good marked <-> (c, false) ∈ marked.
Proof.
  unfold good. rewrite list_elem_of_fmap. split.
  - intros ([c' r] & -> & [Hr ?]%list_elem_of_filter). cbn in *. by subst r.
  - intros Hc. exists (c, false). split; [done|]. by apply list_elem_of_filter.
Qed.

(** The index of a kept message is the only thing that depends on the order. *)
Definition erase_index (m : ConfigMessage) : ConfigMessage :=
  with_unmerged m (match unmerged_ m with Some _ => Some O | None => None end).

(** The outcome in terms of the surviving messages, highest first. *)
Definition merge_spec (survivors : list ConfigMessage) (mx : Z) (vf : option verify_callable)
    (sg : option sign_callable) (l : Z) : res ConfigMessage :=
  match survivors with
  | [] => Throw UB
  | [c] => Ok (with_unmerged c (Some O))
  | c :: _ =>
      match vf, sg with
      | Some _, None => Ok (with_unmerged c (Some O))
      | _, _ => merge_sorted_confs survivors mx vf sg l
      end
  end.

Lemma max_entry_good c0 marked :
  NoDup (seqno_hash_ <$> good (c0 :: marked)) -> good (c0 :: marked) <> [] ->
  head (sort_desc (good (c0 :: marked))) = Some (max_entry (O, c0) 1 marked).2.1.
Proof.
  intros Hnd Hne. destruct (max_entry_spec (O, c0) 1 marked) as (Hin & Hge0 & Hge).
  set (r := (max_entry _ _ _).2) in *. cbn [snd] in Hin, Hge0.
  assert (r ∈ c0 :: marked) as Hr by set_solver. clear Hin.
  assert (Forall (entry_ge r) (c0 :: marked)) as Hf by (by constructor). clear Hge0 Hge.
  rewrite Forall_forall in Hf. pose proof (sort_desc_sorted _ Hnd) as Hs.
  pose proof (sort_desc_perm (good (c0 :: marked))) as Hp.
  destruct (sort_desc (good (c0 :: marked))) as [|c gs].
  { apply Permutation_nil in Hp. done. }
  assert (c ∈ good (c0 :: marked)) as Hc by (rewrite <- Hp; by left).
  apply good_marked, Hf in Hc. destruct r as [b rb]. cbn [head fst].
  unfold entry_ge, entry_lt in Hc. cbn in Hc. destruct rb; cbn in Hc; [done|].
  apply good_marked in Hr. rewrite <- Hp in Hr. f_equal.
  apply elem_of_cons in Hr as [->|Hb]; [done|].
  apply StronglySorted_inv in Hs as [_ Hs]. rewrite Forall_forall in Hs. apply Hs in Hb.
  apply kltb_nlt in Hc. done.
Qed.

Lemma merge_sorted_unmerged gs mx vf sg l m :
  merge_sorted_confs gs mx vf sg l = Ok m -> unmerged_ m = None.
Proof.
  unfold merge_sorted_confs. intros Hm. repeat res_step Hm. by injection Hm as <-.
Qed.

Lemma merge_configs_marked configs marked vf sg l :
  mark_redundant l (max_seqno configs) configs 0 configs = Ok marked ->
  NoDup (seqno_hash_ <$> good marked) -> good marked <> [] ->
  erase_index <$> merge_configs configs vf sg l =
  merge_spec (sort_desc (good marked)) (max_seqno configs) vf sg l.
Proof.
  intros Hm Hnd Hne. unfold merge_configs. rewrite Hm. cbn [mbind res_bind].
  rewrite count_good_length. pose proof (sort_desc_perm (good marked)) as Hp.
  destruct (good marked) as [|c gs] eqn:Eg; [done|]. destruct gs as [|c' gs].
  { cbn [length Nat.eqb]. pose proof (first_good_spec 0 marked) as Hf. rewrite Eg in Hf.
    destruct (first_good 0 marked) as [[i x]|]; [|done]. injection Hf as ->. done. }
  cbn [length Nat.eqb].
  assert (exists d d' ds, sort_desc (c :: c' :: gs) = d :: d' :: ds) as (d & d' & ds & Es).
  { pose proof (Permutation_length Hp). destruct (sort_desc _) as [|d [|d' ds]]; [done..|]. eauto. }
  assert (erase_index <$> merge_sorted_confs (sort_desc (good marked)) (max_seqno configs) vf sg l =
          merge_sorted_confs (sort_desc (good marked)) (max_seqno configs) vf sg l) as Hms.
  { destruct (merge_sorted_confs _ _ _ _ _) as [m|e] eqn:E; [|done]. cbn.
    apply merge_sorted_unmerged in E. unfold erase_index. rewrite E. f_equal. destruct m; cbn in *.
    by rewrite E. }
  rewrite Eg, Es in Hms. unfold good in Eg. rewrite Eg, Es.
  destruct vf as [vf|], sg as [sg|]; try exact Hms.
  destruct marked as [|c0 marked]; [done|].
  pose proof (max_entry_good c0 marked) as Hb. change (good (c0 :: marked)) with ((filter (fun c => c.2 = false) (c0 :: marked)).*1) in Hb.
  rewrite Eg, Es in Hb. specialize (Hb Hnd ltac:(done)).
  destruct (max_entry _ _ _) as [i [b r]]. cbn in *. by injection Hb as ->.
Qed.

Lemma merge_configs_perm c1 c2 vf sg l :
  c1 ≡ₚ c2 -> Forall (parsed_ok l) c1 -> collision_free c1 -> 1 <= l -> c1 <> [] ->
  erase_index <$> merge_configs c1 vf sg l = erase_index <$> merge_configs c2 vf sg l.
Proof.
  intros Hp Hpo Hcf Hl Hne.
  assert (c2 <> []) as Hne2 by (intros ->; by apply Permutation_nil_r in Hp).
  destruct (mark_redundant l (max_seqno c1) c1 0 c1) as [m1|e1] eqn:E1,
    (mark_redundant l (max_seqno c2) c2 0 c2) as [m2|e2] eqn:E2.
  - pose proof (good_perm l c1 c2 m1 m2 Hp Hpo Hcf E1 E2) as Hg.
    pose proof (good_elem _ _ _ _ Hpo Hcf E1) as [Hnd _].
    pose proof (good_nonempty _ _ _ Hpo Hl Hne E1).
    rewrite (merge_configs_marked c1 m1), (merge_configs_marked c2 m2); try done.
    + by rewrite (sort_desc_unique _ _ Hnd Hg), (max_seqno_perm _ _ Hp).
    + by rewrite <- Hg.
    + by apply (good_nonempty l c2); [rewrite <- Hp|..].
  - assert (exists m, mark_redundant l (max_seqno c2) c2 0 c2 = Ok m) as [? ?]; [|congruence].
    apply mark_redundant_total. rewrite <- Hp. eapply mark_redundant_total. by eexists.
  - assert (exists m, mark_redundant l (max_seqno c1) c1 0 c1 = Ok m) as [? ?]; [|congruence].
    apply mark_redundant_total. rewrite Hp. eapply mark_redundant_total. by eexists.
  - unfold merge_configs. rewrite E1, E2. cbn.
    apply mark_redundant_fail in E1 as ->. by apply mark_redundant_fail in E2 as ->.
Qed.
End WithLibraries.
