(* ===== verification/ReplayFacts.v ===== *)
(** * Facts about replaying diffs

    Applying any valid diff from any well-formed source succeeds; what a diff does not mention is
    not changed; pruning does not change what can be observed; and the shape of the replay that
    merges messages. *)
From S2P Require Import Prelude OMap BtValue ThirdParty ConfigData ConfigDataFacts ConfigParse.
From S2P Require Import ConfigParseFacts ConfigMessage MessageFacts MergeFacts.

(** The diff [df], read from the source [src], does not speak about the value at [p]: where the
    path goes through a nested diff, the source has a dict. *)
Fixpoint disjoint (p : list bytes) (df : bt_dict) (src : dict) : Prop :=
  match p with
  | [] => False
  | k :: p' =>
      match mfind k df, mfind k src with
      | None, _ => True
      | Some (BDict sub), Some (VDict sd) => p' <> [] /\ disjoint p' sub sd
      | _, _ => False
      end
  end.

Section WithOxenc.
Context `{Oxenc}.
#[local] Arguments apply_diff : simpl never.

(** ** Applying is total on valid diffs *)

Definition value_applies (v : bt_value) : Prop :=
  valid_diff_value v -> forall cur src, wf_opt cur -> wf_opt src ->
    exists r, apply_entry apply_diff cur v src = Ok r /\ wf_opt r.

Lemma apply_sublists cur a r :
  valid_sublist a -> valid_sublist r -> wf_opt cur ->
  exists s s', apply_added (as_subset cur) a = Ok s /\ apply_removed s r = Ok s' /\ wf_value (VSet s').
Proof.
  intros (sa & -> & _ & Ha) (sr & -> & _ & Hr) [Hs Hf]%wf_opt_subset.
  destruct (apply_added_spec _ sa Ha Hs Hf) as (s & E1 & Hs1 & Hf1 & _).
  destruct (apply_removed_spec _ sr Hr Hs1 Hf1) as (s' & E2 & Hs2 & Hf2 & _).
  exists s, s'. done.
Qed.

Lemma apply_diff_of_values df data src :
  Forall (fun kv => value_applies kv.2) df -> valid_diff df -> wf_dict data -> wf_dict src ->
  exists r, apply_diff data df src = Ok r /\ wf_dict r.
Proof.
  intros Hv [Hs Hf] Hd Hsrc.
  assert (forall k v, mfind k df = Some v -> exists o,
            apply_entry apply_diff (mfind k data) v (mfind k src) = Ok o /\ wf_opt o) as Hk.
  { intros k v Hkv%mfind_In. rewrite Forall_forall in *. apply (Hv (k, v) Hkv); [|auto using wf_opt_find..].
    apply (Hf _ Hkv). }
  destruct (apply_diff_total data df src Hs) as [r Hr].
  { intros k v (o & ? & _)%Hk. by exists o. }
  exists r. split; [done|]. eapply apply_diff_wf; [exact Hs|exact Hd|exact Hr|].
  intros k v o Hkv Ho. destruct (Hk k v Hkv) as (o' & Ho' & Hw). congruence.
Qed.

Lemma value_applies_all v : value_applies v.
Proof.
  induction v as [z|m|l _|sub IH] using bt_value_nested_ind; intros Hv cur src Hc Hs.
  - done.
  - destruct src as [[d|s|x]|]; cbn [apply_entry]; try (by exists None).
    destruct Hv as [->| ->]; [exists (Some (VScalar x))|exists None]; done.
  - destruct Hv as (a & r & -> & Ha & Hr). destruct (apply_sublists cur a r Ha Hr Hc) as (s & s' & E1 & E2 & Hw).
    destruct src as [[d|t|x]|]; cbn [apply_entry]; try (by exists None).
    unfold get_sublist. cbn. rewrite E1. cbn. rewrite E2. by exists (Some (VSet s')).
  - apply valid_diff_BDict in Hv. destruct src as [[d|t|x]|]; cbn [apply_entry]; try (by exists None).
    destruct (apply_diff_of_values sub (as_subdict cur) d IH Hv) as (r & -> & Hr);
      [by apply wf_opt_subdict|by apply wf_VDict|].
    exists (Some (VDict r)). split; [done|]. by apply wf_VDict.
Qed.

Lemma apply_diff_valid data df src :
  valid_diff df -> wf_dict data -> wf_dict src ->
  exists r, apply_diff data df src = Ok r /\ wf_dict r.
Proof.
  intros. apply apply_diff_of_values; try done. apply Forall_forall. intros. apply value_applies_all.
Qed.

(** ** The frame *)

Lemma observe_cons ob k p d : observe_at ob (k :: p) d = observe ob (opt_at p (mfind k d)).
Proof. unfold observe_at, opt_at. cbn. by destruct (mfind k d). Qed.

Lemma apply_diff_frame ob p df data src r :
  valid_diff df -> apply_diff data df src = Ok r -> disjoint p df src ->
  observe_at ob p r = observe_at ob p data.
Proof.
  revert df data src r; induction p as [|k p IH]; intros df data src r [Hs Hf] Hr Hd; [done|].
  cbn [disjoint] in Hd. pose proof (apply_diff_find _ _ _ _ Hs Hr k) as Hk.
  rewrite !observe_cons. destruct (mfind k df) as [v|] eqn:Ek; [|by rewrite Hk].
  destruct v as [| | |sub]; try done. destruct (mfind k src) as [[sd| |]|]; try done.
  destruct Hd as [Hne Hd]. cbn [apply_entry] in Hk.
  destruct (apply_diff (as_subdict (mfind k data)) sub sd) as [r'|] eqn:Er; [|done].
  injection Hk as <-. apply mfind_In in Ek. rewrite Forall_forall in Hf. apply Hf in Ek.
  apply valid_diff_BDict in Ek. specialize (IH _ _ _ _ Ek Er Hd). unfold observe_at in IH.
  unfold opt_at at 1. cbn [mbind option_bind]. rewrite IH.
  destruct p as [|k' p]; [done|]. unfold opt_at.
  by destruct (mfind k data) as [[d| |]|]; destruct ob.
Qed.

(** ** Pruning does not change observations *)

Lemma mfind_prune_dict k d :
  msorted d -> mfind k (prune_dict d).2 =
  match mfind k d with
  | Some v => let '(rm, _, v') := prune_value v in if rm then None else Some v'
  | None => None
  end.
Proof.
  induction d as [|[k0 v0] d IH]; [done|]. intros [Hs Hlt]%msorted_cons.
  rewrite prune_dict_cons. specialize (IH Hs).
  destruct (prune_value v0) as [[rm sub] v0'] eqn:E0, (prune_dict d) as [c d'] eqn:Ed. cbn [snd] in *.
  cbn [mfind]. destruct (keqb_spec k k0) as [Hk|Hk].
  - subst k. rewrite (mfind_lt k0 d Hlt) in IH. rewrite E0. destruct rm; [done|].
    cbn [mfind]. by rewrite keqb_refl.
  - destruct rm; [done|]. cbn [mfind]. by rewrite (proj2 (keqb_neq _ _) Hk).
Qed.

Definition prune_observed (v : dict_value) : Prop :=
  wf_value v -> forall ob p,
    let '(rm, _, v') := prune_value v in
    observe ob (opt_at p (if (rm : bool) then None else Some v')) = observe ob (opt_at p (Some v)).

Lemma prune_dict_observed_aux ob p d :
  Forall (fun kv => prune_observed kv.2) d -> wf_dict d ->
  observe_at ob p (prune_dict d).2 = observe_at ob p d.
Proof.
  intros IH [Hs Hf]. destruct p as [|k p]; [by destruct ob|]. rewrite !observe_cons.
  rewrite mfind_prune_dict by done. destruct (mfind k d) as [v|] eqn:Ek; [|done].
  apply mfind_In in Ek. rewrite Forall_forall in *. specialize (IH _ Ek (Hf _ Ek) ob p). cbn in IH.
  by destruct (prune_value v) as [[rm sub] v'].
Qed.

Lemma observe_empty_dict ob p : observe ob (opt_at p (Some (VDict []))) = None.
Proof. by destruct p, ob. Qed.

Lemma prune_value_observed v : prune_observed v.
Proof.
  induction v as [d IH|s|x] using dict_value_nested_ind; intros Hw ob p.
  - apply wf_VDict in Hw. pose proof (prune_dict_observed_aux ob p d IH Hw) as Ho.
    rewrite prune_value_VDict. destruct (prune_dict d) as [c d']. cbn [snd] in Ho.
    unfold observe_at in Ho. change (value_at p (VDict d)) with (opt_at p (Some (VDict d))) in Ho.
    rewrite <- Ho. change (value_at p (VDict d')) with (opt_at p (Some (VDict d'))).
    destruct d' as [|kv d']; [|done]. rewrite observe_empty_dict. by destruct ob.
  - cbn. destruct s; [|done]. by destruct ob, p.
  - done.
Qed.

Lemma prune_dict_observed ob p d :
  wf_dict d -> observe_at ob p (prune_dict d).2 = observe_at ob p d.
Proof. apply prune_dict_observed_aux, Forall_forall. intros. apply prune_value_observed. Qed.
End WithOxenc.

(** ** The replay map *)
Section Replay.
Context `{Oxenc} `{Blake2b}.
#[local] Arguments apply_diff : simpl never.

(** What a message contributes to the replay under a given (seqno, hash). *)
Definition contribution (c : ConfigMessage) (k : seqno_hash_t) : option (dict * bt_dict) :=
  if keqb k (seqno_hash_ c) then Some (data_ c, diff_ c)
  else (fun d : bt_dict => (data_ c, d)) <$> mfind k (lagged_diffs_ c).

(** The first of the messages that contributes something wins. *)
Fixpoint first_contribution (cs : list ConfigMessage) (k : seqno_hash_t) : option (dict * bt_dict) :=
  match cs with
  | [] => None
  | c :: cs' => match contribution c k with Some x => Some x | None => first_contribution cs' k end
  end.

Lemma replay_lags_find c (lags : lagged_diffs_t) (r : replay_t) (k : seqno_hash_t) :
  msorted lags ->
  mfind k (foldl (fun r sd => memplace sd.1 (data_ c, sd.2) r) r lags) =
  match mfind k r with Some x => Some x | None => (fun d : bt_dict => (data_ c, d)) <$> mfind k lags end.
Proof.
  revert r; induction lags as [|[k0 d0] lags IH]; intros r Hs; cbn [foldl fst snd].
  { cbn. by destruct (mfind k r). }
  apply msorted_cons in Hs as [Hs Hlt]. rewrite IH, mfind_memplace by done. cbn [mfind].
  destruct (keqb_spec k k0) as [Hk|Hk]; [subst k|done].
  destruct (mfind k0 r); done.
Qed.

Lemma replay_conf_find c r k :
  msorted (lagged_diffs_ c) ->
  mfind k (replay_conf r c) =
  match mfind k r with Some x => Some x | None => contribution c k end.
Proof.
  intros Hs. unfold replay_conf. rewrite replay_lags_find, mfind_memplace by done.
  unfold contribution. destruct (keqb_spec k (seqno_hash_ c)) as [Hk|Hk]; [subst k|done].
  by destruct (mfind _ r).
Qed.

Lemma replay_conf_sorted c r : msorted r -> msorted (replay_conf r c).
Proof.
  intros Hr. unfold replay_conf.
  assert (forall (lags : lagged_diffs_t) (r : replay_t), msorted r ->
            msorted (foldl (fun r sd => memplace sd.1 (data_ c, sd.2) r) r lags)) as Hl.
  { induction lags; cbn; auto with session. }
  apply Hl. auto with session.
Qed.

Lemma build_replay_find cs k :
  Forall (fun c => msorted (lagged_diffs_ c)) cs ->
  msorted (build_replay cs) /\ mfind k (build_replay cs) = first_contribution cs k.
Proof.
  unfold build_replay. intros Hf.
  assert (forall r, msorted r -> msorted (foldl replay_conf r cs) /\
            mfind k (foldl replay_conf r cs) =
            match mfind k r with Some x => Some x | None => first_contribution cs k end) as Hr.
  { induction Hf as [|c cs Hc _ IH]; intros r Hs; cbn.
    - split; [done|]. by destruct (mfind k r).
    - destruct (IH _ (replay_conf_sorted c r Hs)) as [? ->]. split; [done|].
      rewrite replay_conf_find by done. by destruct (mfind k r). }
  apply (Hr []). constructor.
Qed.

Lemma first_contribution_inv cs k x :
  first_contribution cs k = Some x ->
  exists c, c ∈ cs /\ (k = seqno_hash_ c /\ x = (data_ c, diff_ c) \/
                       exists d, (k, d) ∈ lagged_diffs_ c /\ x = (data_ c, d)).
Proof.
  induction cs as [|c cs IH]; cbn; [done|]. unfold contribution.
  destruct (keqb_spec k (seqno_hash_ c)) as [Hk|Hk].
  - intros [= <-]. exists c. split; [by left|]. by left.
  - destruct (mfind k (lagged_diffs_ c)) as [d|] eqn:Ed; cbn.
    + intros [= <-]. exists c. split; [by left|]. right. exists d. split; [|done]. by apply mfind_In.
    + intros (c' & ? & ?)%IH. exists c'. split; [by right|done].
Qed.

Lemma msorted_max_last {K V} `{Ordered K} (m : list (K * V)) k v :
  msorted m -> mfind k m = Some v -> Forall (fun p => p.1 = k \/ p.1 ≺ k) m ->
  exists pre, m = pre ++ [(k, v)].
Proof.
  induction m as [|[k0 v0] m IH]; [done|]. intros [Hs Hlt]%msorted_cons Hf [Hk0 Hle]%Forall_cons.
  cbn in Hf, Hk0. destruct (keqb_spec k k0) as [Hk|Hk].
  - subst k. injection Hf as ->. destruct m as [|[k1 v1] m]; [by exists []|].
    apply Forall_cons in Hlt as [Hlt _]. apply Forall_cons in Hle as [[He|Hle] _]; cbn in *.
    + subst k1. by apply klt_irrefl in Hlt.
    + by apply klt_asym in Hlt.
  - destruct (IH Hs Hf Hle) as [pre ->]. by exists ((k0, v0) :: pre).
Qed.

(** The diff of the highest message is applied last. *)
Lemma build_replay_top l c cs :
  Forall (parsed_ok l) (c :: cs) -> StronglySorted hash_gt (c :: cs) ->
  exists pre, build_replay (c :: cs) = pre ++ [(seqno_hash_ c, (data_ c, diff_ c))].
Proof.
  intros Hpo Hs. assert (Forall (fun c => msorted (lagged_diffs_ c)) (c :: cs)) as Hl.
  { eapply Forall_impl; [apply Hpo|]. intros ?; apply po_sorted. }
  destruct (build_replay_find (c :: cs) (seqno_hash_ c) Hl) as [Hsr Hf].
  apply msorted_max_last; [done| |].
  - rewrite Hf. cbn. unfold contribution. by rewrite keqb_refl.
  - apply Forall_forall. intros [k x] Hin%In_mfind; [|done]. cbn.
    destruct (build_replay_find (c :: cs) k Hl) as [_ Hk]. rewrite Hk in Hin.
    apply first_contribution_inv in Hin as (c' & Hc' & Hor).
    assert (seqno_hash_ c' = seqno_hash_ c \/ seqno_hash_ c' ≺ seqno_hash_ c) as Hle.
    { apply elem_of_cons in Hc' as [->|Hc']; [by left|]. right.
      apply StronglySorted_inv in Hs as [_ Hs]. rewrite Forall_forall in Hs. by apply Hs. }
    destruct Hor as [[-> _]|(d & Hd & _)]; [done|]. right.
    assert (k ≺ seqno_hash_ c') as Hlt.
    { rewrite Forall_forall in Hpo. pose proof (po_window _ _ (Hpo _ Hc')) as Hw.
      rewrite Forall_forall in Hw. destruct (Hw _ Hd) as [_ Hlt]. cbn in Hlt. destruct k as [ks kh].
      unfold klt. cbn. unfold pair_cmp. cbn in *. unfold seqno in Hlt.
      apply Z.compare_lt_iff in Hlt. cbn. by rewrite Hlt. }
    destruct Hle as [<-|Hle]; [done|]. by eapply klt_trans.
Qed.

(** Well-formed data and valid diffs make the replay succeed. *)
Definition replayable (c : ConfigMessage) : Prop :=
  wf_dict (data_ c) /\ valid_diff (diff_ c) /\ msorted (lagged_diffs_ c) /\
  Forall (fun e => valid_diff e.2) (lagged_diffs_ c).

Lemma build_replay_valid cs :
  Forall replayable cs -> Forall (fun e => wf_dict e.2.1 /\ valid_diff e.2.2) (build_replay cs).
Proof.
  intros Hf. assert (Forall (fun c => msorted (lagged_diffs_ c)) cs) as Hl.
  { eapply Forall_impl; [apply Hf|]. by intros ? (_ & _ & ? & _). }
  apply Forall_forall. intros [k x] Hin. destruct (build_replay_find cs k Hl) as [Hs Hk].
  apply In_mfind in Hin; [|done]. rewrite Hk in Hin.
  apply first_contribution_inv in Hin as (c & Hc & Hor). rewrite Forall_forall in Hf.
  destruct (Hf _ Hc) as (Hd & Hdf & _ & Hlv). rewrite Forall_forall in Hlv.
  destruct Hor as [[_ ->]|(d & Hd' & ->)]; cbn; [done|]. split; [done|]. by apply (Hlv _ Hd').
Qed.

Lemma run_replay_valid data replay :
  wf_dict data -> Forall (fun e => wf_dict e.2.1 /\ valid_diff e.2.2) replay ->
  exists r, run_replay data replay = Ok r /\ wf_dict r.
Proof.
  intros Hd Hf. revert data Hd. unfold run_replay.
  induction Hf as [|[k [src df]] replay [Hs Hv] _ IH]; intros data Hd; cbn; [by exists data|].
  cbn in *. destruct (apply_diff_valid data df src Hv Hd Hs) as (r & -> & Hr). cbn. by apply IH.
Qed.

(** ** The merged message *)

Lemma serialize_impl_ok m df :
  wf_unknown (unknown_ m) -> in_int64 (seqno m - lag m) = true ->
  (forall body, from_option (fun s => size_of s = 64) True (written_sig m body true)) ->
  exists out, serialize_impl m df true = Ok out.
Proof.
  intros Hu Hs H64. unfold serialize_impl.
  destruct (message_pairs_eq m df Hu Hs) as (u1 & u2 & u3 & u4 & _ & ->). cbn.
  rewrite signature_pair_written by done. cbn. by eexists.
Qed.

Definition sign_ok (sg : option sign_callable) : Prop :=
  from_option (fun f => forall s, size_of (f s) = 64) True sg.

Lemma merge_sorted_total cs mx vf sg l :
  Forall replayable cs -> in_int64 (mx + 1) = true -> in_int64 (mx + 1 - l) = true -> sign_ok sg ->
  exists m, merge_sorted_confs cs mx vf sg l = Ok m.
Proof.
  intros Hf Hm Hml Hsg. unfold merge_sorted_confs. rewrite int64_add_ok by done. cbn [mbind res_bind].
  destruct (run_replay_valid (match cs with c :: _ => data_ c | [] => [] end) (build_replay cs))
    as (r & -> & Hr); [| |].
  { destruct Hf as [|c cs [? _] _]; [apply wf_dict_nil|done]. }
  { by apply build_replay_valid. }
  cbn [mbind res_bind]. destruct (prune_dict r) as [b d]. set (m := {| data_ := _ |}).
  destruct (serialize_impl_ok m []) as [out ->].
  - split; constructor.
  - done.
  - intros body. unfold written_sig. cbn. destruct sg as [f|]; [exact (Hsg _)|done].
  - cbn. by eexists.
Qed.

(** The components of a merged message. *)
Lemma merge_sorted_inv cs mx vf sg l m :
  merge_sorted_confs cs mx vf sg l = Ok m ->
  exists d, run_replay (match cs with c :: _ => data_ c | [] => [] end) (build_replay cs) = Ok d /\
    data_ m = (prune_dict d).2 /\ seqno m = mx + 1 /\ diff_ m = [] /\ unknown_ m = [] /\
    lagged_diffs_ m = (fun e => (e.1, e.2.2)) <$> build_replay cs /\ lag m = l /\
    verified_signature_ m = None /\ orig_data_ m = None.
Proof.
  unfold merge_sorted_confs. intros Hm. res_step Hm. res_step Hm.
  destruct (prune_dict a0) as [b d] eqn:Ep. res_step Hm. injection Hm as <-.
  unfold int64_add in E. res_step E. injection E as <-.
  exists a0. by rewrite Ep.
Qed.

(** Every change the highest message made is in the merged data. *)
Lemma merge_top_observed l c cs mx vf sg m old :
  Forall (parsed_ok l) (c :: cs) -> Forall replayable (c :: cs) ->
  StronglySorted hash_gt (c :: cs) -> merge_sorted_confs (c :: cs) mx vf sg l = Ok m ->
  wf_dict old -> diff_rel old (data_ c) (diff_ c) ->
  forall ob p, observe_at ob p old <> observe_at ob p (data_ c) ->
    observe_at ob p (data_ m) = observe_at ob p (data_ c).
Proof.
  intros Hpo Hrp Hs Hm Ho Hdf ob p Hne.
  apply merge_sorted_inv in Hm as (d & Hrun & -> & _).
  destruct (build_replay_top l c cs Hpo Hs) as [pre Hpre].
  pose proof (build_replay_valid _ Hrp) as Hv. rewrite Hpre in Hrun, Hv.
  apply Forall_app in Hv as [Hv _]. apply Forall_cons in Hrp as [(Hd & _) _].
  unfold run_replay in Hrun. rewrite foldM_app in Hrun.
  destruct (run_replay_valid (data_ c) pre Hd Hv) as (r & Hr & Hwr). unfold run_replay in Hr.
  rewrite Hr in Hrun. cbn [mbind res_bind foldM fst snd] in Hrun.
  destruct (proj1 diff_applies_mut _ _ _ Hdf r Ho Hd Hwr) as (r' & Hr' & Hwr' & Hw & _).
  rewrite Hr' in Hrun. cbn in Hrun. injection Hrun as <-.
  rewrite prune_dict_observed by done. by apply Hw.
Qed.

(** The merged message carries the history of everything it merged. *)
Lemma merge_sorted_history cs mx vf sg l m c :
  Forall (fun c => msorted (lagged_diffs_ c)) cs -> merge_sorted_confs cs mx vf sg l = Ok m ->
  c ∈ cs -> includes m c = true /\ forall k, is_Some (mfind k (lagged_diffs_ c)) -> is_Some (mfind k (lagged_diffs_ m)).
Proof.
  intros Hl (d & _ & _ & _ & _ & _ & Hlag & _)%merge_sorted_inv Hc.
  assert (forall k, mfind k (lagged_diffs_ m) = snd <$> first_contribution cs k) as Hf.
  { intros k. destruct (build_replay_find cs k Hl) as [_ <-]. rewrite Hlag. clear.
    induction (build_replay cs) as [|[k0 x] r IH]; [done|]. cbn. by destruct (keqb k k0). }
  assert (forall k, is_Some (contribution c k) -> is_Some (first_contribution cs k)) as Hfc.
  { intros k Hk. clear -Hc Hk. induction cs as [|c' cs IH]; [by apply not_elem_of_nil in Hc|].
    cbn. destruct (contribution c' k) eqn:E; [by eexists|].
    apply elem_of_cons in Hc as [->|Hc]; [rewrite E in Hk; by destruct Hk|auto]. }
  split.
  - unfold includes. rewrite Hf. destruct (Hfc (seqno_hash_ c)) as [x ->]; [|done].
    unfold contribution. rewrite keqb_refl. by eexists.
  - intros k [x Hk]. rewrite Hf. destruct (Hfc k) as [y ->]; [|by eexists].
    unfold contribution. rewrite Hk. destruct (keqb _ _); by eexists.
Qed.

(** ** Merging again with what was merged changes nothing *)

Lemma mfind_window s l lags k d :
  msorted lags -> mfind k lags = Some d -> s - l < k.1 < s -> mfind k (window s l lags) = Some d.
Proof.
  intros Hs Hk Hw. apply In_mfind; [by apply msorted_filter|].
  apply list_elem_of_filter. split; [done|]. by apply mfind_In.
Qed.

Lemma merged_lags_sorted cs mx vf sg l m :
  Forall (fun c => msorted (lagged_diffs_ c)) cs -> merge_sorted_confs cs mx vf sg l = Ok m ->
  msorted (lagged_diffs_ m).
Proof.
  intros Hl (d & _ & _ & _ & _ & _ & -> & _)%merge_sorted_inv.
  destruct (build_replay_find cs (0, []) Hl) as [Hs _]. unfold msorted in *.
  by rewrite <- list_fmap_compose.
Qed.

(** [m'] is the merged message [m] as others receive it. *)
Definition received_as (l : Z) (m m' : ConfigMessage) : Prop :=
  seqno m' = seqno m /\ lagged_diffs_ m' = window (seqno m) l (lagged_diffs_ m) /\ parsed_ok l m'.

Lemma merged_supersedes l configs marked vf sg m m' c :
  Forall (parsed_ok l) configs ->
  mark_redundant l (max_seqno configs) configs 0 configs = Ok marked ->
  merge_sorted_confs (sort_desc (good marked)) (max_seqno configs) vf sg l = Ok m ->
  received_as l m m' -> c ∈ configs -> ~ survives l (max_seqno configs + 1) (m' :: configs) c.
Proof.
  intros Hpo Hmk Hm (Hs & Hlag & _) Hc [[Hi Hf]%Forall_cons Hlt].
  apply (mark_redundant_good l _ [] configs) in Hmk as (_ & Hin & Hout); [|done].
  assert (Forall (fun c => msorted (lagged_diffs_ c)) (sort_desc (good marked))) as Hl.
  { rewrite sort_desc_perm. apply Forall_forall. intros g (Hg & _)%Hin.
    rewrite Forall_forall in Hpo. by apply Hpo in Hg as [_ _ ? _ _ _]. }
  assert (seqno_hash_ c ∈ seqno_hash_ <$> good marked) as Hg.
  { apply Hout; [done| |by apply not_elem_of_nil]. split; [done|]. cbn. lia. }
  apply list_elem_of_fmap in Hg as (g & He & Hg). rewrite <- (sort_desc_perm (good marked)) in Hg.
  destruct (merge_sorted_history _ _ _ _ _ _ g Hl Hm Hg) as [Hinc _].
  apply not_true_iff_false in Hi. apply Hi. unfold includes in *. rewrite He, Hlag.
  destruct (mfind (seqno_hash_ g) (lagged_diffs_ m)) as [d|] eqn:Ed; [|done].
  rewrite (mfind_window _ _ _ _ d); [done|by eapply merged_lags_sorted|done|].
  pose proof (merge_sorted_inv _ _ _ _ _ _ Hm) as (_ & _ & _ & Hsm & _).
  pose proof (max_seqno_ge _ _ Hc). rewrite <- He. unfold seqno in *. lia.
Qed.

Lemma merge_again l configs marked vf sg m m' :
  Forall (parsed_ok l) configs -> 1 <= l ->
  mark_redundant l (max_seqno configs) configs 0 configs = Ok marked ->
  merge_sorted_confs (sort_desc (good marked)) (max_seqno configs) vf sg l = Ok m ->
  received_as l m m' -> in_int64 (seqno m + l) = true ->
  erase_index <$> merge_configs (m' :: configs) vf sg l = Ok (with_unmerged m' (Some O)).
Proof.
  intros Hpo Hl Hmk Hm Hrec Hov. pose proof Hrec as (Hs & _ & Hpo').
  pose proof (merge_sorted_inv _ _ _ _ _ _ Hm) as (_ & _ & _ & Hsm & _).
  assert (Forall (parsed_ok l) (m' :: configs)) as Hpo2 by (by constructor).
  assert (survives l (max_seqno (m' :: configs)) (m' :: configs) m' /\
          seqno m' = max_seqno (m' :: configs)) as [Hsv Hmx].
  { apply max_survives; [done|done|by left|]. constructor; [apply klt_irrefl|].
    apply Forall_forall. intros c Hc%max_seqno_ge. apply klt_asym, seqno_lt_klt. lia. }
  destruct (mark_redundant l (max_seqno (m' :: configs)) (m' :: configs) 0 (m' :: configs))
    as [mk2|e] eqn:E2.
  2: { assert (exists mk, mark_redundant l (max_seqno (m' :: configs)) (m' :: configs) 0
                 (m' :: configs) = Ok mk) as [? ?]; [|congruence].
       apply mark_redundant_total. constructor; [by rewrite Hs|].
       eapply mark_redundant_total. by eexists. }
  pose proof (mark_redundant_good l _ [] _ _ Hpo2 E2) as (Hnd & Hin & Hout).
  assert (forall c, c ∈ good mk2 -> c = m') as Hall.
  { intros c (Hc & Hsc & _)%Hin. apply elem_of_cons in Hc as [->|Hc]; [done|].
    exfalso. refine (merged_supersedes l configs marked vf sg m m' c Hpo Hmk Hm Hrec Hc _).
    replace (max_seqno configs + 1) with (max_seqno (m' :: configs)) by lia. exact Hsc. }
  assert (good mk2 = [m']) as Hg.
  { pose proof (good_nonempty l _ _ Hpo2 Hl ltac:(done) E2) as Hne.
    destruct (good mk2) as [|a [|b gs]]; [done| |].
    - by rewrite (Hall a) by by left.
    - rewrite (Hall a), (Hall b) in Hnd by set_solver. cbn in Hnd.
      apply NoDup_cons in Hnd as [Hn _]. set_solver. }
  rewrite (merge_configs_marked _ mk2 vf sg l E2 Hnd); [|by rewrite Hg]. by rewrite Hg.
Qed.
End Replay.

(** ** Editing *)

Section WithLibraries.
Context `{Oxenc} `{Blake2b}.

(** ** Incrementing *)

Lemma drop_old_lags_window s l lags :
  in_int64 (s - l) = true -> Forall (in_window s l) lags -> drop_old_lags s l lags = Ok lags.
Proof.
  intros Hs Hw. destruct lags as [|[[ls lh] d] lags]; [done|]. cbn [drop_old_lags].
  rewrite int64_sub_ok by done. cbn [mbind res_bind]. apply Forall_cons in Hw as [[Hlo _] _].
  cbn in Hlo. by rewrite (proj2 (Z.leb_gt _ _)) by lia.
Qed.

Lemma drop_new_lags_window s l lags : Forall (in_window s l) lags -> drop_new_lags s lags = Ok lags.
Proof.
  intros Hw. unfold drop_new_lags. destruct (last lags) as [[[ls lh] d]|] eqn:E; [|done].
  apply last_Some_elem_of in E. rewrite Forall_forall in Hw. destruct (Hw _ E) as [_ Hhi].
  cbn in Hhi. by rewrite (proj2 (Z.leb_gt _ _)) by lia.
Qed.

Lemma window_keys_lt s l (h : bytes) lags :
  Forall (in_window s l) lags -> Forall (fun p : seqno_hash_t * bt_dict => p.1 ≺ (s, h)) lags.
Proof.
  intros Hw. eapply Forall_impl; [apply Hw|]. intros [[ls lh] d] [_ Hlt]. cbn in *.
  unfold klt. cbn. unfold pair_cmp. cbn. apply Z.compare_lt_iff in Hlt. by rewrite Hlt.
Qed.

Lemma memplace_last {K V} `{Ordered K} (k : K) (v : V) m :
  Forall (fun p => p.1 ≺ k) m -> memplace k v m = m ++ [(k, v)].
Proof.
  intros Hf. unfold memplace. destruct (mfind k m) as [x|] eqn:E.
  - apply mfind_In in E. rewrite Forall_forall in Hf. apply Hf in E. by apply klt_irrefl in E.
  - by apply minsert_last.
Qed.

(** A message as [increment] leaves it, for a source with a proper window of lagged diffs. *)
Definition incremented (m : ConfigMessage) : ConfigMessage :=
  {| data_ := data_ m; diff_ := [];
     lagged_diffs_ := lagged_diffs_ m ++ [(seqno_hash_ m, diff_ m)]; unknown_ := unknown_ m;
     seqno_hash_ := (seqno m + 1, zero_hash); verified_signature_ := verified_signature_ m;
     unmerged_ := unmerged_ m; verifier := verifier m; signer := signer m; lag := lag m;
     orig_data_ := Some (data_ m) |}.

Lemma increment_impl_window m :
  Forall (in_window (seqno m) (lag m)) (lagged_diffs_ m) ->
  in_int64 (seqno m - lag m) = true -> in_int64 (seqno m + 1) = true ->
  increment_impl m = Ok (incremented m).
Proof.
  intros Hw Hs Ha. unfold increment_impl. cbn [with_orig lagged_diffs_ lag].
  change (seqno (with_orig m (Some (data_ m)))) with (seqno m).
  rewrite drop_old_lags_window by done. cbn [mbind res_bind].
  rewrite (drop_new_lags_window _ (lag m)) by done. cbn [mbind res_bind].
  cbn [seqno_hash_ with_orig diff_ with_lagged]. rewrite memplace_last.
  2: { destruct (seqno_hash_ m) as [s h] eqn:E. apply (window_keys_lt _ (lag m)).
       unfold seqno in Hw. by rewrite E in Hw. }
  change (seqno (with_lagged _ _)) with (seqno m). rewrite int64_add_ok by done. done.
Qed.

Lemma increment_parsed m :
  parsed_ok (lag m) m -> in_int64 (seqno m - lag m) = true -> in_int64 (seqno m + 1) = true ->
  increment m = Ok (incremented m).
Proof.
  intros [_ _ _ Hw _ Ho] Hs Ha. unfold increment. rewrite Ho.
  rewrite increment_impl_window; done.
Qed.

(** ** The difference a mutable message reports *)

Definition has_orig (m : ConfigMessage) (orig : dict) : Prop :=
  orig_data_ m = Some orig /\ wf_dict orig /\ pruned_dict orig.

(** The message after its data has been changed (through the non-const [data()]). *)
Definition edited (m : ConfigMessage) (d : dict) : ConfigMessage := with_data m d.

Lemma diff_mutable m orig :
  has_orig m orig -> wf_dict (data_ m) ->
  exists df, let new_ := (prune_dict (data_ m)).2 in
    diff m = Ok (df, with_diff (with_data (with_signature m None) new_) df) /\
    wf_dict new_ /\ pruned_dict new_ /\ diff_rel orig new_ df.
Proof.
  intros (Ho & Hw & Hp) Hd. unfold diff. rewrite Ho. unfold prune.
  change (data_ (with_signature m None)) with (data_ m).
  pose proof (prune_dict_good (data_ m) Hd) as Hg. destruct (prune_dict (data_ m)) as [b new_].
  destruct Hg as [Hwn Hpn]. cbn [snd data_ with_data].
  destruct (diff_impl_spec orig new_) as (df & -> & Hrel); [done..|].
  exists df. cbn [mbind res_bind]. split_and!; [|done..].
  unfold nonempty_dict. by destruct df.
Qed.

(** ** The life of a message: received, incremented, edited, serialized, received by others *)

Lemma edit_cycle m d vf sg :
  wf_message m -> parsed_ok (lag m) m -> in_int64 (seqno m + 1) = true ->
  in_int64 (seqno m + 1 - lag m) = true -> size_of (seqno_hash_ m).2 = HASH_SIZE -> wf_dict d ->
  sign_ok (signer m) ->
  (forall body sig, match vf with
    | None => True
    | Some v => exists sign, signer m = Some sign /\ (sig = sign body -> v body sig = true) end) ->
  exists m1 out m2 df,
    increment m = Ok m1 /\ serialize (edited m1 d) true = Ok (out, m2) /\
    let new_ := (prune_dict d).2 in
    diff_rel (data_ m) new_ df /\ apply_diff (data_ m) df new_ = Ok new_ /\
    exists vsig,
    parse_message out vf sg (lag m) false = Ok
      {| data_ := new_; diff_ := df;
         lagged_diffs_ := window (seqno m + 1) (lag m)
                            (lagged_diffs_ m ++ [(seqno_hash_ m, diff_ m)]);
         unknown_ := unknown_ m; seqno_hash_ := (seqno m + 1, hash_msg out);
         verified_signature_ := vsig; unmerged_ := None; verifier := vf; signer := sg;
         lag := lag m; orig_data_ := None |}.
Proof.
  intros Hwm Hpo Ha Hal Hh Hd Hsg Hvf.
  pose proof (increment_parsed m Hpo (proj2 (wfm_seqno _ Hwm)) Ha) as Hinc.
  destruct (diff_mutable (edited (incremented m) d) (data_ m)) as (df & Hdf & Hwn & Hpn & Hrel);
    [split_and!; [done|apply wfm_data, Hwm|apply Hpo]|done|].
  cbn [edited with_data data_] in *. set (new_ := (prune_dict d).2) in *.
  set (m2 := with_diff (with_data _ new_) df) in *.
  pose proof (diff_rel_valid _ _ _ Hrel (wfm_data _ Hwm) Hwn) as Hdv.
  assert (wf_message m2) as Hw2.
  { destruct Hwm as [_ ? [Hls Hlf] Hu [? ?] _]. constructor; try done. split.
    - cbn. apply msorted_app. split_and!; [done|repeat constructor|].
      intros p q Hp ->%list_elem_of_singleton. destruct Hpo as [_ _ _ Hw _ _].
      destruct (seqno_hash_ m) as [s h] eqn:E. unfold seqno in Hw. rewrite E in Hw.
      apply (window_keys_lt _ _ h) in Hw. rewrite Forall_forall in Hw. by apply Hw.
    - cbn. apply Forall_app. split; [done|]. constructor; [|constructor]. by split_and!. }
  destruct (serialize_parse m2 df true vf sg false []) as (out & body & Hout & _ & Hparse);
    [done..| | |].
  { intros body. unfold written_sig. cbn. destruct (signer m) as [f|]; [exact (Hsg _)|done]. }
  { intros body. unfold sig_accepted, written_sig. cbn. destruct vf as [v|]; [|done].
    destruct (signer m) as [f|] eqn:Ef.
    - destruct (Hvf (bt_dict_open body) (f (bt_dict_open body))) as (f' & [= <-] & Hv). by apply Hv.
    - destruct (Hvf [] []) as (f' & ? & _). done. }
  destruct (proj1 diff_applies_mut _ _ _ Hrel (data_ m)) as (r & Hr & _ & _ & Heq);
    [apply wfm_data, Hwm|done|apply wfm_data, Hwm|].
  exists (incremented m), out, m2, df. unfold serialize.
  change (with_data (incremented m) d) with (edited (incremented m) d) in *.
  split_and!; [done| |done|by rewrite Hr, Heq|].
  - unfold edited in *. rewrite Hdf. cbn [mbind res_bind]. by rewrite Hout.
  - eexists. rewrite app_nil_r in Hparse. exact Hparse.
Qed.
End WithLibraries.
