(* ===== verification/Encrypt.v ===== *)
(** * Config message encryption and padding

    [src/config/encrypt.cpp] and [include/session/config/encrypt.hpp]. *)
From S2P Require Import Prelude ThirdParty.

(** [size_t] is a 64-bit unsigned integer. *)
Definition size_t (z : Z) : Z := z mod 2 ^ 64.

Definition DOMAIN_MAX_SIZE : Z := 24.
Definition NONCE_KEY_PREFIX : bytes := "libsessionutil-config-encrypted-".
Definition ENCRYPT_DATA_OVERHEAD : Z := 40.
Definition KEY_SIZE : Z := 32.

(** The 8 bytes of a [uint64_t] in big-endian order ([host_to_big_inplace]). *)
Definition big_endian64 (z : Z) : bytes :=
  (fun i => byte_of (Z.shiftr z (8 * i))) <$> [7; 6; 5; 4; 3; 2; 1; 0].

Definition padded_size (s overhead : Z) : Z :=
  let s2 := size_t (s + overhead) in
  let chunk := if s2 <? 5120 then 256 else if s2 <? 20480 then 1024
               else if s2 <? 40960 then 2048 else 5120 in
  size_t (size_t (size_t (s2 + chunk - 1) / chunk * chunk) - overhead).

Definition pad_message (data : bytes) (overhead : Z) : bytes :=
  let target_size := padded_size (size_of data) overhead in
  if size_of data <? target_size
  then replicate (Z.to_nat (target_size - size_of data)) char_nul ++ data
  else data.

(** [find_if(begin, end, c != 0)] and the [memmove]: the padding is removed unless there is
    nothing else. *)
Fixpoint skip_nulls (s : bytes) : bytes :=
  match s with
  | [] => []
  | c :: s' => if decide (c = char_nul) then skip_nulls s' else s
  end.
Definition strip_padding (s : bytes) : bytes :=
  match skip_nulls s with [] => s | s' => s' end.

Section WithSodium.
Context `{Blake2b} `{Aead}.

Definition make_encrypt_key (key_base : bytes) (message_size : Z) (domain : bytes) : res bytes :=
  _ ← throw_if (negb (size_of key_base =? 32)) InvalidArgument;
  _ ← throw_if ((size_of domain <? 1) || (DOMAIN_MAX_SIZE <? size_of domain)) InvalidArgument;
  Ok (generichash 32 [] (key_base ++ big_endian64 message_size ++ domain)).

(** [encrypt_inplace]: the ciphertext followed by the nonce. *)
Definition encrypt (message key_base domain : bytes) : res bytes :=
  key ← make_encrypt_key key_base (size_of message) domain;
  let nonce := generichash XCHACHA_NPUBBYTES (NONCE_KEY_PREFIX ++ domain) message in
  Ok (aead_encrypt message nonce key ++ nonce).

Definition decrypt (ciphertext key_base domain : bytes) : res bytes :=
  let message_len := size_t (size_of ciphertext - ENCRYPT_DATA_OVERHEAD) in
  if size_of ciphertext <? message_len then Throw DecryptError  (* overflow *)
  else
    let n := (length ciphertext - Z.to_nat XCHACHA_NPUBBYTES)%nat in
    key ← make_encrypt_key key_base message_len domain;
    match aead_decrypt (take n ciphertext) (drop n ciphertext) key with
    | Some m => Ok m
    | None => Throw DecryptError
    end.
End WithSodium.

(** ** Padding *)

Definition size_ok (s overhead : Z) : Prop := 0 <= s /\ 0 <= overhead /\ s + overhead < 2 ^ 63.

Lemma padded_size_eq s o :
  size_ok s o ->
  exists chunk, chunk ∈ [256; 1024; 2048; 5120] /\
    padded_size s o = (s + o + chunk - 1) / chunk * chunk - o /\
    s <= padded_size s o /\ padded_size s o < s + chunk /\ (padded_size s o + o) mod chunk = 0.
Proof.
  intros (Hs & Ho & Hb). unfold padded_size, size_t. rewrite (Z.mod_small (s + o)) by lia.
  set (chunk := if _ <? _ then _ else _). exists chunk.
  assert (chunk ∈ [256; 1024; 2048; 5120]) as Hc.
  { unfold chunk. repeat case_match; set_solver. }
  assert (0 < chunk <= 5120) as Hcr.
  { repeat (apply elem_of_cons in Hc as [->|Hc]; [lia|]). by apply not_elem_of_nil in Hc. }
  clearbody chunk.
  rewrite (Z.mod_small (s + o + chunk - 1)) by lia.
  pose proof (Z.div_mod (s + o + chunk - 1) chunk ltac:(lia)) as Hd.
  pose proof (Z.mod_pos_bound (s + o + chunk - 1) chunk ltac:(lia)).
  assert ((s + o + chunk - 1) / chunk * chunk = s + o + chunk - 1 - (s + o + chunk - 1) mod chunk)
    as E by lia.
  rewrite E. rewrite (Z.mod_small (s + o + chunk - 1 - _)) by lia. rewrite Z.mod_small by lia.
  split_and!; [done|lia|lia|lia|].
  replace (s + o + chunk - 1 - (s + o + chunk - 1) mod chunk - o + o)
    with ((s + o + chunk - 1) / chunk * chunk) by lia.
  by rewrite Z.mod_mul by lia.
Qed.

Lemma skip_nulls_replicate n s : skip_nulls (replicate n char_nul ++ s) = skip_nulls s.
Proof. induction n; cbn; [done|]. by rewrite decide_True. Qed.

(** A message that does not start with a null byte survives padding. *)
Definition unpadded (s : bytes) : Prop := exists c s', s = c :: s' /\ c <> char_nul.

Lemma strip_pad s o : unpadded s -> strip_padding (pad_message s o) = s.
Proof.
  intros (c & s' & -> & Hc). unfold strip_padding, pad_message.
  assert (skip_nulls (c :: s') = c :: s') as E by (cbn; by rewrite decide_False).
  destruct (_ <? _); rewrite ?skip_nulls_replicate, E; done.
Qed.

Lemma pad_message_size s o : size_ok (size_of s) o -> size_of (pad_message s o) = padded_size (size_of s) o.
Proof.
  intros Hs. destruct (padded_size_eq _ _ Hs) as (c & _ & _ & Hle & _).
  unfold pad_message. destruct (Z.ltb_spec (size_of s) (padded_size (size_of s) o)); [|lia].
  rewrite size_of_app. unfold size_of at 1. rewrite length_replicate. lia.
Qed.

(** ** Encryption *)
Section Facts.
Context `{Blake2b} `{Aead}.

Definition key_args_ok (key_base domain : bytes) : Prop :=
  size_of key_base = 32 /\ 1 <= size_of domain <= DOMAIN_MAX_SIZE.

Lemma make_encrypt_key_ok key_base n domain :
  key_args_ok key_base domain ->
  make_encrypt_key key_base n domain =
    Ok (generichash 32 [] (key_base ++ big_endian64 n ++ domain)).
Proof.
  intros [Hk [Hd1 Hd2]]. unfold make_encrypt_key. rewrite Hk. cbn.
  replace (size_of domain <? 1) with false by lia.
  by replace (DOMAIN_MAX_SIZE <? size_of domain) with false by lia.
Qed.

Lemma encrypt_size message key_base domain c :
  encrypt message key_base domain = Ok c -> size_of c = size_of message + ENCRYPT_DATA_OVERHEAD.
Proof.
  unfold encrypt. intros He. res_step He. injection He as <-.
  rewrite size_of_app, aead_encrypt_size, generichash_size by done. unfold XCHACHA_ABYTES,
    XCHACHA_NPUBBYTES, ENCRYPT_DATA_OVERHEAD. lia.
Qed.

Lemma decrypt_encrypt message key_base domain :
  key_args_ok key_base domain -> size_of message < 2 ^ 63 ->
  exists c, encrypt message key_base domain = Ok c /\ decrypt c key_base domain = Ok message.
Proof.
  intros Hk Hm. unfold encrypt. rewrite make_encrypt_key_ok by done. cbn.
  set (nonce := generichash XCHACHA_NPUBBYTES _ _). set (key := generichash 32 [] _).
  assert (size_of nonce = 24) as Hn by (unfold nonce; by rewrite generichash_size).
  eexists; split; [done|]. set (c := aead_encrypt message nonce key ++ nonce).
  assert (size_of c = size_of message + ENCRYPT_DATA_OVERHEAD) as Hc.
  { unfold c. rewrite size_of_app, aead_encrypt_size, Hn. unfold XCHACHA_ABYTES,
      ENCRYPT_DATA_OVERHEAD. lia. }
  unfold decrypt. rewrite Hc. pose proof (size_of_nonneg message).
  replace (size_of message + ENCRYPT_DATA_OVERHEAD - ENCRYPT_DATA_OVERHEAD) with (size_of message) by lia.
  unfold size_t. rewrite Z.mod_small by lia. unfold ENCRYPT_DATA_OVERHEAD.
  replace (size_of message + 40 <? size_of message) with false by lia.
  rewrite make_encrypt_key_ok by done. cbn [mbind res_bind].
  replace (length c - Z.to_nat XCHACHA_NPUBBYTES)%nat with (length (aead_encrypt message nonce key)).
  - unfold c. rewrite take_app_length, drop_app_length. fold key. by rewrite aead_decrypt_encrypt.
  - unfold c. rewrite length_app. unfold size_of in Hn. unfold XCHACHA_NPUBBYTES. lia.
Qed.

(** What does not contain a tag and a nonce is rejected. *)
Lemma decrypt_short c key_base domain :
  size_of c < ENCRYPT_DATA_OVERHEAD -> decrypt c key_base domain = Throw DecryptError.
Proof.
  intros Hc. unfold decrypt, size_t. pose proof (size_of_nonneg c). unfold ENCRYPT_DATA_OVERHEAD in *.
  replace ((size_of c - 40) mod 2 ^ 64) with (size_of c - 40 + 2 ^ 64).
  - by replace (size_of c <? size_of c - 40 + 2 ^ 64) with true by lia.
  - rewrite <- (Z.mod_add _ 1) by lia. rewrite Z.mod_small by lia. lia.
Qed.
End Facts.
