(* ===== verification/SessionEncrypt.v ===== *)
(** * Session message encryption

    Signing and encrypting a message for a recipient, and decrypting an incoming one:
    [sign_for_recipient], [encrypt_for_recipient_deterministic] and [decrypt_incoming] of
    [src/session_encrypt.cpp]. *)
From S2P Require Import Prelude ThirdParty.

Section WithSodium.
Context `{CryptoBox}.

Definition BOX_HASHKEY : bytes := "SessionBoxEphemeralHashKey".

(** A 32-byte seed is expanded to the 64-byte secret key. *)
Definition full_privkey (ed25519_privkey : bytes) : res bytes :=
  if size_of ed25519_privkey =? 32 then Ok (ed_seed_keypair ed25519_privkey).2
  else if size_of ed25519_privkey =? 64 then Ok ed25519_privkey
  else Throw InvalidArgument.

(** Drops a 0x05 prefix from a public key. *)
Definition unprefixed_pubkey (recipient_pubkey : bytes) : res bytes :=
  if (size_of recipient_pubkey =? 33) && bool_decide (head recipient_pubkey = Some (byte_of 5))
  then Ok (tail recipient_pubkey)
  else if size_of recipient_pubkey =? 32 then Ok recipient_pubkey
  else Throw InvalidArgument.

(** message || sender's pubkey || signature of (message || sender's pubkey || recipient's). *)
Definition sign_for_recipient (ed25519_privkey recipient_pubkey message : bytes) : res bytes :=
  sk ← full_privkey ed25519_privkey;
  pk ← unprefixed_pubkey recipient_pubkey;
  let buf := message ++ ed_sk_to_pk sk in
  Ok (buf ++ ed_sign (buf ++ pk) sk).

Definition encrypt_for_recipient_deterministic
    (ed25519_privkey recipient_pubkey message : bytes) : res bytes :=
  signed_msg ← sign_for_recipient ed25519_privkey recipient_pubkey message;
  let recipient_pubkey :=
    if size_of recipient_pubkey =? 33 then tail recipient_pubkey else recipient_pubkey in
  let seed := generichash 32 BOX_HASHKEY
                (take 32 ed25519_privkey ++ take 32 recipient_pubkey ++ message) in
  let '(eph_pk, eph_sk) := box_seed_keypair seed in
  let nonce := generichash 24 [] (eph_pk ++ recipient_pubkey) in
  Ok (eph_pk ++ box_easy signed_msg nonce recipient_pubkey eph_sk).

(** [decrypt_incoming(x25519_pubkey, x25519_seckey, ciphertext)]: (message, sender's pubkey). *)
Definition decrypt_incoming_x (x_pub x_sec ciphertext : bytes) : res (bytes * bytes) :=
  if size_of ciphertext <? BOX_SEALBYTES + 32 + 64 then Throw RuntimeError
  else
    let outer_size := size_of ciphertext - BOX_SEALBYTES in
    let msg_size := Z.to_nat (outer_size - 32 - 64) in
    match box_seal_open ciphertext x_pub x_sec with
    | None => Throw RuntimeError
    | Some buf =>
        let sender_ed_pk := take 32 (drop msg_size buf) in
        let sig := take 64 (drop (msg_size + 32) buf) in
        let buf := take (length buf - 64) buf ++ take 32 x_pub in
        if ed_verify sig buf sender_ed_pk
        then Ok (take (length buf - 64) buf, sender_ed_pk)
        else Throw RuntimeError
    end.

Definition decrypt_incoming (ed25519_privkey ciphertext : bytes) : res (bytes * bytes) :=
  sk ← full_privkey ed25519_privkey;
  let x_sec := ed_sk_to_curve25519 sk in
  let x_pub := scalarmult_base x_sec in
  decrypt_incoming_x x_pub x_sec ciphertext.

(** ** A message sent to oneself comes back *)

Definition x_pubkey (seed : bytes) : bytes :=
  scalarmult_base (ed_sk_to_curve25519 (ed_seed_keypair seed).2).

Lemma length_of_size {A} (l : list A) n : size_of l = Z.of_nat n -> length l = n.
Proof. unfold size_of. lia. Qed.

Lemma sign_for_recipient_seed seed pk message :
  size_of seed = 32 -> size_of pk = 32 ->
  sign_for_recipient seed pk message =
    Ok (message ++ (ed_seed_keypair seed).1 ++
        ed_sign (message ++ (ed_seed_keypair seed).1 ++ pk) (ed_seed_keypair seed).2).
Proof.
  intros Hs Hp. unfold sign_for_recipient, full_privkey. rewrite Hs. cbn.
  unfold unprefixed_pubkey. rewrite Hp. cbn. unfold ed_sk_to_pk. rewrite ed_seed_sk by done.
  rewrite drop_app_length' by (symmetry; by apply length_of_size).
  by rewrite <- !app_assoc.
Qed.

(** The recipient decodes what the sender signed. *)
Lemma decrypt_signed sender recipient message c :
  size_of sender = 32 -> size_of recipient = 32 ->
  size_of c = size_of message + 96 + BOX_SEALBYTES ->
  let pk := (ed_seed_keypair sender).1 in
  box_seal_open c (x_pubkey recipient) (ed_sk_to_curve25519 (ed_seed_keypair recipient).2) =
    Some (message ++ pk ++ ed_sign (message ++ pk ++ x_pubkey recipient) (ed_seed_keypair sender).2) ->
  decrypt_incoming recipient c = Ok (message, pk).
Proof.
  intros Hs Hr Hc pk Ho. assert (length pk = 32%nat) as Hpk.
  { apply length_of_size. by apply ed_seed_pk_size. }
  set (sig := ed_sign _ _) in Ho.
  assert (length sig = 64%nat) as Hsig by (apply length_of_size, ed_sign_size).
  assert (length (x_pubkey recipient) = 32%nat) as Hx.
  { apply length_of_size, scalarmult_base_size. }
  unfold decrypt_incoming, full_privkey. rewrite Hr. cbn [Z.eqb Pos.eqb mbind res_bind].
  unfold decrypt_incoming_x. fold (x_pubkey recipient). unfold BOX_SEALBYTES in *.
  pose proof (size_of_nonneg message). rewrite Hc, Ho.
  replace (size_of message + 96 + 48 <? 48 + 32 + 64) with false by lia.
  replace (Z.to_nat (size_of message + 96 + 48 - 48 - 32 - 64)) with (length message)
    by (unfold size_of; lia).
  rewrite drop_app_length, (take_app_length' pk) by (by rewrite Hpk).
  replace (length message + 32)%nat with (length (message ++ pk)) by (rewrite length_app; lia).
  rewrite (app_assoc message pk sig), drop_app_length.
  replace (length ((message ++ pk) ++ sig) - 64)%nat with (length (message ++ pk))
    by (rewrite !length_app; lia).
  rewrite take_app_length. rewrite (take_ge sig) by lia. rewrite (take_ge (x_pubkey _)) by lia.
  rewrite <- app_assoc. unfold sig, pk. rewrite ed_verify_sign by done. fold pk.
  replace (length (message ++ pk ++ x_pubkey recipient) - 64)%nat with (length message)
    by (rewrite !length_app; lia).
  by rewrite take_app_length.
Qed.

Lemma deterministic_roundtrip sender recipient message :
  size_of sender = 32 -> size_of recipient = 32 ->
  exists c, encrypt_for_recipient_deterministic sender (x_pubkey recipient) message = Ok c /\
            decrypt_incoming recipient c = Ok (message, (ed_seed_keypair sender).1).
Proof.
  intros Hs Hr. pose proof (scalarmult_base_size (ed_sk_to_curve25519 (ed_seed_keypair recipient).2)) as Hx.
  fold (x_pubkey recipient) in Hx.
  unfold encrypt_for_recipient_deterministic. rewrite sign_for_recipient_seed by done.
  cbn [mbind res_bind]. rewrite Hx. cbn [Z.eqb Pos.eqb].
  set (seed := generichash 32 _ _). set (msg := message ++ _).
  pose proof (box_seal_open_easy msg seed (ed_sk_to_curve25519 (ed_seed_keypair recipient).2)) as Ho.
  pose proof (box_pk_size seed) as Hp. fold (x_pubkey recipient) in Ho.
  destruct (box_seed_keypair seed) as [eph_pk eph_sk].
  cbn [fst] in Hp. eexists. split; [done|]. apply decrypt_signed; [done..| |exact Ho].
  rewrite size_of_app, box_easy_size. unfold msg. rewrite !size_of_app, ed_sign_size, ed_seed_pk_size by done.
  unfold BOX_SEALBYTES. lia.
Qed.
End WithSodium.
