(* ===== verification/Protos.v ===== *)
(** * Protobuf wrapping of config messages

    [wrap_config] and [unwrap_config] of [src/config/protos.cpp].  The generated protobuf code is
    the class [Protobuf]: the fields the code sets and reads of each message type. *)
From S2P Require Import Prelude ThirdParty SessionEncrypt.

(** [enum class Namespace : int16_t] of [include/session/config/namespaces.hpp]. *)
Inductive Namespace :=
| UserProfile | Contacts | ConvoInfoVolatile | UserGroups
| GroupMessages | GroupKeys | GroupInfo | GroupMembers | Local.

Definition namespace_value (t : Namespace) : Z :=
  match t with
  | UserProfile => 2 | Contacts => 3 | ConvoInfoVolatile => 4 | UserGroups => 5
  | GroupMessages => 11 | GroupKeys => 12 | GroupInfo => 13 | GroupMembers => 14
  | Local => 9999
  end.

(** [SharedConfigMessage_Kind] *)
Inductive Kind := USER_PROFILE | CONTACTS | CONVO_INFO_VOLATILE | USER_GROUPS.
#[export] Instance Kind_eq_dec : EqDecision Kind.
Proof. solve_decision. Defined.

(** - [Content_serialize kind seqno data] / [Content_parse]: a [Content] with (only) a
      [sharedconfigmessage]; parsing gives [Some None] if there is no such submessage.
    - [Envelope_serialize content] / [Envelope_parse]: the [content] field.
    - [WebSocket_serialize body] / [WebSocket_parse]: (the type is REQUEST, the request's body). *)
Class Protobuf := {
  Content_serialize : Kind -> Z -> bytes -> bytes;
  Content_parse : bytes -> option (option (Kind * bytes));
  Envelope_serialize : bytes -> bytes;
  Envelope_parse : bytes -> option bytes;
  WebSocket_serialize : bytes -> bytes;
  WebSocket_parse : bytes -> option (bool * bytes);
  Content_roundtrip : forall k s d, Content_parse (Content_serialize k s d) = Some (Some (k, d));
  Envelope_roundtrip : forall c, Envelope_parse (Envelope_serialize c) = Some c;
  WebSocket_roundtrip : forall b, WebSocket_parse (WebSocket_serialize b) = Some (true, b)
}.

Section WithLibraries.
Context `{CryptoBox} `{Protobuf}.

Definition encode_namespace (t : Namespace) : res Kind :=
  match t with
  | UserProfile => Ok USER_PROFILE
  | Contacts => Ok CONTACTS
  | ConvoInfoVolatile => Ok CONVO_INFO_VOLATILE
  | UserGroups => Ok USER_GROUPS
  | _ => Throw InvalidArgument
  end.

Definition PAD_BYTE : ascii := byte_of 128.

Definition wrap_config (ed25519_sk data : bytes) (seqno : Z) (t : Namespace) : res bytes :=
  sk ← full_privkey ed25519_sk;
  my_xpk ← match ed_pk_to_curve25519 (ed_sk_to_pk sk) with
           | Some x => Ok x
           | None => Throw InvalidArgument
           end;
  _ ← throw_if (5 <? namespace_value t) InvalidArgument;
  kind ← encode_namespace t;
  let shared_conf := Content_serialize kind seqno data ++ [PAD_BYTE] in
  enc_shared_conf ← encrypt_for_recipient_deterministic sk my_xpk shared_conf;
  Ok (WebSocket_serialize (Envelope_serialize enc_shared_conf)).

(** The search from the end for the last byte that is not null; the padding must start with
    0x80. *)
Fixpoint unpad_rev (rcontent : bytes) : option bytes :=
  match rcontent with
  | [] => None
  | c :: r => if decide (c = char_nul) then unpad_rev r
              else if decide (c = PAD_BYTE) then Some r else None
  end.

Definition unwrap_config (ed25519_sk data : bytes) (ns : Namespace) : res bytes :=
  sk ← full_privkey ed25519_sk;
  let ed25519_pk := ed_sk_to_pk sk in
  match WebSocket_parse data with
  | None => Throw RuntimeError
  | Some (is_request, body) =>
      _ ← throw_if (negb is_request) RuntimeError;
      match Envelope_parse body with
      | None => Throw RuntimeError
      | Some env =>
          let! (content, sender) := decrypt_incoming sk env in
          _ ← throw_if (negb (bool_decide (sender = ed25519_pk))) RuntimeError;
          _ ← throw_if (bool_decide (content = [])) RuntimeError;
          _ ← throw_if (negb (bool_decide (last content = Some char_nul \/
                                           last content = Some PAD_BYTE))) RuntimeError;
          match unpad_rev (rev content) with
          | None => Throw RuntimeError
          | Some r =>
              match Content_parse (rev r) with
              | None => Throw RuntimeError
              | Some None => Throw RuntimeError
              | Some (Some (kind, d)) =>
                  k ← encode_namespace ns;
                  if decide (kind = k) then Ok d else Throw RuntimeError
              end
          end
      end
  end.

(** ** What a device wraps, the user's other devices unwrap *)

Definition user_namespace (t : Namespace) : bool := is_ok (encode_namespace t).

Lemma full_privkey_seed seed :
  size_of seed = 32 -> full_privkey seed = Ok (ed_seed_keypair seed).2.
Proof. intros Hs. unfold full_privkey. by rewrite Hs. Qed.

Lemma seed_sk_size seed : size_of seed = 32 -> size_of (ed_seed_keypair seed).2 = 64.
Proof. intros Hs. rewrite ed_seed_sk, size_of_app, ed_seed_pk_size by done. lia. Qed.

Lemma full_privkey_sk seed :
  size_of seed = 32 -> full_privkey (ed_seed_keypair seed).2 = Ok (ed_seed_keypair seed).2.
Proof. intros Hs. unfold full_privkey. by rewrite seed_sk_size by done. Qed.

Lemma ed_sk_to_pk_seed seed :
  size_of seed = 32 -> ed_sk_to_pk (ed_seed_keypair seed).2 = (ed_seed_keypair seed).1.
Proof.
  intros Hs. unfold ed_sk_to_pk. rewrite ed_seed_sk by done.
  apply drop_app_length'. symmetry. by apply length_of_size.
Qed.

(** The full secret key can stand for its seed. *)
Lemma encrypt_full_sk seed pk message :
  size_of seed = 32 ->
  encrypt_for_recipient_deterministic (ed_seed_keypair seed).2 pk message =
  encrypt_for_recipient_deterministic seed pk message.
Proof.
  intros Hs. unfold encrypt_for_recipient_deterministic, sign_for_recipient.
  rewrite full_privkey_sk, full_privkey_seed by done.
  replace (take 32 (ed_seed_keypair seed).2) with (take 32 seed); [done|].
  apply (length_of_size _ 32) in Hs as Hl. rewrite (take_ge seed) by lia.
  rewrite ed_seed_sk by done. by rewrite take_app_length' by (by rewrite Hl).
Qed.

Lemma decrypt_full_sk seed c :
  size_of seed = 32 -> decrypt_incoming (ed_seed_keypair seed).2 c = decrypt_incoming seed c.
Proof. intros Hs. unfold decrypt_incoming. by rewrite full_privkey_sk, full_privkey_seed by done. Qed.

Lemma wrap_unwrap seed data seqno t :
  size_of seed = 32 -> user_namespace t = true ->
  exists c, wrap_config seed data seqno t = Ok c /\ unwrap_config seed c t = Ok data.
Proof.
  intros Hs Ht. unfold wrap_config, unwrap_config. rewrite full_privkey_seed by done.
  cbn [mbind res_bind]. rewrite ed_sk_to_pk_seed, ed_curve_keys by done. cbn [mbind res_bind].
  unfold user_namespace in Ht. destruct (encode_namespace t) as [kind|] eqn:Ek; [|done].
  replace (5 <? namespace_value t) with false by (by destruct t). cbn [throw_if mbind res_bind].
  rewrite encrypt_full_sk by done. fold (x_pubkey seed).
  set (content := Content_serialize kind seqno data ++ [PAD_BYTE]).
  destruct (deterministic_roundtrip seed seed content Hs Hs) as (c & -> & Hd).
  cbn [mbind res_bind]. eexists; split; [done|].
  rewrite WebSocket_roundtrip. cbn [negb throw_if mbind res_bind]. rewrite Envelope_roundtrip.
  rewrite decrypt_full_sk, Hd by done. cbn iota beta. rewrite (bool_decide_eq_true_2 (_.1 = _)) by done.
  cbn [negb throw_if mbind res_bind].
  rewrite (bool_decide_eq_false_2 (content = [])) by (unfold content; by destruct (Content_serialize _ _ _)).
  cbn [throw_if mbind res_bind]. unfold content. rewrite last_snoc.
  rewrite bool_decide_eq_true_2 by (by right). cbn [negb throw_if mbind res_bind].
  rewrite rev_app_distr. cbn [rev app unpad_rev].
  rewrite decide_False by done. rewrite decide_True by done.
  rewrite rev_involutive, Content_roundtrip. cbn [mbind res_bind]. by rewrite decide_True.
Qed.
End WithLibraries.
