(* ===== verification/Instances.v ===== *)
(** * Concrete libraries for the examples

    Simple functions that satisfy the interfaces of [ThirdParty] and [Protos] (they are not
    cryptographic): they show that the laws the development assumes can hold together, and let
    the examples run. *)
From S2P Require Import Prelude OMap Util Internal ThirdParty Protos.

Definition fit (n : nat) (s : bytes) : bytes := take n (s ++ replicate n char_nul).

Lemma fit_length n s : length (fit n s) = n.
Proof. unfold fit. rewrite length_take, length_app, length_replicate. lia. Qed.

Lemma fit_size n s : size_of (fit n s) = Z.of_nat n.
Proof. unfold size_of. by rewrite fit_length. Qed.

Lemma fit_exact n s : length s = n -> fit n s = s.
Proof. intros <-. unfold fit. by rewrite take_app_length. Qed.

(** A digest: the last bytes of the input come first. *)
#[refine] Definition toy_hash : Blake2b := {|
  generichash n key inp := fit (Z.to_nat n) (rev (key ++ inp))
|}.
Proof. intros n key inp Hn. rewrite fit_size. lia. Defined.

(** The tag is taken from the key, so a wrong key is refused. *)
Definition toy_tag (key : bytes) : bytes := fit 16 key.
#[refine] Definition toy_aead : Aead := {|
  aead_encrypt m nonce key := toy_tag key ++ m;
  aead_decrypt c nonce key :=
    if decide (take 16 c = toy_tag key) then Some (drop 16 c) else None
|}.
Proof.
  - intros. rewrite size_of_app. unfold toy_tag. rewrite fit_size. unfold XCHACHA_ABYTES. lia.
  - intros. assert (length (toy_tag k) = 16%nat) as Hl by apply fit_length.
    rewrite (take_app_length' _ _ 16), decide_True by done.
    by rewrite (drop_app_length' _ _ 16).
  - intros c n k m. destruct (decide _) as [E|]; [|done]. intros [= <-].
    assert (length (take 16 c) = 16%nat) as Hl by (rewrite E; apply fit_length).
    rewrite length_take in Hl. unfold size_of. rewrite length_drop. unfold XCHACHA_ABYTES. lia.
Defined.

#[refine] Definition toy_sign : Ed25519 := {|
  ed_seed_keypair seed := (rev seed, seed ++ rev seed);
  ed_sign data sk := fit 64 (drop 32 sk ++ data);
  ed_verify sig data pk := bool_decide (sig = fit 64 (pk ++ data))
|}.
Proof.
  - intros seed Hs. cbn. unfold size_of. by rewrite length_rev.
  - done.
  - intros. by rewrite fit_size.
  - intros data seed Hs. cbn [fst snd]. apply bool_decide_eq_true.
    assert (length seed = 32%nat) as Hl by (unfold size_of in Hs; lia).
    by rewrite (drop_app_length' _ _ 32).
Defined.

#[refine] Definition toy_box : @CryptoBox toy_hash toy_sign := {|
  ed_pk_to_curve25519 pk := Some (fit 32 (rev pk));
  ed_sk_to_curve25519 sk := take 32 sk;
  scalarmult_base sk := fit 32 sk;
  box_seed_keypair seed := (fit 32 seed, seed);
  box_easy m nonce pk sk := fit 16 pk ++ m;
  box_seal_open c pk sk := if decide (take 16 (drop 32 c) = fit 16 pk) then Some (drop 48 c) else None
|}.
Proof.
  - intros seed Hs. cbn [ed_seed_keypair toy_sign fst snd]. rewrite rev_involutive.
    assert (length seed = 32%nat) as Hl by (unfold size_of in Hs; lia).
    rewrite (take_app_length' seed _ 32) by done. done.
  - intros sk Hs. unfold size_of in *. rewrite length_take. lia.
  - intros. apply fit_size.
  - intros. apply fit_size.
  - intros. rewrite size_of_app, fit_size. lia.
  - intros m seed sk. cbn beta iota zeta.
    rewrite (drop_app_length' (fit 32 seed) _ 32) by (by rewrite fit_length).
    rewrite (take_app_length' (fit 16 _) _ 16) by (by rewrite fit_length).
    rewrite decide_True by done. rewrite app_assoc.
    by rewrite (drop_app_length' _ _ 48) by (by rewrite length_app, !fit_length).
Defined.

#[refine] Definition toy_zstd : Zstd := {|
  ZSTD_compress data level := "z"%char :: data;
  ZSTD_decompressStream data := match data with _ :: d => ([d], true) | [] => ([], false) end
|}.
Proof.
  - intros. split; [done|]. cbn. by rewrite app_nil_r.
  - done.
Defined.

(** A commutative combination of the two keys. *)
Definition mix (a b : bytes) : bytes :=
  zip_with (fun x y => byte_of (byte_val x + byte_val y)) (fit 32 a) (fit 32 b).

#[refine] Definition toy_exchange : @X25519 toy_hash toy_sign toy_box := {|
  x_scalarmult sk pk := Some (mix sk pk)
|}.
Proof.
  - intros a b. cbn [scalarmult_base toy_box]. f_equal. unfold mix.
    rewrite !(fit_exact 32 (fit 32 _)) by apply fit_length.
    generalize (fit 32 a), (fit 32 b). intros l1. induction l1 as [|x l1 IH]; intros [|y l2]; try done.
    cbn. rewrite IH. do 2 f_equal. lia.
  - intros a b. by eexists.
Defined.

#[refine] Definition toy_random : Randombytes := {|
  randombytes_deterministic n seed := fit (Z.to_nat n) seed
|}.
Proof. intros n seed Hn. rewrite fit_size. lia. Defined.

Definition kind_byte (k : Kind) : ascii :=
  match k with
  | USER_PROFILE => byte_of 1 | CONTACTS => byte_of 2 | CONVO_INFO_VOLATILE => byte_of 3
  | USER_GROUPS => byte_of 4
  end.
Definition kind_of_byte (c : ascii) : Kind :=
  if decide (c = byte_of 1) then USER_PROFILE else if decide (c = byte_of 2) then CONTACTS
  else if decide (c = byte_of 3) then CONVO_INFO_VOLATILE else USER_GROUPS.

#[refine] Definition toy_protobuf : Protobuf := {|
  Content_serialize k s d := kind_byte k :: d;
  Content_parse c := match c with k :: d => Some (Some (kind_of_byte k, d)) | [] => None end;
  Envelope_serialize c := c;
  Envelope_parse c := Some c;
  WebSocket_serialize b := b;
  WebSocket_parse b := Some (true, b)
|}.
Proof.
  - by intros [] s d.
  - done.
  - done.
Defined.

(** Hex as it is; the other encodings accept nothing. *)
Definition hex_digit (n : Z) : ascii := byte_of (if n <? 10 then 48 + n else 87 + n).
Definition hex_value (c : ascii) : option Z :=
  let v := byte_val c in
  if (48 <=? v) && (v <=? 57) then Some (v - 48)
  else if (97 <=? v) && (v <=? 102) then Some (v - 87)
  else if (65 <=? v) && (v <=? 70) then Some (v - 55)
  else None.
Definition hex_of (c : ascii) : bytes := [hex_digit (byte_val c / 16); hex_digit (byte_val c mod 16)].
Definition hex_encode (b : bytes) : bytes := concat (hex_of <$> b).
Fixpoint hex_valid (s : bytes) : bool :=
  match s with
  | [] => true
  | c :: c' :: s' =>
      match hex_value c, hex_value c' with Some _, Some _ => hex_valid s' | _, _ => false end
  | _ => false
  end.
Fixpoint hex_decode (s : bytes) : bytes :=
  match s with
  | c :: c' :: s' =>
      byte_of (16 * value_or (hex_value c) 0 + value_or (hex_value c') 0) :: hex_decode s'
  | _ => []
  end.

Lemma hex_value_digit n : 0 <= n < 16 -> hex_value (hex_digit n) = Some n.
Proof.
  intros Hn. unfold hex_value, hex_digit. destruct (Z.ltb_spec n 10).
  - rewrite byte_val_of by lia. rewrite (proj2 (Z.leb_le 48 _)), (proj2 (Z.leb_le _ 57)) by lia.
    cbn. f_equal. lia.
  - rewrite byte_val_of by lia. rewrite (proj2 (Z.leb_gt _ 57)) by lia. rewrite andb_false_r.
    rewrite (proj2 (Z.leb_le 97 _)), (proj2 (Z.leb_le _ 102)) by lia. cbn. f_equal. lia.
Qed.

Lemma hex_byte c :
  hex_value (hex_digit (byte_val c / 16)) = Some (byte_val c / 16) /\
  hex_value (hex_digit (byte_val c mod 16)) = Some (byte_val c mod 16).
Proof.
  pose proof (byte_val_range c). split; apply hex_value_digit.
  - split; [apply Z.div_pos; lia|apply Z.div_lt_upper_bound; lia].
  - apply Z.mod_pos_bound. lia.
Qed.

(** Induction by pairs of characters. *)
Lemma pair_ind (P : bytes -> Prop) :
  P [] -> (forall c, P [c]) -> (forall c c' s, P s -> P (c :: c' :: s)) -> forall s, P s.
Proof.
  intros Hn H1 H2 s. enough (P s /\ forall c, P (c :: s)) by naive_solver.
  induction s as [|c s [IH1 IH2]]; naive_solver.
Qed.

Lemma hex_valid_cons c c' s :
  hex_valid (c :: c' :: s) = true ->
  exists x y, hex_value c = Some x /\ hex_value c' = Some y /\ hex_valid s = true.
Proof. cbn. destruct (hex_value c), (hex_value c'); naive_solver. Qed.

Lemma hex_value_lower c x : hex_value c = Some x -> 0 <= x < 16 /\ hex_digit x = lower c.
Proof.
  unfold hex_value, hex_digit, lower. intros Hv.
  destruct ((48 <=? byte_val c) && (byte_val c <=? 57)) eqn:E1.
  { injection Hv as <-. bool_prop. rewrite (proj2 (Z.ltb_lt _ 10)) by lia.
    rewrite (proj2 (Z.leb_gt 65 _)) by lia. cbn. split; [lia|].
    replace (48 + (byte_val c - 48)) with (byte_val c) by lia. apply byte_of_val. }
  destruct ((97 <=? byte_val c) && (byte_val c <=? 102)) eqn:E2.
  { injection Hv as <-. bool_prop. rewrite (proj2 (Z.ltb_ge _ 10)) by lia.
    rewrite (proj2 (Z.leb_gt _ 90)) by lia. rewrite andb_false_r. split; [lia|].
    replace (87 + (byte_val c - 87)) with (byte_val c) by lia. apply byte_of_val. }
  destruct ((65 <=? byte_val c) && (byte_val c <=? 70)) eqn:E3; [|done].
  injection Hv as <-. bool_prop. rewrite (proj2 (Z.ltb_ge _ 10)) by lia.
  rewrite (proj2 (Z.leb_le 65 _)), (proj2 (Z.leb_le _ 90)) by lia. cbn. split; [lia|].
  f_equal. lia.
Qed.

#[refine] Definition hex_encodings : TextEncodings := {|
  is_hex := hex_valid;
  from_hex := hex_decode;
  to_hex := hex_encode;
  is_base64 _ := false;
  from_base64 s := s;
  to_base64 s := s;
  is_base32z _ := false;
  from_base32z s := s;
  to_base32z s := s
|}.
Proof.
  - induction b as [|c b IH]; [done|]. cbn. destruct (hex_byte c) as [-> ->]. apply IH.
  - induction b as [|c b IH]; [done|]. cbn. destruct (hex_byte c) as [-> ->]. cbn. f_equal; [|apply IH].
    rewrite <- Z.div_mod by lia. apply byte_of_val.
  - induction b as [|c b IH]; [done|]. unfold size_of, hex_encode in *. cbn. lia.
  - intros s. induction s as [|c|c c' s IH] using pair_ind; [done..|].
    intros (x & y & _ & _ & Hs)%hex_valid_cons. specialize (IH Hs). unfold size_of in *. cbn [hex_decode length]. lia.
  - intros s t. induction s as [|c|c c' s IH] using pair_ind; [done..|].
    intros (x & y & _ & _ & Hs)%hex_valid_cons Ht. cbn. by rewrite IH.
  - intros s n. revert n. induction s as [|c|c c' s IH] using pair_ind; intros n Hs Hn.
    + by destruct n.
    + done.
    + destruct n as [|[|n]]; [done..|]. apply hex_valid_cons in Hs as (x & y & _ & _ & Hs). by apply IH.
  - intros s. induction s as [|c|c c' s IH] using pair_ind; [done..|].
    intros (x & y & Hx & Hy & Hs)%hex_valid_cons. unfold hex_encode, make_lc in *. cbn. rewrite Hx, Hy. cbn.
    destruct (hex_value_lower _ _ Hx) as [Hx1 Hx2], (hex_value_lower _ _ Hy) as [Hy1 Hy2].
    rewrite byte_val_of by lia. rewrite (Z.mul_comm 16 x).
    rewrite Z.div_add_l, Z.div_small, Z.add_0_r by lia.
    rewrite (Z.add_comm (x * 16)), Z.mod_add, Z.mod_small by lia. rewrite Hx2, Hy2. by rewrite IH.
  - intros s c. induction s as [|x|x y s IH] using pair_ind; [by intros _ ?%not_elem_of_nil|done|].
    intros (v & w & Hx & Hy & Hs)%hex_valid_cons. unfold in_range.
    intros [->|[->|Hc]%elem_of_cons]%elem_of_cons; [| |by apply IH].
    + unfold hex_value in Hx. change (byte_val "0") with 48. change (byte_val "9") with 57.
      change (byte_val "a") with 97. change (byte_val "f") with 102. change (byte_val "A") with 65.
      change (byte_val "F") with 70. by destruct (_ && _), (_ && _), (_ && _).
    + unfold hex_value in Hy. change (byte_val "0") with 48. change (byte_val "9") with 57.
      change (byte_val "a") with 97. change (byte_val "f") with 102. change (byte_val "A") with 65.
      change (byte_val "F") with 70. by destruct (_ && _), (_ && _), (_ && _).
  - intros a b. unfold hex_encode. by rewrite ?fmap_app, ?concat_app, ?bind_app.
  - done.
  - done.
  - done.
  - done.
  - done.
  - done.
Defined.
