(* ===== verification/ConfigBase.v ===== *)
(** * The config object: state, dirtying, keys

    [ConfigBase] and [ConfigSig] of [include/session/config/base.hpp] and [src/config/base.cpp]:
    the object's state, [set_state] and [dirty], the encryption key list, the signing keys.
    An [std::unordered_set] of message hashes is a sorted list without duplicates (its iteration
    order, which C++ leaves open, is ascending here). *)
From S2P Require Import Prelude OMap BtValue ThirdParty ConfigData ConfigParse ConfigMessage.
From S2P Require Import Encrypt Protos.

(** [enum class ConfigState : int]; a dump may contain any other integer. *)
Inductive ConfigState := Clean | Dirty | Waiting | InvalidState (z : Z).
#[export] Instance ConfigState_eq_dec : EqDecision ConfigState.
Proof. solve_decision. Defined.

Definition state_value (s : ConfigState) : Z :=
  match s with Clean => 0 | Dirty => 1 | Waiting => 2 | InvalidState z => z end.
Definition state_of_value (z : Z) : ConfigState :=
  if z =? 0 then Clean else if z =? 1 then Dirty else if z =? 2 then Waiting else InvalidState z.

(** [PartialMessage], [PartialMessages]; times are milliseconds since the epoch. *)
Record PartialMessage := { pm_index : Z; pm_message_id : bytes; pm_data : bytes }.
Record PartialMessages := {
  pms_done : bool;
  pms_size : Z;
  pms_parts : list PartialMessage;
  pms_expiry : Z
}.
Definition no_parts : PartialMessages :=
  {| pms_done := false; pms_size := 0; pms_parts := []; pms_expiry := 0 |}.

(** [PartialMessages::finish(lifetime)] at time [now]. *)
Definition finish (now lifetime : Z) : PartialMessages :=
  {| pms_done := true; pms_size := 0; pms_parts := []; pms_expiry := now + lifetime |}.

Definition MULTIPART_MAX_WAIT : Z := 7 * 24 * 3600 * 1000.
Definition MULTIPART_MAX_REMEMBER : Z := 14 * 24 * 3600 * 1000.

(** The virtual functions a concrete config type overrides.  [keeps_extra]: the type stores extra
    data in its dumps. *)
Record ConfigType := {
  storage_namespace : Namespace;
  encryption_domain : bytes;
  compression_level : option Z;
  config_lags : Z;
  accepts_protobuf : bool;
  keeps_extra : bool
}.

(** The members of [ConfigBase] and of its base [ConfigSig].  [_extra] is what [extra_data] would
    write (always empty unless [keeps_extra]). *)
Record ConfigBase := {
  _config : ConfigMessage;
  _keys : list bytes;
  _state : ConfigState;
  _curr_hashes : list bytes;
  _old_hashes : list bytes;
  _multiparts : list (bytes * PartialMessages);
  _needs_dump : bool;
  _sign_sk : option bytes;
  _sign_pk : option bytes;
  _extra : bt_dict
}.

Definition set_config (b : ConfigBase) (c : ConfigMessage) : ConfigBase :=
  {| _config := c; _keys := _keys b; _state := _state b; _curr_hashes := _curr_hashes b;
     _old_hashes := _old_hashes b; _multiparts := _multiparts b; _needs_dump := _needs_dump b;
     _sign_sk := _sign_sk b; _sign_pk := _sign_pk b; _extra := _extra b |}.
Definition set_keys (b : ConfigBase) (k : list bytes) : ConfigBase :=
  {| _config := _config b; _keys := k; _state := _state b; _curr_hashes := _curr_hashes b;
     _old_hashes := _old_hashes b; _multiparts := _multiparts b; _needs_dump := _needs_dump b;
     _sign_sk := _sign_sk b; _sign_pk := _sign_pk b; _extra := _extra b |}.
Definition set_hashes (b : ConfigBase) (s : ConfigState) (curr old : list bytes) (nd : bool) :
    ConfigBase :=
  {| _config := _config b; _keys := _keys b; _state := s; _curr_hashes := curr;
     _old_hashes := old; _multiparts := _multiparts b; _needs_dump := nd;
     _sign_sk := _sign_sk b; _sign_pk := _sign_pk b; _extra := _extra b |}.
Definition set_multiparts (b : ConfigBase) (m : list (bytes * PartialMessages)) (nd : bool) :
    ConfigBase :=
  {| _config := _config b; _keys := _keys b; _state := _state b; _curr_hashes := _curr_hashes b;
     _old_hashes := _old_hashes b; _multiparts := m; _needs_dump := nd;
     _sign_sk := _sign_sk b; _sign_pk := _sign_pk b; _extra := _extra b |}.
Definition set_needs_dump (b : ConfigBase) (nd : bool) : ConfigBase :=
  set_hashes b (_state b) (_curr_hashes b) (_old_hashes b) nd.
Definition set_sign (b : ConfigBase) (c : ConfigMessage) (sk pk : option bytes) : ConfigBase :=
  {| _config := c; _keys := _keys b; _state := _state b; _curr_hashes := _curr_hashes b;
     _old_hashes := _old_hashes b; _multiparts := _multiparts b; _needs_dump := _needs_dump b;
     _sign_sk := sk; _sign_pk := pk; _extra := _extra b |}.

(** [unordered_set::insert] of a range. *)
Definition insert_all (l s : list bytes) : list bytes := foldr sinsert s l.

Definition is_dirty (b : ConfigBase) : bool := bool_decide (_state b = Dirty).
Definition is_clean (b : ConfigBase) : bool := bool_decide (_state b = Clean).
Definition needs_push (b : ConfigBase) : bool := negb (is_clean b).
Definition is_readonly (b : ConfigBase) : bool :=
  match verifier (_config b), signer (_config b) with Some _, None => true | _, _ => false end.

(** A state that is not valid is an assertion failure in a debug build. *)
Definition current_state_string (b : ConfigBase) : bytes :=
  match _state b with Clean => "clean" | Dirty => "DIRTY" | Waiting => "pending" | InvalidState _ => "<invalid-state>" end.
Definition curr_hashes (b : ConfigBase) : list bytes := _curr_hashes b.
Definition key_count (b : ConfigBase) : Z := size_of (_keys b).
Definition get_keys (b : ConfigBase) : list bytes := _keys b.
(** [key(i)]; an index that is too large is undefined. *)
Definition key_at (b : ConfigBase) (i : nat) : res bytes := match _keys b !! i with Some k => Ok k | None => Throw UB end.

Section WithLibraries.
Context `{Oxenc} `{Blake2b}.

(** ** State *)

Definition set_state (b : ConfigBase) (s : ConfigState) : res ConfigBase :=
  if bool_decide (s = Dirty) && is_readonly b then Throw RuntimeError
  else
    let '(curr, old) :=
      if bool_decide (_state b = Clean) && negb (is_nil (_curr_hashes b))
      then ([], insert_all (_curr_hashes b) (_old_hashes b))
      else (_curr_hashes b, _old_hashes b) in
    Ok (set_hashes b s curr old true).

(** [dirty()]: afterwards [_config] is the mutable message that is returned. *)
Definition dirty (b : ConfigBase) : res ConfigBase :=
  b ← (if bool_decide (_state b = Dirty) then Ok (set_needs_dump b true)
       else b ← set_state b Dirty;
            c ← increment (_config b);
            Ok (set_config b c));
  match orig_data_ (_config b) with Some _ => Ok b | None => Throw RuntimeError end.

(** ** Encryption keys *)

Definition has_key_unchecked (b : ConfigBase) (key : bytes) : bool :=
  existsb (fun k => bool_decide (k = key)) (_keys b).
Definition has_key (b : ConfigBase) (key : bytes) : res bool :=
  if size_of key =? 32 then Ok (has_key_unchecked b key) else Throw InvalidArgument.

Definition front_is (b : ConfigBase) (key : bytes) : bool :=
  match _keys b with k :: _ => bool_decide (k = key) | [] => false end.

(** [remove_key(key, from, dirty_config)]: (something was removed, the object). *)
Definition remove_key (b : ConfigBase) (key : bytes) (from : nat) (dirty_config : bool) :
    res (bool * ConfigBase) :=
  let starting_size := length (_keys b) in
  if (starting_size <=? from)%nat then Ok (false, b)
  else
    let dirty_config := dirty_config && negb (is_readonly b) && front_is b key in
    let b := set_keys b (take from (_keys b) ++
                         filter (fun k => k <> key) (drop from (_keys b))) in
    b ← (if dirty_config then dirty b else Ok b);
    Ok ((length (_keys b) <? starting_size)%nat, b).

Definition add_key (b : ConfigBase) (key : bytes) (high_priority dirty_config : bool) :
    res ConfigBase :=
  _ ← throw_if (negb (size_of key =? KEY_SIZE)) InvalidArgument;
  if front_is b key then Ok b
  else if negb high_priority && has_key_unchecked b key then Ok b
  else
    b ← (if high_priority then snd <$> remove_key b key 1 false else Ok b);
    let b := set_keys b (if high_priority then key :: _keys b else _keys b ++ [key]) in
    if dirty_config && negb (is_readonly b) && ((length (_keys b) =? 1)%nat || high_priority)
    then dirty b else Ok b.

Definition clear_keys (b : ConfigBase) (dirty_config : bool) : res (nat * ConfigBase) :=
  let ret := length (_keys b) in
  let b := set_keys b [] in
  b ← (if dirty_config && negb (is_readonly b) && (0 <? ret)%nat then dirty b else Ok b);
  Ok (ret, b).

Definition replace_keys (b : ConfigBase) (new_keys : list bytes) (dirty_config : bool) :
    res ConfigBase :=
  match new_keys with
  | [] => if is_nil (_keys b) then Ok b else snd <$> clear_keys b dirty_config
  | first :: _ =>
      _ ← throw_if (existsb (fun k => negb (size_of k =? KEY_SIZE)) new_keys) InvalidArgument;
      let dirty_config := dirty_config && negb (is_readonly b) && negb (front_is b first) in
      b ← foldM (fun b k => add_key b k false false) (set_keys b []) new_keys;
      if dirty_config then dirty b else Ok b
  end.

Definition load_key (b : ConfigBase) (ed25519_secretkey : bytes) : res ConfigBase :=
  if (size_of ed25519_secretkey =? 64) || (size_of ed25519_secretkey =? 32)
  then add_key b (take 32 ed25519_secretkey) true false
  else Throw InvalidArgument.

(** ** Signing keys ([ConfigSig]) *)
Context `{Ed25519}.

Definition ed_verifier (pk : bytes) : verify_callable := fun data sig => ed_verify sig data pk.
Definition ed_signer (sk : bytes) : sign_callable := fun data => ed_sign data sk.

Definition clear_sig_keys (b : ConfigBase) : ConfigBase :=
  set_sign b (with_callables (_config b) None None (lag (_config b))) None None.

Definition set_sig_keys (b : ConfigBase) (secret : bytes) : res ConfigBase :=
  if size_of secret =? 64 then
    let b := clear_sig_keys b in
    let pk := ed_sk_to_pk secret in
    Ok (set_sign b (with_callables (_config b) (Some (ed_verifier pk)) (Some (ed_signer secret))
                      (lag (_config b))) (Some secret) (Some pk))
  else Throw InvalidArgument.

Definition set_sig_pubkey (b : ConfigBase) (pubkey : bytes) : res ConfigBase :=
  if size_of pubkey =? 32 then
    Ok (set_sign b (with_callables (_config b) (Some (ed_verifier pubkey)) (signer (_config b))
                      (lag (_config b))) (_sign_sk b) (Some pubkey))
  else Throw InvalidArgument.

Definition init_sig_keys (b : ConfigBase) (pubkey secret : option bytes) : res ConfigBase :=
  match secret with
  | Some sk =>
      _ ← throw_if (match pubkey with
                    | Some pk => negb (bool_decide (pk = drop 32 sk))
                    | None => false
                    end) InvalidArgument;
      set_sig_keys b sk
  | None => match pubkey with
            | Some pk => set_sig_pubkey b pk
            | None => Ok (clear_sig_keys b)
            end
  end.

Definition seed_hash (b : ConfigBase) (key : bytes) : res bytes :=
  match _sign_sk b with
  | None => Throw RuntimeError
  | Some sk => Ok (generichash 32 (take 64 key) (take 32 sk))
  end.
End WithLibraries.
