(* ===== verification/BaseFacts.v ===== *)
(** * Facts about the config object's state and keys *)
From S2P Require Import Prelude OMap BtValue ThirdParty ConfigData ConfigDataFacts ConfigParse.
From S2P Require Import ConfigParseFacts ConfigMessage MessageFacts MergeFacts ReplayFacts.
From S2P Require Import ReplayFacts Encrypt Protos ConfigBase.

(** ** The key list *)

(** All keys are 32 bytes and no key is listed twice. *)
Definition keys_ok (ks : list bytes) : Prop := NoDup ks /\ Forall (fun k => size_of k = KEY_SIZE) ks.

(** The dirty state goes with a mutable message, and only a writable object is dirty. *)
Definition base_ok (b : ConfigBase) : Prop :=
  keys_ok (_keys b) /\ ssorted (_curr_hashes b) /\ ssorted (_old_hashes b) /\
  (_state b = Dirty -> is_readonly b = false /\ exists d, orig_data_ (_config b) = Some d).

Lemma insert_all_sorted l s : ssorted s -> ssorted (insert_all l s).
Proof. intros Hs. induction l; cbn; auto with session. Qed.

Lemma insert_all_In x l s : x ∈ insert_all l s <-> x ∈ l \/ x ∈ s.
Proof.
  induction l as [|y l IH]; cbn; [set_solver|]. rewrite sinsert_In, IH. set_solver.
Qed.

Section WithLibraries.
Context `{Oxenc} `{Blake2b}.

Lemma increment_impl_callables m m' :
  increment_impl m = Ok m' ->
  verifier m' = verifier m /\ signer m' = signer m /\ lag m' = lag m /\
  seqno m' = seqno m + 1 /\ data_ m' = data_ m /\ orig_data_ m' = Some (data_ m).
Proof.
  unfold increment_impl. intros Hi. res_step Hi. res_step Hi. res_step Hi. injection Hi as <-.
  unfold int64_add in E1. res_step E1. injection E1 as <-. done.
Qed.

Lemma diff_callables m d m' :
  diff m = Ok (d, m') ->
  verifier m' = verifier m /\ signer m' = signer m /\ lag m' = lag m /\ seqno m' = seqno m /\
  seqno_hash_ m' = seqno_hash_ m /\ orig_data_ m' = orig_data_ m /\ unmerged_ m' = unmerged_ m.
Proof.
  unfold diff. destruct (orig_data_ m) as [o|] eqn:Eo; [|by intros [= <- <-]].
  unfold prune. destruct (prune_dict _). intros Hd. res_step Hd. by injection Hd as <- <-.
Qed.

Lemma serialize_callables m e s m' :
  serialize m e = Ok (s, m') ->
  verifier m' = verifier m /\ signer m' = signer m /\ lag m' = lag m /\ seqno m' = seqno m /\
  orig_data_ m' = orig_data_ m.
Proof.
  unfold serialize. intros Hs. destruct (diff m) as [[d m1]|] eqn:E; [|done].
  res_step Hs. injection Hs as <- <-. apply diff_callables in E as (? & ? & ? & ? & ? & ? & ?). done.
Qed.

Lemma increment_callables m m' :
  increment m = Ok m' ->
  verifier m' = verifier m /\ signer m' = signer m /\ lag m' = lag m /\ seqno m' = seqno m + 1 /\
  exists d, orig_data_ m' = Some d.
Proof.
  unfold increment. destruct (orig_data_ m) as [o|] eqn:Eo.
  - destruct (hash m) as [[h m1]|] eqn:Eh; [|done]. unfold hash in Eh. rewrite Eo in Eh.
    destruct (serialize m true) as [[s m2]|] eqn:Es; [|done]. injection Eh as <- <-.
    apply serialize_callables in Es as (E1 & E2 & E3 & E4 & _).
    intros (? & ? & ? & ? & ? & ?)%increment_impl_callables. cbn in *.
    split_and!; try congruence. by eexists.
  - intros (? & ? & ? & ? & ? & ?)%increment_impl_callables. cbn in *. eauto 10.
Qed.

(** ** Dirtying *)

Lemma set_state_ok b s b' :
  set_state b s = Ok b' ->
  _state b' = s /\ _config b' = _config b /\ _keys b' = _keys b /\ _needs_dump b' = true /\
  (s = Dirty -> is_readonly b = false) /\
  (ssorted (_curr_hashes b) -> ssorted (_old_hashes b) ->
   ssorted (_curr_hashes b') /\ ssorted (_old_hashes b')).
Proof.
  unfold set_state. intros Hs.
  destruct (bool_decide (s = Dirty) && is_readonly b) eqn:Er; [done|].
  destruct (bool_decide (_state b = Clean) && negb (is_nil (_curr_hashes b))); injection Hs as <-;
    cbn; split_and!; try done.
  - intros ->. by rewrite bool_decide_eq_true_2 in Er.
  - intros ? ?. split; [constructor|by apply insert_all_sorted].
  - intros ->. by rewrite bool_decide_eq_true_2 in Er.
Qed.

Lemma dirty_inv b b' :
  dirty b = Ok b' ->
  _state b' = Dirty /\ _keys b' = _keys b /\ is_readonly b' = is_readonly b /\
  _needs_dump b' = true /\ (exists d, orig_data_ (_config b') = Some d) /\
  (if decide (_state b = Dirty) then _config b' = _config b
   else is_readonly b = false /\ seqno (_config b') = seqno (_config b) + 1).
Proof.
  unfold dirty. intros Hd. destruct (decide (_state b = Dirty)) as [Hs|Hs].
  - rewrite bool_decide_eq_true_2 in Hd by done. cbn in Hd.
    destruct (orig_data_ (_config b)) as [d|] eqn:Eo; [|done]. injection Hd as <-. cbn. eauto 10.
  - rewrite bool_decide_eq_false_2 in Hd by done. res_step Hd. res_step E. res_step E.
    injection E as <-. cbn in Hd.
    apply set_state_ok in E0 as (E2 & E3 & E4 & E5 & E6 & _).
    apply increment_callables in E1 as (V & S & _ & Q & d & O). rewrite O in Hd. injection Hd as <-.
    cbn. unfold is_readonly. cbn. rewrite V, S, E3 in *. rewrite Q.
    split_and!; try done; [by eexists|by apply E6].
Qed.

Lemma dirty_preserves b b' : base_ok b -> dirty b = Ok b' -> base_ok b'.
Proof.
  intros (Hk & Hc & Ho & Hd) Hb. pose proof (dirty_inv b b' Hb) as (Hs & Hks & Hro & _ & Hor & Hcase).
  assert (ssorted (_curr_hashes b') /\ ssorted (_old_hashes b')) as [? ?].
  { unfold dirty in Hb. res_step Hb. destruct (bool_decide (_state b = Dirty)).
    - injection E as <-. cbn in Hb. destruct (orig_data_ _); [|done]. injection Hb as <-. done.
    - res_step E. res_step E. injection E as <-. cbn in Hb. destruct (orig_data_ a1); [|done].
      injection Hb as <-. cbn. apply set_state_ok in E0 as (_ & _ & _ & _ & _ & Hss). by apply Hss. }
  unfold base_ok. rewrite Hks, Hro. split_and!; try done. intros _. split; [|done].
  destruct (decide (_state b = Dirty)) as [HD|]; [by apply Hd in HD as [? _]|by destruct Hcase].
Qed.

(** A read-only object refuses to become dirty. *)
Lemma dirty_readonly b :
  is_readonly b = true -> _state b <> Dirty -> dirty b = Throw RuntimeError.
Proof.
  intros Hr Hs. unfold dirty. rewrite bool_decide_eq_false_2 by done.
  unfold set_state. rewrite Hr. done.
Qed.

(** ** Adding and removing keys *)

Lemma front_is_spec b k : front_is b k = true <-> head (_keys b) = Some k.
Proof.
  unfold front_is. destruct (_keys b) as [|k0 ks]; cbn; [done|].
  rewrite bool_decide_eq_true. naive_solver.
Qed.

Lemma has_key_spec b k : has_key_unchecked b k = true <-> k ∈ _keys b.
Proof.
  unfold has_key_unchecked. rewrite existsb_exists. split.
  - intros (x & Hx & ->%bool_decide_eq_true). by apply list_elem_of_In.
  - intros Hk. exists k. split; [by apply list_elem_of_In|by apply bool_decide_eq_true].
Qed.

Lemma maybe_dirty_keys (c : bool) b b' :
  (if c then dirty b else Ok b) = Ok b' -> _keys b' = _keys b.
Proof. destruct c; [|by intros [= ->]]. by intros (_ & ? & _)%dirty_inv. Qed.

Lemma remove_key_keys b k from d r b' :
  remove_key b k from d = Ok (r, b') ->
  _keys b' = take from (_keys b) ++ filter (fun x => x <> k) (drop from (_keys b)) /\
  r = (length (_keys b') <? length (_keys b))%nat.
Proof.
  unfold remove_key. destruct (Nat.leb_spec (length (_keys b)) from) as [Hle|Hgt].
  - intros [= <- <-]. rewrite take_ge, drop_ge by done. rewrite app_nil_r. split; [done|].
    symmetry. apply Nat.ltb_ge. lia.
  - intros Hd. res_step Hd. injection Hd as <- <-. by apply maybe_dirty_keys in E as ->.
Qed.

Lemma add_key_keys b k hp d b' :
  add_key b k hp d = Ok b' ->
  size_of k = KEY_SIZE /\
  _keys b' =
    if front_is b k then _keys b
    else if hp then k :: take 1 (_keys b) ++ filter (fun x => x <> k) (drop 1 (_keys b))
    else if has_key_unchecked b k then _keys b else _keys b ++ [k].
Proof.
  unfold add_key. intros Ha. destruct (size_of k =? KEY_SIZE) eqn:Ek; [|done]. bool_prop.
  split; [done|]. cbn in Ha. destruct (front_is b k); [by injection Ha as <-|].
  destruct hp; cbn [negb andb] in Ha.
  - destruct (remove_key b k 1 false) as [[r b1]|] eqn:Er; [|done]. cbn in Ha.
    apply remove_key_keys in Er as [Er _]. apply maybe_dirty_keys in Ha as ->. cbn. by rewrite Er.
  - destruct (has_key_unchecked b k); [by injection Ha as <-|].
    by apply maybe_dirty_keys in Ha as ->.
Qed.

(** A high-priority key ends up first and stays unique; a low-priority key keeps its place. *)
Lemma add_key_ok b k hp d b' :
  keys_ok (_keys b) -> add_key b k hp d = Ok b' ->
  keys_ok (_keys b') /\ k ∈ _keys b' /\ (hp = true -> head (_keys b') = Some k) /\
  (hp = false -> _keys b <> [] -> head (_keys b') = head (_keys b)) /\
  (forall x, x ∈ _keys b' <-> x = k \/ x ∈ _keys b).
Proof.
  intros [Hnd Hf] Ha. apply add_key_keys in Ha as [Hk ->].
  destruct (front_is b k) eqn:Ef.
  { apply front_is_spec in Ef. destruct (_keys b) as [|k0 ks] eqn:E; [done|]. injection Ef as ->.
    rewrite <- E in *. split_and!; try done; rewrite E; [by left|done|set_solver]. }
  assert (head (_keys b) <> Some k) as Hh by (rewrite <- front_is_spec; by rewrite Ef).
  destruct hp.
  - set (rest := take 1 (_keys b) ++ _).
    assert (forall x, x ∈ rest <-> x ∈ _keys b /\ x <> k) as Hr.
    { intros x. unfold rest. rewrite elem_of_app, list_elem_of_filter.
      destruct (_keys b) as [|k0 ks]; [set_solver|]. cbn in Hh |- *.
      rewrite list_elem_of_singleton, elem_of_cons. naive_solver congruence. }
    split_and!; try done; [split|by left|].
    + constructor; [rewrite Hr; naive_solver|]. unfold rest.
      destruct (_keys b) as [|k0 ks]; [constructor|]. apply NoDup_cons in Hnd as [Hn Hnd].
      cbn. constructor; [intros [_ ?]%list_elem_of_filter; done|by apply NoDup_filter].
    + constructor; [done|]. rewrite Forall_forall in *. intros x [Hx _]%Hr. auto.
    + intros x. rewrite elem_of_cons, Hr. destruct (decide (x = k)); naive_solver.
  - destruct (has_key_unchecked b k) eqn:Eh.
    + apply has_key_spec in Eh. split_and!; try done. set_solver.
    + assert (k ∉ _keys b) as Hn by (rewrite <- has_key_spec; by rewrite Eh).
      split_and!; try done; [split|..].
      * apply NoDup_app. split_and!; [done|set_solver|repeat constructor; set_solver].
      * apply Forall_app. split; [done|by repeat constructor].
      * set_solver.
      * intros _ Hne. by destruct (_keys b).
      * set_solver.
Qed.

Lemma remove_key_ok b k from d r b' :
  keys_ok (_keys b) -> remove_key b k from d = Ok (r, b') ->
  keys_ok (_keys b') /\
  (from = 0%nat -> k ∉ _keys b' /\ forall x, x <> k -> x ∈ _keys b' <-> x ∈ _keys b) /\
  (r = true <-> k ∈ drop from (_keys b)).
Proof.
  intros [Hnd Hf] Hr. apply remove_key_keys in Hr as [Hks ->].
  pose proof (take_drop from (_keys b)) as Htd. set (pre := take from (_keys b)) in *.
  set (suf := drop from (_keys b)) in *.
  assert (forall x, x ∈ _keys b <-> x ∈ pre \/ x ∈ suf) as Hin by (intros; rewrite <- Htd; set_solver).
  split_and!; try (rewrite Hks).
  - rewrite <- Htd in Hnd. apply NoDup_app in Hnd as (N1 & N2 & N3). split.
    + apply NoDup_app. split_and!; [done| |by apply NoDup_filter].
      intros x Hx [_ ?]%list_elem_of_filter. by apply (N2 x).
    + rewrite <- Htd in Hf. apply Forall_app in Hf as [? ?]. apply Forall_app. split; [done|].
      by apply Forall_filter_sub.
  - intros ->. unfold pre, suf. cbn. setoid_rewrite list_elem_of_filter. naive_solver.
  - rewrite Nat.ltb_lt, <- Htd, !length_app. split.
    + intros Hlt. destruct (decide (k ∈ suf)) as [|Hn]; [done|]. exfalso.
      assert (filter (fun x => x <> k) suf = suf) as E; [|rewrite E in Hlt; lia].
      clear -Hn. induction suf as [|x suf IH]; [done|]. rewrite filter_cons.
      rewrite decide_True by set_solver. f_equal. apply IH. set_solver.
    + intros Hk. enough (length (filter (fun x => x <> k) suf) < length suf)%nat by lia.
      clear -Hk. induction suf as [|x suf IH]; [by apply not_elem_of_nil in Hk|].
      rewrite filter_cons. pose proof (length_filter (fun x => x <> k) suf).
      case_decide; cbn; [|lia]. apply elem_of_cons in Hk as [->|Hk]; [done|].
      specialize (IH Hk). lia.
Qed.
End WithLibraries.
