(* ===== verification/DictField.v ===== *)
(** * Access to the data of a config object

    [ConfigBase::DictFieldProxy] of [include/session/config/base.hpp] (how a typed config reads
    and changes its dict) and the helpers of [src/config/internal.cpp] that use it. *)
From S2P Require Import Prelude OMap BtValue ThirdParty ConfigData ConfigParse ConfigMessage.
From S2P Require Import Encrypt Protos ConfigBase.

(** Equality of data ([operator==] of the variants). *)
Definition dict_value_eq_dec_ : forall x y : dict_value, {x = y} + {x <> y}.
Proof.
  fix IH 1. intros [d|s|s] [d'|s'|s']; try (right; discriminate).
  - assert (forall a b : bytes * dict_value, {a = b} + {a <> b}) as IHp.
    { intros [k v] [k' v']. destruct (decide (k = k')) as [->|]; [|right; congruence].
      destruct (IH v v') as [->|]; [by left | right; congruence]. }
    destruct (list_eq_dec (dec := IHp) d d') as [->|]; [by left | right; congruence].
  - destruct (decide (s = s')) as [->|]; [by left | right; congruence].
  - destruct (decide (s = s')) as [->|]; [by left | right; congruence].
Defined.
#[export] Instance dict_value_eq_dec : EqDecision dict_value := dict_value_eq_dec_.

(** A path to a field: the keys of the dicts on the way, and the last key. *)
Record DictFieldProxy := { _inter_keys : list bytes; _last_key : bytes }.

(** [data[key]] and [proxy[subkey]] *)
Definition root_field (key : bytes) : DictFieldProxy := {| _inter_keys := []; _last_key := key |}.
Definition sub_field (f : DictFieldProxy) (subkey : bytes) : DictFieldProxy :=
  {| _inter_keys := _inter_keys f ++ [_last_key f]; _last_key := subkey |}.

(** The dict that holds the last key, if every key on the way is there and is a dict. *)
Fixpoint find_dict (keys : list bytes) (data : dict) : option dict :=
  match keys with
  | [] => Some data
  | k :: keys' => match mfind k data with Some (VDict d) => find_dict keys' d | _ => None end
  end.

(** [get_clean()]: the value at the path, without changing anything. *)
Definition get_clean (b : ConfigBase) (f : DictFieldProxy) : option dict_value :=
  match find_dict (_inter_keys f) (data_ (_config b)) with
  | Some d => mfind (_last_key f) d
  | None => None
  end.

(** The typed versions. *)
Definition get_scalar (v : option dict_value) : option scalar :=
  match v with Some (VScalar x) => Some x | _ => None end.
Definition get_string (b : ConfigBase) (f : DictFieldProxy) : option bytes :=
  match get_scalar (get_clean b f) with Some (SStr s) => Some s | _ => None end.
Definition get_integer (b : ConfigBase) (f : DictFieldProxy) : option Z :=
  match get_scalar (get_clean b f) with Some (SInt z) => Some z | _ => None end.
Definition get_set (b : ConfigBase) (f : DictFieldProxy) : option cset :=
  match get_clean b f with Some (VSet s) => Some s | _ => None end.
Definition get_dict (b : ConfigBase) (f : DictFieldProxy) : option dict :=
  match get_clean b f with Some (VDict d) => Some d | _ => None end.
Definition string_or (b : ConfigBase) (f : DictFieldProxy) (fallback : bytes) : bytes :=
  value_or (get_string b f) fallback.
Definition integer_or (b : ConfigBase) (f : DictFieldProxy) (fallback : Z) : Z :=
  value_or (get_integer b f) fallback.
Definition exists_field (b : ConfigBase) (f : DictFieldProxy) : bool :=
  match get_clean b f with Some _ => true | None => false end.

(** [get_dirty()] followed by a change of the value: the dicts on the way are created (a new
    element is an empty dict, the first alternative of the variant), other values in the way are
    replaced by empty dicts. *)
Fixpoint update_path (keys : list bytes) (last : bytes) (change : dict_value -> dict_value)
    (data : dict) : dict :=
  match keys with
  | [] => minsert last (change (value_or (mfind last data) (VDict []))) data
  | k :: keys' => minsert k (VDict (update_path keys' last change (as_subdict (mfind k data)))) data
  end.

(** The path is followed but nothing is created; [change] acts on the dict with the last key. *)
Fixpoint update_existing (keys : list bytes) (change : dict -> dict) (data : dict) : dict :=
  match keys with
  | [] => change data
  | k :: keys' =>
      match mfind k data with
      | Some (VDict d) => minsert k (VDict (update_existing keys' change d)) data
      | _ => data
      end
  end.

Definition set_data (b : ConfigBase) (d : dict) : ConfigBase :=
  set_config b (with_data (_config b) d).

Definition is_empty_container (v : dict_value) : bool :=
  match v with VDict [] | VSet [] => true | _ => false end.

Section WithLibraries.
Context `{Oxenc} `{Blake2b}.

(** [erase()] *)
Definition erase_field (b : ConfigBase) (f : DictFieldProxy) : res ConfigBase :=
  if negb (is_dirty b) && negb (exists_field b f) then Ok b
  else
    b ← dirty b;
    Ok (set_data b (update_existing (_inter_keys f) (merase (_last_key f)) (data_ (_config b)))).

(** [assign_if_changed(value)], all of the assignment operators. *)
Definition assign (b : ConfigBase) (f : DictFieldProxy) (value : dict_value) : res ConfigBase :=
  if is_empty_container value then erase_field b f
  else if negb (is_dirty b) && bool_decide (get_clean b f = Some value) then Ok b
  else
    b ← dirty b;
    Ok (set_data b (update_path (_inter_keys f) (_last_key f) (fun _ => value) (data_ (_config b)))).

(** [emplace<T>(args...)]: the value is put in place in any case. *)
Definition emplace (b : ConfigBase) (f : DictFieldProxy) (value : dict_value) : res ConfigBase :=
  b ← dirty b;
  Ok (set_data b (update_path (_inter_keys f) (_last_key f) (fun _ => value) (data_ (_config b)))).

(** [insert_if_missing(value)], [set_insert] *)
Definition set_insert (b : ConfigBase) (f : DictFieldProxy) (value : scalar) : res ConfigBase :=
  if negb (is_dirty b) && (match get_set b f with Some s => smem value s | None => false end)
  then Ok b
  else
    b ← dirty b;
    Ok (set_data b (update_path (_inter_keys f) (_last_key f)
                      (fun v => VSet (sinsert value (as_subset (Some v)))) (data_ (_config b)))).

(** [set_erase_impl(value)], [set_erase] *)
Definition set_erase (b : ConfigBase) (f : DictFieldProxy) (value : scalar) : res ConfigBase :=
  if negb (is_dirty b) && (match get_set b f with Some s => negb (smem value s) | None => false end)
  then Ok b
  else
    b ← dirty b;
    Ok (set_data b
          (update_existing (_inter_keys f)
             (fun d => match mfind (_last_key f) d with
                       | None => d
                       | Some (VSet s) => minsert (_last_key f) (VSet (serase value s)) d
                       | Some _ => minsert (_last_key f) (VSet []) d
                       end) (data_ (_config b)))).

(** ** Helpers of [src/config/internal.cpp] *)

Definition set_int (b : ConfigBase) (f : DictFieldProxy) (val : Z) : res ConfigBase :=
  assign b f (VScalar (SInt val)).
Definition set_str (b : ConfigBase) (f : DictFieldProxy) (val : bytes) : res ConfigBase :=
  assign b f (VScalar (SStr val)).
Definition set_flag (b : ConfigBase) (f : DictFieldProxy) (val : bool) : res ConfigBase :=
  if val then set_int b f 1 else erase_field b f.
Definition set_positive_int (b : ConfigBase) (f : DictFieldProxy) (val : Z) : res ConfigBase :=
  if 0 <? val then set_int b f val else erase_field b f.
Definition set_nonzero_int (b : ConfigBase) (f : DictFieldProxy) (val : Z) : res ConfigBase :=
  if negb (val =? 0) then set_int b f val else erase_field b f.
Definition set_nonempty_str (b : ConfigBase) (f : DictFieldProxy) (val : bytes) : res ConfigBase :=
  if is_nil val then erase_field b f else set_str b f val.

(** [set_pair_if(condition, f1, v1, f2, v2)] of [internal.hpp], for string values. *)
Definition set_pair_if (b : ConfigBase) (condition : bool) (f1 : DictFieldProxy) (v1 : dict_value)
    (f2 : DictFieldProxy) (v2 : dict_value) : res ConfigBase :=
  if condition then b ← assign b f1 v1; assign b f2 v2
  else b ← erase_field b f1; erase_field b f2.
End WithLibraries.

(** [maybe_int], [maybe_string] (also [maybe_sv], [maybe_vector]) and [maybe_set]. *)
Definition maybe_int (d : dict) (key : bytes) : option Z :=
  match mfind key d with Some (VScalar (SInt z)) => Some z | _ => None end.
Definition maybe_string (d : dict) (key : bytes) : option bytes :=
  match mfind key d with Some (VScalar (SStr s)) => Some s | _ => None end.
Definition maybe_set (d : dict) (key : bytes) : option cset :=
  match mfind key d with Some (VSet s) => Some s | _ => None end.
