(* ===== verification/DictFieldFacts.v ===== *)
(** * Facts about fields of the config data *)
From S2P Require Import Prelude OMap BtValue ThirdParty ConfigData ConfigDataFacts ConfigParse.
From S2P Require Import ConfigParseFacts ConfigMessage MessageFacts MergeFacts ReplayFacts.
From S2P Require Import ReplayFacts Encrypt Protos ConfigBase BaseFacts DictField.

(** The keys of a field's path, and paths that part at some key. *)
Definition path (f : DictFieldProxy) : list bytes := _inter_keys f ++ [_last_key f].
Fixpoint diverge (p q : list bytes) : bool :=
  match p, q with
  | k :: p', k' :: q' => if keqb k k' then diverge p' q' else true
  | _, _ => false
  end.

Definition data_of (b : ConfigBase) : dict := data_ (_config b).

Lemma value_at_cons k p d :
  value_at (k :: p) (VDict d) = match mfind k d with Some v => value_at p v | None => None end.
Proof. done. Qed.

Lemma find_dict_value ks last d :
  match find_dict ks d with Some d' => mfind last d' | None => None end =
  value_at (ks ++ [last]) (VDict d).
Proof.
  revert d; induction ks as [|k ks IH]; intros d; cbn [find_dict app].
  - rewrite value_at_cons. by destruct (mfind last d).
  - rewrite value_at_cons. destruct (mfind k d) as [[d'|s|s]|]; [apply IH| | |done];
      by destruct ks.
Qed.

Lemma get_clean_value b f : get_clean b f = value_at (path f) (VDict (data_of b)).
Proof. apply find_dict_value. Qed.

(** ** Updates along a path *)

Lemma update_path_same ks last change d :
  exists v, value_at (ks ++ [last]) (VDict (update_path ks last change d)) = Some (change v) /\
    (match value_at (ks ++ [last]) (VDict d) with Some w => v = w | None => v = VDict [] end).
Proof.
  revert d; induction ks as [|k ks IH]; intros d; cbn [update_path app]; rewrite !value_at_cons.
  - rewrite mfind_minsert_eq. eexists. split; [done|]. by destruct (mfind last d).
  - rewrite mfind_minsert_eq. destruct (IH (as_subdict (mfind k d))) as (v & -> & Hv).
    exists v. split; [done|]. destruct (mfind k d) as [[d'|s|s]|]; cbn [as_subdict] in Hv; try done;
      by destruct ks.
Qed.

Lemma value_at_not_dict k q v :
  value_at (k :: q) (VDict (as_subdict (Some v))) = value_at (k :: q) v.
Proof. by destruct v. Qed.

Lemma update_path_other ks last change d q :
  diverge (ks ++ [last]) q = true ->
  value_at q (VDict (update_path ks last change d)) = value_at q (VDict d).
Proof.
  revert d q; induction ks as [|k ks IH]; intros d [|k' q] Hq; try done; cbn [app diverge] in Hq;
    cbn [update_path]; rewrite !value_at_cons.
  - destruct (keqb_spec last k') as [->|Hne]; [done|]. by rewrite mfind_minsert_ne by done.
  - destruct (keqb_spec k k') as [->|Hne]; [|by rewrite mfind_minsert_ne by done].
    rewrite mfind_minsert_eq, IH by done. destruct q as [|k2 q]; [by destruct ks|].
    destruct (mfind k' d) as [v|]; [by rewrite value_at_not_dict|done].
Qed.

Lemma update_path_wf ks last change d :
  (forall v, wf_value v -> wf_value (change v)) -> wf_dict d -> wf_dict (update_path ks last change d).
Proof.
  intros Hc. revert d; induction ks as [|k ks IH]; intros d Hd; cbn [update_path].
  - apply wf_dict_insert; [done|]. apply Hc. destruct (mfind last d) eqn:E; cbn.
    + by eapply wf_dict_find.
    + split; [constructor|done].
  - apply wf_dict_insert; [done|]. apply wf_VDict, IH.
    destruct (mfind k d) as [[d'|s|s]|] eqn:E; cbn; try apply wf_dict_nil.
    apply wf_VDict. by eapply wf_dict_find.
Qed.

(** The changes that [update_existing] makes here: to the last key only. *)
Definition only_key (last : bytes) (change : dict -> dict) : Prop :=
  forall d k, k <> last -> mfind k (change d) = mfind k d.

Lemma update_existing_same ks last change d :
  wf_dict d ->
  value_at (ks ++ [last]) (VDict (update_existing ks change d)) =
  match find_dict ks d with Some d' => mfind last (change d') | None => None end.
Proof.
  revert d; induction ks as [|k ks IH]; intros d Hd; cbn [update_existing app find_dict].
  - rewrite value_at_cons. by destruct (mfind last (change d)).
  - destruct (mfind k d) as [[d'|s|s]|] eqn:E; rewrite value_at_cons;
      rewrite ?mfind_minsert_eq, ?E; [|by destruct ks|by destruct ks|done].
    apply IH. apply wf_VDict. by eapply wf_dict_find.
Qed.

Lemma update_existing_other ks last change d q :
  only_key last change -> wf_dict d -> diverge (ks ++ [last]) q = true ->
  value_at q (VDict (update_existing ks change d)) = value_at q (VDict d).
Proof.
  intros Ho. revert d q; induction ks as [|k ks IH]; intros d [|k' q] Hd Hq; try done;
    cbn [app diverge] in Hq; cbn [update_existing].
  - rewrite !value_at_cons. destruct (keqb_spec last k') as [->|Hne]; [done|].
    by rewrite Ho.
  - destruct (mfind k d) as [[d'|s|s]|] eqn:E; try done. rewrite !value_at_cons.
    destruct (keqb_spec k k') as [<-|Hne]; [|by rewrite mfind_minsert_ne by done].
    rewrite mfind_minsert_eq, E. apply IH; [|done]. apply wf_VDict. by eapply wf_dict_find.
Qed.

Lemma update_existing_wf ks change d :
  (forall d, wf_dict d -> wf_dict (change d)) -> wf_dict d -> wf_dict (update_existing ks change d).
Proof.
  intros Hc. revert d; induction ks as [|k ks IH]; intros d Hd; cbn [update_existing]; [auto|].
  destruct (mfind k d) as [[d'|s|s]|] eqn:E; try done.
  apply wf_dict_insert; [done|]. apply wf_VDict, IH, wf_VDict. by eapply wf_dict_find.
Qed.

(** ** Dirtying keeps what can be observed *)
Definition same_data (b b' : ConfigBase) : Prop :=
  forall ob q, observe_at ob q (data_of b') = observe_at ob q (data_of b).

Section WithLibraries.
Context `{Oxenc} `{Blake2b}.

Lemma increment_data m m' :
  increment m = Ok m' -> data_ m' = data_ m \/ data_ m' = (prune_dict (data_ m)).2.
Proof.
  unfold increment. destruct (orig_data_ m) as [o|] eqn:Eo.
  - intros Hi. unfold hash, serialize, diff, prune in Hi. rewrite Eo in Hi.
    destruct (prune_dict (data_ m)) as [c d] eqn:Ep. cbn [data_ with_signature] in Hi. rewrite Ep in Hi.
    destruct (diff_impl o _) as [df|]; [|done]. cbn [mbind res_bind] in Hi.
    destruct (serialize_impl _ _ _); [|done]. cbn [mbind res_bind] in Hi.
    apply increment_impl_callables in Hi as (_ & _ & _ & _ & -> & _). by right.
  - intros (_ & _ & _ & _ & -> & _)%increment_impl_callables. by left.
Qed.

Lemma dirty_data b b' :
  dirty b = Ok b' -> wf_dict (data_of b) -> wf_dict (data_of b') /\ same_data b b'.
Proof.
  intros Hd Hw. unfold dirty in Hd. destruct (bool_decide (_state b = Dirty)).
  - cbn in Hd. destruct (orig_data_ _); [|done]. by injection Hd as <-.
  - res_step Hd. res_step E. res_step E. injection E as <-. cbn in Hd.
    destruct (orig_data_ _); [|done]. injection Hd as <-.
    apply set_state_ok in E0 as (_ & E0 & _). rewrite E0 in E1. unfold same_data, data_of in *. cbn.
    destruct (increment_data _ _ E1) as [->| ->]; [done|].
    split; [by apply prune_dict_good|]. intros ob q. by apply prune_dict_observed.
Qed.

(** The object can be changed. *)
Definition writable (b : ConfigBase) : Prop := exists b', dirty b = Ok b'.

Definition frame (f : DictFieldProxy) (b b' : ConfigBase) : Prop :=
  forall ob q, diverge (path f) q = true ->
    observe_at ob q (data_of b') = observe_at ob q (data_of b).

Lemma frame_refl f b : frame f b b.
Proof. by intros ob q _. Qed.

Lemma frame_update f b b0 d :
  same_data b b0 ->
  (forall q, diverge (path f) q = true -> value_at q (VDict d) = value_at q (VDict (data_of b0))) ->
  frame f b (set_data b0 d).
Proof. intros Hs Hu ob q Hq. rewrite <- Hs. unfold observe_at. by rewrite <- Hu. Qed.

(** After an operation the object was dirtied and its data edited, or nothing was changed. *)
Definition touched (b b' : ConfigBase) : Prop :=
  b' = b \/ exists b0 d, dirty b = Ok b0 /\ b' = set_data b0 d.

Lemma touched_set_data b b0 d : dirty b = Ok b0 -> touched b (set_data b0 d).
Proof. intros Hd. right. by exists b0, d. Qed.

Lemma touched_writable b b' : touched b b' -> writable b -> writable b'.
Proof.
  intros [->|(b0 & d & Hd & ->)] Hw; [done|].
  destruct (dirty_inv _ _ Hd) as (Hs & _ & _ & _ & [o Ho] & _). unfold writable, dirty, is_dirty.
  cbn. rewrite bool_decide_eq_true_2 by done. cbn. rewrite Ho. by eexists.
Qed.

(** ** The operations *)

Lemma erase_field_ok b f :
  writable b -> wf_dict (data_of b) ->
  exists b', erase_field b f = Ok b' /\ get_clean b' f = None /\ wf_dict (data_of b') /\
    frame f b b' /\ touched b b'.
Proof.
  intros [b0 Hd] Hw. unfold erase_field. destruct (negb (is_dirty b) && negb (exists_field b f)) eqn:E.
  - apply andb_true_iff in E as [_ E]. exists b. split; [done|]. split.
    { unfold exists_field in E. by destruct (get_clean b f). }
    split; [done|]. split; [apply frame_refl|by left].
  - rewrite Hd. cbn [mbind res_bind]. destruct (dirty_data _ _ Hd Hw) as [Hw0 Hs].
    eexists. split; [done|]. split.
    { rewrite get_clean_value. unfold path. cbn -[value_at update_existing]. unfold data_of. cbn -[value_at update_existing].
      rewrite update_existing_same by done. destruct (find_dict _ _); [|done]. apply mfind_merase_eq. }
    split; [apply update_existing_wf; [|done]; intros; by apply wf_dict_erase|].
    split; [|by apply touched_set_data]. apply frame_update; [done|]. intros q Hq.
    apply (update_existing_other _ (_last_key f)); [|done|done]. intros d k Hk. by apply mfind_merase_ne.
Qed.

Lemma assign_ok b f v :
  writable b -> wf_dict (data_of b) -> wf_value v -> is_empty_container v = false ->
  exists b', assign b f v = Ok b' /\ get_clean b' f = Some v /\ wf_dict (data_of b') /\
    frame f b b' /\ touched b b'.
Proof.
  intros [b0 Hd] Hw Hv He. unfold assign. rewrite He.
  destruct (negb (is_dirty b) && bool_decide (get_clean b f = Some v)) eqn:E.
  - apply andb_true_iff in E as [_ E%bool_decide_eq_true]. exists b.
    split_and!; try done. by left.
  - rewrite Hd. cbn [mbind res_bind]. destruct (dirty_data _ _ Hd Hw) as [Hw0 Hs].
    eexists. split; [done|]. split.
    { rewrite get_clean_value. unfold path, data_of. cbn -[value_at update_path].
      by destruct (update_path_same (_inter_keys f) (_last_key f) (fun _ => v) (data_ (_config b0)))
        as (? & -> & _). }
    split; [by apply update_path_wf|]. split; [|by apply touched_set_data].
    apply frame_update; [done|]. intros q Hq. by apply update_path_other.
Qed.

Lemma assign_same b f v :
  is_dirty b = false -> is_empty_container v = false -> get_clean b f = Some v -> assign b f v = Ok b.
Proof.
  intros Hd He Hg. unfold assign. rewrite He, Hd. cbn. by rewrite bool_decide_eq_true_2.
Qed.

(** ** Sets *)

Lemma observe_member y v :
  observe (OMember y) v = (if smem y (as_subset v) then Some y else None).
Proof. by destruct v as [[d|s|s]|]. Qed.

Lemma observe_member_at b f y :
  observe_at (OMember y) (path f) (data_of b) =
  if smem y (as_subset (get_clean b f)) then Some y else None.
Proof. unfold observe_at. rewrite <- get_clean_value. apply observe_member. Qed.

Lemma wf_subset b f : wf_dict (data_of b) -> wf_value (VSet (as_subset (get_clean b f))).
Proof.
  intros Hw. assert (wf_opt (get_clean b f)) as Ho; [|by apply wf_opt_subset].
  unfold get_clean. destruct (find_dict _ _) as [d|] eqn:E; [|done]. apply wf_opt_find.
  revert E Hw. unfold data_of. generalize (data_ (_config b)).
  induction (_inter_keys f) as [|k ks IH]; intros d0 E Hw; cbn in E; [by injection E as ->|].
  destruct (mfind k d0) as [[d1|s|s]|] eqn:Ek; try done. eapply IH; [done|].
  apply wf_VDict. by eapply wf_dict_find.
Qed.

(** The members at the field, given those of a set. *)
Lemma member_eq {A} `{Ordered A} (y : A) s s' : (y ∈ s <-> y ∈ s') -> smem y s = smem y s'.
Proof.
  intros He. destruct (smem y s) eqn:E1, (smem y s') eqn:E2; try done.
  - apply smem_In, He, smem_In in E1. congruence.
  - apply smem_In, He, smem_In in E2. congruence.
Qed.

Lemma set_insert_ok b f x :
  writable b -> wf_dict (data_of b) -> wf_scalar x ->
  exists b' s, set_insert b f x = Ok b' /\ get_set b' f = Some s /\ wf_dict (data_of b') /\
    (forall y, y ∈ s <-> y = x \/ y ∈ as_subset (get_clean b f)) /\ frame f b b' /\ touched b b'.
Proof.
  intros [b0 Hd] Hw Hx. unfold set_insert.
  destruct (negb (is_dirty b) && match get_set b f with Some s => smem x s | None => false end) eqn:E.
  - apply andb_true_iff in E as [_ E]. unfold get_set in E.
    destruct (get_clean b f) as [[d|s|s]|] eqn:Eg; try done. apply smem_In in E.
    exists b, s. unfold get_set. rewrite Eg. split_and!; try done; [|by left].
    intros y. cbn. naive_solver.
  - rewrite Hd. cbn [mbind res_bind]. destruct (dirty_data _ _ Hd Hw) as [Hw0 Hs].
    destruct (update_path_same (_inter_keys f) (_last_key f)
      (fun v => VSet (sinsert x (as_subset (Some v)))) (data_of b0)) as (v & Hv & Hc).
    pose proof (get_clean_value b0 f) as Hg. unfold path in Hg. rewrite <- Hg in Hc.
    set (b' := set_data b0 _). exists b', (sinsert x (as_subset (get_clean b0 f))).
    split; [done|]. split.
    { unfold get_set. rewrite get_clean_value. unfold path, data_of, b'. cbn -[value_at update_path as_subset sinsert].
      unfold data_of in Hv. rewrite Hv. destruct (get_clean b0 f); by subst. }
    split. { apply update_path_wf; [|done]. intros w Hwv. cbn.
             destruct (wf_opt_subset (Some w) Hwv) as [Hs1 Hs2].
             split; [by apply ssorted_sinsert|by apply sinsert_Forall]. }
    split. { intros y. rewrite sinsert_In. apply or_iff_compat_l.
             specialize (Hs (OMember y) (path f)). rewrite !observe_member_at in Hs.
             rewrite <- !smem_In. destruct (smem y _), (smem y _); naive_solver. }
    split; [|by apply touched_set_data]. apply frame_update; [done|]. intros q Hq.
    by apply update_path_other.
Qed.

(** What [set_erase] does to the dict that holds the set. *)
Definition erase_member (last : bytes) (x : scalar) (d : dict) : dict :=
  match mfind last d with
  | None => d
  | Some (VSet s) => minsert last (VSet (serase x s)) d
  | Some _ => minsert last (VSet []) d
  end.

Lemma erase_member_wf last x d : wf_dict d -> wf_dict (erase_member last x d).
Proof.
  intros Hd. unfold erase_member. destruct (mfind last d) as [[d'|s|s]|] eqn:E; [| | |done];
    apply wf_dict_insert; try done; try by repeat constructor.
  destruct (wf_dict_find _ _ _ Hd E) as [Hs1 Hs2]. split; [by apply ssorted_serase|].
  rewrite Forall_forall in *. intros y [_ Hy]%serase_In. auto.
Qed.

Lemma erase_member_find last x d :
  as_subset (mfind last (erase_member last x d)) = serase x (as_subset (mfind last d)).
Proof.
  unfold erase_member. destruct (mfind last d) as [[d'|s|s]|] eqn:E; rewrite ?mfind_minsert_eq; try done.
  by rewrite E.
Qed.

Lemma set_erase_ok b f x :
  writable b -> wf_dict (data_of b) ->
  exists b', set_erase b f x = Ok b' /\ wf_dict (data_of b') /\
    (forall y, y ∈ as_subset (get_clean b' f) <-> y <> x /\ y ∈ as_subset (get_clean b f)) /\
    frame f b b' /\ touched b b'.
Proof.
  intros [b0 Hd] Hw. unfold set_erase.
  destruct (negb (is_dirty b) && match get_set b f with Some s => negb (smem x s) | None => false end) eqn:E.
  - apply andb_true_iff in E as [_ E]. unfold get_set in E.
    destruct (get_clean b f) as [[d|s|s]|] eqn:Eg; try done. exists b. rewrite Eg.
    split_and!; try done; [|by left]. intros y. cbn. apply negb_true_iff in E.
    assert (x ∉ s) by (intros Hx%smem_In; congruence). naive_solver.
  - rewrite Hd. cbn [mbind res_bind]. destruct (dirty_data _ _ Hd Hw) as [Hw0 Hs].
    eexists. split; [done|]. split; [apply update_existing_wf; [apply erase_member_wf|done]|].
    split. { intros y. rewrite get_clean_value. unfold path, data_of. cbn -[value_at update_existing].
             rewrite update_existing_same by done.
             specialize (Hs (OMember y) (path f)). rewrite !observe_member_at in Hs.
             rewrite <- (smem_In y (as_subset (get_clean b f))).
             assert (smem y (as_subset (get_clean b f)) = smem y (as_subset (get_clean b0 f))) as ->.
             { destruct (smem y _), (smem y _); naive_solver. }
             unfold get_clean. destruct (find_dict _ _) as [d|]; cbn; [|set_solver].
             fold (erase_member (_last_key f) x d). by rewrite erase_member_find, serase_In, smem_In. }
    split; [|by apply touched_set_data]. apply frame_update; [done|]. intros q Hq.
    apply (update_existing_other _ (_last_key f)); [|done|done]. intros d k Hk.
    fold (erase_member (_last_key f) x). unfold erase_member.
    destruct (mfind (_last_key f) d) as [[d'|s|s]|]; rewrite ?mfind_minsert_ne; done.
Qed.

(** Erasing from a set that is not there still makes a new version of the config. *)
Lemma set_erase_absent b f x b0 :
  is_dirty b = false -> get_clean b f = None -> dirty b = Ok b0 ->
  exists b', set_erase b f x = Ok b' /\ _state b' = Dirty /\ seqno (_config b') = seqno (_config b) + 1.
Proof.
  intros Hn Hg Hd. unfold set_erase, get_set. rewrite Hn, Hg, Hd. cbn [negb andb mbind res_bind].
  eexists. split; [done|]. destruct (dirty_inv _ _ Hd) as (Hs & _ & _ & _ & _ & Hq).
  split; [done|]. unfold is_dirty in Hn. apply bool_decide_eq_false in Hn.
  rewrite decide_False in Hq by done. by destruct Hq.
Qed.

(** ** Several writes into one dict

    A typed config stores a record as the scalars of a dict: a list of writes of the fields, each
    a scalar or nothing. *)
Definition write_scalar (b : ConfigBase) (f : DictFieldProxy) (o : option scalar) : res ConfigBase :=
  match o with Some x => assign b f (VScalar x) | None => erase_field b f end.

Definition writes (b : ConfigBase) (info : DictFieldProxy) (l : list (bytes * option scalar)) :
    res ConfigBase :=
  foldM (fun b kv => write_scalar b (sub_field info kv.1) kv.2) b l.

(** The scalar at a field. *)
Definition field_scalar (b : ConfigBase) (f : DictFieldProxy) : option scalar :=
  get_scalar (get_clean b f).

Lemma field_scalar_observe b f : field_scalar b f = observe_at OScalar (path f) (data_of b).
Proof.
  unfold field_scalar, observe_at. rewrite <- get_clean_value. by destruct (get_clean b f) as [[]|].
Qed.

Lemma sub_field_path f k : path (sub_field f k) = path f ++ [k].
Proof. done. Qed.

Lemma diverge_app p q k : diverge p q = true -> diverge (p ++ [k]) q = true.
Proof.
  revert q; induction p as [|x p IH]; intros [|y q] Hd; try done. cbn in *.
  destruct (keqb x y); auto.
Qed.

Lemma diverge_siblings p k k' : k <> k' -> diverge (p ++ [k]) (p ++ [k']) = true.
Proof.
  intros Hk. induction p as [|x p IH]; cbn; [by rewrite (proj2 (keqb_neq _ _) Hk)|].
  by rewrite keqb_refl.
Qed.

Lemma write_scalar_ok b f o :
  writable b -> wf_dict (data_of b) -> from_option wf_scalar True o ->
  exists b', write_scalar b f o = Ok b' /\ field_scalar b' f = o /\ wf_dict (data_of b') /\
    writable b' /\ frame f b b'.
Proof.
  intros Hw Hd Ho. unfold field_scalar. destruct o as [x|]; cbn [write_scalar].
  - destruct (assign_ok b f (VScalar x)) as (b' & Ha & Hg & Hwf & Hf & Ht); [done..|].
    exists b'. rewrite Hg. split_and!; try done. by eapply touched_writable.
  - destruct (erase_field_ok b f) as (b' & Ha & Hg & Hwf & Hf & Ht); [done..|].
    exists b'. rewrite Hg. split_and!; try done. by eapply touched_writable.
Qed.

Lemma writes_ok info l b :
  writable b -> wf_dict (data_of b) -> NoDup l.*1 ->
  Forall (fun kv => from_option wf_scalar True kv.2) l ->
  exists b', writes b info l = Ok b' /\ wf_dict (data_of b') /\ writable b' /\ frame info b b' /\
    (forall k o, (k, o) ∈ l -> field_scalar b' (sub_field info k) = o) /\
    (forall k, k ∉ l.*1 -> field_scalar b' (sub_field info k) = field_scalar b (sub_field info k)).
Proof.
  intros Hw Hd Hn Hf. revert b Hw Hd. induction Hf as [|[k o] l Ho _ IH]; intros b Hw Hd.
  { exists b. split_and!; try done. by intros k o ?%not_elem_of_nil. }
  apply NoDup_cons in Hn as [Hk Hn].
  destruct (write_scalar_ok b (sub_field info k) o) as (b1 & E1 & Hs1 & Hd1 & Hw1 & Hf1); [done..|].
  destruct (IH Hn b1 Hw1 Hd1) as (b' & E' & Hd' & Hw' & Hf' & Hin & Hout).
  exists b'. unfold writes in *. cbn [foldM fst snd]. rewrite E1. cbn [mbind res_bind].
  split_and!; try done.
  - intros ob q Hq. rewrite Hf' by done. apply Hf1. rewrite sub_field_path. by apply diverge_app.
  - intros k' o' [[= -> ->]|Hin']%elem_of_cons; [|by apply Hin]. by rewrite Hout.
  - intros k' [Hne Hk']%not_elem_of_cons. rewrite Hout by done. rewrite !field_scalar_observe.
    apply Hf1. rewrite !sub_field_path. by apply diverge_siblings.
Qed.

(** Reading the record back: its dict is there if a field is, and its fields are those written. *)
Lemma value_at_app p q v :
  value_at (p ++ q) v = match value_at p v with Some w => value_at q w | None => None end.
Proof.
  revert v; induction p as [|k p IH]; intros v; [done|]. destruct v as [d|s|s]; [|done..].
  cbn [app]. rewrite !value_at_cons. by destruct (mfind k d).
Qed.

Lemma field_scalar_sub b info k d :
  get_dict b info = Some d -> field_scalar b (sub_field info k) = get_scalar (mfind k d).
Proof.
  unfold get_dict, field_scalar. rewrite !get_clean_value, sub_field_path, value_at_app.
  destruct (value_at (path info) _) as [[d'|s|s]|]; try done. intros [= ->].
  rewrite value_at_cons. by destruct (mfind k d).
Qed.

Lemma get_dict_field b info k x :
  field_scalar b (sub_field info k) = Some x -> exists d, get_dict b info = Some d.
Proof.
  unfold get_dict, field_scalar. rewrite !get_clean_value, sub_field_path, value_at_app.
  destruct (value_at (path info) _) as [[d'|s|s]|]; try done. by eexists.
Qed.

Lemma maybe_int_scalar d k :
  maybe_int d k = match get_scalar (mfind k d) with Some (SInt z) => Some z | _ => None end.
Proof. unfold maybe_int. by destruct (mfind k d) as [[?|?|[]]|]. Qed.
Lemma maybe_string_scalar d k :
  maybe_string d k = match get_scalar (mfind k d) with Some (SStr s) => Some s | _ => None end.
Proof. unfold maybe_string. by destruct (mfind k d) as [[?|?|[]]|]. Qed.
End WithLibraries.
