(* ===== verification/Multipart.v ===== *)
(** * Multipart config messages

    [zstd_compress] / [zstd_decompress] of [src/config/internal.cpp], [_handle_multipart],
    [_expire_multiparts], [_dump_multiparts], [_load_multiparts] and the splitting of [push] of
    [src/config/base.cpp]. *)
From S2P Require Import Prelude OMap BtValue ThirdParty ConfigData ConfigParse ConfigMessage.
From S2P Require Import Encrypt Protos ConfigBase.

Definition MAX_MESSAGE_SIZE : Z := 76800.
Definition MAX_MULTIPART_SIZE : Z := 5000000.

Section WithLibraries.
Context `{Oxenc} `{Blake2b} `{Aead} `{Zstd}.

(** ** Compression *)

Definition zstd_compress (data : bytes) (level : Z) (prefix : bytes) : bytes :=
  prefix ++ ZSTD_compress data level.

(** The streaming loop: what each call outputs is appended, unless it would exceed [max_size]. *)
Fixpoint zstd_append (max_size : Z) (decompressed : bytes) (outputs : list bytes) : option bytes :=
  match outputs with
  | [] => Some decompressed
  | o :: outputs' =>
      if (0 <? max_size) && (max_size <? size_of decompressed + size_of o) then None
      else zstd_append max_size (decompressed ++ o) outputs'
  end.
Definition zstd_decompress (data : bytes) (max_size : Z) : option bytes :=
  let '(outputs, success) := ZSTD_decompressStream data in
  r ← zstd_append max_size [] outputs;
  if success then Some r else None.

Definition compress_message (msg : bytes) (level : Z) : bytes :=
  if level =? 0 then msg
  else
    let compressed := zstd_compress msg level "z" in
    if size_of compressed <? size_of msg then compressed else msg.

(** ** Receiving *)

(** The fields of one part: (final hash, index, number of parts, data). *)
Definition parse_part (message : bytes) : res (bytes * Z * Z * bytes) :=
  if MAX_MESSAGE_SIZE <? size_of message then Throw RuntimeError
  else
    match bt_list_parse (tail message) with
    | None => Throw BtInvalid
    | Some (elems, complete) =>
        match elems with
        | BStr h :: rest =>
            if negb (size_of h =? HASH_SIZE) then Throw RuntimeError else
            match rest with
            | BStr index_bytes :: BStr size_bytes :: rest =>
                match index_bytes, size_bytes with
                | [ib], [sb] =>
                    let index := byte_val ib in
                    let num_parts := byte_val sb in
                    if (num_parts <=? 1) || (num_parts <=? index) then Throw RuntimeError else
                    match rest with
                    | BStr data :: rest =>
                        if is_nil data then Throw RuntimeError
                        else if is_nil rest && complete then Ok (h, index, num_parts, data)
                        else Throw RuntimeError
                    | _ => Throw BtInvalid
                    end
                | _, _ => Throw RuntimeError
                end
            | _ => Throw BtInvalid
            end
        | _ => Throw BtInvalid
        end
    end.

(** The place of a new part, or [None] if there already is one with its index. *)
Fixpoint insert_part (p : PartialMessage) (parts : list PartialMessage) :
    option (list PartialMessage) :=
  match parts with
  | [] => Some [p]
  | q :: parts' =>
      if pm_index q <? pm_index p then (q ::.) <$> insert_part p parts'
      else if pm_index q =? pm_index p then None
      else Some (p :: parts)
  end.

Definition recombine (parts : list PartialMessage) : bytes := concat (pm_data <$> parts).

(** Decoding of the recombined message, after its hash has been checked. *)
Definition decode_recombined (recombined : bytes) : res bytes :=
  let r := strip_padding recombined in
  r ← (if bool_decide (head r = Some "z"%char) then
         match zstd_decompress (tail r) 0 with
         | Some d => if is_nil d then Throw RuntimeError else Ok d
         | None => Throw RuntimeError
         end
       else Ok r);
  if bool_decide (head r = Some "d"%char) then Ok r else Throw RuntimeError.

(** [_handle_multipart]: (accepted, completed message, the object).  An exception is caught and
    reported as "not accepted"; what was stored before it stays. *)
Definition handle_multipart (now : Z) (b : ConfigBase) (msg_id message : bytes) :
    bool * option (list bytes * bytes) * ConfigBase :=
  match parse_part message with
  | Throw _ => (false, None, b)
  | Ok (final_hash, index, num_parts, data) =>
      let parts := value_or (mfind final_hash (_multiparts b)) no_parts in
      let store p nd := set_multiparts b (minsert final_hash p (_multiparts b)) nd in
      if pms_done parts then (true, None, store parts (_needs_dump b))
      else if negb (is_nil (pms_parts parts)) && negb (num_parts =? pms_size parts)
      then (false, None, store parts (_needs_dump b))
      else
        let size := if is_nil (pms_parts parts) then num_parts else pms_size parts in
        let with_parts l e := {| pms_done := false; pms_size := size; pms_parts := l;
                                 pms_expiry := e |} in
        match insert_part {| pm_index := index; pm_message_id := msg_id; pm_data := data |}
                (pms_parts parts) with
        | None => (true, None, store (with_parts (pms_parts parts) (pms_expiry parts))
                                 (_needs_dump b))
        | Some l =>
            if size_of l =? size then
              let recombined := recombine l in
              if bool_decide (generichash 32 [] recombined = final_hash) then
                let b := store (finish now MULTIPART_MAX_REMEMBER) true in
                match decode_recombined recombined with
                | Ok r => (true, Some (pm_message_id <$> l, r), b)
                | Throw _ => (false, None, b)
                end
              else (false, None, store (with_parts l (pms_expiry parts)) true)
            else (true, None, store (with_parts l (now + MULTIPART_MAX_WAIT)) true)
        end
  end.

Definition expire_multiparts (now : Z) (b : ConfigBase) : ConfigBase :=
  set_multiparts b (filter (fun e => now <= pms_expiry e.2) (_multiparts b)) (_needs_dump b).

(** ** Dumping *)

Definition dump_part (p : PartialMessage) : bt_value :=
  BDict [(bs "#", BInt (pm_index p)); (bs "M", BStr (pm_message_id p)); (bs "d", BStr (pm_data p))].
Definition dump_parts (p : PartialMessages) : bt_value :=
  BDict ([(bs "#", BInt (if pms_done p then 0 else pms_size p)); (bs "T", BInt (pms_expiry p))] ++
         (if pms_done p then [] else [(bs "p", BList (dump_part <$> pms_parts p))])).
Definition dump_multiparts (now : Z) (b : ConfigBase) : bt_dict :=
  (fun e => (e.1, dump_parts e.2)) <$> filter (fun e => now <= pms_expiry e.2) (_multiparts b).

(** [require<T>(key)]: skips to the key, which must be there. *)
Definition require (key : bytes) (d : bt_dict) : res (bt_value * bt_dict) :=
  match snd (skip_pairs key d) with
  | (k, v) :: rest => if keqb k key then Ok (v, rest) else Throw RuntimeError
  | [] => Throw RuntimeError
  end.
Definition as_int32 (v : bt_value) : res Z :=
  match v with
  | BInt z => if (- 2 ^ 31 <=? z) && (z <? 2 ^ 31) then Ok z else Throw BtInvalid
  | _ => Throw BtInvalid
  end.

Definition load_part (v : bt_value) : res PartialMessage :=
  pd ← as_dict v;
  match pd with
  | (_, i) :: (_, m) :: (_, c) :: _ =>
      index ← as_int32 i; msgid ← as_string m; chunk ← as_string c;
      Ok {| pm_index := index; pm_message_id := msgid; pm_data := chunk |}
  | _ => Throw BtInvalid
  end.

(** One entry of the dumped dict: [None] if it is skipped.  [done] keeps its initial value. *)
Definition load_parts (now : Z) (k : bytes) (v : bt_value) : res (option PartialMessages) :=
  pdata ← as_dict v;
  if negb (size_of k =? HASH_SIZE) then Ok None
  else
    let! (v1, pdata) := require "#" pdata in
    size ← as_int32 v1;
    let! (v2, pdata) := require "T" pdata in
    exp ← as_int64 v2;
    if exp <? now then Ok None
    else
      parts ← (if 0 <? size then
                 let! (v3, _) := require "p" pdata in
                 l ← as_list v3;
                 foldM (fun ps x => p ← load_part x; Ok (ps ++ [p])) [] l
               else Ok []);
      Ok (Some {| pms_done := false; pms_size := size; pms_parts := parts; pms_expiry := exp |}).

Definition load_multiparts (now : Z) (multi : bt_dict)
    (m : list (bytes * PartialMessages)) : res (list (bytes * PartialMessages)) :=
  foldM (fun m kv => o ← load_parts now kv.1 kv.2;
                     Ok (match o with Some p => minsert kv.1 p m | None => m end)) m multi.

(** ** Sending *)

Definition ENCODE_OVERHEAD : Z := 1 + 2 + 3 + 32 + 2 + 1 + 2 + 1 + 6.
Definition MAX_CHUNK_SIZE : Z := MAX_MESSAGE_SIZE - ENCODE_OVERHEAD - ENCRYPT_DATA_OVERHEAD.

(** One part before encryption: a buffer of [chunk.size() + ENCODE_OVERHEAD] zero bytes into which
    ['m'] and the list are written. *)
Definition encode_part (final_hash : bytes) (index num_parts : Z) (chunk : bytes) : res bytes :=
  let lp := bt_list_print [BStr final_hash; BStr [byte_of index]; BStr [byte_of num_parts];
                           BStr chunk] in
  let size := size_of chunk + ENCODE_OVERHEAD in
  if size - 1 <? size_of lp then Throw LengthError
  else Ok ("m"%char :: lp ++ replicate (Z.to_nat (size - 1 - size_of lp)) char_nul).

(** The loop over what remains; the index is a [uint8_t]. *)
Fixpoint split_parts (fuel : nat) (final_hash : bytes) (index num_parts : Z) (remaining : bytes) :
    res (list bytes) :=
  match fuel with
  | O => Throw OutOfFuel
  | S fuel =>
      if is_nil remaining then Ok []
      else
        let n := Z.to_nat (Z.min MAX_CHUNK_SIZE (size_of remaining)) in
        out ← encode_part final_hash index num_parts (take n remaining);
        rest ← split_parts fuel final_hash ((index + 1) mod 256) num_parts (drop n remaining);
        Ok (out :: rest)
  end.
Definition num_parts_of (msg : bytes) : Z :=
  ((size_of msg + MAX_CHUNK_SIZE - 1) / MAX_CHUNK_SIZE) mod 256.
Definition multipart_parts (msg : bytes) : res (list bytes) :=
  split_parts (S (length msg)) (generichash 32 [] msg) 0 (num_parts_of msg) msg.
End WithLibraries.
