(* ===== verification/MultipartFacts.v ===== *)
(** * Facts about multipart messages

    Splitting gives parts that fit a storage server message and that the receiver can read; the
    receiver reassembles the message from the parts in whatever order they arrive. *)
From S2P Require Import Prelude OMap BtValue ThirdParty ConfigData ConfigDataFacts ConfigParse.
From S2P Require Import ConfigMessage Encrypt Protos ConfigBase Multipart.

(** The data of the parts. *)
Fixpoint chunk_list (fuel : nat) (remaining : bytes) : list bytes :=
  match fuel with
  | O => []
  | S fuel =>
      if is_nil remaining then []
      else
        let n := Z.to_nat (Z.min MAX_CHUNK_SIZE (size_of remaining)) in
        take n remaining :: chunk_list fuel (drop n remaining)
  end.
Definition chunks (msg : bytes) : list bytes := chunk_list (S (length msg)) msg.

(** The part with its index, as the receiver stores it. *)
Definition part_at (ids : nat -> bytes) (i : nat) (chunk : bytes) : PartialMessage :=
  {| pm_index := Z.of_nat i; pm_message_id := ids i; pm_data := chunk |}.

Section WithLibraries.
Context `{Oxenc} `{Blake2b} `{Aead} `{Zstd}.

(** ** Splitting *)

Lemma encode_part_ok h i n chunk :
  size_of h = 32 -> size_of chunk <= MAX_CHUNK_SIZE ->
  exists out, encode_part h i n chunk = Ok out /\
    size_of out = size_of chunk + ENCODE_OVERHEAD /\
    exists junk, tail out = bt_list_print [BStr h; BStr [byte_of i]; BStr [byte_of n]; BStr chunk] ++ junk.
Proof.
  intros Hh Hc. unfold encode_part.
  pose proof (bt_list_print_size [h; [byte_of i]; [byte_of n]; chunk]) as Hp.
  cbn [fmap list_fmap foldr] in Hp. set (lp := bt_list_print _) in *.
  change (size_of [byte_of i]) with 1 in Hp. change (size_of [byte_of n]) with 1 in Hp. rewrite Hh in Hp.
  cbn [Z.ltb Z.compare Pos.compare Pos.compare_cont] in Hp.
  unfold MAX_CHUNK_SIZE, MAX_MESSAGE_SIZE, ENCODE_OVERHEAD, ENCRYPT_DATA_OVERHEAD in *.
  assert (size_of lp <= size_of chunk + 49) as Hl.
  { assert (size_of lp <= 2 + (35 + (3 + (3 + ((if size_of chunk <? 10 then 2 else
      if size_of chunk <? 100 then 3 else 6) + size_of chunk + 0))))) as Hx.
    { apply Hp. repeat constructor; change (size_of [_]) with 1; lia. }
    destruct (size_of chunk <? 10), (size_of chunk <? 100); lia. }
  rewrite (proj2 (Z.ltb_ge _ _)) by lia. eexists; split; [done|]. split.
  - change (?c :: ?x ++ ?y) with ([c] ++ (x ++ y)). rewrite !size_of_app.
    change (size_of ["m"%char]) with 1. unfold size_of at 2. rewrite length_replicate. lia.
  - cbn [tail]. by eexists.
Qed.

Lemma parse_part_ok h i n chunk out :
  size_of h = 32 -> 0 < size_of chunk <= MAX_CHUNK_SIZE -> 0 <= i < n -> 1 < n < 256 ->
  encode_part h i n chunk = Ok out -> parse_part out = Ok (h, i, n, chunk).
Proof.
  intros Hh Hc Hi Hn He. destruct (encode_part_ok h i n chunk) as (out' & He' & Hs & junk & Ht); [done|lia|].
  rewrite He in He'. injection He' as <-. unfold parse_part. rewrite Hs, Ht.
  unfold MAX_CHUNK_SIZE, MAX_MESSAGE_SIZE, ENCODE_OVERHEAD, ENCRYPT_DATA_OVERHEAD in *.
  rewrite (proj2 (Z.ltb_ge _ _)) by lia. rewrite bt_list_parse_print by repeat constructor.
  rewrite Hh. cbn [Z.eqb Pos.eqb negb HASH_SIZE]. rewrite !byte_val_of by lia.
  rewrite (proj2 (Z.leb_gt n 1)), (proj2 (Z.leb_gt n i)) by lia. cbn [orb].
  destruct chunk; [change (size_of []) with 0 in Hc; lia|]. done.
Qed.

(** Every part comes out as [encode_part] of its chunk and index. *)
Lemma split_parts_spec fuel h idx n remaining :
  size_of h = 32 -> (length remaining < fuel)%nat ->
  0 <= idx -> idx + Z.of_nat (length (chunk_list fuel remaining)) <= 256 ->
  exists outs, split_parts fuel h idx n remaining = Ok outs /\
    Forall2 (fun p out => encode_part h p.1 n p.2 = Ok out)
      (imap (fun i c => (idx + Z.of_nat i, c)) (chunk_list fuel remaining)) outs.
Proof.
  intros Hh. revert idx remaining; induction fuel as [|fuel IH]; intros idx remaining Hf Hi Hb; [lia|].
  cbn [split_parts chunk_list] in *. destruct remaining as [|c0 rem]; [by exists []|].
  cbn [is_nil] in *. set (remaining := c0 :: rem) in *.
  set (k := Z.to_nat (Z.min MAX_CHUNK_SIZE (size_of remaining))) in *.
  assert (0 < k <= length remaining)%nat as Hk.
  { unfold k, size_of, MAX_CHUNK_SIZE, MAX_MESSAGE_SIZE, ENCODE_OVERHEAD, ENCRYPT_DATA_OVERHEAD.
    cbn [length remaining]. lia. }
  destruct (encode_part_ok h idx n (take k remaining)) as (out & Ho & _); [done| |].
  { unfold size_of. rewrite length_take. unfold k, size_of. lia. }
  rewrite Ho. cbn [mbind res_bind]. cbn [length] in Hb.
  destruct (IH ((idx + 1) mod 256) (drop k remaining)) as (outs & Hs & Hf2).
  { rewrite length_drop. lia. }
  { apply Z.mod_pos_bound. lia. }
  { destruct (Z.eq_dec idx 255) as [->|]; [|rewrite Z.mod_small by lia; lia].
    change ((255 + 1) mod 256) with 0. lia. }
  rewrite Hs. cbn [mbind res_bind]. eexists; split; [done|]. cbn [imap].
  constructor; [cbn; by rewrite Z.add_0_r|].
  destruct (decide (chunk_list fuel (drop k remaining) = [])) as [E|Hne].
  { rewrite E in *. by apply Forall2_nil_inv_l in Hf2 as ->. }
  assert (idx + 1 < 256). { destruct (chunk_list fuel (drop k remaining)); [done|]. cbn in Hb. lia. }
  rewrite Z.mod_small in Hf2 by lia.
  erewrite imap_ext; [exact Hf2|]. intros i x _. cbn. f_equal. lia.
Qed.

Lemma chunk_list_concat fuel remaining :
  (length remaining < fuel)%nat -> concat (chunk_list fuel remaining) = remaining.
Proof.
  revert remaining; induction fuel as [|fuel IH]; intros remaining Hf; [lia|]. cbn [chunk_list].
  destruct remaining as [|c0 rem]; [done|]. cbn [is_nil concat]. set (remaining := c0 :: rem) in *.
  rewrite IH; [apply take_drop|]. rewrite length_drop.
  unfold size_of, MAX_CHUNK_SIZE, MAX_MESSAGE_SIZE, ENCODE_OVERHEAD, ENCRYPT_DATA_OVERHEAD.
  cbn [length remaining] in *. lia.
Qed.

Lemma chunk_list_sizes fuel remaining :
  Forall (fun c => 0 < size_of c <= MAX_CHUNK_SIZE) (chunk_list fuel remaining).
Proof.
  revert remaining; induction fuel as [|fuel IH]; intros remaining; [constructor|]. cbn [chunk_list].
  destruct remaining as [|c0 rem]; [constructor|]. cbn [is_nil]. constructor; [|apply IH].
  unfold size_of, MAX_CHUNK_SIZE, MAX_MESSAGE_SIZE, ENCODE_OVERHEAD, ENCRYPT_DATA_OVERHEAD.
  rewrite length_take. cbn [length]. lia.
Qed.

Lemma chunk_list_count fuel remaining :
  (length remaining < fuel)%nat ->
  Z.of_nat (length (chunk_list fuel remaining)) =
    (size_of remaining + MAX_CHUNK_SIZE - 1) / MAX_CHUNK_SIZE.
Proof.
  revert remaining; induction fuel as [|fuel IH]; intros remaining Hf; [lia|]. cbn [chunk_list].
  assert (MAX_CHUNK_SIZE = 76710) as HM by done.
  destruct remaining as [|c0 rem]; [done|]. cbn [is_nil]. set (remaining := c0 :: rem) in *.
  assert (0 < size_of remaining) by (unfold size_of; cbn; lia).
  set (k := Z.to_nat (Z.min MAX_CHUNK_SIZE (size_of remaining))).
  cbn [length]. rewrite Nat2Z.inj_succ, IH.
  2: { rewrite length_drop. unfold k, size_of in *. cbn [length remaining] in *. lia. }
  assert (size_of (drop k remaining) = size_of remaining - Z.min MAX_CHUNK_SIZE (size_of remaining)) as ->.
  { unfold size_of at 1. rewrite length_drop. unfold k, size_of in *. lia. }
  rewrite HM. destruct (Z.le_ge_cases (size_of remaining) 76710).
  - rewrite Z.min_r by lia. rewrite Z.sub_diag. replace (size_of remaining + 76710 - 1) with
      (size_of remaining - 1 + 1 * 76710) by lia. rewrite Z.div_add by lia.
    rewrite (Z.div_small (size_of remaining - 1)) by lia. done.
  - rewrite Z.min_l by lia. replace (size_of remaining - 76710 + 76710 - 1) with
      (size_of remaining + 76710 - 1 + (-1) * 76710) by lia. rewrite Z.div_add by lia. lia.
Qed.

(** A message that needs splitting and is not refused. *)
Definition splittable (msg : bytes) : Prop :=
  MAX_MESSAGE_SIZE - ENCRYPT_DATA_OVERHEAD < size_of msg <= MAX_MULTIPART_SIZE.

Lemma num_parts_range msg :
  splittable msg -> num_parts_of msg = Z.of_nat (length (chunks msg)) /\ 2 <= num_parts_of msg <= 66.
Proof.
  intros [Hlo Hhi]. pose proof (chunk_list_count (S (length msg)) msg ltac:(lia)) as Hc.
  fold (chunks msg) in Hc. unfold num_parts_of. rewrite <- Hc.
  assert (2 <= Z.of_nat (length (chunks msg)) <= 66).
  { rewrite Hc. unfold MAX_CHUNK_SIZE, MAX_MESSAGE_SIZE, ENCODE_OVERHEAD, ENCRYPT_DATA_OVERHEAD,
      MAX_MULTIPART_SIZE in *.
    split; [apply Z.div_le_lower_bound; lia|].
    enough ((size_of msg + (76800 - (1 + 2 + 3 + 32 + 2 + 1 + 2 + 1 + 6) - 40) - 1) /
      (76800 - (1 + 2 + 3 + 32 + 2 + 1 + 2 + 1 + 6) - 40) < 67) by lia.
    apply Z.div_lt_upper_bound; lia. }
  rewrite Z.mod_small by lia. done.
Qed.

Lemma multipart_parts_ok msg :
  splittable msg ->
  exists outs, multipart_parts msg = Ok outs /\ size_of outs = num_parts_of msg /\
    Forall (fun o => size_of o + ENCRYPT_DATA_OVERHEAD <= MAX_MESSAGE_SIZE) outs /\
    (forall i o c, outs !! i = Some o -> chunks msg !! i = Some c ->
       parse_part o = Ok (generichash 32 [] msg, Z.of_nat i, num_parts_of msg, c)).
Proof.
  intros Hsp. destruct (num_parts_range msg Hsp) as [Hn Hr].
  set (h := generichash 32 [] msg). assert (size_of h = 32) as Hh by (by apply generichash_size).
  destruct (split_parts_spec (S (length msg)) h 0 (num_parts_of msg) msg) as (outs & Ho & Hf);
    [done|lia|lia|fold (chunks msg); lia|].
  fold (chunks msg) in Hf. exists outs. pose proof (chunk_list_sizes (S (length msg)) msg) as Hcs.
  fold (chunks msg) in Hcs. rewrite Forall_lookup in Hcs.
  assert (forall i o, outs !! i = Some o -> exists c, chunks msg !! i = Some c /\
            encode_part h (Z.of_nat i) (num_parts_of msg) c = Ok o) as Hat.
  { intros i o Hi. destruct (Forall2_lookup_r _ _ _ _ _ Hf Hi) as ([z c] & Hl & He).
    rewrite list_lookup_imap in Hl. destruct (chunks msg !! i) as [c'|]; [|done].
    cbn in Hl. injection Hl as <- <-. by exists c'. }
  split_and!; [exact Ho| | |].
  - unfold size_of. rewrite <- (Forall2_length _ _ _ Hf), length_imap. by symmetry.
  - apply Forall_lookup. intros i o Hi. destruct (Hat i o Hi) as (c & Hc & He).
    destruct (encode_part_ok h (Z.of_nat i) (num_parts_of msg) c Hh) as (o' & He' & Hs & _);
      [by apply Hcs in Hc as [_ ?]|]. rewrite He in He'. injection He' as <-. rewrite Hs.
    apply Hcs in Hc. unfold MAX_CHUNK_SIZE in Hc. lia.
  - intros i o c Hi Hc. destruct (Hat i o Hi) as (c' & Hc' & He). rewrite Hc in Hc'. injection Hc' as <-.
    apply parse_part_ok; [done|by eapply Hcs| |lia|done].
    apply lookup_lt_Some in Hc. lia.
Qed.

(** ** Receiving the parts in any order *)

Definition part_lt (p q : PartialMessage) : Prop := pm_index p < pm_index q.

#[local] Instance part_lt_antisymm : AntiSymm (=) part_lt.
Proof. intros p q Hpq Hqp. unfold part_lt in *. lia. Qed.

Lemma insert_part_fresh p l :
  StronglySorted part_lt l -> Forall (fun q => pm_index q <> pm_index p) l ->
  exists l', insert_part p l = Some l' /\ l' ≡ₚ p :: l /\ StronglySorted part_lt l'.
Proof.
  induction l as [|q l IH]; intros Hs Hf; cbn [insert_part].
  { exists [p]. split_and!; [done..|]. repeat constructor. }
  apply StronglySorted_inv in Hs as [Hs Hq]. apply Forall_cons in Hf as [Hne Hf].
  destruct (Z.ltb_spec (pm_index q) (pm_index p)) as [Hlt|Hge].
  - destruct (IH Hs Hf) as (l' & -> & Hp & Hs'). exists (q :: l'). split_and!; [done| |].
    + rewrite Hp. apply Permutation_swap.
    + constructor; [done|]. rewrite Hp. by constructor.
  - destruct (Z.eqb_spec (pm_index q) (pm_index p)); [done|].
    exists (p :: q :: l). split_and!; [done..|]. constructor; [by constructor|].
    constructor; [unfold part_lt; lia|]. eapply Forall_impl; [apply Hq|].
    unfold part_lt. intros; lia.
Qed.

(** One incoming part: what the storage server calls it, and its bytes. *)
Definition receive (now : Z) (b : ConfigBase) (m : bytes * bytes) :
    bool * option (list bytes * bytes) * ConfigBase := handle_multipart now b m.1 m.2.

(** The object while parts of [msg] are being collected: the entry of its hash holds exactly the
    parts [got], sorted. *)
Definition collecting (h : bytes) (n : Z) (b : ConfigBase) (got : list PartialMessage) : Prop :=
  match got with
  | [] => mfind h (_multiparts b) = None
  | _ => exists e l, mfind h (_multiparts b) =
           Some {| pms_done := false; pms_size := n; pms_parts := l; pms_expiry := e |} /\
         l ≡ₚ got /\ StronglySorted part_lt l
  end.

Lemma collecting_parts h n b got :
  collecting h n b got ->
  exists e sz l, value_or (mfind h (_multiparts b)) no_parts =
    {| pms_done := false; pms_size := sz; pms_parts := l; pms_expiry := e |} /\
    l ≡ₚ got /\ StronglySorted part_lt l /\ (l <> [] -> sz = n).
Proof.
  destruct got as [|p got]; cbn.
  - intros ->. exists 0, 0, []. split_and!; [done|done|constructor|done].
  - intros (e & l & -> & Hp & Hs). exists e, n, l. done.
Qed.

(** The common part of processing a new part: it is inserted in its place. *)
Lemma receive_insert now b h n got p m :
  collecting h n b got -> parse_part m.2 = Ok (h, pm_index p, n, pm_data p) ->
  m.1 = pm_message_id p -> Forall (fun q => pm_index q <> pm_index p) got ->
  exists l e, l ≡ₚ p :: got /\ StronglySorted part_lt l /\
    let store q := set_multiparts b (minsert h q (_multiparts b)) true in
    let with_expiry x := {| pms_done := false; pms_size := n; pms_parts := l; pms_expiry := x |} in
    receive now b m =
      (if size_of l =? n then
         if bool_decide (generichash 32 [] (recombine l) = h) then
           match decode_recombined (recombine l) with
           | Ok r => (true, Some (pm_message_id <$> l, r), store (finish now MULTIPART_MAX_REMEMBER))
           | Throw _ => (false, None, store (finish now MULTIPART_MAX_REMEMBER))
           end
         else (false, None, store (with_expiry e))
       else (true, None, store (with_expiry (now + MULTIPART_MAX_WAIT)))).
Proof.
  intros Hc Hp Hid Hf. destruct (collecting_parts h n b got Hc) as (e & sz & l0 & Hv & Hpl & Hs & Hsz).
  rewrite <- Hpl in Hf. destruct (insert_part_fresh p l0 Hs Hf) as (l & Hi & Hpm & Hsl).
  exists l, e. split_and!; [by rewrite Hpm, Hpl|done|].
  unfold receive, handle_multipart. rewrite Hp, Hv. cbn [pms_done pms_parts pms_size pms_expiry].
  rewrite Hid. replace {| pm_index := pm_index p; pm_message_id := pm_message_id p;
                          pm_data := pm_data p |} with p by by destruct p.
  rewrite Hi. destruct l0 as [|q l0]; cbn [is_nil negb andb].
  - done.
  - rewrite Hsz by done. by rewrite Z.eqb_refl.
Qed.

Lemma size_of_perm {A} (l l' : list A) : l ≡ₚ l' -> size_of l = size_of l'.
Proof. intros Hp. unfold size_of. by rewrite Hp. Qed.

Lemma receive_more now b h n got p m :
  collecting h n b got -> parse_part m.2 = Ok (h, pm_index p, n, pm_data p) ->
  m.1 = pm_message_id p -> Forall (fun q => pm_index q <> pm_index p) got ->
  size_of (p :: got) < n ->
  exists b', receive now b m = (true, None, b') /\ collecting h n b' (p :: got).
Proof.
  intros Hc Hp Hid Hf Hlt. destruct (receive_insert now b h n got p m) as (l & e & Hpl & Hs & ->); [done..|].
  rewrite (size_of_perm _ _ Hpl), (proj2 (Z.eqb_neq _ _)) by lia. eexists; split; [done|].
  cbn. eexists _, l. rewrite mfind_minsert_eq. done.
Qed.

Lemma receive_last now b h n got p m all r :
  collecting h n b got -> parse_part m.2 = Ok (h, pm_index p, n, pm_data p) ->
  m.1 = pm_message_id p -> Forall (fun q => pm_index q <> pm_index p) got ->
  size_of (p :: got) = n -> all ≡ₚ p :: got -> StronglySorted part_lt all ->
  generichash 32 [] (recombine all) = h -> decode_recombined (recombine all) = Ok r ->
  exists b', receive now b m = (true, Some (pm_message_id <$> all, r), b') /\
    mfind h (_multiparts b') = Some (finish now MULTIPART_MAX_REMEMBER).
Proof.
  intros Hc Hp Hid Hf Hn Hall Hsall Hh Hr.
  destruct (receive_insert now b h n got p m) as (l & e & Hpl & Hs & ->); [done..|].
  assert (l = all) as ->.
  { apply (StronglySorted_unique part_lt); [done|done|]. by rewrite Hpl, Hall. }
  rewrite (size_of_perm _ _ Hpl), (proj2 (Z.eqb_eq _ _)) by done.
  rewrite bool_decide_eq_true_2 by done. rewrite Hr. eexists; split; [done|].
  cbn. apply mfind_minsert_eq.
Qed.

(** Receiving a sequence of messages, collecting what is accepted and completed. *)
Fixpoint receive_all (now : Z) (b : ConfigBase) (ms : list (bytes * bytes)) :
    list bool * list (list bytes * bytes) * ConfigBase :=
  match ms with
  | [] => ([], [], b)
  | m :: ms' =>
      let '(ok, c, b) := receive now b m in
      let '(oks, cs, b) := receive_all now b ms' in
      (ok :: oks, (match c with Some x => [x] | None => [] end) ++ cs, b)
  end.

(** The messages [ms] are the encodings of the parts [ps]. *)
Definition encodes (h : bytes) (n : Z) (p : PartialMessage) (m : bytes * bytes) : Prop :=
  parse_part m.2 = Ok (h, pm_index p, n, pm_data p) /\ m.1 = pm_message_id p.

Lemma receive_rest now h n all r ps ms got b :
  Forall2 (encodes h n) ps ms -> ps <> [] -> all ≡ₚ got ++ ps ->
  StronglySorted part_lt all -> size_of all = n ->
  generichash 32 [] (recombine all) = h -> decode_recombined (recombine all) = Ok r ->
  collecting h n b got ->
  exists b', receive_all now b ms =
      (replicate (length ms) true, [(pm_message_id <$> all, r)], b') /\
    mfind h (_multiparts b') = Some (finish now MULTIPART_MAX_REMEMBER).
Proof.
  intros Hf. revert got b; induction Hf as [|p m ps ms [Hp Hid] Hf IH]; intros got b Hne Hall Hs Hn Hh Hr Hc;
    [done|]. clear Hne.
  assert (NoDup (pm_index <$> all)) as Hnd.
  { clear -Hs. induction Hs as [|q l _ IH Hq]; [constructor|]. cbn. constructor; [|done].
    intros (q' & He & Hq')%list_elem_of_fmap. rewrite Forall_forall in Hq. apply Hq in Hq'.
    unfold part_lt in Hq'. lia. }
  assert (Forall (fun q => pm_index q <> pm_index p) got) as Hfr.
  { rewrite Hall, fmap_app, fmap_cons in Hnd. apply NoDup_app in Hnd as (_ & Hd & _).
    apply Forall_forall. intros q Hq He. apply (Hd (pm_index q)).
    - by apply list_elem_of_fmap_2.
    - rewrite He. by left. }
  assert (p :: got ++ ps ≡ₚ got ++ p :: ps) as Hmid by apply Permutation_middle.
  cbn [receive_all]. destruct ps as [|p' ps].
  - apply Forall2_nil_inv_l in Hf as ->. rewrite app_nil_r in Hmid.
    assert (all ≡ₚ p :: got) as Hap by (by rewrite Hall, Hmid).
    destruct (receive_last now b h n got p m all r) as (b' & -> & Hb'); try done.
    + by rewrite <- (size_of_perm _ _ Hap).
    + exists b'. done.
  - destruct (receive_more now b h n got p m) as (b' & -> & Hc'); try done.
    { rewrite (size_of_perm _ _ Hall), size_of_app in Hn. unfold size_of in *. cbn in *. lia. }
    destruct (IH (p :: got) b') as (b'' & -> & Hb''); try done.
    { by rewrite Hall, <- Hmid. }
    exists b''. done.
Qed.

(** ** The whole way *)
#[local] Arguments chunks : simpl never.

Lemma recombine_parts ids cs : recombine (imap (part_at ids) cs) = concat cs.
Proof.
  unfold recombine. f_equal. rewrite fmap_imap. rewrite <- (list_fmap_id cs) at 2.
  rewrite <- imap_const. done.
Qed.

Lemma parts_sorted ids cs : StronglySorted part_lt (imap (part_at ids) cs).
Proof.
  assert (forall k, StronglySorted part_lt (imap (fun i => part_at ids (k + i)) cs) /\
            Forall (fun p => Z.of_nat k <= pm_index p) (imap (fun i => part_at ids (k + i)) cs)) as Hk.
  { induction cs as [|c cs IH]; intros k; [split; constructor|]. cbn [imap].
    destruct (IH (S k)) as [Hs Hf].
    assert (imap (fun i => part_at ids (S k + i)) cs =
            imap ((fun i => part_at ids (k + i)) ∘ S) cs) as E.
    { apply imap_ext. intros i x _. unfold compose. f_equal. lia. }
    rewrite E in Hs, Hf. split.
    - constructor; [done|]. eapply Forall_impl; [apply Hf|]. intros q. unfold part_lt. cbn. lia.
    - constructor; [cbn; lia|]. eapply Forall_impl; [apply Hf|]. intros q; cbn. lia. }
  apply (Hk 0%nat).
Qed.

Lemma reassemble now msg ids outs order ms r b :
  splittable msg -> multipart_parts msg = Ok outs ->
  order ≡ₚ imap (fun i o => (i, o)) outs ->
  ms = (fun io : nat * bytes => (ids io.1, io.2)) <$> order ->
  mfind (generichash 32 [] msg) (_multiparts b) = None ->
  decode_recombined msg = Ok r ->
  exists b', receive_all now b ms =
    (replicate (length outs) true, [(imap (fun i _ => ids i) outs, r)], b').
Proof.
  intros Hsp Ho Hord -> Hb Hr.
  destruct (multipart_parts_ok msg Hsp) as (outs' & Ho' & Hlen & _ & Hparse).
  rewrite Ho in Ho'. injection Ho' as <-. destruct (num_parts_range msg Hsp) as [Hn Hr2].
  set (h := generichash 32 [] msg) in *. set (all := imap (part_at ids) (chunks msg)).
  assert (length outs = length (chunks msg)) as Hl by (unfold size_of in Hlen; lia).
  set (pair_of := fun io : nat * bytes => (ids io.1, io.2)).
  set (part_of := fun io : nat * bytes => part_at ids io.1 (value_or (chunks msg !! io.1) [])).
  assert (all = part_of <$> imap (fun i o => (i, o)) outs) as Hall.
  { apply list_eq. intros i. unfold all. rewrite list_lookup_fmap, !list_lookup_imap.
    destruct (chunks msg !! i) as [c|] eqn:Ec, (outs !! i) as [o|] eqn:Eo; cbn.
    - unfold part_of. cbn. by rewrite Ec.
    - apply lookup_lt_Some in Ec. apply lookup_ge_None in Eo. lia.
    - apply lookup_lt_Some in Eo. apply lookup_ge_None in Ec. lia.
    - done. }
  assert (Forall2 (encodes h (num_parts_of msg)) (part_of <$> order) (pair_of <$> order)) as Hf.
  { rewrite Forall2_fmap. apply Forall_Forall2_diag. rewrite Hord. apply Forall_lookup.
    intros i [j o] Hi. rewrite list_lookup_imap in Hi. destruct (outs !! i) as [o'|] eqn:Eo; [|done].
    cbn in Hi. injection Hi as <- <-. unfold part_of, pair_of. cbn.
    destruct (chunks msg !! i) as [c|] eqn:Ec;
      [|apply lookup_lt_Some in Eo; apply lookup_ge_None in Ec; lia].
    split; [|done]. cbn. by apply Hparse. }
  destruct (receive_rest now h (num_parts_of msg) all r (part_of <$> order) (pair_of <$> order) [] b)
    as (b' & Hres & _).
  - done.
  - intros E%fmap_nil_inv. rewrite E in Hord. apply Permutation_nil_l in Hord.
    destruct outs; [cbn in Hl; lia|done].
  - by rewrite Hall, Hord.
  - apply parts_sorted.
  - unfold size_of, all. rewrite length_imap. lia.
  - unfold all. rewrite recombine_parts. unfold chunks. rewrite chunk_list_concat by lia. done.
  - unfold all. rewrite recombine_parts. unfold chunks. by rewrite chunk_list_concat by lia.
  - done.
  - exists b'. rewrite Hres. rewrite length_fmap, (Permutation_length Hord), length_imap.
    do 2 f_equal. f_equal. f_equal. unfold all. rewrite fmap_imap.
    apply list_eq. intros i. rewrite !list_lookup_imap.
    destruct (chunks msg !! i) as [c|] eqn:Ec, (outs !! i) as [o|] eqn:Eo; cbn; try done.
    + apply lookup_lt_Some in Ec. apply lookup_ge_None in Eo. lia.
    + apply lookup_lt_Some in Eo. apply lookup_ge_None in Ec. lia.
Qed.
End WithLibraries.
