(* ===== verification/BaseSync.v ===== *)
(** * The config object: merging, pushing, dumping

    [merge], [_merge], [push], [confirm_pushed], [dump], [make_dump], [init], [active_hashes] and
    [old_hashes] of [src/config/base.cpp].  [now] is the time of the call.  An operation that
    throws has no resulting object in the model. *)
From S2P Require Import Prelude OMap BtValue ThirdParty ConfigData ConfigParse ConfigMessage.
From S2P Require Import Encrypt SessionEncrypt Protos ConfigBase Multipart.

Section WithLibraries.
Context `{Oxenc} `{CryptoBox} `{Aead} `{Zstd} `{Protobuf}.
Variable ty : ConfigType.

(** ** Merging *)

(** Trying the keys in order: only a decryption failure leads to the next key. *)
Fixpoint try_keys (keys : list bytes) (conf : bytes) : res (option bytes) :=
  match keys with
  | [] => Ok None
  | k :: keys' =>
      match decrypt conf k (encryption_domain ty) with
      | Ok p => Ok (Some p)
      | Throw DecryptError => try_keys keys' conf
      | Throw e => Throw e
      end
  end.

Definition decrypt_all (keys : list bytes) (configs : list (bytes * bytes)) :
    res (list (bytes * bytes)) :=
  foldM (fun acc hc => o ← try_keys keys hc.2;
                       Ok (match o with Some p => acc ++ [(hc.1, p)] | None => acc end))
        [] configs.

(** The loop over the plaintexts; the state is (object, good_hashes, all_hashes, all_confs). *)
Record incoming := {
  in_base : ConfigBase;
  good_hashes : list bytes;
  all_hashes : list (list bytes);
  all_confs : list bytes
}.

Definition accept_plain (now : Z) (st : incoming) (hp : bytes * bytes) : incoming :=
  let '(hash, plain) := hp in
  let plain := strip_padding plain in
  if is_nil plain then st
  else if bool_decide (head plain = Some "m"%char) then
    let '(accepted, completed, b) := handle_multipart now (in_base st) hash plain in
    let good := if accepted then sinsert hash (good_hashes st) else good_hashes st in
    match completed with
    | Some (ids, conf) =>
        {| in_base := b; good_hashes := good; all_hashes := all_hashes st ++ [ids];
           all_confs := all_confs st ++ [conf] |}
    | None => {| in_base := b; good_hashes := good; all_hashes := all_hashes st;
                 all_confs := all_confs st |}
    end
  else
    let inflated :=
      if bool_decide (head plain = Some "z"%char) then
        match zstd_decompress (tail plain) 0 with
        | Some d => if is_nil d then None else Some d
        | None => None
        end
      else Some plain in
    match inflated with
    | None => st
    | Some plain =>
        if bool_decide (head plain = Some "d"%char) then
          {| in_base := in_base st; good_hashes := sinsert hash (good_hashes st);
             all_hashes := all_hashes st ++ [[hash]]; all_confs := all_confs st ++ [plain] |}
        else st
    end.

(** [bad_confs]: the indices for which the error handler is called. *)
Fixpoint bad_confs (i : nat) (confs : list bytes) (vf : option verify_callable)
    (sg : option sign_callable) : list nat :=
  match confs with
  | [] => []
  | c :: confs' =>
      match parse_message c vf sg (config_lags ty) false with
      | Throw e => if is_config_error e then i :: bad_confs (S i) confs' vf sg
                   else bad_confs (S i) confs' vf sg
      | Ok _ => bad_confs (S i) confs' vf sg
      end
  end.

Definition make_config_message (from_dirty : bool) (confs : list bytes)
    (vf : option verify_callable) (sg : option sign_callable) : res ConfigMessage :=
  if from_dirty then merge_mutable confs vf sg (config_lags ty) (fun _ _ => Ok tt)
  else merge_message confs vf sg (config_lags ty) (fun _ _ => Ok tt).

Definition hash_set (l : list bytes) : list bytes := insert_all l [].

(** The hashes of all messages that are neither used nor bad are obsolete. *)
Fixpoint obsolete_hashes (i : nat) (hashes : list (list bytes)) (superconf : option nat)
    (superconf_hashes : list bytes) (bad : list nat) (old : list bytes) : list bytes :=
  match hashes with
  | [] => old
  | h :: hashes' =>
      let keep := bool_decide (superconf = Some i) || bool_decide (i ∈ bad) || is_nil h
                  || bool_decide (superconf_hashes = hash_set h) in
      obsolete_hashes (S i) hashes' superconf superconf_hashes bad
        (if keep then old else insert_all h old)
  end.

Fixpoint drop_bad (i : nat) (hashes : list (list bytes)) (mine : option nat) (bad : list nat)
    (good : list bytes) : list bytes :=
  match hashes with
  | [] => good
  | h :: hashes' =>
      let skip := bool_decide (mine = Some i) || negb (bool_decide (i ∈ bad)) in
      drop_bad (S i) hashes' mine bad (if skip then good else foldr serase good h)
  end.

(** The part of [_merge] after the new message has been made. *)
Definition adopt (b : ConfigBase) (new_conf : ConfigMessage) (hashes : list (list bytes))
    (old_seqno : Z) (mine_index : nat) : res ConfigBase :=
  if seqno new_conf =? old_seqno then Ok b
  else if merged new_conf then
    let c := if is_dirty b then new_conf else retain_seqno new_conf in
    set_state (set_config b c) Dirty
  else if is_dirty b && bool_decide (unmerged_ new_conf = Some mine_index)
          && (seqno new_conf =? old_seqno + 1)
  then Ok b
  else
    b ← set_state (set_config b new_conf) Clean;
    match unmerged_ new_conf with
    | Some i => match hashes !! i with
                | Some h => Ok (set_hashes b (_state b) (hash_set h) (_old_hashes b) (_needs_dump b))
                | None => Throw UB
                end
    | None => Throw UB
    end.

(** [_merge]: (the hashes of the messages that were understood, the object). *)
Definition merge_plain (now : Z) (b : ConfigBase) (configs : list (bytes * bytes)) :
    res (list bytes * ConfigBase) :=
  _ ← throw_if (is_nil (_keys b)) LogicError;
  let old_seqno := seqno (_config b) in
  let have_mine := negb (old_seqno =? 0) || is_dirty b in
  let! (mine, b) := (if have_mine then
                       let! (s, c) := serialize (_config b) true in Ok (s, set_config b c)
                     else Ok ([], b)) in
  let mine_last := have_mine && is_nil (_curr_hashes b) in
  let mine_first := have_mine && negb (is_nil (_curr_hashes b)) in
  plaintexts ← decrypt_all (_keys b) configs;
  let st := {| in_base := b; good_hashes := [];
               all_hashes := if mine_first then [_curr_hashes b] else [];
               all_confs := if mine_first then [mine] else [] |} in
  let st := foldl (accept_plain now) st plaintexts in
  let hashes := all_hashes st ++ (if mine_last then [_curr_hashes (in_base st)] else []) in
  let confs := all_confs st ++ (if mine_last then [mine] else []) in
  let b := expire_multiparts now (in_base st) in
  if is_nil hashes then Ok (good_hashes st, b)
  else
    let vf := verifier (_config b) in
    let sg := signer (_config b) in
    new_conf ← make_config_message (is_dirty b) confs vf sg;
    let bad := bad_confs 0 confs vf sg in
    let superconf := unmerged_ new_conf in
    let superconf_hashes :=
      match superconf with
      | Some i => match hashes !! i with Some h => hash_set h | None => [] end
      | None => []
      end in
    let mine_index := if mine_last then (length hashes - 1)%nat else 0%nat in
    let b := set_hashes b (_state b) (_curr_hashes b)
               (obsolete_hashes 0 hashes superconf superconf_hashes bad (_old_hashes b))
               (_needs_dump b) in
    b ← adopt b new_conf hashes old_seqno mine_index;
    let good := drop_bad 0 hashes (if is_nil mine then None else Some mine_index) bad
                  (good_hashes st) in
    Ok (good, b).

(** Removing the protobuf wrapping of old clients, once or twice. *)
Definition unwrap_protobuf (key : bytes) (c : bytes) : bytes :=
  match unwrap_config key c (storage_namespace ty) with
  | Ok u => match unwrap_config key u (storage_namespace ty) with Ok u2 => u2 | Throw _ => u end
  | Throw _ => c
  end.

Definition merge (now : Z) (b : ConfigBase) (configs : list (bytes * bytes)) :
    res (list bytes * ConfigBase) :=
  match accepts_protobuf ty, _keys b with
  | true, key :: _ => merge_plain now b ((fun hc => (hc.1, unwrap_protobuf key hc.2)) <$> configs)
  | _, _ => merge_plain now b configs
  end.

(** ** Pushing *)

Definition key (b : ConfigBase) (i : nat) : res bytes :=
  match _keys b !! i with Some k => Ok k | None => Throw UB end.

(** The message that is sent, before encryption and splitting. *)
Definition push_plain (b : ConfigBase) : res (bytes * ConfigBase) :=
  let! (msg, c) := serialize (_config b) true in
  let msg := match compression_level ty with Some lvl => compress_message msg lvl | None => msg end in
  Ok (pad_message msg ENCRYPT_DATA_OVERHEAD, set_config b c).

Definition push (now : Z) (b : ConfigBase) :
    res ((Z * list bytes * list bytes) * ConfigBase) :=
  _ ← throw_if (is_nil (_keys b)) LogicError;
  let s := seqno (_config b) in
  let! (msg, b) := push_plain b in
  _ ← throw_if (MAX_MULTIPART_SIZE <? size_of msg) LengthError;
  k ← key b 0;
  let! (msgs, b) :=
    (if MAX_MESSAGE_SIZE <? size_of msg + ENCRYPT_DATA_OVERHEAD then
       parts ← multipart_parts msg;
       msgs ← foldM (fun acc p => c ← encrypt p k (encryption_domain ty); Ok (acc ++ [c])) [] parts;
       Ok (msgs, set_multiparts b (minsert (generichash 32 [] msg)
                                     (finish now MULTIPART_MAX_REMEMBER) (_multiparts b))
                   (_needs_dump b))
     else
       c ← encrypt msg k (encryption_domain ty);
       if accepts_protobuf ty then
         w ← wrap_config k c s (storage_namespace ty);
         Ok ([if size_of w <=? MAX_MESSAGE_SIZE then w else c], b)
       else Ok ([c], b)) in
  b ← (if is_dirty b then set_state b Waiting else Ok b);
  let obs := if is_readonly b then [] else _old_hashes b in
  Ok ((s, msgs, obs), set_hashes b (_state b) (_curr_hashes b) [] (_needs_dump b)).

Definition confirm_pushed (b : ConfigBase) (s : Z) (msg_hashes : list bytes) : res ConfigBase :=
  if bool_decide (_state b = Waiting) && (s =? seqno (_config b)) then
    b ← set_state b Clean;
    Ok (set_hashes b (_state b) (hash_set msg_hashes) (_old_hashes b) true)
  else Ok b.

(** ** Message hashes *)

Definition active_hashes (now : Z) (b : ConfigBase) : list bytes :=
  foldl (fun hs e =>
           if negb (pms_done e.2) && (now <? pms_expiry e.2)
           then insert_all (pm_message_id <$> pms_parts e.2) hs else hs)
        (_curr_hashes b) (_multiparts b).

Definition old_hashes (b : ConfigBase) : list bytes * ConfigBase :=
  if is_dirty b then ([], b)
  else (_old_hashes b, set_hashes b (_state b) (_curr_hashes b) [] (_needs_dump b)).

(** ** Dumping and loading *)

Definition make_dump (now : Z) (b : ConfigBase) : res (bytes * ConfigBase) :=
  let! (data, c) := serialize (_config b) false in
  let b := set_config b c in
  Ok (bt_dict_print
        [(bs "!", BInt (state_value (_state b))); (bs "$", BStr data);
         (bs "(", BList (BStr <$> _curr_hashes b)); (bs ")", BList (BStr <$> _old_hashes b));
         (bs "*", BDict (dump_multiparts now b)); (bs "+", BDict (_extra b))], b).

Definition dump (now : Z) (b : ConfigBase) : res (bytes * ConfigBase) :=
  let b := if is_readonly b
           then set_hashes b (_state b) (_curr_hashes b) [] (_needs_dump b) else b in
  let b := expire_multiparts now b in
  let! (d, b) := make_dump now b in
  Ok (d, set_needs_dump b false).

Definition empty_base (c : ConfigMessage) (s : ConfigState) : ConfigBase :=
  {| _config := c; _keys := []; _state := s; _curr_hashes := []; _old_hashes := [];
     _multiparts := []; _needs_dump := false; _sign_sk := None; _sign_pk := None; _extra := [] |}.

(** [consume<std::unordered_set<std::string>>] and the loop over the old hashes. *)
Definition strings_of (l : bt_list) : res (list bytes) :=
  foldM (fun s v => x ← as_string v; Ok (sinsert x s)) [] l.

(** The optional hashes section of a dump. *)
Definition load_hashes (d : dict_consumer) : res (list bytes * list bytes * dict_consumer) :=
  let! (found, d) := dc_skip_until "(" d in
  if (found : bool) then
    let! (_, v, d) := dc_next d in
    curr ← match v with
           | BList l => strings_of l
           | BStr s => Ok (if is_nil s then [] else [s])
           | _ => Throw RuntimeError
           end;
    let! (found, d) := dc_skip_until ")" d in
    _ ← throw_if (negb found) RuntimeError;
    let! (_, v, d) := dc_next d in
    l ← as_list v; old ← strings_of l;
    Ok (curr, old, d)
  else Ok ([], [], d).

Definition load_dump (now : Z) (s : bytes) : res ConfigBase :=
  d ← dc_open s;
  let! (found, d) := dc_skip_until "!" d in
  _ ← throw_if (negb found) RuntimeError;
  let! (_, v, d) := dc_next d in
  st ← state_of_value <$> as_int32 v;
  let! (found, d) := dc_skip_until "$" d in
  _ ← throw_if (negb found) RuntimeError;
  let! (_, v, d) := dc_next d in
  data ← as_string v;
  c ← (if bool_decide (st = Dirty) then parse_mutable data None None (config_lags ty)
       else parse_message data None None (config_lags ty) true);
  let! (curr, old, d) := load_hashes d in
  let! (found, d) := dc_skip_until "*" d in
  let! (multi, d) := (if (found : bool) then
                        let! (_, v, d) := dc_next d in
                        m ← as_dict v; mp ← load_multiparts now m []; Ok (mp, d)
                      else Ok ([], d)) in
  let! (found, d) := dc_skip_until "+" d in
  extra ← (if (found : bool) then let! (_, v, _) := dc_next d in as_dict v else Ok []);
  Ok {| _config := c; _keys := []; _state := st; _curr_hashes := curr; _old_hashes := old;
        _multiparts := multi; _needs_dump := false; _sign_sk := None; _sign_pk := None;
        _extra := if keeps_extra ty then extra else [] |}.

Definition init (now : Z) (dumped pubkey secret : option bytes) : res ConfigBase :=
  b ← match dumped with
      | None => c ← default_message; Ok (empty_base c Clean)
      | Some s => load_dump now s
      end;
  init_sig_keys b pubkey secret.
End WithLibraries.
