(* ===== verification/SyncFacts.v ===== *)
(** * Facts about pushing, merging and dumping

    What one device pushes, another device that has the key reads back: in one message or in
    parts, with or without compression. *)
From S2P Require Import Prelude OMap BtValue ThirdParty ConfigData ConfigDataFacts ConfigParse.
From S2P Require Import ConfigParseFacts ConfigMessage MessageFacts MergeFacts ReplayFacts.
From S2P Require Import Encrypt SessionEncrypt Protos ConfigBase BaseFacts.
From S2P Require Import Multipart MultipartFacts BaseSync.

(** A message that can be serialized and read by others. *)
Record sendable (m : ConfigMessage) : Prop := {
  sn_data : wf_dict (data_ m);
  sn_lags : wf_lags (lagged_diffs_ m);
  sn_unknown : wf_unknown (unknown_ m);
  sn_seqno : seqno_ok (seqno m) (lag m);
  sn_signer : sign_ok (signer m);
  sn_orig : match orig_data_ m with
            | None => pruned_dict (data_ m) /\ valid_diff (diff_ m) /\
                      from_option (fun s => size_of s = 64) True (verified_signature_ m)
            | Some o => wf_dict o /\ pruned_dict o
            end
}.

Section WithLibraries.
Context `{Oxenc} `{CryptoBox} `{Aead} `{Zstd} `{Protobuf}.

(** ** Serializing *)

(** The data as others see it: without empty containers. *)
Definition sent_data (m : ConfigMessage) : dict :=
  match orig_data_ m with None => data_ m | Some _ => (prune_dict (data_ m)).2 end.

(** The receiver's verifier accepts what this message carries or is signed with. *)
Definition verifies (vf : option verify_callable) (m : ConfigMessage) (en : bool) : Prop :=
  forall body, sig_accepted vf body
    (written_sig (match orig_data_ m with Some _ => with_signature m None | None => m end) body en).

Lemma serialize_sendable m en vf sg trust :
  sendable m -> verifies vf m en ->
  exists s m' m'', serialize m en = Ok (s, m') /\ (exists r, s = "d"%char :: r) /\
    parse_message s vf sg (lag m) trust = Ok m'' /\
    data_ m'' = sent_data m /\ seqno_hash_ m'' = (seqno m, hash_msg s) /\
    unknown_ m'' = unknown_ m /\
    lagged_diffs_ m'' = window (seqno m) (lag m) (lagged_diffs_ m) /\
    verifier m'' = vf /\ signer m'' = sg /\ orig_data_ m'' = None.
Proof.
  intros [Hd Hl Hu Hs Hsg Ho] Hvf. unfold serialize, sent_data, verifies in *.
  assert (exists df m1, diff m = Ok (df, m1) /\ wf_message m1 /\ pruned_dict (data_ m1) /\
    valid_diff df /\ data_ m1 = match orig_data_ m with None => data_ m | Some _ => (prune_dict (data_ m)).2 end /\
    seqno m1 = seqno m /\ lag m1 = lag m /\ unknown_ m1 = unknown_ m /\
    lagged_diffs_ m1 = lagged_diffs_ m /\
    (forall body, written_sig m1 body en =
      written_sig (match orig_data_ m with Some _ => with_signature m None | None => m end) body en) /\
    signer m1 = signer m /\ from_option (fun s => size_of s = 64) True (verified_signature_ m1))
    as (df & m1 & Hdf & Hwm & Hp & Hv & Ed & Es & El & Eu & Elg & Ew & Esg & H64).
  { destruct (orig_data_ m) as [o|] eqn:Eo.
    - destruct Ho as [Hwo Hpo].
      destruct (diff_mutable m o) as (df & Hdf & Hwn & Hpn & Hrel); [done..|].
      eexists _, _. split; [exact Hdf|]. split_and!; try done.
      + constructor; try done. by eapply diff_rel_valid.
      + by eapply diff_rel_valid.
    - destruct Ho as (Hp & Hv & H64). exists (diff_ m), m. unfold diff. rewrite Eo.
      split_and!; try done. }
  rewrite Hdf.
  destruct (serialize_parse m1 df en vf sg trust []) as (out & body & Hout & _ & Hpar); [done..| | |].
  { intros body. unfold written_sig. destruct (verified_signature_ m1); [done|].
    rewrite Esg. destruct (signer m) as [f|]; [|done]. destruct en; [exact (Hsg _)|done]. }
  { intros body. rewrite Ew. apply Hvf. }
  rewrite app_nil_r in Hpar. rewrite Hout. cbn [mbind res_bind].
  exists out, m1. eexists. split; [done|]. split.
  { unfold serialize_impl in Hout. res_step Hout. res_step Hout. injection Hout as <-.
    apply bt_dict_print_d. }
  split; [rewrite <- El; exact Hpar|]. cbn. by rewrite Ed, Es, Eu, El, Elg.
Qed.

(** ** Compression *)

Lemma zstd_append_all acc outs : zstd_append 0 acc outs = Some (acc ++ concat outs).
Proof.
  revert acc; induction outs as [|o outs IH]; intros acc; cbn; [by rewrite app_nil_r|].
  rewrite IH. by rewrite app_assoc.
Qed.

Lemma zstd_decompress_compress data level : zstd_decompress (ZSTD_compress data level) 0 = Some data.
Proof.
  unfold zstd_decompress. destruct (ZSTD_roundtrip data level) as [Hok Hcat].
  destruct (ZSTD_decompressStream _) as [outs ok]. cbn in *. rewrite zstd_append_all. cbn.
  by rewrite Hok, Hcat.
Qed.

Variable ty : ConfigType.

Definition compressed (s : bytes) : bytes :=
  match compression_level ty with Some lvl => compress_message s lvl | None => s end.

Lemma compressed_cases s :
  compressed s = s \/ exists z, compressed s = "z"%char :: z /\ zstd_decompress z 0 = Some s.
Proof.
  unfold compressed, compress_message, zstd_compress.
  destruct (compression_level ty) as [lvl|]; [|by left]. destruct (lvl =? 0); [by left|].
  destruct (_ <? _); [|by left]. right. eexists; split; [done|]. apply zstd_decompress_compress.
Qed.

(** What [push] sends for the serialized message [s], before encryption. *)
Definition padded (s : bytes) : bytes := pad_message (compressed s) ENCRYPT_DATA_OVERHEAD.

Lemma strip_padded s r : s = "d"%char :: r -> strip_padding (padded s) = compressed s.
Proof.
  intros ->. apply strip_pad. destruct (compressed_cases ("d"%char :: r)) as [->|(z & -> & _)];
    eexists _, _; done.
Qed.

Lemma decode_padded s r : s = "d"%char :: r -> decode_recombined (padded s) = Ok s.
Proof.
  intros E. unfold decode_recombined. rewrite (strip_padded s r E).
  destruct (compressed_cases s) as [->|(z & -> & Hz)]; subst s.
  - done.
  - rewrite bool_decide_eq_true_2 by done. cbn [tail]. rewrite Hz. cbn [is_nil mbind res_bind].
    by rewrite bool_decide_eq_true_2.
Qed.

Lemma accept_padded now st h s r :
  s = "d"%char :: r ->
  accept_plain now st (h, padded s) =
    {| in_base := in_base st; good_hashes := sinsert h (good_hashes st);
       all_hashes := all_hashes st ++ [[h]]; all_confs := all_confs st ++ [s] |}.
Proof.
  intros E. unfold accept_plain. rewrite (strip_padded s r E).
  destruct (compressed_cases s) as [->|(z & -> & Hz)]; subst s; cbn [is_nil head tail].
  - rewrite !(bool_decide_eq_false_2 (Some "d"%char = _)) by done. by rewrite bool_decide_eq_true_2.
  - rewrite (bool_decide_eq_false_2 (Some "z"%char = Some "m"%char)) by done.
    rewrite bool_decide_eq_true_2 by done. rewrite Hz. cbn [is_nil head].
    by rewrite bool_decide_eq_true_2.
Qed.

(** ** Decryption *)

Definition key_fits (k : bytes) : Prop := key_args_ok k (encryption_domain ty).

Lemma decrypt_all_ok k ks plains msgs hashes :
  Forall2 (fun p c => encrypt p k (encryption_domain ty) = Ok c /\ size_of p < 2 ^ 63) plains msgs ->
  key_fits k -> length hashes = length msgs ->
  decrypt_all ty (k :: ks) (zip hashes msgs) = Ok (zip hashes plains).
Proof.
  intros Hf Hk. unfold decrypt_all.
  assert (forall acc, length hashes = length msgs ->
    foldM (fun acc hc => o ← try_keys ty (k :: ks) hc.2;
                         Ok (match o with Some p => acc ++ [(hc.1, p)] | None => acc end))
          acc (zip hashes msgs) = Ok (acc ++ zip hashes plains)) as Hg; [|intros Hl; by apply (Hg [])].
  revert hashes; induction Hf as [|p c plains msgs [He Hs] Hf IH]; intros hashes acc Hl.
  { destruct hashes; [|done]. cbn. by rewrite app_nil_r. }
  destruct hashes as [|h hashes]; [done|]. cbn [zip zip_with foldM fst snd try_keys].
  destruct (decrypt_encrypt p k (encryption_domain ty) Hk Hs) as (c' & He' & Hd).
  rewrite He in He'. injection He' as <-. rewrite Hd. cbn [mbind res_bind].
  rewrite IH by (by injection Hl). by rewrite <- app_assoc.
Qed.

Lemma encrypt_ok p k :
  key_fits k -> exists c, encrypt p k (encryption_domain ty) = Ok c.
Proof. intros Hk. unfold encrypt. rewrite make_encrypt_key_ok by done. by eexists. Qed.

Lemma encrypt_parts_ok k parts :
  key_fits k ->
  exists msgs, foldM (fun acc p => c ← encrypt p k (encryption_domain ty); Ok (acc ++ [c])) [] parts = Ok msgs /\
    Forall2 (fun p c => encrypt p k (encryption_domain ty) = Ok c) parts msgs.
Proof.
  intros Hk.
  assert (forall acc, exists msgs,
    foldM (fun acc p => c ← encrypt p k (encryption_domain ty); Ok (acc ++ [c])) acc parts = Ok (acc ++ msgs) /\
    Forall2 (fun p c => encrypt p k (encryption_domain ty) = Ok c) parts msgs) as Hg;
    [|destruct (Hg []) as (msgs & ? & ?); by exists msgs].
  induction parts as [|p parts IH]; intros acc; cbn.
  { exists []. by rewrite app_nil_r. }
  destruct (encrypt_ok p k Hk) as [c Hc]. rewrite Hc. cbn.
  destruct (IH (acc ++ [c])) as (msgs & -> & Hf). exists (c :: msgs). rewrite <- app_assoc.
  split; [done|by constructor].
Qed.

(** ** What a push produces *)

(** The plaintexts of the messages [push] returns for the serialized message [s]. *)
Definition plaintexts (s : bytes) : res (list bytes) :=
  if MAX_MESSAGE_SIZE <? size_of (padded s) + ENCRYPT_DATA_OVERHEAD
  then multipart_parts (padded s) else Ok [padded s].

(** The end of [push]: from dirty to waiting; the obsolete hashes are handed out once. *)
Lemma push_finish b (s : Z) (msgs : list bytes) :
  exists b', (b ← (if is_dirty b then set_state b Waiting else Ok b);
     let obs := if is_readonly b then [] else _old_hashes b in
     Ok ((s, msgs, obs), set_hashes b (_state b) (_curr_hashes b) [] (_needs_dump b))) =
    Ok ((s, msgs, if is_readonly b then [] else _old_hashes b), b') /\
    _config b' = _config b /\ _keys b' = _keys b /\ _old_hashes b' = [] /\
    _curr_hashes b' = _curr_hashes b /\ _state b' = (if is_dirty b then Waiting else _state b).
Proof.
  unfold is_dirty. destruct (decide (_state b = Dirty)) as [E|E].
  - rewrite (bool_decide_eq_true_2 (_state b = Dirty)) by done.
    unfold set_state. rewrite E. cbn. by eexists.
  - rewrite (bool_decide_eq_false_2 (_state b = Dirty)) by done. cbn. by eexists.
Qed.

(** Configs of the user that old clients understand: their namespaces can be wrapped. *)
Definition wrappable : Prop := accepts_protobuf ty = true -> user_namespace (storage_namespace ty) = true.
(** The message [m] carries the ciphertext [c] of [p], wrapped or as it is. *)
Definition carries (k p m : bytes) : Prop :=
  exists c, encrypt p k (encryption_domain ty) = Ok c /\ size_of p < 2 ^ 63 /\
    (m = c \/ accepts_protobuf ty = true /\ unwrap_config k m (storage_namespace ty) = Ok c).

Lemma wrap_if_it_fits k c n :
  wrappable -> key_fits k -> size_of c <= MAX_MESSAGE_SIZE ->
  exists m, (if accepts_protobuf ty then
               w ← wrap_config k c n (storage_namespace ty); Ok [if size_of w <=? MAX_MESSAGE_SIZE then w else c]
             else Ok [c]) = Ok [m] /\ size_of m <= MAX_MESSAGE_SIZE /\
    (m = c \/ accepts_protobuf ty = true /\ unwrap_config k m (storage_namespace ty) = Ok c).
Proof.
  intros Hw [Hk _] Hc. destruct (accepts_protobuf ty) eqn:Ea; [|exists c; split_and!; auto].
  destruct (wrap_unwrap k c n (storage_namespace ty) Hk (Hw Ea)) as (w & -> & Hu). cbn [mbind res_bind].
  destruct (Z.leb_spec (size_of w) MAX_MESSAGE_SIZE); [exists w|exists c]; split_and!; auto.
Qed.

Lemma push_ok now b k ks s c :
  wrappable -> _keys b = k :: ks -> key_fits k ->
  serialize (_config b) true = Ok (s, c) -> size_of (padded s) <= MAX_MULTIPART_SIZE ->
  exists plains msgs b',
    plaintexts s = Ok plains /\
    push ty now b =
      Ok ((seqno (_config b), msgs, if is_readonly b then [] else _old_hashes b), b') /\
    Forall2 (carries k) plains msgs /\
    Forall (fun m => size_of m <= MAX_MESSAGE_SIZE) msgs /\
    _config b' = c /\ _keys b' = _keys b /\ _old_hashes b' = [] /\
    _curr_hashes b' = _curr_hashes b /\ _state b' = (if is_dirty b then Waiting else _state b).
Proof.
  intros Hpb Hks Hk Hs Hsz. unfold push, push_plain. rewrite Hks, Hs.
  cbn [is_nil throw_if mbind res_bind]. fold (compressed s). fold (padded s).
  rewrite (proj2 (Z.ltb_ge MAX_MULTIPART_SIZE _)) by lia. cbn [throw_if mbind res_bind].
  unfold key. cbn [_keys set_config]. rewrite Hks. cbn [lookup list_lookup mbind res_bind].
  pose proof (serialize_callables _ _ _ _ Hs) as (Hv & Hsg & _ & _ & _).
  assert (forall b1, _config b1 = c -> is_readonly b1 = is_readonly b) as Hro.
  { intros b1 E. unfold is_readonly. by rewrite E, Hv, Hsg. }
  unfold plaintexts. destruct (Z.ltb_spec MAX_MESSAGE_SIZE (size_of (padded s) + ENCRYPT_DATA_OVERHEAD)).
  - destruct (multipart_parts_ok (padded s)) as (outs & -> & _ & Hfit & _).
    { unfold splittable. lia. }
    destruct (encrypt_parts_ok k outs Hk) as (msgs & Hm & Hf2). cbn [mbind res_bind]. rewrite Hm.
    cbn [mbind res_bind].
    destruct (push_finish (set_multiparts (set_config b c) (minsert (generichash 32 [] (padded s))
      (finish now MULTIPART_MAX_REMEMBER) (_multiparts b)) (_needs_dump b)) (seqno (_config b)) msgs)
      as (b' & Hb' & ? & ? & ? & ? & ?).
    exists outs, msgs, b'. split_and!; try done.
    + rewrite (Hro (set_multiparts _ _ _)) in Hb' by done. exact Hb'.
    + clear -Hf2 Hfit. induction Hf2 as [|p m ps ms Hp _ IH]; [constructor|].
      apply Forall_cons in Hfit as [Hx Hfit]. constructor; [|auto]. exists m. split_and!; [done| |by left].
      unfold MAX_MESSAGE_SIZE, ENCRYPT_DATA_OVERHEAD in *. lia.
    + clear -Hf2 Hfit. induction Hf2 as [|p m ps ms Hp _ IH]; [constructor|].
      apply Forall_cons in Hfit as [Hx Hfit]. constructor; [|auto].
      apply encrypt_size in Hp. lia.
    + cbn in *. congruence.
  - destruct (encrypt_ok (padded s) k Hk) as [e He]. pose proof (encrypt_size _ _ _ _ He) as Hse.
    destruct (wrap_if_it_fits k e (seqno (_config b)) Hpb Hk) as (m & Hm & Hsm & Hc); [lia|].
    rewrite He. cbn [mbind res_bind].
    assert ((if accepts_protobuf ty then
               w ← wrap_config k e (seqno (_config b)) (storage_namespace ty);
               Ok ([if size_of w <=? MAX_MESSAGE_SIZE then w else e], set_config b c)
             else Ok ([e], set_config b c)) = Ok ([m], set_config b c)) as ->.
    { destruct (accepts_protobuf ty); [|by injection Hm as ->].
      destruct (wrap_config _ _ _ _); [|done]. cbn [mbind res_bind] in *. by injection Hm as ->. }
    cbn [mbind res_bind].
    destruct (push_finish (set_config b c) (seqno (_config b)) [m]) as (b' & Hb' & ? & ? & ? & ? & ?).
    exists [padded s], [m], b'. split_and!; try done.
    + rewrite (Hro (set_config _ _)) in Hb' by done. exact Hb'.
    + repeat constructor. exists e. split_and!; [done| |done]. unfold MAX_MULTIPART_SIZE in *. lia.
    + by repeat constructor.
    + cbn in *. congruence.
Qed.

(** ** Delivery *)

Lemma split_parts_head fuel h i n rem outs :
  split_parts fuel h i n rem = Ok outs -> Forall (fun o => head o = Some "m"%char) outs.
Proof.
  revert i rem outs; induction fuel as [|fuel IH]; intros i rem outs; cbn [split_parts]; [done|].
  destruct (is_nil rem); [intros [= <-]; constructor|]. intros Hs. res_step Hs. res_step Hs.
  injection Hs as <-. constructor; [|by eapply IH].
  unfold encode_part in E. destruct (_ <? _); [done|]. by injection E as <-.
Qed.

Lemma accept_part now st m :
  head m.2 = Some "m"%char ->
  accept_plain now st m =
    let '(ok, c, b) := receive now (in_base st) m in
    {| in_base := b; good_hashes := if (ok : bool) then sinsert m.1 (good_hashes st) else good_hashes st;
       all_hashes := all_hashes st ++ (match c with Some x => [x.1] | None => [] end);
       all_confs := all_confs st ++ (match c with Some x => [x.2] | None => [] end) |}.
Proof.
  destruct m as [h p]. destruct p as [|c0 p]; [done|]. cbn [head snd]. intros [= ->].
  unfold accept_plain, receive. cbn [fst snd].
  change (strip_padding ("m"%char :: p)) with ("m"%char :: p). cbn [is_nil head].
  rewrite bool_decide_eq_true_2 by done.
  destruct (handle_multipart _ _ _ _) as [[ok [[ids conf]|]] b]; [done|]. by rewrite !app_nil_r.
Qed.

Lemma accept_parts now ms st oks cs b :
  Forall (fun m => head m.2 = Some "m"%char) ms ->
  receive_all now (in_base st) ms = (oks, cs, b) -> Forall (fun ok => ok = true) oks ->
  foldl (accept_plain now) st ms =
    {| in_base := b; good_hashes := foldl (fun g m => sinsert m.1 g) (good_hashes st) ms;
       all_hashes := all_hashes st ++ cs.*1; all_confs := all_confs st ++ cs.*2 |}.
Proof.
  intros Hm. revert st oks cs b; induction Hm as [|m ms Hm _ IH]; intros st oks cs b; cbn.
  { intros [= <- <- <-] _. destruct st; cbn. by rewrite !app_nil_r. }
  rewrite accept_part by done. destruct (receive now (in_base st) m) as [[ok c] b1].
  destruct (receive_all now b1 ms) as [[oks' cs'] b2] eqn:E. intros [= <- <- <-] [-> Hoks]%Forall_cons.
  rewrite (IH _ oks' cs' b2) by done. cbn. f_equal.
  - by destruct c as [[? ?]|]; cbn; rewrite <- ?app_assoc, ?app_nil_r.
  - by destruct c as [[? ?]|]; cbn; rewrite <- ?app_assoc, ?app_nil_r.
Qed.

(** Collecting parts does not touch the rest of the object. *)
Definition same_core (b b' : ConfigBase) : Prop :=
  _config b' = _config b /\ _keys b' = _keys b /\ _state b' = _state b /\
  _curr_hashes b' = _curr_hashes b /\ _old_hashes b' = _old_hashes b.

Lemma receive_all_core now b ms : same_core b (receive_all now b ms).2.
Proof.
  revert b; induction ms as [|m ms IH]; intros b; [done|]. cbn.
  destruct (receive now b m) as [[ok c] b1] eqn:E.
  assert (same_core b b1) as Hc.
  { unfold receive, handle_multipart in E.
    repeat case_match; simplify_eq; done. }
  specialize (IH b1). destruct (receive_all now b1 ms) as [[oks cs] b2]. cbn in *.
  unfold same_core in *. intuition congruence.
Qed.

(** An object that has nothing yet: the plaintexts of a push reach it as one message. *)
Lemma deliver now b s r plains ids :
  s = "d"%char :: r -> plaintexts s = Ok plains -> size_of (padded s) <= MAX_MULTIPART_SIZE ->
  length ids = length plains -> mfind (generichash 32 [] (padded s)) (_multiparts b) = None ->
  exists b', same_core b b' /\
    foldl (accept_plain now) {| in_base := b; good_hashes := []; all_hashes := []; all_confs := [] |}
      (zip ids plains) =
    {| in_base := b'; good_hashes := foldl (fun g h => sinsert h g) [] ids; all_hashes := [ids];
       all_confs := [s] |}.
Proof.
  intros Es Hp Hsz Hl Hmp. unfold plaintexts in Hp.
  destruct (Z.ltb_spec MAX_MESSAGE_SIZE (size_of (padded s) + ENCRYPT_DATA_OVERHEAD)) as [Hbig|Hsm].
  - assert (splittable (padded s)) as Hsp by (unfold splittable; lia).
    set (idf := fun i => value_or (ids !! i) []).
    assert (zip ids plains = (fun io : nat * bytes => (idf io.1, io.2)) <$> imap (fun i o => (i, o)) plains) as Hz.
    { rewrite fmap_imap. apply list_eq. intros i. rewrite lookup_zip_with, list_lookup_imap.
      unfold idf. destruct (plains !! i) as [o|] eqn:Eo; cbn; [|by destruct (ids !! i)].
      destruct (ids !! i) as [x|] eqn:Ei; [done|].
      apply lookup_lt_Some in Eo. apply lookup_ge_None in Ei. lia. }
    destruct (reassemble now (padded s) idf plains (imap (fun i o => (i, o)) plains) (zip ids plains) s b)
      as (b' & Hr); [done..| |].
    { by eapply decode_padded. }
    exists b'. split.
    { pose proof (receive_all_core now b (zip ids plains)) as Hc. by rewrite Hr in Hc. }
    erewrite accept_parts; [| |exact Hr|].
    + cbn. assert (imap (fun i _ => idf i) plains = ids) as ->.
      { apply list_eq. intros i. rewrite list_lookup_imap. unfold idf.
        destruct (plains !! i) as [o|] eqn:Eo, (ids !! i) as [x|] eqn:Ei; cbn; try done.
        - apply lookup_lt_Some in Eo. apply lookup_ge_None in Ei. lia.
        - apply lookup_lt_Some in Ei. apply lookup_ge_None in Eo. lia. }
      f_equal. assert (forall g, foldl (fun g m => sinsert m.1 g) g (zip ids plains) =
                          foldl (fun g h => sinsert h g) g ids) as Hg; [|apply Hg].
      clear -Hl. revert plains Hl; induction ids as [|i ids IH]; intros [|p ps] Hl g; try done.
      cbn. apply IH. by injection Hl.
    + apply split_parts_head in Hp. apply Forall_forall. intros [i o] Ho.
      apply elem_of_zip_r in Ho. rewrite Forall_forall in Hp. by apply Hp.
    + by apply Forall_replicate.
  - injection Hp as <-. destruct ids as [|i [|? ?]]; [done| |done]. exists b. split; [done|].
    cbn [zip zip_with foldl]. by rewrite (accept_padded now _ i s r Es).
Qed.

(** ** Merging into a new object *)

Lemma merge_single s vf sg l eh m :
  parse_message s vf sg l false = Ok m -> in_int64 (seqno m + l) = true -> 1 <= l ->
  merge_message [s] vf sg l eh = Ok (with_unmerged m (Some O)).
Proof.
  intros Hp Ha Hl. unfold merge_message. cbn [parse_confs]. rewrite Hp. cbn [mbind res_bind is_nil].
  pose proof (parse_message_sound _ _ _ _ _ _ Hp) as (Hpo & _).
  unfold merge_configs. cbn [mark_redundant redundant_with Nat.eqb orb]. unfold too_old.
  rewrite int64_add_ok by done. cbn [mbind res_bind].
  assert (max_seqno [m] = seqno m) as ->.
  { unfold max_seqno. cbn. apply po_seqno in Hpo. unfold in_int64 in Hpo. bool_prop.
    destruct (Z.ltb_spec INT64_MIN (seqno m)); lia. }
  by rewrite (proj2 (Z.leb_gt (seqno m + l) (seqno m))) by lia.
Qed.

(** A new object: nothing received yet, and nothing of its own. *)
Definition new_object (k : bytes) (vf : option verify_callable) (sg : option sign_callable)
    (b : ConfigBase) : Prop :=
  (exists ks, _keys b = k :: ks) /\ _state b = Clean /\ seqno (_config b) = 0 /\
  _multiparts b = [] /\ _curr_hashes b = [] /\ verifier (_config b) = vf /\ signer (_config b) = sg.

Lemma hash_set_foldl ids g :
  ssorted g -> foldl (fun g h => sinsert h g) g ids = insert_all ids g.
Proof.
  intros Hg. apply sext; [|by apply insert_all_sorted|].
  - revert g Hg; induction ids; cbn; auto with session.
  - intros x. rewrite insert_all_In. revert g Hg; induction ids as [|i ids IH]; intros g Hg; cbn; [set_solver|].
    rewrite IH by auto with session. rewrite sinsert_In. set_solver.
Qed.

(** The ciphertexts of the message [s] are not by chance what [unwrap_config] accepts. *)
Definition not_wrapped (k s : bytes) : Prop :=
  accepts_protobuf ty = true -> forall plains p c,
    plaintexts s = Ok plains -> p ∈ plains -> encrypt p k (encryption_domain ty) = Ok c ->
    is_ok (unwrap_config k c (storage_namespace ty)) = false.

(** The receiver finds the ciphertexts in the messages. *)
Lemma unwrap_messages k plains msgs :
  (forall p c, p ∈ plains -> encrypt p k (encryption_domain ty) = Ok c ->
     is_ok (unwrap_config k c (storage_namespace ty)) = false) ->
  Forall2 (carries k) plains msgs ->
  Forall2 (fun p c => encrypt p k (encryption_domain ty) = Ok c /\ size_of p < 2 ^ 63) plains
    (unwrap_protobuf ty k <$> msgs).
Proof.
  intros Hn Hf. induction Hf as [|p m plains msgs (c & Hc & Hs & Hm) _ IH]; [constructor|]. constructor.
  - split; [|done]. assert (Hu : is_ok (unwrap_config k c (storage_namespace ty)) = false) by (apply (Hn p); [left|done]).
    unfold unwrap_protobuf. destruct Hm as [->|[_ ->]]; by destruct (unwrap_config k c _).
  - apply IH. intros p' c' Hp'. apply Hn. by right.
Qed.
(** Without wrapping the messages are the ciphertexts. *)
Lemma plain_messages k plains msgs :
  accepts_protobuf ty = false -> Forall2 (carries k) plains msgs ->
  Forall2 (fun p c => encrypt p k (encryption_domain ty) = Ok c /\ size_of p < 2 ^ 63) plains msgs.
Proof.
  intros Ha Hf. eapply Forall2_impl; [exact Hf|]. intros p m (c & Hc & Hs & [->|[? _]]); [done|congruence].
Qed.
(** What [merge] gets out of the messages. *)
Lemma merge_messages now b k ks s plains msgs ids :
  _keys b = k :: ks -> not_wrapped k s -> plaintexts s = Ok plains -> Forall2 (carries k) plains msgs ->
  length ids = length msgs ->
  exists cs, merge ty now b (zip ids msgs) = merge_plain ty now b (zip ids cs) /\
    Forall2 (fun p c => encrypt p k (encryption_domain ty) = Ok c /\ size_of p < 2 ^ 63) plains cs /\ length ids = length cs.
Proof.
  intros Hk Hn Hp Hf Hl. unfold merge. rewrite Hk. destruct (accepts_protobuf ty) eqn:Ea.
  - exists (unwrap_protobuf ty k <$> msgs). split_and!; [|by apply unwrap_messages; [intros p c; by apply (Hn Ea)|]|by rewrite length_fmap].
    f_equal. clear. revert msgs. induction ids as [|i ids IH]; intros [|m msgs]; [done..|]. cbn. f_equal. apply IH.
  - exists msgs. split_and!; [done|by apply plain_messages|done].
Qed.

Lemma push_merge now now' b1 b2 k vf sg :
  wrappable -> (exists ks, _keys b1 = k :: ks) -> key_fits k ->
  sendable (_config b1) -> verifies vf (_config b1) true -> lag (_config b1) = config_lags ty ->
  1 <= config_lags ty -> in_int64 (seqno (_config b1) + config_lags ty) = true ->
  seqno (_config b1) <> 0 -> new_object k vf sg b2 ->
  (forall s c, serialize (_config b1) true = Ok (s, c) -> size_of (padded s) <= MAX_MULTIPART_SIZE /\ not_wrapped k s) ->
  exists msgs obs b1', push ty now b1 = Ok ((seqno (_config b1), msgs, obs), b1') /\
    forall ids, length ids = length msgs ->
    exists b2', merge ty now' b2 (zip ids msgs) = Ok (hash_set ids, b2') /\
      data_ (_config b2') = sent_data (_config b1) /\ seqno (_config b2') = seqno (_config b1) /\
      _state b2' = Clean /\ _curr_hashes b2' = hash_set ids /\ _keys b2' = _keys b2.
Proof.
  intros Hpb [ks Hks] Hk Hsn Hvf Hlag Hl1 Hov Hne0 (Hk2 & Hst & Hsq0 & Hmp & Hch & Hv2 & Hsg2) Hsz.
  destruct (serialize_sendable _ true vf sg false Hsn Hvf) as
    (s & c & m & Hs & [r Er] & Hpar & Hdat & Hsh & _ & _ & Hmv & Hms & _).
  destruct (Hsz s c Hs) as [Hsz' Hnw]. clear Hsz.
  destruct (push_ok now b1 k ks s c Hpb Hks Hk Hs Hsz')
    as (plains & msgs & b1' & Hpl & Hpush & Hf2 & _ & _).
  eexists msgs, _, b1'. split; [exact Hpush|]. intros ids Hlen.
  destruct Hk2 as [ks2 Hk2]. destruct (merge_messages now' b2 k ks2 s plains msgs ids Hk2 Hnw Hpl Hf2 Hlen) as (cs & -> & Hf2' & Hlen').
  clear Hlen Hf2. unfold merge_plain. rewrite Hk2.
  assert (is_dirty b2 = false) as Hnd by (unfold is_dirty; by rewrite Hst).
  cbn [is_nil throw_if mbind res_bind]. rewrite Hsq0, Hnd. cbn [Z.eqb negb orb andb]. rewrite Hk2, (decrypt_all_ok k ks2 plains cs ids Hf2' Hk Hlen'). cbn [mbind res_bind].
  destruct (deliver now' b2 s r plains ids) as (b2' & (C1 & C2 & C3 & C4 & C5) & Hdel); try done.
  { by rewrite Hlen', (Forall2_length _ _ _ Hf2'). }
  { by rewrite Hmp. }
  rewrite Hdel. cbn [all_hashes all_confs in_base good_hashes app is_nil].
  set (b3 := expire_multiparts now' b2').
  assert (is_dirty b3 = false) as Hnd3.
  { unfold is_dirty. change (_state b3) with (_state b2'). by rewrite C3, Hst. }
  change (_config b3) with (_config b2'). rewrite C1, Hv2, Hsg2, Hnd3.
  unfold make_config_message. rewrite <- Hlag in *. assert (seqno m = seqno (_config b1)) as Hsm.
  { unfold seqno at 1. by rewrite Hsh. }
  rewrite (merge_single s vf sg _ _ m Hpar) by (rewrite ?Hsm; done). cbn [mbind res_bind].
  cbn [bad_confs]. rewrite Hpar || (rewrite <- Hlag, Hpar). cbn [unmerged_ with_unmerged].
  unfold adopt. change (seqno (with_unmerged m (Some O))) with (seqno m). rewrite Hsm.
  rewrite (proj2 (Z.eqb_neq _ _)) by done. cbn [merged unmerged_ with_unmerged].
  unfold is_dirty. cbn [_state set_hashes]. change (_state b3) with (_state b2'). rewrite C3, Hst.
  rewrite (bool_decide_eq_false_2 (Clean = Dirty)) by done. cbn [andb].
  unfold set_state. cbn [_state _curr_hashes set_config set_hashes].
  rewrite (bool_decide_eq_false_2 (Clean = Dirty)) by done. cbn [andb].
  change (_curr_hashes b3) with (_curr_hashes b2'). rewrite C4, Hch. cbn [is_nil negb].
  rewrite andb_false_r. cbn [mbind res_bind lookup list_lookup].
  eexists. split.
  { f_equal. f_equal. cbn [drop_bad]. rewrite (bool_decide_eq_false_2 (0%nat ∈ [])) by set_solver.
    cbn [negb]. rewrite orb_true_r. rewrite hash_set_foldl by constructor. done. }
  cbn. unfold seqno. cbn. rewrite Hsh. split_and!; try done. by rewrite C2.
Qed.
End WithLibraries.

(** ** Merging converges *)

(** A message as the library itself writes it. *)
Definition sound_conf (c : ConfigMessage) : Prop :=
  wf_dict (data_ c) /\ valid_diff (diff_ c) /\ wf_lags (lagged_diffs_ c) /\
  in_int64 (seqno c) = true /\ size_of (seqno_hash_ c).2 = HASH_SIZE.

Section WithLibraries.
Context `{Oxenc} `{Blake2b}.

Lemma sound_replayable c : sound_conf c -> replayable c.
Proof.
  intros (Hd & Hv & [Hs Hf] & _). split_and!; [done..|].
  eapply Forall_impl; [apply Hf|]. by intros e (_ & _ & ?).
Qed.

Lemma merge_configs_merged configs vf sg l m :
  merge_configs configs vf sg l = Ok m -> unmerged_ m = None ->
  exists marked, mark_redundant l (max_seqno configs) configs 0 configs = Ok marked /\
    merge_sorted_confs (sort_desc (good marked)) (max_seqno configs) vf sg l = Ok m.
Proof.
  unfold merge_configs. intros Hm Hu. res_step Hm. exists a. split; [done|].
  destruct (count_good a =? 1)%nat.
  - destruct (first_good 0 a) as [[i c]|]; [|done]. by injection Hm as <-.
  - destruct vf, sg; try done. destruct a as [|c a]; [done|].
    destruct (max_entry _ _ _) as [i [best r]]. by injection Hm as <-.
Qed.

Lemma merge_sorted_callables cs mx vf sg l m :
  merge_sorted_confs cs mx vf sg l = Ok m ->
  verifier m = vf /\ signer m = sg /\ in_int64 (mx + 1) = true.
Proof.
  unfold merge_sorted_confs. intros Hm. res_step Hm. res_step Hm.
  destruct (prune_dict a0) as [b d] eqn:Ep. res_step Hm. injection Hm as <-.
  unfold int64_add in E. res_step E. done.
Qed.

(** The merged message records only well-formed changes. *)
Lemma merged_lags_wf cs mx vf sg l m :
  Forall sound_conf cs -> merge_sorted_confs cs mx vf sg l = Ok m -> wf_lags (lagged_diffs_ m).
Proof.
  intros Hf Hm. assert (Forall (fun c => msorted (lagged_diffs_ c)) cs) as Hl.
  { eapply Forall_impl; [apply Hf|]. by intros ? (_ & _ & [? _] & _). }
  split; [by eapply merged_lags_sorted|].
  apply merge_sorted_inv in Hm as (_ & _ & _ & _ & _ & _ & -> & _).
  apply Forall_fmap, Forall_forall. intros [k x] Hin. cbn.
  destruct (build_replay_find cs k Hl) as [Hs Hk]. apply In_mfind in Hin; [|done].
  rewrite Hk in Hin. apply first_contribution_inv in Hin as (c & Hc & Hor).
  rewrite Forall_forall in Hf. destruct (Hf c Hc) as (_ & Hv & [_ Hw] & Hz & Hh).
  destruct Hor as [[-> ->]|(d & Hd & ->)]; [done|].
  rewrite Forall_forall in Hw. by destruct (Hw _ Hd) as (? & ? & ?).
Qed.

Lemma merged_sendable cs mx vf sg l m :
  Forall sound_conf cs -> cs <> [] -> merge_sorted_confs cs mx vf sg l = Ok m ->
  in_int64 (mx + 1 - l) = true -> sign_ok sg -> sendable m.
Proof.
  intros Hf Hne Hm Hi Hsg. pose proof (merged_lags_wf _ _ _ _ _ _ Hf Hm) as Hw.
  destruct (merge_sorted_callables _ _ _ _ _ _ Hm) as (_ & Hs & Hi').
  apply merge_sorted_inv in Hm as (d & Hr & Ed & Es & Edf & Eu & _ & El & Ev & Eo).
  assert (wf_dict d) as Hd.
  { destruct (run_replay_valid (match cs with c :: _ => data_ c | [] => [] end) (build_replay cs))
      as (d' & Hr' & Hd); [| |congruence].
    - destruct Hf as [|c cs Hc _]; [done|]. apply Hc.
    - apply build_replay_valid. eapply Forall_impl; [apply Hf|]. apply sound_replayable. }
  apply prune_dict_good in Hd as [Hd Hp].
  constructor; rewrite ?Ed, ?Es, ?Eu, ?El, ?Hs, ?Eo, ?Edf, ?Ev; try done;
    try by repeat constructor.
Qed.

Lemma merged_received cs mx vf sg l m s c m' :
  merge_sorted_confs cs mx vf sg l = Ok m -> serialize m true = Ok (s, c) ->
  parse_message s vf sg (lag m) false = Ok m' -> seqno_hash_ m' = (seqno m, hash_msg s) ->
  lagged_diffs_ m' = window (seqno m) (lag m) (lagged_diffs_ m) -> received_as l m m'.
Proof.
  intros Hm _ Hp Hs Hlg. apply merge_sorted_inv in Hm as (_ & _ & _ & _ & _ & _ & _ & El & _).
  rewrite El in *. split_and!; [unfold seqno; by rewrite Hs|done|].
  by apply parse_message_sound in Hp as [? _].
Qed.

Lemma merge_converges configs vf sg l m :
  Forall (parsed_ok l) configs -> Forall sound_conf configs -> 1 <= l -> configs <> [] ->
  merge_configs configs vf sg l = Ok m -> unmerged_ m = None ->
  in_int64 (seqno m - l) = true -> in_int64 (seqno m + l) = true ->
  sign_ok sg -> verifies vf m true ->
  exists s m', serialize m true = Ok (s, m) /\ parse_message s vf sg l false = Ok m' /\
    data_ m' = data_ m /\ seqno m' = seqno m /\
    erase_index <$> merge_configs (m' :: configs) vf sg l = Ok (with_unmerged m' (Some O)).
Proof.
  intros Hpo Hsc Hl Hne Hm Hu Hi1 Hi2 Hsg Hvf.
  destruct (merge_configs_merged _ _ _ _ _ Hm Hu) as (marked & Hmk & Hms).
  pose proof (merge_sorted_inv _ _ _ _ _ _ Hms) as (d & _ & _ & Es & Edf & _ & _ & El & _ & Eo).
  assert (sendable m) as Hsend.
  { eapply merged_sendable; [| |exact Hms|by rewrite <- Es|done].
    - apply Forall_forall. intros c Hc. rewrite sort_desc_perm in Hc.
      destruct (mark_redundant_good l _ [] _ _ Hpo Hmk) as (_ & Hin & _).
      apply Hin in Hc as [Hc _]. rewrite Forall_forall in Hsc. by apply Hsc.
    - intros Hnil. pose proof (sort_desc_perm (good marked)) as Hp. rewrite Hnil in Hp.
      apply Permutation_nil_l in Hp. by apply (good_nonempty l _ _ Hpo Hl Hne Hmk). }
  destruct (serialize_sendable m true vf sg false Hsend Hvf) as
    (s & c & m' & Hs & _ & Hpar & Hd & Hsh & _ & Hlg & _).
  exists s, m'. assert (c = m) as ->.
  { unfold serialize, diff in Hs. rewrite Eo in Hs. res_step Hs. by injection Hs as _ <-. }
  rewrite El in Hpar. unfold sent_data in Hd. rewrite Eo in Hd.
  split_and!; [done|done|done|unfold seqno; by rewrite Hsh|].
  eapply merge_again; [done|done|exact Hmk|exact Hms| |done].
  eapply merged_received; [done..|by rewrite El|done|done].
Qed.

(** ** Merging serialized messages in any order *)

(** What a message parses to, if it does. *)
Definition parsed (vf : option verify_callable) (sg : option sign_callable) (l : Z) (s : bytes) :
    option ConfigMessage :=
  match parse_message s vf sg l false with Ok m => Some m | Throw _ => None end.

(** The message parses, or is refused with an error that the merge reports and skips. *)
Definition skippable (vf : option verify_callable) (sg : option sign_callable) (l : Z) (s : bytes) :
    Prop :=
  match parse_message s vf sg l false with Ok _ => True | Throw e => is_config_error e = true end.

Lemma parse_confs_skip confs i vf sg l :
  Forall (skippable vf sg l) confs ->
  parse_confs confs i vf sg l (fun _ _ => Ok tt) = Ok (omap (parsed vf sg l) confs).
Proof.
  intros Hf. revert i; induction Hf as [|s confs Hs _ IH]; intros i; [done|].
  cbn [parse_confs]. change (omap (parsed vf sg l) (s :: confs)) with
    (match parsed vf sg l s with
     | Some y => y :: omap (parsed vf sg l) confs | None => omap (parsed vf sg l) confs end).
  unfold skippable in Hs. unfold parsed at 1.
  destruct (parse_message s vf sg l false) as [m|e]; [by rewrite IH|]. rewrite Hs. cbn. by rewrite IH.
Qed.

Lemma merge_message_perm confs1 confs2 vf sg l :
  confs1 ≡ₚ confs2 -> Forall (skippable vf sg l) confs1 ->
  (forall s s', s ∈ confs1 -> s' ∈ confs1 -> hash_msg s = hash_msg s' -> s = s') -> 1 <= l ->
  erase_index <$> merge_message confs1 vf sg l (fun _ _ => Ok tt) =
  erase_index <$> merge_message confs2 vf sg l (fun _ _ => Ok tt).
Proof.
  intros Hp Hf Hh Hl. assert (Forall (skippable vf sg l) confs2) as Hf2 by (by rewrite <- Hp).
  assert (omap (parsed vf sg l) confs1 ≡ₚ omap (parsed vf sg l) confs2) as Ho.
  { clear -Hp. induction Hp; cbn; repeat case_match; try done; try by constructor. by etrans. }
  unfold merge_message. rewrite !parse_confs_skip by done. cbn [mbind res_bind].
  assert (forall c, c ∈ omap (parsed vf sg l) confs1 ->
            exists s, s ∈ confs1 /\ parse_message s vf sg l false = Ok c) as Hin.
  { intros c (s & Hs & Hc)%list_elem_of_omap. exists s. split; [done|]. unfold parsed in Hc.
    destruct (parse_message s vf sg l false); naive_solver. }
  destruct (omap _ confs1) as [|c1 cs1] eqn:E1.
  { apply Permutation_nil_l in Ho. by rewrite <- Ho. }
  destruct (omap _ confs2) as [|c2 cs2] eqn:E2; [by apply Permutation_nil_r in Ho|].
  cbn [is_nil]. apply merge_configs_perm; [done| | |done|done].
  - apply Forall_forall. intros c (s & _ & Hs)%Hin. by apply parse_message_sound in Hs as [? _].
  - intros c c' (s & Hs & Hc)%Hin (s' & Hs' & Hc')%Hin He.
    pose proof (parse_message_sound _ _ _ _ _ _ Hc) as (_ & _ & _ & _ & H1).
    pose proof (parse_message_sound _ _ _ _ _ _ Hc') as (_ & _ & _ & _ & H2).
    assert (s = s') by (apply Hh; congruence). congruence.
Qed.
End WithLibraries.
