(* ===== verification/DumpFacts.v ===== *)
(** * Facts about dumping and reloading a config object *)
From S2P Require Import Prelude OMap BtValue ThirdParty ConfigData ConfigDataFacts ConfigParse.
From S2P Require Import ConfigParseFacts ConfigMessage MessageFacts MergeFacts ReplayFacts.
From S2P Require Import ReplayFacts Encrypt SessionEncrypt Protos ConfigBase BaseFacts.
From S2P Require Import Multipart BaseSync SyncFacts.

Definition in_int32 (z : Z) : bool := (- 2 ^ 31 <=? z) && (z <? 2 ^ 31).

(** A set of parts as the object builds it. *)
Definition wf_parts (e : bytes * PartialMessages) : Prop :=
  size_of e.1 = HASH_SIZE /\ in_int64 (pms_expiry e.2) = true /\ in_int32 (pms_size e.2) = true /\
  Forall (fun p => in_int32 (pm_index p) = true) (pms_parts e.2) /\
  (pms_done e.2 = false -> 0 < pms_size e.2 \/ pms_parts e.2 = []).

(** What is left of a set of parts after a dump: that it was completed is forgotten. *)
Definition reloaded_parts (p : PartialMessages) : PartialMessages :=
  {| pms_done := false; pms_size := if pms_done p then 0 else pms_size p;
     pms_parts := if pms_done p then [] else pms_parts p; pms_expiry := pms_expiry p |}.

Record dumpable (b : ConfigBase) : Prop := {
  db_config : sendable (_config b);
  db_state : _state b = Clean \/ _state b = Waiting;
  db_curr : ssorted (_curr_hashes b);
  db_old : ssorted (_old_hashes b);
  db_sorted : msorted (_multiparts b);
  db_parts : Forall wf_parts (_multiparts b);
  db_extra : bt_wf_dict (_extra b)
}.

Section WithLibraries.
Context `{Oxenc} `{CryptoBox} `{Aead} `{Zstd} `{Protobuf}.
Variable ty : ConfigType.

Lemma in_int32_bt z : in_int32 z = true -> bt_wf (BInt z) /\ as_int32 (BInt z) = Ok z.
Proof.
  intros Hz. split; [|cbn; unfold in_int32 in Hz; by rewrite Hz].
  unfold in_int32 in Hz. bool_prop. cbn. unfold INT64_MIN, UINT64_MAX. lia.
Qed.

(** ** Message parts *)

Lemma load_dump_part p : in_int32 (pm_index p) = true -> load_part (dump_part p) = Ok p.
Proof.
  intros Hi%in_int32_bt. unfold load_part, dump_part. cbn [as_dict mbind res_bind].
  rewrite (proj2 Hi). cbn. by destruct p.
Qed.

Lemma load_part_list acc ps :
  Forall (fun p => in_int32 (pm_index p) = true) ps ->
  foldM (fun ps x => p ← load_part x; Ok (ps ++ [p])) acc (dump_part <$> ps) = Ok (acc ++ ps).
Proof.
  intros Hf. revert acc; induction Hf as [|p ps Hp _ IH]; intros acc; cbn [fmap list_fmap foldM].
  { by rewrite app_nil_r. }
  rewrite load_dump_part by done. cbn [mbind res_bind]. unfold fmap in IH. rewrite IH.
  by rewrite <- app_assoc.
Qed.

Lemma load_dump_parts now k p :
  wf_parts (k, p) -> now <= pms_expiry p ->
  load_parts now k (dump_parts p) = Ok (Some (reloaded_parts p)).
Proof.
  intros (Hk & He & Hs & Hf & Hd) Hnow. cbn [fst snd] in *. unfold load_parts, dump_parts.
  cbn [as_dict mbind res_bind]. rewrite Hk. cbn [Z.eqb Pos.eqb negb HASH_SIZE].
  unfold require at 1. cbn [app skip_pairs]. rewrite kltb_refl. cbn [snd]. rewrite keqb_refl.
  assert (in_int32 (if pms_done p then 0 else pms_size p) = true) as Hs' by (by destruct (pms_done p)).
  rewrite (proj2 (in_int32_bt _ Hs')). cbn [mbind res_bind].
  unfold require at 1. cbn [skip_pairs]. rewrite kltb_refl. cbn [snd]. rewrite keqb_refl.
  cbn [as_int64]. rewrite He. cbn [mbind res_bind]. rewrite (proj2 (Z.ltb_ge _ _)) by lia.
  unfold reloaded_parts. destruct (pms_done p) eqn:Ed; [done|].
  destruct (Z.ltb_spec 0 (pms_size p)) as [Hpos|Hneg].
  - unfold require. cbn [skip_pairs]. rewrite kltb_refl. cbn [snd]. rewrite keqb_refl.
    cbn [as_list mbind res_bind]. rewrite load_part_list by done. done.
  - destruct (Hd eq_refl) as [?|Hn]; [lia|]. by rewrite Hn.
Qed.

Definition unexpired (now : Z) (m : list (bytes * PartialMessages)) : list (bytes * PartialMessages) :=
  filter (fun e => now <= pms_expiry e.2) m.

Lemma load_dump_multiparts now b :
  msorted (_multiparts b) -> Forall wf_parts (_multiparts b) ->
  load_multiparts now (dump_multiparts now b) [] =
    Ok ((fun e => (e.1, reloaded_parts e.2)) <$> unexpired now (_multiparts b)).
Proof.
  intros Hs Hf. unfold dump_multiparts, load_multiparts. fold (unexpired now (_multiparts b)).
  assert (msorted (unexpired now (_multiparts b))) as Hs' by (by apply msorted_filter).
  assert (Forall (fun e => wf_parts e /\ now <= pms_expiry e.2) (unexpired now (_multiparts b))) as Hf'.
  { apply Forall_forall. intros e [? He]%list_elem_of_filter. rewrite Forall_forall in Hf. auto. }
  generalize dependent (unexpired now (_multiparts b)). intros l Hs' Hf'.
  assert (forall acc : list (bytes * PartialMessages), msorted (acc ++ ((fun e => (e.1, reloaded_parts e.2)) <$> l)) ->
    foldM (fun m kv => o ← load_parts now kv.1 kv.2;
                       Ok (match o with Some p => minsert kv.1 p m | None => m end)) acc
      ((fun e => (e.1, dump_parts e.2)) <$> l) =
    Ok (acc ++ ((fun e => (e.1, reloaded_parts e.2)) <$> l))) as Hg.
  { clear -Hf'. induction Hf' as [|[k p] l [Hw Hn] _ IH]; intros acc Ha; cbn [fmap list_fmap foldM fst snd].
    { by rewrite app_nil_r. }
    rewrite load_dump_parts by done. cbn [mbind res_bind]. cbn [fmap list_fmap fst snd] in Ha.
    rewrite minsert_last.
    2: { apply msorted_app in Ha as (_ & _ & Hlt). apply Forall_forall. intros q Hq.
         apply (Hlt q (k, reloaded_parts p) Hq). by left. }
    unfold fmap in IH, Ha. rewrite IH by (by rewrite <- app_assoc). by rewrite <- app_assoc. }
  apply (Hg []). unfold msorted in *. cbn. by rewrite <- list_fmap_compose.
Qed.

(** ** Hashes *)

Lemma strings_of_sorted l : ssorted l -> strings_of (BStr <$> l) = Ok l.
Proof.
  intros Hs. unfold strings_of.
  assert (forall acc, foldM (fun s v => x ← as_string v; Ok (sinsert x s)) acc (BStr <$> l) =
                      Ok (foldl (fun g h => sinsert h g) acc l)) as Hg.
  { clear. induction l as [|x l IH]; intros acc; [done|]. cbn [fmap list_fmap foldM as_string mbind res_bind foldl].
    apply IH. }
  rewrite Hg, hash_set_foldl by constructor. f_equal. apply sext; [apply insert_all_sorted; constructor|done|].
  intros x. rewrite insert_all_In. set_solver.
Qed.

(** ** The whole object *)

Abbreviation dcx src pos rest :=
  {| dc_src := src; dc_pos := pos; dc_rest := rest; dc_complete := true |}.

Lemma dc_skip_here src pos k v X :
  dc_skip_until k (dcx src pos ((k, v) :: X)) = Ok (true, dcx src (pos + 0)%nat ((k, v) :: X)).
Proof.
  unfold dc_skip_until. cbn [dc_rest skip_pairs]. rewrite kltb_refl. cbn [dc_src dc_pos dc_complete].
  by rewrite keqb_refl.
Qed.

Lemma dump_multiparts_wf now b :
  msorted (_multiparts b) -> Forall wf_parts (_multiparts b) -> bt_wf_dict (dump_multiparts now b).
Proof.
  intros Hs Hf. unfold dump_multiparts. split.
  - unfold msorted. rewrite <- list_fmap_compose. apply (msorted_filter _ _ Hs).
  - rewrite Forall_fmap. apply Forall_forall. intros e [_ He]%list_elem_of_filter.
    rewrite Forall_forall in Hf. apply Hf in He as (_ & He & Hz & Hp & _). cbn [snd compose].
    unfold dump_parts. apply bt_wf_BDict. split.
    + destruct (pms_done e.2); repeat constructor.
    + assert (bt_wf (BInt (if pms_done e.2 then 0 else pms_size e.2))).
      { destruct (pms_done e.2); [by apply int64_bt|by apply in_int32_bt]. }
      destruct (pms_done e.2); cbn [app];
        (apply Forall_cons; split; [done|]; apply Forall_cons; split; [by apply int64_bt|]); [done|].
      apply Forall_singleton. cbn [snd]. apply bt_wf_BList. unfold bt_wf_list. rewrite Forall_fmap.
      eapply Forall_impl; [apply Hp|]. intros p Hi. unfold compose, dump_part. apply bt_wf_BDict.
      split; [repeat constructor|]. apply Forall_cons. split; [by apply in_int32_bt|]. by repeat constructor.
Qed.

Lemma dump_load now b :
  dumpable b -> lag (_config b) = config_lags ty ->
  exists s d b' m, make_dump now b = Ok (d, b') /\ serialize (_config b) false = Ok (s, _config b') /\
    load_dump ty now d =
      Ok {| _config := m; _keys := []; _state := _state b; _curr_hashes := _curr_hashes b;
            _old_hashes := _old_hashes b;
            _multiparts := (fun e => (e.1, reloaded_parts e.2)) <$> unexpired now (_multiparts b);
            _needs_dump := false; _sign_sk := None; _sign_pk := None;
            _extra := if keeps_extra ty then _extra b else [] |} /\
    data_ m = sent_data (_config b) /\ seqno_hash_ m = (seqno (_config b), hash_msg s) /\
    unknown_ m = unknown_ (_config b) /\
    lagged_diffs_ m = window (seqno (_config b)) (config_lags ty) (lagged_diffs_ (_config b)).
Proof.
  intros [Hc Hst Hcu Hol Hms Hmp Hex] Hl.
  destruct (serialize_sendable _ false None None true Hc) as
    (s & c & m & Hs & _ & Hpar & Hd & Hsh & Hu & Hlg & _); [by intros body|].
  set (pairs := [(bs "!", BInt (state_value (_state b))); (bs "$", BStr s);
         (bs "(", BList (BStr <$> _curr_hashes b)); (bs ")", BList (BStr <$> _old_hashes b));
         (bs "*", BDict (dump_multiparts now b)); (bs "+", BDict (_extra b))]).
  assert (in_int32 (state_value (_state b)) = true) as Hsv by (by destruct Hst as [->| ->]).
  assert (forall l : list bytes, bt_wf (BList (BStr <$> l))) as Hstr.
  { intros l. apply bt_wf_BList. unfold bt_wf_list. rewrite Forall_fmap. by apply Forall_forall. }
  assert (bt_wf_dict pairs) as Hw.
  { split; [by repeat constructor|]. unfold pairs. rewrite !Forall_cons. cbn [snd].
    split_and!; try done; try apply Hstr.
    - by apply in_int32_bt.
    - by apply bt_wf_BDict, dump_multiparts_wf.
    - by apply bt_wf_BDict. }
  exists s, (bt_dict_print pairs), (set_config b c), m.
  unfold make_dump. rewrite Hs. split_and!; [done|done| |done|done|done|by rewrite <- Hl].
  unfold load_dump. rewrite <- (app_nil_r (bt_dict_print pairs)), dc_open_print by done.
  cbn [mbind res_bind]. unfold pairs. rewrite dc_skip_here. cbn [negb throw_if mbind res_bind].
  rewrite dc_next_cons, (proj2 (in_int32_bt _ Hsv)). cbn [fmap res_fmap mbind res_bind].
  rewrite dc_skip_here. cbn [negb throw_if mbind res_bind]. rewrite dc_next_cons.
  cbn [as_string mbind res_bind].
  assert (state_of_value (state_value (_state b)) = _state b) as -> by (by destruct Hst as [->| ->]).
  rewrite (bool_decide_eq_false_2 (_state b = Dirty)) by (destruct Hst as [->| ->]; done).
  rewrite <- Hl, Hpar. cbn [mbind res_bind]. unfold load_hashes. rewrite dc_skip_here, dc_next_cons.
  rewrite strings_of_sorted by done. cbn [mbind res_bind]. rewrite dc_skip_here.
  cbn [negb throw_if mbind res_bind]. rewrite dc_next_cons. cbn [as_list mbind res_bind].
  rewrite strings_of_sorted by done. cbn [mbind res_bind]. rewrite dc_skip_here, dc_next_cons.
  cbn [as_dict mbind res_bind]. rewrite load_dump_multiparts by done. cbn [mbind res_bind].
  rewrite dc_skip_here. by rewrite dc_next_cons.
Qed.
End WithLibraries.
