(* ===== verification/MultiEncrypt.v ===== *)
(** * Encryption for several recipients

    [include/session/multi_encrypt.hpp] and [src/multi_encrypt.cpp]: one copy of a message (or one
    message each) encrypted for every recipient under a key both sides derive from a key exchange,
    and decryption by trying every copy. *)
From S2P Require Import Prelude OMap BtValue ThirdParty ConfigData ConfigParse Encrypt Protos ConfigBase.
From S2P Require Import Multipart.

(** [catch (...)]: undefined behaviour and exhausted fuel are not exceptions. *)
Definition catch_all {A} (r : res A) (fallback : A) : res A :=
  match r with
  | Throw UB => Throw UB
  | Throw OutOfFuel => Throw OutOfFuel
  | Throw _ => Ok fallback
  | Ok a => Ok a
  end.

Section WithSodium.
Context `{Oxenc} `{X25519} `{Aead}.

(** [encrypt_multi_key]: H(aB || S || R) with the sender [S] and the recipient [R]; a/A is the
    caller's key pair. *)
Definition encrypt_multi_key (a A B : bytes) (encrypting : bool) (domain : bytes) : res bytes :=
  match x_scalarmult a B with
  | None => Throw InvalidArgument
  | Some buf =>
      let '(sender, recipient) := if encrypting then (A, B) else (B, A) in
      Ok (generichash 32 (take 64 domain) (buf ++ take 32 sender ++ take 32 recipient))
  end.

Definition encrypt_multi_impl (msg key nonce : bytes) : bytes := aead_encrypt msg (take 24 nonce) key.

Definition decrypt_multi_impl (ciphertext key nonce : bytes) : option bytes :=
  if size_of ciphertext <? XCHACHA_ABYTES then None
  else aead_decrypt ciphertext (take 24 nonce) key.

Definition validate_multi_fields (nonce privkey pubkey : bytes) : res unit :=
  _ ← throw_if (size_of nonce <? 24) LogicError;
  _ ← throw_if (negb (size_of privkey =? 32)) LogicError;
  throw_if (negb (size_of pubkey =? 32)) LogicError.

(** The loop of [encrypt_for_multiple]: what [call] is called with, in order.  A single message
    goes to everybody. *)
Fixpoint encrypt_each (single : bool) (messages recipients : list bytes)
    (nonce privkey pubkey domain : bytes) (ignore_invalid : bool) : res (list bytes) :=
  match recipients with
  | [] => Ok []
  | r :: recipients' =>
      match messages with
      | [] => Throw UB
      | m :: messages' =>
          let rest := encrypt_each single (if single then messages else messages') recipients'
                        nonce privkey pubkey domain ignore_invalid in
          match encrypt_multi_key privkey pubkey r true domain with
          | Throw e => if ignore_invalid then rest else Throw e
          | Ok key => cs ← rest; Ok (encrypt_multi_impl m key nonce :: cs)
          end
      end
  end.

Definition encrypt_for_multiple (messages recipients : list bytes)
    (nonce privkey pubkey domain : bytes) (ignore_invalid : bool) : res (list bytes) :=
  _ ← validate_multi_fields nonce privkey pubkey;
  _ ← throw_if (existsb (fun r => negb (size_of r =? 32)) recipients) LogicError;
  _ ← throw_if (negb (length messages =? 1)%nat &&
                negb (length messages =? length recipients)%nat) LogicError;
  encrypt_each (length messages =? 1)%nat messages recipients nonce privkey pubkey domain
    ignore_invalid.

(** The loop of [decrypt_for_multiple] over the callback [next_ciphertext], a function of the
    state [st] it closes over. *)
Section Decrypt.
Context {St : Type} (next_ciphertext : St -> res (option bytes * St)).

Fixpoint decrypt_loop (fuel : nat) (st : St) (nonce key : bytes) : res (option bytes * St) :=
  match fuel with
  | O => Throw OutOfFuel
  | S fuel =>
      let! (ciphertext, st) := next_ciphertext st in
      match ciphertext with
      | None => Ok (None, st)
      | Some c =>
          match decrypt_multi_impl c key nonce with
          | Some decrypted => Ok (Some decrypted, st)
          | None => decrypt_loop fuel st nonce key
          end
      end
  end.

Definition decrypt_for_multiple (fuel : nat) (st : St)
    (nonce privkey pubkey sender_pubkey domain : bytes) : res (option bytes * St) :=
  _ ← validate_multi_fields nonce privkey pubkey;
  _ ← throw_if (negb (size_of sender_pubkey =? 32)) LogicError;
  key ← encrypt_multi_key privkey pubkey sender_pubkey false domain;
  decrypt_loop fuel st nonce key.
End Decrypt.

(** [if (it == ciphertexts.end()) return nullopt; return *it++;] *)
Definition next_of_list (l : list bytes) : res (option bytes * list bytes) :=
  match l with [] => Ok (None, []) | c :: l' => Ok (Some c, l') end.

(** [decrypt_for_multiple(const std::vector<...>& ciphertexts, ...)] *)
Definition decrypt_from_list (ciphertexts : list bytes)
    (nonce privkey pubkey sender_pubkey domain : bytes) : res (option bytes) :=
  fst <$> decrypt_for_multiple next_of_list (S (length ciphertexts)) ciphertexts
            nonce privkey pubkey sender_pubkey domain.

(** [detail::x_keys] *)
Definition x_keys (ed25519_secret_key : bytes) : res (bytes * bytes) :=
  _ ← throw_if (negb (size_of ed25519_secret_key =? 64)) InvalidArgument;
  match ed_pk_to_curve25519 (drop 32 ed25519_secret_key) with
  | None => Throw RuntimeError
  | Some x_pub => Ok (ed_sk_to_curve25519 ed25519_secret_key, x_pub)
  end.

(** The junk that fills the list up to a multiple of [pad]: [random i] stands for the [i]th
    [randombytes_buf] of [pad_size] bytes. *)
Definition junk_entries (messages : list bytes) (pad msg_count : Z) (random : nat -> Z -> bytes) :
    list bytes :=
  let pad_size := if 1 <? pad then match messages with m :: _ => size_of m | [] => 0 end else 0 in
  if pad_size =? 0 then []
  else (fun i => random i pad_size) <$> seq 0 (Z.to_nat ((- msg_count) mod pad)).

(** [encrypt_for_multiple_simple(messages, recipients, privkey, pubkey, domain, nonce, pad)] *)
Definition encrypt_for_multiple_simple (messages recipients : list bytes)
    (privkey pubkey domain : bytes) (nonce : option bytes) (pad : Z)
    (random_nonce : bytes) (random : nat -> Z -> bytes) : res bytes :=
  nonce ← match nonce with
          | None => Ok random_nonce
          | Some n => if size_of n =? 24 then Ok n else Throw InvalidArgument
          end;
  cs ← encrypt_for_multiple messages recipients nonce privkey pubkey domain false;
  let junk := junk_entries messages pad (size_of cs) random in
  Ok (bt_dict_print [(bs "#", BStr nonce); (bs "e", BList (BStr <$> (cs ++ junk)))]).

(** The overload that takes an Ed25519 secret key; its [nonce] is a span, empty by default, that
    is converted to an engaged [std::optional]. *)
Definition encrypt_for_multiple_simple_ed (messages recipients : list bytes)
    (ed25519_secret_key domain nonce : bytes) (pad : Z)
    (random_nonce : bytes) (random : nat -> Z -> bytes) : res bytes :=
  let! (x_privkey, x_pubkey) := x_keys ed25519_secret_key in
  encrypt_for_multiple_simple messages recipients x_privkey x_pubkey domain (Some nonce) pad
    random_nonce random.

(** The callback over the ["e"] list. *)
Definition next_of_bt_list (l : bt_list) : res (option bytes * bt_list) :=
  match l with [] => Ok (None, []) | v :: l' => s ← as_string v; Ok (Some s, l') end.

(** [d.require<T>(key)] on the outer dict. *)
Definition dc_require (key : bytes) (e : exn) (d : dict_consumer) : res (bt_value * dict_consumer) :=
  let! (found, d) := dc_skip_until key d in
  _ ← throw_if (negb found) e;
  let! (_, v, d) := dc_next d in
  Ok (v, d).

Definition decrypt_for_multiple_simple (encoded privkey pubkey sender_pubkey domain : bytes) :
    res (option bytes) :=
  catch_all
    (d ← dc_open encoded;
     let! (v, d) := dc_require "#" RuntimeError d in
     nonce ← as_string v;
     if negb (size_of nonce =? 24) then Ok None
     else
       let! (v, d) := dc_require "e" RuntimeError d in
       l ← as_list v;
       fst <$> decrypt_for_multiple next_of_bt_list (S (length l)) l
                 nonce privkey pubkey sender_pubkey domain)
    None.

Definition decrypt_for_multiple_simple_x (encoded ed25519_secret_key sender_pubkey domain : bytes) :
    res (option bytes) :=
  let! (x_privkey, x_pubkey) := x_keys ed25519_secret_key in
  decrypt_for_multiple_simple encoded x_privkey x_pubkey sender_pubkey domain.

Definition decrypt_for_multiple_simple_ed25519
    (encoded ed25519_secret_key sender_ed25519_pubkey domain : bytes) : res (option bytes) :=
  _ ← throw_if (negb (size_of sender_ed25519_pubkey =? 32)) InvalidArgument;
  match ed_pk_to_curve25519 sender_ed25519_pubkey with
  | None => Throw RuntimeError
  | Some sender_pub => decrypt_for_multiple_simple_x encoded ed25519_secret_key sender_pub domain
  end.
End WithSodium.
