(* ===== verification/OnionRequest.v ===== *)
(** * Onion requests

    The keys of [src/onionreq/key_types.cpp], [HopEncryption] of [src/onionreq/hop_encryption.cpp],
    [Builder] of [src/onionreq/builder.cpp], [OnionReqParser] of [src/onionreq/parser.cpp] and
    [ResponseParser] of [src/onionreq/response_parser.cpp].

    A request is encrypted in layers, one per hop of the path; a layer is the length of an
    encrypted blob, the blob, and a JSON object that says how to decrypt it and where it goes. *)
From S2P Require Import Prelude OMap Util Internal BtValue ThirdParty.

(** ** Libraries *)

(** AES-256-GCM of nettle: (key, IV, data) to (data, digest); HMAC-SHA256: (key, message). *)
Definition GCM_IV_SIZE : Z := 12.
Definition GCM_DIGEST_SIZE : Z := 16.
Class AesGcm := {
  gcm_aes256_encrypt : bytes -> bytes -> bytes -> bytes * bytes;
  gcm_aes256_decrypt : bytes -> bytes -> bytes -> bytes * bytes;
  hmacsha256 : bytes -> bytes -> bytes;
  gcm_encrypt_size : forall k iv m, size_of (gcm_aes256_encrypt k iv m).1 = size_of m;
  gcm_digest_size : forall k iv m, size_of (gcm_aes256_encrypt k iv m).2 = GCM_DIGEST_SIZE;
  gcm_decrypt_encrypt : forall k iv m,
    gcm_aes256_decrypt k iv (gcm_aes256_encrypt k iv m).1 = (m, (gcm_aes256_encrypt k iv m).2)
}.

(** JSON values (objects are sorted maps) and nlohmann's printing and parsing, which both throw on
    invalid text. *)
Inductive json :=
| JNull
| JBool (b : bool)
| JInt (z : Z)
| JFloat (repr : bytes)
| JStr (s : bytes)
| JArr (l : list json)
| JObj (fields : list (bytes * json)).
(** An object from a list of different keys with their values. *)
Definition json_object (l : list (bytes * json)) : json :=
  JObj (foldl (fun m kv => minsert kv.1 kv.2 m) [] l).

Definition ascii_text (s : bytes) : Prop := Forall (fun c => 32 <= byte_val c < 127) s.
(** An object of numbers and ASCII strings. *)
Definition flat_object (l : list (bytes * json)) : Prop :=
  msorted l /\ Forall (fun kv => ascii_text kv.1 /\
    match kv.2 with JStr s => ascii_text s | JInt z => in_int64 z = true | _ => False end) l.
Class Json := {
  json_dump : json -> res bytes;
  json_parse : bytes -> res json;
  json_parse_dump : forall l, flat_object l ->
    exists s, json_dump (JObj l) = Ok s /\ json_parse s = Ok (JObj l)
}.

(** ** Keys *)

Definition load_from_bytes (length : Z) (b : bytes) : res bytes :=
  _ ← throw_if (negb (size_of b =? length)) RuntimeError; Ok b.

Section Keys.
Context `{TextEncodings} `{CryptoBox}.

Definition load_from_hex (length : Z) (hex : bytes) : res bytes :=
  _ ← throw_if (negb (is_hex hex)) RuntimeError;
  _ ← throw_if (negb (size_of hex =? 2 * length)) RuntimeError;
  Ok (from_hex hex).

Definition snode_address (pk : bytes) : bytes := to_base32z pk ++ bs ".snode".

(** [parse_pubkey<T>]: text that is none of the encodings gives a key of zeros. *)
Definition parse_pubkey (pubkey_in : bytes) : bytes :=
  if size_of pubkey_in =? 32 then pubkey_in
  else if hex_pubkey pubkey_in then from_hex pubkey_in
  else if base64_pubkey pubkey_in then from_base64 pubkey_in
  else if base32z_pubkey pubkey_in then from_base32z pubkey_in
  else replicate 32 (byte_of 0).

Definition compute_x25519_pubkey (ed25519_pk : bytes) : res bytes :=
  match ed_pk_to_curve25519 ed25519_pk with
  | None => Throw RuntimeError
  | Some xpk => load_from_bytes 32 xpk
  end.
End Keys.

(** ** Encryption of one hop *)

Inductive EncryptType := aes_gcm | xchacha20.
#[export] Instance EncryptType_eq_dec : EqDecision EncryptType.
Proof. solve_decision. Defined.
Definition enc_type_name (t : EncryptType) : bytes :=
  match t with xchacha20 => bs "xchacha20" | aes_gcm => bs "aes-gcm" end.
Definition parse_enc_type (enc_type : bytes) : res EncryptType :=
  if bool_decide (enc_type = bs "xchacha20") || bool_decide (enc_type = bs "xchacha20-poly1305") then Ok xchacha20
  else if bool_decide (enc_type = bs "aes-gcm") || bool_decide (enc_type = bs "gcm") then Ok aes_gcm
  else Throw RuntimeError.

Definition response_long_enough (type : EncryptType) (response_size : Z) : bool :=
  match type with
  | xchacha20 => XCHACHA_ABYTES <=? response_size
  | aes_gcm => GCM_IV_SIZE + GCM_DIGEST_SIZE <=? response_size
  end.

Record HopEncryption := { private_key_ : bytes; public_key_ : bytes; server_ : bool }.

(** What is random in one use: a new secret key ([crypto_box_keypair]) and the IV or nonce. *)
Record hop_random := { eph_seckey : bytes; gcm_iv : bytes; xchacha_nonce : bytes }.
Definition random_ok (r : hop_random) : Prop :=
  size_of (eph_seckey r) = 32 /\ size_of (gcm_iv r) = GCM_IV_SIZE /\ size_of (xchacha_nonce r) = XCHACHA_NPUBBYTES.

Section Hops.
Context `{X25519} `{Aead} `{AesGcm}.

Definition calculate_shared_secret (seckey pubkey : bytes) : res bytes :=
  match x_scalarmult seckey pubkey with Some s => Ok s | None => Throw RuntimeError end.

Definition derive_symmetric_key (seckey pubkey : bytes) : res bytes :=
  key ← calculate_shared_secret seckey pubkey; Ok (hmacsha256 (bs "LOKI") key).

Definition xchacha20_shared_key (local_pub local_sec remote_pub : bytes) (local_first : bool) : res bytes :=
  match x_scalarmult local_sec remote_pub with
  | None => Throw RuntimeError
  | Some secret =>
      Ok (generichash 32 [] (secret ++ (if local_first then local_pub else remote_pub) ++
                                      (if local_first then remote_pub else local_pub)))
  end.

Definition encrypt_aesgcm (e : HopEncryption) (r : hop_random) (plaintext pubKey : bytes) : res bytes :=
  key ← derive_symmetric_key (private_key_ e) pubKey;
  let '(c, digest) := gcm_aes256_encrypt key (gcm_iv r) plaintext in
  Ok (gcm_iv r ++ c ++ digest).

Definition decrypt_aesgcm (e : HopEncryption) (ciphertext pubKey : bytes) : res bytes :=
  _ ← throw_if (negb (response_long_enough aes_gcm (size_of ciphertext))) InvalidArgument;
  key ← derive_symmetric_key (private_key_ e) pubKey;
  let iv := take (Z.to_nat GCM_IV_SIZE) ciphertext in
  let ciphertext := drop (Z.to_nat GCM_IV_SIZE) ciphertext in
  let n := (length ciphertext - Z.to_nat GCM_DIGEST_SIZE)%nat in
  let digest_in := drop n ciphertext in
  let '(plaintext, digest_out) := gcm_aes256_decrypt key iv (take n ciphertext) in
  _ ← throw_if (negb (bool_decide (digest_out = digest_in))) RuntimeError;
  Ok plaintext.

Definition encrypt_xchacha20 (e : HopEncryption) (r : hop_random) (plaintext pubKey : bytes) : res bytes :=
  key ← xchacha20_shared_key (public_key_ e) (private_key_ e) pubKey (negb (server_ e));
  Ok (xchacha_nonce r ++ aead_encrypt plaintext (xchacha_nonce r) key).

(** The nonce is taken before the length is checked ([subspan] beyond the end is undefined), and
    the check does not count the nonce: [plaintext.resize] of a negative size throws. *)
Definition decrypt_xchacha20 (e : HopEncryption) (ciphertext_ pubKey : bytes) : res bytes :=
  _ ← throw_if (size_of ciphertext_ <? XCHACHA_NPUBBYTES) UB;
  let nonce := take (Z.to_nat XCHACHA_NPUBBYTES) ciphertext_ in
  let ciphertext := drop (Z.to_nat XCHACHA_NPUBBYTES) ciphertext_ in
  _ ← throw_if (negb (response_long_enough xchacha20 (size_of ciphertext_))) InvalidArgument;
  key ← xchacha20_shared_key (public_key_ e) (private_key_ e) pubKey (negb (server_ e));
  _ ← throw_if (size_of ciphertext <? XCHACHA_ABYTES) LengthError;
  match aead_decrypt ciphertext nonce key with Some m => Ok m | None => Throw RuntimeError end.

Definition hop_encrypt (e : HopEncryption) (r : hop_random) (type : EncryptType) (plaintext pubkey : bytes) : res bytes :=
  match type with
  | xchacha20 => encrypt_xchacha20 e r plaintext pubkey
  | aes_gcm => encrypt_aesgcm e r plaintext pubkey
  end.
Definition hop_decrypt (e : HopEncryption) (type : EncryptType) (ciphertext pubkey : bytes) : res bytes :=
  match type with
  | xchacha20 => decrypt_xchacha20 e ciphertext pubkey
  | aes_gcm => decrypt_aesgcm e ciphertext pubkey
  end.
End Hops.

(** [encode_size(uint32_t)] and [load_little_to_host<uint32_t>]. *)
Definition encode_size (s : Z) : bytes :=
  (fun i => byte_of (s / 256 ^ i mod 256)) <$> [0; 1; 2; 3].
Definition load_size (b : bytes) : Z :=
  foldr (fun c n => byte_val c + 256 * n) 0 (take 4 b).

(** ** The builder *)

Record ServerDestination := {
  sd_protocol : bytes;
  sd_host : bytes;
  sd_endpoint : bytes;
  sd_x25519_pubkey : bytes;
  sd_port : option Z;
  sd_headers : option (list (bytes * bytes));
  sd_method : bytes
}.
(** A service node (its [view_remote_key()]) or a server. *)
Inductive network_destination := DestNode (remote_key : bytes) | DestServer (d : ServerDestination).

Record Builder := {
  enc_type : EncryptType;
  destination_x25519_public_key : option bytes;
  final_hop_x25519_keypair : option (bytes * bytes);
  hops_ : list (bytes * bytes);
  ed25519_public_key_ : option bytes;
  host_ : option bytes;
  endpoint_ : option bytes;
  protocol_ : option bytes;
  method_ : option bytes;
  port_ : option Z;
  headers_ : option (list (bytes * bytes))
}.
Definition new_builder (t : EncryptType) : Builder :=
  {| enc_type := t; destination_x25519_public_key := None; final_hop_x25519_keypair := None; hops_ := [];
     ed25519_public_key_ := None; host_ := None; endpoint_ := None; protocol_ := None; method_ := None;
     port_ := None; headers_ := None |}.
Definition set_enc_type (b : Builder) (t : EncryptType) : Builder :=
  {| enc_type := t; destination_x25519_public_key := destination_x25519_public_key b;
     final_hop_x25519_keypair := final_hop_x25519_keypair b; hops_ := hops_ b;
     ed25519_public_key_ := ed25519_public_key_ b; host_ := host_ b; endpoint_ := endpoint_ b;
     protocol_ := protocol_ b; method_ := method_ b; port_ := port_ b; headers_ := headers_ b |}.
Definition set_destination_pubkey (b : Builder) (pk : bytes) : Builder :=
  {| enc_type := enc_type b; destination_x25519_public_key := Some pk;
     final_hop_x25519_keypair := final_hop_x25519_keypair b; hops_ := hops_ b;
     ed25519_public_key_ := ed25519_public_key_ b; host_ := host_ b; endpoint_ := endpoint_ b;
     protocol_ := protocol_ b; method_ := method_ b; port_ := port_ b; headers_ := headers_ b |}.
Definition set_final_keypair (b : Builder) (kp : bytes * bytes) : Builder :=
  {| enc_type := enc_type b; destination_x25519_public_key := destination_x25519_public_key b;
     final_hop_x25519_keypair := Some kp; hops_ := hops_ b;
     ed25519_public_key_ := ed25519_public_key_ b; host_ := host_ b; endpoint_ := endpoint_ b;
     protocol_ := protocol_ b; method_ := method_ b; port_ := port_ b; headers_ := headers_ b |}.
(** [add_hop(std::pair)] *)
Definition add_hop_keys (b : Builder) (keys : bytes * bytes) : Builder :=
  {| enc_type := enc_type b; destination_x25519_public_key := destination_x25519_public_key b;
     final_hop_x25519_keypair := final_hop_x25519_keypair b; hops_ := hops_ b ++ [keys];
     ed25519_public_key_ := ed25519_public_key_ b; host_ := host_ b; endpoint_ := endpoint_ b;
     protocol_ := protocol_ b; method_ := method_ b; port_ := port_ b; headers_ := headers_ b |}.

(** [set_destination]: what is set for the other kind of destination is kept, except for the
    Ed25519 key. *)
Definition set_destination (b : Builder) (destination : network_destination) : res Builder :=
  match destination with
  | DestNode remote_key =>
      pk ← load_from_bytes 32 remote_key;
      Ok {| enc_type := enc_type b; destination_x25519_public_key := destination_x25519_public_key b;
            final_hop_x25519_keypair := final_hop_x25519_keypair b; hops_ := hops_ b;
            ed25519_public_key_ := Some pk; host_ := host_ b; endpoint_ := endpoint_ b;
            protocol_ := protocol_ b; method_ := method_ b; port_ := port_ b; headers_ := headers_ b |}
  | DestServer d =>
      Ok {| enc_type := enc_type b; destination_x25519_public_key := destination_x25519_public_key b;
            final_hop_x25519_keypair := final_hop_x25519_keypair b; hops_ := hops_ b;
            ed25519_public_key_ := None; host_ := Some (sd_host d); endpoint_ := Some (sd_endpoint d);
            protocol_ := Some (match find_sub (bs "://") (sd_protocol d) with
                               | Some pos => take pos (sd_protocol d)
                               | None => sd_protocol d
                               end);
            method_ := Some (sd_method d);
            port_ := match sd_port d with Some p => Some p | None => port_ b end;
            headers_ := match sd_headers d with Some h => Some h | None => headers_ b end |}
  end.

Section Building.
Context `{Oxenc} `{TextEncodings} `{X25519} `{Aead} `{AesGcm} `{Json}.

Definition add_hop (b : Builder) (remote_key : bytes) : res Builder :=
  ed ← load_from_bytes 32 remote_key;
  x ← compute_x25519_pubkey remote_key;
  Ok (add_hop_keys b (ed, x)).

Definition pubkey_for_destination (destination : network_destination) : res bytes :=
  match destination with
  | DestNode remote_key => compute_x25519_pubkey remote_key
  | DestServer d => Ok (sd_x25519_pubkey d)
  end.

(** [Builder::make], [Builder(destination, nodes, enc_type)] *)
Definition make_builder (destination : network_destination) (nodes : list bytes) (t : EncryptType) : res Builder :=
  pk ← pubkey_for_destination destination;
  b ← set_destination (set_destination_pubkey (new_builder t) pk) destination;
  foldM add_hop b nodes.

(** [_generate_payload(body)] *)
Definition generate_payload (b : Builder) (body : option bytes) : res bytes :=
  match host_ b, endpoint_ b, protocol_ b, method_ b, destination_x25519_public_key b with
  | Some _, Some endpoint, Some _, Some method, Some _ =>
      let headers := foldl (fun m kv => if bool_decide ((kv : bytes * bytes).1 = bs "User-Agent") then m
                                        else minsert kv.1 (JStr kv.2) m) [] (value_or (headers_ b) []) in
      let headers := match body, mfind (bs "Content-Type") headers with
                     | Some _, None => minsert (bs "Content-Type") (JStr (bs "application/json")) headers
                     | _, _ => headers
                     end in
      request_info ← json_dump (json_object [(bs "method", JStr method); (bs "endpoint", JStr endpoint);
                                             (bs "headers", JObj headers)]);
      Ok (bt_list_print (BStr <$> request_info :: match body with Some body => [body] | None => [] end))
  | _, _, _, _, _ => Ok (value_or body [])
  end.

(** The data of a layer: [N][blob]{json}. *)
Definition layer (blob : bytes) (j : json) : res bytes :=
  s ← json_dump j; Ok (encode_size (size_of blob) ++ blob ++ s).

Definition eph_pubkey (r : hop_random) : bytes := scalarmult_base (eph_seckey r).
Definition client (r : hop_random) : HopEncryption :=
  {| private_key_ := eph_seckey r; public_key_ := eph_pubkey r; server_ := false |}.

(** The routing data of a hop that passes the request on to a service node. *)
Definition forward_route (t : EncryptType) (next_ed25519 : bytes) (r : hop_random) : json :=
  json_object [(bs "destination", JStr (to_hex next_ed25519)); (bs "ephemeral_key", JStr (to_hex (eph_pubkey r)));
               (bs "enc_type", JStr (enc_type_name t))].

(** The first part of [build]: the route and the blob for the destination, encrypted with [r]. *)
Definition build_final (b : Builder) (r : hop_random) (payload : bytes) : res (json * bytes) :=
  match host_ b, protocol_ b, destination_x25519_public_key b with
  | Some host, Some protocol, Some dest =>
      let port := value_or (port_ b) (if bool_decide (protocol = bs "https") then 443 else 80) in
      blob ← hop_encrypt (client r) r (enc_type b) payload dest;
      Ok (json_object [(bs "host", JStr host); (bs "target", JStr (bs "/oxen/v4/lsrpc"));
                       (bs "method", JStr (bs "POST")); (bs "protocol", JStr protocol); (bs "port", JInt port);
                       (bs "ephemeral_key", JStr (to_hex (eph_pubkey r)));
                       (bs "enc_type", JStr (enc_type_name (enc_type b)))], blob)
  | _, _, Some dest =>
      match ed25519_public_key_ b with
      | Some ed =>
          data ← layer payload (json_object [(bs "headers", JStr [])]);
          blob ← hop_encrypt (client r) r (enc_type b) data dest;
          Ok (forward_route (enc_type b) ed r, blob)
      | None => Throw RuntimeError
      end
  | _, _, None => Throw RuntimeError
  end.

(** The loop over the hops, the last hop first: the route of the hop, the blob for the next one and
    the randomness it was encrypted with, to the blob for this hop. *)
Fixpoint build_hops (t : EncryptType) (rnd : nat -> hop_random) (i : nat) (hops : list (bytes * bytes))
    (routing : json) (blob : bytes) : res (hop_random * bytes) :=
  match hops with
  | [] => Ok (rnd i, blob)
  | (ed, x) :: hops =>
      data ← layer blob routing;
      blob ← hop_encrypt (client (rnd (S i))) (rnd (S i)) t data x;
      build_hops t rnd (S i) hops (forward_route t ed (rnd (S i))) blob
  end.

(** [build(payload)]; [rnd i] is what is random in the [i]th layer from the inside. *)
Definition build (b : Builder) (rnd : nat -> hop_random) (payload : bytes) : res (bytes * Builder) :=
  let! (final_route, blob) := build_final b (rnd 0%nat) payload in
  let b := set_final_keypair b (eph_pubkey (rnd 0%nat), eph_seckey (rnd 0%nat)) in
  let! (r, blob) := build_hops (enc_type b) rnd 0 (rev (hops_ b)) final_route blob in
  result ← layer blob (json_object [(bs "ephemeral_key", JStr (to_hex (eph_pubkey r)));
                                    (bs "enc_type", JStr (enc_type_name (enc_type b)))]);
  Ok (result, b).

(** [generate(info)]: the new body, from the original one. *)
Definition generate (b : Builder) (rnd : nat -> hop_random) (original_body : option bytes) : res (bytes * Builder) :=
  payload ← generate_payload b original_body; build b rnd payload.

(** ** The receiving side *)

Definition DEFAULT_MAX_SIZE : Z := 10485760.
Record OnionReqParser := {
  op_enc : HopEncryption;
  op_enc_type : EncryptType;
  op_remote_pk : bytes;
  op_payload : bytes
}.

(** [metadata.find(key)]: nothing is found in a value that is not an object. *)
Definition json_find (j : json) (key : bytes) : option json :=
  match j with JObj fields => mfind key fields | _ => None end.
Definition json_get_string (j : json) : res bytes :=
  match j with JStr s => Ok s | _ => Throw JsonError end.

Definition new_parser (x25519_pk x25519_sk req : bytes) (max_size : Z) : res OnionReqParser :=
  pk ← load_from_bytes 32 x25519_pk;
  sk ← load_from_bytes 32 x25519_sk;
  let enc := {| private_key_ := sk; public_key_ := pk; server_ := true |} in
  _ ← throw_if (size_of req <? 4) InvalidArgument;
  _ ← throw_if (max_size <? size_of req) InvalidArgument;
  let size := load_size req in
  let req := drop 4 req in
  _ ← throw_if (size_of req <? size) InvalidArgument;
  let ciphertext := take (Z.to_nat size) req in
  metadata ← json_parse (drop (Z.to_nat size) req);
  t ← match json_find metadata (bs "enc_type") with
      | Some v => s ← json_get_string v; parse_enc_type s
      | None => Ok aes_gcm
      end;
  remote_pk ← match json_find metadata (bs "ephemeral_key") with
              | Some v => s ← json_get_string v; Ok (parse_pubkey s)
              | None => Throw InvalidArgument
              end;
  payload ← hop_decrypt enc t ciphertext remote_pk;
  Ok {| op_enc := enc; op_enc_type := t; op_remote_pk := remote_pk; op_payload := payload |}.

Definition encrypt_reply (p : OnionReqParser) (r : hop_random) (reply : bytes) : res bytes :=
  hop_encrypt (op_enc p) r (op_enc_type p) reply (op_remote_pk p).

(** ** Responses *)

Record ResponseParser := { rp_destination : bytes; rp_keypair : bytes * bytes; rp_enc_type : EncryptType }.
Definition new_response_parser (b : Builder) : res ResponseParser :=
  match destination_x25519_public_key b, final_hop_x25519_keypair b with
  | Some dest, Some kp => Ok {| rp_destination := dest; rp_keypair := kp; rp_enc_type := enc_type b |}
  | _, _ => Throw RuntimeError
  end.

(** [decrypt]: an error of an old server may be encrypted with AES-GCM.  [catch] does not catch
    undefined behaviour. *)
Definition decrypt_response (p : ResponseParser) (ciphertext : bytes) : res bytes :=
  let d := {| private_key_ := (rp_keypair p).2; public_key_ := (rp_keypair p).1; server_ := false |} in
  match hop_decrypt d (rp_enc_type p) ciphertext (rp_destination p) with
  | Ok m => Ok m
  | Throw UB => Throw UB
  | Throw e =>
      match rp_enc_type p with
      | xchacha20 => match hop_decrypt d aes_gcm ciphertext (rp_destination p) with
                     | Ok m => Ok m
                     | Throw _ => Throw RuntimeError
                     end
      | aes_gcm => Throw e
      end
  end.

(** [onion_request_decrypt] of the C interface: nothing if it returns [false]. *)
Definition onion_request_decrypt (ciphertext : bytes) (t : EncryptType) (destination final_pk final_sk : bytes) :
    res (option bytes) :=
  let d := {| private_key_ := final_sk; public_key_ := final_pk; server_ := false |} in
  match hop_decrypt d t ciphertext destination with
  | Ok m => Ok (Some m)
  | Throw UB => Throw UB
  | Throw _ =>
      match t with
      | xchacha20 => match hop_decrypt d aes_gcm ciphertext destination with
                     | Ok m => Ok (Some m)
                     | Throw _ => Ok None
                     end
      | aes_gcm => Ok None
      end
  end.
End Building.
