(* ===== verification/OnionFacts.v ===== *)
(** * Facts about onion requests *)
From S2P Require Import Prelude OMap Util Internal BtValue ThirdParty OnionRequest.

Lemma fmap_rev {A B} (f : A -> B) (l : list A) : f <$> rev l = rev (f <$> l).
Proof. induction l as [|x l IH]; [done|]. cbn [rev]. rewrite fmap_app, IH. done. Qed.

(** ** Sizes *)

Lemma encode_size_length n : length (encode_size n) = 4%nat.
Proof. done. Qed.

Lemma load_encode_size n rest : 0 <= n < 2 ^ 32 -> load_size (encode_size n ++ rest) = n.
Proof.
  intros Hn. unfold load_size. rewrite (take_app_length' _ _ 4) by done. cbn [encode_size fmap list_fmap foldr].
  rewrite !byte_val_of by (apply Z.mod_pos_bound; lia). rewrite Z.pow_0_r, Z.div_1_r.
  change (256 ^ 1) with 256. change (256 ^ 2) with (256 * 256). change (256 ^ 3) with (256 * 256 * 256).
  rewrite <- !Z.div_div by lia.
  assert (n / 256 / 256 / 256 mod 256 = n / 256 / 256 / 256) as ->.
  { apply Z.mod_small. rewrite !Z.div_div by lia. split; [apply Z.div_pos; lia|apply Z.div_lt_upper_bound; lia]. }
  pose proof (Z.div_mod n 256). pose proof (Z.div_mod (n / 256) 256). pose proof (Z.div_mod (n / 256 / 256) 256). lia.
Qed.

Section Hops.
Context `{Oxenc} `{TextEncodings} `{X25519} `{Aead} `{AesGcm} `{Json}.

(** ** One hop *)

Definition hop_keys (sk : bytes) (server : bool) : HopEncryption :=
  {| private_key_ := sk; public_key_ := scalarmult_base sk; server_ := server |}.

(** What one side encrypts, the other side decrypts; a client and a server agree on the order of
    their keys. *)
Lemma hop_roundtrip a b server r t m :
  random_ok r ->
  exists c, hop_encrypt (hop_keys a server) r t m (scalarmult_base b) = Ok c /\
    hop_decrypt (hop_keys b (negb server)) t c (scalarmult_base a) = Ok m /\ size_of m <= size_of c.
Proof.
  intros (_ & Hiv & Hn). destruct (x_scalarmult_base a b) as [s Hs]. pose proof Hs as Hs'. rewrite x_scalarmult_comm in Hs'.
  destruct t; cbn [hop_encrypt hop_decrypt].
  - unfold encrypt_aesgcm, decrypt_aesgcm, derive_symmetric_key, calculate_shared_secret. cbn [hop_keys private_key_].
    rewrite Hs, Hs'. cbn [mbind res_bind]. set (key := hmacsha256 _ _).
    pose proof (gcm_encrypt_size key (gcm_iv r) m) as Hc. pose proof (gcm_digest_size key (gcm_iv r) m) as Hd.
    pose proof (gcm_decrypt_encrypt key (gcm_iv r) m) as He. destruct (gcm_aes256_encrypt key (gcm_iv r) m) as [c d].
    cbn [fst snd] in Hc, Hd, He. eexists. split; [done|].
    assert (length (gcm_iv r) = 12%nat) as Hl by (unfold size_of, GCM_IV_SIZE in Hiv; lia).
    rewrite (take_app_length' _ _ (Z.to_nat GCM_IV_SIZE)), (drop_app_length' _ _ (Z.to_nat GCM_IV_SIZE)) by done.
    assert (length d = 16%nat) as Hld by (unfold size_of, GCM_DIGEST_SIZE in Hd; lia).
    unfold response_long_enough. rewrite !size_of_app, Hiv, Hd.
    rewrite (proj2 (Z.leb_le _ _)) by (unfold GCM_DIGEST_SIZE, size_of; lia). cbn [negb throw_if mbind res_bind].
    rewrite length_app, Hld. change (Z.to_nat GCM_DIGEST_SIZE) with 16%nat. rewrite Nat.add_sub.
    rewrite take_app_length, drop_app_length, He. rewrite bool_decide_eq_true_2 by done.
    split; [done|]. unfold GCM_IV_SIZE, GCM_DIGEST_SIZE. lia.
  - unfold encrypt_xchacha20, decrypt_xchacha20, xchacha20_shared_key. cbn [hop_keys private_key_ public_key_ server_].
    rewrite Hs, Hs'. cbn [mbind res_bind].
    assert (generichash 32 [] (s ++ (if negb server then scalarmult_base a else scalarmult_base b) ++
                                    (if negb server then scalarmult_base b else scalarmult_base a)) =
            generichash 32 [] (s ++ (if negb (negb server) then scalarmult_base b else scalarmult_base a) ++
                                    (if negb (negb server) then scalarmult_base a else scalarmult_base b))) as <-
      by (by destruct server).
    set (key := generichash 32 [] _). eexists. split; [done|].
    pose proof (aead_encrypt_size m (xchacha_nonce r) key) as Hc.
    assert (length (xchacha_nonce r) = 24%nat) as Hl by (unfold size_of, XCHACHA_NPUBBYTES in Hn; lia).
    rewrite (take_app_length' _ _ (Z.to_nat XCHACHA_NPUBBYTES)), (drop_app_length' _ _ (Z.to_nat XCHACHA_NPUBBYTES)) by done.
    assert (0 <= size_of m) by (unfold size_of; lia).
    unfold response_long_enough. rewrite !size_of_app, Hn, Hc. unfold XCHACHA_NPUBBYTES, XCHACHA_ABYTES in *.
    rewrite (proj2 (Z.ltb_ge _ 24)), (proj2 (Z.leb_le 16 _)), (proj2 (Z.ltb_ge _ 16)) by lia.
    cbn [negb throw_if mbind res_bind]. rewrite aead_decrypt_encrypt. split; [done|]. lia.
Qed.

(** ** Layers *)

(** A JSON object that tells how a blob encrypted with [r] is decrypted. *)
Definition good_route (t : EncryptType) (r : hop_random) (j : json) : Prop :=
  exists fields, j = JObj fields /\ flat_object fields /\
    mfind (bs "enc_type") fields = Some (JStr (enc_type_name t)) /\
    mfind (bs "ephemeral_key") fields = Some (JStr (to_hex (eph_pubkey r))).

Lemma hex_ascii b : ascii_text (to_hex b).
Proof.
  apply Forall_forall. intros c Hc. pose proof (is_hex_digits _ c (is_hex_to_hex b) Hc) as Hd.
  unfold in_range in Hd. change (byte_val "0") with 48 in Hd. change (byte_val "9") with 57 in Hd.
  change (byte_val "a") with 97 in Hd. change (byte_val "f") with 102 in Hd.
  change (byte_val "A") with 65 in Hd. change (byte_val "F") with 70 in Hd.
  apply orb_true_iff in Hd as [[Hd|Hd]%orb_true_iff|Hd]; apply andb_true_iff in Hd as [Hlo Hhi]; bool_prop; lia.
Qed.

Lemma layer_ok blob j t r :
  good_route t r j -> exists s, layer blob j = Ok (encode_size (size_of blob) ++ blob ++ s) /\ json_parse s = Ok j.
Proof.
  intros (fields & -> & Hf & _). destruct (json_parse_dump fields Hf) as (s & Hd & Hp).
  exists s. unfold layer. by rewrite Hd.
Qed.

Lemma layer_size blob s : size_of blob + 4 <= size_of (encode_size (size_of blob) ++ blob ++ s).
Proof. rewrite !size_of_app. change (size_of (encode_size _)) with 4. unfold size_of. lia. Qed.

Lemma parse_enc_type_name t : parse_enc_type (enc_type_name t) = Ok t.
Proof. by destruct t. Qed.

Lemma parse_hex_pubkey pk : size_of pk = 32 -> parse_pubkey (to_hex pk) = pk.
Proof.
  intros Hs. unfold parse_pubkey, hex_pubkey. rewrite to_hex_size, Hs, is_hex_to_hex. cbn. apply from_to_hex.
Qed.

(** The parser of a layer whose blob decrypts. *)
Lemma parse_layer blob s j t r sk max_size m :
  good_route t r j -> json_parse s = Ok j -> size_of sk = 32 ->
  size_of (encode_size (size_of blob) ++ blob ++ s) <= max_size -> max_size < 2 ^ 32 ->
  hop_decrypt (hop_keys sk true) t blob (eph_pubkey r) = Ok m ->
  new_parser (scalarmult_base sk) sk (encode_size (size_of blob) ++ blob ++ s) max_size =
  Ok {| op_enc := hop_keys sk true; op_enc_type := t; op_remote_pk := eph_pubkey r; op_payload := m |}.
Proof.
  intros (fields & -> & _ & Ht & Hk) Hp Hsk Hmax Hm Hd. unfold new_parser, load_from_bytes.
  rewrite scalarmult_base_size, Hsk. cbn [Z.eqb Pos.eqb negb throw_if mbind res_bind].
  rewrite !size_of_app in *. change (size_of (encode_size _)) with 4 in *.
  assert (0 <= size_of blob /\ 0 <= size_of s) as [Hb0 Hs0] by (unfold size_of; lia).
  rewrite (proj2 (Z.ltb_ge _ 4)), (proj2 (Z.ltb_ge max_size _)) by lia. cbn [throw_if mbind res_bind].
  rewrite load_encode_size by lia. rewrite (drop_app_length' (encode_size _) _ 4) by done. rewrite size_of_app.
  rewrite (proj2 (Z.ltb_ge (size_of blob + size_of s) _)) by lia. cbn [throw_if mbind res_bind].
  assert (Z.to_nat (size_of blob) = length blob) as -> by (unfold size_of; lia).
  rewrite drop_app_length, take_app_length, Hp. cbn [mbind res_bind json_find]. rewrite Ht, Hk.
  cbn [json_get_string mbind res_bind]. rewrite parse_enc_type_name. cbn [mbind res_bind].
  rewrite parse_hex_pubkey by apply scalarmult_base_size. fold (eph_pubkey r). unfold hop_keys in Hd. rewrite Hd. done.
Qed.

(** ** The way of a request *)

(** The parsers of the nodes on the way: each one parses what the one before it decrypted. *)
Fixpoint travel (max_size : Z) (sks : list bytes) (req : bytes) : res (list OnionReqParser) :=
  match sks with
  | [] => Ok []
  | sk :: sks =>
      p ← new_parser (scalarmult_base sk) sk req max_size;
      ps ← travel max_size sks (op_payload p);
      Ok (p :: ps)
  end.

(** Where a decrypted layer asks to be sent. *)
Definition json_destination (j : json) : option bytes :=
  match json_find j (bs "destination") with Some (JStr s) => Some s | _ => None end.
Definition route_of (payload : bytes) : option bytes :=
  match json_parse (drop (Z.to_nat (load_size payload)) (drop 4 payload)) with
  | Ok j => json_destination j
  | Throw _ => None
  end.

Lemma route_of_layer blob s j :
  json_parse s = Ok j -> size_of blob < 2 ^ 32 ->
  route_of (encode_size (size_of blob) ++ blob ++ s) = json_destination j.
Proof.
  intros Hp Hb. assert (0 <= size_of blob) by (unfold size_of; lia). unfold route_of.
  rewrite load_encode_size, (drop_app_length' (encode_size _) _ 4) by done || lia.
  assert (Z.to_nat (size_of blob) = length blob) as -> by (unfold size_of; lia). by rewrite drop_app_length, Hp.
Qed.

Section Path.
Variables (t : EncryptType) (rnd : nat -> hop_random) (max_size : Z).
Hypothesis rnd_ok : forall i, random_ok (rnd i).
Hypothesis max_ok : max_size < 2 ^ 32.

(** [blob], encrypted with the randomness of layer [i], travels to the nodes with the keys [sks]:
    it is routed by [l], and [last_p] is the parser of the last node. *)
Definition travels (i : nat) (blob : bytes) (sks : list bytes) (l : list (option bytes)) (last_p : OnionReqParser) : Prop :=
  forall j req, good_route t (rnd i) j -> layer blob j = Ok req -> size_of req <= max_size ->
    exists ps, travel max_size sks req = Ok ps /\ ((fun p => route_of (op_payload p)) <$> ps) = l /\
      last ps = Some last_p.

(** One more hop. *)
Lemma travels_hop i blob sks l last_p j sk :
  travels i blob sks l last_p -> good_route t (rnd i) j -> size_of sk = 32 -> sks <> [] ->
  exists data blob', layer blob j = Ok data /\
    hop_encrypt (client (rnd (S i))) (rnd (S i)) t data (scalarmult_base sk) = Ok blob' /\
    travels (S i) blob' (sk :: sks) (json_destination j :: l) last_p.
Proof.
  intros Ht Hj Hsk Hne. destruct (layer_ok blob j t (rnd i) Hj) as (s & Hl & Hp). set (data := _ ++ _) in Hl.
  destruct (hop_roundtrip (eph_seckey (rnd (S i))) sk false (rnd (S i)) t data (rnd_ok (S i))) as (blob' & He & Hd & Hsz).
  exists data, blob'. split; [done|]. split; [exact He|].
  intros j' req Hj' Hl' Hmax. destruct (layer_ok blob' j' t _ Hj') as (s' & Hl2 & Hp'). assert (req = encode_size (size_of blob') ++ blob' ++ s') as -> by congruence.
  pose proof (layer_size blob' s'). pose proof (layer_size blob s) as Hds. fold data in Hds.
  assert (size_of data <= max_size) as Hdm by lia. assert (size_of blob < 2 ^ 32) as Hb32 by lia.
  cbn [travel]. rewrite (parse_layer blob' s' j' t (rnd (S i)) sk max_size data) by done. cbn [mbind res_bind op_payload].
  destruct (Ht j data Hj Hl Hdm) as (ps & -> & Hr & Hlast). cbn [mbind res_bind]. eexists. split; [done|].
  rewrite fmap_cons, Hr. cbn [op_payload]. unfold data. rewrite (route_of_layer _ _ j) by done. split; [done|].
  destruct ps as [|p ps]; [done|]. done.
Qed.

(** The routes of the hops, from the last one on. *)
Fixpoint routes (revpath : list (bytes * bytes)) (d : option bytes) (l : list (option bytes)) : list (option bytes) :=
  match revpath with [] => l | (ed, _) :: p => routes p (Some (to_hex ed)) (d :: l) end.

Lemma ascii_bs (s : bytes) : forallb (fun c => (32 <=? byte_val c) && (byte_val c <? 127)) s = true -> ascii_text s.
Proof.
  intros Hs. apply Forall_forall. intros c Hc%list_elem_of_In. rewrite forallb_forall in Hs. apply Hs in Hc.
  apply andb_true_iff in Hc as [? ?]. bool_prop. lia.
Qed.
Lemma enc_name_ascii : ascii_text (enc_type_name t).
Proof. destruct t; by apply ascii_bs. Qed.

Lemma forward_route_good ed r : good_route t r (forward_route t ed r).
Proof.
  eexists. split; [reflexivity|]. split; [|done]. split; [by apply (bool_decide_unpack _) || by apply msortedb_spec|].
  repeat (apply Forall_cons; split; [split; [by apply ascii_bs|]; first [apply hex_ascii | apply enc_name_ascii]|]).
  by apply Forall_nil.
Qed.
Lemma wrapper_good r :
  good_route t r (json_object [(bs "ephemeral_key", JStr (to_hex (eph_pubkey r))); (bs "enc_type", JStr (enc_type_name t))]).
Proof.
  eexists. split; [reflexivity|]. split; [|done]. split; [by apply msortedb_spec|].
  repeat (apply Forall_cons; split; [split; [by apply ascii_bs|]; first [apply hex_ascii | apply enc_name_ascii]|]).
  by apply Forall_nil.
Qed.

Definition hop_pubkeys (h : bytes * bytes) : bytes * bytes := (h.1, scalarmult_base h.2).

Lemma build_hops_travels revpath i routing blob sks l last_p :
  travels i blob sks l last_p -> good_route t (rnd i) routing -> sks <> [] ->
  Forall (fun h => size_of h.2 = 32) revpath ->
  exists blob', build_hops t rnd i (hop_pubkeys <$> revpath) routing blob = Ok (rnd (length revpath + i)%nat, blob') /\
    travels (length revpath + i) blob' (rev (snd <$> revpath) ++ sks) (routes revpath (json_destination routing) l) last_p.
Proof.
  intros Ht Hr Hne Hsk. revert i routing blob sks l Ht Hr Hne.
  induction Hsk as [|[ed sk] revpath Hsk _ IH]; intros i routing blob sks l Ht Hr Hne; [by exists blob|].
  cbn [fmap list_fmap build_hops hop_pubkeys fst snd] in *.
  destruct (travels_hop i blob sks l last_p routing sk Ht Hr Hsk Hne) as (data & blob' & -> & E & Ht'). cbn [mbind res_bind].
  rewrite E. cbn [mbind res_bind].
  destruct (IH (S i) (forward_route t ed (rnd (S i))) blob' (sk :: sks) _ Ht' (forward_route_good _ _)) as (blob2 & E2 & Ht2); [done|].
  exists blob2. rewrite Nat.add_succ_r in E2, Ht2. split; [exact E2|]. cbn [rev length Nat.add routes].
  rewrite <- app_assoc. exact Ht2.
Qed.

Lemma routes_rev path d l :
  routes (rev path) d l = tail (((fun h => Some (to_hex h.1)) <$> path) ++ [d]) ++ l.
Proof.
  rewrite <- (rev_involutive path) at 2. generalize (rev path). clear path. intros p. revert d l.
  induction p as [|[ed sk] p IH]; intros d l; [done|]. cbn [routes rev]. rewrite IH, fmap_app. cbn [fmap list_fmap fst].
  destruct (_ <$> rev p) as [|x q]; [done|]. cbn. by rewrite <- !app_assoc.
Qed.
End Path.

(** ** Requests to a service node *)

(** The data that the destination decrypts: the payload, with an empty control object. *)
Definition control_object : json := json_object [(bs "headers", JStr [])].

Lemma control_flat : flat_object [(bs "headers", JStr [])].
Proof.
  split; [by apply msortedb_spec|]. apply Forall_cons. split; [|by apply Forall_nil]. split; [by apply ascii_bs|].
  by apply Forall_nil.
Qed.

Lemma node_request b rnd path ed sk payload max_size :
  (forall i, random_ok (rnd i)) -> max_size < 2 ^ 32 ->
  hops_ b = hop_pubkeys <$> path -> Forall (fun h => size_of h.2 = 32) path ->
  host_ b = None -> ed25519_public_key_ b = Some ed -> destination_x25519_public_key b = Some (scalarmult_base sk) ->
  size_of sk = 32 ->
  exists req b' s, build b rnd payload = Ok (req, b') /\ json_parse s = Ok control_object /\
    let last_p := {| op_enc := hop_keys sk true; op_enc_type := enc_type b; op_remote_pk := eph_pubkey (rnd 0%nat);
                     op_payload := encode_size (size_of payload) ++ payload ++ s |} in
    (size_of req <= max_size ->
     exists ps, travel max_size ((snd <$> path) ++ [sk]) req = Ok ps /\ last ps = Some last_p /\
       ((fun p => route_of (op_payload p)) <$> ps) =
         tail (((fun h => Some (to_hex h.1)) <$> path) ++ [Some (to_hex ed)]) ++ [None]) /\
    (forall r reply, random_ok r ->
       exists c rp, encrypt_reply last_p r reply = Ok c /\ new_response_parser b' = Ok rp /\
         decrypt_response rp c = Ok reply).
Proof.
  intros Hrnd Hmax Hhops Hpath Hhost Hed Hdest Hsk.
  destruct (json_parse_dump _ control_flat) as (s & Hdump & Hparse). set (t := enc_type b).
  set (data := encode_size (size_of payload) ++ payload ++ s).
  destruct (hop_roundtrip (eph_seckey (rnd 0%nat)) sk false (rnd 0%nat) t data (Hrnd 0%nat)) as (blob & He & Hd & Hsz).
  set (last_p := {| op_enc := hop_keys sk true; op_enc_type := t; op_remote_pk := eph_pubkey (rnd 0%nat); op_payload := data |}).
  assert (travels t rnd max_size 0 blob [sk] [None] last_p) as Ht.
  { intros j req Hj Hl Hle. destruct (layer_ok blob j t _ Hj) as (s' & Hl2 & Hp').
    assert (req = encode_size (size_of blob) ++ blob ++ s') as -> by congruence.
    pose proof (layer_size blob s'). pose proof (layer_size payload s) as Hds. fold data in Hds.
    cbn [travel]. rewrite (parse_layer blob s' j t (rnd 0%nat) sk max_size data) by done. cbn [mbind res_bind].
    eexists. split_and!; [done| |done]. cbn. f_equal. apply (route_of_layer payload s control_object); [done|lia]. }
  destruct (build_hops_travels t rnd max_size Hrnd Hmax (rev path) 0 (forward_route t ed (rnd 0%nat)) blob [sk] _ _ Ht
              (forward_route_good t ed _)) as (blob' & Eb & Ht'); [done|by apply Forall_rev|].
  destruct (layer_ok blob' _ t _ (wrapper_good t (rnd (length (rev path) + 0)%nat))) as (w & Hw & Hpw).
  eexists _, _, s. split.
  { unfold build, build_final. rewrite Hhost, Hdest, Hed. unfold layer at 1.
    change (json_dump (json_object [(bs "headers", JStr [])])) with (json_dump (JObj [(bs "headers", JStr [])])).
    rewrite Hdump. cbn [mbind res_bind]. fold t data.
    change (hop_encrypt (client (rnd 0%nat)) (rnd 0%nat) t data (scalarmult_base sk) = Ok blob) in He. rewrite He.
    cbn [mbind res_bind hops_ set_final_keypair enc_type]. fold t. rewrite Hhops, <- fmap_rev, Eb. cbn [mbind res_bind].
    rewrite Hw. cbn [mbind res_bind]. reflexivity. }
  split; [done|]. fold t data last_p. split.
  - intros Hle. destruct (Ht' _ _ (wrapper_good t _) Hw Hle) as (ps & E & Hr & Hl).
    rewrite fmap_rev, rev_involutive in E. exists ps. split_and!; [done..|]. rewrite Hr. apply routes_rev.
  - intros r reply Hr. destruct (hop_roundtrip sk (eph_seckey (rnd 0%nat)) true r t reply Hr) as (c & Ec & Edec & _).
    exists c. eexists. split; [exact Ec|]. split; [unfold new_response_parser; cbn; by rewrite Hdest|].
    unfold decrypt_response. cbn [rp_keypair rp_enc_type rp_destination fst snd]. cbn [enc_type set_final_keypair]. fold t.
    change {| private_key_ := eph_seckey (rnd 0%nat); public_key_ := eph_pubkey (rnd 0%nat); server_ := false |}
      with (hop_keys (eph_seckey (rnd 0%nat)) (negb true)). by rewrite Edec.
Qed.
End Hops.
