(* ===== verification/NetworkData.v ===== *)
(** * Service nodes, swarms and requests

    The data of [src/session_network.cpp] and [include/session/session_network.hpp]: service nodes
    with their text form in the cache file, the swarms they form, paths, connections and requests,
    and the limits and delays the network object works with. *)
From S2P Require Import Prelude OMap Util Internal BtValue Bencode ThirdParty OnionRequest.

(** ** Libraries *)

(** libquic.  An address is an IPv4 address, a number of 32 bits ([to_ipv4()], which the code calls
    on every node, asks for one), with a port.
    - [parse_ip] reads the address of a [RemoteAddress], which throws on anything else;
      [print_ip] is [host()];
    - [quic_parse_int lo hi] is [parse_int] for an integer type with the given range: all of the
      text has to be a number of the type;
    - [address_rank] is the position of an address in the order of [Address::operator<=>];
    - [quic_default_timeout] is [DEFAULT_TIMEOUT] in milliseconds. *)
Class Quic := {
  parse_ip : bytes -> res Z;
  print_ip : Z -> bytes;
  quic_parse_int : Z -> Z -> bytes -> option Z;
  address_rank : Z * Z -> Z;
  quic_default_timeout : Z;
  address_rank_inj : forall a b, address_rank a = address_rank b -> a = b;
  parse_print_ip : forall ip, 0 <= ip < 2 ^ 32 -> parse_ip (print_ip ip) = Ok ip;
  print_ip_chars : forall ip, Forall (fun c => in_range "0" "9" c = true \/ c = "."%char) (print_ip ip);
  parse_int_print : forall lo hi z, lo <= z <= hi -> quic_parse_int lo hi (print_int z) = Some z;
  parse_int_range : forall lo hi s z, quic_parse_int lo hi s = Some z -> lo <= z <= hi;
  parse_int_empty : forall lo hi, quic_parse_int lo hi [] = None
}.

(** The generator [csrng] of [src/random.cpp]: the [i]th draw shuffles a list ([std::shuffle]) or
    gives the numbers for an identifier ([csrng i]) or what is random in an onion request. *)
Class Rng := {
  shuffle : forall {A}, nat -> list A -> list A;
  csrng : nat -> nat -> Z;
  random_hops : nat -> nat -> hop_random;
  shuffle_perm : forall A i (l : list A), shuffle i l ≡ₚ l
}.

(** ** Limits *)

Definition error_network_suspended : Z := -10001.
Definition error_building_onion_request : Z := -10002.
Definition error_path_build_timeout : Z := -10003.

(** The ticks of [std::chrono::system_clock] in a millisecond. *)
Definition NET_TICKS_PER_MS : Z := 1000000.
(** In seconds. *)
Definition snode_cache_expiration_duration : Z := 7200.
Definition min_snode_cache_count : Z := 12.
Definition num_snodes_to_refresh_cache_from : Z := 3.
Definition path_size : nat := 3.
Definition path_failure_threshold : Z := 3.
Definition snode_failure_threshold : Z := 3.
(** In milliseconds. *)
Definition queued_request_path_build_timeout_frequency : Z := 250.
Definition node_not_found_prefix : bytes :=
  bs "502 Bad Gateway" ++ [byte_of 10; byte_of 10] ++ bs "Next node not found: ".
Definition node_not_found_prefix_no_status : bytes := bs "Next node not found: ".

Inductive ConnectionStatus := st_unknown | st_connecting | st_connected | st_disconnected.
#[export] Instance ConnectionStatus_eq_dec : EqDecision ConnectionStatus.
Proof. solve_decision. Defined.

Inductive PathType := pt_standard | pt_upload | pt_download.
#[export] Instance PathType_eq_dec : EqDecision PathType.
Proof. solve_decision. Defined.

Inductive PathSelectionBehaviour := sel_random | sel_new_or_least_busy.
Definition path_selection_behaviour (t : PathType) : PathSelectionBehaviour :=
  match t with
  | pt_standard => sel_random
  | pt_upload => sel_new_or_least_busy
  | pt_download => sel_new_or_least_busy
  end.

Definition min_path_count (t : PathType) (single_path_mode : bool) : nat :=
  if single_path_mode then 1
  else match t with pt_standard => 2 | pt_upload => 2 | pt_download => 2 end.

(** [min_snode_cache_size()]; the subtraction is one of [size_t]. *)
Definition min_snode_cache_size (seed_node_cache_size : option Z) : Z :=
  match seed_node_cache_size with
  | None => min_snode_cache_count
  | Some s => let p := Z.of_nat path_size in
              Z.min (Z.max p ((s - p) mod 2 ^ 64)) min_snode_cache_count
  end.

(** [retry_delay(num_failures, max_delay)] in milliseconds: [100 * pow(2, num_failures)] is a
    [double], and a value that does not fit 64 bits cannot be converted. *)
Definition retry_delay (num_failures max_delay : Z) : res Z :=
  let d := if num_failures <? 0 then 100 / 2 ^ (- num_failures) else 100 * 2 ^ num_failures in
  _ ← throw_if (INT64_MAX <? d) UB;
  Ok (Z.min max_delay d).
Definition DEFAULT_MAX_DELAY : Z := 5000.

(** ** Service nodes *)

Definition INVALID_SWARM_ID : Z := UINT64_MAX.
Record service_node := {
  sn_key : bytes;
  sn_version : list Z;
  sn_swarm : Z;
  sn_ip : Z;
  sn_port : Z
}.
#[export] Instance service_node_eq_dec : EqDecision service_node.
Proof. solve_decision. Defined.

(** [to_string()] of a node, its address and port, is only used as the key of the failure counts;
    the key is the pair here. *)
Definition sn_address (n : service_node) : Z * Z := (sn_ip n, sn_port n).

Fixpoint pop_zeros (rev_version : list Z) : list Z :=
  match rev_version with
  | d :: rest => if (d =? 0) && (1 <=? length rest)%nat then pop_zeros rest else rev_version
  | [] => []
  end.
(** Trailing zeros are dropped, but at least one number is kept. *)
Definition trim_version (v : list Z) : list Z := rev (pop_zeros (rev v)).

(** [fmt::join(pieces, sep)] *)
Fixpoint join_with (sep : bytes) (l : list bytes) : bytes :=
  match l with
  | [] => []
  | [x] => x
  | x :: rest => x ++ sep ++ join_with sep rest
  end.

Definition INT32_MIN : Z := - 2 ^ 31.
Definition INT32_MAX : Z := 2 ^ 31 - 1.

Section Nodes.
Context `{Quic} `{TextEncodings}.

Definition parse_version (vers : bytes) (trim_trailing_zero : bool) : res (list Z) :=
  v_s ← split vers (bs ".") false;
  result ← foldM (fun result piece =>
                    match quic_parse_int INT32_MIN INT32_MAX piece with
                    | Some z => Ok (result ++ [z])
                    | None => Throw InvalidArgument
                    end) [] v_s;
  Ok (if trim_trailing_zero then trim_version result else result).

(** The text [ip|port|version|ed_pubkey|swarm_id]. *)
Definition node_from_disk (str : bytes) (can_ignore_version : bool) : res service_node :=
  parts ← split str (bs "|") false;
  match parts with
  | [ip; port; version; pk; swarm] =>
      _ ← throw_if (negb (size_of pk =? 64) || negb (is_hex pk)) InvalidArgument;
      match quic_parse_int 0 65535 port with
      | None => Throw InvalidArgument
      | Some port =>
          version ← parse_version version true;
          _ ← throw_if (negb can_ignore_version && bool_decide (version = [0])) InvalidArgument;
          ip ← parse_ip ip;
          Ok {| sn_key := from_hex pk; sn_version := version;
                sn_swarm := value_or (quic_parse_int 0 UINT64_MAX swarm) INVALID_SWARM_ID;
                sn_ip := ip; sn_port := port |}
      end
  | _ => Throw InvalidArgument
  end.

Definition version_text (v : list Z) : bytes := join_with (bs ".") (print_int <$> v).

Definition node_to_disk (n : service_node) : bytes :=
  join_with (bs "|") [print_ip (sn_ip n); print_int (sn_port n); version_text (sn_version n);
                      to_hex (sn_key n); print_int (sn_swarm n)].

(** The seed nodes, parsed when the program starts. *)
Definition seed_texts_testnet : list bytes :=
  [bs "95.216.33.113|35400|2.8.0|decaf007f26d3d6f9b845ad031ffdf6d04638c25bb10b8fffbbe99135303c4b9|"].
Definition seed_texts_mainnet : list bytes :=
  [bs "95.216.33.113|20200|2.8.0|1f000f09a7b07828dcb72af7cd16857050c10c02bd58afb0e38111fb6cda1fef|";
   bs "37.27.236.229|20201|2.8.0|1f101f0acee4db6f31aaa8b4df134e85ca8a4878efaef7f971e88ab144c1a7ce|";
   bs "172.96.140.124|20202|2.8.0|1f202f00f4d2d4acc01e20773999a291cf3e3136c325474d159814e06199919f|";
   bs "208.73.207.54|20203|2.8.0|1f303f1d7523c46fa5398826740d13282d26b5de90fbae5749442f66afb6d78b|";
   bs "104.194.8.115|20204|2.8.0|1f604f1c858a121a681d8f9b470ef72e6946ee1b9c5ad15a35e16b50c28db7b0|"].
Definition seed_nodes (use_testnet : bool) : list service_node :=
  omap (fun t => match node_from_disk t false with Ok n => Some n | Throw _ => None end)
    (if use_testnet then seed_texts_testnet else seed_texts_mainnet).

(** What the disk thread writes, and the lines [std::getline] reads back. *)
Definition newline : ascii := byte_of 10.
Definition pool_text (cache : list service_node) : bytes :=
  foldr (fun n text => node_to_disk n ++ [newline] ++ text) [] cache.
Fixpoint getlines (line text : bytes) : list bytes :=
  match text with
  | [] => if is_empty line then [] else [rev line]
  | c :: text => if decide (c = newline) then rev line :: getlines [] text else getlines (c :: line) text
  end.

(** The loop of [load_cache_from_disk]: entries that do not parse are skipped. *)
Definition load_pool (text : bytes) : list service_node :=
  omap (fun line => match node_from_disk line false with Ok n => Some n | Throw _ => None end) (getlines [] text).
End Nodes.

(** ** Swarms *)

(** The four words of a key are combined by exclusive or as they lie in memory, and the result is
    read as a big-endian number. *)
Definition xor_bytes (a b : bytes) : bytes :=
  zip_with (fun x y => byte_of (Z.lxor (byte_val x) (byte_val y))) a b.
Definition big_endian (b : bytes) : Z := foldl (fun n c => 256 * n + byte_val c) 0 b.
Definition pubkey_to_swarm_space (pk : bytes) : Z :=
  big_endian (foldl xor_bytes (replicate 8 (byte_of 0))
                ((fun i => take 8 (drop (i * 8) pk)) <$> [0; 1; 2; 3]%nat)).

(** The nodes of each swarm in their order, the swarms in ascending order. *)
Definition generate_swarms (nodes : list service_node) : list (Z * list service_node) :=
  foldl (fun grouped n => minsert (sn_swarm n) (value_or (mfind (sn_swarm n) grouped) [] ++ [n]) grouped) [] nodes.

(** [std::lower_bound] by swarm id: the first swarm whose id is not less than [v]. *)
Fixpoint lower_bound (all_swarms : list (Z * list service_node)) (v : Z) : nat :=
  match all_swarms with
  | [] => 0
  | s :: rest => if s.1 <? v then S (lower_bound rest v) else 0
  end.

(** The part of [get_swarm] that picks the swarm of an id (there are at least two). *)
Definition pick_swarm (all_swarms : list (Z * list service_node)) (swarm_id : Z) :
    option (Z * list service_node) :=
  let right_it := lower_bound all_swarms swarm_id in
  let right_it := if (right_it =? length all_swarms)%nat then 0%nat else right_it in
  let left_it := ((if right_it =? 0 then length all_swarms else right_it) - 1)%nat in
  right ← all_swarms !! right_it;
  left ← all_swarms !! left_it;
  let dright := (right.1 - swarm_id) mod 2 ^ 64 in
  let dleft := (swarm_id - left.1) mod 2 ^ 64 in
  Some (if dright <? dleft then right else left).

(** ** Connections, paths and requests *)

(** A connection, its stream and its counter of pending requests are shared by all copies of a
    [connection_info]; they have a number here, under which the network object keeps their state.
    There is none if the connection could not be established. *)
Record connection_info := { ci_node : service_node; ci_conn : option nat }.

Record onion_path := {
  op_id : bytes;
  op_conn_info : connection_info;
  op_nodes : list service_node;
  op_failure_count : Z
}.
Definition contains_node (p : onion_path) (sn : service_node) : bool :=
  existsb (fun n => bool_decide (n = sn)) (op_nodes p).
(** [operator==] of paths: the nodes. *)
Definition same_path (p q : onion_path) : bool := bool_decide (op_nodes p = op_nodes q).

Inductive destination := NodeDestination (n : service_node) | ServerDest (d : ServerDestination).
Definition node_for_destination (d : destination) : option service_node :=
  match d with NodeDestination n => Some n | ServerDest _ => None end.
(** The destination as the builder takes it. *)
Definition builder_destination (d : destination) : network_destination :=
  match d with NodeDestination n => DestNode (sn_key n) | ServerDest d => DestServer d end.

Inductive RetryReason := rr_none | rr_decryption_failure | rr_redirect | rr_redirect_swarm_refresh.
#[export] Instance RetryReason_eq_dec : EqDecision RetryReason.
Proof. solve_decision. Defined.

Record request_info := {
  ri_request_id : bytes;
  ri_destination : destination;
  ri_endpoint : bytes;
  ri_body : option bytes;
  ri_original_body : option bytes;
  ri_swarm_pubkey : option bytes;
  ri_path_type : PathType;
  ri_request_timeout : Z;
  ri_path_build_timeout : option Z;
  ri_creation_time : Z;
  ri_retry_reason : option RetryReason;
  ri_node_destination : bool
}.
Definition ONION : bytes := bs "onion_req".

(** [request_info::make], without an endpoint or a body. *)
Definition make_request (now : Z) (id : bytes) (dest : destination) (original_body swarm_pk : option bytes)
    (request_timeout : Z) (path_build_timeout : option Z) (type : PathType) : request_info :=
  {| ri_request_id := id; ri_destination := dest; ri_endpoint := ONION; ri_body := None;
     ri_original_body := original_body; ri_swarm_pubkey := swarm_pk; ri_path_type := type;
     ri_request_timeout := request_timeout; ri_path_build_timeout := path_build_timeout;
     ri_creation_time := now; ri_retry_reason := None;
     ri_node_destination := bool_decide (is_Some (node_for_destination dest)) |}.

(** A copy of a request with another destination and reason to retry. *)
Definition retried (info : request_info) (dest : destination) (reason : RetryReason) : request_info :=
  {| ri_request_id := ri_request_id info; ri_destination := dest; ri_endpoint := ri_endpoint info;
     ri_body := ri_body info; ri_original_body := ri_original_body info;
     ri_swarm_pubkey := ri_swarm_pubkey info; ri_path_type := ri_path_type info;
     ri_request_timeout := ri_request_timeout info; ri_path_build_timeout := ri_path_build_timeout info;
     ri_creation_time := ri_creation_time info; ri_retry_reason := Some reason;
     ri_node_destination := ri_node_destination info |}.
Definition with_body (info : request_info) (body : bytes) : request_info :=
  {| ri_request_id := ri_request_id info; ri_destination := ri_destination info;
     ri_endpoint := ri_endpoint info; ri_body := Some body; ri_original_body := ri_original_body info;
     ri_swarm_pubkey := ri_swarm_pubkey info; ri_path_type := ri_path_type info;
     ri_request_timeout := ri_request_timeout info; ri_path_build_timeout := ri_path_build_timeout info;
     ri_creation_time := ri_creation_time info; ri_retry_reason := ri_retry_reason info;
     ri_node_destination := ri_node_destination info |}.
