(* ===== verification/NetworkResponse.v ===== *)
(** * Responses

    What [src/session_network.cpp] reads from the answers of service nodes and servers: lists of
    service nodes as JSON ([node_from_json]) or bencoded, the answer of a direct request
    ([validate_response]), the decrypted answers of onion requests ([process_v3_onion_response],
    [process_v4_onion_response]) and the results of a batch; and how the node lists of three
    answers are combined. *)
From S2P Require Import Prelude OMap Util Internal BtValue Bencode ThirdParty OnionRequest NetworkData.

(** ** Exceptions that carry a text *)

Abbreviation headers_t := (list (bytes * bytes)).
Definition content_type_plain_text : bytes * bytes := (bs "Content-Type", bs "text/plain; charset=UTF-8").
Definition content_type_json : bytes * bytes := (bs "Content-Type", bs "application/json").
(** [onionreq::decryption_failed_error] *)
Definition decryption_failed_error : bytes := bs "Decryption failed (both XChaCha20-Poly1305 and AES256-GCM)".

Inductive net_exn :=
| StatusCodeException (status_code : Z) (headers : headers_t) (msg : bytes)
| StdException (msg : bytes)
| UndefinedBehaviour.

Inductive nres (A : Type) :=
| NOk (a : A)
| NThrow (e : net_exn).
Arguments NOk {A} a.
Arguments NThrow {A} e.
#[export] Instance nres_bind : MBind nres := fun A B f m =>
  match m with NOk a => f a | NThrow e => NThrow e end.

(** [what()] of an exception of another library: it may depend on what was read. *)
Class Texts := { what : exn -> bytes -> bytes }.

Definition lift `{Texts} {A} (input : bytes) (r : res A) : nres A :=
  match r with
  | Ok a => NOk a
  | Throw UB => NThrow UndefinedBehaviour
  | Throw e => NThrow (StdException (what e input))
  end.

(** ** JSON access *)

(** The value of a floating point number, without its fraction. *)
Class JsonNumbers := { json_trunc : bytes -> Z }.

Definition in_int (lo hi z : Z) : bool := (lo <=? z) && (z <=? hi).
Definition int16 (z : Z) : Z := (z + 2 ^ 15) mod 2 ^ 16 - 2 ^ 15.
Definition int32 (z : Z) : Z := (z + 2 ^ 31) mod 2 ^ 32 - 2 ^ 31.

Section Access.
Context `{JsonNumbers}.

Definition is_number (j : json) : bool := match j with JInt _ | JFloat _ => true | _ => false end.

(** [get<T>()] for an integer type: a number is cast, and a [bool] is taken for types other than
    those JSON numbers are stored in. *)
Definition json_get_int (cast : Z -> Z) (allow_bool : bool) (j : json) : res Z :=
  match j with
  | JInt z => Ok (cast z)
  | JBool b => if allow_bool then Ok (if b then 1 else 0) else Throw JsonError
  | JFloat r => let z := json_trunc r in if bool_decide (cast z = z) then Ok z else Throw UB
  | _ => Throw JsonError
  end.
Definition json_int16 : json -> res Z := json_get_int int16 true.
Definition json_uint16 : json -> res Z := json_get_int (fun z => z mod 2 ^ 16) true.
Definition json_uint64 : json -> res Z := json_get_int (fun z => z mod 2 ^ 64) false.
Definition json_int : json -> res Z := json_get_int int32 true.

(** [contains(key) && json[key].is_number()] *)
Definition number_at (j : json) (key : bytes) : option json :=
  match json_find j key with Some v => if is_number v then Some v else None | None => None end.

(** [json[key].get<std::string>()]: a missing key gives null. *)
Definition json_string_at (j : json) (key : bytes) : res bytes :=
  json_get_string (value_or (json_find j key) JNull).

(** The headers of a response: names and values, which have to be strings. *)
Definition json_headers (j : json) : res headers_t :=
  match j with
  | JObj fields => foldM (fun l kv => s ← json_get_string kv.2; Ok (l ++ [(kv.1, s)])) [] fields
  | JNull | JArr [] => Ok []
  | _ => Throw JsonError
  end.
Definition headers_field (j : json) (default : headers_t) : res headers_t :=
  match json_find j (bs "headers") with Some h => json_headers h | None => Ok default end.
End Access.

(** ** Lists of service nodes *)

Section NodeLists.
Context `{Quic} `{TextEncodings} `{JsonNumbers}.

Definition json_version (j : json) : res (list Z) :=
  match json_find j (bs "storage_server_version") with
  | None => Ok [0]
  | Some (JArr []) => Ok [0]
  | Some (JArr l) => v ← foldM (fun v e => z ← json_int e; Ok (v ++ [z])) [] l; parse_version (version_text v) true
  | Some v => s ← json_get_string v; parse_version s true
  end.

Definition node_from_json (j : json) : res service_node :=
  pk_ed ← json_string_at j (bs "pubkey_ed25519");
  _ ← throw_if (negb (size_of pk_ed =? 64) || negb (is_hex pk_ed)) InvalidArgument;
  storage_server_version ← json_version j;
  ip ← match json_find j (bs "public_ip") with
       | Some v => json_get_string v
       | None => json_string_at j (bs "ip")
       end;
  _ ← throw_if (bool_decide (ip = bs "0.0.0.0")) RuntimeError;
  port ← json_uint16 (value_or (match json_find j (bs "storage_lmq_port") with
                                | Some v => Some v
                                | None => json_find j (bs "port_omq")
                                end) JNull);
  _ ← throw_if (port =? 0) RuntimeError;
  swarm_id ← match json_find j (bs "swarm_id") with Some v => json_uint64 v | None => Ok INVALID_SWARM_ID end;
  ip ← parse_ip ip;
  Ok {| sn_key := from_hex pk_ed; sn_version := storage_server_version; sn_swarm := swarm_id;
        sn_ip := ip; sn_port := port |}.

(** [process_get_service_nodes_response(json)]: nodes that do not parse are skipped. *)
Definition json_service_nodes (response_json : json) : res (list service_node) :=
  match json_find response_json (bs "result") with
  | Some (JObj r) =>
      match mfind (bs "service_node_states") r with
      | Some (JArr l) =>
          foldM (fun result snode => match node_from_json snode with
                                     | Ok n => Ok (result ++ [n])
                                     | Throw UB => Throw UB
                                     | Throw _ => Ok result
                                     end) [] l
      | _ => Throw RuntimeError
      end
  | _ => Throw RuntimeError
  end.

(** [consume_string(dict, key)] and [consume_integer<T>(dict, key)] on a copy of the consumer. *)
Definition bt_string_at (d : bt_dict) (key : bytes) : res bytes :=
  match mfind key d with Some (BStr s) => Ok s | Some _ => Throw BtInvalid | None => Throw InvalidArgument end.
Definition bt_integer_at (d : bt_dict) (key : bytes) (lo hi : Z) : res Z :=
  match mfind key d with
  | Some (BInt z) => if in_int lo hi z then Ok z else Throw OverflowError
  | Some _ => Throw BtInvalid
  | None => Throw InvalidArgument
  end.
(** [skip_until(key)] and [consume_list_consumer()]: if the key is missing the next value is taken. *)
Fixpoint bt_skip_until (d : bt_dict) (key : bytes) : bt_dict :=
  match d with
  | (k, _) :: d' => if kltb k key then bt_skip_until d' key else d
  | [] => []
  end.
Definition bt_list_from (d : bt_dict) (key : bytes) : res (bt_list * bt_dict) :=
  match bt_skip_until d key with (_, BList l) :: d => Ok (l, d) | _ => Throw BtInvalid end.

Definition node_from_bt (d : bt_dict) : res service_node :=
  pk ← bt_string_at d (bs "pubkey_ed25519");
  public_ip ← bt_string_at d (bs "public_ip");
  port ← bt_integer_at d (bs "storage_lmq_port") 0 65535;
  _ ← throw_if (bool_decide (public_ip = bs "0.0.0.0")) RuntimeError;
  _ ← throw_if (port =? 0) RuntimeError;
  let! (version, d) := bt_list_from d (bs "storage_server_version") in
  swarm_id ← bt_integer_at d (bs "swarm_id") 0 UINT64_MAX;
  version ← foldM (fun l v => match v with
                              | BInt z => if in_int INT32_MIN INT32_MAX z then Ok (l ++ [z]) else Throw OverflowError
                              | _ => Throw BtInvalid
                              end) [] version;
  ip ← parse_ip public_ip;
  Ok {| sn_key := from_hex pk; sn_version := version; sn_swarm := swarm_id; sn_ip := ip; sn_port := port |}.

(** The loop over the node list.  An element that is not a dict makes [consume_dict_consumer] throw
    without moving on, and the loop goes round again. *)
Fixpoint bt_nodes_loop (fuel : nat) (l : bt_list) (result : list service_node) : res (list service_node) :=
  match fuel with
  | O => Throw OutOfFuel
  | S fuel =>
      match l with
      | [] => Ok result
      | BDict d :: rest =>
          bt_nodes_loop fuel rest (match node_from_bt d with Ok n => result ++ [n] | Throw _ => result end)
      | _ => bt_nodes_loop fuel l result
      end
  end.

(** [process_get_service_nodes_response(bt_list_consumer)] on a list that was decoded without an error. *)
Definition bt_service_nodes (l : bt_list) : res (list service_node) :=
  match l with
  | _ :: BDict response :: _ =>
      match bt_skip_until response (bs "result") with
      | (_, BDict result) :: _ =>
          let! (nodes, _) := bt_list_from result (bs "service_node_states") in
          bt_nodes_loop (S (length nodes)) nodes []
      | _ => Throw BtInvalid
      end
  | _ => Throw BtInvalid
  end.
End NodeLists.

(** ** Answers *)

Record message := { ms_timed_out : bool; ms_is_error : bool; ms_body : bytes }.

Definition success_status (code : Z) : bool := (200 <=? code) && (code <=? 299).

Section Answers.
Context `{Oxenc} `{TextEncodings} `{X25519} `{Aead} `{AesGcm} `{Json} `{JsonNumbers} `{Texts}.

(** [validate_response(resp, true)]: the body itself is returned. *)
Definition validate_bencoded (resp : message) : nres (Z * bytes) :=
  if ms_timed_out resp then NThrow (StdException (bs "Timed out"))
  else if ms_is_error resp then
    NThrow (StdException (if is_empty (ms_body resp) then bs "Unknown error" else ms_body resp))
  else
    match bt_list_parse (ms_body resp) with
    | None => NThrow (StdException (what BtInvalid (ms_body resp)))
    | Some (BInt z :: rest, _) =>
        if negb (in_int (- 2 ^ 15) (2 ^ 15 - 1) z) then NThrow (StdException (what OverflowError (ms_body resp)))
        else if success_status z then NOk (z, ms_body resp)
        else match rest with
             | BStr s :: _ => NThrow (StatusCodeException z [content_type_plain_text] s)
             | _ => NThrow (StatusCodeException z [content_type_plain_text]
                              (bs "Request failed with status code: " ++ print_int z))
             end
    | Some _ => NThrow (StdException (bs "Invalid bencoded response"))
    end.

(** The status, text and content type of a body: JSON that is an array of two is a status and the
    response, everything else is the response, with status 200. *)
Definition response_parts (body : bytes) : Z * bytes * (bytes * bytes) :=
  match json_parse body with
  | Ok (JArr [code; r]) =>
      match json_int16 code with
      | Ok status_code => match json_dump r with
                          | Ok s => (status_code, s, content_type_json)
                          | Throw _ => (status_code, body, content_type_plain_text)
                          end
      | Throw _ => (200, body, content_type_plain_text)
      end
  | Ok _ => (200, body, content_type_json)
  | Throw _ => (200, body, content_type_plain_text)
  end.

(** [validate_response(resp, false)] *)
Definition validate_response (resp : message) : nres (Z * bytes) :=
  if ms_timed_out resp then NThrow (StdException (bs "Timed out"))
  else if ms_is_error resp then
    NThrow (StdException (if is_empty (ms_body resp) then bs "Unknown error" else ms_body resp))
  else
    let '(status_code, response_string, content_type) := response_parts (ms_body resp) in
    if success_status status_code then NOk (status_code, response_string)
    else NThrow (StatusCodeException status_code [content_type] response_string).

(** [ResponseParser(builder)] and [decrypt]: with XChaCha20 every failure has the same text. *)
Definition open_response (b : Builder) (ciphertext : bytes) : nres bytes :=
  p ← lift ciphertext (new_response_parser b);
  match decrypt_response p ciphertext with
  | Ok m => NOk m
  | Throw UB => NThrow UndefinedBehaviour
  | Throw e => NThrow (StdException (match enc_type b with
                                     | xchacha20 => decryption_failed_error
                                     | aes_gcm => what e ciphertext
                                     end))
  end.

(** A status, headers and a body. *)
Abbreviation processed := (Z * headers_t * option bytes)%type.

Definition process_v3_onion_response (b : Builder) (response : bytes) : nres processed :=
  let base64 := match json_parse response with
                | Ok j => match json_find j (bs "result") with Some (JStr s) => s | _ => response end
                | Throw _ => response
                end in
  if negb (is_base64 base64) then NThrow (StdException (bs "Invalid base64 encoded IV and ciphertext."))
  else
    result ← open_response b (from_base64 base64);
    j ← lift result (json_parse result);
    status_code ← match number_at j (bs "status_code"), number_at j (bs "status") with
                  | Some s, _ | None, Some s => lift result (json_int16 s)
                  | None, None =>
                      NThrow (StdException (bs "Invalid JSON response, missing required status_code field."))
                  end;
    headers ← lift result (headers_field j []);
    body ← match json_find j (bs "body") with
           | Some (JStr s) => NOk s
           | _ => lift result (json_dump j)
           end;
    NOk (status_code, headers, Some body).

Definition process_v4_onion_response (b : Builder) (response : bytes) : nres processed :=
  result ← open_response b response;
  match bt_list_parse result with
  | None => NThrow (StdException (what BtInvalid result))
  | Some (BStr info :: rest, complete) =>
      j ← lift info (json_parse info);
      status_code ← match number_at j (bs "code") with
                    | Some s => lift info (json_int16 s)
                    | None => NThrow (StdException (bs "Invalid JSON response, missing required code field."))
                    end;
      headers ← lift info (headers_field j []);
      match rest, complete with
      | [], true => NOk (status_code, headers, None)
      | BStr body :: _, _ => NOk (status_code, headers, Some body)
      | _, _ => NThrow (StdException (what BtInvalid result))
      end
  | Some _ => NThrow (StdException (bs "Invalid bencoded response"))
  end.

(** ** Batches *)

(** [items()] *)
Definition json_items (j : json) : list json :=
  match j with JObj fields => fields.*2 | JArr l => l | JNull => [] | _ => [j] end.

(** The loop over the results of a batch, from the status code, headers and body so far. *)
Fixpoint batch_loop (results : list json) (status : Z) (headers : headers_t) (error_body : option bytes) :
    res (Z * headers_t * option bytes) :=
  match results with
  | [] => Ok (status, headers, error_body)
  | r :: results =>
      match number_at r (bs "code") with
      | None => Ok (200, headers, error_body)
      | Some c =>
          code ← json_int16 c;
          if (status =? -1) || negb (code =? status) then
            headers ← headers_field r headers;
            batch_loop results code headers
              (match json_find r (bs "body") with Some (JStr s) => Some s | _ => error_body end)
          else Ok (200, headers, error_body)
      end
  end.

Definition batch_results (processed_body : option bytes) : option json :=
  match processed_body with
  | Some body => match json_parse body with Ok j => json_find j (bs "results") | Throw _ => None end
  | None => None
  end.

(** The response to an onion request that got through: the [try] block of the callback of
    [_send_onion_request]. *)
Definition process_onion_response (b : Builder) (to_node : bool) (status_code : Z) (response : bytes) : nres processed :=
  if negb (response_long_enough (enc_type b) (size_of response)) then
    NThrow (StatusCodeException status_code [content_type_plain_text]
              (bs "Response is too short to be an onion request response: " ++ response))
  else
    r ← (if to_node then process_v3_onion_response b response else process_v4_onion_response b response);
    let '(code, headers, body) := r in
    if negb (success_status code) then
      NThrow (StatusCodeException code [content_type_plain_text]
                (value_or body (bs "Request returned non-success status code.")))
    else
      match batch_results body with
      | None => NOk r
      | Some results =>
          single ← lift (value_or body []) (batch_loop (json_items results) (-1) [content_type_plain_text] body);
          let '(code, headers, error_body) := single in
          if negb (success_status code) then
            NThrow (StatusCodeException code headers
                      (value_or error_body (bs "Sub-request returned non-success status code.")))
          else NOk r
      end.
End Answers.

(** ** Combining node lists *)

Section Combining.
Context `{Quic}.

Definition node_sort_key (n : service_node) : Z * (bytes * (Z * list Z)) :=
  (address_rank (sn_address n), (sn_key n, (sn_swarm n, sn_version n))).
(** [compare_service_nodes] *)
Definition node_ltb (a b : service_node) : bool := kltb (node_sort_key a) (node_sort_key b).

(** [std::stable_sort] *)
Fixpoint insert_node (n : service_node) (l : list service_node) : list service_node :=
  match l with
  | [] => [n]
  | m :: l' => if node_ltb m n then m :: insert_node n l' else n :: l
  end.
Definition sort_nodes (l : list service_node) : list service_node := foldr insert_node [] l.

(** [std::set_intersection] *)
Fixpoint set_intersection (l1 : list service_node) : list service_node -> list service_node :=
  match l1 with
  | [] => fun _ => []
  | x :: l1' =>
      fix go (l2 : list service_node) : list service_node :=
        match l2 with
        | [] => []
        | y :: l2' =>
            if node_ltb x y then set_intersection l1' l2
            else if node_ltb y x then go l2'
            else x :: set_intersection l1' l2'
        end
  end.

(** The nodes that are in all the answers of a refresh. *)
Definition combine_results (results : list (list service_node)) : list service_node :=
  match sort_nodes <$> results with
  | [] => []
  | nodes :: rest => foldl set_intersection nodes rest
  end.
End Combining.
