(* ===== verification/NetworkState.v ===== *)
(** * The network object

    [session::network::Network] of [src/session_network.cpp]: the cache of service nodes and its
    refresh, connections, paths, swarms, the request queue, and what is done with answers and
    errors.

    The object runs on one event loop: a handler is a function from the state to the state, and
    what it schedules ([loop->call_soon], [loop->call_later]), sends or reports becomes part of the
    state.  [step] lets any scheduled call run, any connection open or close and any command get
    an answer at any time, so that the delays and the order of calls are not relied on.  Function
    objects that wait to be called are data: a [callback] is the handler of a response, a [task] a
    scheduled call, an [after_refresh] a call that waits for the next refresh of the cache.  The
    callbacks of the application are numbers; they do not call the network from inside a handler
    and do not throw.

    A request of the application runs on the thread of the caller, and only parts of it on the loop.
    What is left of such a call is an [app_call], and any event can come between two parts of it.
    The counter of pending requests of a connection is a plain [size_t] that these threads and the
    loop both write: see [lk_raced]. *)
From S2P Require Import Prelude OMap Util Internal Services BtValue Bencode ThirdParty OnionRequest NetworkData NetworkResponse.

(** ** Data *)

Inductive callback :=
| CbUser (id : nat)                                     (* the application *)
| CbRefresh (request_id : bytes)                        (* the handler of [refresh_snode_cache] *)
| CbOnion (b : Builder) (info : request_info) (path : onion_path) (cb : callback). (* of [_send_onion_request] *)

Inductive swarm_callback :=
| SwUser (id : nat)
| SwRedirect (info : request_info) (status_code : Z) (headers : headers_t) (response : option bytes) (cb : callback).

Inductive after_refresh :=
| AfterGetSwarm (swarm_pubkey : bytes) (cb : swarm_callback)
| AfterGetRandomNodes (count : Z) (id : nat).

Inductive task :=
| TBuildPath (path_id : bytes) (t : PathType)
| TEstablish (path_id : bytes)
| TEstablishNew
| TRefresh (request_id : option bytes)
| TRefreshSeed (request_id : bytes)
| TBuildPathIfNeeded (t : PathType) (found_path : bool)
| TSend (info : request_info) (cb : callback)
| TEnqueue (info : request_info) (cb : callback)
| TCheckTimeouts (same_loop : bool)
| TDiskWrite
| TAfterRefresh (a : after_refresh).

(** What a connection that is being established is for. *)
Inductive conn_callback := CcStore (path_id : bytes) | CcSeed (request_id : bytes).
Inductive link_state := Opening (cb : conn_callback) | Open | Closed.
(** [lk_pending] is the counter of pending requests.  [lk_raced] is not in the code: it says whether
    the counter was written while the thread of a caller was in the middle of incrementing it, which
    is a data race.  The value of such an increment, and of later ones, is not specified; a read on the
    loop during an increment sees the value before it. *)
Record link := { lk_id : bytes; lk_node : service_node; lk_state : link_state; lk_pending : Z; lk_raced : bool }.

Inductive command :=
| CmOnion (conn_info : connection_info) (info : request_info) (cb : callback)
| CmServiceNodes (conn_info : connection_info) (request_id : bytes).

(** What is left of a request that the application makes on a thread of its own: the call that looks
    for a path on the loop, building the request, and the parts of [send_request]: checking the
    connection, checking the time, incrementing the counter, and posting the command.  [caught]:
    the caller is a function of the C interface, which catches exceptions. *)
Inductive send_stage := stg_connection | stg_timeout | stg_count | stg_post.
#[export] Instance send_stage_eq_dec : EqDecision send_stage. Proof. solve_decision. Defined.
Inductive app_call :=
| CallFind (caught : bool) (info : request_info) (id : nat)
| CallBuild (caught : bool) (info : request_info) (path : onion_path) (id : nat)
| CallRequest (s : send_stage) (conn_info : connection_info) (info : request_info) (cb : callback).

Inductive output :=
| OutResponse (id : nat) (success timeout : bool) (status_code : Z) (headers : headers_t) (response : option bytes)
| OutSwarm (id : nat) (swarm_id : Z) (nodes : list service_node)
| OutNodes (id : nat) (nodes : list service_node)
| OutStatus (s : ConnectionStatus)
| OutPaths (raw_paths : list (list service_node))
| OutThrown (id : nat) (e : exn)                 (* an exception went to the caller of a request *)
| OutSent (info : request_info) (cb : callback). (* a command went out *)

(** A map from path types to lists: a missing entry is an empty list. *)
Record per_type (A : Type) := { p_standard : A; p_upload : A; p_download : A }.
Arguments p_standard {A}. Arguments p_upload {A}. Arguments p_download {A}.
Definition pget {A} (t : PathType) (p : per_type A) : A :=
  match t with pt_standard => p_standard p | pt_upload => p_upload p | pt_download => p_download p end.
Definition pset {A} (t : PathType) (a : A) (p : per_type A) : per_type A :=
  match t with
  | pt_standard => {| p_standard := a; p_upload := p_upload p; p_download := p_download p |}
  | pt_upload => {| p_standard := p_standard p; p_upload := a; p_download := p_download p |}
  | pt_download => {| p_standard := p_standard p; p_upload := p_upload p; p_download := a |}
  end.
Definition pempty {A} : per_type (list A) := {| p_standard := []; p_upload := []; p_download := [] |}.
Definition pall {A} (p : per_type (list A)) : list A := p_standard p ++ p_upload p ++ p_download p.

(** The cache directory: the testnet mark, and the pool file with its time. *)
Record disk_dir := { dk_testnet : bool; dk_pool : option (Z * bytes) }.

Record Network := {
  (** Configuration. *)
  use_testnet : bool;
  single_path_mode : bool;
  (** The state of the thread that writes the cache, and the directory it writes to. *)
  need_write : bool;
  need_clear_cache : bool;
  has_pending_disk_write : bool;
  writing_ : option (list service_node);
  disk : disk_dir;
  (** Values persisted to disk. *)
  seed_node_cache_size : option Z;
  snode_cache : list service_node;
  last_snode_cache_update : Z;
  (** General values. *)
  suspended : bool;
  status : ConnectionStatus;
  paths : per_type (list onion_path);
  paths_pending_drop : list (onion_path * PathType);
  unused_nodes : list service_node;
  snode_failure_counts : gmap (Z * Z) Z;
  all_swarms : list (Z * list service_node);
  swarm_cache : list (bytes * (Z * list service_node));
  (** Snode refresh state. *)
  snode_cache_refresh_failure_count : Z;
  in_progress_snode_cache_refresh_count : Z;
  current_snode_cache_refresh_request_id : option bytes;
  after_snode_cache_refresh : list after_refresh;
  unused_snode_refresh_nodes : option (list service_node);
  snode_refresh_results : option (list (list service_node));
  (** First hop state. *)
  connection_failures : Z;
  unused_connections : list connection_info;
  in_progress_connections : list (bytes * service_node);
  (** Path build state. *)
  path_build_failures : Z;
  path_build_queue : list PathType;
  in_progress_path_builds : list (bytes * PathType);
  (** Request state. *)
  request_timeout_id : option bytes;
  request_queue : per_type (list (request_info * callback));
  (** Around the object: connections, calls of the application that have not returned, commands without an
     answer, scheduled calls with their delay, what was reported, the clock, the random draws so far,
     and whether something went wrong for good. *)
  links : list link;
  calls : list app_call;
  in_flight : list command;
  tasks : list (Z * task);
  outputs : list output;
  clock : Z;
  draws : nat;
  broken : bool
}.

(** Record update. *)
Class Setter {R T : Type} (proj : R -> T) := field_set : (T -> T) -> R -> R.
Definition eta_network (n : Network) : Network :=
  {| use_testnet := use_testnet n; single_path_mode := single_path_mode n; need_write := need_write n;
     need_clear_cache := need_clear_cache n; has_pending_disk_write := has_pending_disk_write n; writing_ := writing_ n;
     disk := disk n; seed_node_cache_size := seed_node_cache_size n; snode_cache := snode_cache n;
     last_snode_cache_update := last_snode_cache_update n; suspended := suspended n; status := status n;
     paths := paths n; paths_pending_drop := paths_pending_drop n; unused_nodes := unused_nodes n;
     snode_failure_counts := snode_failure_counts n; all_swarms := all_swarms n; swarm_cache := swarm_cache n;
     snode_cache_refresh_failure_count := snode_cache_refresh_failure_count n; in_progress_snode_cache_refresh_count := in_progress_snode_cache_refresh_count n; current_snode_cache_refresh_request_id := current_snode_cache_refresh_request_id n;
     after_snode_cache_refresh := after_snode_cache_refresh n; unused_snode_refresh_nodes := unused_snode_refresh_nodes n; snode_refresh_results := snode_refresh_results n;
     connection_failures := connection_failures n; unused_connections := unused_connections n; in_progress_connections := in_progress_connections n;
     path_build_failures := path_build_failures n; path_build_queue := path_build_queue n; in_progress_path_builds := in_progress_path_builds n;
     request_timeout_id := request_timeout_id n; request_queue := request_queue n; links := links n; calls := calls n;
     in_flight := in_flight n; tasks := tasks n; outputs := outputs n;
     clock := clock n; draws := draws n; broken := broken n |}.
Ltac network_setter proj :=
  unfold Setter; let f := fresh "f" in let n := fresh "n" in intros f n;
  let e := eval cbv beta delta [eta_network] in (eta_network n) in
  let e := eval pattern (proj n) in e in
  match e with ?g _ => let t := eval cbv beta in (g (f (proj n))) in exact t end.
#[export] Instance set_use_testnet : Setter use_testnet. Proof. network_setter use_testnet. Defined.
#[export] Instance set_single_path_mode : Setter single_path_mode. Proof. network_setter single_path_mode. Defined.
#[export] Instance set_need_write : Setter need_write. Proof. network_setter need_write. Defined.
#[export] Instance set_need_clear_cache : Setter need_clear_cache. Proof. network_setter need_clear_cache. Defined.
#[export] Instance set_has_pending_disk_write : Setter has_pending_disk_write. Proof. network_setter has_pending_disk_write. Defined.
#[export] Instance set_writing_ : Setter writing_. Proof. network_setter writing_. Defined.
#[export] Instance set_disk : Setter disk. Proof. network_setter disk. Defined.
#[export] Instance set_seed_node_cache_size : Setter seed_node_cache_size. Proof. network_setter seed_node_cache_size. Defined.
#[export] Instance set_snode_cache : Setter snode_cache. Proof. network_setter snode_cache. Defined.
#[export] Instance set_last_snode_cache_update : Setter last_snode_cache_update. Proof. network_setter last_snode_cache_update. Defined.
#[export] Instance set_suspended : Setter suspended. Proof. network_setter suspended. Defined.
#[export] Instance set_status : Setter status. Proof. network_setter status. Defined.
#[export] Instance set_paths : Setter paths. Proof. network_setter paths. Defined.
#[export] Instance set_paths_pending_drop : Setter paths_pending_drop. Proof. network_setter paths_pending_drop. Defined.
#[export] Instance set_unused_nodes : Setter unused_nodes. Proof. network_setter unused_nodes. Defined.
#[export] Instance set_snode_failure_counts : Setter snode_failure_counts. Proof. network_setter snode_failure_counts. Defined.
#[export] Instance set_all_swarms : Setter all_swarms. Proof. network_setter all_swarms. Defined.
#[export] Instance set_swarm_cache : Setter swarm_cache. Proof. network_setter swarm_cache. Defined.
#[export] Instance set_snode_cache_refresh_failure_count : Setter snode_cache_refresh_failure_count. Proof. network_setter snode_cache_refresh_failure_count. Defined.
#[export] Instance set_in_progress_snode_cache_refresh_count : Setter in_progress_snode_cache_refresh_count. Proof. network_setter in_progress_snode_cache_refresh_count. Defined.
#[export] Instance set_current_snode_cache_refresh_request_id : Setter current_snode_cache_refresh_request_id. Proof. network_setter current_snode_cache_refresh_request_id. Defined.
#[export] Instance set_after_snode_cache_refresh : Setter after_snode_cache_refresh. Proof. network_setter after_snode_cache_refresh. Defined.
#[export] Instance set_unused_snode_refresh_nodes : Setter unused_snode_refresh_nodes. Proof. network_setter unused_snode_refresh_nodes. Defined.
#[export] Instance set_snode_refresh_results : Setter snode_refresh_results. Proof. network_setter snode_refresh_results. Defined.
#[export] Instance set_connection_failures : Setter connection_failures. Proof. network_setter connection_failures. Defined.
#[export] Instance set_unused_connections : Setter unused_connections. Proof. network_setter unused_connections. Defined.
#[export] Instance set_in_progress_connections : Setter in_progress_connections. Proof. network_setter in_progress_connections. Defined.
#[export] Instance set_path_build_failures : Setter path_build_failures. Proof. network_setter path_build_failures. Defined.
#[export] Instance set_path_build_queue : Setter path_build_queue. Proof. network_setter path_build_queue. Defined.
#[export] Instance set_in_progress_path_builds : Setter in_progress_path_builds. Proof. network_setter in_progress_path_builds. Defined.
#[export] Instance set_request_timeout_id : Setter request_timeout_id. Proof. network_setter request_timeout_id. Defined.
#[export] Instance set_request_queue : Setter request_queue. Proof. network_setter request_queue. Defined.
#[export] Instance set_links : Setter links. Proof. network_setter links. Defined.
#[export] Instance set_calls : Setter calls. Proof. network_setter calls. Defined.
#[export] Instance set_in_flight : Setter in_flight. Proof. network_setter in_flight. Defined.
#[export] Instance set_tasks : Setter tasks. Proof. network_setter tasks. Defined.
#[export] Instance set_outputs : Setter outputs. Proof. network_setter outputs. Defined.
#[export] Instance set_clock : Setter clock. Proof. network_setter clock. Defined.
#[export] Instance set_draws : Setter draws. Proof. network_setter draws. Defined.
#[export] Instance set_broken : Setter broken. Proof. network_setter broken. Defined.
Notation "n <| f ::= g |>" := (field_set (proj := f) g n) (at level 1, left associativity, f at level 9, g at level 200) : session_scope.
Notation "n <| f := v |>" := (field_set (proj := f) (fun _ => v) n) (at level 1, left associativity, f at level 9, v at level 200) : session_scope.

(** ** Scheduling and reporting *)

Definition add_task (delay : Z) (t : task) (n : Network) : Network := n <| tasks ::= (fun l => l ++ [(delay, t)]) |>.
Definition call_soon (t : task) (n : Network) : Network := add_task 0 t n.
Definition report (o : output) (n : Network) : Network := n <| outputs ::= (fun l => l ++ [o]) |>.
Definition break_loop (n : Network) : Network := n <| broken := true |>.
(** [loop->call_later(retry_delay(failures), task)] *)
Definition retry_later (failures : Z) (t : task) (n : Network) : Network :=
  match retry_delay failures DEFAULT_MAX_DELAY with
  | Ok delay => add_task delay t n
  | Throw _ => break_loop n
  end.
Definition next_draw (n : Network) : Network := n <| draws ::= S |>.

Definition update_status (updated_status : ConnectionStatus) (n : Network) : Network :=
  if bool_decide (status n = updated_status) then n
  else if bool_decide (status n = st_connected) && bool_decide (updated_status = st_connecting) then n
  else report (OutStatus updated_status) (n <| status := updated_status |>).

Definition update_disk_cache_throttled (force_immediate_write : bool) (n : Network) : Network :=
  if force_immediate_write then n <| has_pending_disk_write := false |>
  else if has_pending_disk_write n then n
  else add_task 1000 TDiskWrite (n <| has_pending_disk_write := true |>).

(** ** Connections *)

Definition link_open (n : Network) (c : nat) : bool :=
  match links n !! c with Some {| lk_state := Open |} => true | _ => false end.
(** [connection_info::is_valid()] *)
Definition conn_valid (n : Network) (c : connection_info) : bool :=
  match ci_conn c with Some i => link_open n i | None => false end.
Definition path_valid (n : Network) (p : onion_path) : bool :=
  negb (bool_decide (op_nodes p = [])) && conn_valid n (op_conn_info p).
Definition num_pending_requests (n : Network) (c : connection_info) : Z :=
  match ci_conn c with
  | Some i => match links n !! i with Some l => lk_pending l | None => 0 end
  | None => 0
  end.
Definition has_pending_requests (n : Network) (c : connection_info) : bool := 0 <? num_pending_requests n c.
Definition set_pending (raced : bool) (z : Z) (l : link) : link :=
  {| lk_id := lk_id l; lk_node := lk_node l; lk_state := lk_state l; lk_pending := z mod 2 ^ 64; lk_raced := lk_raced l || raced |}.
Definition set_link_state (s : link_state) (l : link) : link :=
  {| lk_id := lk_id l; lk_node := lk_node l; lk_state := s; lk_pending := lk_pending l; lk_raced := lk_raced l |}.

(** A thread of the application is incrementing the counter of the connection [i]. *)
Definition is_counting (i : nat) (c : app_call) : bool :=
  match c with CallRequest stg_count c _ _ => bool_decide (ci_conn c = Some i) | _ => false end.
Definition counting (n : Network) (i : nat) : bool := existsb (is_counting i) (calls n).
Definition write_pending (f : link -> Z) (c : connection_info) (n : Network) : Network :=
  match ci_conn c with
  | Some i => n <| links ::= alter (fun l => set_pending (counting n i) (f l) l) i |>
  | None => n
  end.
(** On the loop. *)
Definition add_pending_request (c : connection_info) (n : Network) : Network := write_pending (fun l => lk_pending l + 1) c n.
Definition remove_pending_request (c : connection_info) (n : Network) : Network := write_pending (fun l => lk_pending l - 1) c n.
(** The end of the increment on the thread of a caller: [v] if there was a race. *)
Definition end_add_pending_request (v : Z) (c : connection_info) (n : Network) : Network :=
  write_pending (fun l => if lk_raced l then v else lk_pending l + 1) c n.

(** ** Dropping paths *)

Definition clear_empty_pending_path_drops (n : Network) : Network :=
  let remaining := filter (fun p => has_pending_requests n (op_conn_info p.1) = true) (paths_pending_drop n) in
  let n := n <| paths_pending_drop := remaining |> in
  if bool_decide (remaining = []) && bool_decide (p_standard (paths n) = []) then update_status st_disconnected n else n.

Definition drop_path_when_empty (path_type : PathType) (path : onion_path) (n : Network) : Network :=
  let n := n <| paths_pending_drop ::= (fun l => l ++ [(path, path_type)]) |> in
  let n := n <| paths ::= pset path_type (filter (fun p => same_path p path = false) (pget path_type (paths n))) |> in
  clear_empty_pending_path_drops n.

(** ** Nodes that are not in use *)

Definition cache_min_size (n : Network) : Z := min_snode_cache_size (seed_node_cache_size n).
Definition all_path_ips (n : Network) : list Z := p ← pall (paths n); sn_ip <$> op_nodes p.
Definition excluded_ips (n : Network) : list Z :=
  all_path_ips n
  ++ ((fun c => sn_ip (ci_node c)) <$> unused_connections n)
  ++ (sn_ip <$> (in_progress_connections n).*2)
  ++ omap (fun r => sn_ip <$> node_for_destination (ri_destination r.1)) (pall (request_queue n))
  ++ omap (fun kv => if snode_failure_threshold <=? kv.2 then Some (kv.1).1 else None)
       (map_to_list (snode_failure_counts n)).

Section Handlers.
Context `{Quic} `{Rng} `{Oxenc} `{TextEncodings} `{X25519} `{Aead} `{AesGcm} `{Json} `{JsonNumbers} `{Texts}.

(** [get_unused_nodes()]: the nodes, and the state after the draw for [std::shuffle]. *)
Definition get_unused_nodes (n : Network) : list service_node * Network :=
  if size_of (snode_cache n) <? cache_min_size n then ([], n)
  else (shuffle (draws n) (filter (fun s => sn_ip s ∉ excluded_ips n) (snode_cache n)), next_draw n).
Definition refill_unused_nodes (n : Network) : Network :=
  let '(l, n) := get_unused_nodes n in n <| unused_nodes := l |>.

(** A fresh identifier. *)
Definition random_id (prefix : bytes) (n : Network) : bytes * Network :=
  (prefix ++ random_base32 (csrng (draws n)) 4, next_draw n).

(** ** The end of a refresh *)

Definition resume_path_build (n : Network) (t : PathType) : Network :=
  let '(path_id, n) := random_id (bs "P-") n in
  call_soon (TBuildPath path_id t) (n <| in_progress_path_builds ::= minsert path_id t |>).

Definition refresh_snode_cache_complete (nodes : list service_node) (n : Network) : Network :=
  let nodes := shuffle (draws n) nodes in
  let n := next_draw n in
  let n := n <| snode_cache := nodes |> <| last_snode_cache_update := clock n |> <| need_write := true |> in
  let n := update_disk_cache_throttled false n in
  let n := n <| current_snode_cache_refresh_request_id := None |>
             <| snode_cache_refresh_failure_count := 0 |> <| in_progress_snode_cache_refresh_count := 0 |>
             <| unused_snode_refresh_nodes := None |> <| snode_refresh_results := None |>
             <| snode_failure_counts := ∅ |> <| swarm_cache := [] |> <| all_swarms := generate_swarms nodes |> in
  let n := foldl (fun n a => call_soon (TAfterRefresh a) n) n (after_snode_cache_refresh n) in
  let n := n <| after_snode_cache_refresh := [] |> in
  let n := foldl resume_path_build n (path_build_queue n) in
  n <| path_build_queue := [] |>.

(** The handler of the requests of [refresh_snode_cache]. *)
Definition refresh_failed (request_id : bytes) (n : Network) : Network :=
  let n := n <| snode_cache_refresh_failure_count ::= Z.succ |> in
  retry_later (snode_cache_refresh_failure_count n) (TRefresh (Some request_id)) n.

Definition refresh_response (request_id : bytes) (success timeout : bool) (response : option bytes) (n : Network) : Network :=
  match snode_refresh_results n with
  | None => n
  | Some results =>
      match response with
      | Some r =>
          if negb success || timeout then refresh_failed request_id n
          else
            match (j ← json_parse r; json_service_nodes j) with
            | Throw UB => break_loop n
            | Throw _ => refresh_failed request_id n
            | Ok result =>
                let results := results ++ [result] in
                let n := n <| snode_refresh_results := Some results |>
                           <| in_progress_snode_cache_refresh_count ::= Z.pred |> in
                if negb (size_of results =? num_snodes_to_refresh_cache_from) then n
                else if existsb (fun l => bool_decide (l = [])) results then
                  n <| current_snode_cache_refresh_request_id := None |>
                    <| snode_cache_refresh_failure_count := 0 |>
                    <| in_progress_snode_cache_refresh_count := 0 |> <| snode_refresh_results := None |>
                else refresh_snode_cache_complete (combine_results results) n
            end
      | None => refresh_failed request_id n
      end
  end.

(** ** Errors *)

(** The texts of errors that come without a status: (prefix, (status, it is a timeout)). *)
Definition response_map : list (bytes * (Z * bool)) :=
  [(bs "400 Bad Request", (400, false)); (bs "403 Forbidden", (403, false));
   (bs "500 Internal Server Error", (500, false)); (bs "502 Bad Gateway", (502, false));
   (bs "503 Service Unavailable", (503, false)); (bs "504 Gateway Timeout", (504, true))].
Definition starts_with (s prefix : bytes) : bool := bool_decide (take (length prefix) s = prefix).
Definition status_from_text (status_code : Z) (timeout : bool) (response : option bytes) : Z * bool :=
  match response with
  | Some r =>
      if status_code =? -1 then
        foldl (fun '(code, timeout) '(prefix, (c, t)) =>
                 if starts_with r prefix then (c, timeout || t) else (code, timeout)) (status_code, timeout) response_map
      else (status_code, timeout)
  | None => (status_code, timeout)
  end.

(** The node that a node of the path could not find. *)
Definition node_not_found (response : option bytes) : option bytes :=
  match response with
  | Some r =>
      let pk := if starts_with r node_not_found_prefix then Some (drop (length node_not_found_prefix) r)
                else if starts_with r node_not_found_prefix_no_status
                then Some (drop (length node_not_found_prefix_no_status) r) else None in
      match pk with
      | Some pk => if (size_of (c_str pk) =? 64) && is_hex (c_str pk) then Some (from_hex (c_str pk)) else None
      | None => None
      end
  | None => None
  end.

Definition bump_failure_count (s : service_node) (n : Network) : Network :=
  n <| snode_failure_counts ::= (fun m => <[sn_address s := (value_or (m !! sn_address s) 0 + 1) mod 256]> m) |>.
Definition max_failure_count (s : service_node) (n : Network) : Network :=
  n <| snode_failure_counts ::= <[sn_address s := snode_failure_threshold]> |>.

Definition with_nodes (p : onion_path) (nodes : list service_node) : onion_path :=
  {| op_id := op_id p; op_conn_info := op_conn_info p; op_nodes := nodes; op_failure_count := op_failure_count p |}.
Definition with_failures (p : onion_path) (count : Z) : onion_path :=
  {| op_id := op_id p; op_conn_info := op_conn_info p; op_nodes := op_nodes p; op_failure_count := count |}.

(** A node of the path is reported as gone: replace it, unless it is the guard or there is no other.
    The path, whether the node is in it, and the state. *)
Definition repair_path (path : onion_path) (not_found : option bytes) (n : Network) : onion_path * bool * Network :=
  match not_found with
  | None => (path, false, n)
  | Some edpk =>
      match list_find (fun s => sn_key s = edpk) (op_nodes path) with
      | None => (path, false, n)
      | Some (i, s) =>
          let n := max_failure_count s n in
          match i, last (unused_nodes n) with
          | S _, Some target =>
              (with_nodes path (<[i := target]> (op_nodes path)), true,
               n <| unused_nodes ::= (fun l => take (length l - 1) l) |>)
          | _, _ => (with_failures path path_failure_threshold, true, n)
          end
      end
  end.

(** The path failed: count it, and if that is too often give up its guard. *)
Definition count_failure (path : onion_path) (n : Network) : onion_path * Network :=
  let path := with_failures path ((op_failure_count path + 1) mod 256) in
  match op_nodes path with
  | [] => (path, break_loop n)
  | guard :: _ =>
      if path_failure_threshold <=? op_failure_count path then
        (path, max_failure_count guard (foldl (fun n s => bump_failure_count s n) n (op_nodes path)))
      else if (length (op_nodes path) <? path_size)%nat then (path, bump_failure_count guard n)
      else (path, n)
  end.

(** The failure counts and the path after a failure. *)
Definition update_failed_path (path : onion_path) (response : option bytes) (n : Network) : onion_path * Network :=
  let '(updated, found_invalid_node, n) := repair_path path (node_not_found response) n in
  if negb found_invalid_node || negb (conn_valid n (op_conn_info updated)) then count_failure updated n
  else (updated, n).

(** [std::replace(begin, end, *path_it, updated)]: the value that is replaced is a reference into
    the list, so that from [path_it] on the paths equal to [updated] are replaced. *)
Definition replace_path (i : nat) (updated : onion_path) (l : list onion_path) : list onion_path :=
  take i l ++ updated :: ((fun p => if same_path p updated then updated else p) <$> drop (S i) l).

Definition has_guard (guard : service_node) (p : onion_path) : bool := bool_decide (head (op_nodes p) = Some guard).

(** The last part of [handle_errors]: failure counts, the path, and the answer [k]. *)
Definition fail_path (k : Network -> Network) (info : request_info) (conn_info : connection_info)
    (response : option bytes) (n : Network) : Network :=
  let active := list_find (fun p => has_guard (ci_node conn_info) p = true) (pget (ri_path_type info) (paths n)) in
  let pending := list_find (fun p => has_guard (ci_node conn_info) p.1 = true) (paths_pending_drop n) in
  match match active with Some (_, p) => Some p | None => (fun x => x.2.1) <$> pending end with
  | None => k n
  | Some path =>
      let '(updated, n) := update_failed_path path response n in
      k (match active with
         | Some (i, p) =>
             if path_failure_threshold <=? op_failure_count updated
             then drop_path_when_empty (ri_path_type info) p n
             else n <| paths ::= pset (ri_path_type info) (replace_path i updated (pget (ri_path_type info) (paths n))) |>
         | None => n
         end)
  end.

(** [swarm_cache[key]] makes an empty entry if there is none. *)
Definition cached_swarm (swarm_pubkey : bytes) (n : Network) : (Z * list service_node) * Network :=
  let key := to_hex swarm_pubkey in
  match mfind key (swarm_cache n) with
  | Some s => (s, n)
  | None => ((0, []), n <| swarm_cache ::= minsert key (0, []) |>)
  end.

(** The node is not in the swarm of the account (421): another node of the swarm is tried, then the
    swarm is looked up again after a refresh.  On the right, there is no more to try. *)
Definition redirect (info : request_info) (status_code : Z) (headers : headers_t) (response : option bytes)
    (cb : callback) (n : Network) : Network + Network :=
  match node_for_destination (ri_destination info), ri_swarm_pubkey info with
  | Some target, Some swarm_pubkey =>
      match value_or (ri_retry_reason info) rr_none with
      | rr_none | rr_decryption_failure =>
          let '(cached, n) := cached_swarm swarm_pubkey n in
          if bool_decide (cached.2 = []) then inr n
          else
            let swarm_copy := shuffle (draws n) (filter (fun s => s <> target) cached.2) in
            let n := next_draw n in
            match swarm_copy with
            | [] => inr n
            | s :: _ => inl (call_soon (TSend (retried info (NodeDestination s) rr_redirect) cb) n)
            end
      | rr_redirect =>
          let n := n <| after_snode_cache_refresh ::=
                         (fun l => l ++ [AfterGetSwarm swarm_pubkey (SwRedirect info status_code headers response cb)]) |> in
          inl (call_soon (TRefresh (Some (ri_request_id info))) n)
      | rr_redirect_swarm_refresh => inr n
      end
  | _, _ => inr n
  end.

(** [handle_errors]; [respond] calls the callback [cb]. *)
Definition handle_errors (respond : bool -> bool -> Z -> headers_t -> option bytes -> Network -> Network)
    (cb : callback) (info : request_info) (conn_info : connection_info) (timeout : bool) (status_code : Z)
    (headers : headers_t) (response : option bytes) (n : Network) : Network :=
  if bool_decide (ri_retry_reason info = None) && bool_decide (response = Some decryption_failed_error) then
    call_soon (TSend (retried info (ri_destination info) rr_decryption_failure) cb) n
  else
    let '(status_code, timeout) := status_from_text status_code timeout response in
    if negb (ri_node_destination info) && timeout then respond false true status_code headers response n
    else if existsb (Z.eqb status_code) [400; 404; 406; 425] then respond false false status_code headers response n
    else if ((status_code =? 500) || (status_code =? 504)) && negb (ri_node_destination info) then
      respond false timeout status_code headers response n
    else
      let fail := fail_path (respond false timeout status_code headers response) info conn_info response in
      if status_code =? 421 then
        match redirect info status_code headers response cb n with
        | inl n => n
        | inr n => fail n
        end
      else fail n.

(** Calling a callback. *)
Fixpoint respond (cb : callback) (success timeout : bool) (status_code : Z) (headers : headers_t)
    (response : option bytes) (n : Network) : Network :=
  match cb with
  | CbUser id => report (OutResponse id success timeout status_code headers response) n
  | CbRefresh request_id => refresh_response request_id success timeout response n
  | CbOnion b info path cb =>
      if negb success || timeout then respond cb success timeout status_code headers response n
      else
        match response with
        | None => break_loop n
        | Some r =>
            match process_onion_response b (bool_decide (is_Some (node_for_destination (ri_destination info)))) status_code r with
            | NOk (code, headers, body) => respond cb true false code headers body n
            | NThrow (StatusCodeException code headers msg) =>
                handle_errors (respond cb) cb info (op_conn_info path) false code headers (Some (c_str msg)) n
            | NThrow (StdException msg) =>
                handle_errors (respond cb) cb info (op_conn_info path) false (-1) [content_type_plain_text] (Some (c_str msg)) n
            | NThrow UndefinedBehaviour => break_loop n
            end
        end
  end.
End Handlers.
