(* ===== verification/NetworkRun.v ===== *)
(** * Running the network object

    The operations of [src/session_network.cpp] that start work: sending requests, establishing
    connections, refreshing the cache, building paths, looking up swarms; the events of the
    connections and the disk thread; and [step], one event of the loop, of the disk thread or of a
    thread of the application. *)
From S2P Require Import Prelude OMap Util Internal BtValue Bencode ThirdParty OnionRequest NetworkData NetworkResponse NetworkState.

Section Operations.
Context `{Quic} `{Rng} `{Oxenc} `{TextEncodings} `{X25519} `{Aead} `{AesGcm} `{Json} `{JsonNumbers} `{Texts}.

(** ** Sending *)

Definition plain : headers_t := [content_type_plain_text].

(** The time since a request was made, in milliseconds. *)
Definition elapsed (info : request_info) (n : Network) : Z := Z.quot (clock n - ri_creation_time info) NET_TICKS_PER_MS.

(** [send_request] in the parts that a caller's thread can be between: the checks, each with what it
    is refused with, and posting the command; and all of it at once, as on the loop. *)
Definition unreachable (cb : callback) (n : Network) : Network :=
  respond cb false false (-1) plain (Some (bs "Network is unreachable.")) n.
Definition no_time_left (info : request_info) (n : Network) : bool :=
  match ri_path_build_timeout info with Some t => t - elapsed info n <? 0 | None => false end.
Definition too_late (cb : callback) (n : Network) : Network :=
  respond cb false true error_path_build_timeout plain (Some (bs "Path Build Timed Out.")) n.
Definition post_command (conn_info : connection_info) (info : request_info) (cb : callback) (n : Network) : Network :=
  report (OutSent info cb) (n <| in_flight ::= (fun l => l ++ [CmOnion conn_info info cb]) |>).
Definition send_request (info : request_info) (conn_info : connection_info) (cb : callback) (n : Network) : Network :=
  if negb (conn_valid n conn_info) then unreachable cb n
  else if no_time_left info n then too_late cb n
  else post_command conn_info info cb (add_pending_request conn_info n).

(** The first of the paths with the fewest pending requests. *)
Fixpoint least_busy (n : Network) (p : onion_path) (l : list onion_path) : onion_path :=
  match l with
  | [] => p
  | q :: l => if num_pending_requests n (op_conn_info q) <? num_pending_requests n (op_conn_info p)
              then least_busy n q l else least_busy n p l
  end.

(** [find_valid_path(info, paths)]; sorting the paths only serves to find the least busy one. *)
Definition find_valid_path (info : request_info) (candidates : list onion_path) (n : Network) :
    option onion_path * Network :=
  let possible := filter (fun p => path_valid n p = true) candidates in
  let possible :=
    match node_for_destination (ri_destination info) with
    | Some target =>
        let excluded := filter (fun p => contains_node p target = false) possible in
        if single_path_mode n && bool_decide (excluded = []) then possible else excluded
    | None => possible
    end in
  match possible with
  | [] => (None, n)
  | _ =>
      let possible := shuffle (draws n) possible in
      let n := next_draw n in
      match possible with
      | [] => (None, n)
      | p :: l =>
          match path_selection_behaviour (ri_path_type info) with
          | sel_random => (Some p, n)
          | sel_new_or_least_busy =>
              let front := least_busy n p l in
              if (min_path_count (ri_path_type info) (single_path_mode n) <=? length candidates)%nat
                 || (num_pending_requests n (op_conn_info front) =? 0)
              then (Some front, n) else (None, n)
          end
      end
  end.

(** The parts of [_send_onion_request].  What [call_get] runs on the loop: *)
Definition request_path (info : request_info) (n : Network) : option onion_path * Network :=
  let '(path, n) := find_valid_path info (pget (ri_path_type info) (paths n)) n in
  (path, call_soon (TBuildPathIfNeeded (ri_path_type info) (bool_decide (is_Some path))) n).

(** What [call] runs on the loop if there is no path: *)
Definition queue_request (info : request_info) (cb : callback) (n : Network) : Network :=
  let n := n <| request_queue ::= pset (ri_path_type info) (pget (ri_path_type info) (request_queue n) ++ [(info, cb)]) |> in
  match ri_path_build_timeout info with
  | Some _ => add_task queued_request_path_build_timeout_frequency (TCheckTimeouts false) n
  | None => n
  end.
Definition enqueue (info : request_info) (cb : callback) (n : Network) : Network :=
  if suspended n then respond cb false false error_network_suspended plain (Some (bs "Network is suspended.")) n
  else queue_request info cb n.

(** Building the request for a path: [thrown] says where an exception of [Builder::make] goes, those of
    [generate] are caught.  The request to send with its callback, unless it failed. *)
Definition build_request (thrown : exn -> Network -> Network) (info : request_info) (path : onion_path) (cb : callback)
    (n : Network) : option (request_info * callback) * Network :=
  match make_builder (builder_destination (ri_destination info)) (sn_key <$> op_nodes path) xchacha20 with
  | Throw e => (None, thrown e n)
  | Ok b =>
      let rnd := random_hops (draws n) in
      let n := next_draw n in
      match generate b rnd (ri_original_body info) with
      | Throw UB => (None, break_loop n)
      | Throw e => (None, respond cb false false error_building_onion_request plain (Some (c_str (what e []))) n)
      | Ok (body, b) => let info := with_body info body in (Some (info, CbOnion b info path cb), n)
      end
  end.

(** [_send_onion_request(info, cb)] when the loop calls it: [call_get] and [call] run what they are given
    at once, and nothing catches an exception of [Builder::make]. *)
Definition _send_onion_request (info : request_info) (cb : callback) (n : Network) : Network :=
  let '(path, n) := request_path info n in
  match path with
  | None => enqueue info cb n
  | Some path =>
      match build_request (fun _ => break_loop) info path cb n with
      | (Some (info, cb), n) => send_request info (op_conn_info path) cb n
      | (None, n) => n
      end
  end.

(** ** The seed nodes, and connections *)

Definition seed_failed (request_id : bytes) (n : Network) : Network :=
  let n := n <| snode_cache_refresh_failure_count ::= Z.succ |> in
  retry_later (snode_cache_refresh_failure_count n) (TRefreshSeed request_id) n.
(** The callback of [get_service_nodes]. *)
Definition seed_nodes_result (request_id : bytes) (nodes : list service_node) (n : Network) : Network :=
  if bool_decide (nodes = []) then seed_failed request_id n
  else refresh_snode_cache_complete nodes (n <| seed_node_cache_size := Some (size_of nodes) |>).

Definition get_service_nodes (request_id : bytes) (conn_info : connection_info) (n : Network) : Network :=
  if negb (conn_valid n conn_info) then seed_nodes_result request_id [] n
  else (add_pending_request conn_info n) <| in_flight ::= (fun l => l ++ [CmServiceNodes conn_info request_id]) |>.

(** The callback of [establish_connection] in [establish_and_store_connection]. *)
Definition store_connection (path_id : bytes) (info : connection_info) (n : Network) : Network :=
  if negb (conn_valid n info) then
    let n := n <| connection_failures ::= Z.succ |> in
    retry_later (connection_failures n) (TEstablish path_id) n
  else
    let n := n <| unused_connections ::= (fun l => l ++ [info]) |> in
    let n := match path_build_queue n with
             | t :: rest =>
                 (call_soon (TBuildPath path_id t) (n <| in_progress_path_builds ::= minsert path_id t |>))
                   <| path_build_queue := rest |>
             | [] => n
             end in
    if negb (bool_decide (path_build_queue n = [])) && bool_decide (in_progress_connections n = []) then
      foldl (fun n _ => call_soon TEstablishNew n) n (path_build_queue n)
    else n.

Definition connection_ready (cb : conn_callback) (info : connection_info) (n : Network) : Network :=
  match cb with
  | CcStore path_id => store_connection path_id info n
  | CcSeed request_id =>
      if negb (conn_valid n info) then seed_failed request_id n else get_service_nodes request_id info n
  end.

Definition establish_connection (id : bytes) (target : service_node) (cb : conn_callback) (n : Network) : Network :=
  if suspended n then connection_ready cb {| ci_node := target; ci_conn := None |} n
  else n <| links ::= (fun l => l ++ [{| lk_id := id; lk_node := target; lk_state := Opening cb; lk_pending := 0; lk_raced := false |}]) |>.

(** [unused_nodes.back()] and [pop_back()] *)
Definition pop_unused (n : Network) : option service_node * Network :=
  (last (unused_nodes n), n <| unused_nodes ::= (fun l => take (length l - 1) l) |>).

Definition establish_and_store_connection (path_id : bytes) (n : Network) : Network :=
  if suspended n then n
  else
    let n := if bool_decide (status n = st_unknown) then update_status st_connecting n else n in
    let n := if bool_decide (unused_nodes n = []) then refill_unused_nodes n else n in
    if size_of (unused_nodes n) <? cache_min_size n then call_soon (TRefresh (Some path_id)) n
    else
      let cache_lifetime := Z.quot (clock n - last_snode_cache_update n) (1000 * NET_TICKS_PER_MS) in
      let n := if (cache_lifetime <? 0) || (snode_cache_expiration_duration <? cache_lifetime)
               then call_soon (TRefresh None) n else n in
      let n := if bool_decide (in_progress_connections n = []) then n <| connection_failures := 0 |> else n in
      match pop_unused n with
      | (None, n) => break_loop n
      | (Some target, n) =>
          establish_connection path_id target (CcStore path_id)
            (n <| in_progress_connections ::= memplace path_id target |>)
      end.

(** ** Refreshing the cache *)

Definition refresh_snode_cache_from_seed_nodes (request_id : bytes) (reset_unused_nodes : bool) (n : Network) : Network :=
  if suspended n then n
  else if match current_snode_cache_refresh_request_id n with
          | Some id => negb (bool_decide (id = request_id))
          | None => false
          end then n
  else
    let l := value_or (unused_snode_refresh_nodes n) [] in
    let '(l, n) := if reset_unused_nodes || bool_decide (l = [])
                   then (shuffle (draws n) (seed_nodes (use_testnet n)), next_draw n) else (l, n) in
    match last l with
    | None => break_loop n
    | Some target =>
        establish_connection request_id target (CcSeed request_id)
          (n <| unused_snode_refresh_nodes := Some (take (length l - 1) l) |>)
    end.

(** The JSON of the request for the node list. *)
Definition get_service_nodes_payload : json :=
  json_object [(bs "method", JStr (bs "oxend_request"));
    (bs "params", json_object [(bs "endpoint", JStr (bs "get_service_nodes"));
      (bs "params", json_object [(bs "active_only", JBool true);
        (bs "fields", json_object [(bs "public_ip", JBool true); (bs "pubkey_ed25519", JBool true);
           (bs "storage_lmq_port", JBool true); (bs "storage_server_version", JBool true);
           (bs "swarm_id", JBool true)])])])].

Definition refresh_snode_cache (existing_request_id : option bytes) (n : Network) : Network :=
  let '(random, n) := random_id (bs "RSC-") n in
  let request_id := value_or existing_request_id random in
  if suspended n then n
  else if match current_snode_cache_refresh_request_id n with
          | Some id => negb (bool_decide (id = request_id))
          | None => false
          end then n
  else
    let n := match current_snode_cache_refresh_request_id n with
             | Some _ => n
             | None => n <| snode_cache_refresh_failure_count := 0 |> <| in_progress_snode_cache_refresh_count := 0 |>
                         <| current_snode_cache_refresh_request_id := Some request_id |>
                         <| snode_refresh_results := Some [] |>
             end in
    let n := if size_of (unused_nodes n) <? cache_min_size n then refill_unused_nodes n else n in
    if size_of (unused_nodes n) <? cache_min_size n then refresh_snode_cache_from_seed_nodes request_id true n
    else
      match pop_unused n with
      | (None, n) => break_loop n
      | (Some target, n) =>
          let n := n <| in_progress_snode_cache_refresh_count ::= Z.succ |> in
          let n := if in_progress_snode_cache_refresh_count n <? num_snodes_to_refresh_cache_from
                   then call_soon (TRefresh (Some request_id)) n else n in
          match json_dump get_service_nodes_payload with
          | Throw _ => break_loop n
          | Ok payload =>
              _send_onion_request
                (make_request (clock n) request_id (NodeDestination target) (Some payload) None quic_default_timeout None pt_standard)
                (CbRefresh request_id) n
          end
      end.

(** ** Building paths *)

(** The loop that takes nodes from the end of the unused ones, leaving out those with an IP that is
    already in the path: the nodes so far, and [None] if the unused ones ran out. *)
Fixpoint pick_nodes (rev_unused path_nodes : list service_node) : option (list service_node) * list service_node :=
  if (path_size <=? length path_nodes)%nat then (Some path_nodes, rev_unused)
  else
    match rev_unused with
    | [] => (None, [])
    | s :: rest =>
        pick_nodes rest (if existsb (fun e => sn_ip e =? sn_ip s) path_nodes then path_nodes else path_nodes ++ [s])
    end.

(** The requests that can use the new path are sent, the others stay in the queue. *)
Definition resume_requests (path : onion_path) (queue : list (request_info * callback)) (n : Network) :
    list (request_info * callback) * Network :=
  foldl (fun '(kept, n) r =>
           match find_valid_path r.1 [path] n with
           | (Some _, n) => (kept, call_soon (TSend r.1 r.2) n)
           | (None, n) => (kept ++ [r], n)
           end) ([], n) queue.

Definition build_path (path_id : bytes) (path_type : PathType) (n : Network) : Network :=
  if suspended n then n
  else
    match unused_connections n with
    | [] =>
        call_soon (TEstablish path_id)
          (n <| path_build_queue ::= (fun q => q ++ [path_type]) |> <| in_progress_path_builds ::= merase path_id |>)
    | conn_info :: conns =>
        let n := if (length (unused_nodes n) <? path_size)%nat then refill_unused_nodes n else n in
        if (length (unused_nodes n) <? path_size)%nat then
          call_soon (TRefresh None)
            (n <| path_build_failures := 0 |> <| path_build_queue ::= (fun q => q ++ [path_type]) |>
               <| in_progress_path_builds ::= merase path_id |>)
        else
          let n := n <| in_progress_path_builds ::= minsert path_id path_type |> in
          match pick_nodes (rev (unused_nodes n)) [ci_node conn_info] with
          | (None, _) =>
              let n := n <| unused_nodes := [] |> <| path_build_failures ::= Z.succ |> in
              retry_later (path_build_failures n) (TBuildPath path_id path_type) n
          | (Some nodes, rest) =>
              let path := {| op_id := path_id; op_conn_info := conn_info; op_nodes := nodes; op_failure_count := 0 |} in
              let n := n <| unused_connections := conns |>
                         <| unused_nodes := filter (fun s => sn_ip s ∉ (sn_ip <$> nodes)) (rev rest) |>
                         <| paths ::= pset path_type (pget path_type (paths n) ++ [path]) |>
                         <| in_progress_path_builds ::= merase path_id |> in
              let n := match path_type with
                       | pt_standard => report (OutPaths (op_nodes <$> p_standard (paths n))) (update_status st_connected n)
                       | _ => n
                       end in
              let '(kept, n) := resume_requests path (pget path_type (request_queue n)) n in
              let n := n <| request_queue ::= pset path_type kept |> in
              if bool_decide (kept = []) then n else resume_path_build n path_type
          end
    end.

Definition count_type (t : PathType) (l : list PathType) : nat := length (filter (fun x => x = t) l).

Definition build_path_if_needed (path_type : PathType) (found_path : bool) (n : Network) : Network :=
  let current := length (pget path_type (paths n)) in
  let min_paths := min_path_count path_type (single_path_mode n) in
  if (0 <? current)%nat && single_path_mode n then n
  else if found_path && (min_paths <=? current)%nat then n
  else
    let pending := (count_type path_type (path_build_queue n) + count_type path_type (in_progress_path_builds n).*2)%nat in
    if (current + pending <? min_paths)%nat || (negb found_path && (pending =? 0)%nat) then
      let '(path_id, n) := random_id (bs "P-") n in build_path path_id path_type n
    else n.

(** ** Swarms and random nodes *)

Definition swarm_ready (cb : swarm_callback) (swarm_id : Z) (swarm : list service_node) (n : Network) : Network :=
  match cb with
  | SwUser id => report (OutSwarm id swarm_id swarm) n
  | SwRedirect info status_code headers response cb =>
      match node_for_destination (ri_destination info) with
      | None => break_loop n
      | Some target =>
          let swarm_copy := shuffle (draws n) (filter (fun s => s <> target) swarm) in
          let n := next_draw n in
          match swarm_copy with
          | [] => respond cb false false status_code headers response n
          | s :: _ => call_soon (TSend (retried info (NodeDestination s) rr_redirect_swarm_refresh) cb) n
          end
      end
  end.

Definition get_swarm (swarm_pubkey : bytes) (cb : swarm_callback) (n : Network) : Network :=
  let '(cached, n) := cached_swarm swarm_pubkey n in
  if negb (bool_decide (cached.2 = [])) then swarm_ready cb cached.1 cached.2 n
  else if bool_decide (snode_cache n = []) || bool_decide (all_swarms n = []) then
    call_soon (TRefresh None)
      (n <| after_snode_cache_refresh ::= (fun l => l ++ [AfterGetSwarm swarm_pubkey cb]) |>)
  else
    match all_swarms n with
    | [s] => swarm_ready cb s.1 s.2 n
    | _ =>
        match pick_swarm (all_swarms n) (pubkey_to_swarm_space swarm_pubkey) with
        | None => break_loop n
        | Some s => swarm_ready cb s.1 s.2 (n <| swarm_cache ::= minsert (to_hex swarm_pubkey) s |>)
        end
    end.

Definition get_random_nodes (count : Z) (id : nat) (n : Network) : Network :=
  let n := if size_of (unused_nodes n) <? count then refill_unused_nodes n else n in
  if size_of (unused_nodes n) <? count then
    call_soon (TRefresh None) (n <| after_snode_cache_refresh ::= (fun l => l ++ [AfterGetRandomNodes count id]) |>)
  else
    report (OutNodes id (take (Z.to_nat count) (unused_nodes n)))
      (n <| unused_nodes ::= drop (Z.to_nat count) |>).

(** ** Timeouts of queued requests *)

(** The request has waited for a path too long. *)
Definition timed_out (n : Network) (info : request_info) : bool :=
  match ri_path_build_timeout info with Some t => t <? elapsed info n | None => false end.
(** The callbacks of the requests that have. *)
Definition expire_requests (l : list (request_info * callback)) (n : Network) : Network :=
  foldl (fun n r => respond r.2 false true error_path_build_timeout plain
                      (Some (bs "Timed out waiting for path build.")) n) n
    (filter (fun r => timed_out n r.1 = true) l).

Definition check_request_queue_timeouts (request_timeout_id_ : option bytes) (n : Network) : Network :=
  if suspended n then n
  else if negb (bool_decide (request_timeout_id n = request_timeout_id_)) then n
  else
    let n := match request_timeout_id n with
             | Some _ => n
             | None => let '(id, n) := random_id (bs "RT-") n in n <| request_timeout_id := Some id |>
             end in
    let q := request_queue n in
    let kept (l : list (request_info * callback)) := filter (fun r => timed_out n r.1 = false) l in
    let remaining := existsb (fun r => bool_decide (is_Some (ri_path_build_timeout r.1))) (kept (pall q)) in
    let n := n <| request_queue := {| p_standard := kept (p_standard q); p_upload := kept (p_upload q);
                                      p_download := kept (p_download q) |} |> in
    let n := expire_requests (pall q) n in
    if remaining then add_task queued_request_path_build_timeout_frequency (TCheckTimeouts true) n
    else n <| request_timeout_id := None |>.

(** ** The interface

    The functions below are called on a thread of the application: [send_onion_request] begins the call of
    [_send_onion_request], and [resume_call] runs the next part of it. *)

Definition add_call (c : app_call) (n : Network) : Network := n <| calls ::= (fun l => l ++ [c]) |>.

Definition send_onion_request (caught : bool) (dest : destination) (body swarm_pubkey : option bytes) (request_timeout : Z)
    (path_build_timeout : option Z) (type : PathType) (id : nat) (n : Network) : Network :=
  let '(request_id, n) := random_id (bs "R-") n in
  add_call (CallFind caught
    (make_request (clock n) request_id dest body swarm_pubkey request_timeout path_build_timeout type) id) n.

(** An exception of [Builder::make] on the thread of the application: the functions of the C interface
    catch it and call the callback with the text, otherwise the caller gets it. *)
Definition call_throws (caught : bool) (id : nat) (e : exn) (n : Network) : Network :=
  if is_std_exception e then
    report (if caught then OutResponse id false false (-1) [] (Some (what e [])) else OutThrown id e) n
  else break_loop n.

(** [v] is the value of the counter after an increment that another thread has interfered with. *)
Definition resume_call (v : Z) (c : app_call) (n : Network) : Network :=
  match c with
  | CallFind caught info id =>
      match request_path info n with
      | (Some path, n) => add_call (CallBuild caught info path id) n
      | (None, n) => call_soon (TEnqueue info (CbUser id)) n
      end
  | CallBuild caught info path id =>
      match build_request (call_throws caught id) info path (CbUser id) n with
      | (Some (info, cb), n) => add_call (CallRequest stg_connection (op_conn_info path) info cb) n
      | (None, n) => n
      end
  | CallRequest stg_connection conn_info info cb =>
      if conn_valid n conn_info then add_call (CallRequest stg_timeout conn_info info cb) n else unreachable cb n
  | CallRequest stg_timeout conn_info info cb =>
      if no_time_left info n then too_late cb n else add_call (CallRequest stg_count conn_info info cb) n
  | CallRequest stg_count conn_info info cb =>
      add_call (CallRequest stg_post conn_info info cb) (end_add_pending_request v conn_info n)
  | CallRequest stg_post conn_info info cb => post_command conn_info info cb n
  end.

(** [upload_file_to_server]: the headers a file needs, unless they are given. *)
Definition upload_headers (file_name : option bytes) (given : headers_t) : headers_t :=
  let has key := existsb (fun kv => bool_decide (kv.1 = key)) given in
  given
  ++ (if has (bs "Content-Disposition") then []
      else [(bs "Content-Disposition",
             match file_name with
             | Some f => bs "attachment; filename=" ++ [byte_of 34] ++ f ++ [byte_of 34]
             | None => bs "attachment"
             end)])
  ++ (if has (bs "Content-Type") then [] else [(bs "Content-Type", bs "application/octet-stream")]).
Definition upload_file_to_server (caught : bool) (data : bytes) (server : ServerDestination) (file_name : option bytes)
    (request_timeout : Z) (path_build_timeout : option Z) (id : nat) (n : Network) : Network :=
  send_onion_request caught
    (ServerDest {| sd_protocol := sd_protocol server; sd_host := sd_host server; sd_endpoint := sd_endpoint server;
                   sd_x25519_pubkey := sd_x25519_pubkey server; sd_port := sd_port server;
                   sd_headers := Some (upload_headers file_name (value_or (sd_headers server) []));
                   sd_method := sd_method server |})
    (Some data) None request_timeout path_build_timeout pt_upload id n.

Definition download_file (caught : bool) (server : ServerDestination) (request_timeout : Z) (path_build_timeout : option Z)
    (id : nat) (n : Network) : Network :=
  send_onion_request caught (ServerDest server) None None request_timeout path_build_timeout pt_download id n.
Definition download_file_url (download_url x25519_pubkey : bytes) (request_timeout : Z) (path_build_timeout : option Z)
    (id : nat) (n : Network) : res Network :=
  let! (proto, host, port, path) := parse_url download_url in
  match path with
  | None => Throw InvalidArgument
  | Some path =>
      Ok (download_file false {| sd_protocol := proto; sd_host := host; sd_endpoint := path;
                           sd_x25519_pubkey := x25519_pubkey; sd_port := port; sd_headers := None;
                           sd_method := bs "GET" |} request_timeout path_build_timeout id n)
  end.

(** [_close_connections()]: closing the endpoint closes the streams of all connections. *)
Definition close_link (l : link) : link := match lk_state l with Open => set_link_state Closed l | _ => l end.
Definition _close_connections (n : Network) : Network :=
  let n := n <| links ::= fmap close_link |> in
  let q := pall (request_queue n) in
  let n := foldl (fun n r => respond r.2 false false error_network_suspended plain
                               (Some (bs "Network is suspended.")) n) (n <| request_queue := pempty |>) q in
  update_status st_disconnected
    (n <| paths := pempty |> <| path_build_queue := [] |> <| paths_pending_drop := [] |>
       <| unused_connections := [] |> <| in_progress_connections := [] |> <| snode_refresh_results := None |>
       <| current_snode_cache_refresh_request_id := None |>).

Definition suspend (n : Network) : Network := _close_connections (n <| suspended := true |>).
Definition resume (n : Network) : Network := n <| suspended := false |>.
Definition clear_cache (n : Network) : Network := update_disk_cache_throttled true (n <| need_clear_cache := true |>).

(** ** The disk thread *)

(** The thread copies the cache and writes it without the lock; [need_write] is cleared after that. *)
Definition disk_begin (n : Network) : Network :=
  if need_write n && bool_decide (writing_ n = None) then n <| writing_ := Some (snode_cache n) |> else n.
Definition disk_end (ok : bool) (n : Network) : Network :=
  match writing_ n with
  | None => n
  | Some cache =>
      let n := n <| writing_ := None |> in
      if ok then
        n <| disk := {| dk_testnet := use_testnet n || dk_testnet (disk n); dk_pool := Some (clock n, pool_text cache) |} |>
          <| need_write := false |>
      else n
  end.
Definition disk_clear (n : Network) : Network :=
  if need_clear_cache n && bool_decide (writing_ n = None) then
    n <| snode_cache := [] |> <| disk := {| dk_testnet := false; dk_pool := None |} |> <| need_clear_cache := false |>
  else n.

(** The destructor: the connections are closed as for [suspend], and the disk thread goes through
    its loop once more before it ends ([ok]: whether writing works). *)
Definition destroy (ok : bool) (n : Network) : Network := disk_clear (disk_end ok (disk_begin (suspend n))).

(** [load_cache_from_disk()], when reading and removing files does not fail. *)
Definition load_cache_from_disk (n : Network) : Network :=
  let d := disk n in
  let d := if negb (Bool.eqb (use_testnet n) (dk_testnet d)) && dk_testnet d
           then {| dk_testnet := false; dk_pool := None |} else d in
  let d := if use_testnet n then {| dk_testnet := true; dk_pool := dk_pool d |} else d in
  let n := n <| disk := d |> in
  match dk_pool d with
  | Some (time, text) =>
      n <| last_snode_cache_update := time |> <| snode_cache := load_pool text |>
        <| all_swarms := generate_swarms (load_pool text) |>
  | None => n
  end.

(** The constructor.  [status] is not initialised: [st] is whatever it happens to be. *)
Definition blank_network (st : ConnectionStatus) (use_testnet single_path_mode : bool) (d : disk_dir) : Network :=
  {| NetworkState.use_testnet := use_testnet; NetworkState.single_path_mode := single_path_mode;
     need_write := false; need_clear_cache := false; has_pending_disk_write := false; writing_ := None; disk := d;
     seed_node_cache_size := None; snode_cache := []; last_snode_cache_update := 0;
     suspended := false; status := st; paths := pempty; paths_pending_drop := []; unused_nodes := [];
     snode_failure_counts := ∅; all_swarms := []; swarm_cache := [];
     snode_cache_refresh_failure_count := 0; in_progress_snode_cache_refresh_count := 0;
     current_snode_cache_refresh_request_id := None; after_snode_cache_refresh := [];
     unused_snode_refresh_nodes := None; snode_refresh_results := None;
     connection_failures := 0; unused_connections := []; in_progress_connections := [];
     path_build_failures := 0; path_build_queue := []; in_progress_path_builds := [];
     request_timeout_id := None; request_queue := pempty;
     links := []; calls := []; in_flight := []; tasks := []; outputs := []; clock := 0; draws := 0; broken := false |}.
Definition new_network (st : ConnectionStatus) (cache : option disk_dir) (use_testnet single_path_mode pre_build_paths : bool) : Network :=
  let n := match cache with
           | Some d => load_cache_from_disk (blank_network st use_testnet single_path_mode d)
           | None => blank_network st use_testnet single_path_mode {| dk_testnet := false; dk_pool := None |}
           end in
  if pre_build_paths
  then Nat.iter (min_path_count pt_standard single_path_mode) (fun n => resume_path_build n pt_standard) n
  else n.

(** ** Events *)

(** A connection is established. *)
Definition connected (c : nat) (n : Network) : Network :=
  match links n !! c with
  | Some l => match lk_state l with
              | Opening cb =>
                  connection_ready cb {| ci_node := lk_node l; ci_conn := Some c |}
                    (n <| links ::= alter (set_link_state Open) c |>)
              | _ => n
              end
  | None => n
  end.

(** A connection is closed, or could not be established. *)
Definition uses_link (c : nat) (target : service_node) (p : onion_path) : bool :=
  has_guard target p && bool_decide (ci_conn (op_conn_info p) = Some c).
Definition drop_paths_of (c : nat) (target : service_node) (n : Network) (t : PathType) : Network :=
  match list_find (fun p => uses_link c target p = true) (pget t (paths n)) with
  | Some (_, p) => drop_path_when_empty t p n
  | None => n
  end.
Definition connection_closed (c : nat) (handshake_timeout : bool) (n : Network) : Network :=
  match links n !! c with
  | None => n
  | Some l =>
      let target := lk_node l in
      let n := n <| links ::= alter (set_link_state Closed) c |> in
      let n := match lk_state l with
               | Opening cb => connection_ready cb {| ci_node := target; ci_conn := None |} n
               | _ => n
               end in
      let n := n <| unused_connections ::=
                     filter (fun u => ~ (ci_node u = target /\ ci_conn u = Some c)) |> in
      let n := foldl (drop_paths_of c target) n [pt_standard; pt_upload; pt_download] in
      let n := clear_empty_pending_path_drops n in
      if handshake_timeout then max_failure_count target n else n
  end.

(** A command gets its answer (or times out). *)
Definition after_answer (conn_info : connection_info) (n : Network) : Network :=
  if has_pending_requests n conn_info then n else clear_empty_pending_path_drops n.
Definition answer (cmd : command) (m : message) (n : Network) : Network :=
  match cmd with
  | CmOnion conn_info info cb =>
      let n := remove_pending_request conn_info n in
      match validate_response m with
      | NOk (status_code, body) => after_answer conn_info (respond cb true false status_code [] (Some body) n)
      | NThrow (StatusCodeException code headers msg) =>
          handle_errors (respond cb) cb info conn_info (ms_timed_out m) code headers (Some (c_str msg)) n
      | NThrow (StdException msg) =>
          handle_errors (respond cb) cb info conn_info (ms_timed_out m) (-1) plain (Some (c_str msg)) n
      | NThrow UndefinedBehaviour => break_loop n
      end
  | CmServiceNodes conn_info request_id =>
      let n := remove_pending_request conn_info n in
      match validate_bencoded m with
      | NOk (_, body) =>
          match bt_list_parse body with
          | None => seed_nodes_result request_id [] n
          | Some (l, _) =>
              match bt_service_nodes l with
              | Ok nodes => after_answer conn_info (seed_nodes_result request_id nodes n)
              | Throw OutOfFuel => break_loop n
              | Throw _ => seed_nodes_result request_id [] n
              end
          end
      | NThrow UndefinedBehaviour => break_loop n
      | NThrow _ => seed_nodes_result request_id [] n
      end
  end.

Definition run_task (t : task) (n : Network) : Network :=
  match t with
  | TBuildPath path_id t => build_path path_id t n
  | TEstablish path_id => establish_and_store_connection path_id n
  | TEstablishNew => let '(id, n) := random_id (bs "EC-") n in establish_and_store_connection id n
  | TRefresh request_id => refresh_snode_cache request_id n
  | TRefreshSeed request_id => refresh_snode_cache_from_seed_nodes request_id false n
  | TBuildPathIfNeeded t found_path => build_path_if_needed t found_path n
  | TSend info cb => _send_onion_request info cb n
  | TEnqueue info cb => enqueue info cb n
  | TCheckTimeouts same_loop => check_request_queue_timeouts (if same_loop then request_timeout_id n else None) n
  | TDiskWrite => n <| has_pending_disk_write := false |>
  | TAfterRefresh (AfterGetSwarm pk cb) => get_swarm pk cb n
  | TAfterRefresh (AfterGetRandomNodes count id) => get_random_nodes count id n
  end.

Inductive event :=
| EvTick (now : Z)
| EvTask (i : nat)
| EvConnected (c : nat)
| EvClosed (c : nat) (handshake_timeout : bool)
| EvAnswer (i : nat) (m : message)
| EvSend (caught : bool) (dest : destination) (body swarm_pubkey : option bytes) (request_timeout : Z)
    (path_build_timeout : option Z) (type : PathType) (id : nat)
| EvUpload (caught : bool) (data : bytes) (server : ServerDestination) (file_name : option bytes) (request_timeout : Z)
    (path_build_timeout : option Z) (id : nat)
| EvDownload (caught : bool) (server : ServerDestination) (request_timeout : Z) (path_build_timeout : option Z) (id : nat)
| EvCall (i : nat) (v : Z)
| EvGetSwarm (swarm_pubkey : bytes) (id : nat)
| EvGetRandomNodes (count : Z) (id : nat)
| EvSuspend | EvResume | EvCloseConnections | EvClearCache
| EvDiskBegin | EvDiskEnd (ok : bool) | EvDiskClear.

(** The element at [i], which is taken out of the list. *)
Definition take_out {A} (i : nat) (l : list A) : option (A * list A) :=
  match l !! i with Some a => Some (a, delete i l) | None => None end.

Definition step (e : event) (n : Network) : Network :=
  match e with
  | EvTick now => n <| clock := now |>
  | EvTask i => match take_out i (tasks n) with Some ((_, t), l) => run_task t (n <| tasks := l |>) | None => n end
  | EvConnected c => connected c n
  | EvClosed c handshake_timeout => connection_closed c handshake_timeout n
  | EvAnswer i m => match take_out i (in_flight n) with Some (c, l) => answer c m (n <| in_flight := l |>) | None => n end
  | EvSend caught dest body pk t pbt type id => send_onion_request caught dest body pk t pbt type id n
  | EvUpload caught data server name t pbt id => upload_file_to_server caught data server name t pbt id n
  | EvDownload caught server t pbt id => download_file caught server t pbt id n
  | EvCall i v => match take_out i (calls n) with Some (c, l) => resume_call v c (n <| calls := l |>) | None => n end
  | EvGetSwarm pk id => get_swarm pk (SwUser id) n
  | EvGetRandomNodes count id => get_random_nodes count id n
  | EvSuspend => suspend n
  | EvResume => resume n
  | EvCloseConnections => _close_connections n
  | EvClearCache => clear_cache n
  | EvDiskBegin => disk_begin n
  | EvDiskEnd ok => disk_end ok n
  | EvDiskClear => disk_clear n
  end.
Definition run (es : list event) (n : Network) : Network := foldl (fun n e => step e n) n es.

(** The states a network object can be in. *)
Inductive reachable (n0 : Network) : Network -> Prop :=
| reach_start : reachable n0 n0
| reach_step n e : reachable n0 n -> reachable n0 (step e n).
End Operations.
