(* ===== verification/NetworkFacts.v ===== *)
(** * What every handler of the network keeps

    Each handler of [NetworkState] and [NetworkRun] is related to the state it starts from by
    [trans]: the callbacks it is given are either called or handed on, the requests it sends again
    use up what is left of a budget, paths and connections stay well formed, and requests that can
    time out are watched; and it neither touches the calls of the application that have not
    returned nor throws an exception to a caller. *)
From S2P Require Import Prelude OMap Util Internal BtValue Bencode ThirdParty OnionRequest NetworkData NetworkResponse NetworkState NetworkRun.

(** ** Accounts *)

(** How often the callback [k] of the application is called when the callback is. *)
Fixpoint cb_owes (k : nat) (cb : callback) : nat :=
  match cb with
  | CbUser i => if decide (i = k) then 1 else 0
  | CbRefresh _ => 0
  | CbOnion _ _ _ cb => cb_owes k cb
  end.
Definition sw_owes (k : nat) (cb : swarm_callback) : nat :=
  match cb with
  | SwUser i => if decide (i = k) then 1 else 0
  | SwRedirect _ _ _ _ cb => cb_owes k cb
  end.
Definition after_owes (k : nat) (a : after_refresh) : nat :=
  match a with
  | AfterGetSwarm _ cb => sw_owes k cb
  | AfterGetRandomNodes _ i => if decide (i = k) then 1 else 0
  end.
Definition task_owes (k : nat) (t : task) : nat :=
  match t with TSend _ cb | TEnqueue _ cb => cb_owes k cb | TAfterRefresh a => after_owes k a | _ => 0 end.
Definition cmd_owes (k : nat) (c : command) : nat :=
  match c with CmOnion _ _ cb => cb_owes k cb | CmServiceNodes _ _ => 0 end.
Definition call_owes (k : nat) (c : app_call) : nat :=
  match c with
  | CallFind _ _ i | CallBuild _ _ _ i => if decide (i = k) then 1 else 0
  | CallRequest _ _ _ cb => cb_owes k cb
  end.
Definition out_called (k : nat) (o : output) : nat :=
  match o with
  | OutResponse i _ _ _ _ _ | OutSwarm i _ _ | OutNodes i _ => if decide (i = k) then 1 else 0
  | _ => 0
  end.
Definition out_thrown (k : nat) (o : output) : nat :=
  match o with OutThrown i _ => if decide (i = k) then 1 else 0 | _ => 0 end.
Definition out_owes (k : nat) (o : output) : nat := (out_called k o + out_thrown k o)%nat.

Definition sum {A} (f : A -> nat) (l : list A) : nat := sum_list_with f l.
Arguments sum : simpl never.
Arguments pall : simpl never.

(** How often the callback [k] has been called, how often an exception was thrown to the caller instead,
    and how often one of these is still to come. *)
Definition answered (k : nat) (n : Network) : nat := sum (out_called k) (outputs n).
Definition thrown (k : nat) (n : Network) : nat := sum (out_thrown k) (outputs n).
Definition settled (k : nat) (n : Network) : nat := sum (out_owes k) (outputs n).
Definition waiting (k : nat) (n : Network) : nat :=
  (sum (fun r => cb_owes k r.2) (pall (request_queue n)) + sum (after_owes k) (after_snode_cache_refresh n)
   + sum (fun t => task_owes k t.2) (tasks n) + sum (cmd_owes k) (in_flight n) + sum (call_owes k) (calls n))%nat.
Lemma settled_split k n : settled k n = (answered k n + thrown k n)%nat.
Proof. unfold settled, answered, thrown, sum, out_owes. induction (outputs n); cbn; lia. Qed.

(** ** Budgets *)

(** How often a request can be retried for one more reason. *)
Definition retry_rank (info : request_info) : nat :=
  match ri_retry_reason info with
  | None | Some rr_none => 3
  | Some rr_decryption_failure => 2
  | Some rr_redirect => 1
  | Some rr_redirect_swarm_refresh => 0
  end.
(** How many commands can follow when the callback is called, a request is sent, or a command for
    it gets an answer. *)
Fixpoint cb_budget (cb : callback) : nat :=
  match cb with
  | CbOnion _ info _ cb => (2 ^ retry_rank info - 1 + cb_budget cb)%nat
  | _ => 0
  end.
Definition send_budget (info : request_info) (cb : callback) : nat := (2 ^ S (retry_rank info) - 1 + cb_budget cb)%nat.
Definition answer_budget (info : request_info) (cb : callback) : nat := (2 ^ retry_rank info - 1 + cb_budget cb)%nat.
Arguments send_budget : simpl never.
Arguments answer_budget : simpl never.

Definition after_budget (k : nat) (a : after_refresh) : nat :=
  match a with AfterGetSwarm _ (SwRedirect _ _ _ _ cb) => (cb_owes k cb * (1 + cb_budget cb))%nat | _ => 0 end.
Definition task_budget (k : nat) (t : task) : nat :=
  match t with
  | TSend info cb | TEnqueue info cb => (cb_owes k cb * send_budget info cb)%nat
  | TAfterRefresh a => after_budget k a
  | _ => 0
  end.
Definition cmd_budget (k : nat) (c : command) : nat :=
  match c with CmOnion _ info cb => (cb_owes k cb * answer_budget info cb)%nat | CmServiceNodes _ _ => 0 end.
Definition call_budget (k : nat) (c : app_call) : nat :=
  match c with
  | CallFind _ info i | CallBuild _ info _ i => (cb_owes k (CbUser i) * send_budget info (CbUser i))%nat
  | CallRequest _ _ info cb => (cb_owes k cb * (1 + answer_budget info cb))%nat
  end.
Definition out_sent (k : nat) (o : output) : nat := match o with OutSent _ cb => cb_owes k cb | _ => 0 end.

(** The commands that were sent for the callback [k], and those that may still be. *)
Definition sent (k : nat) (n : Network) : nat := sum (out_sent k) (outputs n).
Definition budget (k : nat) (n : Network) : nat :=
  (sum (fun r => cb_owes k r.2 * send_budget r.1 r.2) (pall (request_queue n))
   + sum (after_budget k) (after_snode_cache_refresh n)
   + sum (fun t => task_budget k t.2) (tasks n) + sum (cmd_budget k) (in_flight n) + sum (call_budget k) (calls n))%nat.

(** ** Well-formed connections and paths *)

Definition conn_ok (ls : list link) (c : connection_info) : Prop :=
  exists i l, ci_conn c = Some i /\ ls !! i = Some l /\ lk_node l = ci_node c.
Record path_ok (ls : list link) (p : onion_path) : Prop := {
  path_length : length (op_nodes p) = path_size;
  path_guard : head (op_nodes p) = Some (ci_node (op_conn_info p));
  path_failures : 0 <= op_failure_count p < path_failure_threshold;
  path_conn : conn_ok ls (op_conn_info p)
}.
Definition cmd_conn (c : command) : connection_info :=
  match c with CmOnion c _ _ | CmServiceNodes c _ => c end.
(** The commands without an answer on the connection [i]. *)
Definition on_conn (i : nat) (c : command) : nat := if decide (ci_conn (cmd_conn c) = Some i) then 1 else 0.

(** The call is about to post a command on the connection [i], which is counted already. *)
Definition posting (i : nat) (c : app_call) : nat :=
  match c with CallRequest stg_post c _ _ => if decide (ci_conn c = Some i) then 1 else 0 | _ => 0 end.
Definition call_ok (ls : list link) (c : app_call) : Prop :=
  match c with
  | CallFind _ _ _ => True
  | CallBuild _ _ path _ => path_ok ls path
  | CallRequest _ conn_info _ _ => conn_ok ls conn_info
  end.

Record inv (n : Network) : Prop := {
  inv_paths : forall t p, p ∈ pget t (paths n) -> path_ok (links n) p;
  inv_drops : forall p t, (p, t) ∈ paths_pending_drop n -> path_ok (links n) p;
  inv_unused : Forall (conn_ok (links n)) (unused_connections n);
  inv_flight : Forall (fun c => conn_ok (links n) (cmd_conn c)) (in_flight n);
  inv_calls : Forall (call_ok (links n)) (calls n);
  inv_pending : forall i l, links n !! i = Some l -> lk_raced l = false ->
    lk_pending l = Z.of_nat (sum (on_conn i) (in_flight n) + sum (posting i) (calls n)) mod 2 ^ 64
}.

(** ** Watching timeouts *)

Definition is_check (t : task) : Prop := match t with TCheckTimeouts _ => True | _ => False end.
Definition can_time_out (r : request_info * callback) : Prop := is_Some (ri_path_build_timeout r.1).
Record watched (n : Network) : Prop := {
  watched_loop : is_Some (request_timeout_id n) -> Exists (fun t => t.2 = TCheckTimeouts true) (tasks n);
  watched_queue : Exists can_time_out (pall (request_queue n)) -> Exists (fun t => is_check t.2) (tasks n)
}.

(** ** The relation *)

(** The callback [k] is [d] times in the hands of the handler, and requests for it that may be sent
    [e] times. *)
Record acct (k d e : nat) (n n' : Network) : Prop := {
  ac_broken : broken n' = false -> broken n = false;
  ac_inv : inv n -> inv n';
  ac_le : (settled k n' + waiting k n' <= settled k n + waiting k n + d)%nat;
  ac_eq : broken n' = false -> (settled k n' + waiting k n' = settled k n + waiting k n + d)%nat;
  ac_budget : (sent k n' + budget k n' <= sent k n + budget k n + e)%nat
}.
(** The same for an event that neither suspends nor resumes the object. *)
Record moves (k d e : nat) (n n' : Network) : Prop := {
  mv_acct : acct k d e n n';
  mv_suspended : suspended n' = suspended n;
  mv_watched : suspended n = false -> watched n -> watched n'
}.
(** The same for a handler. *)
Record trans (k d e : nat) (n n' : Network) : Prop := {
  tr_moves : moves k d e n n';
  tr_calls : calls n' = calls n;
  tr_thrown : thrown k n' = thrown k n
}.

Lemma acct_refl k n : acct k 0 0 n n.
Proof. split; [done|done|lia|lia|lia]. Qed.
Lemma moves_refl k n : moves k 0 0 n n.
Proof. split; [apply acct_refl|done|done]. Qed.
Lemma trans_refl k n : trans k 0 0 n n.
Proof. split; [apply moves_refl|done|done]. Qed.

Lemma acct_trans k d1 e1 d2 e2 n n1 n2 :
  acct k d1 e1 n n1 -> acct k d2 e2 n1 n2 -> acct k (d1 + d2) (e1 + e2) n n2.
Proof.
  intros A B. destruct A as [A1 A2 A3 A4 A5]; destruct B as [B1 B2 B3 B4 B5]. split; [auto|auto|lia| |lia].
  intros Hb. specialize (B4 Hb). specialize (A4 (B1 Hb)). lia.
Qed.
Lemma moves_trans k d1 e1 d2 e2 n n1 n2 :
  moves k d1 e1 n n1 -> moves k d2 e2 n1 n2 -> moves k (d1 + d2) (e1 + e2) n n2.
Proof.
  intros [A As Aw] [B Bs Bw]. split; [by eapply acct_trans|congruence|].
  intros Hs Hw. apply Bw; [congruence|auto].
Qed.
Lemma trans_trans k d1 e1 d2 e2 n n1 n2 :
  trans k d1 e1 n n1 -> trans k d2 e2 n1 n2 -> trans k (d1 + d2) (e1 + e2) n n2.
Proof. intros [A Ac At] [B Bc Bt]. split; [by eapply moves_trans|congruence|congruence]. Qed.
Lemma moves_weaken k d e e' n n' : (e <= e')%nat -> moves k d e n n' -> moves k d e' n n'.
Proof. intros He [[A1 A2 A3 A4 A5] As Aw]. split; [split; [done..|lia]|done|done]. Qed.
Lemma trans_weaken k d e e' n n' : (e <= e')%nat -> trans k d e n n' -> trans k d e' n n'.
Proof. intros He [A Ac At]. split; [by eapply moves_weaken|done|done]. Qed.

(** A sequence of two handlers, with the accounts given. *)
Lemma trans_seq k d1 e1 d2 e2 d e n n1 n2 :
  d = (d1 + d2)%nat -> (e1 + e2 <= e)%nat -> trans k d1 e1 n n1 -> trans k d2 e2 n1 n2 -> trans k d e n n2.
Proof. intros -> He A B. eapply trans_weaken, trans_trans; eassumption. Qed.

(** *** Updates that none of the accounts sees *)

Record same_core (n n' : Network) : Prop := {
  sc_links : links n' = links n;
  sc_calls : calls n' = calls n;
  sc_flight : in_flight n' = in_flight n;
  sc_tasks : tasks n' = tasks n;
  sc_outputs : outputs n' = outputs n;
  sc_queue : request_queue n' = request_queue n;
  sc_after : after_snode_cache_refresh n' = after_snode_cache_refresh n;
  sc_paths : paths n' = paths n;
  sc_drops : paths_pending_drop n' = paths_pending_drop n;
  sc_unused : unused_connections n' = unused_connections n;
  sc_timeout : request_timeout_id n' = request_timeout_id n;
  sc_suspended : suspended n' = suspended n;
  sc_broken : broken n' = broken n
}.

Lemma inv_same n n' :
  links n' = links n -> calls n' = calls n -> in_flight n' = in_flight n -> paths n' = paths n ->
  paths_pending_drop n' = paths_pending_drop n -> unused_connections n' = unused_connections n -> inv n -> inv n'.
Proof.
  intros Hl Hc Hf Hp Hd Hu [I1 I2 I3 I4 Ic I5]. split.
  - by rewrite Hp, Hl.
  - by rewrite Hd, Hl.
  - by rewrite Hu, Hl.
  - by rewrite Hf, Hl.
  - by rewrite Hc, Hl.
  - by rewrite Hl, Hf, Hc.
Qed.

Lemma trans_frame k n n' : same_core n n' -> trans k 0 0 n n'.
Proof.
  intros []. split; [split; [split| |]|done|unfold thrown; congruence].
  - congruence.
  - by apply inv_same.
  - unfold settled, waiting. rewrite sc_calls0, sc_flight0, sc_tasks0, sc_outputs0, sc_queue0, sc_after0. lia.
  - intros _. unfold settled, waiting. rewrite sc_calls0, sc_flight0, sc_tasks0, sc_outputs0, sc_queue0, sc_after0. lia.
  - unfold sent, budget. rewrite sc_calls0, sc_flight0, sc_tasks0, sc_outputs0, sc_queue0, sc_after0. lia.
  - done.
  - intros _ [W1 W2]. split; [by rewrite sc_timeout0, sc_tasks0|by rewrite sc_queue0, sc_tasks0].
Qed.
Ltac frame := apply trans_frame; split; reflexivity.
(** The fields that no account sees. *)
Class Quiet {T} (proj : Network -> T) `{!Setter proj} := quiet : forall f n, same_core n (field_set f n).
#[export] Instance quiet_use_testnet : Quiet use_testnet. Proof. by split. Qed.
#[export] Instance quiet_single_path_mode : Quiet single_path_mode. Proof. by split. Qed.
#[export] Instance quiet_need_write : Quiet need_write. Proof. by split. Qed.
#[export] Instance quiet_need_clear_cache : Quiet need_clear_cache. Proof. by split. Qed.
#[export] Instance quiet_has_pending_disk_write : Quiet has_pending_disk_write. Proof. by split. Qed.
#[export] Instance quiet_writing_ : Quiet writing_. Proof. by split. Qed.
#[export] Instance quiet_disk : Quiet disk. Proof. by split. Qed.
#[export] Instance quiet_seed_node_cache_size : Quiet seed_node_cache_size. Proof. by split. Qed.
#[export] Instance quiet_snode_cache : Quiet snode_cache. Proof. by split. Qed.
#[export] Instance quiet_last_snode_cache_update : Quiet last_snode_cache_update. Proof. by split. Qed.
#[export] Instance quiet_status : Quiet status. Proof. by split. Qed.
#[export] Instance quiet_unused_nodes : Quiet unused_nodes. Proof. by split. Qed.
#[export] Instance quiet_snode_failure_counts : Quiet snode_failure_counts. Proof. by split. Qed.
#[export] Instance quiet_all_swarms : Quiet all_swarms. Proof. by split. Qed.
#[export] Instance quiet_swarm_cache : Quiet swarm_cache. Proof. by split. Qed.
#[export] Instance quiet_snode_cache_refresh_failure_count : Quiet snode_cache_refresh_failure_count. Proof. by split. Qed.
#[export] Instance quiet_in_progress_snode_cache_refresh_count : Quiet in_progress_snode_cache_refresh_count. Proof. by split. Qed.
#[export] Instance quiet_current_snode_cache_refresh_request_id : Quiet current_snode_cache_refresh_request_id. Proof. by split. Qed.
#[export] Instance quiet_unused_snode_refresh_nodes : Quiet unused_snode_refresh_nodes. Proof. by split. Qed.
#[export] Instance quiet_snode_refresh_results : Quiet snode_refresh_results. Proof. by split. Qed.
#[export] Instance quiet_connection_failures : Quiet connection_failures. Proof. by split. Qed.
#[export] Instance quiet_in_progress_connections : Quiet in_progress_connections. Proof. by split. Qed.
#[export] Instance quiet_path_build_failures : Quiet path_build_failures. Proof. by split. Qed.
#[export] Instance quiet_path_build_queue : Quiet path_build_queue. Proof. by split. Qed.
#[export] Instance quiet_in_progress_path_builds : Quiet in_progress_path_builds. Proof. by split. Qed.
#[export] Instance quiet_clock : Quiet clock. Proof. by split. Qed.
#[export] Instance quiet_draws : Quiet draws. Proof. by split. Qed.

(** *** Scheduling, reporting, failing *)

Lemma sum_app {A} (f : A -> nat) l1 l2 : sum f (l1 ++ l2) = (sum f l1 + sum f l2)%nat.
Proof. apply sum_list_with_app. Qed.
Lemma sum_one {A} (f : A -> nat) a : sum f [a] = f a.
Proof. unfold sum. cbn. lia. Qed.

Lemma trans_task k delay t n : trans k (task_owes k t) (task_budget k t) n (add_task delay t n).
Proof.
  split; [split; [split| |]|done|done].
  - done.
  - by apply inv_same.
  - unfold settled, waiting. cbn. rewrite sum_app, sum_one. cbn. lia.
  - intros _. unfold settled, waiting. cbn. rewrite sum_app, sum_one. cbn. lia.
  - unfold sent, budget. cbn. rewrite sum_app, sum_one. cbn. lia.
  - done.
  - intros _ [W1 W2]. split; cbn; intros Hx; apply Exists_app; left; auto.
Qed.

Lemma moves_report k o n : moves k (out_owes k o) (out_sent k o) n (report o n).
Proof.
  split; [split| |].
  - done.
  - by apply inv_same.
  - unfold settled, waiting. cbn. rewrite sum_app, sum_one. lia.
  - intros _. unfold settled, waiting. cbn. rewrite sum_app, sum_one. lia.
  - unfold sent, budget. cbn. rewrite sum_app, sum_one. lia.
  - done.
  - intros _ [W1 W2]. by split.
Qed.
Lemma trans_report k o n : out_thrown k o = 0%nat -> trans k (out_called k o) (out_sent k o) n (report o n).
Proof.
  intros Ho. split; [|done|].
  - pose proof (moves_report k o n) as M. unfold out_owes in M. by rewrite Ho, Nat.add_0_r in M.
  - unfold thrown. cbn. rewrite sum_app, sum_one. lia.
Qed.

Lemma trans_break k d e n : trans k d e n (break_loop n).
Proof.
  split; [split; [split| |]|done|done].
  - discriminate.
  - by apply inv_same.
  - unfold settled, waiting. cbn. lia.
  - discriminate.
  - unfold sent, budget. cbn. lia.
  - done.
  - intros _ [W1 W2]. by split.
Qed.

Lemma trans_retry k failures t n : task_owes k t = 0%nat -> task_budget k t = 0%nat -> trans k 0 0 n (retry_later failures t n).
Proof.
  intros Ho Hb. unfold retry_later. destruct (retry_delay _ _); [|apply trans_break].
  rewrite <- Ho at 1. rewrite <- Hb. apply trans_task.
Qed.

Lemma trans_seq0 k d e n n1 n2 : trans k 0 0 n n1 -> trans k d e n1 n2 -> trans k d e n n2.
Proof. intros A B. exact (trans_trans _ 0 0 _ _ _ _ _ A B). Qed.
Lemma trans_then0 k d e n n1 n2 : trans k d e n n1 -> trans k 0 0 n1 n2 -> trans k d e n n2.
Proof. intros A B. by eapply trans_seq; [..|exact A|exact B]; lia. Qed.
(** The last thing a handler does is to schedule a call or to report. *)
Ltac leaf :=
  lazymatch goal with
  | |- trans ?k _ _ _ (report ?o ?n) => exact (trans_report k o n eq_refl)
  | |- trans ?k _ _ _ (add_task ?d ?t ?n) => exact (trans_task k d t n)
  | |- trans ?k _ _ _ (call_soon ?t ?n) => exact (trans_task k 0 t n)
  end.

(** *** Updates of paths and connections only *)

Record same_accounts (n n' : Network) : Prop := {
  sa_calls : calls n' = calls n;
  sa_flight : in_flight n' = in_flight n;
  sa_tasks : tasks n' = tasks n;
  sa_outputs : outputs n' = outputs n;
  sa_queue : request_queue n' = request_queue n;
  sa_after : after_snode_cache_refresh n' = after_snode_cache_refresh n;
  sa_timeout : request_timeout_id n' = request_timeout_id n;
  sa_suspended : suspended n' = suspended n;
  sa_broken : broken n' = broken n
}.
Lemma trans_accounts k n n' : same_accounts n n' -> (inv n -> inv n') -> trans k 0 0 n n'.
Proof.
  intros [] Hi. split; [split; [split| |]|done|unfold thrown; congruence].
  - congruence.
  - done.
  - unfold settled, waiting. rewrite sa_calls0, sa_flight0, sa_tasks0, sa_outputs0, sa_queue0, sa_after0. lia.
  - intros _. unfold settled, waiting. rewrite sa_calls0, sa_flight0, sa_tasks0, sa_outputs0, sa_queue0, sa_after0. lia.
  - unfold sent, budget. rewrite sa_calls0, sa_flight0, sa_tasks0, sa_outputs0, sa_queue0, sa_after0. lia.
  - done.
  - intros _ [W1 W2]. split; [by rewrite sa_timeout0, sa_tasks0|by rewrite sa_queue0, sa_tasks0].
Qed.

Lemma trans_status k s n : trans k 0 0 n (update_status s n).
Proof.
  unfold update_status. case_bool_decide; [apply trans_refl|]. destruct (_ && _); [apply trans_refl|].
  eapply trans_seq0; [|leaf]. frame.
Qed.

Lemma trans_clear_drops k n : trans k 0 0 n (clear_empty_pending_path_drops n).
Proof.
  unfold clear_empty_pending_path_drops. set (l := filter _ _).
  assert (T : trans k 0 0 n n <| paths_pending_drop := l |>).
  { apply trans_accounts; [split; reflexivity|]. intros [I1 I2 I3 I4 Ic I5]. split; [exact I1| |exact I3|exact I4|exact Ic|exact I5].
    intros p t [_ Hp]%list_elem_of_filter. by apply (I2 p t). }
  destruct (_ && _); [|exact T]. eapply trans_seq0; [exact T|apply trans_status].
Qed.

Lemma pget_pset {A} t t' (a : A) p : pget t (pset t' a p) = if decide (t = t') then a else pget t p.
Proof. by destruct t, t'. Qed.
Lemma trans_drop k t path n : (inv n -> path_ok (links n) path) -> trans k 0 0 n (drop_path_when_empty t path n).
Proof.
  intros Hp. unfold drop_path_when_empty.
  eapply trans_seq0; [|apply trans_clear_drops].
  apply trans_accounts; [split; reflexivity|]. intros I. specialize (Hp I). destruct I as [I1 I2 I3 I4 Ic I5].
  split; [| |exact I3|exact I4|exact Ic|exact I5].
  - intros t' p. cbn. rewrite pget_pset. case_decide; [subst|by apply I1].
    intros [_ Hin]%list_elem_of_filter. by apply (I1 t).
  - intros p t'. cbn. intros [Hin|Hin]%elem_of_app; [by apply (I2 p t')|].
    apply list_elem_of_singleton in Hin as [= -> ->]. exact Hp.
Qed.

Lemma trans_disk k force n : trans k 0 0 n (update_disk_cache_throttled force n).
Proof.
  unfold update_disk_cache_throttled. destruct force; [frame|]. destruct (has_pending_disk_write n); [apply trans_refl|].
  eapply trans_seq0; [|leaf]. frame.
Qed.

Lemma trans_foldl {A} k (fd fe : A -> nat) (f : Network -> A -> Network) l n :
  (forall n a, trans k (fd a) (fe a) n (f n a)) -> trans k (sum fd l) (sum fe l) n (foldl f n l).
Proof.
  intros Hf. revert n. induction l as [|a l IH]; intros n; cbn; [apply trans_refl|].
  unfold sum in *. cbn. eapply trans_trans; [apply Hf|apply IH].
Qed.
Lemma sum_zero {A} (l : list A) : sum (fun _ => 0%nat) l = 0%nat.
Proof. unfold sum. induction l; [done|exact IHl]. Qed.
Lemma trans_foldl0 {A} k (f : Network -> A -> Network) l n :
  (forall n a, trans k 0 0 n (f n a)) -> trans k 0 0 n (foldl f n l).
Proof.
  intros Hf. pose proof (trans_foldl k (fun _ => 0%nat) (fun _ => 0%nat) f l n Hf) as T. by rewrite !sum_zero in T.
Qed.

(** The calls that wait for the refresh are scheduled, and the list of them is cleared. *)
Lemma foldl_call_soon {A} (f : A -> task) l n :
  foldl (fun n a => call_soon (f a) n) n l = n <| tasks ::= (fun ts => ts ++ ((fun a => (0, f a)) <$> l)) |>.
Proof.
  revert n. induction l as [|a l IH]; intros n; cbn.
  - destruct n; cbn. unfold field_set, set_tasks. cbn. by rewrite app_nil_r.
  - rewrite IH. unfold field_set, set_tasks. cbn. f_equal. by rewrite <- app_assoc.
Qed.
Lemma sum_fmap {A B} (f : B -> nat) (g : A -> B) l : sum f (g <$> l) = sum (fun a => f (g a)) l.
Proof. unfold sum. induction l; cbn; [done|]. by rewrite IHl. Qed.

Lemma trans_flush_after k n :
  trans k 0 0 n ((foldl (fun n a => call_soon (TAfterRefresh a) n) n (after_snode_cache_refresh n))
                   <| after_snode_cache_refresh := [] |>).
Proof.
  rewrite foldl_call_soon. split; [split; [split| |]|done|done].
  - done.
  - by apply inv_same.
  - unfold settled, waiting. cbn. rewrite sum_app, sum_fmap. cbn. change (sum _ []) with 0%nat.
    change (fun a => after_owes k a) with (after_owes k). lia.
  - intros _. unfold settled, waiting. cbn. rewrite sum_app, sum_fmap. cbn. change (sum _ []) with 0%nat.
    change (fun a => after_owes k a) with (after_owes k). lia.
  - unfold sent, budget. cbn. rewrite sum_app, sum_fmap. cbn. change (sum _ []) with 0%nat.
    change (fun a => after_budget k a) with (after_budget k). lia.
  - done.
  - intros _ [W1 W2]. split; cbn; intros Hx; apply Exists_app; left; auto.
Qed.

Lemma trans_draw k n : trans k 0 0 n (next_draw n).
Proof. frame. Qed.
Lemma trans_max_failure k s n : trans k 0 0 n (max_failure_count s n).
Proof. frame. Qed.
Lemma trans_bump k s n : trans k 0 0 n (bump_failure_count s n).
Proof. frame. Qed.
(** Take off the last update of a handler, if no account sees it. *)
Ltac peel1 :=
  lazymatch goal with
  | |- trans _ _ _ ?n ?n => apply trans_refl
  | |- trans _ _ _ _ (field_set _ ?X) => apply (trans_then0 _ _ _ _ X); [|apply trans_frame, quiet]
  | |- trans _ _ _ _ (next_draw ?X) => apply (trans_then0 _ _ _ _ X); [|apply trans_draw]
  | |- trans _ _ _ _ (update_status _ ?X) => apply (trans_then0 _ _ _ _ X); [|apply trans_status]
  | |- trans _ _ _ _ (update_disk_cache_throttled _ ?X) => apply (trans_then0 _ _ _ _ X); [|apply trans_disk]
  | |- trans _ _ _ _ (clear_empty_pending_path_drops ?X) => apply (trans_then0 _ _ _ _ X); [|apply trans_clear_drops]
  | |- trans _ _ _ _ (max_failure_count _ ?X) => apply (trans_then0 _ _ _ _ X); [|apply trans_max_failure]
  | |- trans _ _ _ _ (bump_failure_count _ ?X) => apply (trans_then0 _ _ _ _ X); [|apply trans_bump]
  end.
Ltac peel := repeat peel1.

Section Handlers.
Context `{Quic} `{Rng} `{Oxenc} `{TextEncodings} `{X25519} `{Aead} `{AesGcm} `{Json} `{JsonNumbers} `{Texts}.

(** ** Refreshes *)

Lemma trans_refill k n : trans k 0 0 n (refill_unused_nodes n).
Proof.
  unfold refill_unused_nodes, get_unused_nodes. destruct (_ <? _); frame.
Qed.
Lemma trans_resume_build k n t : trans k 0 0 n (resume_path_build n t).
Proof. unfold resume_path_build. cbn -[call_soon]. eapply trans_seq0; [|leaf]. frame. Qed.

Lemma trans_complete k nodes n : trans k 0 0 n (refresh_snode_cache_complete nodes n).
Proof.
  unfold refresh_snode_cache_complete. cbv zeta. peel1.
  eapply trans_then0; [|apply trans_foldl0; intros; apply trans_resume_build].
  eapply trans_then0; [|apply trans_flush_after]. peel.
Qed.

Lemma trans_refresh_failed k id n : trans k 0 0 n (refresh_failed id n).
Proof. unfold refresh_failed. cbv zeta. eapply trans_then0; [|by apply trans_retry]. peel. Qed.

Lemma trans_refresh_response k id success timeout response n :
  trans k 0 0 n (refresh_response id success timeout response n).
Proof.
  unfold refresh_response. destruct (snode_refresh_results n) as [results|]; [|apply trans_refl].
  destruct response as [r|]; [|apply trans_refresh_failed].
  destruct (_ || _); [apply trans_refresh_failed|].
  destruct (_ ≫= _) as [result|e]; [|destruct e; first [apply trans_break | apply trans_refresh_failed]].
  destruct (negb _); [frame|]. destruct (existsb _ _); [frame|].
  eapply trans_then0; [|apply trans_complete]. peel.
Qed.

(** ** Errors *)


(** A path that is repaired or counted keeps its shape. *)
Record path_shape (p q : onion_path) : Prop := {
  sh_length : length (op_nodes q) = length (op_nodes p);
  sh_head : head (op_nodes q) = head (op_nodes p);
  sh_conn : op_conn_info q = op_conn_info p
}.

Definition same_paths (n n' : Network) : Prop := paths n' = paths n /\ links n' = links n.
Lemma same_paths_foldl {A} (f : Network -> A -> Network) l n :
  (forall n a, same_paths n (f n a)) -> same_paths n (foldl f n l).
Proof.
  intros Hf. revert n. induction l as [|a l IH]; intros n; cbn; [done|].
  destruct (IH (f n a)) as [E1 E2], (Hf n a) as [F1 F2]. split; congruence.
Qed.

Lemma trans_repair k path not_found n :
  let '(updated, _, n') := repair_path path not_found n in
  trans k 0 0 n n' /\ same_paths n n' /\ path_shape path updated /\
  (op_failure_count updated = op_failure_count path \/ op_failure_count updated = path_failure_threshold).
Proof.
  unfold repair_path. destruct not_found as [edpk|]; [|split_and!; [apply trans_refl|done|by split|by left]].
  destruct (list_find _ _) as [[i s]|]; [|split_and!; [apply trans_refl|done|by split|by left]].
  cbv zeta. destruct i as [|i]; [|destruct (last (unused_nodes (max_failure_count s n))) as [target|]].
  - split_and!; [apply trans_max_failure|done|by split|by right].
  - split_and!; [peel|done| |by left]. split; cbn; [by rewrite length_insert|by destruct (op_nodes path)|done].
  - split_and!; [apply trans_max_failure|done|by split|by right].
Qed.

Lemma trans_count k path n :
  let '(updated, n') := count_failure path n in
  trans k 0 0 n n' /\ same_paths n n' /\ path_shape path updated /\
  op_failure_count updated = (op_failure_count path + 1) mod 256.
Proof.
  unfold count_failure. destruct (op_nodes _) as [|guard l] eqn:E; [split_and!; [apply trans_break|done|by split|done]|].
  destruct (_ <=? _); [|destruct (_ <? _)%nat]; (split; [|split; [|split; [by split|done]]]).
  - eapply trans_then0; [|apply trans_max_failure]. apply trans_foldl0. intros. apply trans_bump.
  - by apply (same_paths_foldl (fun n s => bump_failure_count s n)).
  - apply trans_bump.
  - done.
  - apply trans_refl.
  - done.
Qed.

Lemma trans_update_failed k path response n :
  let '(updated, n') := update_failed_path path response n in
  trans k 0 0 n n' /\ same_paths n n' /\ path_shape path updated /\
  (0 <= op_failure_count path -> 0 <= op_failure_count updated).
Proof.
  unfold update_failed_path. pose proof (trans_repair k path (node_not_found response) n) as R.
  destruct (repair_path _ _ n) as [[updated found] n1]. destruct R as (R & [Rp Rl] & Rs & Rf).
  destruct (_ || _).
  - pose proof (trans_count k updated n1) as C. destruct (count_failure updated n1) as [u2 n2].
    destruct C as (C & [Cp Cl] & Cs & Cf). split_and!.
    + by eapply trans_seq0.
    + split; congruence.
    + destruct Cs, Rs. split; congruence.
    + intros _. rewrite Cf. apply Z.mod_pos_bound. lia.
  - split_and!; [done|done|done|]. destruct Rf as [->| ->]; [done|]. intros _. done.
Qed.

Lemma path_ok_shape ls p q :
  path_ok ls p -> path_shape p q -> 0 <= op_failure_count q < path_failure_threshold -> path_ok ls q.
Proof.
  intros [P1 P2 P3 P4] [S1 S2 S3] Hf. split; [by rewrite S1|by rewrite S2, S3|done|by rewrite S3].
Qed.

Lemma replace_path_ok ls i p q l :
  l !! i = Some p -> Forall (path_ok ls) l -> path_ok ls q -> Forall (path_ok ls) (replace_path i q l).
Proof.
  intros Hi Hl Hq. unfold replace_path. apply Forall_app. split; [by apply Forall_take|].
  constructor; [done|]. apply Forall_fmap. eapply Forall_impl; [by apply Forall_drop|].
  intros r Hr. unfold compose. cbn. by destruct (same_path r q).
Qed.

Lemma trans_fail_path k d e kont info conn_info response n :
  (forall n, trans k d e n (kont n)) -> trans k d e n (fail_path kont info conn_info response n).
Proof.
  intros Hk. unfold fail_path. cbv zeta. set (t := ri_path_type info).
  destruct (list_find _ (pget t (paths n))) as [[i p]|] eqn:Ea.
  - apply list_find_Some in Ea as (Hl & _ & _).
    pose proof (trans_update_failed k p response n) as U.
    destruct (update_failed_path p response n) as [u n2]. destruct U as (U & [Up Ul] & Us & Uf).
    eapply trans_seq0; [|apply Hk]. eapply trans_seq0; [exact U|]. rewrite <- Up in Hl. clear Up Ul U n.
    assert (Hok : inv n2 -> path_ok (links n2) p) by (intros I; by eapply (inv_paths n2 I t), list_elem_of_lookup_2).
    destruct (Z.leb_spec path_failure_threshold (op_failure_count u)) as [|Hlt]; [by apply trans_drop|].
    apply trans_accounts; [by split|]. intros I. specialize (Hok I).
    assert (Hu : path_ok (links n2) u).
    { eapply path_ok_shape; [done..|]. split; [apply Uf, (path_failures _ _ Hok)|done]. }
    destruct I as [I1 I2 I3 I4 Ic I5]. split; [|exact I2|exact I3|exact I4|exact Ic|exact I5].
    intros t' q. cbn. rewrite pget_pset. case_decide; [subst|by apply I1]. revert q. apply Forall_forall.
    eapply replace_path_ok; [done| |done]. apply Forall_forall. apply I1.
  - destruct (list_find _ (paths_pending_drop n)) as [[i p]|]; [|apply Hk]. cbn.
    pose proof (trans_update_failed k p.1 response n) as U.
    destruct (update_failed_path p.1 response n) as [u n2]. destruct U as (U & _).
    eapply trans_seq0; [exact U|apply Hk].
Qed.

(** ** Retries *)

Lemma rank_retried info d r : retry_rank (retried info d r) =
  match r with rr_none => 3 | rr_decryption_failure => 2 | rr_redirect => 1 | rr_redirect_swarm_refresh => 0 end%nat.
Proof. by destruct r. Qed.

Lemma trans_cached_swarm k pk n : trans k 0 0 n (cached_swarm pk n).2.
Proof. unfold cached_swarm. destruct (mfind _ _); [apply trans_refl|]. cbn [snd]. peel. Qed.

(** Putting a call into the list of those that wait for the refresh. *)
Lemma trans_wait k a n :
  trans k (after_owes k a) (after_budget k a) n (n <| after_snode_cache_refresh ::= (fun l => l ++ [a]) |>).
Proof.
  split; [split; [split| |]|done|done].
  - done.
  - by apply inv_same.
  - unfold settled, waiting. cbn. rewrite sum_app, sum_one. lia.
  - intros _. unfold settled, waiting. cbn. rewrite sum_app, sum_one. lia.
  - unfold sent, budget. cbn. rewrite sum_app, sum_one. lia.
  - done.
  - intros _ [W1 W2]. by split.
Qed.

(** A retry has fewer reasons left than the request it repeats. *)
Lemma trans_send k info cb e n :
  (send_budget info cb <= e)%nat -> trans k (cb_owes k cb) (cb_owes k cb * e) n (call_soon (TSend info cb) n).
Proof. intros He. eapply trans_weaken; [|leaf]. cbn [task_budget]. by apply Nat.mul_le_mono_l. Qed.

Lemma trans_redirect k info status_code headers response cb n :
  match redirect info status_code headers response cb n with
  | inl n' => trans k (cb_owes k cb) (cb_owes k cb * answer_budget info cb) n n'
  | inr n' => trans k 0 0 n n'
  end.
Proof.
  unfold redirect. destruct (node_for_destination _) as [target|]; [|apply trans_refl].
  destruct (ri_swarm_pubkey info) as [pk|]; [|apply trans_refl].
  assert (Hretry : forall n, (2 <= retry_rank info)%nat ->
    match
      (let '(cached, n) := cached_swarm pk n in
       if bool_decide (cached.2 = []) then inr n
       else
         match shuffle (draws n) (filter (fun s => s <> target) cached.2) with
         | [] => inr (next_draw n)
         | s :: _ => inl (call_soon (TSend (retried info (NodeDestination s) rr_redirect) cb) (next_draw n))
         end)
    with
    | inl n' => trans k (cb_owes k cb) (cb_owes k cb * answer_budget info cb) n n'
    | inr n' => trans k 0 0 n n'
    end).
  { clear n. intros n Hr. pose proof (trans_cached_swarm k pk n) as C. destruct (cached_swarm pk n) as [cached n1]. cbn [snd] in C.
    case_bool_decide; [exact C|]. destruct (shuffle _ _); [peel1; exact C|].
    eapply trans_seq0; [exact C|]. eapply trans_seq0; [apply trans_draw|]. apply trans_send.
    unfold send_budget, answer_budget. rewrite rank_retried.
    pose proof (Nat.pow_le_mono_r 2 2 (retry_rank info)). cbn [Nat.pow] in *. lia. }
  unfold retry_rank in Hretry. destruct (ri_retry_reason info) as [[]|] eqn:Er; cbn [value_or].
  - apply Hretry. lia.
  - apply Hretry. lia.
  - eapply trans_then0; [|leaf]. eapply trans_weaken; [|exact (trans_wait k (AfterGetSwarm pk (SwRedirect info status_code headers response cb)) n)].
    cbn [after_budget]. unfold answer_budget, retry_rank. rewrite Er. cbn. lia.
  - apply trans_refl.
  - apply Hretry. lia.
Qed.

Abbreviation responder := (bool -> bool -> Z -> headers_t -> option bytes -> Network -> Network).

Lemma trans_handle_errors k (rsp : responder) cb info conn_info timeout status_code headers response n :
  (forall s t c h r n, trans k (cb_owes k cb) (cb_owes k cb * cb_budget cb) n (rsp s t c h r n)) ->
  trans k (cb_owes k cb) (cb_owes k cb * answer_budget info cb) n
    (handle_errors rsp cb info conn_info timeout status_code headers response n).
Proof.
  intros Hr.
  assert (Hr' : forall s t c h r n, trans k (cb_owes k cb) (cb_owes k cb * answer_budget info cb) n (rsp s t c h r n)).
  { intros. eapply trans_weaken; [|apply Hr]. apply Nat.mul_le_mono_l. unfold answer_budget. lia. }
  unfold handle_errors. destruct (_ && _) eqn:Ed.
  { apply trans_send. apply andb_true_iff in Ed as [Ed%bool_decide_eq_true _].
    unfold send_budget, answer_budget, retry_rank. rewrite Ed. cbn. lia. }
  clear Ed. destruct (status_from_text _ _ _) as [code tmo].
  destruct (_ && tmo); [apply Hr'|]. destruct (existsb _ _); [apply Hr'|]. destruct (_ && _); [apply Hr'|].
  cbv zeta. destruct (code =? 421); [|by apply trans_fail_path].
  pose proof (trans_redirect k info code headers response cb n) as R. destruct (redirect _ _ _ _ _ _) as [n'|n']; [done|].
  eapply trans_seq0; [exact R|]. by apply trans_fail_path.
Qed.

Lemma trans_respond k cb : forall success timeout status_code headers response n,
  trans k (cb_owes k cb) (cb_owes k cb * cb_budget cb) n (respond cb success timeout status_code headers response n).
Proof.
  induction cb as [id|id|b info path cb IH]; intros; cbn [respond].
  - eapply trans_weaken; [|leaf]. cbn. lia.
  - eapply trans_weaken; [|apply trans_refresh_response]. lia.
  - assert (IH' : forall s t c h r n, trans k (cb_owes k cb) (cb_owes k cb * (2 ^ retry_rank info - 1 + cb_budget cb)) n
                    (respond cb s t c h r n)).
    { intros. eapply trans_weaken; [|apply IH]. apply Nat.mul_le_mono_l. lia. }
    cbn [cb_owes cb_budget]. destruct (_ || _); [apply IH'|]. destruct response as [r|]; [|apply trans_break].
    destruct (process_onion_response _ _ _ _) as [[[code h] body]|[code h msg|msg|]]; [apply IH'| | |apply trans_break];
      apply (trans_handle_errors k (respond cb)); exact IH.
Qed.

(** ** Sending *)

Lemma sum_alt {A} (f g : A -> nat) l : (forall a, f a = g a) -> sum f l = sum g l.
Proof. intros Hf. unfold sum. induction l; cbn; [done|]. by rewrite Hf, IHl. Qed.

(** A command goes out on a connection. *)
Definition put_in_flight (c : command) (n : Network) : Network :=
  (add_pending_request (cmd_conn c) n) <| in_flight ::= (fun l => l ++ [c]) |>.

Lemma conn_ok_alter f i ls c : (forall l, lk_node (f l) = lk_node l) -> conn_ok ls c -> conn_ok (alter f i ls) c.
Proof.
  intros Hf (j & l & Hc & Hl & Hn). destruct (decide (j = i)) as [->|Hij].
  - exists i, (f l). rewrite list_lookup_alter_eq, Hl. cbn. by rewrite Hf.
  - exists j, l. by rewrite list_lookup_alter_ne.
Qed.
Lemma path_ok_ext ls ls' p : (forall c, conn_ok ls c -> conn_ok ls' c) -> path_ok ls p -> path_ok ls' p.
Proof. intros Hc [P1 P2 P3 P4]. split; auto. Qed.

Lemma call_ok_ext ls ls' c : (forall c, conn_ok ls c -> conn_ok ls' c) -> call_ok ls c -> call_ok ls' c.
Proof. intros Hc. destruct c; cbn; [done|by apply path_ok_ext|apply Hc]. Qed.

(** The part of the invariant that only looks for connections in the list. *)
Lemma inv_links n n' :
  (forall c, conn_ok (links n) c -> conn_ok (links n') c) -> paths n' = paths n ->
  paths_pending_drop n' = paths_pending_drop n -> unused_connections n' = unused_connections n -> calls n' = calls n ->
  Forall (fun c => conn_ok (links n') (cmd_conn c)) (in_flight n') ->
  (forall i l, links n' !! i = Some l -> lk_raced l = false ->
     lk_pending l = Z.of_nat (sum (on_conn i) (in_flight n') + sum (posting i) (calls n')) mod 2 ^ 64) ->
  inv n -> inv n'.
Proof.
  intros Hc Hp Hd Hu Ha Hf Hl [I1 I2 I3 I4 Ic I5]. split; [..|exact Hf| |exact Hl].
  - rewrite Hp. intros t p Hin. eapply path_ok_ext; [exact Hc|by eapply I1].
  - rewrite Hd. intros p t Hin. eapply path_ok_ext; [exact Hc|by eapply I2].
  - rewrite Hu. eapply Forall_impl; [exact I3|exact Hc].
  - rewrite Ha. eapply Forall_impl; [exact Ic|]. intros c. by apply call_ok_ext.
Qed.

(** Writing the counter of a connection keeps everything else. *)
Lemma write_pending_links f c i n :
  ci_conn c = Some i -> write_pending f c n = n <| links ::= alter (fun l => set_pending (counting n i) (f l) l) i |>.
Proof. intros Hc. unfold write_pending. by rewrite Hc. Qed.

(** The counter after it was written: it is as before for other connections, and it has changed by
    [f] if there was no race so far. *)
Lemma write_pending_lookup f i (ls : list link) raced j l :
  alter (fun l => set_pending raced (f l) l) i ls !! j = Some l -> lk_raced l = false ->
  exists l0, ls !! j = Some l0 /\ lk_raced l0 = false /\ lk_pending l = if decide (j = i) then f l0 mod 2 ^ 64 else lk_pending l0.
Proof.
  destruct (decide (j = i)) as [->|Hij].
  - rewrite list_lookup_alter_eq. intros (l0 & Hl & ->)%fmap_Some. cbn. intros [Hr _]%orb_false_iff. by exists l0.
  - rewrite list_lookup_alter_ne by done. intros Hl Hr. by exists l.
Qed.

Lemma inv_put c n : conn_ok (links n) (cmd_conn c) -> inv n -> inv (put_in_flight c n).
Proof.
  intros Hc I. pose proof Hc as (i & _ & Hi & _). pose proof (inv_flight n I) as I4. pose proof (inv_pending n I) as I5.
  unfold put_in_flight, add_pending_request. rewrite (write_pending_links _ _ i) by done.
  revert I. apply inv_links; try reflexivity; cbn.
  - intros. by apply conn_ok_alter.
  - apply Forall_app. split; [|constructor; [by apply conn_ok_alter|constructor]].
    eapply Forall_impl; [exact I4|]. intros. by apply conn_ok_alter.
  - intros j l' Hj Hr. apply write_pending_lookup in Hj as (l & Hl & Hr' & ->); [|done]. rewrite sum_app, sum_one.
    unfold on_conn at 2. rewrite Hi, (I5 j l Hl Hr'). case_decide; [subst; rewrite decide_True by done|rewrite decide_False by congruence].
    + rewrite Zplus_mod_idemp_l. f_equal. lia.
    + f_equal. lia.
Qed.

Lemma trans_put k c n : (inv n -> conn_ok (links n) (cmd_conn c)) -> trans k (cmd_owes k c) (cmd_budget k c) n (put_in_flight c n).
Proof.
  intros Hc. split; [split; [split| |]|..].
  - unfold put_in_flight, add_pending_request, write_pending. by destruct (ci_conn _).
  - intros I. apply inv_put; auto.
  - unfold settled, waiting, put_in_flight, add_pending_request, write_pending.
    destruct (ci_conn _); cbn; rewrite sum_app, sum_one; lia.
  - intros _. unfold settled, waiting, put_in_flight, add_pending_request, write_pending.
    destruct (ci_conn _); cbn; rewrite sum_app, sum_one; lia.
  - unfold sent, budget, put_in_flight, add_pending_request, write_pending.
    destruct (ci_conn _); cbn; rewrite sum_app, sum_one; lia.
  - unfold put_in_flight, add_pending_request, write_pending. by destruct (ci_conn _).
  - unfold put_in_flight, add_pending_request, write_pending. intros _ [W1 W2]. by destruct (ci_conn _).
  - unfold put_in_flight, add_pending_request, write_pending. by destruct (ci_conn _).
  - unfold put_in_flight, add_pending_request, write_pending. by destruct (ci_conn _).
Qed.

Lemma trans_send_request k info conn_info cb n :
  (inv n -> conn_ok (links n) conn_info) ->
  trans k (cb_owes k cb) (cb_owes k cb * (1 + answer_budget info cb)) n (send_request info conn_info cb n).
Proof.
  intros Hc. unfold send_request, unreachable, too_late.
  assert (Hr : forall s t c h r n, trans k (cb_owes k cb) (cb_owes k cb * (1 + answer_budget info cb)) n (respond cb s t c h r n)).
  { intros. eapply trans_weaken; [|apply trans_respond]. apply Nat.mul_le_mono_l. unfold answer_budget. lia. }
  destruct (negb _); [apply Hr|]. destruct (no_time_left info n); [apply Hr|].
  eapply (trans_seq _ (cb_owes k cb) (cb_owes k cb * answer_budget info cb) 0 (cb_owes k cb)); [lia|lia| |].
  - exact (trans_put k (CmOnion conn_info info cb) n Hc).
  - exact (trans_report k (OutSent info cb) _ eq_refl).
Qed.
End Handlers.
