(* ===== verification/NetworkStepFacts.v ===== *)
(** * What every event of the network keeps

    The operations of [NetworkRun], and [step], related to the state they start from by the
    accounts of [NetworkFacts]. *)
From S2P Require Import Prelude OMap Util Internal BtValue Bencode ThirdParty OnionRequest NetworkData NetworkResponse NetworkState NetworkRun NetworkFacts.

Section Operations.
Context `{Quic} `{Rng} `{Oxenc} `{TextEncodings} `{X25519} `{Aead} `{AesGcm} `{Json} `{JsonNumbers} `{Texts}.

(** ** Choosing a path *)

Lemma least_busy_in n p l : least_busy n p l ∈ p :: l.
Proof.
  revert p. induction l as [|q l IH]; intros p; cbn; [set_solver|].
  destruct (_ <? _); [specialize (IH q)|specialize (IH p)]; set_solver.
Qed.

(** The path is one of those given, has an open connection and does not contain the destination,
    unless the object keeps a single path. *)
Lemma find_valid_path_spec info candidates n :
  match find_valid_path info candidates n with
  | (Some p, n') => p ∈ candidates /\ path_valid n p = true /\ n' = next_draw n /\
                    (forall target, node_for_destination (ri_destination info) = Some target ->
                       contains_node p target = false \/ single_path_mode n = true)
  | (None, n') => n' = n \/ n' = next_draw n
  end.
Proof.
  unfold find_valid_path. set (possible := filter (fun p => path_valid n p = true) candidates).
  set (chosen := match node_for_destination _ with Some _ => _ | None => _ end).
  assert (Hc : forall p, p ∈ chosen -> p ∈ candidates /\ path_valid n p = true /\
      (forall target, node_for_destination (ri_destination info) = Some target ->
         contains_node p target = false \/ single_path_mode n = true)).
  { intros p Hp. subst chosen. destruct (node_for_destination _) as [target|].
    - destruct (single_path_mode n) eqn:Es; cbn [andb] in Hp.
      + assert (Hp' : p ∈ possible).
        { destruct (bool_decide _) in Hp; [done|]. by apply list_elem_of_filter in Hp as [_ Hp]. }
        apply list_elem_of_filter in Hp' as [Hv Hin]. split_and!; [done|done|by right].
      + apply list_elem_of_filter in Hp as [Ht Hp]. apply list_elem_of_filter in Hp as [Hv Hin].
        split_and!; [done|done|]. intros ? [= <-]. by left.
    - apply list_elem_of_filter in Hp as [Hv Hin]. by split_and!. }
  destruct chosen as [|p0 l0] eqn:Ech; [by left|]. rewrite <- Ech in *.
  destruct (shuffle (draws n) chosen) as [|p l] eqn:Esh; [by right|].
  assert (Hin : forall q, q ∈ p :: l -> q ∈ chosen) by (intros q; by rewrite <- Esh, shuffle_perm).
  destruct (path_selection_behaviour _).
  - destruct (Hc p) as (? & ? & ?); [apply Hin; set_solver|]. by split_and!.
  - destruct (_ || _); [|by right]. destruct (Hc (least_busy (next_draw n) p l)) as (? & ? & ?); [apply Hin, least_busy_in|].
    by split_and!.
Qed.

Lemma trans_find_path k info candidates n : trans k 0 0 n (find_valid_path info candidates n).2.
Proof.
  pose proof (find_valid_path_spec info candidates n) as F. destruct (find_valid_path _ _ _) as [[p|] n']; cbn.
  - destruct F as (_ & _ & -> & _). apply trans_draw.
  - destruct F as [-> | ->]; [apply trans_refl|apply trans_draw].
Qed.

(** ** Sending *)

Lemma pall_pset {A} t (a : A) (p : per_type (list A)) : pall (pset t (pget t p ++ [a]) p) ≡ₚ a :: pall p.
Proof. destruct t; unfold pall; cbn; solve_Permutation. Qed.
Lemma sum_perm {A} (f : A -> nat) l l' : l ≡ₚ l' -> sum f l = sum f l'.
Proof. unfold sum. induction 1; cbn; lia. Qed.
Lemma sum_cons {A} (f : A -> nat) a l : sum f (a :: l) = (f a + sum f l)%nat.
Proof. done. Qed.

(** A request is put into the queue, and if it can time out a check is scheduled. *)
Lemma trans_queue_request k info cb n : trans k (cb_owes k cb) (cb_owes k cb * send_budget info cb) n (queue_request info cb n).
Proof.
  assert (Hq : forall f : request_info * callback -> nat,
    sum f (pall (pset (ri_path_type info) (pget (ri_path_type info) (request_queue n) ++ [(info, cb)]) (request_queue n)))
    = (f (info, cb) + sum f (pall (request_queue n)))%nat).
  { intros f. by rewrite (sum_perm _ _ _ (pall_pset (ri_path_type info) (info, cb) (request_queue n))). }
  split; [split; [split| |]|..].
  - unfold queue_request. by destruct (ri_path_build_timeout info).
  - unfold queue_request. destruct (ri_path_build_timeout info); by apply inv_same.
  - unfold settled, waiting, queue_request. destruct (ri_path_build_timeout info); cbn; rewrite Hq; [rewrite sum_app, sum_one|]; cbn; lia.
  - intros _. unfold settled, waiting, queue_request. destruct (ri_path_build_timeout info); cbn; rewrite Hq; [rewrite sum_app, sum_one|]; cbn; lia.
  - unfold sent, budget, queue_request. destruct (ri_path_build_timeout info); cbn; rewrite Hq; [rewrite sum_app, sum_one|]; cbn; lia.
  - unfold queue_request. by destruct (ri_path_build_timeout info).
  - intros _ [W1 W2]. unfold queue_request. destruct (ri_path_build_timeout info) as [t|] eqn:Et.
    + split; cbn; [intros Hx; apply Exists_app; left; auto|]. intros _. apply Exists_app. right. by constructor.
    + split; cbn; [done|]. rewrite pall_pset. intros [Hx|Hx]%Exists_cons; [|auto].
      unfold can_time_out in Hx. cbn in Hx. rewrite Et in Hx. by destruct Hx.
  - unfold queue_request. by destruct (ri_path_build_timeout info).
  - unfold queue_request. by destruct (ri_path_build_timeout info).
Qed.

(** Calling the callback uses up no more than sending the request. *)
Lemma trans_refuse k info cb s t c h r n :
  trans k (cb_owes k cb) (cb_owes k cb * send_budget info cb) n (respond cb s t c h r n).
Proof. eapply trans_weaken; [|apply trans_respond]. apply Nat.mul_le_mono_l. unfold send_budget. lia. Qed.
Lemma trans_enqueue k info cb n : trans k (cb_owes k cb) (cb_owes k cb * send_budget info cb) n (enqueue info cb n).
Proof. unfold enqueue. destruct (suspended n); [apply trans_refuse|apply trans_queue_request]. Qed.

(** Looking for a path: it is one of the object's, and its connection is open. *)
Lemma request_path_spec info n :
  let '(path, n') := request_path info n in
  (forall k, trans k 0 0 n n') /\ links n' = links n /\ paths n' = paths n /\
  match path with
  | Some p => p ∈ pget (ri_path_type info) (paths n) /\ path_valid n p = true
  | None => True
  end.
Proof.
  unfold request_path. pose proof (find_valid_path_spec info (pget (ri_path_type info) (paths n)) n) as F.
  pose proof (fun k => trans_find_path k info (pget (ri_path_type info) (paths n)) n) as T.
  destruct (find_valid_path _ _ n) as [path n1]; cbn [snd] in T. split.
  { intros k. eapply trans_seq0; [apply T|leaf]. }
  destruct path as [p|]; [destruct F as (Hin & Hv & -> & _)|destruct F as [-> | ->]]; done.
Qed.

(** Building the request draws random numbers and nothing else, or the request ends. *)
Lemma build_request_spec thrown info path cb n :
  match build_request thrown info path cb n with
  | (Some (info', cb'), n') =>
      n' = next_draw n /\ (forall k, cb_owes k cb' = cb_owes k cb) /\ (1 + answer_budget info' cb' <= send_budget info cb)%nat
  | (None, n') =>
      (exists e, n' = thrown e n) \/ n' = break_loop (next_draw n) \/
      exists text, n' = respond cb false false error_building_onion_request plain text (next_draw n)
  end.
Proof.
  unfold build_request. destruct (make_builder _ _ _) as [b|e]; [|left; by eexists]. cbv zeta.
  destruct (generate _ _ _) as [[body b']|e]; [|destruct e; right; eauto].
  split_and!; [done|done|]. unfold send_budget, answer_budget. cbn [cb_budget].
  replace (retry_rank (with_body info body)) with (retry_rank info) by done. rewrite Nat.pow_succ_r'.
  pose proof (Nat.pow_nonzero 2 (retry_rank info)). lia.
Qed.

Lemma trans_send_onion k info cb n :
  trans k (cb_owes k cb) (cb_owes k cb * send_budget info cb) n (_send_onion_request info cb n).
Proof.
  unfold _send_onion_request. pose proof (request_path_spec info n) as R. destruct (request_path info n) as [path n1].
  destruct R as (T & _ & Ep & Hp). eapply trans_seq0; [apply T|]. destruct path as [path|]; [|apply trans_enqueue].
  pose proof (build_request_spec (fun _ => break_loop) info path cb n1) as B.
  destruct (build_request _ _ _ _ _) as [[[info' cb']|] n2].
  - destruct B as (-> & Hcb & Hle). eapply trans_seq0; [apply trans_draw|].
    eapply trans_weaken; [|rewrite <- (Hcb k); apply trans_send_request].
    + rewrite Hcb. by apply Nat.mul_le_mono_l.
    + intros I. rewrite <- Ep in Hp. exact (path_conn _ _ (inv_paths _ I _ _ (proj1 Hp))).
  - destruct B as [[_ ->]|[->|[text ->]]]; [apply trans_break|eapply trans_seq0; [apply trans_draw|apply trans_break]|].
    eapply trans_seq0; [apply trans_draw|apply trans_refuse].
Qed.

(** ** Connections *)

Lemma trans_seed_failed k id n : trans k 0 0 n (seed_failed id n).
Proof. unfold seed_failed. cbv zeta. eapply trans_then0; [|by apply trans_retry]. peel. Qed.
Lemma trans_seed_result k id nodes n : trans k 0 0 n (seed_nodes_result id nodes n).
Proof.
  unfold seed_nodes_result. case_bool_decide; [apply trans_seed_failed|].
  eapply trans_then0; [|apply trans_complete]. peel.
Qed.
Lemma trans_get_service_nodes k id c n : (inv n -> conn_ok (links n) c) -> trans k 0 0 n (get_service_nodes id c n).
Proof.
  intros Hc. unfold get_service_nodes. destruct (negb _); [apply trans_seed_result|].
  exact (trans_put k (CmServiceNodes c id) n Hc).
Qed.

Lemma trans_store_connection k id c n :
  (conn_valid n c = true -> inv n -> conn_ok (links n) c) -> trans k 0 0 n (store_connection id c n).
Proof.
  intros Hc. unfold store_connection. destruct (conn_valid n c); cbn [negb]; cbv zeta.
  2:{ eapply trans_then0; [|by apply trans_retry]. peel. }
  set (n1 := n <| unused_connections ::= _ |>).
  assert (T1 : trans k 0 0 n n1).
  { apply trans_accounts; [by split|]. intros I. specialize (Hc eq_refl I). destruct I as [I1 I2 I3 I4 Ic I5].
    split; [exact I1|exact I2| |exact I4|exact Ic|exact I5]. cbn. apply Forall_app. by split; [|constructor]. }
  clearbody n1. set (n2 := match path_build_queue n1 with [] => _ | _ :: _ => _ end).
  assert (T2 : trans k 0 0 n n2).
  { subst n2. destruct (path_build_queue n1) as [|t rest]; [exact T1|]. peel1. eapply trans_then0; [|leaf]. peel1. exact T1. }
  destruct (_ && _); [|exact T2]. eapply trans_seq0; [exact T2|]. apply trans_foldl0. intros. leaf.
Qed.

Lemma trans_connection_ready k cb c n :
  (conn_valid n c = true -> inv n -> conn_ok (links n) c) -> trans k 0 0 n (connection_ready cb c n).
Proof.
  intros Hc. destruct cb as [id|id]; cbn [connection_ready]; [by apply trans_store_connection|].
  destruct (conn_valid n c) eqn:Ev; cbn [negb]; [|apply trans_seed_failed]. apply trans_get_service_nodes. auto.
Qed.

Lemma sum_none {A} (f : A -> nat) l : Forall (fun a => f a = 0%nat) l -> sum f l = 0%nat.
Proof. induction 1 as [|a l Ha _ IH]; [done|]. by rewrite sum_cons, Ha, IH. Qed.
Lemma inv_new_link l n : lk_pending l = 0 -> inv n -> inv (n <| links ::= (fun ls => ls ++ [l]) |>).
Proof.
  intros Hl I. pose proof (inv_flight n I) as I4. pose proof (inv_pending n I) as I5.
  assert (Hc : forall c, conn_ok (links n) c -> conn_ok (links n ++ [l]) c).
  { intros c (i & l' & ? & Hi & ?). exists i, l'. split_and!; [done| |done]. by apply lookup_app_l_Some. }
  pose proof (inv_calls n I) as Ic. revert I. apply inv_links; try reflexivity; cbn; [done| |].
  - eapply Forall_impl; [exact I4|]. auto.
  - intros i l' [Hi|[Hge Hi]]%lookup_app_Some; [by apply I5|].
    apply list_lookup_singleton_Some in Hi as [Hi <-]. rewrite Hl. intros _.
    assert (Hno : forall c, conn_ok (links n) c -> ci_conn c <> Some i).
    { intros c (j & lj & -> & Hlj & _) [= ->]. apply lookup_lt_Some in Hlj. lia. }
    rewrite sum_none, (sum_none (posting i)); [done| |].
    + eapply Forall_impl; [exact Ic|]. intros [| |[] c ? ?] Hok; [done..|]. cbn in *. by rewrite decide_False by auto.
    + eapply Forall_impl; [exact I4|]. intros c Hok. unfold on_conn. by rewrite decide_False by auto.
Qed.

Lemma trans_establish k id target cb n : trans k 0 0 n (establish_connection id target cb n).
Proof.
  unfold establish_connection. destruct (suspended n); [by apply trans_connection_ready|].
  apply trans_accounts; [by split|]. by apply inv_new_link.
Qed.

Lemma trans_establish_and_store k id n : trans k 0 0 n (establish_and_store_connection id n).
Proof.
  unfold establish_and_store_connection. destruct (suspended n); [apply trans_refl|]. cbv zeta.
  set (n1 := if bool_decide (status n = st_unknown) then _ else n).
  assert (T1 : trans k 0 0 n n1) by (unfold n1; case_bool_decide; [apply trans_status|apply trans_refl]). clearbody n1.
  set (n2 := if bool_decide (unused_nodes n1 = []) then _ else n1).
  assert (T2 : trans k 0 0 n n2).
  { unfold n2. case_bool_decide; [|done]. eapply trans_seq0; [done|apply trans_refill]. }
  clearbody n2. clear T1. eapply trans_seq0; [exact T2|]. destruct (_ <? _); [leaf|].
  set (n3 := if _ || _ then _ else n2).
  assert (T3 : trans k 0 0 n2 n3) by (unfold n3; destruct (_ || _); [leaf|apply trans_refl]). clearbody n3.
  set (n4 := if bool_decide (in_progress_connections n3 = []) then _ else n3).
  assert (T4 : trans k 0 0 n2 n4) by (unfold n4; case_bool_decide; [peel1; done|done]). clearbody n4.
  unfold pop_unused. destruct (last (unused_nodes n4)) as [target|].
  - eapply trans_then0; [|apply trans_establish]. peel1. peel1. exact T4.
  - eapply trans_then0; [|apply trans_break]. peel1. exact T4.
Qed.

(** ** Refreshing *)

Lemma trans_refresh_seed k id reset n : trans k 0 0 n (refresh_snode_cache_from_seed_nodes id reset n).
Proof.
  unfold refresh_snode_cache_from_seed_nodes. destruct (suspended n); [apply trans_refl|].
  destruct (match current_snode_cache_refresh_request_id n with Some _ => _ | None => _ end); [apply trans_refl|].
  cbv zeta. destruct (_ || _); cbv iota;
    (destruct (last _) as [target|]; [eapply trans_then0; [|apply trans_establish]|eapply trans_then0; [|apply trans_break]]; peel).
Qed.

Lemma trans_refresh k id n : trans k 0 0 n (refresh_snode_cache id n).
Proof.
  unfold refresh_snode_cache, random_id. cbv zeta. eapply trans_seq0; [apply trans_draw|]. set (n0 := next_draw n).
  set (rid := value_or _ _). clearbody n0 rid. clear n. destruct (suspended n0); [apply trans_refl|].
  destruct (match current_snode_cache_refresh_request_id n0 with Some _ => negb _ | None => _ end); [apply trans_refl|].
  set (n1 := match current_snode_cache_refresh_request_id n0 with Some _ => _ | None => _ end).
  assert (T1 : trans k 0 0 n0 n1) by (unfold n1; destruct (current_snode_cache_refresh_request_id n0); peel). clearbody n1.
  set (n2 := if size_of (unused_nodes n1) <? _ then _ else n1).
  assert (T2 : trans k 0 0 n0 n2).
  { unfold n2. destruct (_ <? _); [|done]. eapply trans_seq0; [done|apply trans_refill]. }
  clearbody n2. clear T1. eapply trans_seq0; [exact T2|]. destruct (_ <? _); [apply trans_refresh_seed|].
  unfold pop_unused. destruct (last (unused_nodes n2)) as [target|]; [|eapply trans_then0; [|apply trans_break]; peel].
  set (n3 := n2 <| unused_nodes ::= _ |> <| in_progress_snode_cache_refresh_count ::= _ |>).
  assert (T3 : trans k 0 0 n2 n3) by (unfold n3; peel). clearbody n3.
  set (n4 := if _ <? _ then _ else n3).
  assert (T4 : trans k 0 0 n2 n4) by (unfold n4; destruct (_ <? _); [eapply trans_seq0; [done|leaf]|done]). clearbody n4.
  eapply trans_seq0; [exact T4|]. destruct (json_dump _); [|apply trans_break].
  exact (trans_send_onion k _ (CbRefresh rid) n4).
Qed.

(** ** Building paths *)

Lemma sum_pset {A} (f : A -> nat) t l (p : per_type (list A)) :
  (sum f (pall (pset t l p)) + sum f (pget t p) = sum f (pall p) + sum f l)%nat.
Proof. destruct t; unfold pall; cbn; rewrite !sum_app; lia. Qed.
Lemma elem_pall {A} (x : A) (p : per_type (list A)) : x ∈ pall p <-> exists t, x ∈ pget t p.
Proof.
  unfold pall. rewrite !elem_of_app. split.
  - intros [Hx|[Hx|Hx]]; [by exists pt_standard|by exists pt_upload|by exists pt_download].
  - intros [[] Hx]; auto.
Qed.

Record same_but_tasks (n n' : Network) : Prop := {
  sb_links : links n' = links n;
  sb_calls : calls n' = calls n;
  sb_flight : in_flight n' = in_flight n;
  sb_outputs : outputs n' = outputs n;
  sb_queue : request_queue n' = request_queue n;
  sb_after : after_snode_cache_refresh n' = after_snode_cache_refresh n;
  sb_paths : paths n' = paths n;
  sb_drops : paths_pending_drop n' = paths_pending_drop n;
  sb_unused : unused_connections n' = unused_connections n;
  sb_timeout : request_timeout_id n' = request_timeout_id n;
  sb_suspended : suspended n' = suspended n;
  sb_broken : broken n' = broken n
}.

(** The requests of the queue that the new path can take are scheduled. *)
Lemma resume_requests_loop path queue : forall n kept,
  let '(kept', n') :=
    foldl (fun '(kept, n) r =>
             match find_valid_path r.1 [path] n with
             | (Some _, n) => (kept, call_soon (TSend r.1 r.2) n)
             | (None, n) => (kept ++ [r], n)
             end) (kept, n) queue in
  exists s, kept ++ queue ≡ₚ kept' ++ s /\ same_but_tasks n n' /\
            tasks n' = tasks n ++ ((fun r => (0, TSend r.1 r.2)) <$> s).
Proof.
  induction queue as [|r queue IH]; intros n kept; cbn.
  { exists []. split_and!; [done|by split|by rewrite app_nil_r]. }
  pose proof (find_valid_path_spec r.1 [path] n) as F.
  destruct (find_valid_path r.1 [path] n) as [[p|] n1].
  - destruct F as (_ & _ & -> & _). specialize (IH (call_soon (TSend r.1 r.2) (next_draw n)) kept).
    destruct (foldl _ _ queue) as [kept' n']. destruct IH as (s & Hp & [] & Ht). exists (r :: s). split_and!.
    + rewrite <- !Permutation_middle. by constructor.
    + by split.
    + rewrite Ht. cbn. by rewrite <- app_assoc.
  - specialize (IH n1 (kept ++ [r])). destruct (foldl _ _ queue) as [kept' n']. destruct IH as (s & Hp & Hs & Ht).
    exists s. rewrite <- app_assoc in Hp. split_and!; [done| |].
    + destruct F as [-> | ->]; [done|]. destruct Hs. by split.
    + rewrite Ht. by destruct F as [-> | ->].
Qed.
Lemma resume_requests_spec path queue n :
  let '(kept, n') := resume_requests path queue n in
  exists s, queue ≡ₚ kept ++ s /\ same_but_tasks n n' /\
            tasks n' = tasks n ++ ((fun r => (0, TSend r.1 r.2)) <$> s).
Proof. exact (resume_requests_loop path queue n []). Qed.

Lemma trans_resume_requests k path t n :
  let '(kept, n') := resume_requests path (pget t (request_queue n)) n in
  trans k 0 0 n (n' <| request_queue ::= pset t kept |>).
Proof.
  pose proof (resume_requests_spec path (pget t (request_queue n)) n) as R.
  destruct (resume_requests _ _ n) as [kept n']. destruct R as (s & Hp & [] & Ht).
  assert (Hw : forall f : request_info * callback -> nat,
    (sum f (pall (pset t kept (request_queue n))) + sum f s = sum f (pall (request_queue n)))%nat).
  { intros f. pose proof (sum_pset f t kept (request_queue n)) as E. rewrite (sum_perm f _ _ Hp), sum_app in E. lia. }
  split; [split; [split| |]|done|unfold thrown; cbn; by rewrite sb_outputs0].
  - cbn. congruence.
  - by apply inv_same.
  - unfold settled, waiting. cbn. rewrite sb_outputs0, sb_queue0, sb_after0, sb_flight0, sb_calls0, Ht, sum_app, sum_fmap. cbn.
    rewrite <- (Hw (fun r => cb_owes k r.2)). lia.
  - intros _. unfold settled, waiting. cbn. rewrite sb_outputs0, sb_queue0, sb_after0, sb_flight0, sb_calls0, Ht, sum_app, sum_fmap. cbn.
    rewrite <- (Hw (fun r => cb_owes k r.2)). lia.
  - unfold sent, budget. cbn. rewrite sb_outputs0, sb_queue0, sb_after0, sb_flight0, sb_calls0, Ht, sum_app, sum_fmap. cbn.
    rewrite <- (Hw (fun r => cb_owes k r.2 * send_budget r.1 r.2)%nat). lia.
  - done.
  - intros _ [W1 W2]. split; cbn; rewrite Ht.
    + rewrite sb_timeout0. intros Hx. apply Exists_app. left. auto.
    + rewrite sb_queue0. intros Hx. apply Exists_app. left. apply W2.
      apply Exists_exists in Hx as (r & Hr & Hx). apply Exists_exists. exists r. split; [|done].
      apply elem_pall in Hr as [t' Hr]. apply elem_pall. exists t'. rewrite pget_pset in Hr.
      case_decide; [subst|done]. rewrite Hp. apply elem_of_app. by left.
Qed.

(** Three nodes with different addresses, the first as given and the others from the list. *)
Lemma pick_nodes_spec l : forall start nodes rest,
  NoDup (sn_ip <$> start) -> start <> [] -> (length start <= path_size)%nat ->
  pick_nodes l start = (Some nodes, rest) ->
  length nodes = path_size /\ NoDup (sn_ip <$> nodes) /\ (exists more, nodes = start ++ more /\ more ⊆ l) /\
  suffix rest l.
Proof.
  induction l as [|s l IH]; intros start nodes rest Hnd Hne Hle; cbn [pick_nodes].
  - destruct (Nat.leb_spec path_size (length start)); [|intros [=]]. intros [= <- <-].
    split_and!; [lia|done| |done]. exists []. by rewrite app_nil_r.
  - destruct (Nat.leb_spec path_size (length start)).
    { intros [= <- <-]. split_and!; [lia|done| |done]. exists []. rewrite app_nil_r. split; [done|set_solver]. }
    intros Hp. destruct (existsb _ start) eqn:Ex.
    + apply IH in Hp as (? & ? & (more & -> & Hm) & Hs); [|done..].
      split_and!; [done|done| |by apply suffix_cons_r]. exists more. split; [done|set_solver].
    + apply IH in Hp as (? & ? & (more & -> & Hm) & Hs).
      * split_and!; [done|done| |by apply suffix_cons_r]. exists (s :: more). rewrite <- app_assoc. split; [done|set_solver].
      * rewrite fmap_app. apply NoDup_app. split_and!; [done| |by apply NoDup_singleton].
        intros ip Hip Hs. apply list_elem_of_singleton in Hs as ->.
        apply list_elem_of_fmap in Hip as (e & He & Hin).
        apply not_true_iff_false in Ex. apply Ex. apply existsb_exists. exists e. split; [by apply list_elem_of_In|].
        apply Z.eqb_eq. by rewrite He.
      * by destruct start.
      * rewrite length_app. cbn. lia.
Qed.

Lemma trans_build_path k id t n : trans k 0 0 n (build_path id t n).
Proof.
  unfold build_path. destruct (suspended n); [apply trans_refl|].
  destruct (unused_connections n) as [|c conns] eqn:Ec; [eapply trans_then0; [|leaf]; peel|]. cbv zeta.
  set (n1 := if (length (unused_nodes n) <? _)%nat then _ else n).
  assert (T1 : trans k 0 0 n n1 /\ unused_connections n1 = c :: conns).
  { unfold n1. destruct (_ <? _)%nat; [|split; [apply trans_refl|done]]. split; [apply trans_refill|].
    unfold refill_unused_nodes, get_unused_nodes. by destruct (_ <? _). }
  destruct T1 as [T1 Ec1]. clearbody n1. clear Ec. eapply trans_seq0; [exact T1|]. clear T1 n.
  destruct (_ <? _)%nat; [eapply trans_then0; [|leaf]; peel|].
  destruct (pick_nodes _ _) as [[nodes|] rest] eqn:Ep; [|eapply trans_then0; [|by apply trans_retry]; peel].
  apply pick_nodes_spec in Ep as (Hlen & Hnd & (more & -> & Hm) & Hs); [|by apply NoDup_singleton|done|cbn; unfold path_size; lia].
  set (path := {| op_id := id |}).
  set (n2 := _ <| paths ::= _ |> <| in_progress_path_builds ::= _ |>).
  assert (T2 : trans k 0 0 n1 n2).
  { apply trans_accounts; [by split|]. intros [I1 I2 I3 I4 Ic I5]. rewrite Ec1 in I3. apply Forall_cons in I3 as [Hc I3].
    split; [|exact I2|exact I3|exact I4|exact Ic|exact I5]. cbn. intros t' p. rewrite pget_pset. case_decide; [subst|by apply I1].
    intros [Hin|Hin]%elem_of_app; [by apply (I1 t)|]. apply list_elem_of_singleton in Hin as ->.
    by split. }
  clearbody n2. set (n3 := match t with pt_standard => _ | _ => n2 end).
  assert (T3 : trans k 0 0 n1 n3).
  { unfold n3. destruct t; [|done..]. eapply trans_seq0; [exact T2|].
    eapply trans_then0; [|exact (trans_report k (OutPaths _) _ eq_refl)]. apply trans_status. }
  clearbody n3. clear T2. pose proof (trans_resume_requests k path t n3) as R.
  destruct (resume_requests _ _ n3) as [kept n4]. eapply trans_seq0; [exact T3|].
  case_bool_decide; [exact R|]. eapply trans_seq0; [exact R|apply trans_resume_build].
Qed.

Lemma trans_build_if_needed k t found n : trans k 0 0 n (build_path_if_needed t found n).
Proof.
  unfold build_path_if_needed. cbv zeta. destruct (_ && _); [apply trans_refl|]. destruct (_ && _); [apply trans_refl|].
  destruct (_ || _); [|apply trans_refl]. cbn. eapply trans_seq0; [apply trans_draw|apply trans_build_path].
Qed.

(** ** Swarms and random nodes *)

Definition sw_budget (k : nat) (cb : swarm_callback) : nat :=
  match cb with SwRedirect _ _ _ _ cb => cb_owes k cb * (1 + cb_budget cb) | SwUser _ => 0 end%nat.

Lemma trans_swarm_ready k cb id swarm n : trans k (sw_owes k cb) (sw_budget k cb) n (swarm_ready cb id swarm n).
Proof.
  destruct cb as [i|info code headers response cb]; cbn [swarm_ready].
  - exact (trans_report k (OutSwarm i id swarm) n eq_refl).
  - destruct (node_for_destination _) as [target|]; [|apply trans_break]. cbv zeta. cbn [sw_owes sw_budget].
    eapply trans_seq0; [apply trans_draw|]. destruct (shuffle _ _) as [|s l].
    + eapply trans_weaken; [|apply trans_respond]. apply Nat.mul_le_mono_l. lia.
    + apply trans_send. unfold send_budget. rewrite rank_retried. cbn. lia.
Qed.

Lemma trans_get_swarm k pk cb n : trans k (sw_owes k cb) (sw_budget k cb) n (get_swarm pk cb n).
Proof.
  unfold get_swarm. pose proof (trans_cached_swarm k pk n) as C. destruct (cached_swarm pk n) as [cached n1]. cbn [snd] in C.
  eapply trans_seq0; [exact C|]. clear C. destruct (negb _); [apply trans_swarm_ready|]. destruct (_ || _).
  - eapply trans_then0; [|leaf]. exact (trans_wait k (AfterGetSwarm pk cb) n1).
  - assert (Hp : trans k (sw_owes k cb) (sw_budget k cb) n1
        (match pick_swarm (all_swarms n1) (pubkey_to_swarm_space pk) with
         | None => break_loop n1
         | Some s => swarm_ready cb s.1 s.2 (n1 <| swarm_cache ::= minsert (to_hex pk) s |>)
         end)).
    { destruct (pick_swarm _ _) as [s|]; [|apply trans_break]. eapply trans_seq0; [|apply trans_swarm_ready]. peel. }
    destruct (all_swarms n1) as [|s [|s' l]]; [exact Hp|apply trans_swarm_ready|exact Hp].
Qed.

Lemma trans_random_nodes k count id n :
  trans k (if decide (id = k) then 1 else 0)%nat 0 n (get_random_nodes count id n).
Proof.
  unfold get_random_nodes. cbv zeta. set (n1 := if _ <? _ then _ else n).
  assert (T1 : trans k 0 0 n n1) by (unfold n1; destruct (_ <? _); [apply trans_refill|apply trans_refl]). clearbody n1.
  eapply trans_seq0; [exact T1|]. destruct (_ <? _).
  - eapply trans_then0; [|leaf]. exact (trans_wait k (AfterGetRandomNodes count id) n1).
  - eapply trans_seq0; [|exact (trans_report k (OutNodes id _) _ eq_refl)]. peel.
Qed.

(** ** Taking work out of the state *)

(** [n0] is [n] without a callback that is owed [d] times, with a budget of [e]. *)
Record less (k d e : nat) (n n0 : Network) : Prop := {
  ls_broken : broken n0 = broken n;
  ls_inv : inv n -> inv n0;
  ls_owes : (settled k n0 + waiting k n0 + d = settled k n + waiting k n)%nat;
  ls_budget : (sent k n0 + budget k n0 + e = sent k n + budget k n)%nat;
  ls_suspended : suspended n0 = suspended n
}.
Lemma acct_less k d e n n0 n' : less k d e n n0 -> acct k d e n0 n' -> acct k 0 0 n n'.
Proof.
  intros [L1 L2 L3 L4 L5] [A1 A2 A3 A4 A5]. split; [by rewrite <- L1|auto|lia| |lia].
  intros Hb. specialize (A4 Hb). lia.
Qed.
Lemma moves_less k d e n n0 n' :
  less k d e n n0 -> (suspended n = false -> watched n -> watched n0) -> moves k d e n0 n' -> moves k 0 0 n n'.
Proof.
  intros L W [A As Aw]. split; [by eapply acct_less|by rewrite As, (ls_suspended _ _ _ _ _ L)|].
  intros Hs Hw. apply Aw; [by rewrite (ls_suspended _ _ _ _ _ L)|auto].
Qed.
Lemma trans_less k d e n n0 n' :
  less k d e n n0 -> (suspended n = false -> watched n -> watched n0) -> calls n0 = calls n -> outputs n0 = outputs n ->
  trans k d e n0 n' -> trans k 0 0 n n'.
Proof.
  intros L W Hc Ho [M Tc Tt]. split; [by eapply moves_less|congruence|]. rewrite Tt. unfold thrown. by rewrite Ho.
Qed.

Lemma sum_delete {A} (f : A -> nat) i l a : l !! i = Some a -> (sum f (delete i l) + f a = sum f l)%nat.
Proof. intros Hl. rewrite (sum_perm f l _ (delete_Permutation _ _ _ Hl)), sum_cons. lia. Qed.

Lemma less_task k i delay t n :
  tasks n !! i = Some (delay, t) -> less k (task_owes k t) (task_budget k t) n (n <| tasks := delete i (tasks n) |>).
Proof.
  intros Hl. split.
  - done.
  - by apply inv_same.
  - unfold settled, waiting. cbn. pose proof (sum_delete (fun t => task_owes k t.2) _ _ _ Hl) as E. cbn in E. lia.
  - unfold sent, budget. cbn. pose proof (sum_delete (fun t => task_budget k t.2) _ _ _ Hl) as E. cbn in E. lia.
  - done.
Qed.

Lemma inv_remove i c n :
  in_flight n !! i = Some c -> inv n -> inv (remove_pending_request (cmd_conn c) (n <| in_flight := delete i (in_flight n) |>)).
Proof.
  intros Hl I. pose proof (inv_flight n I) as I4. pose proof (inv_pending n I) as I5.
  pose proof (Forall_lookup_1 _ _ _ _ I4 Hl) as (j & lj & Hj & Hlj & _).
  unfold remove_pending_request. rewrite (write_pending_links _ _ j) by done. revert I. apply inv_links; try reflexivity; cbn.
  - intros. by apply conn_ok_alter.
  - apply Forall_delete. eapply Forall_impl; [exact I4|]. intros. by apply conn_ok_alter.
  - intros j' l' Hl' Hr. apply write_pending_lookup in Hl' as (l0 & Hl0 & Hr0 & ->); [|done].
    pose proof (sum_delete (on_conn j') _ _ _ Hl) as E. unfold on_conn in E at 2. rewrite Hj in E.
    rewrite (I5 j' l0 Hl0 Hr0), <- E. destruct (decide (j' = j)) as [->|];
      [rewrite decide_True by done|rewrite decide_False by congruence].
    + rewrite Zminus_mod_idemp_l. f_equal. lia.
    + f_equal. lia.
Qed.
Lemma less_cmd k i c n :
  in_flight n !! i = Some c ->
  less k (cmd_owes k c) (cmd_budget k c) n (remove_pending_request (cmd_conn c) (n <| in_flight := delete i (in_flight n) |>)).
Proof.
  intros Hl. pose proof (sum_delete (cmd_owes k) _ _ _ Hl) as E1. pose proof (sum_delete (cmd_budget k) _ _ _ Hl) as E2.
  split; [|by apply inv_remove| | |].
  - unfold remove_pending_request, write_pending. by destruct (ci_conn _).
  - unfold settled, waiting, remove_pending_request, write_pending. destruct (ci_conn _); cbn; lia.
  - unfold sent, budget, remove_pending_request, write_pending. destruct (ci_conn _); cbn; lia.
  - unfold remove_pending_request, write_pending. by destruct (ci_conn _).
Qed.
Lemma outputs_cmd c l n : let n' := remove_pending_request c (n <| in_flight := l |>) in
  calls n' = calls n /\ outputs n' = outputs n.
Proof. unfold remove_pending_request, write_pending. by destruct (ci_conn c). Qed.
Lemma watched_cmd c l n : watched n -> watched (remove_pending_request c (n <| in_flight := l |>)).
Proof. unfold remove_pending_request, write_pending. intros [W1 W2]. by destruct (ci_conn _). Qed.

(** ** Failing requests that wait *)

(** A callback that is told of a failure does not touch the queue, and at most schedules calls. *)
Definition quiet_failure (n n' : Network) : Prop :=
  request_queue n' = request_queue n /\ request_timeout_id n' = request_timeout_id n /\
  exists more, tasks n' = tasks n ++ more.
Lemma quiet_failure_refl n : quiet_failure n n.
Proof. split_and!; [done|done|]. exists []. by rewrite app_nil_r. Qed.
Lemma quiet_failure_trans n1 n2 n3 : quiet_failure n1 n2 -> quiet_failure n2 n3 -> quiet_failure n1 n3.
Proof.
  intros (Q1 & R1 & m1 & T1) (Q2 & R2 & m2 & T2). split_and!; [congruence|congruence|].
  exists (m1 ++ m2). by rewrite T2, T1, <- app_assoc.
Qed.
Lemma respond_failure cb timeout code headers response : forall n,
  quiet_failure n (respond cb false timeout code headers response n).
Proof.
  induction cb as [id|id|b info path cb IH]; intros n; cbn [respond]; [| |apply IH].
  - split_and!; [done|done|]. exists []. cbn. by rewrite app_nil_r.
  - assert (F : quiet_failure n (refresh_failed id n)).
    { unfold refresh_failed, retry_later. destruct (retry_delay _ _); split_and!; try done.
      - by eexists.
      - exists []. cbn. by rewrite app_nil_r. }
    unfold refresh_response. destruct (snode_refresh_results n); [|apply quiet_failure_refl]. by destruct response.
Qed.
Lemma foldl_failure timeout code headers response (l : list (request_info * callback)) : forall n,
  quiet_failure n (foldl (fun n r => respond r.2 false timeout code headers response n) n l).
Proof.
  induction l as [|r l IH]; intros n; cbn; [apply quiet_failure_refl|].
  eapply quiet_failure_trans; [apply respond_failure|apply IH].
Qed.
Lemma trans_foldl_failure k timeout code headers response (l : list (request_info * callback)) n :
  trans k (sum (fun r => cb_owes k r.2) l) (sum (fun r => cb_owes k r.2 * send_budget r.1 r.2)%nat l) n
    (foldl (fun n r => respond r.2 false timeout code headers response n) n l).
Proof.
  apply trans_foldl. intros n' r. eapply trans_weaken; [|apply trans_respond].
  apply Nat.mul_le_mono_l. unfold send_budget. lia.
Qed.

Lemma sum_partition {A} (f : A -> nat) (p : A -> bool) l :
  (sum f (filter (fun a => p a = false) l) + sum f (filter (fun a => p a = true) l) = sum f l)%nat.
Proof.
  induction l as [|a l IH]; [done|]. rewrite !filter_cons. destruct (p a).
  - rewrite decide_False, decide_True by done. rewrite !sum_cons. lia.
  - rewrite decide_True, decide_False by done. rewrite !sum_cons. lia.
Qed.
Lemma pall_filter {A} (P : A -> Prop) `{forall x, Decision (P x)} (p : per_type (list A)) :
  pall {| p_standard := filter P (p_standard p); p_upload := filter P (p_upload p); p_download := filter P (p_download p) |}
  = filter P (pall p).
Proof. unfold pall. cbn. by rewrite !filter_app. Qed.

(** The queue loses some requests. *)
Lemma less_queue k q n s :
  pall (request_queue n) ≡ₚ pall q ++ s ->
  less k (sum (fun r => cb_owes k r.2) s) (sum (fun r => cb_owes k r.2 * send_budget r.1 r.2)%nat s) n (n <| request_queue := q |>).
Proof.
  intros Hq. split.
  - done.
  - by apply inv_same.
  - unfold settled, waiting. cbn. rewrite (sum_perm _ _ _ Hq), sum_app. lia.
  - unfold sent, budget. cbn. rewrite (sum_perm _ _ _ Hq), sum_app. lia.
  - done.
Qed.
Lemma filter_partition {A} (p : A -> bool) l :
  l ≡ₚ filter (fun a => p a = false) l ++ filter (fun a => p a = true) l.
Proof.
  induction l as [|a l IH]; [done|]. rewrite !filter_cons. destruct (p a).
  - rewrite decide_False, decide_True by done. rewrite <- Permutation_middle. by constructor.
  - rewrite decide_True, decide_False by done. cbn. by constructor.
Qed.

Lemma acct_timeout_id k v n : acct k 0 0 n (n <| request_timeout_id := v |>).
Proof. split; [done|by apply inv_same|unfold settled, waiting; cbn; lia..|unfold sent, budget; cbn; lia]. Qed.

(** What a check of the timeouts does once it runs. *)
Lemma check_run arg n :
  suspended n = false -> request_timeout_id n = arg ->
  let n' := check_request_queue_timeouts arg n in
  (forall k, acct k 0 0 n n') /\ suspended n' = false /\ watched n'.
Proof.
  intros Hs Harg. unfold check_request_queue_timeouts. rewrite Hs, bool_decide_true by done. cbn [negb]. cbv zeta.
  set (n1 := match request_timeout_id n with Some _ => n | None => _ end).
  assert (Hn1 : (forall k, acct k 0 0 n n1) /\ suspended n1 = false /\ clock n1 = clock n /\ is_Some (request_timeout_id n1)).
  { unfold n1. destruct (request_timeout_id n) eqn:E.
    - split_and!; [intros; apply acct_refl|done|done|by rewrite E].
    - cbn. split_and!; [|done|done|by eexists]. intros k.
      exact (acct_trans _ 0 0 0 0 _ _ _ (mv_acct _ _ _ _ _ (tr_moves _ _ _ _ _ (trans_draw k n))) (acct_timeout_id k _ _)). }
  destruct Hn1 as (A1 & S1 & C1 & I1). clearbody n1. set (out := timed_out n1).
  set (q := Build_per_type _ _ _ _). assert (Eq : pall q = filter (fun r => out r.1 = false) (pall (request_queue n1))).
  { apply pall_filter. }
  set (n2 := expire_requests _ _).
  assert (A2 : (forall k, acct k 0 0 n n2) /\ suspended n2 = false /\ request_queue n2 = q /\
               request_timeout_id n2 = request_timeout_id n1).
  { unfold n2, expire_requests.
    pose proof (foldl_failure true error_path_build_timeout plain (Some (bs "Timed out waiting for path build."))
                  (filter (fun r => timed_out (n1 <| request_queue := q |>) r.1 = true) (pall (request_queue n1)))
                  (n1 <| request_queue := q |>)) as (Q & R & _).
    split_and!; [intros k|..|exact Q|exact R].
    - refine (acct_trans _ 0 0 0 0 _ _ _ (A1 k) _). eapply acct_less; [|apply mv_acct, tr_moves, trans_foldl_failure].
      apply less_queue. rewrite Eq. apply (filter_partition (fun r => out r.1)).
    - rewrite (mv_suspended 0 _ _ _ _ (tr_moves 0 _ _ _ _ (trans_foldl_failure 0 _ _ _ _ _ _))). exact S1. }
  destruct A2 as (A2 & S2 & Q2 & R2). clearbody n2. destruct (existsb _ _) eqn:Er.
  - split_and!; [intros k|exact S2|].
    + exact (acct_trans _ 0 0 0 0 _ _ _ (A2 k) (mv_acct _ _ _ _ _ (tr_moves _ _ _ _ _ (trans_task k _ (TCheckTimeouts true) n2)))).
    + split; cbn; intros _; apply Exists_app; right; by constructor.
  - split_and!; [intros k|exact S2|].
    + exact (acct_trans _ 0 0 0 0 _ _ _ (A2 k) (acct_timeout_id k _ _)).
    + split; cbn; [by intros []|]. rewrite Q2, Eq. intros Hx. exfalso. apply not_true_iff_false in Er. apply Er.
      apply existsb_exists. apply Exists_exists in Hx as (r & Hr & Hx). exists r.
      split; [by apply list_elem_of_In|by apply bool_decide_eq_true].
Qed.

Lemma check_skip arg n :
  suspended n = true \/ request_timeout_id n <> arg -> check_request_queue_timeouts arg n = n.
Proof.
  intros Hn. unfold check_request_queue_timeouts. destruct (suspended n) eqn:E; [done|].
  destruct Hn as [Hn|Hn]; [discriminate|]. by rewrite bool_decide_false.
Qed.
Lemma acct_check k arg n : acct k 0 0 n (check_request_queue_timeouts arg n).
Proof.
  destruct (suspended n) eqn:Es; [rewrite check_skip by auto; apply acct_refl|].
  destruct (decide (request_timeout_id n = arg)); [|rewrite check_skip by auto; apply acct_refl].
  by apply check_run.
Qed.

(** ** Closing *)

Lemma inv_fmap_links f n :
  (forall l, lk_node (f l) = lk_node l /\ lk_pending (f l) = lk_pending l /\ lk_raced (f l) = lk_raced l) -> inv n -> inv (n <| links ::= fmap f |>).
Proof.
  intros Hf I. pose proof (inv_flight n I) as I4. pose proof (inv_pending n I) as I5.
  assert (Hc : forall c, conn_ok (links n) c -> conn_ok (f <$> links n) c).
  { intros c (i & l & ? & Hl & ?). exists i, (f l). rewrite list_lookup_fmap, Hl. split_and!; [done|done|].
    by rewrite (proj1 (Hf l)). }
  revert I. apply inv_links; try reflexivity; cbn; [done| |].
  - eapply Forall_impl; [exact I4|]. auto.
  - intros i l Hl. rewrite list_lookup_fmap in Hl. apply fmap_Some in Hl as (l0 & Hl & ->).
    destruct (Hf l0) as (_ & -> & ->). by apply I5.
Qed.
Lemma inv_alter_links f i n :
  (forall l, lk_node (f l) = lk_node l /\ lk_pending (f l) = lk_pending l /\ lk_raced (f l) = lk_raced l) -> inv n -> inv (n <| links ::= alter f i |>).
Proof.
  intros Hf I. pose proof (inv_flight n I) as I4. pose proof (inv_pending n I) as I5.
  assert (Hc : forall c, conn_ok (links n) c -> conn_ok (alter f i (links n)) c).
  { intros c Hc. apply conn_ok_alter; [|done]. intros l. apply Hf. }
  revert I. apply inv_links; try reflexivity; cbn; [done| |].
  - eapply Forall_impl; [exact I4|]. auto.
  - intros j l Hl. destruct (decide (i = j)) as [->|Hij].
    + rewrite list_lookup_alter_eq in Hl. apply fmap_Some in Hl as (l0 & Hl & ->). destruct (Hf l0) as (_ & -> & ->). by apply I5.
    + rewrite list_lookup_alter_ne in Hl by done. by apply I5.
Qed.

Lemma trans_close k n : trans k 0 0 n (_close_connections n).
Proof.
  unfold _close_connections. cbv zeta. set (n1 := n <| links ::= fmap close_link |>).
  assert (T1 : trans k 0 0 n n1).
  { apply trans_accounts; [by split|]. apply inv_fmap_links. intros l. unfold close_link. by destruct (lk_state l). }
  clearbody n1. eapply trans_seq0; [exact T1|]. set (q := pall (request_queue n1)).
  set (n2 := foldl _ _ q). peel1. peel1. peel1.
  assert (T2 : trans k 0 0 n1 n2).
  { eapply trans_less; [apply (less_queue k pempty n1 q); done| |done|done|apply trans_foldl_failure].
    intros _ [W1 W2]. split; cbn; [done|]. by intros []%Exists_nil. }
  clearbody n2. peel1. eapply trans_seq0; [exact T2|]. apply trans_accounts; [by split|].
  intros [I1 I2 I3 I4 Ic I5]. split; cbn; [by intros [] ? []%not_elem_of_nil|by intros ? ? []%not_elem_of_nil|constructor|exact I4|exact Ic|exact I5].
Qed.

(** ** Events *)

Lemma trans_connected k c n : trans k 0 0 n (connected c n).
Proof.
  unfold connected. destruct (links n !! c) as [l|] eqn:El; [|apply trans_refl].
  destruct (lk_state l) as [cb| |]; [|apply trans_refl..]. eapply trans_seq0; [|apply trans_connection_ready].
  - apply trans_accounts; [by split|]. by apply inv_alter_links.
  - intros _ _. exists c, (set_link_state Open l). cbn. by rewrite list_lookup_alter_eq, El.
Qed.

Lemma trans_drop_paths_of k c target n t : trans k 0 0 n (drop_paths_of c target n t).
Proof.
  unfold drop_paths_of. destruct (list_find _ _) as [[i p]|] eqn:E; [|apply trans_refl].
  apply list_find_Some in E as (Hl & _ & _). apply trans_drop. intros I. by eapply (inv_paths n I t), list_elem_of_lookup_2.
Qed.

Lemma trans_closed k c timeout n : trans k 0 0 n (connection_closed c timeout n).
Proof.
  unfold connection_closed. destruct (links n !! c) as [l|] eqn:El; [|apply trans_refl]. cbv zeta.
  set (n1 := n <| links ::= _ |>).
  assert (T1 : trans k 0 0 n n1) by (apply trans_accounts; [by split|]; by apply inv_alter_links). clearbody n1.
  set (n2 := match lk_state l with Opening cb => _ | _ => n1 end).
  assert (T2 : trans k 0 0 n n2).
  { unfold n2. destruct (lk_state l); [|done..]. eapply trans_seq0; [exact T1|by apply trans_connection_ready]. }
  clearbody n2. eapply trans_seq0; [exact T2|]. set (n3 := n2 <| unused_connections ::= _ |>).
  assert (T3 : trans k 0 0 n2 n3).
  { apply trans_accounts; [by split|]. intros [I1 I2 I3 I4 Ic I5]. split; [exact I1|exact I2| |exact I4|exact Ic|exact I5]. cbn.
    apply Forall_forall. intros u [_ Hu]%list_elem_of_filter. by eapply Forall_forall in I3. }
  clearbody n3. set (n4 := foldl _ n3 _).
  assert (T4 : trans k 0 0 n2 n4).
  { eapply trans_seq0; [exact T3|]. apply trans_foldl0. intros. apply trans_drop_paths_of. }
  clearbody n4. destruct timeout; [peel1|]; peel1; exact T4.
Qed.

Lemma trans_after_answer k c n : trans k 0 0 n (after_answer c n).
Proof. unfold after_answer. destruct (has_pending_requests n c); [apply trans_refl|apply trans_clear_drops]. Qed.

(** What is done with the answer of a command, after it was taken out. *)
Lemma trans_answer k i c m n :
  in_flight n !! i = Some c -> trans k 0 0 n (answer c m (n <| in_flight := delete i (in_flight n) |>)).
Proof.
  intros Hl. destruct (outputs_cmd (cmd_conn c) (delete i (in_flight n)) n) as [Ec Eo].
  eapply trans_less; [by apply (less_cmd k i c)|intros _; apply watched_cmd|exact Ec|exact Eo|]. clear Ec Eo.
  destruct c as [conn_info info cb|conn_info id]; cbn [answer cmd_conn cmd_owes cmd_budget]; cbv zeta.
  - set (n1 := remove_pending_request _ _). clearbody n1.
    destruct (validate_response m) as [[code body]|[code h msg|msg|]].
    + eapply trans_then0; [|apply trans_after_answer]. eapply trans_weaken; [|apply trans_respond].
      apply Nat.mul_le_mono_l. unfold answer_budget. lia.
    + apply trans_handle_errors. intros. apply trans_respond.
    + apply trans_handle_errors. intros. apply trans_respond.
    + apply trans_break.
  - set (n1 := remove_pending_request _ _). clearbody n1.
    destruct (validate_bencoded m) as [[code body]|[code h msg|msg|]];
      [|apply trans_seed_result|apply trans_seed_result|apply trans_break].
    destruct (bt_list_parse body) as [[l b]|]; [|apply trans_seed_result].
    destruct (bt_service_nodes l) as [nodes|e].
    + eapply trans_then0; [|apply trans_after_answer]. apply trans_seed_result.
    + destruct e; first [apply trans_break | apply trans_seed_result].
Qed.

(** A scheduled call other than a check of the timeouts. *)
Lemma trans_run_task k t n : ~ is_check t -> trans k (task_owes k t) (task_budget k t) n (run_task t n).
Proof.
  intros Ht. destruct t as [id t|id| |id|id|t found|info cb|info cb|b| |[pk cb|count id]]; cbn [run_task].
  - apply trans_build_path.
  - apply trans_establish_and_store.
  - cbn. eapply trans_seq0; [apply trans_draw|apply trans_establish_and_store].
  - apply trans_refresh.
  - apply trans_refresh_seed.
  - apply trans_build_if_needed.
  - apply trans_send_onion.
  - apply trans_enqueue.
  - by destruct Ht.
  - cbn. peel.
  - apply trans_get_swarm.
  - apply trans_random_nodes.
Qed.

Lemma watched_delete i delay t n :
  tasks n !! i = Some (delay, t) -> ~ is_check t -> watched n -> watched (n <| tasks := delete i (tasks n) |>).
Proof.
  intros Hl Ht [W1 W2].
  assert (He : forall P : Z * task -> Prop, ~ P (delay, t) -> Exists P (tasks n) -> Exists P (delete i (tasks n))).
  { intros P HP. rewrite (delete_Permutation _ _ _ Hl) at 1. by intros [Hx|Hx]%Exists_cons. }
  split; cbn.
  - intros Hx. apply He; [|by apply W1]. cbn. intros E. apply Ht. by rewrite E.
  - intros Hx. apply He; [done|by apply W2].
Qed.

(** ** Calls of the application

    What the parts of a call on the thread of the application keep: the accounts, and apart from them
    the invariant. *)

Record flows (k d e : nat) (n n' : Network) : Prop := {
  fl_broken : broken n' = false -> broken n = false;
  fl_le : (settled k n' + waiting k n' <= settled k n + waiting k n + d)%nat;
  fl_eq : broken n' = false -> (settled k n' + waiting k n' = settled k n + waiting k n + d)%nat;
  fl_budget : (sent k n' + budget k n' <= sent k n + budget k n + e)%nat;
  fl_suspended : suspended n' = suspended n;
  fl_watched : suspended n = false -> watched n -> watched n'
}.
Lemma moves_flows k d e n n' : moves k d e n n' -> flows k d e n n'.
Proof. by intros [[A1 A2 A3 A4 A5] As Aw]. Qed.
Lemma flows_moves k d e n n' : flows k d e n n' -> (inv n -> inv n') -> moves k d e n n'.
Proof. by intros [] Hi. Qed.
Lemma trans_flows k d e n n' : trans k d e n n' -> flows k d e n n'.
Proof. intros [M _ _]. by apply moves_flows. Qed.
Lemma trans_inv k d e n n' : trans k d e n n' -> inv n -> inv n'.
Proof. intros [[A _ _] _ _]. apply (ac_inv _ _ _ _ _ A). Qed.
Lemma flows_weaken k d e e' n n' : (e <= e')%nat -> flows k d e n n' -> flows k d e' n n'.
Proof. intros He []. split; [done..|lia|done|done]. Qed.
Lemma flows_then k d e n n1 n2 : trans k 0 0 n n1 -> flows k d e n1 n2 -> flows k d e n n2.
Proof.
  intros [[[A1 A2 A3 A4 A5] As Aw] _ _] [B1 B2 B3 B4 Bs Bw]. split; [auto|lia| |lia|congruence|].
  - intros Hb. specialize (B3 Hb). specialize (A4 (B1 Hb)). lia.
  - intros Hs Hw. apply Bw; [congruence|auto].
Qed.

(** The call is taken out, and a new one put in. *)
Lemma flows_call k i c n n' :
  calls n !! i = Some c -> flows k (call_owes k c) (call_budget k c) (n <| calls := delete i (calls n) |>) n' -> flows k 0 0 n n'.
Proof.
  intros Hl [B1 B2 B3 B4 Bs Bw]. pose proof (sum_delete (call_owes k) _ _ _ Hl) as E1.
  pose proof (sum_delete (call_budget k) _ _ _ Hl) as E2. unfold settled, waiting, sent, budget in *. cbn in *.
  split; [done|..]; unfold settled, waiting, sent, budget; [lia| |lia|done|].
  - intros Hb. specialize (B3 Hb). lia.
  - intros Hs [W1 W2]. by apply Bw.
Qed.
Lemma flows_add_call k c n : flows k (call_owes k c) (call_budget k c) n (add_call c n).
Proof.
  split; [done|unfold settled, waiting; cbn; rewrite sum_app, sum_one; lia..|unfold sent, budget; cbn; rewrite sum_app, sum_one; lia|done|].
  intros _ [W1 W2]. by split.
Qed.
Lemma inv_del_call i c n :
  calls n !! i = Some c -> (forall j, posting j c = 0%nat) -> inv n -> inv (n <| calls := delete i (calls n) |>).
Proof.
  intros Hl Hp [I1 I2 I3 I4 Ic I5]. split; cbn; [done..|by apply Forall_delete|].
  intros j l Hj Hr. rewrite (I5 j l Hj Hr). pose proof (sum_delete (posting j) _ _ _ Hl) as E. rewrite Hp in E. f_equal. lia.
Qed.
Lemma inv_add_call c n : call_ok (links n) c -> (forall j, posting j c = 0%nat) -> inv n -> inv (add_call c n).
Proof.
  intros Hc Hp [I1 I2 I3 I4 Ic I5]. split; cbn; [done..| |].
  - apply Forall_app. by split; [|constructor].
  - intros j l Hj Hr. rewrite (I5 j l Hj Hr), sum_app, sum_one, Hp. f_equal. lia.
Qed.

(** The end of an increment of the counter: the call goes on to post its command. *)
Lemma inv_count v c info cb n :
  conn_ok (links n) c -> inv n -> inv (add_call (CallRequest stg_post c info cb) (end_add_pending_request v c n)).
Proof.
  intros Hc [I1 I2 I3 I4 Ic I5]. pose proof Hc as (i & _ & Hi & _).
  unfold end_add_pending_request. rewrite (write_pending_links _ _ i) by done.
  set (f := fun l => set_pending _ _ l).
  assert (Hf : forall c, conn_ok (links n) c -> conn_ok (alter f i (links n)) c) by (intros; by apply conn_ok_alter).
  split; cbn.
  - intros t p Hin. eapply path_ok_ext; [exact Hf|by eapply I1].
  - intros p t Hin. eapply path_ok_ext; [exact Hf|by eapply I2].
  - eapply Forall_impl; [exact I3|exact Hf].
  - eapply Forall_impl; [exact I4|]. intros a. apply Hf.
  - apply Forall_app. split; [|constructor; [by apply Hf|constructor]].
    eapply Forall_impl; [exact Ic|]. intros a. by apply call_ok_ext.
  - intros j l Hj Hr. apply write_pending_lookup in Hj as (l0 & Hl & Hr0 & ->); [|done]. rewrite sum_app, sum_one. cbn.
    rewrite Hr0, Hi, (I5 j l0 Hl Hr0). destruct (decide (j = i)) as [->|];
      [rewrite decide_True by done|rewrite decide_False by congruence].
    + rewrite Zplus_mod_idemp_l. f_equal. lia.
    + f_equal. lia.
Qed.
(** The command is posted: what was counted as about to be posted is now in flight. *)
Lemma inv_post i c info cb n :
  calls n !! i = Some (CallRequest stg_post c info cb) -> inv n -> inv (post_command c info cb (n <| calls := delete i (calls n) |>)).
Proof.
  intros Hl [I1 I2 I3 I4 Ic I5]. pose proof (Forall_lookup_1 _ _ _ _ Ic Hl) as Hc. split; cbn; [done..| | |].
  - apply Forall_app. by split; [|constructor].
  - by apply Forall_delete.
  - intros j l Hj Hr. rewrite (I5 j l Hj Hr). pose proof (sum_delete (posting j) _ _ _ Hl) as E. cbn in E.
    rewrite sum_app, sum_one. unfold on_conn at 3. cbn. f_equal. lia.
Qed.
Lemma flows_post k c info cb n :
  flows k (cb_owes k cb) (cb_owes k cb * (1 + answer_budget info cb)) n (post_command c info cb n).
Proof.
  split; [done|unfold settled, waiting; cbn; rewrite !sum_app, !sum_one; cbn; lia..|
    unfold sent, budget; cbn; rewrite !sum_app, !sum_one; cbn; lia|done|].
  intros _ [W1 W2]. by split.
Qed.

Lemma flows_call_throws k caught id e b n :
  flows k (if decide (id = k) then 1 else 0)%nat b n (call_throws caught id e n).
Proof.
  unfold call_throws. destruct (is_std_exception e); [|apply trans_flows, trans_break].
  apply (flows_weaken _ _ 0); [lia|]. destruct caught; apply moves_flows.
  - pose proof (moves_report k (OutResponse id false false (-1) [] (Some (what e []))) n) as M.
    unfold out_owes in M. cbn in M. by rewrite Nat.add_0_r in M.
  - exact (moves_report k (OutThrown id e) n).
Qed.
Lemma inv_call_throws caught id e n : inv n -> inv (call_throws caught id e n).
Proof. unfold call_throws. destruct (is_std_exception e); by apply inv_same. Qed.

(** The next part of a call, after the call was taken out. *)
Lemma flows_resume k v c n : flows k (call_owes k c) (call_budget k c) n (resume_call v c n).
Proof.
  destruct c as [caught info id|caught info path id|s c info cb]; cbn [resume_call].
  - pose proof (request_path_spec info n) as R. destruct (request_path info n) as [path n1].
    destruct R as (T & _). eapply flows_then; [apply T|]. destruct path as [path|]; [exact (flows_add_call k (CallBuild caught info path id) n1)|].
    exact (trans_flows _ _ _ _ _ (trans_task k 0 (TEnqueue info (CbUser id)) n1)).
  - pose proof (build_request_spec (call_throws caught id) info path (CbUser id) n) as B.
    destruct (build_request _ _ _ _ n) as [[[info' cb']|] n2].
    + destruct B as (-> & Hcb & Hle). eapply flows_then; [apply trans_draw|].
      pose proof (flows_add_call k (CallRequest stg_connection (op_conn_info path) info' cb') (next_draw n)) as F.
      cbn [call_owes call_budget] in F |- *. rewrite Hcb in F. eapply flows_weaken; [|exact F]. by apply Nat.mul_le_mono_l.
    + destruct B as [[e ->]|[->|[text ->]]]; [apply flows_call_throws| |].
      * eapply flows_then; [apply trans_draw|apply trans_flows, trans_break].
      * eapply flows_then; [apply trans_draw|exact (trans_flows _ _ _ _ _ (trans_refuse k info (CbUser id) _ _ _ _ _ _))].
  - assert (Hr : forall s t c h r n, flows k (cb_owes k cb) (cb_owes k cb * (1 + answer_budget info cb)) n (respond cb s t c h r n)).
    { intros. eapply flows_weaken; [|apply trans_flows, trans_respond]. apply Nat.mul_le_mono_l. unfold answer_budget. lia. }
    destruct s.
    + destruct (conn_valid n c); [exact (flows_add_call k (CallRequest stg_timeout c info cb) n)|apply Hr].
    + destruct (no_time_left info n); [apply Hr|exact (flows_add_call k (CallRequest stg_count c info cb) n)].
    + destruct (flows_add_call k (CallRequest stg_post c info cb) n) as [F1 F2 F3 F4 F5 F6].
      unfold end_add_pending_request, write_pending. destruct (ci_conn c); [|done]. split; [done..|].
      intros Hs Hw. by destruct (F6 Hs Hw).
    + apply flows_post.
Qed.

Lemma inv_resume i v c n :
  calls n !! i = Some c -> inv n -> inv (resume_call v c (n <| calls := delete i (calls n) |>)).
Proof.
  intros Hl I. pose proof (Forall_lookup_1 _ _ _ _ (inv_calls n I) Hl) as Hok. pose proof (inv_del_call i c n Hl) as Hd.
  set (n0 := n <| calls := delete i (calls n) |>) in *. change (call_ok (links n0) c) in Hok.
  destruct c as [caught info id|caught info path id|s c info cb]; cbn [resume_call].
  - specialize (Hd (fun _ => eq_refl) I). clearbody n0. pose proof (request_path_spec info n0) as R.
    destruct (request_path info n0) as [path n1]. destruct R as (T & El & Ep & Hp).
    apply (trans_inv _ _ _ _ _ (T 0%nat)) in Hd. destruct path as [path|]; [|revert Hd; by apply inv_same].
    apply inv_add_call; [|done..]. rewrite <- Ep in Hp. exact (inv_paths _ Hd _ _ (proj1 Hp)).
  - specialize (Hd (fun _ => eq_refl) I). clearbody n0.
    pose proof (build_request_spec (call_throws caught id) info path (CbUser id) n0) as B.
    destruct (build_request _ _ _ _ n0) as [[[info' cb']|] n2].
    + destruct B as (-> & _). apply inv_add_call; [exact (path_conn _ _ Hok)|done|]. revert Hd. by apply inv_same.
    + destruct B as [[e ->]|[->|[text ->]]]; [by apply inv_call_throws|revert Hd; by apply inv_same|].
      eapply trans_inv; [exact (trans_refuse 0 info (CbUser id) _ _ _ _ _ _)|]. revert Hd. by apply inv_same.
  - assert (Hr : inv n0 -> forall s t c h r, inv (respond cb s t c h r n0)).
    { intros I0 s' t c' h r. eapply trans_inv; [exact (trans_respond 0 cb _ _ _ _ _ _)|done]. }
    destruct s; [specialize (Hd (fun _ => eq_refl) I)..|by apply inv_post]; clearbody n0.
    + destruct (conn_valid n0 c); [by apply inv_add_call|by apply Hr].
    + destruct (no_time_left info n0); [by apply Hr|by apply inv_add_call].
    + by apply inv_count.
Qed.

Lemma moves_resume k i v c n :
  calls n !! i = Some c -> moves k 0 0 n (resume_call v c (n <| calls := delete i (calls n) |>)).
Proof.
  intros Hl. apply flows_moves; [|by apply inv_resume]. by eapply flows_call, flows_resume.
Qed.

(** The requests an event brings in for the callback [k] of the application. *)
Definition issued (k : nat) (e : event) : nat :=
  match e with
  | EvSend _ _ _ _ _ _ _ i | EvUpload _ _ _ _ _ _ i | EvDownload _ _ _ _ i | EvGetSwarm _ i | EvGetRandomNodes _ i =>
      if decide (i = k) then 1 else 0
  | _ => 0
  end.

Lemma moves_send_new k caught dest body pk t pbt type id n :
  moves k (if decide (id = k) then 1 else 0)%nat (15 * if decide (id = k) then 1 else 0)%nat n
    (send_onion_request caught dest body pk t pbt type id n).
Proof.
  unfold send_onion_request. cbn -[add_call]. set (info := make_request _ _ _ _ _ _ _ _).
  apply flows_moves; [|intros I; apply inv_add_call; [done|done|by revert I; apply inv_same]].
  eapply flows_then; [apply trans_draw|].
  eapply flows_weaken; [|exact (flows_add_call k (CallFind caught info id) _)]. cbn [call_budget].
  unfold send_budget. cbn. unfold retry_rank. cbn.
  destruct (decide (id = k)); cbn; lia.
Qed.

Definition changes_suspension (e : event) : Prop := match e with EvSuspend | EvResume => True | _ => False end.
(** The event is a part of a call on a thread of the application. *)
Definition on_caller (e : event) : Prop :=
  match e with EvSend _ _ _ _ _ _ _ _ | EvUpload _ _ _ _ _ _ _ | EvDownload _ _ _ _ _ | EvCall _ _ => True | _ => False end.

(** Every event on the loop or the disk thread but a check of the timeouts, suspending and resuming. *)
Lemma trans_step k e n :
  ~ changes_suspension e -> ~ on_caller e ->
  (forall i, e = EvTask i -> forall delay t, tasks n !! i = Some (delay, t) -> ~ is_check t) ->
  trans k (issued k e) 0 n (step e n).
Proof.
  intros Hs Ha Hc. destruct e; cbn [step issued]; try (by destruct Hs); try (by destruct Ha).
  - peel.
  - unfold take_out. destruct (tasks n !! i) as [[delay t]|] eqn:El; [|apply trans_refl].
    specialize (Hc i eq_refl delay t El). eapply trans_less; [by apply (less_task k i delay t)| |done|done|by apply trans_run_task].
    intros _. by eapply watched_delete.
  - apply trans_connected.
  - apply trans_closed.
  - unfold take_out. destruct (in_flight n !! i) as [c|] eqn:El; [|apply trans_refl]. by apply trans_answer.
  - exact (trans_get_swarm k swarm_pubkey (SwUser id) n).
  - apply trans_random_nodes.
  - apply trans_close.
  - unfold clear_cache. peel.
  - unfold disk_begin. destruct (_ && _); peel.
  - unfold disk_end. destruct (writing_ n); [|apply trans_refl]. cbv zeta. destruct ok; peel.
  - unfold disk_clear. destruct (_ && _); peel.
Qed.
Lemma moves_caller k e n : on_caller e -> moves k (issued k e) (15 * issued k e) n (step e n).
Proof.
  destruct e; intros Ha; try (by destruct Ha); cbn [step issued]; [apply moves_send_new..|].
  unfold take_out. destruct (calls n !! i) as [c|] eqn:El; [by apply moves_resume|apply moves_refl].
Qed.
#[local] Instance is_check_dec t : Decision (is_check t). Proof. destruct t; cbn; apply _. Defined.
#[local] Instance on_caller_dec e : Decision (on_caller e). Proof. destruct e; cbn; apply _. Defined.
Lemma moves_step k e n :
  ~ changes_suspension e ->
  (forall i, e = EvTask i -> forall delay t, tasks n !! i = Some (delay, t) -> ~ is_check t) ->
  moves k (issued k e) (15 * issued k e) n (step e n).
Proof.
  intros Hs Hc. destruct (decide (on_caller e)); [by apply moves_caller|].
  eapply moves_weaken; [|by apply tr_moves, trans_step]. lia.
Qed.

Lemma acct_suspended k b n : acct k 0 0 n (n <| suspended := b |>).
Proof. split; [done|by apply inv_same|unfold settled, waiting; cbn; lia..|unfold sent, budget; cbn; lia]. Qed.

(** A check of the timeouts as a scheduled call. *)
Lemma less_check k i delay b n :
  tasks n !! i = Some (delay, TCheckTimeouts b) -> acct k 0 0 n (step (EvTask i) n).
Proof.
  intros El. cbn [step]. unfold take_out. rewrite El. eapply acct_less; [exact (less_task k i delay (TCheckTimeouts b) n El)|].
  apply acct_check.
Qed.

Lemma acct_step k e n : acct k (issued k e) (15 * issued k e) n (step e n).
Proof.
  destruct e; try (apply mv_acct, moves_step; [by intros []|discriminate]).
  - destruct (tasks n !! i) as [[delay t]|] eqn:El.
    + destruct t; try (apply mv_acct, moves_step; [by intros []|intros ? [= <-] ? ?; rewrite El; by intros [= <- <-] []]).
      by eapply less_check.
    + apply mv_acct, moves_step; [by intros []|]. intros ? [= <-] ? ?. by rewrite El.
  - cbn. unfold suspend. apply (acct_trans _ 0 0 0 0 _ (n <| suspended := true |>)); [apply acct_suspended|apply mv_acct, tr_moves, trans_close].
  - apply acct_suspended.
Qed.

Lemma acct_run k es : forall n,
  acct k (sum (issued k) es) (15 * sum (issued k) es) n (run es n).
Proof.
  induction es as [|e es IH]; intros n; [apply acct_refl|]. rewrite sum_cons, Nat.mul_add_distr_l.
  eapply acct_trans; [apply acct_step|apply IH].
Qed.

Lemma suspended_check arg n : suspended (check_request_queue_timeouts arg n) = suspended n.
Proof.
  destruct (suspended n) eqn:Es; [by rewrite check_skip by auto|].
  destruct (decide (request_timeout_id n = arg)); [|by rewrite check_skip by auto].
  by apply check_run.
Qed.

(** Outside of suspension every request that can time out is watched. *)
Lemma watched_check i delay b n :
  suspended n = false -> watched n -> tasks n !! i = Some (delay, TCheckTimeouts b) ->
  suspended (step (EvTask i) n) = false /\ watched (step (EvTask i) n).
Proof.
  intros Hs [W1 W2] El. cbn [step]. unfold take_out. rewrite El. cbn [run_task].
  set (n0 := n <| tasks := delete i (tasks n) |>).
  destruct (decide (request_timeout_id n0 = (if b then request_timeout_id n0 else None))) as [Hid|Hid].
  { destruct (check_run _ n0 Hs Hid) as (_ & ? & ?). done. }
  rewrite check_skip by auto. split; [done|]. destruct b; [done|].
  assert (Hl : Exists (fun t => t.2 = TCheckTimeouts true) (delete i (tasks n))).
  { assert (Hx : is_Some (request_timeout_id n)) by (cbn in Hid; destruct (request_timeout_id n); [by eexists|done]).
    specialize (W1 Hx). rewrite (delete_Permutation _ _ _ El) in W1. by apply Exists_cons in W1 as [|W1]. }
  split; cbn; intros _; [done|]. eapply Exists_impl; [exact Hl|]. by intros [? ?] ->.
Qed.
Lemma watched_step e n :
  ~ changes_suspension e -> suspended n = false -> watched n -> suspended (step e n) = false /\ watched (step e n).
Proof.
  intros He Hs Hw.
  assert (Hplain : (forall i, e = EvTask i -> forall delay t, tasks n !! i = Some (delay, t) -> ~ is_check t) ->
                   suspended (step e n) = false /\ watched (step e n)).
  { intros Hc. destruct (moves_step 0 e n He Hc) as [_ Ts Tw]. rewrite Ts. auto. }
  destruct e; try (apply Hplain; discriminate).
  destruct (tasks n !! i) as [[delay t]|] eqn:El.
  - destruct t; try (apply Hplain; intros ? [= <-] ? ?; rewrite El; by intros [= <- <-] []). by eapply watched_check.
  - apply Hplain. intros ? [= <-] ? ?. by rewrite El.
Qed.
Lemma watched_run es : forall n,
  Forall (fun e => ~ changes_suspension e) es -> suspended n = false -> watched n ->
  suspended (run es n) = false /\ watched (run es n).
Proof.
  induction es as [|e es IH]; intros n Hes Hs Hw; [done|]. apply Forall_cons in Hes as [He Hes].
  destruct (watched_step e n He Hs Hw). by apply IH.
Qed.

(** ** Exceptions

    The calls of the C++ interface that may still throw to their caller, and those an event begins. *)
Definition call_uncaught (k : nat) (c : app_call) : nat :=
  match c with CallFind false _ i | CallBuild false _ _ i => if decide (i = k) then 1 else 0 | _ => 0 end.
Definition uncaught (k : nat) (n : Network) : nat := sum (call_uncaught k) (calls n).
Definition issued_uncaught (k : nat) (e : event) : nat :=
  match e with
  | EvSend false _ _ _ _ _ _ i | EvUpload false _ _ _ _ _ i | EvDownload false _ _ _ i => if decide (i = k) then 1 else 0
  | _ => 0
  end.

Lemma trans_thrown k d e n n' : trans k d e n n' -> thrown k n' = thrown k n /\ uncaught k n' = uncaught k n.
Proof. intros [_ Tc Tt]. split; [done|]. unfold uncaught. by rewrite Tc. Qed.
Lemma add_call_thrown k c n :
  thrown k (add_call c n) = thrown k n /\ uncaught k (add_call c n) = (uncaught k n + call_uncaught k c)%nat.
Proof. split; [done|]. unfold uncaught. cbn. by rewrite sum_app, sum_one. Qed.
Lemma call_throws_thrown k caught id e n :
  (thrown k (call_throws caught id e n) <= thrown k n + if caught then 0 else if decide (id = k) then 1 else 0)%nat /\
  uncaught k (call_throws caught id e n) = uncaught k n.
Proof.
  unfold call_throws. destruct (is_std_exception e); [|split; [cbn; unfold thrown; cbn; lia|done]]. split; [|done].
  unfold thrown. cbn. rewrite sum_app, sum_one. destruct caught; cbn; lia.
Qed.

Lemma resume_thrown k v c n :
  (thrown k (resume_call v c n) + uncaught k (resume_call v c n) <= thrown k n + uncaught k n + call_uncaught k c)%nat.
Proof.
  destruct c as [caught info id|caught info path id|s c info cb]; cbn [resume_call].
  - pose proof (request_path_spec info n) as R. destruct (request_path info n) as [path n1].
    destruct R as (T & _). destruct (trans_thrown _ _ _ _ _ (T k)) as [E1 E2]. destruct path as [path|].
    + destruct (add_call_thrown k (CallBuild caught info path id) n1) as [-> ->]. cbn. lia.
    + destruct (trans_thrown _ _ _ _ _ (trans_task k 0 (TEnqueue info (CbUser id)) n1)) as [F1 F2].
      unfold call_soon. lia.
  - pose proof (build_request_spec (call_throws caught id) info path (CbUser id) n) as B.
    destruct (trans_thrown _ _ _ _ _ (trans_draw k n)) as [D1 D2].
    destruct (build_request _ _ _ _ n) as [[[info' cb']|] n2].
    + destruct B as (-> & _). destruct (add_call_thrown k (CallRequest stg_connection (op_conn_info path) info' cb') (next_draw n)) as [-> ->].
      cbn. lia.
    + destruct B as [[e ->]|[->|[text ->]]].
      * destruct (call_throws_thrown k caught id e n) as [Ht ->]. destruct caught; cbn in *; lia.
      * destruct (trans_thrown k 0 0 _ _ (trans_break k 0 0 (next_draw n))) as [F1 F2]. lia.
      * destruct (trans_thrown _ _ _ _ _ (trans_refuse k info (CbUser id) false false error_building_onion_request plain text (next_draw n))) as [F1 F2]. lia.
  - assert (Hr : forall s t c h r, (thrown k (respond cb s t c h r n) + uncaught k (respond cb s t c h r n) <= thrown k n + uncaught k n + 0)%nat).
    { intros s' t c' h r. destruct (trans_thrown _ _ _ _ _ (trans_respond k cb s' t c' h r n)) as [F1 F2]. lia. }
    assert (Ha : forall s n', thrown k n' = thrown k n -> uncaught k n' = uncaught k n ->
      (thrown k (add_call (CallRequest s c info cb) n') + uncaught k (add_call (CallRequest s c info cb) n') <= thrown k n + uncaught k n + 0)%nat).
    { intros s' n' E1 E2. destruct (add_call_thrown k (CallRequest s' c info cb) n') as [-> ->]. cbn. lia. }
    destruct s; cbn [call_uncaught].
    + destruct (conn_valid n c); [by apply Ha|apply Hr].
    + destruct (no_time_left info n); [apply Hr|by apply Ha].
    + unfold end_add_pending_request, write_pending. destruct (ci_conn c); by apply Ha.
    + unfold post_command, uncaught, thrown. cbn. rewrite sum_app, sum_one. cbn. lia.
Qed.

(** Checks of the timeouts, and suspending. *)
Lemma check_thrown k arg n :
  let n' := check_request_queue_timeouts arg n in thrown k n' = thrown k n /\ uncaught k n' = uncaught k n.
Proof.
  cbv zeta. unfold check_request_queue_timeouts. destruct (suspended n); [done|]. destruct (negb _); [done|].
  set (n1 := match request_timeout_id n with Some _ => n | None => _ end).
  assert (E1 : thrown k n1 = thrown k n /\ uncaught k n1 = uncaught k n) by (unfold n1; by destruct (request_timeout_id n)).
  clearbody n1. destruct E1 as [<- <-]. set (n2 := expire_requests _ _).
  assert (E2 : thrown k n2 = thrown k n1 /\ uncaught k n2 = uncaught k n1)
    by exact (trans_thrown _ _ _ _ _ (trans_foldl_failure k _ _ _ _ _ _)).
  clearbody n2. by destruct (existsb _ _).
Qed.
Lemma thrown_step k e n :
  (thrown k (step e n) + uncaught k (step e n) <= thrown k n + uncaught k n + issued_uncaught k e)%nat.
Proof.
  assert (Hnew : forall caught dest body pk t pbt type id,
    (thrown k (send_onion_request caught dest body pk t pbt type id n) + uncaught k (send_onion_request caught dest body pk t pbt type id n)
     <= thrown k n + uncaught k n + if caught then 0 else if decide (id = k) then 1 else 0)%nat).
  { intros. unfold send_onion_request. cbn -[add_call]. rewrite (proj1 (add_call_thrown _ _ _)), (proj2 (add_call_thrown _ _ _)).
    destruct caught; cbn; unfold thrown, uncaught; cbn; lia. }
  assert (Hsame : forall n', thrown k n' = thrown k n /\ uncaught k n' = uncaught k n -> (thrown k n' + uncaught k n' <= thrown k n + uncaught k n + 0)%nat)
    by (intros n' []; lia).
  destruct e; try (apply Hsame; eapply trans_thrown, trans_step; [by intros []..|discriminate]).
  - destruct (tasks n !! i) as [[delay t]|] eqn:El.
    2:{ apply Hsame. cbn [step]. unfold take_out. by rewrite El. }
    destruct (decide (is_check t)) as [Ht|Ht].
    + apply Hsame. destruct t; try (by destruct Ht). cbn [step]. unfold take_out. rewrite El. cbn [run_task].
      exact (check_thrown k _ (n <| tasks := delete i (tasks n) |>)).
    + apply Hsame. eapply trans_thrown, trans_step; [by intros []..|]. intros ? [= <-] ? ?. rewrite El. by intros [= <- <-].
  - exact (Hnew caught dest body swarm_pubkey request_timeout path_build_timeout type id).
  - exact (Hnew caught _ _ _ request_timeout path_build_timeout _ id).
  - exact (Hnew caught _ _ _ request_timeout path_build_timeout _ id).
  - cbn [step issued_uncaught]. unfold take_out. destruct (calls n !! i) as [c|] eqn:El; [|lia].
    pose proof (resume_thrown k v c (n <| calls := delete i (calls n) |>)) as R.
    pose proof (sum_delete (call_uncaught k) _ _ _ El) as E. unfold uncaught, thrown in *. cbn in R. lia.
  - apply Hsame. exact (trans_thrown _ _ _ _ _ (trans_close k (n <| suspended := true |>))).
  - by apply Hsame.
Qed.
Lemma thrown_run k es : forall n,
  (thrown k (run es n) + uncaught k (run es n) <= thrown k n + uncaught k n + sum (issued_uncaught k) es)%nat.
Proof.
  induction es as [|e es IH]; intros n; [cbn; lia|]. rewrite sum_cons. cbn [run foldl].
  pose proof (thrown_step k e n). pose proof (IH (step e n)) as Hr. unfold run in Hr. lia.
Qed.
End Operations.
