(* ===== verification/NetworkDataFacts.v ===== *)
(** * Facts about service nodes, swarms and delays

    The text form of service nodes is read back, swarms partition the nodes and the one that is
    picked for an account is the nearest on the ring of swarm ids, node lists are combined to the
    nodes they share, and delays are bounded. *)
From S2P Require Import Prelude OMap Util Internal BtValue Bencode ThirdParty OnionRequest NetworkData NetworkResponse.

(** ** Splitting and joining *)

Lemma find_sub_char (c : ascii) (x rest : bytes) : c ∉ x -> find_sub [c] (x ++ c :: rest) = Some (length x).
Proof.
  induction x as [|a x IH]; intros Hx; cbn [app find_sub length take].
  - by rewrite bool_decide_eq_true_2.
  - apply not_elem_of_cons in Hx as [Ha Hx]. rewrite bool_decide_eq_false_2 by congruence. by rewrite IH.
Qed.
Lemma find_sub_absent (c : ascii) (x : bytes) : c ∉ x -> find_sub [c] x = None.
Proof.
  induction x as [|a x IH]; intros Hx; cbn [find_sub length take].
  - by rewrite bool_decide_eq_false_2.
  - apply not_elem_of_cons in Hx as [Ha Hx]. rewrite bool_decide_eq_false_2 by congruence. by rewrite IH.
Qed.

Lemma split_loop_join (c : ascii) (l : list bytes) : forall fuel results,
  l <> [] -> Forall (fun x => c ∉ x) l -> (length (join_with [c] l) < fuel)%nat ->
  split_loop fuel (join_with [c] l) [c] false results = Ok (results ++ l).
Proof.
  induction l as [|x l IH]; intros fuel results Hne Hl Hf; [done|].
  apply Forall_cons in Hl as [Hx Hl]. destruct fuel as [|fuel]; [lia|]. destruct l as [|y l].
  - cbn [join_with split_loop]. by rewrite find_sub_absent.
  - change (join_with [c] (x :: y :: l)) with (x ++ [c] ++ join_with [c] (y :: l)) in *. cbn [app] in *.
    cbn [split_loop]. rewrite find_sub_char by done. cbn [negb orb].
    rewrite take_app_length, <- drop_drop, drop_app_length. cbn [length drop].
    rewrite length_app in Hf. cbn [length] in Hf. rewrite IH by (done || lia). by rewrite <- app_assoc.
Qed.
Lemma split_join (c : ascii) l :
  l <> [] -> Forall (fun x => c ∉ x) l -> split (join_with [c] l) [c] false = Ok l.
Proof. intros Hne Hl. unfold split. cbn [is_empty]. by rewrite split_loop_join by (done || lia). Qed.

(** The characters of the numbers. *)
Definition numeric (c : ascii) : Prop := in_range "0" "9" c = true \/ c = "-"%char.

Definition digit (c : ascii) : Prop := in_range "0" "9" c = true.

Lemma digit_char_digit d : 0 <= d < 10 -> digit (digit_char d).
Proof.
  intros Hd. unfold digit, in_range, digit_char. rewrite byte_val_of by lia.
  change (byte_val "0") with 48. change (byte_val "9") with 57. bool_prop. lia.
Qed.
Lemma print_digits_digit fuel : forall n acc, 0 <= n -> Forall digit acc -> Forall digit (print_digits fuel n acc).
Proof.
  induction fuel as [|fuel IH]; intros n acc Hn Ha; [done|]. cbn [print_digits].
  assert (Forall digit (digit_char (n mod 10) :: acc)).
  { apply Forall_cons. split; [|done]. apply digit_char_digit. by apply Z.mod_pos_bound. }
  destruct (n / 10 =? 0); [done|]. apply IH; [|done]. by apply Z.div_pos.
Qed.
Lemma print_nat_digit n : 0 <= n -> Forall digit (print_nat n).
Proof. intros Hn. by apply print_digits_digit. Qed.
Lemma print_int_digit z : 0 <= z -> Forall digit (print_int z).
Proof. intros Hz. unfold print_int. destruct (Z.ltb_spec z 0); [lia|]. by apply print_nat_digit. Qed.
Lemma print_int_numeric z : Forall numeric (print_int z).
Proof.
  assert (Hi : forall l, Forall digit l -> Forall numeric l) by (intros l Hl; eapply Forall_impl; [exact Hl|]; by left).
  unfold print_int. destruct (Z.ltb_spec z 0); [|by apply Hi, print_nat_digit].
  apply Forall_cons. split; [by right|]. apply Hi, print_nat_digit. lia.
Qed.
Lemma not_in_print_int c z : ~ numeric c -> c ∉ print_int z.
Proof. intros Hc Hin. apply Hc. pose proof (print_int_numeric z) as Hf. rewrite Forall_forall in Hf. auto. Qed.

Lemma elem_join sep l c : c ∈ join_with sep l -> c ∈ sep \/ exists x, x ∈ l /\ c ∈ x.
Proof.
  induction l as [|x l IH]; [by intros ?%elem_of_nil|]. destruct l as [|y l].
  - intros Hc. right. exists x. set_solver.
  - change (join_with sep (x :: y :: l)) with (x ++ sep ++ join_with sep (y :: l)). rewrite !elem_of_app.
    intros [Hc|[Hc|Hc]]; [right; exists x; set_solver|by left|].
    destruct (IH Hc) as [?|(z & ? & ?)]; [by left|right; exists z; set_solver].
Qed.

(** ** Versions and nodes in the cache file *)

Section Nodes.
Context `{Quic} `{TextEncodings}.

Definition int32_ok (z : Z) : Prop := INT32_MIN <= z <= INT32_MAX.

Lemma parse_numbers v : forall acc,
  Forall int32_ok v ->
  foldM (fun result piece => match quic_parse_int INT32_MIN INT32_MAX piece with
                             | Some z => Ok (result ++ [z])
                             | None => Throw InvalidArgument
                             end) acc (print_int <$> v) = Ok (acc ++ v).
Proof.
  induction v as [|z v IH]; intros acc Hv; cbn; [by rewrite app_nil_r|].
  apply Forall_cons in Hv as [Hz Hv]. rewrite parse_int_print by done. cbn. rewrite IH by done. by rewrite <- app_assoc.
Qed.

Lemma parse_version_text v :
  v <> [] -> Forall int32_ok v -> parse_version (version_text v) true = Ok (trim_version v).
Proof.
  intros Hne Hv. unfold parse_version, version_text. change (bs ".") with ["."%char].
  rewrite split_join.
  - cbn. by rewrite parse_numbers.
  - by destruct v.
  - apply Forall_fmap, Forall_true. intros z. apply not_in_print_int. by intros [?|?].
Qed.

(** A node as the lists of service nodes give it. *)
Record node_ok (s : service_node) : Prop := {
  nk_key : size_of (sn_key s) = 32;
  nk_version : sn_version s <> [] /\ Forall int32_ok (sn_version s);
  nk_swarm : 0 <= sn_swarm s <= UINT64_MAX;
  nk_ip : 0 <= sn_ip s < 2 ^ 32;
  nk_port : 0 <= sn_port s <= 65535
}.
Definition trim_node (s : service_node) : service_node :=
  {| sn_key := sn_key s; sn_version := trim_version (sn_version s); sn_swarm := sn_swarm s;
     sn_ip := sn_ip s; sn_port := sn_port s |}.

Definition field_char (c : ascii) : Prop := c <> "|"%char /\ c <> newline.

Lemma hex_char b c : c ∈ to_hex b -> field_char c.
Proof.
  intros Hc. pose proof (is_hex_digits _ c (is_hex_to_hex b) Hc) as Hd.
  by split; intros ->.
Qed.
Lemma ip_char ip c : c ∈ print_ip ip -> field_char c.
Proof.
  intros Hc. pose proof (print_ip_chars ip) as Hf. rewrite Forall_forall in Hf.
  destruct (Hf c Hc) as [Hd| ->]; [|done]. by split; intros ->.
Qed.
Lemma int_char z c : c ∈ print_int z -> field_char c.
Proof.
  intros Hc. pose proof (print_int_numeric z) as Hf. rewrite Forall_forall in Hf.
  destruct (Hf c Hc) as [Hd| ->]; [|done]. by split; intros ->.
Qed.
Lemma version_char v c : c ∈ version_text v -> field_char c.
Proof.
  intros Hc. apply elem_join in Hc as [Hc|(x & Hx & Hc)].
  - apply list_elem_of_singleton in Hc as ->. done.
  - apply list_elem_of_fmap in Hx as (z & -> & _). by eapply int_char.
Qed.

Lemma node_fields s :
  Forall (fun x => forall c, c ∈ x -> field_char c)
    [print_ip (sn_ip s); print_int (sn_port s); version_text (sn_version s); to_hex (sn_key s); print_int (sn_swarm s)].
Proof. repeat (apply Forall_cons; split); eauto using ip_char, int_char, version_char, hex_char. Qed.

Lemma node_roundtrip s ignore :
  node_ok s ->
  node_from_disk (node_to_disk s) ignore =
    if negb ignore && bool_decide (trim_version (sn_version s) = [0]) then Throw InvalidArgument else Ok (trim_node s).
Proof.
  intros [Hk [Hv0 Hv] Hw Hi Hp]. unfold node_from_disk, node_to_disk. change (bs "|") with ["|"%char].
  rewrite split_join; [|done|].
  2:{ eapply Forall_impl; [apply node_fields|]. cbn. intros x Hx Hin. by destruct (Hx _ Hin). }
  cbn [mbind res_bind]. rewrite to_hex_size, Hk, is_hex_to_hex. change (2 * 32 =? 64) with true.
  cbn [negb orb throw_if mbind res_bind]. rewrite parse_int_print by done. rewrite parse_version_text by done. cbn.
  destruct (negb ignore && _); cbn; [done|]. rewrite parse_print_ip by done. cbn.
  by rewrite from_to_hex, parse_int_print.
Qed.

Lemma getlines_line line : forall acc text,
  newline ∉ line -> getlines acc (line ++ newline :: text) = (rev acc ++ line) :: getlines [] text.
Proof.
  induction line as [|c line IH]; intros acc text Hl; cbn [app getlines].
  - rewrite decide_True by done. by rewrite app_nil_r.
  - apply not_elem_of_cons in Hl as [Hc Hl]. rewrite decide_False by congruence. rewrite IH by done.
    cbn [rev]. by rewrite <- app_assoc.
Qed.
Lemma getlines_pool l : getlines [] (pool_text l) = node_to_disk <$> l.
Proof.
  induction l as [|s l IH]; [done|]. change (pool_text (s :: l)) with (node_to_disk s ++ newline :: pool_text l). cbn [fmap list_fmap].
  rewrite getlines_line; [by rewrite IH|]. intros Hin. apply elem_join in Hin as [Hin|(x & Hx & Hin)].
  - by apply list_elem_of_singleton in Hin.
  - pose proof (node_fields s) as Hf. rewrite Forall_forall in Hf. by destruct (Hf x Hx _ Hin).
Qed.

(** What was written is read back, with trimmed versions; nodes of an unknown version are left out. *)
Lemma pool_text_load l :
  Forall node_ok l ->
  load_pool (pool_text l) = filter (fun s => sn_version s <> [0]) (trim_node <$> l).
Proof.
  intros Hl. unfold load_pool. rewrite getlines_pool.
  induction Hl as [|s l Hs Hl IH]; [done|]. cbn [fmap list_fmap omap list_omap]. rewrite node_roundtrip by done. cbn [negb andb].
  case_bool_decide as Hv.
  - rewrite filter_cons_False; [done|]. cbn. tauto.
  - rewrite filter_cons_True by done. by rewrite <- IH.
Qed.
End Nodes.

(** ** Swarms *)

Section Swarms.
Implicit Types (nodes : list service_node) (swarms : list (Z * list service_node)).

Lemma generate_snoc nodes s :
  generate_swarms (nodes ++ [s]) =
  minsert (sn_swarm s) (value_or (mfind (sn_swarm s) (generate_swarms nodes)) [] ++ [s]) (generate_swarms nodes).
Proof. unfold generate_swarms. by rewrite foldl_app. Qed.

(** The swarms are sorted by their id, and hold the nodes that have it in their order. *)
Lemma generate_swarms_spec nodes :
  msorted (generate_swarms nodes) /\
  forall id, mfind id (generate_swarms nodes) =
    let l := filter (fun s => sn_swarm s = id) nodes in if bool_decide (l = []) then None else Some l.
Proof.
  induction nodes as [|s nodes [IHs IHf]] using rev_ind; [split; [apply msorted_nil|done]|].
  rewrite generate_snoc. split; [by apply msorted_minsert|]. intros id. rewrite mfind_minsert, filter_app. cbv zeta.
  destruct (keqb_spec id (sn_swarm s)) as [->|Hid].
  - rewrite filter_cons_True by done. rewrite filter_nil, bool_decide_eq_false_2 by (by intros [? ?]%app_nil).
    rewrite IHf. cbv zeta. by case_bool_decide as Hl; [rewrite Hl|].
  - rewrite filter_cons_False by done. by rewrite filter_nil, app_nil_r, IHf.
Qed.

(** The distance of two ids on the ring of 64-bit numbers. *)
Definition ring_distance (a b : Z) : Z := Z.min ((a - b) mod 2 ^ 64) ((b - a) mod 2 ^ 64).

Definition swarm_id_ok (z : Z) : Prop := 0 <= z < 2 ^ 64.

Lemma lower_bound_spec swarms v :
  msorted swarms ->
  (lower_bound swarms v <= length swarms)%nat /\
  forall i s, swarms !! i = Some s -> if decide (i < lower_bound swarms v)%nat then s.1 < v else v <= s.1.
Proof.
  induction swarms as [|[k l] swarms IH]; intros Hs; [by split|].
  apply msorted_cons in Hs as [Hs Hk]. destruct (IH Hs) as [IHl IHn]. cbn [lower_bound fst].
  destruct (Z.ltb_spec k v) as [Hlt|Hge].
  - split; [cbn; lia|]. intros [|i] s Hi; [by injection Hi as <-|]. specialize (IHn i s Hi).
    repeat case_decide; lia.
  - split; [cbn; lia|]. intros i s Hi. rewrite decide_False by lia. destruct i as [|i]; [by injection Hi as <-|].
    rewrite Forall_forall in Hk. assert (Hin : s ∈ swarms) by (eapply list_elem_of_lookup_2, Hi).
    specialize (Hk s Hin). change (k < s.1) in Hk. lia.
Qed.

Lemma msorted_lookup swarms i j a b :
  msorted swarms -> swarms !! i = Some a -> swarms !! j = Some b -> (i < j)%nat -> a.1 < b.1.
Proof.
  intros Hs Ha Hb Hij. rewrite <- (take_drop_middle _ _ _ Ha) in Hs, Hb.
  apply msorted_app in Hs as (_ & Hs & _). destruct a as [ka la]. apply msorted_cons in Hs as [_ Hs].
  rewrite lookup_app_r in Hb by (rewrite length_take; lia). rewrite length_take in Hb.
  apply lookup_lt_Some in Ha as Hl. rewrite Nat.min_l in Hb by lia.
  replace (j - i)%nat with (S (j - i - 1)) in Hb by lia. cbn in Hb. rewrite Forall_forall in Hs.
  specialize (Hs b (list_elem_of_lookup_2 _ _ _ Hb)). exact Hs.
Qed.

(** The neighbours on the ring: no swarm is nearer upwards than [right], or downwards than [left]. *)
Lemma ring_up v r s :
  swarm_id_ok v -> swarm_id_ok r -> swarm_id_ok s ->
  (v <= r /\ (s < v \/ r <= s)) \/ (r < v /\ r <= s < v) -> (r - v) mod 2 ^ 64 <= (s - v) mod 2 ^ 64.
Proof.
  unfold swarm_id_ok. intros Hv Hr Hs Hc.
  assert (forall a, 0 <= a < 2 ^ 64 -> (a - v) mod 2 ^ 64 = if a <? v then a - v + 2 ^ 64 else a - v) as E.
  { intros a Ha. destruct (Z.ltb_spec a v).
    - rewrite <- (Z.mod_add _ 1) by lia. rewrite Z.mul_1_l. apply Z.mod_small. lia.
    - apply Z.mod_small. lia. }
  rewrite !E by done. destruct (Z.ltb_spec r v), (Z.ltb_spec s v); lia.
Qed.
Lemma ring_down v l s :
  swarm_id_ok v -> swarm_id_ok l -> swarm_id_ok s ->
  (l < v /\ (s <= l \/ v <= s)) \/ (v <= l /\ v <= s <= l) -> (v <> s -> (v - l) mod 2 ^ 64 <= (v - s) mod 2 ^ 64).
Proof.
  unfold swarm_id_ok. intros Hv Hr Hs Hc Hne.
  assert (forall a, 0 <= a < 2 ^ 64 -> (v - a) mod 2 ^ 64 = if v <? a then v - a + 2 ^ 64 else v - a) as E.
  { intros a Ha. destruct (Z.ltb_spec v a).
    - rewrite <- (Z.mod_add _ 1) by lia. rewrite Z.mul_1_l. apply Z.mod_small. lia.
    - apply Z.mod_small. lia. }
  rewrite !E by done. destruct (Z.ltb_spec v l), (Z.ltb_spec v s); lia.
Qed.

(** The swarms on both sides of an id. *)
Lemma ring_neighbours swarms v :
  msorted swarms -> Forall (fun s => swarm_id_ok s.1) swarms -> swarm_id_ok v -> swarms <> [] ->
  let right_it := (if lower_bound swarms v =? length swarms then 0 else lower_bound swarms v)%nat in
  let left_it := ((if right_it =? 0 then length swarms else right_it) - 1)%nat in
  exists right left, swarms !! right_it = Some right /\ swarms !! left_it = Some left /\
    forall s, s ∈ swarms -> (right.1 - v) mod 2 ^ 64 <= (s.1 - v) mod 2 ^ 64 /\
                            (v <> s.1 -> (v - left.1) mod 2 ^ 64 <= (v - s.1) mod 2 ^ 64).
Proof.
  intros Hs Hok Hv Hne. destruct (lower_bound_spec swarms v Hs) as [Hle Hlb]. cbv zeta.
  set (b := lower_bound swarms v) in *. set (r := (if b =? length swarms then 0 else b)%nat).
  set (l := ((if r =? 0 then length swarms else r) - 1)%nat).
  assert (Hlen : (0 < length swarms)%nat) by (destruct swarms; [done|cbn; lia]).
  assert (Hcase : (0 < b < length swarms /\ r = b /\ l = b - 1 \/ b = 0 /\ r = 0 /\ l = length swarms - 1 \/
                   b = length swarms /\ r = 0 /\ l = length swarms - 1)%nat).
  { subst l r. destruct (Nat.eqb_spec b (length swarms)); [right; right; repeat split; cbn; lia|].
    destruct (Nat.eqb_spec b 0); [right; left; lia|left; lia]. }
  clearbody l r. destruct (lookup_lt_is_Some_2 swarms r) as [right Hr]; [lia|].
  destruct (lookup_lt_is_Some_2 swarms l) as [left Hl]; [lia|]. exists right, left. split_and!; [done..|].
  intros s [i Hi]%list_elem_of_lookup_1. rewrite Forall_forall in Hok.
  pose proof (Hok _ (list_elem_of_lookup_2 _ _ _ Hr)). pose proof (Hok _ (list_elem_of_lookup_2 _ _ _ Hl)).
  pose proof (Hok _ (list_elem_of_lookup_2 _ _ _ Hi)). pose proof (Hlb _ _ Hr) as Br. pose proof (Hlb _ _ Hl) as Bl.
  pose proof (Hlb _ _ Hi) as Bi. pose proof (lookup_lt_Some _ _ _ Hi).
  assert (Hir : (r <= i)%nat -> right.1 <= s.1).
  { intros Hle'. destruct (decide (r = i)) as [->|]; [by simplify_eq|]. apply Z.lt_le_incl.
    eapply (msorted_lookup swarms r i); [done..|lia]. }
  assert (Hil : (i <= l)%nat -> s.1 <= left.1).
  { intros Hle'. destruct (decide (i = l)) as [->|]; [by simplify_eq|]. apply Z.lt_le_incl.
    eapply (msorted_lookup swarms i l); [done..|lia]. }
  split; [apply ring_up; try done|apply ring_down; try done];
    repeat case_decide; destruct Hcase as [Hc|[Hc|Hc]]; lia.
Qed.

(** The swarm that is picked is one of those nearest to the id on the ring. *)
Lemma pick_swarm_nearest swarms v :
  msorted swarms -> Forall (fun s => swarm_id_ok s.1) swarms -> swarm_id_ok v -> swarms <> [] ->
  exists s, pick_swarm swarms v = Some s /\ s ∈ swarms /\
    forall s', s' ∈ swarms -> ring_distance v s.1 <= ring_distance v s'.1.
Proof.
  intros Hs Hok Hv Hne. destruct (ring_neighbours swarms v Hs Hok Hv Hne) as (right & left & Hr & Hl & Hn).
  unfold pick_swarm. cbv zeta. rewrite Hr, Hl. cbn. eexists. split; [done|].
  split; [by destruct (_ <? _); [exact (list_elem_of_lookup_2 _ _ _ Hr)|exact (list_elem_of_lookup_2 _ _ _ Hl)]|].
  intros s' Hs'. destruct (Hn s' Hs') as [Hup Hdown]. unfold ring_distance.
  destruct (decide (v = s'.1)) as [->|Hne'].
  - rewrite Z.sub_diag in *. destruct (Z.ltb_spec ((right.1 - s'.1) mod 2 ^ 64) ((s'.1 - left.1) mod 2 ^ 64)); lia.
  - specialize (Hdown Hne'). destruct (Z.ltb_spec ((right.1 - v) mod 2 ^ 64) ((v - left.1) mod 2 ^ 64)); lia.
Qed.
End Swarms.

(** The place of a key on the ring. *)
Lemma big_endian_bound b : 0 <= big_endian b < 256 ^ size_of b.
Proof.
  induction b as [|c b IH] using rev_ind; [done|]. unfold big_endian in *. rewrite foldl_app, size_of_app. cbn [foldl].
  pose proof (byte_val_range c). pose proof (size_of_nonneg b). change (size_of [c]) with 1.
  rewrite Z.pow_add_r by lia. change (256 ^ 1) with 256. nia.
Qed.
Lemma xor_bytes_size a b : size_of (xor_bytes a b) <= size_of a.
Proof. unfold size_of, xor_bytes. rewrite length_zip_with. lia. Qed.
Lemma xor_fold_size l a : size_of (foldl xor_bytes a l) <= size_of a.
Proof. revert a. induction l as [|x l IH]; intros a; cbn [foldl]; [done|]. etrans; [apply IH|apply xor_bytes_size]. Qed.
Lemma pubkey_on_ring pk : swarm_id_ok (pubkey_to_swarm_space pk).
Proof.
  unfold pubkey_to_swarm_space, swarm_id_ok.
  match goal with |- context [foldl xor_bytes ?z ?l] => set (b := foldl xor_bytes z l) end.
  assert (Hb : size_of b <= 8) by exact (xor_fold_size _ (replicate 8 (byte_of 0))).
  pose proof (big_endian_bound b). pose proof (size_of_nonneg b).
  assert (256 ^ size_of b <= 256 ^ 8) by (apply Z.pow_le_mono_r; lia). change (256 ^ 8) with (2 ^ 64) in *. lia.
Qed.

(** ** Combining node lists *)

Section Combining.
Context `{Quic}.
Implicit Types (a b c : service_node) (l : list service_node).

Definition node_le a b : Prop := node_ltb b a = false.

Lemma node_sort_key_inj a b : node_sort_key a = node_sort_key b -> a = b.
Proof.
  unfold node_sort_key. intros [= Ha Hk Hs Hv]. apply address_rank_inj in Ha. unfold sn_address in Ha.
  destruct a, b. cbn in *. congruence.
Qed.
Lemma node_le_spec a b : node_le a b <-> node_sort_key a ≺ node_sort_key b \/ a = b.
Proof.
  unfold node_le, node_ltb. rewrite kltb_nlt. split.
  - intros Hn. destruct (klt_total (node_sort_key a) (node_sort_key b)) as [?|[He|?]]; [by left| |done].
    right. by apply node_sort_key_inj.
  - intros [Hl| ->]; [by apply klt_asym|apply klt_irrefl].
Qed.
Lemma node_ltb_spec a b : node_ltb a b = true <-> node_sort_key a ≺ node_sort_key b.
Proof. apply kltb_lt. Qed.
#[local] Instance node_le_trans : Transitive node_le.
Proof.
  intros a b c. rewrite !node_le_spec. intros [Hab| ->] [Hbc| ->]; auto. left. by eapply klt_trans.
Qed.
Lemma node_lt_le a b : node_ltb a b = true -> node_le a b.
Proof. rewrite node_le_spec, node_ltb_spec. auto. Qed.
Lemma node_le_antisym a b : node_ltb a b = false -> node_ltb b a = false -> a = b.
Proof.
  intros Hba Hab. apply node_le_spec in Hab as [Hab|]; [|done]. apply node_ltb_spec in Hab. congruence.
Qed.

Lemma insert_node_perm a l : insert_node a l ≡ₚ a :: l.
Proof.
  induction l as [|b l IH]; [done|]. cbn. destruct (node_ltb b a); [|done]. rewrite IH. apply Permutation_swap.
Qed.
Lemma insert_node_sorted a l : StronglySorted node_le l -> StronglySorted node_le (insert_node a l).
Proof.
  induction 1 as [|b l Hs IH Hb]; cbn; [repeat constructor|]. destruct (node_ltb b a) eqn:E.
  - constructor; [done|]. rewrite insert_node_perm. apply Forall_cons. split; [by apply node_lt_le|done].
  - assert (node_le a b) by exact E. constructor; [by constructor|]. apply Forall_cons. split; [done|].
    eapply Forall_impl; [exact Hb|]. intros c Hc. by etrans.
Qed.
Lemma sort_nodes_spec l : sort_nodes l ≡ₚ l /\ StronglySorted node_le (sort_nodes l).
Proof.
  induction l as [|a l [IHp IHs]]; [split; [done|constructor]|]. cbn. split.
  - by rewrite insert_node_perm, IHp.
  - by apply insert_node_sorted.
Qed.

Lemma lt_not_in a l : StronglySorted node_le l -> (forall b, head l = Some b -> node_ltb a b = true) -> a ∉ l.
Proof.
  intros Hs Hh Hin. destruct l as [|b l]; [by apply elem_of_nil in Hin|].
  specialize (Hh b eq_refl). apply StronglySorted_inv in Hs as [_ Hb]. rewrite Forall_forall in Hb.
  apply elem_of_cons in Hin as [->|Hin]; [unfold node_ltb in Hh; by rewrite kltb_refl in Hh|].
  specialize (Hb a Hin). unfold node_le in Hb. congruence.
Qed.

Lemma intersection_spec l1 : forall l2,
  StronglySorted node_le l1 -> StronglySorted node_le l2 ->
  sublist (set_intersection l1 l2) l1 /\ forall a, a ∈ set_intersection l1 l2 <-> a ∈ l1 /\ a ∈ l2.
Proof.
  induction l1 as [|x l1 IH1]; intros l2 H1 H2.
  { cbn. split; [constructor|]. intros a. set_solver. }
  apply StronglySorted_inv in H1 as Hx. destruct Hx as [H1' Hx].
  induction l2 as [|y l2 IH2].
  { cbn. split; [apply sublist_nil_l|]. intros a. set_solver. }
  apply StronglySorted_inv in H2 as Hy. destruct Hy as [H2' Hy].
  cbn [set_intersection]. destruct (node_ltb x y) eqn:Exy; [|destruct (node_ltb y x) eqn:Eyx].
  - destruct (IH1 (y :: l2) H1' H2) as [Hs Hm]. split; [by apply sublist_cons|]. intros a. rewrite Hm.
    assert (x ∉ y :: l2) by (apply lt_not_in; [done|by intros ? [= <-]]). set_solver.
  - destruct (IH2 H2') as [Hs Hm]. split; [done|]. intros a. etrans; [apply Hm|].
    assert (y ∉ x :: l1) by (apply lt_not_in; [done|by intros ? [= <-]]). set_solver.
  - assert (x = y) as <- by by apply node_le_antisym.
    destruct (IH1 l2 H1' H2') as [Hs Hm]. split; [by constructor|]. intros a.
    rewrite !elem_of_cons, Hm. tauto.
Qed.

Lemma sublist_sorted l1 l2 : sublist l1 l2 -> StronglySorted node_le l2 -> StronglySorted node_le l1.
Proof.
  induction 1 as [|a l1 l2 Hl IH|a l1 l2 Hl IH]; intros Hs; [done| |];
    apply StronglySorted_inv in Hs as [Hs Ha]; [|auto].
  constructor; [auto|]. rewrite Forall_forall in Ha |- *. intros b Hb. apply Ha.
  by eapply sublist_subseteq.
Qed.

Lemma intersect_all l results : 
  StronglySorted node_le l -> Forall (StronglySorted node_le) results ->
  StronglySorted node_le (foldl set_intersection l results) /\
  forall a, a ∈ foldl set_intersection l results <-> a ∈ l /\ Forall (fun r => a ∈ r) results.
Proof.
  intros Hl Hr. revert l Hl. induction Hr as [|r results Hr _ IH]; intros l Hl; cbn.
  { split; [done|]. intros a. rewrite Forall_nil. tauto. }
  destruct (intersection_spec l r Hl Hr) as [Hs Hm].
  destruct (IH _ (sublist_sorted _ _ Hs Hl)) as [HS HM]. split; [done|].
  intros a. rewrite HM, Hm, Forall_cons. tauto.
Qed.

(** The combined list holds exactly the nodes that are in all of the answers. *)
Lemma combine_results_spec results a :
  results <> [] -> a ∈ combine_results results <-> Forall (fun r => a ∈ r) results.
Proof.
  intros Hne. destruct results as [|r results]; [done|]. unfold combine_results. cbn [fmap list_fmap].
  destruct (intersect_all (sort_nodes r) (sort_nodes <$> results)) as [_ Hm].
  - apply sort_nodes_spec.
  - apply Forall_fmap, Forall_true. intros l. apply sort_nodes_spec.
  - rewrite Hm, Forall_fmap, Forall_cons. rewrite (proj1 (sort_nodes_spec r)).
    apply and_iff_compat_l. apply Forall_iff. intros l. cbn. by rewrite (proj1 (sort_nodes_spec l)).
Qed.
End Combining.

(** ** Delays *)

Lemma retry_delay_spec failures max_delay :
  0 <= failures ->
  retry_delay failures max_delay =
    if decide (failures <= 56) then Ok (Z.min max_delay (100 * 2 ^ failures)) else Throw UB.
Proof.
  intros Hf. unfold retry_delay. destruct (Z.ltb_spec failures 0); [lia|].
  assert (E : (INT64_MAX <? 100 * 2 ^ failures) = negb (bool_decide (failures <= 56))).
  { case_bool_decide as Hd.
    - apply Z.ltb_ge. unfold INT64_MAX. transitivity (100 * 2 ^ 56); [|done].
      apply Z.mul_le_mono_nonneg_l; [done|]. by apply Z.pow_le_mono_r.
    - apply Z.ltb_lt. unfold INT64_MAX. apply Z.lt_le_trans with (100 * 2 ^ 57); [done|].
      apply Z.mul_le_mono_nonneg_l; [done|]. apply Z.pow_le_mono_r; lia. }
  rewrite E. case_bool_decide; [rewrite decide_True by done|rewrite decide_False by done]; done.
Qed.
