(* ===== verification/NetworkPathFacts.v ===== *)
(** * Paths, timeouts and batches

    What a new path consists of, that a request whose time is up is answered by a scheduled check,
    and which status the results of a batch are given. *)
From S2P Require Import Prelude OMap Util Internal BtValue Bencode ThirdParty OnionRequest NetworkData NetworkResponse NetworkState NetworkRun.
From S2P Require Import NetworkFacts NetworkStepFacts NetworkDataFacts.

Section Paths.
Context `{Quic} `{Rng} `{Oxenc} `{TextEncodings} `{X25519} `{Aead} `{AesGcm} `{Json} `{JsonNumbers} `{Texts}.

(** ** New paths *)

(** A path of three nodes with different addresses: the node of the connection, and two others
    that were not in use; none of those that stay unused has one of its addresses. *)
Record fresh_path (conn : connection_info) (unused unused' : list service_node) (p : onion_path) : Prop := {
  fp_length : length (op_nodes p) = path_size;
  fp_ips : NoDup (sn_ip <$> op_nodes p);
  fp_guard : exists others, op_nodes p = ci_node conn :: others /\ others ⊆ unused;
  fp_conn : op_conn_info p = conn;
  fp_failures : op_failure_count p = 0;
  fp_rest : unused' ⊆ unused /\ Forall (fun s => sn_ip s ∉ (sn_ip <$> op_nodes p)) unused'
}.

(** All addresses are among those of fewer than three nodes. *)
Definition few_ips (nodes : list service_node) : Prop :=
  exists few, (length few < path_size)%nat /\ forall s, s ∈ nodes -> sn_ip s ∈ (sn_ip <$> few).

Lemma pick_nodes_none l : forall start rest, pick_nodes l start = (None, rest) -> few_ips (start ++ l).
Proof.
  induction l as [|s l IH]; intros start rest; cbn [pick_nodes];
    destruct (Nat.leb_spec path_size (length start)) as [|Hlt]; try done.
  - intros _. exists start. split; [done|]. intros s. rewrite app_nil_r. apply list_elem_of_fmap_2.
  - intros (few & Hf & Hin)%IH. exists few. split; [done|]. intros s'. rewrite elem_of_app, elem_of_cons.
    destruct (existsb _ start) eqn:Ex; intros Hs'.
    + destruct Hs' as [?|[->|?]]; [apply Hin; set_solver| |apply Hin; set_solver].
      apply existsb_exists in Ex as (e & He & Heq%Z.eqb_eq). rewrite <- Heq. apply Hin.
      apply elem_of_app. left. by apply list_elem_of_In.
    + apply Hin. set_solver.
Qed.

Lemma resume_requests_same path queue n :
  let '(_, n') := resume_requests path queue n in
  paths n' = paths n /\ unused_nodes n' = unused_nodes n /\ unused_connections n' = unused_connections n.
Proof.
  unfold resume_requests. match goal with |- context [foldl ?f _ _] => set (F := f) end.
  generalize ([] : list (request_info * callback)) as kept. revert n.
  induction queue as [|r queue IH]; intros n kept; cbn [foldl]; [done|]. unfold F at 2.
  pose proof (find_valid_path_spec r.1 [path] n) as Hp.
  destruct (find_valid_path r.1 [path] n) as [[q|] n1].
  - destruct Hp as (_ & _ & -> & _). exact (IH (call_soon (TSend r.1 r.2) (next_draw n)) kept).
  - destruct Hp as [-> | ->]; [exact (IH n _)|exact (IH (next_draw n) _)].
Qed.

Lemma update_status_same s n :
  paths (update_status s n) = paths n /\ unused_nodes (update_status s n) = unused_nodes n /\
  unused_connections (update_status s n) = unused_connections n.
Proof. unfold update_status. by repeat case_bool_decide. Qed.

(** The end of [build_path], after the path was added. *)
Definition path_finished (p : onion_path) (t : PathType) (n : Network) : Network :=
  let n := match t with
           | pt_standard => report (OutPaths (op_nodes <$> p_standard (paths n))) (update_status st_connected n)
           | _ => n
           end in
  let '(kept, n) := resume_requests p (pget t (request_queue n)) n in
  let n := n <| request_queue ::= pset t kept |> in
  if bool_decide (kept = []) then n else resume_path_build n t.

Lemma finish_build p t n :
  paths (path_finished p t n) = paths n /\ unused_nodes (path_finished p t n) = unused_nodes n /\
  unused_connections (path_finished p t n) = unused_connections n.
Proof.
  unfold path_finished. cbv zeta. set (n3 := match t with pt_standard => _ | _ => n end).
  assert (E3 : paths n3 = paths n /\ unused_nodes n3 = unused_nodes n /\ unused_connections n3 = unused_connections n).
  { unfold n3. destruct t; [exact (update_status_same st_connected n)|done..]. }
  destruct E3 as (<- & <- & <-). clearbody n3. clear n.
  pose proof (resume_requests_same p (pget t (request_queue n3)) n3) as E4.
  destruct (resume_requests p _ n3) as [kept n4]. destruct E4 as (<- & <- & <-). by case_bool_decide.
Qed.

(** A new path, or too few addresses for one. *)
Lemma build_path_spec id t conn conns n :
  suspended n = false -> unused_connections n = conn :: conns -> (path_size <= length (unused_nodes n))%nat ->
  let n' := build_path id t n in
  (exists p, fresh_path conn (unused_nodes n) (unused_nodes n') p /\
     paths n' = pset t (pget t (paths n) ++ [p]) (paths n) /\ unused_connections n' = conns) \/
  (few_ips (ci_node conn :: unused_nodes n) /\ paths n' = paths n /\ unused_nodes n' = [] /\
     unused_connections n' = conn :: conns).
Proof.
  intros Hs Hc Hu. unfold build_path. rewrite Hs, Hc. cbv zeta. rewrite (proj2 (Nat.ltb_ge _ _) Hu).
  rewrite (proj2 (Nat.ltb_ge _ _) Hu). cbn [unused_nodes field_set set_in_progress_path_builds].
  destruct (pick_nodes (rev (unused_nodes n)) [ci_node conn]) as [[nodes|] rest] eqn:Ep.
  - left. apply pick_nodes_spec in Ep as (Hlen & Hnd & (others & -> & Ho) & Hsuf); [|by apply NoDup_singleton|done|cbn; unfold path_size; lia].
    set (p := {| op_id := id |}).
    match goal with |- context [update_status st_connected ?m] => set (n2 := m) end.
    destruct (finish_build p t n2) as (P5 & U5 & C5). unfold path_finished in P5, U5, C5. exists p.
    split; [|by rewrite P5, C5]. rewrite U5. split; try done.
    + exists others. split; [done|]. intros s ?%Ho. by apply list_elem_of_In, in_rev, list_elem_of_In.
    + cbn. split.
      * intros s [_ Hin]%list_elem_of_filter. apply list_elem_of_In, in_rev, list_elem_of_In in Hin.
        destruct Hsuf as [pre Hpre]. apply list_elem_of_In, in_rev, list_elem_of_In. rewrite Hpre. set_solver.
      * apply Forall_forall. by intros s [? _]%list_elem_of_filter.
  - right. apply pick_nodes_none in Ep as (few & Hf & Hin). split.
    { exists few. split; [done|]. intros s Hs'. apply Hin. cbn. apply elem_of_cons in Hs' as [->|Hs']; [set_solver|].
      apply elem_of_cons. right. by apply list_elem_of_In, in_rev, list_elem_of_In in Hs'; rewrite ?rev_involutive in *. }
    unfold retry_later. by destruct (retry_delay _ _).
Qed.

(** ** Timeouts *)

Lemma respond_failure_outputs cb timeout code headers response : forall n,
  outputs n ⊆ outputs (respond cb false timeout code headers response n) /\
  forall k, cb_owes k cb = 1%nat ->
    OutResponse k false timeout code headers response ∈ outputs (respond cb false timeout code headers response n).
Proof.
  induction cb as [id|id|b info path cb IH]; intros n; cbn [respond cb_owes]; [| |apply IH].
  - cbn. split; [set_solver|]. intros k Hk. destruct (decide (id = k)) as [->|]; [set_solver|done].
  - split; [|done]. unfold refresh_response. destruct (snode_refresh_results n); [|done].
    assert (outputs n ⊆ outputs (refresh_failed id n)); [|by destruct response].
    unfold refresh_failed, retry_later. by destruct (retry_delay _ _).
Qed.
Lemma foldl_failure_outputs timeout code headers response (l : list (request_info * callback)) : forall n,
  let n' := foldl (fun n r => respond r.2 false timeout code headers response n) n l in
  outputs n ⊆ outputs n' /\
  forall r k, r ∈ l -> cb_owes k r.2 = 1%nat -> OutResponse k false timeout code headers response ∈ outputs n'.
Proof.
  induction l as [|r l IH]; intros n; [split; [done|set_solver]|]. cbn [foldl].
  destruct (IH (respond r.2 false timeout code headers response n)) as [I1 I2].
  destruct (respond_failure_outputs r.2 timeout code headers response n) as [R1 R2].
  split; [by etrans|]. intros r' k [->|Hr]%elem_of_cons Hk; [by apply I1, R2|by apply (I2 r')].
Qed.

(** A check of the timeouts answers the requests whose time is up. *)
Lemma check_expires arg n r :
  suspended n = false -> request_timeout_id n = arg -> r ∈ pall (request_queue n) -> timed_out n r.1 = true ->
  let n' := check_request_queue_timeouts arg n in
  r ∉ pall (request_queue n') /\
  forall k, cb_owes k r.2 = 1%nat ->
    OutResponse k false true error_path_build_timeout plain (Some (bs "Timed out waiting for path build.")) ∈ outputs n'.
Proof.
  intros Hs Harg Hr Ht. unfold check_request_queue_timeouts. rewrite Hs, bool_decide_true by done. cbn [negb]. cbv zeta.
  set (n1 := match request_timeout_id n with Some _ => n | None => _ end).
  assert (Hn1 : request_queue n1 = request_queue n /\ clock n1 = clock n)
    by (unfold n1; by destruct (request_timeout_id n)).
  destruct Hn1 as [Q1 C1]. clearbody n1.
  assert (Et : timed_out n1 r.1 = true) by (rewrite <- Ht; unfold timed_out, elapsed; by rewrite C1).
  rewrite Q1. set (q := Build_per_type _ _ _ _).
  assert (Eq : r ∉ pall q).
  { unfold q. rewrite (pall_filter (fun r => timed_out n1 r.1 = false)). intros [Hf _]%list_elem_of_filter. congruence. }
  clearbody q. set (n2 := expire_requests _ _).
  assert (E2 : r ∉ pall (request_queue n2) /\ forall k, cb_owes k r.2 = 1%nat ->
    OutResponse k false true error_path_build_timeout plain (Some (bs "Timed out waiting for path build.")) ∈ outputs n2).
  { unfold n2, expire_requests. set (l := filter _ _). split.
    - rewrite (proj1 (foldl_failure _ _ _ _ l _)). exact Eq.
    - intros k Hk. apply (foldl_failure_outputs _ _ _ _ l _) with r; [|done]. by apply list_elem_of_filter. }
  clearbody n2. destruct (existsb _ _); exact E2.
Qed.

(** If no check is in the queue then none is needed, and one that is there can run. *)
Lemma watched_expires n r :
  suspended n = false -> watched n -> r ∈ pall (request_queue n) -> timed_out n r.1 = true ->
  exists i, let n' := step (EvTask i) n in
    r ∉ pall (request_queue n') /\
    forall k, cb_owes k r.2 = 1%nat ->
      OutResponse k false true error_path_build_timeout plain (Some (bs "Timed out waiting for path build.")) ∈ outputs n'.
Proof.
  intros Hs [W1 W2] Hr Ht.
  assert (Hc : exists i delay b, tasks n !! i = Some (delay, TCheckTimeouts b) /\
                 request_timeout_id n = (if b then request_timeout_id n else None)).
  { destruct (request_timeout_id n) as [id|] eqn:Eid.
    - destruct (proj1 (Exists_exists _ _) (W1 ltac:(by eexists))) as ([delay t] & [i Hi]%list_elem_of_lookup_1 & Et).
      cbn in Et. subst t. by exists i, delay, true.
    - assert (Hx : Exists can_time_out (pall (request_queue n))).
      { apply Exists_exists. exists r. split; [done|]. unfold timed_out in Ht. unfold can_time_out.
        destruct (ri_path_build_timeout r.1); [by eexists|done]. }
      destruct (proj1 (Exists_exists _ _) (W2 Hx)) as ([delay t] & [i Hi]%list_elem_of_lookup_1 & Et).
      destruct t; try done. exists i, delay, same_loop. by destruct same_loop. }
  destruct Hc as (i & delay & b & Hi & Hb). exists i. cbn [step]. unfold take_out. rewrite Hi. cbn [run_task].
  by apply check_expires.
Qed.
End Paths.

(** ** Batches *)

Section Batches.
Context `{JsonNumbers}.

(** Two results next to each other have the same status. *)
Fixpoint neighbours_agree (codes : list Z) : bool :=
  match codes with
  | c :: (c' :: _) as rest => (c =? c') || neighbours_agree rest
  | _ => false
  end.
(** A result with a status and without headers of its own. *)
Definition has_code (r : json) (code : Z) : Prop :=
  number_at r (bs "code") = Some (JInt code) /\ - 2 ^ 15 <= code < 2 ^ 15 /\ code <> -1 /\ json_find r (bs "headers") = None.

Lemma int16_id z : - 2 ^ 15 <= z < 2 ^ 15 -> int16 z = z.
Proof. intros Hz. unfold int16. rewrite Z.mod_small by lia. lia. Qed.

Lemma value_or_last {A} (x : A) l d d' : value_or (last (x :: l)) d = value_or (last (x :: l)) d'.
Proof. revert x. induction l as [|y l IH]; intros x; [done|]. exact (IH y). Qed.

Lemma batch_loop_spec results codes : forall status headers body,
  Forall2 has_code results codes -> status <> -1 ->
  exists h b, batch_loop results status headers body =
    Ok (if neighbours_agree (status :: codes) then 200 else value_or (last codes) status, h, b).
Proof.
  intros status headers body Hf. revert status headers body.
  induction Hf as [|r code results codes (Hn & Hc & Hne & Hh) Hf IH]; intros status headers body Hs.
  { by exists headers, body. }
  cbn [batch_loop]. rewrite Hn. cbn [json_int16 json_get_int mbind res_bind]. rewrite int16_id by done.
  rewrite (proj2 (Z.eqb_neq status (-1)) Hs). cbn [orb neighbours_agree]. rewrite (Z.eqb_sym code status).
  destruct (Z.eqb_spec status code) as [->|Hsc]; cbn [negb orb]; [by eexists _, _|].
  unfold headers_field. rewrite Hh. cbn [mbind res_bind].
  destruct (IH code headers (match json_find r (bs "body") with Some (JStr s) => Some s | _ => body end) Hne) as (h & b & ->).
  exists h, b. destruct codes as [|c codes]; [done|].
  change (last (code :: c :: codes)) with (last (c :: codes)). rewrite (value_or_last c codes code status). done.
Qed.

(** The status of a batch: that of the last result, unless two neighbours agree. *)
Lemma batch_status results codes headers body :
  Forall2 has_code results codes -> codes <> [] ->
  exists h b, batch_loop results (-1) headers body =
    Ok (if neighbours_agree codes then 200 else value_or (last codes) (-1), h, b).
Proof.
  intros Hf Hne. destruct Hf as [|r code results codes (Hn & Hc & Hm & Hh) Hf]; [done|].
  cbn [batch_loop]. rewrite Hn. cbn [json_int16 json_get_int mbind res_bind]. rewrite int16_id by done.
  cbn [Z.eqb orb]. unfold headers_field. rewrite Hh. cbn [mbind res_bind].
  destruct (batch_loop_spec results codes code headers
    (match json_find r (bs "body") with Some (JStr s) => Some s | _ => body end) Hf Hm) as (h & b & E).
  exists h, b. change (-1 =? -1) with true. cbn [orb]. rewrite E. destruct codes as [|c codes]; [done|].
  change (last (code :: c :: codes)) with (last (c :: codes)). by rewrite (value_or_last c codes code (-1)).
Qed.
End Batches.

(** ** A new object *)

Section NewNetwork.
Context `{Quic} `{Rng} `{Oxenc} `{TextEncodings} `{X25519} `{Aead} `{AesGcm} `{Json} `{JsonNumbers} `{Texts}.

Lemma trans_load_cache k n : trans k 0 0 n (load_cache_from_disk n).
Proof. unfold load_cache_from_disk. cbv zeta. destruct (dk_pool _) as [[time text]|]; frame. Qed.

(** It starts from nothing. *)
Lemma trans_new_network k st cache testnet single pre :
  exists d, trans k 0 0 (blank_network st testnet single d) (new_network st cache testnet single pre).
Proof.
  unfold new_network. set (n := match cache with Some _ => _ | None => _ end).
  assert (Hn : exists d, trans k 0 0 (blank_network st testnet single d) n).
  { unfold n. destruct cache as [d|]; [exists d; apply trans_load_cache|eexists; apply trans_refl]. }
  destruct Hn as [d Hn]. exists d. clearbody n. destruct pre; [|done].
  induction (min_path_count pt_standard single) as [|i IH]; [done|]. cbn [Nat.iter].
  exact (trans_trans k 0 0 0 0 _ _ _ IH (trans_resume_build k _ _)).
Qed.

Lemma inv_blank st testnet single d : inv (blank_network st testnet single d).
Proof.
  split; cbn; [| |constructor..|done].
  - intros t p. destruct t; cbn; intros Hp; by apply elem_of_nil in Hp.
  - intros p t Hp. by apply elem_of_nil in Hp.
Qed.
Lemma watched_blank st testnet single d : watched (blank_network st testnet single d).
Proof. split; cbn; [by intros []|]. intros Hx. by apply Exists_nil in Hx. Qed.
End NewNetwork.

(** ** Swarms, the cache and suspension *)

Section Lookup.
Context `{Quic} `{Rng} `{Oxenc} `{TextEncodings} `{X25519} `{Aead} `{AesGcm} `{Json} `{JsonNumbers} `{Texts}.

Lemma generate_swarms_ne nodes : nodes <> [] -> generate_swarms nodes <> [].
Proof.
  destruct nodes as [|s nodes]; [done|]. intros _ E. destruct (generate_swarms_spec (s :: nodes)) as [_ Hf].
  specialize (Hf (sn_swarm s)). rewrite E, filter_cons_True in Hf by done. done.
Qed.
Lemma generate_swarms_elem nodes id l :
  (id, l) ∈ generate_swarms nodes -> l = filter (fun s => sn_swarm s = id) nodes /\ l <> [].
Proof.
  destruct (generate_swarms_spec nodes) as [Hs Hf]. intros Hin%In_mfind; [|done]. rewrite Hf in Hin. cbv zeta in Hin.
  case_bool_decide as Hl; [done|]. by injection Hin as <-.
Qed.
Lemma generate_swarms_node nodes s : s ∈ nodes -> exists l, (sn_swarm s, l) ∈ generate_swarms nodes.
Proof.
  intros Hs. destruct (generate_swarms_spec nodes) as [_ Hf]. specialize (Hf (sn_swarm s)). cbv zeta in Hf.
  rewrite bool_decide_eq_false_2 in Hf; [by eexists; eapply mfind_In|].
  intros E. assert (Hin : s ∈ filter (fun x => sn_swarm x = sn_swarm s) nodes) by by apply list_elem_of_filter.
  rewrite E in Hin. by apply elem_of_nil in Hin.
Qed.

(** The swarm that is nearest on the ring, out of those of the cached nodes. *)
Lemma get_swarm_nearest pk id n :
  all_swarms n = generate_swarms (snode_cache n) -> snode_cache n <> [] ->
  Forall (fun s => swarm_id_ok (sn_swarm s)) (snode_cache n) -> mfind (to_hex pk) (swarm_cache n) = None ->
  exists swarm_id nodes, outputs (get_swarm pk (SwUser id) n) = outputs n ++ [OutSwarm id swarm_id nodes] /\
    nodes = filter (fun s => sn_swarm s = swarm_id) (snode_cache n) /\ nodes <> [] /\
    forall s, s ∈ snode_cache n ->
      ring_distance (pubkey_to_swarm_space pk) swarm_id <= ring_distance (pubkey_to_swarm_space pk) (sn_swarm s).
Proof.
  intros Ha Hne Hok Hc. unfold get_swarm, cached_swarm. rewrite Hc. cbn [snode_cache all_swarms field_set set_swarm_cache snd].
  rewrite bool_decide_eq_true_2 by done. cbn [negb]. rewrite Ha.
  rewrite (bool_decide_eq_false_2 (snode_cache n = [])) by done.
  rewrite (bool_decide_eq_false_2 (generate_swarms _ = [])) by (by apply generate_swarms_ne). cbn [orb].
  assert (Hids : Forall (fun s => swarm_id_ok s.1) (generate_swarms (snode_cache n))).
  { apply Forall_forall. intros [i l] Hil. destruct (generate_swarms_elem _ _ _ Hil) as [-> Hl]. cbn.
    rewrite Forall_forall in Hok. destruct (filter _ _) as [|s l] eqn:El; [done|].
    assert (Hs : s ∈ filter (fun s => sn_swarm s = i) (snode_cache n)) by (rewrite El; set_solver).
    apply list_elem_of_filter in Hs as [<- Hs]. by apply Hok. }
  destruct (pick_swarm_nearest _ (pubkey_to_swarm_space pk) (proj1 (generate_swarms_spec (snode_cache n))) Hids
              (pubkey_on_ring pk) (generate_swarms_ne _ Hne)) as ([i l] & Hp & Hin & Hnear).
  assert (Hres : forall i' l', (i', l') ∈ generate_swarms (snode_cache n) ->
            (forall s', s' ∈ generate_swarms (snode_cache n) ->
               ring_distance (pubkey_to_swarm_space pk) i' <= ring_distance (pubkey_to_swarm_space pk) s'.1) ->
            l' = filter (fun s => sn_swarm s = i') (snode_cache n) /\ l' <> [] /\
            forall s, s ∈ snode_cache n ->
              ring_distance (pubkey_to_swarm_space pk) i' <= ring_distance (pubkey_to_swarm_space pk) (sn_swarm s)).
  { intros i' l' Hin' Hn. destruct (generate_swarms_elem _ _ _ Hin') as [El Hl]. split_and!; [done|done|].
    intros s Hs. destruct (generate_swarms_node _ _ Hs) as [l'' Hl'']. exact (Hn _ Hl''). }
  destruct (generate_swarms (snode_cache n)) as [|s1 [|s2 rest]] eqn:Eg; [by apply elem_of_nil in Hin| |].
  - destruct s1 as [i1 l1]. exists i1, l1. split; [done|]. apply Hres; [set_solver|].
    intros s' ->%list_elem_of_singleton. done.
  - rewrite Hp. exists i, l. split; [done|]. by apply Hres.
Qed.

(** What the disk thread wrote is in the cache of the next object. *)
Lemma restart_cache st sp pre n :
  need_write n = true -> writing_ n = None -> (dk_testnet (disk n) = true -> use_testnet n = true) ->
  Forall node_ok (snode_cache n) ->
  let n' := new_network st (Some (disk (disk_end true (disk_begin n)))) (use_testnet n) sp pre in
  snode_cache n' = filter (fun s => sn_version s <> [0]) (trim_node <$> snode_cache n) /\
  all_swarms n' = generate_swarms (snode_cache n') /\ last_snode_cache_update n' = clock n.
Proof.
  intros Hw Hwr Ht Hok. cbv zeta. unfold new_network.
  match goal with |- context [load_cache_from_disk ?m] => set (m0 := load_cache_from_disk m) end.
  assert (Hm : snode_cache m0 = filter (fun s => sn_version s <> [0]) (trim_node <$> snode_cache n) /\
               all_swarms m0 = generate_swarms (snode_cache m0) /\ last_snode_cache_update m0 = clock n).
  { subst m0. unfold disk_begin. rewrite Hw, Hwr, bool_decide_eq_true_2 by done. cbn [andb].
    unfold disk_end, load_cache_from_disk. cbn. rewrite <- pool_text_load by done.
    destruct (use_testnet n); cbn; [done|]. destruct (dk_testnet (disk n)); [by specialize (Ht eq_refl)|done]. }
  clearbody m0. destruct pre; [|done]. induction (min_path_count pt_standard sp) as [|i IH]; [done|]. exact IH.
Qed.

Lemma foldl_keeps {A T} (proj : Network -> T) (f : Network -> A -> Network) l : forall n,
  (forall n a, proj (f n a) = proj n) -> proj (foldl f n l) = proj n.
Proof. induction l as [|a l IH]; intros n Hf; cbn; [done|]. by rewrite IH, Hf. Qed.

(** A field that the loops of [refresh_snode_cache_complete] do not change. *)
Ltac kept proj :=
  match goal with |- context [foldl resume_path_build ?m ?l] =>
    transitivity (proj (foldl resume_path_build m l)); [reflexivity|];
    rewrite (foldl_keeps proj resume_path_build l m (fun _ _ => eq_refl))
  end;
  match goal with |- context [foldl ?f ?m ?l] =>
    transitivity (proj (foldl f m l)); [reflexivity|];
    rewrite (foldl_keeps proj f l m (fun _ _ => eq_refl))
  end; cbn; congruence.

Lemma complete_fields nodes n :
  let n' := refresh_snode_cache_complete nodes n in
  let cache := shuffle (draws n) nodes in
  snode_cache n' = cache /\ all_swarms n' = generate_swarms cache /\ snode_failure_counts n' = ∅ /\ need_write n' = true.
Proof.
  cbv zeta. unfold refresh_snode_cache_complete. cbv zeta.
  match goal with |- context [update_disk_cache_throttled false ?m] => set (m0 := m) end.
  assert (E0 : let m1 := update_disk_cache_throttled false m0 in
               snode_cache m1 = shuffle (draws n) nodes /\ need_write m1 = true).
  { unfold update_disk_cache_throttled. by destruct (has_pending_disk_write m0). }
  cbv zeta in E0. revert E0. generalize (update_disk_cache_throttled false m0) as m1. clear m0. intros m1 [E1 E2].
  split_and!; [kept snode_cache|kept all_swarms|kept snode_failure_counts|kept need_write].
Qed.

(** The third answer of a refresh makes the new cache. *)
Lemma refresh_agree id j r1 r2 r3 text n :
  snode_refresh_results n = Some [r1; r2] -> json_parse text = Ok j -> json_service_nodes j = Ok r3 ->
  r1 <> [] -> r2 <> [] -> r3 <> [] ->
  let n' := refresh_response id true false (Some text) n in
  (forall s, s ∈ snode_cache n' <-> s ∈ r1 /\ s ∈ r2 /\ s ∈ r3) /\
  all_swarms n' = generate_swarms (snode_cache n') /\ snode_failure_counts n' = ∅ /\ need_write n' = true.
Proof.
  intros Hr Hj Hs N1 N2 N3. unfold refresh_response. rewrite Hr. cbn [negb orb]. rewrite Hj. cbn [mbind res_bind].
  rewrite Hs. cbv zeta. cbn [app]. change (size_of [r1; r2; r3] =? num_snodes_to_refresh_cache_from) with true.
  cbn [negb existsb]. rewrite !bool_decide_eq_false_2 by done. cbn [orb].
  match goal with |- context [refresh_snode_cache_complete _ ?m] =>
    destruct (complete_fields (combine_results [r1; r2; r3]) m) as (-> & -> & -> & ->)
  end. split_and!; [|done..]. intros s. rewrite shuffle_perm, combine_results_spec by done.
  rewrite !Forall_cons, Forall_nil. tauto.
Qed.

(** Suspending answers every request that waits for a path. *)
Lemma suspend_answers n :
  let n' := suspend n in
  pall (request_queue n') = [] /\ pall (paths n') = [] /\ suspended n' = true /\
  forall r k, r ∈ pall (request_queue n) -> cb_owes k r.2 = 1%nat ->
    OutResponse k false false error_network_suspended plain (Some (bs "Network is suspended.")) ∈ outputs n'.
Proof.
  unfold suspend, _close_connections. cbv zeta.
  match goal with |- context [foldl ?f ?m ?l] => set (m1 := m); set (q := l) end.
  destruct (foldl_failure_outputs false error_network_suspended plain (Some (bs "Network is suspended.")) q m1) as [_ Ho].
  pose proof (mv_suspended 0 _ _ _ _ (tr_moves 0 _ _ _ _ (trans_foldl_failure 0 false error_network_suspended plain (Some (bs "Network is suspended.")) q m1))) as Es.
  destruct (foldl_failure false error_network_suspended plain (Some (bs "Network is suspended.")) q m1) as (Eq & _ & _).
  revert Ho Es Eq. match goal with |- context [foldl ?f m1 q] => generalize (foldl f m1 q) end. intros m2 Ho Es Eq.
  match goal with |- context [update_status st_disconnected ?m] => set (m3 := m) end.
  assert (E3 : let m4 := update_status st_disconnected m3 in
    request_queue m4 = pempty /\ paths m4 = pempty /\ suspended m4 = true /\ outputs m2 ⊆ outputs m4).
  { unfold update_status. repeat case_bool_decide; cbn; split_and!; try done; set_solver. }
  cbv zeta in E3. revert E3. generalize (update_status st_disconnected m3) as m4. clear m3. intros m4 (-> & -> & -> & Hsub).
  split_and!; [done..|]. intros r k Hr Hk. apply Hsub. by apply (Ho r).
Qed.
End Lookup.
