(* ===== verification/Community.v ===== *)
(** * Communities

    [community] and [comm_iterator_helper] of [src/config/community.cpp] and its header: the
    address of a room (base URL, room token, server key), its canonical form and its URLs; and the
    search for the next valid entry that the iterators of the user's groups and conversations
    share. *)
From S2P Require Import Prelude OMap Util Internal ConfigData DictField Bencode.

Definition BASE_URL_MAX_LENGTH : Z := 267.
Definition ROOM_MAX_LENGTH : Z := 64.
Definition qs_pubkey : bytes := "?public_key=".

(** [str.rfind(delim)]: the position of the last occurrence. *)
Fixpoint rfind_sub (delim str : bytes) : option nat :=
  match str with
  | [] => if is_empty delim then Some O else None
  | _ :: str' =>
      match rfind_sub delim str' with
      | Some p => Some (S p)
      | None => if bool_decide (take (length delim) str = delim) then Some O else None
      end
  end.

(** ** Canonical forms *)

Definition room_char (c : ascii) : bool :=
  bool_decide (c = "-"%char) || in_range "0" "9" c || bool_decide (c = "_"%char) || in_range "a" "z" c.

(** [canonicalize_room], [canonical_room] *)
Definition canonical_room (room : bytes) : res bytes :=
  let room := make_lc room in
  _ ← throw_if (ROOM_MAX_LENGTH <? size_of room) InvalidArgument;
  _ ← throw_if (is_nil room) InvalidArgument;
  _ ← throw_if (negb (forallb room_char room)) InvalidArgument;
  Ok room.

(** [canonicalize_url], [canonical_url] *)
Definition canonical_url (url : bytes) : res bytes :=
  let! (proto, host, port, path) := parse_url url in
  let result := proto ++ host ++ match port with Some p => ":"%char :: print_int p | None => [] end in
  _ ← throw_if (match path with Some _ => true | None => false end) InvalidArgument;
  _ ← throw_if (BASE_URL_MAX_LENGTH <? size_of result) InvalidArgument;
  Ok result.

(** [struct community] *)
Record community := {
  base_url_ : bytes;
  room_ : bytes;
  localized_room_ : option bytes;
  pubkey_ : bytes
}.
Definition empty_community : community :=
  {| base_url_ := []; room_ := []; localized_room_ := None; pubkey_ := [] |}.

(** [room()]: with the letter case preserved, if it is known. *)
Definition comm_room (c : community) : bytes := value_or (localized_room_ c) (room_ c).

Definition set_base_url (c : community) (new_url : bytes) : res community :=
  url ← canonical_url new_url;
  Ok {| base_url_ := url; room_ := room_ c; localized_room_ := localized_room_ c; pubkey_ := pubkey_ c |}.

Definition set_room (c : community) (room : bytes) : res community :=
  r ← canonical_room room;
  Ok {| base_url_ := base_url_ c; room_ := r; localized_room_ := Some room; pubkey_ := pubkey_ c |}.

(** [set_pubkey(std::span<const unsigned char>)] *)
Definition set_pubkey (c : community) (pubkey : bytes) : res community :=
  _ ← throw_if (negb (size_of pubkey =? 32)) InvalidArgument;
  Ok {| base_url_ := base_url_ c; room_ := room_ c; localized_room_ := localized_room_ c; pubkey_ := pubkey |}.

(** [community(base_url, room)], [community(base_url, room, pubkey)] *)
Definition new_community (base_url room : bytes) : res community :=
  c ← set_base_url empty_community base_url; set_room c room.
Definition new_community_pk (base_url room pubkey : bytes) : res community :=
  c ← new_community base_url room; set_pubkey c pubkey.

Section WithEncodings.
Context `{TextEncodings}.

(** [set_pubkey(std::string_view)], [community(base_url, room, pubkey_encoded)] *)
Definition set_encoded_pubkey (c : community) (pubkey : bytes) : res community :=
  pk ← decode_pubkey pubkey;
  Ok {| base_url_ := base_url_ c; room_ := room_ c; localized_room_ := localized_room_ c; pubkey_ := pk |}.
Definition new_community_encoded (base_url room pubkey_encoded : bytes) : res community :=
  c ← new_community base_url room; set_encoded_pubkey c pubkey_encoded.

(** [pubkey_hex()], [pubkey_b32z()], [pubkey_b64()] *)
Definition pubkey_hex (c : community) : bytes := to_hex (pubkey_ c).
Definition pubkey_b32z (c : community) : bytes := to_base32z (pubkey_ c).
Definition pubkey_b64 (c : community) : bytes := to_base64 (pubkey_ c).

(** [full_url(base_url, room, pubkey)], [full_url()] *)
Definition make_full_url (base_url room pubkey : bytes) : bytes :=
  base_url ++ "/"%char :: room ++ qs_pubkey ++ to_hex pubkey.
Definition full_url (c : community) : bytes := make_full_url (base_url_ c) (comm_room c) (pubkey_ c).

(** The room token at the end of a URL: after the last [/r/], or else after the last [/]. *)
Definition split_room (url : bytes) : bytes * bytes :=
  match rfind_sub "/r/" url with
  | Some pos => (take pos url, drop (pos + 3) url)
  | None => match rfind_sub "/" url with
            | Some pos => (take pos url, drop (pos + 1) url)
            | None => (url, [])
            end
  end.

(** [parse_partial_url]: (base url, room token, pubkey). *)
Definition parse_partial_url (url : bytes) : res (bytes * bytes * option bytes) :=
  let! (url, maybe_pubkey) :=
    match rfind_sub qs_pubkey url with
    | Some pos => pk ← decode_pubkey (drop (pos + length qs_pubkey) url); Ok (take pos url, Some pk)
    | None => Ok (url, None)
    end in
  let '(url, room_token) := split_room url in
  base_url ← canonical_url url;
  Ok (base_url, room_token, maybe_pubkey).

Definition parse_full_url (url : bytes) : res (bytes * bytes * bytes) :=
  let! (base, rm, maybe_pk) := parse_partial_url url in
  match maybe_pk with Some pk => Ok (base, rm, pk) | None => Throw InvalidArgument end.

Definition set_full_url (c : community) (url : bytes) : res community :=
  let! (b_url, r_token, s_pubkey) := parse_full_url url in
  c ← set_room {| base_url_ := b_url; room_ := room_ c; localized_room_ := localized_room_ c;
                  pubkey_ := pubkey_ c |} r_token;
  Ok {| base_url_ := base_url_ c; room_ := room_ c; localized_room_ := localized_room_ c;
        pubkey_ := s_pubkey |}.
End WithEncodings.

(** ** Searching for the next valid entry *)

(** [comm_iterator_helper]: the servers from the current one on, and the rooms of the current
    server from the current one on.  The iteration ends where a list ends. *)
Record comm_iterator_helper := { it_server : option dict; it_room : option dict }.

Definition comm_done (h : comm_iterator_helper) : bool :=
  match it_server h with Some (_ :: _) => false | _ => true end.

Definition advance (h : comm_iterator_helper) : comm_iterator_helper :=
  match it_room h, it_server h with
  | Some rooms, _ => {| it_server := it_server h; it_room := Some (tail rooms) |}
  | None, Some servers => {| it_server := Some (tail servers); it_room := None |}
  | None, None => h
  end.

Section Load.
(** [Comm]'s own [load], applied to the community with its address. *)
Context {C : Type} (load : community -> dict -> res C).

Definition load_room (base_url pubkey room : bytes) (data_dict : dict) : res C :=
  og ← set_base_url empty_community base_url;
  og ← set_room og room;
  og ← set_pubkey og pubkey;
  load og data_dict.

(** The loop over the rooms: the first one that loads, and the rooms from there on. *)
Fixpoint load_rooms (base_url pubkey : bytes) (rooms : dict) : res (option (C * dict)) :=
  match rooms with
  | [] => Ok None
  | (room, VDict data_dict) :: rest =>
      match load_room base_url pubkey room data_dict with
      | Ok c => Ok (Some (c, rooms))
      | Throw e => if is_std_exception e then load_rooms base_url pubkey rest else Throw e
      end
  | _ :: rest => load_rooms base_url pubkey rest
  end.

(** [load<Comm>(val)]: the loop over the servers. *)
Fixpoint load_servers (servers : dict) (rooms : option dict) :
    res (option C * comm_iterator_helper) :=
  match servers with
  | [] => Ok (None, {| it_server := None; it_room := rooms |})
  | (base_url, VDict server_info) :: rest =>
      match maybe_string server_info "#" with
      | None => load_servers rest None
      | Some pubkey =>
          let rooms := match rooms with
                       | Some r => Some r
                       | None => match mfind (bs "R") server_info with Some (VDict r) => Some r | _ => None end
                       end in
          match rooms with
          | None => load_servers rest None
          | Some r =>
              o ← load_rooms base_url pubkey r;
              match o with
              | Some (c, r') => Ok (Some c, {| it_server := Some servers; it_room := Some r' |})
              | None => load_servers rest None
              end
          end
      end
  | _ :: rest => load_servers rest None
  end.

Definition comm_load (h : comm_iterator_helper) : res (option C * comm_iterator_helper) :=
  match it_server h with Some servers => load_servers servers (it_room h) | None => Ok (None, h) end.
End Load.

(** [UserGroups::iterator::check_it] and [val_loader::load]: the first entry whose key is a
    33-byte id with the prefix and whose value is a dict; the constructor [make] checks the id. *)
Fixpoint load_keyed `{TextEncodings} {C} (make : bytes -> dict -> res C) (prefix : Z) (d : dict) :
    res (option C * option dict) :=
  match d with
  | [] => Ok (None, None)
  | (k, VDict info) :: rest =>
      if (size_of k =? 33) && bool_decide (head k = Some (byte_of prefix))
      then c ← make (to_hex k) info; Ok (Some c, Some d)
      else load_keyed make prefix rest
  | _ :: rest => load_keyed make prefix rest
  end.
Definition load_keyed_at `{TextEncodings} {C} (make : bytes -> dict -> res C) (prefix : Z)
    (it : option dict) : res (option C * option dict) :=
  match it with Some d => load_keyed make prefix d | None => Ok (None, None) end.
