(* ===== verification/CommunityFacts.v ===== *)
(** * Facts about communities

    Canonical URLs and rooms are fixed points of canonicalization; the full URL of a community is
    parsed back to it; and the search for the next entry visits exactly the valid ones. *)
From S2P Require Import Prelude OMap Util Internal ConfigData DictField Bencode Community.

(** ** Canonical URLs *)

Definition host_char (c : ascii) : bool :=
  in_range "0" "9" c || in_range "a" "z" c || bool_decide (c = "-"%char).

Lemma lower_upper c : in_range "A" "Z" c = true -> host_char (lower c) = true.
Proof.
  unfold in_range, lower, host_char. change (byte_val "A") with 65. change (byte_val "Z") with 90.
  intros E. rewrite E. bool_prop. unfold in_range. change (byte_val "a") with 97. change (byte_val "z") with 122.
  rewrite byte_val_of by lia. destruct (97 <=? byte_val c + 32) eqn:E1, (byte_val c + 32 <=? 122) eqn:E2;
    bool_prop; lia.
Qed.

(** Where the host name stops: at the end or at a character that is neither part of a name nor a
    dot. *)
Definition host_end (rest : bytes) : Prop :=
  match rest with
  | [] => True
  | c :: _ => host_char c = false /\ in_range "A" "Z" c = false /\ c <> "."%char
  end.

(** The host that was read is read again, up to where it ends. *)
Lemma parse_host_again url acc acc' dot has_dot h has_dot' rest rest' :
  parse_host url acc dot has_dot = (h, has_dot', rest) -> host_end rest' ->
  exists s, h = acc ++ s /\ parse_host (s ++ rest') acc' dot has_dot = (acc' ++ s, has_dot', rest').
Proof.
  intros Hp Hr. revert acc acc' dot has_dot Hp. induction url as [|c url IH]; intros acc acc' dot has_dot Hp;
    cbn [parse_host] in Hp.
  - injection Hp as <- <- <-. exists []. split; [by rewrite app_nil_r|]. rewrite app_nil_r. cbn [app].
    destruct rest' as [|c rest']; [done|]. destruct Hr as (Hh & Hu & Hd). cbn [parse_host].
    fold (host_char c). rewrite Hh, Hu, (bool_decide_eq_false_2 _ Hd), andb_false_r. done.
  - fold (host_char c) in Hp. destruct (host_char c) eqn:Ec.
    { destruct (IH _ (acc' ++ [c]) _ _ Hp) as (s & -> & Hs). exists (c :: s). rewrite <- app_assoc. split; [done|].
      cbn [app parse_host]. fold (host_char c). rewrite Ec, Hs. by rewrite <- app_assoc. }
    destruct (in_range "A" "Z" c) eqn:Eu.
    { destruct (IH _ (acc' ++ [lower c]) _ _ Hp) as (s & -> & Hs). exists (lower c :: s). rewrite <- app_assoc.
      split; [done|]. cbn [app parse_host]. fold (host_char (lower c)).
      rewrite (lower_upper _ Eu), Hs. by rewrite <- app_assoc. }
    destruct (dot && bool_decide (c = "."%char)) eqn:Ed.
    { destruct (IH _ (acc' ++ [c]) _ _ Hp) as (s & -> & Hs). exists (c :: s). rewrite <- app_assoc. split; [done|].
      cbn [app parse_host]. fold (host_char c). rewrite Ec, Eu, Ed, Hs. by rewrite <- app_assoc. }
    injection Hp as <- <- <-. exists []. split; [by rewrite app_nil_r|]. rewrite app_nil_r. cbn [app].
    destruct rest' as [|c' rest']; [done|]. destruct Hr as (Hh & Hu & Hd). cbn [parse_host].
    fold (host_char c'). rewrite Hh, Hu, (bool_decide_eq_false_2 _ Hd), andb_false_r. done.
Qed.

(** A host name has no slash (nor other characters that are not of a name). *)
Lemma parse_host_chars url acc dot has_dot h has_dot' rest :
  parse_host url acc dot has_dot = (h, has_dot', rest) ->
  Forall (fun c => host_char c || bool_decide (c = "."%char) = true) acc ->
  Forall (fun c => host_char c || bool_decide (c = "."%char) = true) h.
Proof.
  revert acc dot has_dot. induction url as [|c url IH]; intros acc dot has_dot Hp Ha; cbn [parse_host] in Hp.
  - by injection Hp as <- <- <-.
  - fold (host_char c) in Hp. destruct (host_char c) eqn:Ec.
    { eapply IH; [done|]. apply Forall_app_2; [done|]. repeat constructor. by rewrite Ec. }
    destruct (in_range "A" "Z" c) eqn:Eu.
    { eapply IH; [done|]. apply Forall_app_2; [done|]. repeat constructor. by rewrite lower_upper. }
    destruct (dot && bool_decide (c = "."%char)) eqn:Ed; [|by injection Hp as <- <- <-].
    apply andb_true_iff in Ed as [_ Ed]. eapply IH; [done|]. apply Forall_app_2; [done|].
    repeat constructor. by rewrite Ed, orb_true_r.
Qed.

(** ** Ports *)

Lemma take_digits_parse a s : take_digits a s = parse_digits a s.
Proof.
  revert a; induction s as [|c s IH]; intros a; [done|]. cbn. unfold in_range, digit_of.
  change (byte_val "0") with 48. change (byte_val "9") with 57.
  destruct ((48 <=? byte_val c) && (byte_val c <=? 57)); [apply IH|done].
Qed.

Lemma take_digits_nonneg s a v r : take_digits a s = (v, r) -> 0 <= a -> 0 <= v.
Proof.
  revert a; induction s as [|c s IH]; intros a Ht Ha; cbn in Ht; [by simplify_eq|].
  unfold in_range in Ht. change (byte_val "0") with 48 in Ht. destruct (48 <=? byte_val c) eqn:E; cbn in Ht.
  - destruct (byte_val c <=? byte_val "9"); [|by simplify_eq]. eapply IH; [done|]. bool_prop. lia.
  - by simplify_eq.
Qed.

Lemma from_chars_range s p r : from_chars_u16 s = Some (p, r) -> 0 <= p <= 65535.
Proof.
  unfold from_chars_u16. destruct s as [|c s]; [done|]. destruct (in_range _ _ c); [|done].
  destruct (take_digits 0 (c :: s)) as [v r'] eqn:E. destruct (v <=? 65535) eqn:Ev; [|done].
  intros [= <- <-]. apply take_digits_nonneg in E; [|done]. bool_prop. lia.
Qed.

Lemma from_chars_print p : 0 <= p <= 65535 -> from_chars_u16 (print_int p) = Some (p, []).
Proof.
  intros Hp. unfold print_int. rewrite (proj2 (Z.ltb_ge _ _)) by lia.
  assert (take_digits 0 (print_nat p) = (p, [])) as Ht.
  { rewrite take_digits_parse. unfold print_nat.
    destruct (parse_print_digits (S (Z.to_nat (Z.log2 p))) p [] 0) as (k & _ & ->); [lia..|].
    cbn. f_equal; lia. }
  destruct (print_nat_head p) as (d & r & Hd & E); [lia|]. rewrite E in *. unfold from_chars_u16.
  rewrite Ht, (proj2 (Z.leb_le _ _)) by lia.
  assert (in_range "0" "9" (digit_char d) = true) as ->; [|done].
  unfold in_range, digit_char. change (byte_val "0") with 48. change (byte_val "9") with 57.
  rewrite byte_val_of by lia. apply andb_true_iff. lia.
Qed.

Definition is_slash (c : ascii) : bool := bool_decide (c = "/"%char).

Lemma print_int_chars p : 0 <= p -> Forall (fun c => in_range "0" "9" c = true) (print_int p).
Proof.
  intros Hp. unfold print_int. rewrite (proj2 (Z.ltb_ge _ _)) by lia. unfold print_nat.
  generalize (S (Z.to_nat (Z.log2 p))) as fuel. intros fuel.
  assert (forall acc, Forall (fun c => in_range "0" "9" c = true) acc ->
    Forall (fun c => in_range "0" "9" c = true) (print_digits fuel p acc)) as Hg; [|by apply Hg].
  revert p Hp. induction fuel as [|fuel IH]; intros p Hp acc Ha; [done|]. cbn [print_digits].
  assert (Forall (fun c => in_range "0" "9" c = true) (digit_char (p mod 10) :: acc)).
  { constructor; [|done]. unfold in_range, digit_char. change (byte_val "0") with 48. change (byte_val "9") with 57.
    pose proof (Z.mod_pos_bound p 10 ltac:(lia)). rewrite byte_val_of by lia. apply andb_true_iff. lia. }
  destruct (p / 10 =? 0); [done|]. apply IH; [|done]. apply Z.div_pos; lia.
Qed.

(** ** Canonical URLs and rooms *)

Definition port_text (port : option Z) : bytes :=
  match port with Some p => ":"%char :: print_int p | None => [] end.

(** The parts of a canonical URL. *)
Record canonical_parts (proto host : bytes) (port : option Z) : Prop := {
  cp_proto : proto = bs "http://" \/ proto = bs "https://";
  cp_host : forall rest, host_end rest -> parse_host (host ++ rest) [] false false = (host, true, rest);
  cp_chars : Forall (fun c => host_char c || bool_decide (c = "."%char) = true) host;
  cp_length : (4 <= length host)%nat;
  cp_last : last host <> Some "."%char;
  cp_port : match port with
            | Some p => 0 <= p <= 65535 /\ ~ (p = 80 /\ proto = bs "http://") /\ ~ (p = 443 /\ proto = bs "https://")
            | None => True
            end
}.

Lemma parse_url_inv u proto host port path :
  parse_url u = Ok (proto, host, port, path) -> canonical_parts proto host port.
Proof.
  unfold parse_url. destruct (find_sub _ u) as [pos|]; [|done]. intros Hp.
  set (r := if string_iequal (take pos u) "http" then _ else _) in Hp.
  destruct r as [[pr url]|] eqn:Er; [|done].
  assert (pr = bs "http://" \/ pr = bs "https://") as Hpr.
  { unfold r in Er. destruct (string_iequal _ "http"); [injection Er as <- <-; by left|].
    destruct (string_iequal _ "https"); [injection Er as <- <-; by right|done]. }
  clear r Er. destruct (parse_host url [] false false) as [[h hd] rest] eqn:Eh.
  destruct (_ || _) eqn:Ec in Hp; [done|]. cbn [throw_if] in Hp.
  apply orb_false_iff in Ec as [[El Ed]%orb_false_iff Elast%bool_decide_eq_false].
  apply negb_false_iff in Ed. apply Nat.ltb_ge in El. subst hd.
  assert (h = host /\ pr = proto /\ match port with
    | Some p => 0 <= p <= 65535 /\ ~ (p = 80 /\ pr = bs "http://") /\ ~ (p = 443 /\ pr = bs "https://")
    | None => True end) as (<- & <- & Hport).
  { destruct rest as [|c rest]; [by simplify_eq|]. destruct (bool_decide (c = _)) in Hp; [|by simplify_eq].
    destruct (from_chars_u16 rest) as [[p r]|] eqn:Ef; [|done]. apply from_chars_range in Ef.
    destruct (_ || _) eqn:Eo in Hp; simplify_eq; [done|]. apply orb_false_iff in Eo as [E1 E2].
    apply andb_false_iff in E1 as [E1|E1], E2 as [E2|E2]; bool_prop; naive_solver. }
  split; try done.
  - intros rest' Hr. by destruct (parse_host_again _ _ [] _ _ _ _ _ rest' Eh Hr) as (s & -> & Hs).
  - by eapply parse_host_chars.
Qed.

Lemma host_end_port port : host_end (port_text port).
Proof. by destruct port. Qed.

Lemma parse_url_parts proto host port :
  canonical_parts proto host port -> parse_url (proto ++ host ++ port_text port) = Ok (proto, host, port, None).
Proof.
  intros [Hp Hh _ Hl Ha Hport].
  assert (find_sub "://" (proto ++ host ++ port_text port) = Some (length proto - 3)%nat /\
    (if string_iequal (take (length proto - 3) (proto ++ host ++ port_text port)) "http"
     then Ok (bs "http://", drop (length proto - 3 + 3) (proto ++ host ++ port_text port))
     else if string_iequal (take (length proto - 3) (proto ++ host ++ port_text port)) "https"
     then Ok (bs "https://", drop (length proto - 3 + 3) (proto ++ host ++ port_text port))
     else Throw InvalidArgument) = Ok (proto, host ++ port_text port)) as [Hf Hpr].
  { by destruct Hp as [-> | ->]. }
  unfold parse_url. rewrite Hf, Hpr. cbv beta iota. rewrite Hh by apply host_end_port.
  rewrite (proj2 (Nat.ltb_ge _ _) Hl), (bool_decide_eq_false_2 _ Ha). cbn [negb orb throw_if].
  destruct port as [p|]; [|done]. cbn [port_text]. destruct Hport as (Hr & H80 & H443).
  rewrite bool_decide_eq_true_2, from_chars_print by done.
  destruct (_ || _) eqn:Eo; [|done]. exfalso. apply orb_true_iff in Eo as [E|E]; bool_prop; naive_solver.
Qed.

Lemma canonical_url_inv u r :
  canonical_url u = Ok r ->
  exists proto host port, canonical_parts proto host port /\ r = proto ++ host ++ port_text port /\
    size_of r <= BASE_URL_MAX_LENGTH.
Proof.
  unfold canonical_url. destruct (parse_url u) as [[[[proto host] port] path]|] eqn:E; [|done].
  intros Hc. res_step Hc. res_step Hc. injection Hc as <-. apply parse_url_inv in E.
  exists proto, host, port. split_and!; [done|done|]. destruct (_ <? _) eqn:El in E1; [done|]. by bool_prop.
Qed.

Lemma canonical_url_fix u r : canonical_url u = Ok r -> canonical_url r = Ok r.
Proof.
  intros (proto & host & port & Hc & -> & Hs)%canonical_url_inv. unfold canonical_url.
  rewrite parse_url_parts by done. fold (port_text port).
  by rewrite (proj2 (Z.ltb_ge _ _) Hs).
Qed.

Lemma lower_fix c : room_char c = true -> lower c = c.
Proof.
  unfold room_char, lower, in_range. change (byte_val "0") with 48. change (byte_val "9") with 57.
  change (byte_val "a") with 97. change (byte_val "z") with 122. intros Hc.
  destruct ((65 <=? byte_val c) && (byte_val c <=? 90)) eqn:E; [|done]. bool_prop.
  repeat match type of Hc with (_ || _) = true => apply orb_true_iff in Hc as [Hc|Hc] end; bool_prop; try lia; subst; exfalso; by vm_compute in *.
Qed.

Lemma canonical_room_inv room r :
  canonical_room room = Ok r ->
  r = make_lc room /\ forallb room_char r = true /\ r <> [] /\ size_of r <= ROOM_MAX_LENGTH.
Proof.
  unfold canonical_room. intros Hc. cbv zeta in Hc. res_step Hc. res_step Hc. res_step Hc. injection Hc as <-.
  unfold throw_if in *. destruct (_ <? _) eqn:E3 in E; [done|]. destruct (is_nil _) eqn:E4 in E0; [done|].
  destruct (negb _) eqn:E5 in E1; [done|]. bool_prop. split_and!; try done. by intros E6; rewrite E6 in E4.
Qed.

Lemma canonical_room_fix room r : canonical_room room = Ok r -> canonical_room r = Ok r.
Proof.
  intros (-> & Hf & Hn & Hs)%canonical_room_inv.
  assert (make_lc (make_lc room) = make_lc room) as Hl.
  { revert Hf. generalize (make_lc room). unfold make_lc. intros s. induction s as [|c s IH]; [done|]. cbn.
    intros [Hc Hb]%andb_true_iff. by rewrite lower_fix, IH. }
  unfold canonical_room. rewrite Hl, Hf, (proj2 (Z.ltb_ge _ _) Hs). cbn.
  by destruct (make_lc room).
Qed.

(** ** Full URLs *)

Lemma rfind_cons d delim c s :
  c <> d -> rfind_sub (d :: delim) (c :: s) = S <$> rfind_sub (d :: delim) s.
Proof.
  intros Hc. cbn. destruct (rfind_sub _ s); [done|]. cbn. rewrite bool_decide_eq_false_2; [done|]. congruence.
Qed.

Lemma rfind_none d delim s : d ∉ s -> rfind_sub (d :: delim) s = None.
Proof.
  induction s as [|c s IH]; [done|]. intros [Hc Hs]%not_elem_of_cons. by rewrite rfind_cons, IH.
Qed.

Lemma rfind_app_none d delim p s :
  d ∉ p -> rfind_sub (d :: delim) s = None -> rfind_sub (d :: delim) (p ++ s) = None.
Proof.
  intros Hp Hs. induction p as [|c p IH]; [done|]. apply not_elem_of_cons in Hp as [Hc Hp].
  cbn [app]. by rewrite rfind_cons, IH.
Qed.

(** The last occurrence: nothing of the delimiter comes after it. *)
Lemma rfind_last d delim pre post :
  rfind_sub (d :: delim) (delim ++ post) = None ->
  rfind_sub (d :: delim) (pre ++ (d :: delim) ++ post) = Some (length pre).
Proof.
  intros Hn. induction pre as [|c pre IH].
  - cbn -[take]. rewrite Hn, bool_decide_eq_true_2; [done|]. apply (take_app_length (d :: delim) post).
  - cbn [app rfind_sub]. change ((d :: delim) ++ post) with (d :: delim ++ post) in IH. by rewrite IH.
Qed.

(** A room token has no slash and no question mark. *)
Lemma room_no_special room r c :
  canonical_room room = Ok r -> c ∈ ["/"; "?"]%char -> c ∉ room.
Proof.
  intros (-> & Hf & _)%canonical_room_inv Hc Hin. rewrite forallb_forall in Hf.
  specialize (Hf (lower c) (in_map lower _ _ (proj1 (list_elem_of_In _ _) Hin))).
  by apply elem_of_cons in Hc as [-> | ->%list_elem_of_singleton].
Qed.

(** Nor does the address of the server after its protocol. *)
Lemma server_no_slash proto host port c :
  canonical_parts proto host port -> c ∈ ["/"; "?"]%char -> c ∉ host ++ port_text port.
Proof.
  intros Hp Hc [Hin|Hin]%elem_of_app.
  - pose proof (cp_chars _ _ _ Hp) as Hh. rewrite Forall_forall in Hh. specialize (Hh c Hin).
    by apply elem_of_cons in Hc as [-> | ->%list_elem_of_singleton].
  - destruct port as [p|]; [|by apply not_elem_of_nil in Hin]. cbn [port_text] in Hin.
    apply elem_of_cons in Hin as [-> |Hin]; [set_solver|].
    pose proof (cp_port _ _ _ Hp) as [[Hr _] _]. pose proof (print_int_chars p Hr) as Hd.
    rewrite Forall_forall in Hd. specialize (Hd c Hin).
    by apply elem_of_cons in Hc as [-> | ->%list_elem_of_singleton].
Qed.

Lemma rfind_r_room room : "/"%char ∉ room -> rfind_sub "/r/" ("/"%char :: room) = None.
Proof.
  intros Hr. change (bs "/r/") with ("/" :: ["r"; "/"])%char. cbn [rfind_sub].
  rewrite rfind_none by done. rewrite bool_decide_eq_false_2; [done|].
  destruct room as [|c [|c' room]]; [done..|]. intros [= -> -> ]. set_solver.
Qed.

(** Splitting the room off both forms of the URL. *)
Lemma split_room_url u base room r sep :
  canonical_url u = Ok base -> canonical_room room = Ok r -> sep = bs "/" \/ sep = bs "/r/" ->
  split_room (base ++ sep ++ room) = (base, room).
Proof.
  intros (proto & host & port & Hp & -> & _)%canonical_url_inv Hr Hsep.
  assert ("/"%char ∉ room) as Hroom by (eapply room_no_special; [done|set_solver]).
  pose proof (rfind_r_room room Hroom) as Hrr.
  pose proof (server_no_slash _ _ _ "/"%char Hp ltac:(set_solver)) as Hs.
  unfold split_room. destruct Hsep as [-> | ->].
  - assert (rfind_sub "/r/" ((proto ++ host ++ port_text port) ++ "/" ++ room) = None) as ->.
    { rewrite <- app_assoc. remember (host ++ port_text port) as hp eqn:Ehp.
      assert (2 <= length hp)%nat as Hl.
      { rewrite Ehp, length_app. pose proof (cp_length _ _ _ Hp). lia. }
      pose proof (rfind_app_none "/" ["r"; "/"]%char hp ("/"%char :: room) Hs Hrr) as Hn.
      destruct hp as [|a [|b hp]]; [cbn in Hl; lia..|]. change (bs "/" ++ room) with ("/"%char :: room).
      assert (b <> "/"%char) as Hb by set_solver.
      change (bs "/r/") with ("/" :: ["r"; "/"])%char.
      remember ((a :: b :: hp) ++ "/"%char :: room) as rest eqn:Erest.
      assert (rfind_sub ["/"; "r"; "/"]%char ("/"%char :: rest) = None) as Hn2.
      { cbn [rfind_sub]. rewrite Hn, bool_decide_eq_false_2; [done|]. subst rest. cbn. congruence. }
      assert (rfind_sub ["/"; "r"; "/"]%char ("/"%char :: "/"%char :: rest) = None) as Hn3.
      { cbn [rfind_sub] in *. rewrite Hn2, bool_decide_eq_false_2; [done|]. by subst rest. }
      destruct (cp_proto _ _ _ Hp) as [-> | ->]; cbn [bs list_ascii_of_string app];
        repeat (rewrite rfind_cons by done); by rewrite Hn3. }
    change (bs "/") with ["/"%char].
    rewrite (rfind_last "/" [] (proto ++ host ++ port_text port) room) by (by apply rfind_none).
    by rewrite take_app_length, drop_app_add.
  - change (bs "/r/") with ["/"; "r"; "/"]%char.
    rewrite (rfind_last "/" ["r"; "/"]%char (proto ++ host ++ port_text port) room).
    { by rewrite take_app_length, drop_app_add. }
    cbn [app]. change (bs "/r/") with ["/"; "r"; "/"]%char in Hrr. by rewrite rfind_cons, Hrr by done.
Qed.

Section WithEncodings.
Context `{TextEncodings}.

Lemma decode_hex_pubkey pk : size_of pk = 32 -> decode_pubkey (to_hex pk) = Ok pk.
Proof.
  intros Hs. unfold decode_pubkey, hex_pubkey. by rewrite to_hex_size, Hs, is_hex_to_hex, from_to_hex.
Qed.

Lemma hex_no_question b : "?"%char ∉ to_hex b.
Proof. intros Hin. by apply (is_hex_digits _ _ (is_hex_to_hex b)) in Hin. Qed.

(** Both forms of a community's URL are parsed back to its parts. *)
Lemma parse_url_forms u base room r pk sep :
  canonical_url u = Ok base -> canonical_room room = Ok r -> size_of pk = 32 ->
  sep = bs "/" \/ sep = bs "/r/" ->
  parse_full_url (base ++ sep ++ room ++ qs_pubkey ++ to_hex pk) = Ok (base, room, pk).
Proof.
  intros Hu Hr Hpk Hsep. unfold parse_full_url, parse_partial_url.
  assert (base ++ sep ++ room ++ qs_pubkey ++ to_hex pk = (base ++ sep ++ room) ++ qs_pubkey ++ to_hex pk) as ->
    by (by rewrite <- !app_assoc).
  assert (rfind_sub qs_pubkey ((base ++ sep ++ room) ++ qs_pubkey ++ to_hex pk) = Some (length (base ++ sep ++ room)))
    as ->.
  { apply (rfind_last "?" "public_key=" (base ++ sep ++ room) (to_hex pk)).
    apply rfind_none. intros [Hin|Hin]%elem_of_app; [by vm_compute in Hin; set_solver|by apply hex_no_question in Hin]. }
  rewrite take_app_length, drop_app_add, (drop_app_length qs_pubkey), decode_hex_pubkey by done.
  cbn [mbind res_bind]. rewrite (split_room_url u base room r sep) by done.
  by rewrite (canonical_url_fix u base Hu).
Qed.
End WithEncodings.

(** What the canonical forms throw. *)
Lemma parse_url_throws u e : parse_url u = Throw e -> e = InvalidArgument.
Proof.
  unfold parse_url, throw_if. intros Hp.
  repeat first [ discriminate Hp | congruence
               | match type of Hp with context [match ?x with _ => _ end] =>
                   lazymatch x with context [match _ with _ => _ end] => fail | _ => destruct x end
                 end ].
Qed.
Lemma canonical_url_throws u e : canonical_url u = Throw e -> e = InvalidArgument.
Proof.
  unfold canonical_url, throw_if. destruct (parse_url u) as [[[[? ?] ?] ?]|e'] eqn:E.
  - destruct o0; cbn; [congruence|]. destruct (_ <? _); cbn; congruence.
  - intros [= <-]. by eapply parse_url_throws.
Qed.
Lemma canonical_room_throws r e : canonical_room r = Throw e -> e = InvalidArgument.
Proof.
  unfold canonical_room, throw_if. cbv zeta. destruct (_ <? _); cbn; [congruence|].
  destruct (is_nil _); cbn; [congruence|]. destruct (negb _); cbn; congruence.
Qed.

(** ** The search for the next entry *)

Section Search.
Context `{TextEncodings} {C : Type}.

(** The valid entries of a dict of ids. *)
Definition keyed_entry (make : bytes -> dict -> C) (prefix : Z) (e : bytes * dict_value) : option C :=
  match e.2 with
  | VDict info => if (size_of e.1 =? 33) && bool_decide (head e.1 = Some (byte_of prefix))
                  then Some (make (to_hex e.1) info) else None
  | _ => None
  end.
Definition keyed_entries (make : bytes -> dict -> C) (prefix : Z) (d : dict) : list C :=
  omap (keyed_entry make prefix) d.

(** The hex of an id with the right prefix passes the check of the constructors. *)
Lemma check_hex_id k prefix p :
  size_of k = 33 -> head k = Some (byte_of p) -> to_hex [byte_of p] = prefix -> size_of prefix = 2 ->
  check_session_id (to_hex k) prefix = Ok tt.
Proof.
  intros Hs Hh Hp Hl. destruct k as [|c k]; [done|]. injection Hh as ->.
  unfold check_session_id. rewrite to_hex_size, is_hex_to_hex, Hs, Hl. cbn [Z.eqb].
  change (byte_of p :: k) with ([byte_of p] ++ k). rewrite to_hex_app, Hp, take_app_length.
  rewrite bool_decide_eq_true_2 by done. done.
Qed.

Lemma load_keyed_spec (makeM : bytes -> dict -> res C) make prefix d :
  (forall k info, size_of k = 33 -> head k = Some (byte_of prefix) ->
     makeM (to_hex k) info = Ok (make (to_hex k) info)) ->
  match keyed_entries make prefix d with
  | [] => load_keyed makeM prefix d = Ok (None, None)
  | c :: l => exists d', load_keyed makeM prefix d = Ok (Some c, Some d') /\
                keyed_entries make prefix (tail d') = l
  end.
Proof.
  intros Hm. induction d as [|[k v] d IH]; [done|]. unfold keyed_entries in *. cbn [omap list_omap load_keyed].
  destruct v as [info|s|s]; [|done..]. unfold keyed_entry at 1. cbn [fst snd].
  destruct (_ && _) eqn:E; [|done]. apply andb_true_iff in E as [Es%Z.eqb_eq Eh%bool_decide_eq_true].
  exists ((k, VDict info) :: d). by rewrite Hm.
Qed.

(** The communities that load. *)
Variable load : community -> dict -> res C.
Hypothesis load_throws : forall c d e, load c d = Throw e -> is_std_exception e = true.

Definition room_entry (base_url pubkey : bytes) (e : bytes * dict_value) : option C :=
  match e.2 with
  | VDict data => match load_room load base_url pubkey e.1 data with Ok c => Some c | Throw _ => None end
  | _ => None
  end.
Definition server_rooms (server_info : dict) : dict :=
  match mfind (bs "R") server_info with Some (VDict r) => r | _ => [] end.
Definition rooms_entries (base_url : bytes) (server_info rooms : dict) : list C :=
  match maybe_string server_info "#" with
  | Some pubkey => omap (room_entry base_url pubkey) rooms
  | None => []
  end.
Definition server_entry (e : bytes * dict_value) : list C :=
  match e.2 with VDict si => rooms_entries e.1 si (server_rooms si) | _ => [] end.
Definition server_entries (servers : dict) : list C := mjoin (server_entry <$> servers).

(** What an iterator has still to visit. *)
Definition comm_rest (h : comm_iterator_helper) : list C :=
  match it_server h with
  | None | Some [] => []
  | Some ((base_url, v) :: rest) =>
      match v, it_room h with
      | VDict si, Some rooms => rooms_entries base_url si rooms
      | _, _ => server_entry (base_url, v)
      end ++ server_entries rest
  end.

Lemma load_room_throws base_url pubkey room data e :
  load_room load base_url pubkey room data = Throw e -> is_std_exception e = true.
Proof.
  unfold load_room, set_base_url, set_room, set_pubkey. intros Hl.
  destruct (canonical_url base_url) as [u|e'] eqn:Eu; cbn in Hl;
    [|injection Hl as <-; by apply canonical_url_throws in Eu as ->].
  destruct (canonical_room room) as [r|e'] eqn:Er; cbn in Hl;
    [|injection Hl as <-; by apply canonical_room_throws in Er as ->].
  destruct (size_of pubkey =? 32); cbn in Hl; [by eapply load_throws|]. by injection Hl as <-.
Qed.

Lemma load_rooms_spec base_url pubkey (rooms : dict) :
  match omap (room_entry base_url pubkey) rooms with
  | [] => load_rooms load base_url pubkey rooms = Ok None
  | c :: l => exists r', load_rooms load base_url pubkey rooms = Ok (Some (c, r')) /\
                omap (room_entry base_url pubkey) (tail r') = l
  end.
Proof.
  induction rooms as [|[room v] rooms IH]; [done|]. cbn [omap list_omap load_rooms].
  destruct v as [data|s|s]; [|done..]. unfold room_entry at 1. cbn [fst snd].
  destruct (load_room load base_url pubkey room data) as [c|e] eqn:El.
  - by exists ((room, VDict data) :: rooms).
  - by rewrite (load_room_throws _ _ _ _ _ El).
Qed.

Lemma load_servers_none servers :
  match server_entries servers with
  | [] => load_servers load servers None = Ok (None, {| it_server := None; it_room := None |})
  | c :: l => exists h', load_servers load servers None = Ok (Some c, h') /\ comm_rest (advance h') = l
  end.
Proof.
  induction servers as [|[u v] servers IH]; [done|]. unfold server_entries in *. cbn [fmap list_fmap mjoin list_join].
  unfold server_entry at 1. cbn [fst snd load_servers]. destruct v as [si|s|s]; [|done..].
  unfold rooms_entries, server_rooms. destruct (maybe_string si "#") as [pk|] eqn:Ep; [|done].
  destruct (mfind (bs "R") si) as [[r|?|?]|]; try done.
  pose proof (load_rooms_spec u pk r) as Hr. destruct (omap (room_entry u pk) r) as [|c l].
  - rewrite Hr. cbn [mbind res_bind app]. done.
  - destruct Hr as (r' & -> & Hl). cbn [mbind res_bind app]. eexists. split; [done|].
    unfold comm_rest, advance. cbn. unfold rooms_entries. by rewrite Ep, Hl.
Qed.

(** A call finds the first entry that is left, and the rest is what comes after it. *)
Lemma comm_load_spec h :
  match comm_rest h with
  | [] => exists h', comm_load load h = Ok (None, h')
  | c :: l => exists h', comm_load load h = Ok (Some c, h') /\ comm_rest (advance h') = l
  end.
Proof.
  unfold comm_rest at 1, comm_load. destruct (it_server h) as [servers|] eqn:Es; [|by eexists].
  destruct servers as [|[u v] servers]; [by eexists|].
  destruct v as [si|s|s]; [|pose proof (load_servers_none servers) as Hn; unfold server_entry; cbn [snd app load_servers];
    destruct (server_entries servers); [by eexists|done]..].
  destruct (it_room h) as [rooms|] eqn:Er.
  - unfold rooms_entries. cbn [load_servers]. pose proof (load_servers_none servers) as Hn.
    destruct (maybe_string si "#") as [pk|] eqn:Ep; cycle 1.
    { cbn [app]. destruct (server_entries servers); [by eexists|done]. }
    pose proof (load_rooms_spec u pk rooms) as Hr. destruct (omap (room_entry u pk) rooms) as [|c l].
    + rewrite Hr. cbn [mbind res_bind app]. destruct (server_entries servers); [by eexists|done].
    + destruct Hr as (r' & -> & Hl). cbn [mbind res_bind app]. eexists. split; [done|].
      unfold comm_rest, advance. cbn. unfold rooms_entries. by rewrite Ep, Hl.
  - pose proof (load_servers_none ((u, VDict si) :: servers)) as Hn.
    change (server_entries ((u, VDict si) :: servers)) with (server_entry (u, VDict si) ++ server_entries servers) in Hn.
    destruct (_ ++ _); [by eexists|done].
Qed.
End Search.
