(* ===== verification/UserProfileConfig.v ===== *)
(** * The user profile and the local settings

    [UserProfile] of [src/config/user_profile.cpp], [Local] of [src/config/local.cpp],
    [profile_pic] and the enumerations of [include/session/config/]. *)
From S2P Require Import Prelude OMap Util BtValue ThirdParty ConfigData ConfigParse.
From S2P Require Import ConfigMessage Encrypt SessionEncrypt Protos ConfigBase Multipart.
From S2P Require Import BaseSync DictField.
From S2P Require Import ConfigDataFacts.
From S2P Require Import ConfigParseFacts MessageFacts MergeFacts.
From S2P Require Import ReplayFacts.
From S2P Require Import BaseFacts DictFieldFacts.

(** [profile_pic] *)
Record profile_pic := { pic_url : bytes; pic_key : bytes }.
Definition empty_pic : profile_pic := {| pic_url := []; pic_key := [] |}.
Definition pic_empty (p : profile_pic) : bool := is_nil (pic_url p) || negb (size_of (pic_key p) =? 32).
Definition check_key (key : bytes) : res unit :=
  throw_if (negb (is_nil key || (size_of key =? 32))) InvalidArgument.
Definition make_pic (url key : bytes) : res profile_pic :=
  _ ← check_key key; Ok {| pic_url := url; pic_key := key |}.

(** [notify_mode], [notify_content], [theme], [theme_primary_color]: enumerations by number. *)
Definition notify_content_max : Z := 3.
Definition theme_max : Z := 4.
Definition theme_primary_color_max : Z := 7.

Definition MAX_NAME_LENGTH : nat := 100.

Definition user_profile_type : ConfigType :=
  {| storage_namespace := UserProfile; encryption_domain := "UserProfile";
     compression_level := Some 1; config_lags := 5; accepts_protobuf := true; keeps_extra := false |}.
Definition local_type : ConfigType :=
  {| storage_namespace := UserProfile; encryption_domain := "Local";
     compression_level := Some 1; config_lags := 5; accepts_protobuf := false; keeps_extra := false |}.

Section WithLibraries.
Context `{Oxenc} `{CryptoBox} `{Aead} `{Zstd} `{Protobuf}.

(** ** UserProfile *)

Definition new_user_profile (now : Z) (ed25519_secretkey : bytes) (dumped : option bytes) :
    res ConfigBase :=
  b ← init user_profile_type now dumped None None; load_key b ed25519_secretkey.

Definition get_name (b : ConfigBase) : option bytes :=
  match get_string b (root_field "n") with
  | Some s => if is_nil s then None else Some s
  | None => None
  end.

Definition set_name (b : ConfigBase) (new_name : bytes) : res ConfigBase :=
  _ ← throw_if (MAX_NAME_LENGTH <? length new_name)%nat InvalidArgument;
  set_nonempty_str b (root_field "n") new_name.

Definition set_name_truncated (b : ConfigBase) (new_name : bytes) : res ConfigBase :=
  set_name b (utf8_truncate new_name MAX_NAME_LENGTH).

Definition get_profile_pic (b : ConfigBase) : profile_pic :=
  {| pic_url := string_or b (root_field "p") [];
     pic_key := match get_string b (root_field "q") with
                | Some key => if size_of key =? 32 then key else []
                | None => []
                end |}.

Definition set_profile_pic (b : ConfigBase) (url key : bytes) : res ConfigBase :=
  set_pair_if b (negb (is_nil url) && (size_of key =? 32))
    (root_field "p") (VScalar (SStr url)) (root_field "q") (VScalar (SStr key)).

Definition set_nts_priority (b : ConfigBase) (priority : Z) : res ConfigBase :=
  set_nonzero_int b (root_field "+") priority.
Definition get_nts_priority (b : ConfigBase) : Z := to_int (integer_or b (root_field "+") 0).

Definition set_nts_expiry (b : ConfigBase) (expiry : Z) : res ConfigBase :=
  set_positive_int b (root_field "e") expiry.
Definition get_nts_expiry (b : ConfigBase) : option Z :=
  match get_integer b (root_field "e") with
  | Some e => if 0 <? e then Some e else None
  | None => None
  end.

Definition set_blinded_msgreqs (b : ConfigBase) (value : option bool) : res ConfigBase :=
  match value with
  | None => erase_field b (root_field "M")
  | Some v => set_int b (root_field "M") (if v then 1 else 0)
  end.
Definition get_blinded_msgreqs (b : ConfigBase) : option bool :=
  match get_integer b (root_field "M") with Some m => Some (negb (m =? 0)) | None => None end.

(** ** Local *)

Definition new_local (now : Z) (ed25519_secretkey : bytes) (dumped : option bytes) : res ConfigBase :=
  b ← init local_type now dumped None None; load_key b ed25519_secretkey.

(** [data[key].integer_or(0)] as an enumeration with the values [0..top]; others read as [0]. *)
Definition get_enum (b : ConfigBase) (key : bytes) (top : Z) : Z :=
  let v := to_int (integer_or b (root_field key) 0) in if (0 <=? v) && (v <=? top) then v else 0.

Definition get_notification_content (b : ConfigBase) : Z := get_enum b "notify_content" notify_content_max.
Definition set_notification_content (b : ConfigBase) (value : Z) : res ConfigBase :=
  set_positive_int b (root_field "notify_content") value.
Definition get_ios_notification_sound (b : ConfigBase) : Z := integer_or b (root_field "notify_sound") 0.
Definition set_ios_notification_sound (b : ConfigBase) (value : Z) : res ConfigBase :=
  set_positive_int b (root_field "notify_sound") value.
Definition get_theme (b : ConfigBase) : Z := get_enum b "theme" theme_max.
Definition set_theme (b : ConfigBase) (value : Z) : res ConfigBase :=
  set_positive_int b (root_field "theme") value.
Definition get_theme_primary_color (b : ConfigBase) : Z :=
  get_enum b "theme_primary_color" theme_primary_color_max.
Definition set_theme_primary_color (b : ConfigBase) (value : Z) : res ConfigBase :=
  set_positive_int b (root_field "theme_primary_color") value.

Definition get_setting (b : ConfigBase) (key : bytes) : option bool :=
  match get_dict b (root_field "settings") with
  | None => None
  | Some d => (fun i => negb (i =? 0)) <$> maybe_int d (c_str key)
  end.
Definition set_setting (b : ConfigBase) (key : bytes) (enabled : option bool) : res ConfigBase :=
  let f := sub_field (root_field "settings") key in
  match enabled with Some e => set_flag b f e | None => erase_field b f end.
Definition size_settings (b : ConfigBase) : Z :=
  match get_dict b (root_field "settings") with Some d => size_of d | None => 0 end.
End WithLibraries.

(** ** Facts *)

(** An object that can be changed and whose data is well formed. *)
Definition editable `{Oxenc} `{Blake2b} (b : ConfigBase) : Prop := writable b /\ wf_dict (data_of b).

Section WithLibraries.
Context `{Oxenc} `{Blake2b}.

Lemma get_string_scalar b f :
  get_string b f = match field_scalar b f with Some (SStr s) => Some s | _ => None end.
Proof. done. Qed.
Lemma get_integer_scalar b f :
  get_integer b f = match field_scalar b f with Some (SInt z) => Some z | _ => None end.
Proof. done. Qed.

(** The conditional setters are writes of a scalar or of nothing. *)
Lemma set_nonempty_str_write b f s :
  set_nonempty_str b f s = write_scalar b f (if is_nil s then None else Some (SStr s)).
Proof. unfold set_nonempty_str. by destruct (is_nil s). Qed.
Lemma set_positive_int_write b f z :
  set_positive_int b f z = write_scalar b f (if 0 <? z then Some (SInt z) else None).
Proof. unfold set_positive_int. by destruct (0 <? z). Qed.
Lemma set_nonzero_int_write b f z :
  set_nonzero_int b f z = write_scalar b f (if z =? 0 then None else Some (SInt z)).
Proof. unfold set_nonzero_int. by destruct (z =? 0). Qed.
Lemma set_flag_write b f v : set_flag b f v = write_scalar b f (if v then Some (SInt 1) else None).
Proof. unfold set_flag. by destruct v. Qed.
Lemma set_pair_if_write b c f1 x f2 y :
  set_pair_if b c f1 (VScalar x) f2 (VScalar y) =
  (b ← write_scalar b f1 (if c then Some x else None); write_scalar b f2 (if c then Some y else None)).
Proof. unfold set_pair_if. by destruct c. Qed.

Lemma write_scalar_editable b f o :
  editable b -> from_option wf_scalar True o ->
  exists b', write_scalar b f o = Ok b' /\ editable b' /\ field_scalar b' f = o /\ frame f b b'.
Proof.
  intros [Hw Hd] Ho. destruct (write_scalar_ok b f o Hw Hd Ho) as (b' & He & Hf & Hd' & Hw' & Hfr).
  by exists b'.
Qed.

Lemma frame_scalar f g b b' :
  frame f b b' -> diverge (path f) (path g) = true -> field_scalar b' g = field_scalar b g.
Proof. intros Hf Hd. rewrite !field_scalar_observe. by apply Hf. Qed.

Lemma set_name_ok b n :
  editable b ->
  if (MAX_NAME_LENGTH <? length n)%nat then set_name b n = Throw InvalidArgument
  else exists b', set_name b n = Ok b' /\ editable b' /\
         get_name b' = (if is_nil n then None else Some n) /\ frame (root_field "n") b b'.
Proof.
  intros Hb. unfold set_name. destruct (_ <? _)%nat; [done|]. cbn [throw_if mbind res_bind].
  rewrite set_nonempty_str_write.
  destruct (write_scalar_editable b (root_field "n") (if is_nil n then None else Some (SStr n)))
    as (b' & He & Hb' & Hf & Hfr); [done|by destruct (is_nil n)|].
  exists b'. split_and!; try done. unfold get_name. rewrite get_string_scalar, Hf.
  destruct (is_nil n) eqn:En; [done|]. by rewrite En.
Qed.

Lemma set_name_truncated_ok b n :
  editable b ->
  exists b', set_name_truncated b n = Ok b' /\ editable b' /\
    let s := utf8_truncate n MAX_NAME_LENGTH in
    get_name b' = (if is_nil s then None else Some s) /\ frame (root_field "n") b b'.
Proof.
  intros Hb. unfold set_name_truncated. pose proof (set_name_ok b (utf8_truncate n MAX_NAME_LENGTH) Hb) as Hs.
  destruct (utf8_truncate_ok n MAX_NAME_LENGTH) as (k & _ & Hl & _).
  by rewrite (proj2 (Nat.ltb_ge _ _) Hl) in Hs.
Qed.

Lemma set_profile_pic_ok b url key :
  editable b ->
  exists b', set_profile_pic b url key = Ok b' /\ editable b' /\
    get_profile_pic b' = (if negb (is_nil url) && (size_of key =? 32)
                          then {| pic_url := url; pic_key := key |} else empty_pic).
Proof.
  intros Hb. unfold set_profile_pic. set (c := negb (is_nil url) && (size_of key =? 32)).
  rewrite set_pair_if_write.
  destruct (write_scalar_editable b (root_field "p") (if c then Some (SStr url) else None))
    as (b1 & E1 & Hb1 & Hf1 & _); [done|by destruct c|]. rewrite E1. cbn [mbind res_bind].
  destruct (write_scalar_editable b1 (root_field "q") (if c then Some (SStr key) else None))
    as (b2 & E2 & Hb2 & Hf2 & Hfr); [done|by destruct c|].
  exists b2. split_and!; try done. unfold get_profile_pic, string_or. rewrite !get_string_scalar, Hf2.
  rewrite (frame_scalar _ (root_field "p") _ _ Hfr), Hf1 by done.
  destruct c eqn:Ec; [|done]. cbn. unfold c in Ec. by apply andb_true_iff in Ec as [_ ->].
Qed.

(** Switching a setting off removes it, so that it reads as never set. *)
Lemma set_setting_ok b key enabled :
  editable b -> c_str key = key ->
  exists b', set_setting b key enabled = Ok b' /\ editable b' /\
    get_setting b' key = (if decide (enabled = Some true) then Some true else None).
Proof.
  intros Hb Hk. unfold set_setting. set (f := sub_field _ key).
  assert (exists b', write_scalar b f (if decide (enabled = Some true) then Some (SInt 1) else None) = Ok b' /\
    editable b' /\ field_scalar b' f = (if decide (enabled = Some true) then Some (SInt 1) else None) /\ frame f b b')
    as (b' & He & Hb' & Hf & _).
  { apply write_scalar_editable; [done|by destruct (decide _)]. }
  exists b'. split; [|split; [done|]].
  { rewrite <- He. destruct enabled as [[]|]; done. }
  unfold get_setting. rewrite Hk. destruct (get_dict b' (root_field "settings")) as [d|] eqn:Ed.
  - rewrite maybe_int_scalar, <- (field_scalar_sub _ _ _ _ Ed). fold f. rewrite Hf. by destruct (decide _).
  - destruct (decide _); [|done]. destruct (get_dict_field _ _ _ _ Hf) as [d Hd]. congruence.
Qed.
End WithLibraries.
