(* ===== verification/ContactsConfig.v ===== *)
(** * Contacts

    [contact_info] and [Contacts] of [src/config/contacts.cpp]: a contact is a dict of scalars
    below ["c"], keyed by the 33 bytes of the session id. *)
From S2P Require Import Prelude OMap Util Internal BtValue ThirdParty ConfigData ConfigParse.
From S2P Require Import ConfigMessage Encrypt SessionEncrypt Protos ConfigBase Multipart.
From S2P Require Import BaseSync DictField UserProfileConfig.

(** [enum class notify_mode] and [enum class expiration_mode : int8_t] *)
Inductive notify_mode := notify_defaulted | notify_all | notify_disabled | notify_mentions_only.
Inductive expiration_mode := exp_none | exp_after_send | exp_after_read.
#[export] Instance notify_mode_eq_dec : EqDecision notify_mode.
Proof. solve_decision. Defined.
#[export] Instance expiration_mode_eq_dec : EqDecision expiration_mode.
Proof. solve_decision. Defined.

Definition notify_value (n : notify_mode) : Z :=
  match n with
  | notify_defaulted => 0 | notify_all => 1 | notify_disabled => 2 | notify_mentions_only => 3
  end.
Definition exp_value (e : expiration_mode) : Z :=
  match e with exp_none => 0 | exp_after_send => 1 | exp_after_read => 2 end.

Record contact_info := {
  ci_session_id : bytes;
  ci_name : bytes;
  ci_nickname : bytes;
  ci_profile_picture : profile_pic;
  ci_approved : bool;
  ci_approved_me : bool;
  ci_blocked : bool;
  ci_priority : Z;
  ci_notifications : notify_mode;
  ci_mute_until : Z;
  ci_exp_mode : expiration_mode;
  ci_exp_timer : Z;
  ci_created : Z
}.

(** [static_cast<notify_mode>(notify)] of a loaded value; mentions-only does not exist for
    contacts. *)
Definition load_notify (v : Z) : notify_mode :=
  if v =? 1 then notify_all else if v =? 2 then notify_disabled
  else if v =? 3 then notify_all else notify_defaulted.
Definition load_exp_mode (v : Z) : expiration_mode :=
  if v =? 1 then exp_after_send else if v =? 2 then exp_after_read else exp_none.
Definition load_expiry (exp_mode_ secs : Z) : expiration_mode * Z :=
  let exp_mode := load_exp_mode exp_mode_ in
  if decide (exp_mode = exp_none) then (exp_none, 0)
  else if secs <=? 0 then (exp_none, 0) else (exp_mode, secs).
Definition to_bool (z : Z) : bool := negb (z =? 0).

Definition contact_picture (info_dict : dict) : profile_pic :=
  match maybe_string info_dict "p", maybe_string info_dict "q" with
  | Some url, Some key =>
      if negb (is_nil url) && (size_of key =? 32) then {| pic_url := url; pic_key := key |} else empty_pic
  | _, _ => empty_pic
  end.

(** [contact_info::load] *)
Definition load_contact (session_id : bytes) (info_dict : dict) : contact_info :=
  let int_of key := value_or (maybe_int info_dict key) 0 in
  let '(exp_mode, exp_timer) := load_expiry (to_int (int_of "e")) (to_int (int_of "E")) in
  {| ci_session_id := session_id;
     ci_name := value_or (maybe_string info_dict "n") [];
     ci_nickname := value_or (maybe_string info_dict "N") [];
     ci_profile_picture := contact_picture info_dict;
     ci_approved := to_bool (int_of "a");
     ci_approved_me := to_bool (int_of "A");
     ci_blocked := to_bool (int_of "b");
     ci_priority := to_int (int_of "+");
     ci_notifications := load_notify (to_int (int_of "@"));
     ci_mute_until := to_epoch_seconds (int_of "!");
     ci_exp_mode := exp_mode;
     ci_exp_timer := exp_timer;
     ci_created := to_epoch_seconds (int_of "j") |}.

Definition contacts_type : ConfigType :=
  {| storage_namespace := Contacts; encryption_domain := "Contacts"; compression_level := Some 1;
     config_lags := 5; accepts_protobuf := true; keeps_extra := false |}.

Section WithLibraries.
Context `{Oxenc} `{CryptoBox} `{Aead} `{Zstd} `{Protobuf} `{TextEncodings}.

(** [contact_info(std::string sid)] *)
Definition new_contact (session_id : bytes) : res contact_info :=
  _ ← check_session_id session_id "05";
  Ok {| ci_session_id := session_id; ci_name := []; ci_nickname := []; ci_profile_picture := empty_pic;
        ci_approved := false; ci_approved_me := false; ci_blocked := false; ci_priority := 0;
        ci_notifications := notify_defaulted; ci_mute_until := 0; ci_exp_mode := exp_none;
        ci_exp_timer := 0; ci_created := 0 |}.

(** [contact_info::set_name], [set_nickname], [set_nickname_truncated] *)
Definition contact_name (n : bytes) : bytes :=
  if (MAX_NAME_LENGTH <? length n)%nat then utf8_truncate n MAX_NAME_LENGTH else n.
Definition contact_nickname (n : bytes) : res bytes :=
  if (MAX_NAME_LENGTH <? length n)%nat then Throw InvalidArgument else Ok n.

Definition new_contacts (now : Z) (ed25519_secretkey : bytes) (dumped : option bytes) : res ConfigBase :=
  b ← init contacts_type now dumped None None; load_key b ed25519_secretkey.

Definition contact_field (pk : bytes) : DictFieldProxy := sub_field (root_field "c") pk.

Definition contacts_get (b : ConfigBase) (pubkey_hex : bytes) : res (option contact_info) :=
  pubkey ← session_id_to_bytes pubkey_hex "05";
  match get_dict b (contact_field pubkey) with
  | None => Ok None
  | Some info_dict => Ok (Some (load_contact pubkey_hex info_dict))
  end.

Definition contacts_get_or_construct (b : ConfigBase) (pubkey_hex : bytes) : res contact_info :=
  o ← contacts_get b pubkey_hex;
  match o with Some c => Ok c | None => new_contact pubkey_hex end.

Definition contacts_set (b : ConfigBase) (contact : contact_info) : res ConfigBase :=
  pk ← session_id_to_bytes (ci_session_id contact) "05";
  let info := contact_field pk in
  b ← set_str b (sub_field info "n") (take MAX_NAME_LENGTH (ci_name contact));
  b ← set_nonempty_str b (sub_field info "N") (take MAX_NAME_LENGTH (ci_nickname contact));
  b ← set_pair_if b (negb (pic_empty (ci_profile_picture contact)))
        (sub_field info "p") (VScalar (SStr (pic_url (ci_profile_picture contact))))
        (sub_field info "q") (VScalar (SStr (pic_key (ci_profile_picture contact))));
  b ← set_flag b (sub_field info "a") (ci_approved contact);
  b ← set_flag b (sub_field info "A") (ci_approved_me contact);
  b ← set_flag b (sub_field info "b") (ci_blocked contact);
  b ← set_nonzero_int b (sub_field info "+") (ci_priority contact);
  let notify := if decide (ci_notifications contact = notify_mentions_only) then notify_all
                else ci_notifications contact in
  b ← set_positive_int b (sub_field info "@") (notify_value notify);
  b ← set_positive_int b (sub_field info "!") (to_epoch_seconds (ci_mute_until contact));
  b ← set_pair_if b (negb (bool_decide (ci_exp_mode contact = exp_none)) && (0 <? ci_exp_timer contact))
        (sub_field info "e") (VScalar (SInt (exp_value (ci_exp_mode contact))))
        (sub_field info "E") (VScalar (SInt (ci_exp_timer contact)));
  set_positive_int b (sub_field info "j") (to_epoch_seconds (ci_created contact)).

(** [set_name] .. [set_created] of [Contacts]: load or make the contact, change a member, store it. *)
Definition contacts_update (b : ConfigBase) (session_id : bytes)
    (change : contact_info -> res contact_info) : res ConfigBase :=
  c ← contacts_get_or_construct b session_id; c ← change c; contacts_set b c.

Definition contacts_set_name (b : ConfigBase) (session_id : bytes) (name : bytes) : res ConfigBase :=
  contacts_update b session_id (fun '(Build_contact_info sid n nn pp ap am bl pr no mu em et cr) =>
    Ok (Build_contact_info sid (contact_name name) nn pp ap am bl pr no mu em et cr)).
Definition contacts_set_nickname (b : ConfigBase) (session_id : bytes) (nickname : bytes) : res ConfigBase :=
  contacts_update b session_id (fun '(Build_contact_info sid n nn pp ap am bl pr no mu em et cr) =>
    x ← contact_nickname nickname; Ok (Build_contact_info sid n x pp ap am bl pr no mu em et cr)).
Definition contacts_set_nickname_truncated (b : ConfigBase) (session_id : bytes) (nickname : bytes) : res ConfigBase :=
  contacts_update b session_id (fun '(Build_contact_info sid n nn pp ap am bl pr no mu em et cr) =>
    x ← contact_nickname (utf8_truncate nickname MAX_NAME_LENGTH);
    Ok (Build_contact_info sid n x pp ap am bl pr no mu em et cr)).
Definition contacts_set_profile_pic (b : ConfigBase) (session_id : bytes) (pic : profile_pic) : res ConfigBase :=
  contacts_update b session_id (fun '(Build_contact_info sid n nn pp ap am bl pr no mu em et cr) =>
    Ok (Build_contact_info sid n nn pic ap am bl pr no mu em et cr)).
Definition contacts_set_approved (b : ConfigBase) (session_id : bytes) (approved : bool) : res ConfigBase :=
  contacts_update b session_id (fun '(Build_contact_info sid n nn pp ap am bl pr no mu em et cr) =>
    Ok (Build_contact_info sid n nn pp approved am bl pr no mu em et cr)).
Definition contacts_set_approved_me (b : ConfigBase) (session_id : bytes) (approved_me : bool) : res ConfigBase :=
  contacts_update b session_id (fun '(Build_contact_info sid n nn pp ap am bl pr no mu em et cr) =>
    Ok (Build_contact_info sid n nn pp ap approved_me bl pr no mu em et cr)).
Definition contacts_set_blocked (b : ConfigBase) (session_id : bytes) (blocked : bool) : res ConfigBase :=
  contacts_update b session_id (fun '(Build_contact_info sid n nn pp ap am bl pr no mu em et cr) =>
    Ok (Build_contact_info sid n nn pp ap am blocked pr no mu em et cr)).
Definition contacts_set_priority (b : ConfigBase) (session_id : bytes) (priority : Z) : res ConfigBase :=
  contacts_update b session_id (fun '(Build_contact_info sid n nn pp ap am bl pr no mu em et cr) =>
    Ok (Build_contact_info sid n nn pp ap am bl priority no mu em et cr)).
Definition contacts_set_notifications (b : ConfigBase) (session_id : bytes) (notifications : notify_mode) : res ConfigBase :=
  contacts_update b session_id (fun '(Build_contact_info sid n nn pp ap am bl pr no mu em et cr) =>
    Ok (Build_contact_info sid n nn pp ap am bl pr notifications mu em et cr)).
Definition contacts_set_expiry (b : ConfigBase) (session_id : bytes) (mode : expiration_mode) (timer : Z) : res ConfigBase :=
  contacts_update b session_id (fun '(Build_contact_info sid n nn pp ap am bl pr no mu em et cr) =>
    Ok (Build_contact_info sid n nn pp ap am bl pr no mu mode (if decide (mode = exp_none) then 0 else timer) cr)).
Definition contacts_set_created (b : ConfigBase) (session_id : bytes) (timestamp : Z) : res ConfigBase :=
  contacts_update b session_id (fun '(Build_contact_info sid n nn pp ap am bl pr no mu em et cr) =>
    Ok (Build_contact_info sid n nn pp ap am bl pr no mu em et (to_epoch_seconds timestamp))).

Definition contacts_erase (b : ConfigBase) (session_id : bytes) : res (bool * ConfigBase) :=
  pk ← session_id_to_bytes session_id "05";
  let info := contact_field pk in
  let ret := exists_field b info in
  b ← erase_field b info;
  Ok (ret, b).

Definition contacts_size (b : ConfigBase) : Z :=
  match get_dict b (root_field "c") with Some c => size_of c | None => 0 end.

(** Iteration ([Contacts::iterator], [_load_info]): the contacts in key order, skipping keys of
    another size and values that are not dicts.  The constructor of [contact_info] checks the id,
    so a 33-byte key with another prefix makes the iteration throw. *)
Definition contacts_list (b : ConfigBase) : res (list contact_info) :=
  match get_dict b (root_field "c") with
  | None => Ok []
  | Some d => foldM (fun l kv =>
      match kv.2 with
      | VDict info =>
          if size_of kv.1 =? 33
          then c ← new_contact (to_hex kv.1); Ok (l ++ [load_contact (ci_session_id c) info])
          else Ok l
      | _ => Ok l
      end) [] d
  end.
End WithLibraries.
