(* ===== verification/ContactsFacts.v ===== *)
(** * Facts about contacts *)
From S2P Require Import Prelude OMap Util Internal BtValue ThirdParty ConfigData.
From S2P Require Import ConfigDataFacts ConfigParse ConfigParseFacts ConfigMessage.
From S2P Require Import MessageFacts MergeFacts ReplayFacts Encrypt.
From S2P Require Import SessionEncrypt Protos ConfigBase BaseFacts Multipart BaseSync.
From S2P Require Import DictField DictFieldFacts UserProfileConfig.
From S2P Require Import ContactsConfig.

(** Values that the members of a [contact_info] can have and that survive the conversions. *)
Record valid_contact (c : contact_info) : Prop := {
  vc_priority : - 2 ^ 31 <= ci_priority c < 2 ^ 31;
  vc_timer : - 2 ^ 31 <= ci_exp_timer c < 2 ^ 31;
  vc_mute : INT64_MIN <= ci_mute_until c <= 9000000000000000;
  vc_created : INT64_MIN <= ci_created c <= 9000000000000000
}.

Definition normal_pic (p : profile_pic) : profile_pic := if pic_empty p then empty_pic else p.
Definition normal_time (t : Z) : Z := if 0 <? to_epoch_seconds t then to_epoch_seconds t else 0.
Definition expires (c : contact_info) : bool :=
  negb (bool_decide (ci_exp_mode c = exp_none)) && (0 <? ci_exp_timer c).

(** What a stored contact reads back as. *)
Definition normal_contact (c : contact_info) : contact_info :=
  {| ci_session_id := ci_session_id c;
     ci_name := take MAX_NAME_LENGTH (ci_name c);
     ci_nickname := take MAX_NAME_LENGTH (ci_nickname c);
     ci_profile_picture := normal_pic (ci_profile_picture c);
     ci_approved := ci_approved c; ci_approved_me := ci_approved_me c; ci_blocked := ci_blocked c;
     ci_priority := ci_priority c;
     ci_notifications := if decide (ci_notifications c = notify_mentions_only) then notify_all
                         else ci_notifications c;
     ci_mute_until := normal_time (ci_mute_until c);
     ci_exp_mode := if expires c then ci_exp_mode c else exp_none;
     ci_exp_timer := if expires c then ci_exp_timer c else 0;
     ci_created := normal_time (ci_created c) |}.

(** The writes of [Contacts::set]. *)
Definition positive (z : Z) : option scalar := if 0 <? z then Some (SInt z) else None.
Definition flag (v : bool) : option scalar := if v then Some (SInt 1) else None.
Definition nonempty (s : bytes) : option scalar := if is_nil s then None else Some (SStr s).
Definition contact_writes (c : contact_info) : list (bytes * option scalar) :=
  let pic := negb (pic_empty (ci_profile_picture c)) in
  [(bs "n", Some (SStr (take MAX_NAME_LENGTH (ci_name c))));
   (bs "N", nonempty (take MAX_NAME_LENGTH (ci_nickname c)));
   (bs "p", if pic then Some (SStr (pic_url (ci_profile_picture c))) else None);
   (bs "q", if pic then Some (SStr (pic_key (ci_profile_picture c))) else None);
   (bs "a", flag (ci_approved c)); (bs "A", flag (ci_approved_me c)); (bs "b", flag (ci_blocked c));
   (bs "+", if ci_priority c =? 0 then None else Some (SInt (ci_priority c)));
   (bs "@", positive (notify_value (ci_notifications (normal_contact c))));
   (bs "!", positive (to_epoch_seconds (ci_mute_until c)));
   (bs "e", if expires c then Some (SInt (exp_value (ci_exp_mode c))) else None);
   (bs "E", if expires c then Some (SInt (ci_exp_timer c)) else None);
   (bs "j", positive (to_epoch_seconds (ci_created c)))].

Section WithLibraries.
Context `{Oxenc} `{Blake2b} `{TextEncodings}.

Lemma writes_cons b info k o l :
  writes b info ((k, o) :: l) = (b ← write_scalar b (sub_field info k) o; writes b info l).
Proof. done. Qed.

Ltac next_write :=
  rewrite ?writes_cons;
  match goal with
  | |- context [write_scalar ?b ?f ?o] =>
      destruct (write_scalar b f o); cbn [mbind res_bind]; [|done]
  end.

Lemma contacts_set_writes b c :
  contacts_set b c =
  (pk ← session_id_to_bytes (ci_session_id c) "05"; writes b (contact_field pk) (contact_writes c)).
Proof.
  unfold contacts_set. destruct (session_id_to_bytes _ _) as [pk|]; [|done]. cbn [mbind res_bind].
  unfold contact_writes. cbv zeta. rewrite !writes_cons. unfold set_str.
  change (assign b ?f (VScalar ?x)) with (write_scalar b f (Some x)). next_write.
  rewrite set_nonempty_str_write. unfold nonempty. next_write.
  rewrite set_pair_if_write. next_write. next_write.
  rewrite set_flag_write. unfold flag. next_write. rewrite set_flag_write. next_write.
  rewrite set_flag_write. next_write. rewrite set_nonzero_int_write. next_write.
  rewrite set_positive_int_write. unfold positive. cbn [normal_contact ci_notifications]. next_write.
  rewrite set_positive_int_write. next_write. rewrite set_pair_if_write. unfold expires.
  next_write. next_write. rewrite set_positive_int_write. by next_write.
Qed.

Lemma small_int64 z : - 2 ^ 31 <= z < 2 ^ 31 -> in_int64 z = true.
Proof. intros Hz. unfold in_int64, INT64_MIN, INT64_MAX. apply andb_true_iff. lia. Qed.

Lemma epoch_int64 t :
  INT64_MIN <= t <= 9000000000000000 -> in_int64 (to_epoch_seconds t) = true.
Proof.
  intros [Ht1 Ht2]. pose proof (to_epoch_seconds_bound t Ht2).
  assert (INT64_MIN <= to_epoch_seconds t).
  { unfold to_epoch_seconds. destruct (Z.ltb_spec 9000000000000 t).
    - assert (0 <= t / 1000000) by (apply Z.div_pos; lia). unfold INT64_MIN. lia.
    - destruct (Z.ltb_spec 9000000000 t); [|done].
      assert (0 <= t / 1000) by (apply Z.div_pos; lia). unfold INT64_MIN. lia. }
  unfold in_int64, INT64_MAX. apply andb_true_iff. lia.
Qed.

Lemma contact_writes_wf c :
  valid_contact c -> Forall (fun kv => from_option wf_scalar True kv.2) (contact_writes c).
Proof.
  intros [Hp Ht Hm Hc]. unfold contact_writes, nonempty, flag, positive.
  repeat (apply Forall_cons; split); try apply Forall_nil; try done; cbn [snd].
  - by destruct (is_nil _).
  - by destruct (negb _).
  - by destruct (negb _).
  - by destruct (ci_approved c).
  - by destruct (ci_approved_me c).
  - by destruct (ci_blocked c).
  - destruct (_ =? 0); [done|]. by apply small_int64.
  - destruct (0 <? _); [|done]. cbn. by destruct (decide _), (ci_notifications c).
  - destruct (0 <? _); [|done]. by apply epoch_int64.
  - destruct (expires c); [|done]. by destruct (ci_exp_mode c).
  - destruct (expires c); [|done]. by apply small_int64.
  - destruct (0 <? _); [|done]. by apply epoch_int64.
Qed.

(** Reading what was written. *)
Definition int_field (o : option scalar) : Z :=
  value_or (match o with Some (SInt z) => Some z | _ => None end) 0.
Definition str_field (o : option scalar) : option bytes :=
  match o with Some (SStr s) => Some s | _ => None end.

Lemma maybe_int_field d k : value_or (maybe_int d k) 0 = int_field (get_scalar (mfind k d)).
Proof. by rewrite maybe_int_scalar. Qed.
Lemma maybe_string_field d k : maybe_string d k = str_field (get_scalar (mfind k d)).
Proof. apply maybe_string_scalar. Qed.

Lemma read_time t :
  t <= 9000000000000000 -> to_epoch_seconds (int_field (positive (to_epoch_seconds t))) = normal_time t.
Proof.
  intros Hle. unfold normal_time, positive. destruct (0 <? to_epoch_seconds t); cbn; [|done].
  apply to_epoch_seconds_fix. by apply to_epoch_seconds_bound.
Qed.

Lemma read_flag v : to_bool (int_field (flag v)) = v.
Proof. by destruct v. Qed.

Lemma read_nonempty s : value_or (str_field (nonempty s)) [] = s.
Proof. by destruct s. Qed.

Lemma read_int z : - 2 ^ 31 <= z < 2 ^ 31 -> to_int (int_field (if z =? 0 then None else Some (SInt z))) = z.
Proof. intros Hz. destruct (Z.eqb_spec z 0) as [->|_]; [done|]. by apply to_int_id. Qed.

Lemma read_notify n :
  n <> notify_mentions_only -> load_notify (to_int (int_field (positive (notify_value n)))) = n.
Proof. by destruct n. Qed.

Lemma read_expiry m t :
  - 2 ^ 31 <= t < 2 ^ 31 ->
  let e := negb (bool_decide (m = exp_none)) && (0 <? t) in
  load_expiry (to_int (int_field (if e then Some (SInt (exp_value m)) else None)))
    (to_int (int_field (if e then Some (SInt t) else None))) =
  (if e then m else exp_none, if e then t else 0).
Proof.
  intros Ht e. destruct e eqn:E; [|done]. unfold e in E.
  apply andb_true_iff in E as [E%negb_true_iff%bool_decide_eq_false Hp%Z.ltb_lt].
  assert (load_exp_mode (to_int (int_field (Some (SInt (exp_value m))))) = m) as Hm by (by destruct m).
  unfold load_expiry. rewrite Hm, decide_False by done. change (int_field (Some (SInt t))) with t.
  rewrite to_int_id by done. by rewrite (proj2 (Z.leb_gt _ _)).
Qed.

Lemma read_pic p :
  let w := negb (pic_empty p) in
  match str_field (if w then Some (SStr (pic_url p)) else None),
        str_field (if w then Some (SStr (pic_key p)) else None) with
  | Some url, Some key =>
      if negb (is_nil url) && (size_of key =? 32) then {| pic_url := url; pic_key := key |} else empty_pic
  | _, _ => empty_pic
  end = normal_pic p.
Proof.
  unfold normal_pic. destruct (pic_empty p) eqn:E; [done|]. cbn [negb str_field].
  unfold pic_empty in E. apply orb_false_iff in E as [-> ->%negb_false_iff]. by destruct p.
Qed.

Lemma load_contact_normal d c :
  valid_contact c ->
  (forall k o, mfind k (contact_writes c) = Some o -> get_scalar (mfind k d) = o) ->
  load_contact (ci_session_id c) d = normal_contact c.
Proof.
  intros [Hp Ht Hm Hc] Hk. unfold load_contact, contact_picture, normal_contact.
  cbv zeta. rewrite !maybe_int_field, !maybe_string_field.
  repeat match goal with
  | |- context [get_scalar (mfind (bs ?s) d)] => erewrite (Hk (bs s)) by reflexivity
  end.
  pose proof (read_expiry (ci_exp_mode c) (ci_exp_timer c) Ht) as He. cbv zeta in He.
  fold (expires c) in He. rewrite He, read_pic.
  rewrite !read_flag, !read_time, read_int, read_nonempty by lia.
  rewrite read_notify; [done|]. cbn. by destruct (decide _).
Qed.

(** ** Storing and reading contacts *)

Lemma diverge_sub p k k' q : k <> k' -> diverge (p ++ [k]) (p ++ k' :: q) = true.
Proof.
  intros Hk. induction p as [|x p IH]; cbn; [by rewrite (proj2 (keqb_neq _ _) Hk)|].
  by rewrite keqb_refl.
Qed.

(** A record of scalars below a key of a top-level dict, written and read back. *)
Lemma writes_record b info l k0 x0 :
  editable b -> NoDup l.*1 -> Forall (fun kv => from_option wf_scalar True kv.2) l ->
  mfind k0 l = Some (Some x0) ->
  exists b' d, writes b info l = Ok b' /\ editable b' /\ frame info b b' /\
    get_dict b' info = Some d /\
    forall k o, mfind k l = Some o -> get_scalar (mfind k d) = o.
Proof.
  intros [Hw Hd] Hn Hf Hx. destruct (writes_ok info l b Hw Hd Hn Hf) as (b' & E & Hd' & Hw' & Hfr & Hin & _).
  destruct (get_dict_field b' info k0 x0) as [d Hg]; [by apply Hin, mfind_In|].
  exists b', d. split_and!; try done. intros k o Ho%mfind_In.
  rewrite <- (field_scalar_sub _ _ _ _ Hg). by apply Hin.
Qed.

Lemma contacts_set_get b c pk :
  editable b -> valid_contact c -> session_id_to_bytes (ci_session_id c) "05" = Ok pk ->
  exists b', contacts_set b c = Ok b' /\ editable b' /\ frame (contact_field pk) b b' /\
    contacts_get b' (ci_session_id c) = Ok (Some (normal_contact c)).
Proof.
  intros Hb Hc Hpk. rewrite contacts_set_writes. unfold contacts_get. rewrite Hpk. cbn [mbind res_bind].
  destruct (writes_record b (contact_field pk) (contact_writes c) "n"
              (SStr (take MAX_NAME_LENGTH (ci_name c)))) as (b' & d & E & Hb' & Hfr & Hd & Hk).
  { done. } { by apply (bool_decide_unpack _). } { by apply contact_writes_wf. } { done. }
  exists b'. rewrite Hd, load_contact_normal by done. done.
Qed.

Lemma contact_other pk pk' k b b' :
  frame (contact_field pk) b b' -> pk' <> pk ->
  field_scalar b' (sub_field (contact_field pk') k) = field_scalar b (sub_field (contact_field pk') k).
Proof. intros Hf Hne. eapply frame_scalar; [done|]. by apply (diverge_sub [bs "c"] pk pk' [k]). Qed.

Lemma contacts_erase_get b sid pk :
  editable b -> session_id_to_bytes sid "05" = Ok pk ->
  exists b', contacts_erase b sid = Ok (exists_field b (contact_field pk), b') /\ editable b' /\
    frame (contact_field pk) b b' /\ contacts_get b' sid = Ok None.
Proof.
  intros [Hw Hd] Hpk. unfold contacts_erase, contacts_get. rewrite Hpk. cbn [mbind res_bind].
  destruct (erase_field_ok b (contact_field pk) Hw Hd) as (b' & E & Hg & Hd' & Hfr & Ht).
  rewrite E. cbn [mbind res_bind]. exists b'. unfold get_dict. rewrite Hg. split_and!; try done.
  split; [by eapply touched_writable|done].
Qed.

(** A stored contact is in normal form: storing what was read changes nothing. *)
Lemma normal_time_idem t : t <= 9000000000000000 -> normal_time (normal_time t) = normal_time t.
Proof.
  intros Ht. pose proof (to_epoch_seconds_bound t Ht). unfold normal_time.
  destruct (0 <? to_epoch_seconds t) eqn:E; [|done]. by rewrite to_epoch_seconds_fix, E by lia.
Qed.

Lemma normal_contact_idem c : valid_contact c -> normal_contact (normal_contact c) = normal_contact c.
Proof.
  intros [_ _ Hm Hc]. unfold normal_contact. cbn. rewrite !normal_time_idem by lia.
  unfold expires. cbn. fold (expires c). rewrite !take_take, Nat.min_id.
  assert (normal_pic (normal_pic (ci_profile_picture c)) = normal_pic (ci_profile_picture c)) as ->.
  { unfold normal_pic. by destruct (pic_empty (ci_profile_picture c)) eqn:E; [|rewrite E]. }
  destruct (expires c) eqn:E.
  - unfold expires in E. rewrite E. by destruct (ci_notifications c).
  - by destruct (ci_notifications c).
Qed.
End WithLibraries.
