(* ===== verification/UserGroupsConfig.v ===== *)
(** * The user's groups

    [group_info], [legacy_group_info], [community_info] and [UserGroups] of
    [src/config/user_groups.cpp] and its header.  Groups are below ["g"], legacy groups below
    ["C"], both keyed by the 33 bytes of the id; communities are below ["o"], by server (with the
    server's key at ["#"] and its rooms at ["R"]) and room. *)
From S2P Require Import Prelude OMap Util Internal BtValue ThirdParty ConfigData ConfigParse.
From S2P Require Import ConfigMessage Encrypt SessionEncrypt Protos ConfigBase Multipart.
From S2P Require Import BaseSync DictField Community UserProfileConfig ContactsConfig.

(** [struct base_group_info]; [bg_name] is not used for communities. *)
Record base_group_info := {
  bg_priority : Z;
  bg_joined_at : Z;
  bg_notifications : notify_mode;
  bg_mute_until : Z;
  bg_name : bytes;
  bg_invited : bool
}.
Definition empty_base_group : base_group_info :=
  {| bg_priority := 0; bg_joined_at := 0; bg_notifications := notify_defaulted; bg_mute_until := 0;
     bg_name := []; bg_invited := false |}.
Definition NAME_MAX_LENGTH : nat := 100.

Definition group_notify (v : Z) : notify_mode :=
  if v =? 1 then notify_all else if v =? 2 then notify_disabled
  else if v =? 3 then notify_mentions_only else notify_defaulted.

(** [base_group_info::load], which leaves the name alone. *)
Definition load_base_group (name : bytes) (info_dict : dict) : base_group_info :=
  let int_of key := value_or (maybe_int info_dict key) 0 in
  {| bg_priority := to_int (int_of "+");
     bg_joined_at := to_epoch_seconds (Z.max 0 (int_of "j"));
     bg_notifications := group_notify (to_int (int_of "@"));
     bg_mute_until := to_epoch_seconds (int_of "!");
     bg_name := name;
     bg_invited := to_bool (int_of "i") |}.

(** ** Legacy groups *)

(** [members_] maps a session id to whether the member is an admin. *)
Record legacy_group_info := {
  lg_base : base_group_info;
  lg_session_id : bytes;
  lg_enc_pubkey : bytes;
  lg_enc_seckey : bytes;
  lg_disappearing_timer : Z;
  lg_members : list (bytes * bool)
}.
Definition with_members (g : legacy_group_info) (m : list (bytes * bool)) : legacy_group_info :=
  {| lg_base := lg_base g; lg_session_id := lg_session_id g; lg_enc_pubkey := lg_enc_pubkey g;
     lg_enc_seckey := lg_enc_seckey g; lg_disappearing_timer := lg_disappearing_timer g;
     lg_members := m |}.

(** [counts()]: (admins, members). *)
Definition lg_counts (g : legacy_group_info) : Z * Z :=
  foldl (fun c e => if (e : bytes * bool).2 then (c.1 + 1, c.2) else (c.1, c.2 + 1)) (0, 0) (lg_members g).

Definition lg_erase (g : legacy_group_info) (session_id : bytes) : bool * legacy_group_info :=
  (match mfind session_id (lg_members g) with Some _ => true | None => false end,
   with_members g (merase session_id (lg_members g))).

(** ** Groups *)

Definition NOT_REMOVED : Z := 0.
Definition KICKED_FROM_GROUP : Z := 1.
Definition GROUP_DESTROYED : Z := 2.

Record group_info := {
  gi_base : base_group_info;
  gi_id : bytes;
  gi_secretkey : bytes;
  gi_auth_data : bytes;
  gi_removed_status : Z
}.
Definition with_status (g : group_info) (secretkey auth_data : bytes) (status : Z) : group_info :=
  {| gi_base := gi_base g; gi_id := gi_id g; gi_secretkey := secretkey; gi_auth_data := auth_data;
     gi_removed_status := status |}.

Definition mark_kicked (g : group_info) : group_info :=
  with_status g [] [] (if gi_removed_status g =? GROUP_DESTROYED then gi_removed_status g
                       else KICKED_FROM_GROUP).
Definition mark_invited (g : group_info) : group_info :=
  with_status g (gi_secretkey g) (gi_auth_data g)
    (if gi_removed_status g =? KICKED_FROM_GROUP then NOT_REMOVED else gi_removed_status g).
Definition kicked (g : group_info) : bool := gi_removed_status g =? KICKED_FROM_GROUP.
Definition mark_destroyed (g : group_info) : group_info := with_status g [] [] GROUP_DESTROYED.
Definition is_destroyed (g : group_info) : bool := gi_removed_status g =? GROUP_DESTROYED.

(** ** Communities *)

Record community_info := { co_base : base_group_info; co_comm : community }.

(** [std::variant<group_info, community_info, legacy_group_info>] *)
Inductive any_group_info :=
| AnyGroup (g : group_info)
| AnyCommunity (c : community_info)
| AnyLegacy (g : legacy_group_info).

(** [community_info::load], for a community whose base part is still empty. *)
Definition load_community_info (og : community) (info_dict : dict) : res community_info :=
  let base := load_base_group [] info_dict in
  og ← match maybe_string info_dict "n" with Some n => set_room og n | None => Ok og end;
  Ok {| co_base := base; co_comm := og |}.

Definition user_groups_type : ConfigType :=
  {| storage_namespace := UserGroups; encryption_domain := "UserGroups"; compression_level := Some 1;
     config_lags := 5; accepts_protobuf := true; keeps_extra := false |}.

(** The fields. *)
Definition server_field (base_url : bytes) : DictFieldProxy := sub_field (root_field "o") base_url.
Definition rooms_field (base_url : bytes) : DictFieldProxy := sub_field (server_field base_url) "R".
Definition community_field (c : community) : DictFieldProxy :=
  sub_field (rooms_field (base_url_ c)) (room_ c).
Definition group_field (pk : bytes) : DictFieldProxy := sub_field (root_field "g") pk.
Definition legacy_field (pk : bytes) : DictFieldProxy := sub_field (root_field "C") pk.

(** The [get_pubkey] part of [community_field]: the server's key, if it is one. *)
Definition server_pubkey (b : ConfigBase) (c : community) : option bytes :=
  let pk := string_or b (sub_field (server_field (base_url_ c)) "#") [] in
  if size_of pk =? 32 then Some pk else None.

Section WithLibraries.
Context `{Oxenc} `{CryptoBox} `{Aead} `{Zstd} `{Protobuf} `{TextEncodings}.

(** [legacy_group_info(std::string sid)], [group_info(std::string sid)] *)
Definition new_legacy_group (session_id : bytes) : res legacy_group_info :=
  _ ← check_session_id session_id "05";
  Ok {| lg_base := empty_base_group; lg_session_id := session_id; lg_enc_pubkey := [];
        lg_enc_seckey := []; lg_disappearing_timer := 0; lg_members := [] |}.
Definition new_group (id : bytes) : res group_info :=
  _ ← check_session_id id "03";
  Ok {| gi_base := empty_base_group; gi_id := id; gi_secretkey := []; gi_auth_data := [];
        gi_removed_status := NOT_REMOVED |}.

(** [legacy_group_info::insert(session_id, admin)]: (whether anything changed, the group). *)
Definition lg_insert (g : legacy_group_info) (session_id : bytes) (admin : bool) :
    res (bool * legacy_group_info) :=
  _ ← check_session_id session_id "05";
  Ok (match mfind session_id (lg_members g) with
      | None => true
      | Some a => negb (eqb a admin)
      end, with_members g (minsert session_id admin (lg_members g))).

(** The members of a stored set: the ids with the right prefix, in hex, added where missing. *)
Definition load_member_set (admin : bool) (s : option cset) (m : list (bytes * bool)) :
    list (bytes * bool) :=
  foldl (fun m field =>
    match field with
    | SStr s => if (size_of s =? 33) && bool_decide (head s = Some (byte_of 5))
                then memplace (to_hex s) admin m else m
    | SInt _ => m
    end) m (value_or s []).

(** [legacy_group_info::load] *)
Definition load_legacy_group (session_id : bytes) (info_dict : dict) : legacy_group_info :=
  let keys := match maybe_string info_dict "k", maybe_string info_dict "K" with
              | Some pub, Some sec => if (size_of pub =? 32) && (size_of sec =? 32) then (pub, sec) else ([], [])
              | _, _ => ([], [])
              end in
  let secs := value_or (maybe_int info_dict "E") 0 in
  {| lg_base := load_base_group (value_or (maybe_string info_dict "n") []) info_dict;
     lg_session_id := session_id;
     lg_enc_pubkey := keys.1; lg_enc_seckey := keys.2;
     lg_disappearing_timer := if 0 <? secs then secs else 0;
     lg_members := load_member_set true (maybe_set info_dict "a")
                     (load_member_set false (maybe_set info_dict "m") []) |}.

(** [group_info::load], for a group without keys: the secret key is only kept if it is the one
    of the group's id. *)
Definition load_group (id : bytes) (info_dict : dict) : group_info :=
  let secretkey :=
    match maybe_string info_dict "K" with
    | Some seed =>
        if size_of seed =? 32 then
          let '(pk, sk) := ed_seed_keypair seed in
          if bool_decide (id = to_hex (byte_of 3 :: pk)) then sk else []
        else []
    | None => []
    end in
  {| gi_base := load_base_group (value_or (maybe_string info_dict "n") []) info_dict;
     gi_id := id; gi_secretkey := secretkey;
     gi_auth_data := match maybe_string info_dict "s" with
                     | Some sig => if size_of sig =? 100 then sig else []
                     | None => []
                     end;
     gi_removed_status := to_int (value_or (maybe_int info_dict "r") 0) |}.

Definition new_user_groups (now : Z) (ed25519_secretkey : bytes) (dumped : option bytes) : res ConfigBase :=
  b ← init user_groups_type now dumped None None; load_key b ed25519_secretkey.

(** ** Reading *)

Definition get_community (b : ConfigBase) (base_url room : bytes) : res (option community_info) :=
  og ← new_community base_url room;
  match get_dict b (community_field og) with
  | None => Ok None
  | Some info_dict =>
      let pubkey := server_pubkey b og in
      c ← load_community_info og info_dict;
      comm ← match pubkey with Some pk => set_pubkey (co_comm c) pk | None => Ok (co_comm c) end;
      Ok (Some {| co_base := co_base c; co_comm := comm |})
  end.
Definition get_community_url (b : ConfigBase) (partial_url : bytes) : res (option community_info) :=
  let! (base, room, _) := parse_partial_url partial_url in get_community b base room.

(** The rest of [get_or_construct_community]. *)
Definition load_or_empty (b : ConfigBase) (c : community) : res community_info :=
  match get_dict b (community_field c) with
  | Some info_dict => load_community_info c info_dict
  | None => Ok {| co_base := empty_base_group; co_comm := c |}
  end.
Definition get_or_construct_community (b : ConfigBase) (base_url room pubkey : bytes) : res community_info :=
  c ← new_community_pk base_url room pubkey; load_or_empty b c.
Definition get_or_construct_community_encoded (b : ConfigBase) (base_url room pubkey_encoded : bytes) :
    res community_info :=
  c ← new_community_encoded base_url room pubkey_encoded; load_or_empty b c.
Definition get_or_construct_community_url (b : ConfigBase) (full_url : bytes) : res community_info :=
  let! (base, room, pubkey) := parse_full_url full_url in get_or_construct_community b base room pubkey.

Definition get_legacy_group (b : ConfigBase) (pubkey_hex : bytes) : res (option legacy_group_info) :=
  pubkey ← session_id_to_bytes pubkey_hex "05";
  Ok (load_legacy_group pubkey_hex <$> get_dict b (legacy_field pubkey)).
Definition get_or_construct_legacy_group (b : ConfigBase) (pubkey_hex : bytes) : res legacy_group_info :=
  o ← get_legacy_group b pubkey_hex;
  match o with Some g => Ok g | None => new_legacy_group pubkey_hex end.

Definition get_group (b : ConfigBase) (pubkey_hex : bytes) : res (option group_info) :=
  pubkey ← session_id_to_bytes pubkey_hex "03";
  Ok (load_group pubkey_hex <$> get_dict b (group_field pubkey)).
Definition get_or_construct_group (b : ConfigBase) (pubkey_hex : bytes) : res group_info :=
  o ← get_group b pubkey_hex;
  match o with Some g => Ok g | None => new_group pubkey_hex end.

(** [create_group()]; [seed] is the random seed of the new key pair. *)
Definition create_group (seed : bytes) : res group_info :=
  let '(pk, sk) := ed_seed_keypair seed in
  gr ← new_group (bs "03" ++ to_hex pk);
  Ok (with_status gr sk (gi_auth_data gr) (gi_removed_status gr)).

(** ** Storing *)

Definition set_base (b : ConfigBase) (bg : base_group_info) (info : DictFieldProxy) : res ConfigBase :=
  b ← set_nonzero_int b (sub_field info "+") (bg_priority bg);
  b ← set_positive_int b (sub_field info "j") (to_epoch_seconds (bg_joined_at bg));
  b ← set_positive_int b (sub_field info "@") (notify_value (bg_notifications bg));
  b ← set_positive_int b (sub_field info "!") (to_epoch_seconds (bg_mute_until bg));
  set_flag b (sub_field info "i") (bg_invited bg).

Definition set_community (b : ConfigBase) (c : community_info) : res ConfigBase :=
  b ← set_str b (sub_field (server_field (base_url_ (co_comm c))) "#") (pubkey_ (co_comm c));
  let info := community_field (co_comm c) in
  b ← set_base b (co_base c) info;
  set_str b (sub_field info "n") (comm_room (co_comm c)).

(** The admins, or the other members, as a set of ids. *)
Definition member_set (admin : bool) (m : list (bytes * bool)) : cset :=
  foldl (fun s e => if eqb (e : bytes * bool).2 admin then sinsert (SStr (from_hex e.1)) s else s) [] m.

Definition set_legacy_group (b : ConfigBase) (g : legacy_group_info) : res ConfigBase :=
  pk ← session_id_to_bytes (lg_session_id g) "05";
  let info := legacy_field pk in
  b ← set_base b (lg_base g) info;
  b ← set_str b (sub_field info "n") (take NAME_MAX_LENGTH (bg_name (lg_base g)));
  b ← set_pair_if b ((size_of (lg_enc_pubkey g) =? 32) && (size_of (lg_enc_seckey g) =? 32))
        (sub_field info "k") (VScalar (SStr (lg_enc_pubkey g)))
        (sub_field info "K") (VScalar (SStr (lg_enc_seckey g)));
  b ← assign b (sub_field info "m") (VSet (member_set false (lg_members g)));
  b ← assign b (sub_field info "a") (VSet (member_set true (lg_members g)));
  set_positive_int b (sub_field info "E") (lg_disappearing_timer g).

Definition set_group (b : ConfigBase) (g : group_info) : res ConfigBase :=
  pk_bytes ← session_id_to_bytes (gi_id g) "03";
  let info := group_field pk_bytes in
  b ← set_base b (gi_base g) info;
  b ← set_nonempty_str b (sub_field info "n") (take NAME_MAX_LENGTH (bg_name (gi_base g)));
  b ← set_positive_int b (sub_field info "r") (gi_removed_status g);
  if (size_of (gi_secretkey g) =? 64) && bool_decide (take 32 (drop 32 (gi_secretkey g)) = drop 1 pk_bytes)
  then set_str b (sub_field info "K") (take 32 (gi_secretkey g))
  else
    b ← set_str b (sub_field info "K") [];
    if size_of (gi_auth_data g) =? 100 then set_str b (sub_field info "s") (gi_auth_data g)
    else erase_field b (sub_field info "s").

(** ** Erasing *)

Definition erase_impl (b : ConfigBase) (convo : DictFieldProxy) : res (bool * ConfigBase) :=
  let ret := exists_field b convo in
  b ← erase_field b convo; Ok (ret, b).

(** A server without rooms is removed as well. *)
Definition erase_community (b : ConfigBase) (c : community) : res (bool * ConfigBase) :=
  let! (gone, b) := erase_impl b (community_field c) in
  if (gone : bool) then
    let rooms := rooms_field (base_url_ c) in
    match get_dict b rooms with
    | Some (_ :: _) => Ok (gone, b)
    | _ => b ← erase_field b rooms; b ← erase_field b (server_field (base_url_ c)); Ok (gone, b)
    end
  else Ok (gone, b).
Definition erase_group_info (b : ConfigBase) (g : group_info) : res (bool * ConfigBase) :=
  pk ← session_id_to_bytes (gi_id g) "03"; erase_impl b (group_field pk).
Definition erase_legacy_info (b : ConfigBase) (g : legacy_group_info) : res (bool * ConfigBase) :=
  pk ← session_id_to_bytes (lg_session_id g) "05"; erase_impl b (legacy_field pk).
Definition erase_any (b : ConfigBase) (c : any_group_info) : res (bool * ConfigBase) :=
  match c with
  | AnyGroup g => erase_group_info b g
  | AnyCommunity c => erase_community b (co_comm c)
  | AnyLegacy g => erase_legacy_info b g
  end.
Definition erase_community_at (b : ConfigBase) (base_url room : bytes) : res (bool * ConfigBase) :=
  c ← new_community base_url room; erase_community b c.
Definition erase_legacy_group (b : ConfigBase) (id : bytes) : res (bool * ConfigBase) :=
  g ← new_legacy_group id; erase_legacy_info b g.
Definition erase_group (b : ConfigBase) (id : bytes) : res (bool * ConfigBase) :=
  g ← new_group id; erase_group_info b g.

(** ** Sizes *)

Definition size_communities (b : ConfigBase) : Z :=
  match get_dict b (root_field "o") with
  | Some servers =>
      foldl (fun count e =>
        let server := server_field (e : bytes * dict_value).1 in
        match get_string b (sub_field server "#") with
        | None => count
        | Some _ => match get_dict b (sub_field server "R") with
                    | Some rd => count + size_of rd
                    | None => count
                    end
        end) 0 servers
  | None => 0
  end.
Definition size_of_dict (b : ConfigBase) (f : DictFieldProxy) : Z :=
  match get_dict b f with Some d => size_of d | None => 0 end.
Definition size_legacy_groups (b : ConfigBase) : Z := size_of_dict b (root_field "C").
Definition size_groups (b : ConfigBase) : Z := size_of_dict b (root_field "g").
Definition user_groups_size (b : ConfigBase) : Z :=
  size_communities b + size_legacy_groups b + size_groups b.

(** ** Iteration *)

(** [UserGroups::iterator]: the current value and the three sub-iterators. *)
Record groups_iterator := {
  ug_val : option any_group_info;
  ug_group : option dict;
  ug_comm : option comm_iterator_helper;
  ug_legacy : option dict
}.

Definition make_group (id : bytes) (info : dict) : res group_info :=
  g ← new_group id; Ok (load_group (gi_id g) info).
Definition make_legacy (id : bytes) (info : dict) : res legacy_group_info :=
  g ← new_legacy_group id; Ok (load_legacy_group (lg_session_id g) info).

(** [_load_val]: groups, then communities, then legacy groups. *)
Definition ug_load_val (it : groups_iterator) : res groups_iterator :=
  let! (g, it_group) := load_keyed_at make_group 3 (ug_group it) in
  match g with
  | Some g => Ok {| ug_val := Some (AnyGroup g); ug_group := it_group; ug_comm := ug_comm it;
                    ug_legacy := ug_legacy it |}
  | None =>
      let! (c, it_comm) :=
        match ug_comm it with
        | None => Ok (None, None)
        | Some h => let! (o, h) := comm_load load_community_info h in
                    Ok (o, match o with Some _ => Some h | None => None end)
        end in
      match c with
      | Some c => Ok {| ug_val := Some (AnyCommunity c); ug_group := it_group; ug_comm := it_comm;
                        ug_legacy := ug_legacy it |}
      | None =>
          let! (l, it_legacy) := load_keyed_at make_legacy 5 (ug_legacy it) in
          Ok {| ug_val := match l with Some l => Some (AnyLegacy l) | None => ug_val it end;
                ug_group := it_group; ug_comm := it_comm; ug_legacy := it_legacy |}
      end
  end.

(** [iterator(data, groups, communities, legacy_groups)] *)
Definition ug_begin (b : ConfigBase) (groups communities legacy_groups : bool) : res groups_iterator :=
  ug_load_val
    {| ug_val := None;
       ug_group := if groups then get_dict b (root_field "g") else None;
       ug_comm := if communities then
                    match get_dict b (root_field "o") with
                    | Some d => Some {| it_server := Some d; it_room := None |}
                    | None => None
                    end
                  else None;
       ug_legacy := if legacy_groups then get_dict b (root_field "C") else None |}.

Definition ug_done (it : groups_iterator) : bool :=
  match ug_group it, ug_comm it, ug_legacy it with None, None, None => true | _, _, _ => false end.

(** [operator++]: the first sub-iterator that is left moves on. *)
Definition ug_advance (it : groups_iterator) : groups_iterator :=
  match ug_group it, ug_comm it with
  | Some d, _ => {| ug_val := ug_val it; ug_group := Some (tail d); ug_comm := ug_comm it;
                    ug_legacy := ug_legacy it |}
  | None, Some h => {| ug_val := ug_val it; ug_group := None; ug_comm := Some (advance h);
                       ug_legacy := ug_legacy it |}
  | None, None => {| ug_val := ug_val it; ug_group := None; ug_comm := None;
                     ug_legacy := tail <$> ug_legacy it |}
  end.
Definition ug_next (it : groups_iterator) : res groups_iterator := ug_load_val (ug_advance it).

(** A loop [for (it = begin(); !it.done(); ++it)] over the values. *)
Fixpoint ug_collect (fuel : nat) (it : groups_iterator) : res (list any_group_info) :=
  match fuel with
  | O => Throw OutOfFuel
  | S fuel =>
      if ug_done it then Ok []
      else match ug_val it with
           | None => Throw UB
           | Some v => it ← ug_next it; l ← ug_collect fuel it; Ok (v :: l)
           end
  end.
End WithLibraries.
