(* ===== verification/UserGroupsFacts.v ===== *)
(** * Facts about the user's groups *)
From S2P Require Import Prelude OMap Util Internal BtValue ThirdParty ConfigData.
From S2P Require Import ConfigDataFacts ConfigParse ConfigParseFacts ConfigMessage.
From S2P Require Import MessageFacts MergeFacts ReplayFacts Encrypt.
From S2P Require Import SessionEncrypt Protos ConfigBase BaseFacts Multipart BaseSync.
From S2P Require Import DictField DictFieldFacts Community CommunityFacts UserProfileConfig.
From S2P Require Import UserProfileConfig ContactsConfig ContactsFacts UserGroupsConfig.

(** ** Iteration *)

Section Iteration.
Context `{Oxenc} `{CryptoBox} `{Aead} `{Zstd} `{Protobuf} `{TextEncodings}.

Lemma make_group_ok k info :
  size_of k = 33 -> head k = Some (byte_of 3) -> make_group (to_hex k) info = Ok (load_group (to_hex k) info).
Proof.
  intros Hs Hh. unfold make_group, new_group.
  by rewrite (check_hex_id k "03" 3 Hs Hh to_hex_03 eq_refl).
Qed.

Lemma make_legacy_ok k info :
  size_of k = 33 -> head k = Some (byte_of 5) -> make_legacy (to_hex k) info = Ok (load_legacy_group (to_hex k) info).
Proof.
  intros Hs Hh. unfold make_legacy, new_legacy_group.
  by rewrite (check_hex_id k "05" 5 Hs Hh to_hex_05 eq_refl).
Qed.

Lemma load_community_info_throws c d e :
  load_community_info c d = Throw e -> is_std_exception e = true.
Proof.
  unfold load_community_info, set_room. destruct (maybe_string d "n") as [n|]; [|done].
  destruct (canonical_room n) as [r|e'] eqn:E; [done|]. intros [= <-]. by apply canonical_room_throws in E as ->.
Qed.

(** The entries that an iterator has still to visit: groups, then communities, then legacy
    groups. *)
Definition rest_of (it : option dict) : dict := value_or it [].
Definition ug_rest (it : groups_iterator) : list any_group_info :=
  (AnyGroup <$> keyed_entries load_group 3 (rest_of (ug_group it))) ++
  (AnyCommunity <$> match ug_comm it with Some h => comm_rest load_community_info h | None => [] end) ++
  (AnyLegacy <$> keyed_entries load_legacy_group 5 (rest_of (ug_legacy it))).

Lemma load_keyed_at_spec {C} (makeM : bytes -> dict -> res C) make prefix it :
  (forall k info, size_of k = 33 -> head k = Some (byte_of prefix) ->
     makeM (to_hex k) info = Ok (make (to_hex k) info)) ->
  match keyed_entries make prefix (rest_of it) with
  | [] => load_keyed_at makeM prefix it = Ok (None, None)
  | c :: l => exists d, load_keyed_at makeM prefix it = Ok (Some c, Some d) /\
                keyed_entries make prefix (tail d) = l
  end.
Proof. intros Hm. destruct it as [d|]; [|done]. by apply load_keyed_spec. Qed.

Ltac ug_simpl :=
  unfold ug_rest, ug_advance, rest_of; cbn [ug_group ug_comm ug_legacy value_or fmap option_fmap option_map].

Lemma ug_load_val_spec it :
  match ug_rest it with
  | [] => exists it', ug_load_val it = Ok it' /\ ug_done it' = true
  | v :: l => exists it', ug_load_val it = Ok it' /\ ug_done it' = false /\ ug_val it' = Some v /\
                ug_rest (ug_advance it') = l
  end.
Proof.
  unfold ug_rest at 1, ug_load_val.
  pose proof (load_keyed_at_spec make_group load_group 3 (ug_group it) make_group_ok) as Hg.
  destruct (keyed_entries load_group 3 _) as [|g lg].
  2: { destruct Hg as (d & -> & Hl). cbn [fmap list_fmap app]. eexists. split_and!; [done..|].
       ug_simpl. by rewrite Hl. }
  rewrite Hg. cbn [fmap list_fmap app]. destruct (ug_comm it) as [h|].
  - pose proof (comm_load_spec load_community_info load_community_info_throws h) as Hc.
    destruct (comm_rest load_community_info h) as [|c lc].
    + destruct Hc as [h' ->]. cbn [fmap list_fmap app].
      pose proof (load_keyed_at_spec make_legacy load_legacy_group 5 (ug_legacy it) make_legacy_ok) as Hl.
      destruct (keyed_entries load_legacy_group 5 _) as [|x lx].
      * rewrite Hl. by eexists.
      * destruct Hl as (d & -> & Hl). cbn [fmap list_fmap]. eexists. split_and!; [done..|].
        ug_simpl. by rewrite Hl.
    + destruct Hc as (h' & -> & Hl). cbn [fmap list_fmap app]. eexists. split_and!; [done..|].
      ug_simpl. by rewrite Hl.
  - cbn [fmap list_fmap app].
    pose proof (load_keyed_at_spec make_legacy load_legacy_group 5 (ug_legacy it) make_legacy_ok) as Hl.
    destruct (keyed_entries load_legacy_group 5 _) as [|x lx].
    + rewrite Hl. by eexists.
    + destruct Hl as (d & -> & Hl). cbn [fmap list_fmap]. eexists. split_and!; [done..|].
      ug_simpl. by rewrite Hl.
Qed.

(** A complete iteration visits what was left, in order, and ends. *)
Lemma ug_collect_spec l it fuel :
  ug_rest it = l -> (length l < fuel)%nat ->
  exists it', ug_load_val it = Ok it' /\ ug_collect fuel it' = Ok l.
Proof.
  revert it fuel; induction l as [|v l IH]; intros it fuel Hr Hf; (destruct fuel as [|fuel]; [lia|]);
    pose proof (ug_load_val_spec it) as Hs; rewrite Hr in Hs.
  - destruct Hs as (it' & -> & Hd). exists it'. split; [done|]. cbn. by rewrite Hd.
  - destruct Hs as (it' & -> & Hd & Hv & Hl). exists it'. split; [done|]. cbn [ug_collect]. rewrite Hd, Hv.
    unfold ug_next. destruct (IH (ug_advance it') fuel Hl) as (it2 & -> & Hc); [cbn in Hf; lia|].
    cbn [mbind res_bind]. by rewrite Hc.
Qed.

(** The valid entries of the data, as the iterators should list them. *)
Definition dict_at (b : ConfigBase) (key : bytes) : dict := value_or (get_dict b (root_field key)) [].
Definition all_groups (b : ConfigBase) (groups communities legacy_groups : bool) : list any_group_info :=
  (if groups then AnyGroup <$> keyed_entries load_group 3 (dict_at b "g") else []) ++
  (if communities then AnyCommunity <$> server_entries load_community_info (dict_at b "o") else []) ++
  (if legacy_groups then AnyLegacy <$> keyed_entries load_legacy_group 5 (dict_at b "C") else []).

Lemma ug_iterate b groups communities legacy_groups fuel :
  (length (all_groups b groups communities legacy_groups) < fuel)%nat ->
  exists it, ug_begin b groups communities legacy_groups = Ok it /\
    ug_collect fuel it = Ok (all_groups b groups communities legacy_groups).
Proof.
  intros Hf. unfold ug_begin. apply ug_collect_spec; [|done]. unfold ug_rest, all_groups, dict_at, rest_of.
  cbn [ug_group ug_comm ug_legacy].
  f_equal; [by destruct groups|f_equal; [|by destruct legacy_groups]].
  destruct communities; [|done]. destruct (get_dict b (root_field "o")) as [[|[u v] d]|]; [done| |done].
  cbn. unfold comm_rest. cbn. by destruct v.
Qed.
End Iteration.

(** ** Writing scalars and sets *)

(** What is stored at a key of a record: a scalar or nothing, or a set. *)
Inductive written := WScalar (o : option scalar) | WSet (s : cset).

Section Writing.
Context `{Oxenc} `{Blake2b}.

Definition write_val (b : ConfigBase) (f : DictFieldProxy) (w : written) : res ConfigBase :=
  match w with WScalar o => write_scalar b f o | WSet s => assign b f (VSet s) end.
Definition write_vals (b : ConfigBase) (info : DictFieldProxy) (l : list (bytes * written)) :
    res ConfigBase :=
  foldM (fun b kv => write_val b (sub_field info kv.1) kv.2) b l.

Definition wf_written (w : written) : Prop :=
  match w with WScalar o => from_option wf_scalar True o | WSet s => wf_value (VSet s) end.
Definition field_set (b : ConfigBase) (f : DictFieldProxy) : cset := as_subset (get_clean b f).
Definition reads (b : ConfigBase) (f : DictFieldProxy) (w : written) : Prop :=
  match w with WScalar o => field_scalar b f = o | WSet s => field_set b f = s end.

Lemma write_val_ok b f w :
  editable b -> wf_written w ->
  exists b', write_val b f w = Ok b' /\ editable b' /\ reads b' f w /\ frame f b b'.
Proof.
  intros [Hw Hd] Hwf. destruct w as [o|s]; cbn [write_val reads wf_written] in *.
  { destruct (write_scalar_editable b f o (conj Hw Hd) Hwf) as (b' & E & Hb' & Hf & Hfr). by exists b'. }
  destruct s as [|x s].
  - destruct (erase_field_ok b f Hw Hd) as (b' & E & Hg & Hd' & Hfr & Ht). exists b'. unfold field_set.
    rewrite Hg. split_and!; try done. split; [by eapply touched_writable|done].
  - destruct (assign_ok b f (VSet (x :: s)) Hw Hd Hwf eq_refl) as (b' & E & Hg & Hd' & Hfr & Ht). exists b'.
    unfold field_set. rewrite Hg. split_and!; try done. split; [by eapply touched_writable|done].
Qed.

(** Sets are observed by their members. *)
Lemma frame_field_set f g b b' :
  frame f b b' -> diverge (path f) (path g) = true -> wf_dict (data_of b) -> wf_dict (data_of b') ->
  field_set b' g = field_set b g.
Proof.
  intros Hf Hd Hw Hw'. apply (sext (field_set b' g)).
  - by destruct (wf_subset b' g Hw').
  - by destruct (wf_subset b g Hw).
  - intros y. specialize (Hf (OMember y) (path g) Hd). rewrite !observe_member_at in Hf.
    unfold field_set. rewrite <- !smem_In. by destruct (smem y _), (smem y _).
Qed.

Lemma frame_reads f g w b b' :
  frame f b b' -> diverge (path f) (path g) = true -> wf_dict (data_of b) -> wf_dict (data_of b') ->
  reads b g w -> reads b' g w.
Proof.
  intros Hf Hd Hw Hw'. destruct w; cbn.
  - by rewrite (frame_scalar _ _ _ _ Hf Hd).
  - by rewrite (frame_field_set _ _ _ _ Hf Hd Hw Hw').
Qed.

Lemma write_vals_ok info l b :
  editable b -> NoDup l.*1 -> Forall (fun kv => wf_written kv.2) l ->
  exists b', write_vals b info l = Ok b' /\ editable b' /\ frame info b b' /\
    (forall k w, (k, w) ∈ l -> reads b' (sub_field info k) w) /\
    (forall k w, k ∉ l.*1 -> reads b (sub_field info k) w -> reads b' (sub_field info k) w).
Proof.
  intros Hb Hn Hf. revert b Hb. induction Hf as [|[k w] l Hw _ IH]; intros b Hb.
  { exists b. split_and!; try done. by intros k w ?%not_elem_of_nil. }
  apply NoDup_cons in Hn as [Hk Hn].
  destruct (write_val_ok b (sub_field info k) w Hb Hw) as (b1 & E1 & Hb1 & Hr1 & Hf1).
  destruct (IH Hn b1 Hb1) as (b' & E' & Hb' & Hf' & Hin & Hout).
  exists b'. unfold write_vals in *. cbn [foldM fst snd]. rewrite E1. cbn [mbind res_bind].
  split_and!; try done.
  - intros ob q Hq. rewrite Hf' by done. apply Hf1. rewrite sub_field_path. by apply diverge_app.
  - intros k' w' [[= -> ->]|Hin']%elem_of_cons; [by apply Hout|by apply Hin].
  - intros k' w' [Hne Hk']%not_elem_of_cons Hr. apply Hout; [done|].
    eapply frame_reads; [done| |apply Hb|apply Hb1|done]. rewrite !sub_field_path. by apply diverge_siblings.
Qed.

(** A record with a scalar is there afterwards, and its dict has what was written and, at other
    keys, the scalars it had. *)
Lemma write_vals_record b info l k0 x0 :
  editable b -> NoDup l.*1 -> Forall (fun kv => wf_written kv.2) l ->
  mfind k0 l = Some (WScalar (Some x0)) ->
  exists b' d, write_vals b info l = Ok b' /\ editable b' /\ frame info b b' /\
    get_dict b' info = Some d /\
    (forall k o, mfind k l = Some (WScalar o) -> get_scalar (mfind k d) = o) /\
    (forall k s, mfind k l = Some (WSet s) -> value_or (maybe_set d k) [] = s) /\
    (forall k, k ∉ l.*1 -> get_scalar (mfind k d) = field_scalar b (sub_field info k)).
Proof.
  intros Hb Hn Hf Hx. destruct (write_vals_ok info l b Hb Hn Hf) as (b' & E & Hb' & Hfr & Hin & Hout).
  destruct (get_dict_field b' info k0 x0) as [d Hg].
  { apply (Hin k0 (WScalar (Some x0))), mfind_In, Hx. }
  exists b', d. split_and!; try done.
  - intros k o Ho%mfind_In. rewrite <- (field_scalar_sub _ _ _ _ Hg). apply (Hin _ _ Ho).
  - intros k s Hs%mfind_In. specialize (Hin _ _ Hs). cbn in Hin. rewrite <- Hin.
    unfold field_set. rewrite get_clean_value, sub_field_path, value_at_app, <- get_clean_value.
    unfold get_dict in Hg. destruct (get_clean b' info) as [[d'|?|?]|]; try done. injection Hg as ->.
    rewrite value_at_cons. unfold maybe_set. by destruct (mfind k d) as [[]|].
  - intros k Hk. rewrite <- (field_scalar_sub _ _ _ _ Hg). by apply (Hout k (WScalar _)).
Qed.

Lemma write_vals_cons b info k w l :
  write_vals b info ((k, w) :: l) = (b ← write_val b (sub_field info k) w; write_vals b info l).
Proof. done. Qed.
Lemma write_vals_app b info l1 l2 :
  write_vals b info (l1 ++ l2) = (b ← write_vals b info l1; write_vals b info l2).
Proof. apply foldM_app. Qed.
End Writing.

(** ** The common part *)

Record valid_base (bg : base_group_info) : Prop := {
  vb_priority : - 2 ^ 31 <= bg_priority bg < 2 ^ 31;
  vb_joined : INT64_MIN <= bg_joined_at bg <= 9000000000000000;
  vb_mute : INT64_MIN <= bg_mute_until bg <= 9000000000000000
}.

Definition base_writes (bg : base_group_info) : list (bytes * written) :=
  [(bs "+", WScalar (if bg_priority bg =? 0 then None else Some (SInt (bg_priority bg))));
   (bs "j", WScalar (positive (to_epoch_seconds (bg_joined_at bg))));
   (bs "@", WScalar (positive (notify_value (bg_notifications bg))));
   (bs "!", WScalar (positive (to_epoch_seconds (bg_mute_until bg))));
   (bs "i", WScalar (flag (bg_invited bg)))].

(** What the common part reads back as. *)
Definition normal_base (name : bytes) (bg : base_group_info) : base_group_info :=
  {| bg_priority := bg_priority bg; bg_joined_at := normal_time (bg_joined_at bg);
     bg_notifications := bg_notifications bg; bg_mute_until := normal_time (bg_mute_until bg);
     bg_name := name; bg_invited := bg_invited bg |}.

Lemma mfind_app_some {A} k (l1 l2 : list (bytes * A)) v :
  mfind k l1 = Some v -> mfind k (l1 ++ l2) = Some v.
Proof. induction l1 as [|[k' x] l1 IH]; cbn; [done|]. by destruct (keqb _ _). Qed.

Ltac next_val :=
  rewrite ?write_vals_cons; cbn [write_val];
  match goal with
  | |- context [write_scalar ?b ?f ?o] => destruct (write_scalar b f o); cbn [mbind res_bind]; [|done]
  | |- context [assign ?b ?f ?o] => destruct (assign b f o); cbn [mbind res_bind]; [|done]
  end.

Section Groups.
Context `{Oxenc} `{CryptoBox} `{Aead} `{Zstd} `{Protobuf} `{TextEncodings}.

Lemma set_base_writes b bg info : set_base b bg info = write_vals b info (base_writes bg).
Proof.
  unfold set_base, base_writes, positive, flag. rewrite set_nonzero_int_write. next_val.
  rewrite set_positive_int_write. next_val. rewrite set_positive_int_write. next_val.
  rewrite set_positive_int_write. next_val. rewrite set_flag_write. by next_val.
Qed.

Lemma base_writes_wf bg : valid_base bg -> Forall (fun kv => wf_written kv.2) (base_writes bg).
Proof.
  intros [Hp Hj Hm]. unfold base_writes, positive, flag. repeat (apply Forall_cons; split); try (by apply Forall_nil); cbn [snd wf_written].
  - destruct (_ =? 0); [done|]. by apply small_int64.
  - destruct (0 <? _); [|done]. by apply epoch_int64.
  - destruct (0 <? _); [|done]. by destruct (bg_notifications bg).
  - destruct (0 <? _); [|done]. by apply epoch_int64.
  - by destruct (bg_invited bg).
Qed.

Lemma load_base_normal d bg name :
  valid_base bg ->
  (forall k o, mfind k (base_writes bg) = Some (WScalar o) -> get_scalar (mfind k d) = o) ->
  load_base_group name d = normal_base name bg.
Proof.
  intros [Hp Hj Hm] Hk. unfold load_base_group, normal_base. cbv zeta. rewrite !maybe_int_field.
  repeat match goal with
  | |- context [get_scalar (mfind (bs ?s) d)] => erewrite (Hk (bs s)) by reflexivity
  end.
  rewrite read_int, read_flag by done. f_equal.
  - rewrite <- (read_time (bg_joined_at bg)) by lia. f_equal. apply Z.max_r.
    unfold positive. destruct (0 <? _) eqn:E; cbn; bool_prop; lia.
  - by destruct (bg_notifications bg).
  - apply read_time. lia.
Qed.

(** ** Groups *)

(** Whether the group's secret key belongs to its id. *)
Definition has_key (g : group_info) (pk_bytes : bytes) : bool :=
  (size_of (gi_secretkey g) =? 64) && bool_decide (take 32 (drop 32 (gi_secretkey g)) = drop 1 pk_bytes).

Record valid_group (g : group_info) : Prop := {
  vg_base : valid_base (gi_base g);
  vg_status : - 2 ^ 31 <= gi_removed_status g < 2 ^ 31;
  vg_id : make_lc (gi_id g) = gi_id g;
  vg_key : gi_secretkey g = [] \/
           exists seed, size_of seed = 32 /\ gi_secretkey g = (ed_seed_keypair seed).2
}.

Definition group_writes (g : group_info) (pk_bytes : bytes) : list (bytes * written) :=
  base_writes (gi_base g) ++
  [(bs "n", WScalar (nonempty (take NAME_MAX_LENGTH (bg_name (gi_base g)))));
   (bs "r", WScalar (positive (gi_removed_status g)))] ++
  if has_key g pk_bytes then [(bs "K", WScalar (Some (SStr (take 32 (gi_secretkey g)))))]
  else [(bs "K", WScalar (Some (SStr [])));
        (bs "s", WScalar (if size_of (gi_auth_data g) =? 100 then Some (SStr (gi_auth_data g)) else None))].

(** Auth data as it is read. *)
Definition auth_of (o : option scalar) : bytes :=
  match str_field o with Some sig => if size_of sig =? 100 then sig else [] | None => [] end.

(** What a stored group reads back as: with the admin key, auth data that was stored before stays. *)
Definition normal_group (b : ConfigBase) (pk : bytes) (g : group_info) : group_info :=
  {| gi_base := normal_base (take NAME_MAX_LENGTH (bg_name (gi_base g))) (gi_base g);
     gi_id := gi_id g;
     gi_secretkey := if has_key g pk then gi_secretkey g else [];
     gi_auth_data := if has_key g pk then auth_of (field_scalar b (sub_field (group_field pk) "s"))
                     else if size_of (gi_auth_data g) =? 100 then gi_auth_data g else [];
     gi_removed_status := if 0 <? gi_removed_status g then gi_removed_status g else 0 |}.

Lemma set_group_writes b g :
  set_group b g =
  (pk ← session_id_to_bytes (gi_id g) "03"; write_vals b (group_field pk) (group_writes g pk)).
Proof.
  unfold set_group. destruct (session_id_to_bytes _ _) as [pk|]; [|done]. cbn [mbind res_bind].
  unfold group_writes. rewrite write_vals_app, set_base_writes.
  destruct (write_vals b _ (base_writes _)) as [b1|]; [|done]. cbn [mbind res_bind app].
  rewrite set_nonempty_str_write. unfold nonempty. next_val. rewrite set_positive_int_write. unfold positive. next_val.
  unfold set_str. change (assign ?b ?f (VScalar ?x)) with (write_scalar b f (Some x)).
  unfold has_key. destruct (_ && _); [by next_val|]. next_val.
  destruct (_ =? 100); rewrite ?write_vals_cons; cbn [write_val];
    [|change (erase_field ?b ?f) with (write_scalar b f None)]; by destruct (write_scalar _ _ _).
Qed.

Lemma from_hex_prefix id pk p :
  session_id_to_bytes id (to_hex [byte_of p]) = Ok pk -> pk = byte_of p :: drop 1 pk.
Proof.
  intros (Hs & Hh & Ht & ->)%session_id_inv.
  assert (length (to_hex [byte_of p]) = 2%nat) as Hl.
  { pose proof (to_hex_size [byte_of p]) as Hz. unfold size_of in Hz. cbn [length] in Hz. lia. }
  assert (id = to_hex [byte_of p] ++ drop 2 id) as Hid.
  { rewrite Hl in Ht. by rewrite <- Ht, take_drop. }
  assert (is_hex (drop 2 id) = true) as Hd by (by apply is_hex_drop).
  rewrite Hid, from_hex_app, from_to_hex by (done || apply is_hex_to_hex). done.
Qed.

Lemma load_group_key g pk :
  valid_group g -> session_id_to_bytes (gi_id g) "03" = Ok pk -> has_key g pk = true ->
  let '(pk', sk) := ed_seed_keypair (take 32 (gi_secretkey g)) in
  (if bool_decide (gi_id g = to_hex (byte_of 3 :: pk')) then sk else []) = gi_secretkey g.
Proof.
  intros [_ _ Hlc Hkey] Hid Hh. apply andb_true_iff in Hh as [Hs%Z.eqb_eq Ht%bool_decide_eq_true].
  destruct Hkey as [E|(seed & Hseed & E)]; [by rewrite E in Hs|].
  pose proof (ed_seed_sk seed Hseed) as Esk. pose proof (ed_seed_pk_size seed Hseed) as Hpk.
  assert (length seed = 32%nat) as Hlen by (unfold size_of in Hseed; lia).
  assert (take 32 (gi_secretkey g) = seed) as ->.
  { by rewrite E, Esk, <- Hlen, take_app_length. }
  rewrite E, Esk, <- Hlen, drop_app_length in Ht.
  rewrite take_ge in Ht by (unfold size_of in Hpk; lia).
  rewrite E. destruct (ed_seed_keypair seed) as [pk' sk] eqn:Ep. cbn [fst snd] in *.
  rewrite bool_decide_eq_true_2; [done|].
  pose proof Hid as Hid2. rewrite <- to_hex_03 in Hid2. apply from_hex_prefix in Hid2.
  rewrite Ht, <- Hid2. rewrite <- Hlc. by apply session_id_roundtrip in Hid as ->.
Qed.

Lemma group_writes_wf g pk : valid_group g -> Forall (fun kv => wf_written kv.2) (group_writes g pk).
Proof.
  intros [Hb Hs _ _]. unfold group_writes. apply Forall_app. split; [by apply base_writes_wf|].
  unfold nonempty, positive. cbn [app]. repeat (apply Forall_cons; split); cbn [snd wf_written].
  - by destruct (is_nil _).
  - destruct (0 <? _); [|done]. by apply small_int64.
  - destruct (has_key g pk); repeat constructor. cbn. by destruct (_ =? 100).
Qed.

Lemma group_writes_nodup g pk : NoDup (group_writes g pk).*1.
Proof. unfold group_writes. destruct (has_key g pk); by apply (bool_decide_unpack _). Qed.

Lemma group_set_get b g pk :
  editable b -> valid_group g -> session_id_to_bytes (gi_id g) "03" = Ok pk ->
  exists b', set_group b g = Ok b' /\ editable b' /\ frame (group_field pk) b b' /\
    get_group b' (gi_id g) = Ok (Some (normal_group b pk g)).
Proof.
  intros Hb Hg Hpk. rewrite set_group_writes. unfold get_group. rewrite Hpk. cbn [mbind res_bind].
  destruct (write_vals_record b (group_field pk) (group_writes g pk) "K"
    (SStr (if has_key g pk then take 32 (gi_secretkey g) else []))) as (b' & d & E & Hb' & Hfr & Hd & Hk & _ & Hother).
  { done. } { apply group_writes_nodup. } { by apply group_writes_wf. }
  { unfold group_writes. by destruct (has_key g pk). }
  exists b'. split_and!; try done. rewrite Hd. cbn [fmap option_fmap option_map]. do 2 f_equal.
  unfold load_group, normal_group. rewrite !maybe_string_field, !maybe_int_field.
  rewrite (load_base_normal d (gi_base g)); [|apply Hg|].
  2: { intros k o Hko. apply Hk. by apply mfind_app_some. }
  erewrite (Hk (bs "n")) by reflexivity. erewrite (Hk (bs "r")) by reflexivity.
  rewrite read_nonempty. f_equal.
  - destruct (has_key g pk) eqn:Eh.
    + erewrite (Hk (bs "K")) by (unfold group_writes; by rewrite Eh). cbn [str_field].
      assert (size_of (take 32 (gi_secretkey g)) = 32) as ->.
      { unfold has_key in Eh. bool_prop. unfold size_of in *. rewrite length_take. lia. }
      rewrite Z.eqb_refl. pose proof (load_group_key g pk Hg Hpk Eh) as Hl.
      by destruct (ed_seed_keypair _).
    + by erewrite (Hk (bs "K")) by (unfold group_writes; by rewrite Eh).
  - destruct (has_key g pk) eqn:Eh.
    + rewrite (Hother (bs "s")); [done|]. unfold group_writes. rewrite Eh. by apply (bool_decide_unpack _).
    + erewrite (Hk (bs "s")) by (unfold group_writes; by rewrite Eh).
      destruct (_ =? 100) eqn:Ea; [|done]. cbn. by rewrite Ea.
  - unfold positive. destruct (0 <? _) eqn:E0; [|done]. cbn. apply to_int_id, Hg.
Qed.
End Groups.
