(* ===== verification/GroupRecordFacts.v ===== *)
(** * Facts about stored legacy groups and communities *)
From S2P Require Import Prelude OMap Util Internal BtValue ThirdParty ConfigData.
From S2P Require Import ConfigDataFacts ConfigParse ConfigParseFacts ConfigMessage.
From S2P Require Import MessageFacts MergeFacts ReplayFacts Encrypt.
From S2P Require Import SessionEncrypt Protos ConfigBase BaseFacts Multipart BaseSync.
From S2P Require Import DictField DictFieldFacts Community CommunityFacts UserProfileConfig.
From S2P Require Import ContactsConfig ContactsFacts UserGroupsConfig UserGroupsFacts.

Section Records.
Context `{Oxenc} `{CryptoBox} `{Aead} `{Zstd} `{Protobuf} `{TextEncodings}.

(** ** Members of legacy groups *)

(** The id of a member: the lower-case hex of 33 bytes with the prefix. *)
Definition member_id (sid : bytes) : Prop :=
  exists x, size_of x = 33 /\ head x = Some (byte_of 5) /\ sid = to_hex x.

Lemma member_set_spec admin m s x :
  x ∈ foldl (fun s e => if eqb (e : bytes * bool).2 admin then sinsert (SStr (from_hex e.1)) s else s) s m <->
  x ∈ s \/ exists sid, (sid, admin) ∈ m /\ x = SStr (from_hex sid).
Proof.
  revert s; induction m as [|[sid a] m IH]; intros s; cbn [foldl fst snd].
  - split; [by left|]. intros [?|(sid & Hin & _)]; [done|]. by apply not_elem_of_nil in Hin.
  - rewrite IH. destruct (eqb a admin) eqn:Ea.
    + apply eqb_prop in Ea as ->. rewrite sinsert_In. setoid_rewrite elem_of_cons. naive_solver.
    + apply eqb_false_iff in Ea. setoid_rewrite elem_of_cons. naive_solver.
Qed.

Lemma member_set_wf admin m : wf_value (VSet (member_set admin m)).
Proof.
  unfold member_set. assert (wf_value (VSet [])) as Hn by (split; constructor). revert Hn.
  generalize (@nil scalar) as s. induction m as [|[sid a] m IH]; intros s [Hs Hf]; [done|]. cbn [foldl fst snd].
  apply IH. destruct (eqb a admin); [|done]. split; [by apply ssorted_sinsert|by apply sinsert_Forall].
Qed.

(** Loading a set adds its ids where they are missing. *)
Lemma load_member_set_sorted admin s m : msorted m -> msorted (load_member_set admin s m).
Proof.
  unfold load_member_set. generalize (value_or s []) as l. intros l. revert m.
  induction l as [|x l IH]; intros m Hm; [done|]. cbn [foldl]. apply IH. destruct x as [z|x]; [done|].
  destruct (_ && _); [by apply msorted_memplace|done].
Qed.

Lemma load_member_set_find admin s m k v :
  msorted m ->
  mfind k (load_member_set admin s m) = Some v <->
  mfind k m = Some v \/
  (mfind k m = None /\ v = admin /\
   exists x, SStr x ∈ value_or s [] /\ size_of x = 33 /\ head x = Some (byte_of 5) /\ k = to_hex x).
Proof.
  unfold load_member_set. generalize (value_or s []) as l. intros l. revert m.
  induction l as [|y l IH]; intros m Hm; cbn [foldl].
  { split; [by left|]. intros [?|(_ & _ & x & Hin & _)]; [done|]. by apply not_elem_of_nil in Hin. }
  destruct y as [z|y]; [rewrite IH by done; setoid_rewrite elem_of_cons; naive_solver|].
  destruct ((size_of y =? 33) && bool_decide (head y = Some (byte_of 5))) eqn:E.
  - apply andb_true_iff in E as [Es%Z.eqb_eq Eh%bool_decide_eq_true].
    rewrite IH by (by apply msorted_memplace). rewrite mfind_memplace. setoid_rewrite elem_of_cons.
    destruct (keqb_spec k (to_hex y)) as [->|Hne]; [|naive_solver].
    destruct (mfind (to_hex y) m) as [w|]; cbn; naive_solver.
  - rewrite IH by done. setoid_rewrite elem_of_cons.
    assert (forall x, SStr x = SStr y -> size_of x = 33 -> head x = Some (byte_of 5) -> False) as Hx.
    { intros x [= ->] Hs Hh. rewrite Hs, Hh, bool_decide_eq_true_2 in E by done. done. }
    naive_solver.
Qed.

Lemma members_roundtrip m :
  msorted m -> Forall (fun e => member_id e.1) m ->
  load_member_set true (Some (member_set true m)) (load_member_set false (Some (member_set false m)) []) = m.
Proof.
  intros Hm Hf. rewrite Forall_forall in Hf.
  assert (msorted (load_member_set false (Some (member_set false m)) [])) as Hs1
    by (apply load_member_set_sorted, msorted_nil).
  assert (forall admin sid x, (sid, admin) ∈ m -> SStr x = SStr (from_hex sid) -> to_hex x = sid) as Hback.
  { intros admin sid x Hin [= ->]. destruct (Hf _ Hin) as (y & _ & _ & E). cbn in E. by rewrite E, from_to_hex. }
  assert (forall admin k, (exists x, SStr x ∈ member_set admin m /\ size_of x = 33 /\
    head x = Some (byte_of 5) /\ k = to_hex x) <-> (k, admin) ∈ m) as Hset.
  { intros admin k. split.
    - intros (x & Hx & _ & _ & ->). apply member_set_spec in Hx as [Hx|(sid & Hin & Hx)]; [by apply not_elem_of_nil in Hx|].
      by rewrite (Hback _ _ _ Hin Hx).
    - intros Hin. destruct (Hf _ Hin) as (x & Hs & Hh & E). cbn in E. exists x. split_and!; try done.
      apply member_set_spec. right. exists k. split; [done|]. by rewrite E, from_to_hex. }
  apply mext; [by apply load_member_set_sorted|done|]. intros k.
  apply option_eq. intros v. rewrite load_member_set_find, (mfind_Some_iff k v m) by done.
  assert (mfind k (load_member_set false (Some (member_set false m)) []) = Some v <-> v = false /\ (k, false) ∈ m) as E1.
  { rewrite load_member_set_find by apply msorted_nil. cbn [value_or mfind]. rewrite Hset. naive_solver. }
  assert (mfind k (load_member_set false (Some (member_set false m)) []) = None <-> (k, false) ∉ m) as E2.
  { split.
    - intros En Hin. assert (mfind k (load_member_set false (Some (member_set false m)) []) = Some false) as Es.
      { rewrite load_member_set_find by apply msorted_nil. cbn [value_or mfind]. rewrite Hset. auto. }
      congruence.
    - intros Hn. destruct (mfind k _) as [w|] eqn:Ew; [|done]. exfalso.
      apply load_member_set_find in Ew; [|apply msorted_nil]. cbn [value_or mfind] in Ew. rewrite Hset in Ew. naive_solver. }
  rewrite E1, E2. cbn [value_or]. rewrite Hset. split; [naive_solver|].
  intros Hin. destruct v; [|by left]. right. split_and!; try done. intros Hin2.
  apply (In_mfind _ _ _ Hm) in Hin, Hin2. congruence.
Qed.

(** ** Legacy groups *)

Record valid_legacy (g : legacy_group_info) : Prop := {
  vl_base : valid_base (lg_base g);
  vl_timer : lg_disappearing_timer g <= INT64_MAX;
  vl_sorted : msorted (lg_members g);
  vl_members : Forall (fun e => member_id e.1) (lg_members g)
}.

Definition legacy_keys (g : legacy_group_info) : bool :=
  (size_of (lg_enc_pubkey g) =? 32) && (size_of (lg_enc_seckey g) =? 32).
Definition legacy_writes (g : legacy_group_info) : list (bytes * written) :=
  base_writes (lg_base g) ++
  [(bs "n", WScalar (Some (SStr (take NAME_MAX_LENGTH (bg_name (lg_base g))))));
   (bs "k", WScalar (if legacy_keys g then Some (SStr (lg_enc_pubkey g)) else None));
   (bs "K", WScalar (if legacy_keys g then Some (SStr (lg_enc_seckey g)) else None));
   (bs "m", WSet (member_set false (lg_members g)));
   (bs "a", WSet (member_set true (lg_members g)));
   (bs "E", WScalar (positive (lg_disappearing_timer g)))].

(** What a stored legacy group reads back as. *)
Definition normal_legacy (g : legacy_group_info) : legacy_group_info :=
  {| lg_base := normal_base (take NAME_MAX_LENGTH (bg_name (lg_base g))) (lg_base g);
     lg_session_id := lg_session_id g;
     lg_enc_pubkey := if legacy_keys g then lg_enc_pubkey g else [];
     lg_enc_seckey := if legacy_keys g then lg_enc_seckey g else [];
     lg_disappearing_timer := if 0 <? lg_disappearing_timer g then lg_disappearing_timer g else 0;
     lg_members := lg_members g |}.

Lemma set_legacy_writes b g :
  set_legacy_group b g =
  (pk ← session_id_to_bytes (lg_session_id g) "05"; write_vals b (legacy_field pk) (legacy_writes g)).
Proof.
  unfold set_legacy_group. destruct (session_id_to_bytes _ _) as [pk|]; [|done]. cbn [mbind res_bind].
  unfold legacy_writes. rewrite write_vals_app, set_base_writes.
  destruct (write_vals b _ (base_writes _)) as [b1|]; [|done]. cbn [mbind res_bind].
  unfold set_str. change (assign b1 ?f (VScalar ?x)) with (write_scalar b1 f (Some x)). next_val.
  rewrite set_pair_if_write. unfold legacy_keys. next_val. next_val. next_val. next_val.
  rewrite set_positive_int_write. unfold positive. by next_val.
Qed.

Lemma legacy_writes_wf g : valid_legacy g -> Forall (fun kv => wf_written kv.2) (legacy_writes g).
Proof.
  intros [Hb Ht _ _]. unfold legacy_writes. apply Forall_app. split; [by apply base_writes_wf|].
  unfold positive. repeat (apply Forall_cons; split); try (by apply Forall_nil); cbn [snd wf_written];
    try apply member_set_wf; try done; try (by destruct (legacy_keys g)).
  destruct (0 <? _) eqn:E; [|done]. bool_prop. cbn. unfold in_int64, INT64_MIN in *. apply andb_true_iff. lia.
Qed.

Lemma legacy_set_get b g pk :
  editable b -> valid_legacy g -> session_id_to_bytes (lg_session_id g) "05" = Ok pk ->
  exists b', set_legacy_group b g = Ok b' /\ editable b' /\ frame (legacy_field pk) b b' /\
    get_legacy_group b' (lg_session_id g) = Ok (Some (normal_legacy g)).
Proof.
  intros Hb Hg Hpk. rewrite set_legacy_writes. unfold get_legacy_group. rewrite Hpk. cbn [mbind res_bind].
  destruct (write_vals_record b (legacy_field pk) (legacy_writes g) "n"
    (SStr (take NAME_MAX_LENGTH (bg_name (lg_base g))))) as (b' & d & E & Hb' & Hfr & Hd & Hk & Hset & _).
  { done. } { by apply (bool_decide_unpack _). } { by apply legacy_writes_wf. } { done. }
  exists b'. split_and!; try done. rewrite Hd. cbn [fmap option_fmap option_map]. do 2 f_equal.
  unfold load_legacy_group, normal_legacy. rewrite !maybe_string_field, !maybe_int_field. cbv zeta.
  rewrite (load_base_normal d (lg_base g)); [|apply Hg|].
  2: { intros k o Hko. apply Hk. by apply mfind_app_some. }
  erewrite (Hk (bs "n")), (Hk (bs "k")), (Hk (bs "K")), (Hk (bs "E")) by reflexivity.
  assert (forall a s m, load_member_set a s m = load_member_set a (Some (value_or s [])) m) as Ev by done.
  rewrite (Ev true), (Ev false), (Hset (bs "m") _ eq_refl), (Hset (bs "a") _ eq_refl).
  rewrite members_roundtrip by apply Hg. unfold legacy_keys, positive.
  f_equal.
  - destruct (_ && _) eqn:Ek; [|done]. cbn [str_field]. by rewrite Ek.
  - destruct (_ && _) eqn:Ek; [|done]. cbn [str_field]. by rewrite Ek.
  - destruct (0 <? lg_disappearing_timer g) eqn:Et; [|done]. cbn. by rewrite Et.
Qed.

(** ** Communities *)

Record valid_community (c : community_info) : Prop := {
  vco_base : valid_base (co_base c);
  vco_url : canonical_url (base_url_ (co_comm c)) = Ok (base_url_ (co_comm c));
  vco_room : canonical_room (comm_room (co_comm c)) = Ok (room_ (co_comm c));
  vco_pubkey : size_of (pubkey_ (co_comm c)) = 32
}.

Definition community_writes (c : community_info) : list (bytes * written) :=
  base_writes (co_base c) ++ [(bs "n", WScalar (Some (SStr (comm_room (co_comm c)))))].

Definition normal_community (c : community_info) : community_info :=
  {| co_base := normal_base [] (co_base c);
     co_comm := {| base_url_ := base_url_ (co_comm c); room_ := room_ (co_comm c);
                   localized_room_ := Some (comm_room (co_comm c)); pubkey_ := pubkey_ (co_comm c) |} |}.

Lemma set_community_writes b c :
  set_community b c =
  (b ← write_vals b (server_field (base_url_ (co_comm c))) [(bs "#", WScalar (Some (SStr (pubkey_ (co_comm c)))))];
   write_vals b (community_field (co_comm c)) (community_writes c)).
Proof.
  unfold set_community, set_str. change (assign b ?f (VScalar ?x)) with (write_scalar b f (Some x)).
  next_val. change (write_vals ?b ?f []) with (Ok b). cbn [mbind res_bind].
  unfold community_writes. rewrite write_vals_app, set_base_writes.
  destruct (write_vals _ _ (base_writes _)) as [b1|]; [|done]. cbn [mbind res_bind].
  change (assign b1 ?f (VScalar ?x)) with (write_scalar b1 f (Some x)). by next_val.
Qed.

(** Everything of other servers and rooms, and of other kinds of groups, is left alone. *)
Definition community_frame (c : community) (b b' : ConfigBase) : Prop :=
  forall ob q, diverge (path (community_field c)) q = true ->
    diverge (path (sub_field (server_field (base_url_ c)) "#")) q = true ->
    observe_at ob q (data_of b') = observe_at ob q (data_of b).

Lemma community_set_get b c :
  editable b -> valid_community c ->
  exists b', set_community b c = Ok b' /\ editable b' /\ community_frame (co_comm c) b b' /\
    get_community b' (base_url_ (co_comm c)) (comm_room (co_comm c)) = Ok (Some (normal_community c)).
Proof.
  intros Hb [Hbase Hurl Hroom Hpk]. rewrite set_community_writes. set (comm := co_comm c) in *.
  destruct (write_val_ok b (sub_field (server_field (base_url_ comm)) "#") (WScalar (Some (SStr (pubkey_ comm)))))
    as (b1 & E1 & Hb1 & Hr1 & Hf1); [done..|].
  rewrite write_vals_cons, E1. cbn [mbind res_bind write_vals foldM].
  destruct (write_vals_record b1 (community_field comm) (community_writes c) "n" (SStr (comm_room comm)))
    as (b2 & d & E2 & Hb2 & Hf2 & Hd & Hk & _ & _).
  { done. } { by apply (bool_decide_unpack _). }
  { apply Forall_app. split; [by apply base_writes_wf|by repeat constructor]. } { done. }
  exists b2. split_and!; try done.
  { intros ob q Hq1 Hq2. rewrite Hf2 by done. by apply Hf1. }
  unfold get_community, new_community, set_base_url. rewrite Hurl. cbn [mbind res_bind]. unfold set_room.
  rewrite Hroom. cbn [mbind res_bind base_url_ room_ localized_room_ pubkey_ empty_community].
  change (get_dict b2 (community_field _)) with (get_dict b2 (community_field comm)). rewrite Hd.
  unfold load_community_info. rewrite maybe_string_field. erewrite (Hk (bs "n")) by reflexivity.
  cbn [str_field]. fold comm. unfold set_room. rewrite Hroom.
  cbn [mbind res_bind co_comm co_base base_url_ room_ localized_room_ pubkey_].
  assert (server_pubkey b2 {| base_url_ := base_url_ comm; room_ := room_ comm;
            localized_room_ := Some (comm_room comm); pubkey_ := [] |} = Some (pubkey_ comm)) as ->.
  { unfold server_pubkey, string_or. cbn [base_url_]. rewrite get_string_scalar.
    rewrite (frame_scalar _ (sub_field (server_field (base_url_ comm)) "#") _ _ Hf2).
    - cbn [reads] in Hr1. rewrite Hr1. cbn. by rewrite Hpk.
    - cbn. by rewrite !keqb_refl. }
  unfold set_pubkey. rewrite Hpk. cbn [Z.eqb Pos.eqb negb throw_if mbind res_bind base_url_ room_ localized_room_].
  unfold normal_community. rewrite (load_base_normal d (co_base c)); [done..|].
  intros k o Hko. apply Hk. by apply mfind_app_some.
Qed.
End Records.

(** ** Being removed from a group *)

(** The operations of a [group_info] that change its status, and what they are to do. *)
Inductive status_op := OpKicked | OpInvited | OpDestroyed.
Definition mark (g : group_info) (op : status_op) : group_info :=
  match op with OpKicked => mark_kicked g | OpInvited => mark_invited g | OpDestroyed => mark_destroyed g end.
Inductive membership := InGroup | Kicked | Destroyed.
Definition membership_of (g : group_info) : membership :=
  if is_destroyed g then Destroyed else if kicked g then Kicked else InGroup.
Definition next_membership (s : membership) (op : status_op) : membership :=
  match op, s with
  | OpDestroyed, _ | OpKicked, Destroyed => Destroyed
  | OpKicked, _ => Kicked
  | OpInvited, Kicked => InGroup
  | OpInvited, _ => s
  end.
Definition removes (op : status_op) : bool := match op with OpInvited => false | _ => true end.

Definition no_keys (g : group_info) : Prop := gi_secretkey g = [] /\ gi_auth_data g = [].

Lemma mark_spec g op :
  membership_of (mark g op) = next_membership (membership_of g) op /\
  gi_id (mark g op) = gi_id g /\ gi_base (mark g op) = gi_base g /\
  (if removes op then no_keys (mark g op)
   else gi_secretkey (mark g op) = gi_secretkey g /\ gi_auth_data (mark g op) = gi_auth_data g).
Proof.
  split; [|by destruct op]. unfold membership_of, is_destroyed, kicked.
  destruct op; unfold mark, mark_kicked, mark_invited, mark_destroyed; cbn [gi_removed_status with_status next_membership removes].
  - destruct (gi_removed_status g =? GROUP_DESTROYED) eqn:Ed; [by rewrite Ed|]. by destruct (gi_removed_status g =? KICKED_FROM_GROUP).
  - destruct (gi_removed_status g =? KICKED_FROM_GROUP) eqn:Ek; [apply Z.eqb_eq in Ek as ->; done|].
    rewrite Ek. by destruct (gi_removed_status g =? GROUP_DESTROYED).
  - done.
Qed.

(** *** On the stored group *)

Section StoredStatus.
Context `{Oxenc} `{CryptoBox} `{Aead} `{Zstd} `{Protobuf} `{TextEncodings}.

(** The application reads the group, changes its status and stores it. *)
Definition change_status (id : bytes) (b : ConfigBase) (op : status_op) : res ConfigBase :=
  o ← get_group b id; match o with Some g => set_group b (mark g op) | None => Ok b end.

Lemma normal_time_range t : t <= 9000000000000000 -> 0 <= normal_time t <= 9000000000000000.
Proof.
  intros Ht. unfold normal_time. destruct (Z.ltb_spec 0 (to_epoch_seconds t)); [|lia].
  split; [lia|]. unfold to_epoch_seconds. repeat case_match; bool_prop; try lia; apply Z.div_le_upper_bound; lia.
Qed.
Lemma normal_group_valid b pk g : valid_group g -> valid_group (normal_group b pk g).
Proof.
  intros [[Hp Hj Hm] Hs Hid Hk]. unfold INT64_MIN in *.
  pose proof (normal_time_range _ (proj2 Hj)). pose proof (normal_time_range _ (proj2 Hm)). constructor; cbn.
  - constructor; cbn; unfold INT64_MIN; lia.
  - destruct (0 <? gi_removed_status g) eqn:E; bool_prop; lia.
  - done.
  - destruct (has_key g pk); [done|by left].
Qed.
Lemma mark_valid g op : valid_group g -> valid_group (mark g op).
Proof.
  intros [Hb Hs Hid Hk]. destruct op; constructor; cbn; auto; unfold GROUP_DESTROYED, KICKED_FROM_GROUP, NOT_REMOVED; repeat case_match; lia.
Qed.
Lemma normal_membership b pk g : membership_of (normal_group b pk g) = membership_of g.
Proof.
  unfold membership_of, is_destroyed, kicked, GROUP_DESTROYED, KICKED_FROM_GROUP. cbn. destruct (Z.ltb_spec 0 (gi_removed_status g)); [done|].
  by rewrite !(proj2 (Z.eqb_neq (gi_removed_status g) _)) by lia.
Qed.
Lemma normal_no_keys b pk g : no_keys g -> no_keys (normal_group b pk g).
Proof. intros [Hk Ha]. unfold no_keys, normal_group, has_key. cbn. by rewrite Hk, Ha. Qed.

Lemma change_status_ok id pk b g op :
  editable b -> session_id_to_bytes id "03" = Ok pk -> get_group b id = Ok (Some g) -> gi_id g = id -> valid_group g ->
  exists b' g', change_status id b op = Ok b' /\ editable b' /\ get_group b' id = Ok (Some g') /\ gi_id g' = id /\
    valid_group g' /\ frame (group_field pk) b b' /\ membership_of g' = next_membership (membership_of g) op /\
    (removes op = true \/ no_keys g -> no_keys g').
Proof.
  intros Hb Hpk Hg Hid Hv. destruct (mark_spec g op) as (Hm & Hi & _ & Hk).
  destruct (group_set_get b (mark g op) pk Hb (mark_valid g op Hv)) as (b' & Es & Hb' & Hf & Eg); [by rewrite Hi, Hid|].
  exists b', (normal_group b pk (mark g op)). rewrite Hi, Hid in Eg. unfold change_status. rewrite Hg. cbn [mbind res_bind].
  split_and!; [done|done|done|by cbn; rewrite Hi|by apply normal_group_valid, mark_valid|done|by rewrite normal_membership|].
  intros Hor. apply normal_no_keys. destruct (removes op); [done|]. destruct Hor as [|Hn]; [done|].
  unfold no_keys. destruct Hk as [-> ->]. exact Hn.
Qed.

Lemma get_group_id b id g : get_group b id = Ok (Some g) -> gi_id g = id.
Proof.
  unfold get_group. destruct (session_id_to_bytes id _) as [pk|]; [|done]. cbn [mbind res_bind].
  destruct (get_dict b _); [|done]. by intros [= <-].
Qed.
Lemma frame_trans f b1 b2 b3 : frame f b1 b2 -> frame f b2 b3 -> frame f b1 b3.
Proof. intros H12 H23 ob q Hq. by rewrite (H23 ob q Hq), (H12 ob q Hq). Qed.

Lemma change_all_ok id pk ops : forall b g,
  editable b -> session_id_to_bytes id "03" = Ok pk -> get_group b id = Ok (Some g) -> valid_group g ->
  exists b' g', foldM (change_status id) b ops = Ok b' /\ editable b' /\ get_group b' id = Ok (Some g') /\
    frame (group_field pk) b b' /\ membership_of g' = foldl next_membership (membership_of g) ops /\
    (existsb removes ops = true \/ no_keys g -> no_keys g').
Proof.
  induction ops as [|op ops IH]; intros b g Hb Hpk Hg Hv.
  { exists b, g. split_and!; [done|done|done|apply frame_refl|done|]. by intros [|]. }
  destruct (change_status_ok id pk b g op Hb Hpk Hg (get_group_id _ _ _ Hg) Hv) as (b1 & g1 & E1 & Hb1 & Hg1 & _ & Hv1 & Hf1 & Hm1 & Hk1).
  destruct (IH b1 g1 Hb1 Hpk Hg1 Hv1) as (b' & g' & E' & Hb' & Hg' & Hf' & Hm' & Hk'). exists b', g'.
  split_and!; [by cbn; rewrite E1|done|done|by eapply frame_trans|by rewrite Hm', Hm1|].
  cbn [existsb]. rewrite orb_true_iff. intros [[Ho|Ho]|Hn]; apply Hk'; auto.
Qed.

(** A kick or the end of the group is what leaves a user outside of it. *)
Lemma still_in ops : forall s, existsb removes ops = false -> foldl next_membership s ops <> InGroup -> s <> InGroup.
Proof.
  induction ops as [|op ops IH]; intros s; [done|]. cbn [existsb foldl]. intros [Ho Hr]%orb_false_iff Hs.
  specialize (IH _ Hr Hs). by destruct op, s.
Qed.
End StoredStatus.

(** ** Erasing *)

(** ** Changes of sorted maps as maps and filters of lists *)

Section Maps.
Context {K V : Type} `{Ordered K}.
Implicit Types (k : K) (v : V) (m : list (K * V)).

Lemma minsert_same k v m : msorted m -> mfind k m = Some v -> minsert k v m = m.
Proof.
  intros Hs Hf. apply mext; auto with session. intros k'. rewrite mfind_minsert.
  by destruct (keqb_spec k' k) as [->|].
Qed.

Lemma merase_absent k m : mfind k m = None -> merase k m = m.
Proof.
  induction m as [|[k0 v0] m IH]; cbn; [done|]. destruct (keqb k k0); [done|]. intros Hf. by rewrite IH.
Qed.

Lemma minsert_existing k v m :
  msorted m -> mfind k m <> None -> minsert k v m = (fun e => if keqb k e.1 then (k, v) else e) <$> m.
Proof.
  induction m as [|[k0 v0] m IH]; cbn; [done|]. intros [Hs Hlt]%msorted_cons. cmp_case k k0; cbn; intros Hf.
  - subst. rewrite keqb_refl. f_equal. symmetry. rewrite <- (list_fmap_id m) at 2. apply list_fmap_ext. intros i [k1 v1] Hi%list_elem_of_lookup_2. cbn.
    rewrite Forall_forall in Hlt. apply Hlt in Hi. cbn in Hi. destruct (keqb_spec k0 k1) as [->|]; [|done].
    by apply klt_irrefl in Hi.
  - exfalso. destruct (keqb_spec k k0) as [->|]; [by apply klt_irrefl in Ecmp|].
    destruct (mfind k m) as [x|] eqn:E; [|done]. apply mfind_In in E. rewrite Forall_forall in Hlt.
    apply Hlt in E. cbn in E. by destruct (klt_irrefl k (klt_trans _ _ _ Ecmp E)).
  - destruct (keqb_spec k k0) as [->|]; [by apply klt_irrefl in Ecmp|]. by rewrite IH.
Qed.
End Maps.

(** ** Erasing a field *)

(** The data as it is when nothing is left to prune, or has been pruned already. *)
Definition settled `{Oxenc} `{Blake2b} (b : ConfigBase) : Prop :=
  editable b /\ (is_dirty b = true \/ pruned_dict (data_of b)).

(** A top-level dict of the data. *)
Lemma dict_at_data b key : dict_at b key = as_subdict (mfind key (data_of b)).
Proof. unfold dict_at, get_dict, get_clean. cbn. by destruct (mfind _ _) as [[]|]. Qed.

Lemma mfind_update_existing k ks change d k' :
  mfind k' (update_existing (k :: ks) change d) =
  if keqb k' k then match mfind k d with
                    | Some (VDict d') => Some (VDict (update_existing ks change d'))
                    | o => o
                    end
  else mfind k' d.
Proof.
  cbn. destruct (mfind k d) as [[d'|s|s]|] eqn:E; [rewrite mfind_minsert| | |];
    destruct (keqb_spec k' k) as [->|]; try done.
Qed.

Lemma update_existing_nil ks last : update_existing ks (merase last) [] = [].
Proof. by destruct ks. Qed.

Lemma update_existing_dict k ks last d :
  as_subdict (mfind k (update_existing (k :: ks) (merase last) d)) =
  update_existing ks (merase last) (as_subdict (mfind k d)).
Proof.
  rewrite mfind_update_existing, keqb_refl.
  destruct (mfind k d) as [[d'|s|s]|]; cbn; by rewrite ?update_existing_nil.
Qed.

Lemma update_existing_absent ks last d :
  wf_dict d -> value_at (ks ++ [last]) (VDict d) = None -> update_existing ks (merase last) d = d.
Proof.
  revert d; induction ks as [|k ks IH]; intros d Hw Hv; cbn [update_existing].
  { rewrite <- find_dict_value in Hv. by apply merase_absent. }
  cbn [app] in Hv. rewrite value_at_cons in Hv. destruct (mfind k d) as [[d'|s|s]|] eqn:E; try done.
  rewrite IH; [apply minsert_same; [apply Hw|done]| |done]. apply wf_VDict. by eapply wf_dict_find.
Qed.

Section Erase.
Context `{Oxenc} `{Blake2b}.

Lemma dirty_settled b b' : settled b -> dirty b = Ok b' -> settled b' /\ data_of b' = data_of b.
Proof.
  intros [[Hw Hd] Hp] E. destruct (dirty_data b b' E Hd) as [Hd' _].
  destruct (dirty_inv b b' E) as (Hs & _ & _ & _ & [o Ho] & Hc).
  assert (is_dirty b' = true) as Hdb by (unfold is_dirty; by apply bool_decide_eq_true_2).
  assert (data_of b' = data_of b) as Heq.
  { unfold dirty in E. destruct (bool_decide (_state b = Dirty)) eqn:Eb.
    - cbn in E. destruct (orig_data_ _); [|done]. by injection E as <-.
    - destruct Hp as [Hp|Hp]; [unfold is_dirty in Hp; congruence|].
      res_step E. res_step E0. res_step E0. injection E0 as <-. cbn in E. destruct (orig_data_ _); [|done].
      injection E as <-. apply set_state_ok in E1 as (_ & E1 & _). rewrite E1 in E2. unfold data_of in *. cbn.
      destruct (increment_data _ _ E2) as [->| ->]; [done|]. by rewrite (prune_dict_pruned _ Hp). }
  split; [|done]. split; [|by left]. split; [|done].
  unfold writable, dirty. unfold is_dirty in Hdb. rewrite Hdb. cbn. rewrite Ho. by eexists.
Qed.

Lemma settled_set_data b d :
  settled b -> is_dirty b = true -> wf_dict d -> settled (set_data b d).
Proof.
  intros [[Hw Hd] _] Hdb Hwf. split; [|by left]. split; [|done].
  destruct Hw as [b' E]. destruct (dirty_inv b b' E) as (_ & _ & _ & _ & [o Ho] & Hc).
  unfold is_dirty in Hdb. apply bool_decide_eq_true in Hdb. rewrite decide_True in Hc by done. rewrite Hc in Ho.
  unfold writable, dirty. cbn. rewrite bool_decide_eq_true_2 by done. cbn. rewrite Ho. by eexists.
Qed.

Lemma erase_field_data b f :
  settled b ->
  exists b', erase_field b f = Ok b' /\ settled b' /\
    data_of b' = update_existing (_inter_keys f) (merase (_last_key f)) (data_of b).
Proof.
  intros Hs. pose proof Hs as [[[b0 E0] Hd] _]. unfold erase_field.
  destruct (negb (is_dirty b) && negb (exists_field b f)) eqn:E.
  - exists b. split_and!; [done..|]. apply andb_true_iff in E as [_ E%negb_true_iff].
    symmetry. apply update_existing_absent; [done|]. unfold exists_field in E. rewrite get_clean_value in E.
    unfold path in E. by destruct (value_at _ _).
  - rewrite E0. cbn [mbind res_bind]. eexists. split; [done|].
    destruct (dirty_settled b b0 Hs E0) as [Hs0 Hd0]. fold (data_of b0). rewrite Hd0. split; [|done].
    apply settled_set_data; [done| |].
    + destruct (dirty_inv b b0 E0) as (Hst & _). unfold is_dirty. by apply bool_decide_eq_true_2.
    + apply update_existing_wf; [|done]. auto with session.
Qed.
End Erase.

(** ** Listings after an erasure *)

Section Listings.
Context {A B : Type}.

Lemma join_cons (l : list B) (ls : list (list B)) : mjoin (l :: ls) = l ++ mjoin ls.
Proof. done. Qed.

Lemma filter_ext_in (P Q : B -> Prop) `{forall x, Decision (P x)} `{forall x, Decision (Q x)} (l : list B) :
  (forall x, x ∈ l -> (P x <-> Q x)) -> filter P l = filter Q l.
Proof.
  induction l as [|x l IH]; intros Hl; [done|]. rewrite !filter_cons, IH by (intros y Hy; apply Hl; by right).
  destruct (decide (P x)) as [Hx|Hx], (decide (Q x)) as [Hy|Hy]; try done; exfalso; apply Hl in Hx || apply Hl in Hy;
    first [by left | done].
Qed.
Lemma filter_all (P : B -> Prop) `{forall x, Decision (P x)} (l : list B) :
  (forall x, x ∈ l -> P x) -> filter P l = l.
Proof.
  induction l as [|x l IH]; intros Hl; [done|]. rewrite filter_cons, decide_True by (apply Hl; by left).
  f_equal. apply IH. intros y Hy. apply Hl. by right.
Qed.

Lemma join_filter_map (E : A -> list B) (P : B -> Prop) `{forall x, Decision (P x)} (f : A -> A) (o : list A) :
  Forall (fun e => E (f e) = filter P (E e)) o -> mjoin (E <$> (f <$> o)) = filter P (mjoin (E <$> o)).
Proof. induction 1 as [|e o He _ IH]; [done|]. rewrite !fmap_cons, !join_cons, filter_app. by rewrite He, IH. Qed.

Lemma join_filter_erase {K V} `{Ordered K} (E : K * V -> list B) (P : B -> Prop) `{forall x, Decision (P x)} k
    (o : list (K * V)) :
  Forall (fun e => (if keqb k e.1 then [] else E e) = filter P (E e)) o ->
  mjoin (E <$> merase k o) = filter P (mjoin (E <$> o)).
Proof.
  induction 1 as [|[k0 v] o He _ IH]; [done|]. rewrite fmap_cons, join_cons, filter_app, <- He, <- IH.
  cbn [merase fst]. by destruct (keqb k k0).
Qed.

Lemma omap_filter_erase {K V} `{Ordered K} (E : K * V -> option B) (P : B -> Prop) `{forall x, Decision (P x)} k
    (o : list (K * V)) :
  (forall e c, e ∈ o -> E e = Some c -> (P c <-> k <> e.1)) ->
  omap E (merase k o) = filter P (omap E o).
Proof.
  induction o as [|[k0 v] o IH]; intros He; [done|]. cbn.
  assert (omap E (merase k o) = filter P (omap E o)) as IH'.
  { apply IH. intros e c Hin. apply He. by right. }
  destruct (E (k0, v)) as [c|] eqn:Ec.
  - assert (P c <-> k <> k0) as Hc by (apply (He (k0, v)); [by left|done]).
    rewrite filter_cons. destruct (keqb_spec k k0) as [->|Hne].
    + rewrite decide_False by tauto. done.
    + rewrite decide_True by tauto. cbn. by rewrite Ec, IH'.
  - destruct (keqb k k0); cbn; rewrite ?Ec; done.
Qed.
End Listings.

Lemma merase_minsert {K V} `{Ordered K} k (v : V) m : msorted m -> merase k (minsert k v m) = merase k m.
Proof.
  intros Hs. apply mext; auto with session. intros k'. rewrite !mfind_merase, mfind_minsert.
  by destruct (keqb k' k).
Qed.
