(* ===== verification/ConvoInfoConfig.v ===== *)
(** * Conversation state that changes often

    [convo::one_to_one], [convo::community], [convo::group], [convo::legacy_group] and
    [ConvoInfoVolatile] of [src/config/convo_info_volatile.cpp] and its header: when each
    conversation was last read and whether it is marked unread.  One-to-one conversations are below
    ["1"], groups below ["g"], legacy groups below ["C"], communities below ["o"].

    [now] is the time of the call, in ticks (nanoseconds) of the system clock. *)
From S2P Require Import Prelude OMap Util Internal BtValue ThirdParty ConfigData ConfigParse.
From S2P Require Import ConfigMessage Encrypt SessionEncrypt Protos ConfigBase Multipart.
From S2P Require Import BaseSync DictField Community UserProfileConfig ContactsConfig.
From S2P Require Import UserGroupsConfig.

(** [struct convo::base]; the time is in milliseconds. *)
Record convo_base := { last_read : Z; unread : bool }.
Definition empty_convo : convo_base := {| last_read := 0; unread := false |}.

(** [convo::one_to_one], [convo::group], [convo::legacy_group]: the id is in hex. *)
Record keyed_convo := { kc_base : convo_base; kc_id : bytes }.
(** [convo::community] *)
Record convo_community := { cc_base : convo_base; cc_comm : community }.
(** [convo::any] *)
Inductive any_convo :=
| AnyOneToOne (c : keyed_convo)
| AnyConvoCommunity (c : convo_community)
| AnyConvoGroup (c : keyed_convo)
| AnyConvoLegacy (c : keyed_convo).

(** [base::load] *)
Definition load_convo (info_dict : dict) : convo_base :=
  {| last_read := value_or (maybe_int info_dict "r") 0;
     unread := to_bool (value_or (maybe_int info_dict "u") 0) |}.
Definition load_keyed_convo (id : bytes) (info_dict : dict) : keyed_convo :=
  {| kc_base := load_convo info_dict; kc_id := id |}.
Definition load_convo_community (og : community) (info_dict : dict) : res convo_community :=
  Ok {| cc_base := load_convo info_dict; cc_comm := og |}.

Definition convo_info_type : ConfigType :=
  {| storage_namespace := ConvoInfoVolatile; encryption_domain := "ConvoInfoVolatile";
     compression_level := Some 1; config_lags := 5; accepts_protobuf := true; keeps_extra := false |}.

(** [PRUNE_LOW], [PRUNE_HIGH]: 30 and 45 days, in milliseconds. *)
Definition CLOCK_TICKS_PER_MS : Z := 1000000.
Definition PRUNE_LOW : Z := 30 * 24 * 3600 * 1000.
Definition PRUNE_HIGH : Z := 45 * 24 * 3600 * 1000.

(** The fields. *)
Definition one_to_one_field (pk : bytes) : DictFieldProxy := sub_field (root_field "1") pk.

Section WithLibraries.
Context `{Oxenc} `{CryptoBox} `{Aead} `{Zstd} `{Protobuf} `{TextEncodings}.

(** The constructors. *)
Definition new_one_to_one (sid : bytes) : res keyed_convo :=
  _ ← check_session_id sid "05"; Ok {| kc_base := empty_convo; kc_id := sid |}.
Definition new_convo_group (cgid : bytes) : res keyed_convo :=
  _ ← check_session_id cgid "03"; Ok {| kc_base := empty_convo; kc_id := cgid |}.
Definition new_convo_legacy (cgid : bytes) : res keyed_convo :=
  _ ← check_session_id cgid "05"; Ok {| kc_base := empty_convo; kc_id := cgid |}.

Definition new_convo_info (now_ms : Z) (ed25519_secretkey : bytes) (dumped : option bytes) : res ConfigBase :=
  b ← init convo_info_type now_ms dumped None None; load_key b ed25519_secretkey.

(** A construction followed by a [load]. *)
Definition make_keyed (new : bytes -> res keyed_convo) (id : bytes) (info_dict : dict) : res keyed_convo :=
  c ← new id; Ok (load_keyed_convo (kc_id c) info_dict).

(** ** Reading *)

(** The common part of the getters of conversations with an id. *)
Definition get_keyed (b : ConfigBase) (new : bytes -> res keyed_convo) (f : DictFieldProxy) (id : bytes) :
    res (option keyed_convo) :=
  match get_dict b f with
  | None => Ok None
  | Some info_dict => c ← make_keyed new id info_dict; Ok (Some c)
  end.
Definition or_construct (new : bytes -> res keyed_convo) (id : bytes) (o : option keyed_convo) : res keyed_convo :=
  match o with Some c => Ok c | None => new id end.

Definition get_1to1 (b : ConfigBase) (pubkey_hex : bytes) : res (option keyed_convo) :=
  pubkey ← session_id_to_bytes pubkey_hex "05";
  get_keyed b new_one_to_one (one_to_one_field pubkey) pubkey_hex.
Definition get_or_construct_1to1 (b : ConfigBase) (pubkey_hex : bytes) : res keyed_convo :=
  o ← get_1to1 b pubkey_hex; or_construct new_one_to_one pubkey_hex o.
Definition get_convo_group (b : ConfigBase) (pubkey_hex : bytes) : res (option keyed_convo) :=
  pubkey ← session_id_to_bytes pubkey_hex "03";
  get_keyed b new_convo_group (group_field pubkey) pubkey_hex.
Definition get_or_construct_convo_group (b : ConfigBase) (pubkey_hex : bytes) : res keyed_convo :=
  o ← get_convo_group b pubkey_hex; or_construct new_convo_group pubkey_hex o.
Definition get_convo_legacy (b : ConfigBase) (pubkey_hex : bytes) : res (option keyed_convo) :=
  pubkey ← session_id_to_bytes pubkey_hex "05";
  get_keyed b new_convo_legacy (legacy_field pubkey) pubkey_hex.
Definition get_or_construct_convo_legacy (b : ConfigBase) (pubkey_hex : bytes) : res keyed_convo :=
  o ← get_convo_legacy b pubkey_hex; or_construct new_convo_legacy pubkey_hex o.

Definition get_convo_community (b : ConfigBase) (base_url room : bytes) : res (option convo_community) :=
  room ← canonical_room room;
  og ← new_community base_url room;
  match get_dict b (community_field og) with
  | None => Ok None
  | Some info_dict =>
      let pubkey := server_pubkey b og in
      c ← load_convo_community og info_dict;
      comm ← match pubkey with Some pk => set_pubkey (cc_comm c) pk | None => Ok (cc_comm c) end;
      Ok (Some {| cc_base := cc_base c; cc_comm := comm |})
  end.
Definition get_convo_community_url (b : ConfigBase) (partial_url : bytes) : res (option convo_community) :=
  let! (base, room, _) := parse_partial_url partial_url in get_convo_community b base room.

Definition load_convo_or_empty (b : ConfigBase) (c : community) : res convo_community :=
  match get_dict b (community_field c) with
  | Some info_dict => load_convo_community c info_dict
  | None => Ok {| cc_base := empty_convo; cc_comm := c |}
  end.
Definition get_or_construct_convo_community (b : ConfigBase) (base_url room pubkey : bytes) : res convo_community :=
  room ← canonical_room room;
  c ← new_community_pk base_url room pubkey; load_convo_or_empty b c.
Definition get_or_construct_convo_community_encoded (b : ConfigBase) (base_url room pubkey_hex : bytes) :
    res convo_community :=
  c ← new_community_encoded base_url room pubkey_hex; load_convo_or_empty b c.
Definition get_or_construct_convo_community_url (b : ConfigBase) (full_url : bytes) : res convo_community :=
  let! (base, room, pubkey) := parse_full_url full_url in get_or_construct_convo_community b base room pubkey.

(** ** Storing *)

(** [set_base]: a time that is not older than the stored one is only stored if it is recent. *)
Definition set_convo_base (now : Z) (b : ConfigBase) (c : convo_base) (info : DictFieldProxy) : res ConfigBase :=
  let r := sub_field info "r" in
  b ← (if match get_integer b r with Some val => last_read c <? val | None => false end
       then set_int b r (last_read c)
       else
         let ticks := last_read c * CLOCK_TICKS_PER_MS in
         _ ← throw_if (negb (in_int64 ticks)) UB;
         if now - PRUNE_LOW * CLOCK_TICKS_PER_MS <? ticks then set_int b r (last_read c) else Ok b);
  set_flag b (sub_field info "u") (unread c).

Definition set_1to1 (now : Z) (b : ConfigBase) (c : keyed_convo) : res ConfigBase :=
  pk ← session_id_to_bytes (kc_id c) "05"; set_convo_base now b (kc_base c) (one_to_one_field pk).
Definition set_convo_group (now : Z) (b : ConfigBase) (c : keyed_convo) : res ConfigBase :=
  pk ← session_id_to_bytes (kc_id c) "03"; set_convo_base now b (kc_base c) (group_field pk).
Definition set_convo_legacy (now : Z) (b : ConfigBase) (c : keyed_convo) : res ConfigBase :=
  pk ← session_id_to_bytes (kc_id c) "05"; set_convo_base now b (kc_base c) (legacy_field pk).
Definition set_convo_community (now : Z) (b : ConfigBase) (c : convo_community) : res ConfigBase :=
  b ← set_str b (sub_field (server_field (base_url_ (cc_comm c))) "#") (pubkey_ (cc_comm c));
  set_convo_base now b (cc_base c) (community_field (cc_comm c)).

(** ** Erasing *)

Definition erase_one_to_one (b : ConfigBase) (c : keyed_convo) : res (bool * ConfigBase) :=
  pk ← session_id_to_bytes (kc_id c) "05"; erase_impl b (one_to_one_field pk).
Definition erase_convo_group (b : ConfigBase) (c : keyed_convo) : res (bool * ConfigBase) :=
  pk ← session_id_to_bytes (kc_id c) "03"; erase_impl b (group_field pk).
Definition erase_convo_legacy (b : ConfigBase) (c : keyed_convo) : res (bool * ConfigBase) :=
  pk ← session_id_to_bytes (kc_id c) "05"; erase_impl b (legacy_field pk).
(** A server without rooms is removed as well, as for the user's groups. *)
Definition erase_convo_community (b : ConfigBase) (c : community) : res (bool * ConfigBase) :=
  let! (gone, b) := erase_impl b (community_field c) in
  if (gone : bool) then
    let server_info := server_field (base_url_ c) in
    let rooms := sub_field server_info "R" in
    match get_dict b rooms with
    | Some (_ :: _) => Ok (gone, b)
    | _ => b ← erase_field b rooms; b ← erase_field b server_info; Ok (gone, b)
    end
  else Ok (gone, b).
Definition erase_any_convo (b : ConfigBase) (c : any_convo) : res (bool * ConfigBase) :=
  match c with
  | AnyOneToOne c => erase_one_to_one b c
  | AnyConvoCommunity c => erase_convo_community b (cc_comm c)
  | AnyConvoGroup c => erase_convo_group b c
  | AnyConvoLegacy c => erase_convo_legacy b c
  end.
Definition erase_1to1 (b : ConfigBase) (session_id : bytes) : res (bool * ConfigBase) :=
  c ← new_one_to_one session_id; erase_one_to_one b c.
Definition erase_convo_community_at (b : ConfigBase) (base_url room : bytes) : res (bool * ConfigBase) :=
  c ← new_community base_url room; erase_convo_community b c.
Definition erase_convo_group_at (b : ConfigBase) (id : bytes) : res (bool * ConfigBase) :=
  c ← new_convo_group id; erase_convo_group b c.
Definition erase_convo_legacy_at (b : ConfigBase) (id : bytes) : res (bool * ConfigBase) :=
  c ← new_convo_legacy id; erase_convo_legacy b c.

(** ** Sizes *)

Definition size_1to1 (b : ConfigBase) : Z := size_of_dict b (root_field "1").
Definition size_convo_groups (b : ConfigBase) : Z := size_of_dict b (root_field "g").
Definition size_convo_legacy (b : ConfigBase) : Z := size_of_dict b (root_field "C").
Definition size_convo_communities (b : ConfigBase) : Z :=
  match get_dict b (root_field "o") with
  | Some servers =>
      foldl (fun count e =>
        let server := sub_field (root_field "o") (e : bytes * dict_value).1 in
        match get_string b (sub_field server "#") with
        | None => count
        | Some _ => match get_dict b (sub_field server "R") with
                    | Some rd => count + size_of rd
                    | None => count
                    end
        end) 0 servers
  | None => 0
  end.
Definition convo_info_size (b : ConfigBase) : Z :=
  size_1to1 b + size_convo_communities b + size_convo_legacy b + size_convo_groups b.

(** ** Iteration *)

(** [ConvoInfoVolatile::iterator]: the current value and the four sub-iterators. *)
Record convo_iterator := {
  cv_val : option any_convo;
  cv_11 : option dict;
  cv_group : option dict;
  cv_comm : option comm_iterator_helper;
  cv_legacy : option dict
}.

(** [_load_val]: one-to-one conversations, then groups, communities and legacy groups. *)
Definition cv_load_val (it : convo_iterator) : res convo_iterator :=
  let! (c, it_11) := load_keyed_at (make_keyed new_one_to_one) 5 (cv_11 it) in
  match c with
  | Some c => Ok {| cv_val := Some (AnyOneToOne c); cv_11 := it_11; cv_group := cv_group it;
                    cv_comm := cv_comm it; cv_legacy := cv_legacy it |}
  | None =>
      let! (g, it_group) := load_keyed_at (make_keyed new_convo_group) 3 (cv_group it) in
      match g with
      | Some g => Ok {| cv_val := Some (AnyConvoGroup g); cv_11 := it_11; cv_group := it_group;
                        cv_comm := cv_comm it; cv_legacy := cv_legacy it |}
      | None =>
          let! (c, it_comm) :=
            match cv_comm it with
            | None => Ok (None, None)
            | Some h => let! (o, h) := comm_load load_convo_community h in
                        Ok (o, match o with Some _ => Some h | None => None end)
            end in
          match c with
          | Some c => Ok {| cv_val := Some (AnyConvoCommunity c); cv_11 := it_11; cv_group := it_group;
                            cv_comm := it_comm; cv_legacy := cv_legacy it |}
          | None =>
              let! (l, it_legacy) := load_keyed_at (make_keyed new_convo_legacy) 5 (cv_legacy it) in
              Ok {| cv_val := match l with Some l => Some (AnyConvoLegacy l) | None => cv_val it end;
                    cv_11 := it_11; cv_group := it_group; cv_comm := it_comm; cv_legacy := it_legacy |}
          end
      end
  end.

(** [iterator(data, oneto1, communities, groups, legacy_groups)] *)
Definition cv_begin (b : ConfigBase) (oneto1 communities groups legacy_groups : bool) : res convo_iterator :=
  cv_load_val
    {| cv_val := None;
       cv_11 := if oneto1 then get_dict b (root_field "1") else None;
       cv_group := if groups then get_dict b (root_field "g") else None;
       cv_comm := if communities then
                    match get_dict b (root_field "o") with
                    | Some d => Some {| it_server := Some d; it_room := None |}
                    | None => None
                    end
                  else None;
       cv_legacy := if legacy_groups then get_dict b (root_field "C") else None |}.

Definition cv_done (it : convo_iterator) : bool :=
  match cv_11 it, cv_group it, cv_legacy it with
  | None, None, None => match cv_comm it with None => true | Some h => comm_done h end
  | _, _, _ => false
  end.

(** [operator++]: the first sub-iterator that is left moves on. *)
Definition cv_advance (it : convo_iterator) : convo_iterator :=
  match cv_11 it, cv_group it, cv_comm it with
  | Some d, _, _ => {| cv_val := cv_val it; cv_11 := Some (tail d); cv_group := cv_group it;
                       cv_comm := cv_comm it; cv_legacy := cv_legacy it |}
  | None, Some d, _ => {| cv_val := cv_val it; cv_11 := None; cv_group := Some (tail d);
                          cv_comm := cv_comm it; cv_legacy := cv_legacy it |}
  | None, None, o =>
      match o with
      | Some h => if comm_done h
                  then {| cv_val := cv_val it; cv_11 := None; cv_group := None; cv_comm := o;
                          cv_legacy := tail <$> cv_legacy it |}
                  else {| cv_val := cv_val it; cv_11 := None; cv_group := None;
                          cv_comm := Some (advance h); cv_legacy := cv_legacy it |}
      | None => {| cv_val := cv_val it; cv_11 := None; cv_group := None; cv_comm := None;
                   cv_legacy := tail <$> cv_legacy it |}
      end
  end.
Definition cv_next (it : convo_iterator) : res convo_iterator := cv_load_val (cv_advance it).

(** A loop [for (it = begin(); !it.done(); ++it)] over the values. *)
Fixpoint cv_collect (fuel : nat) (it : convo_iterator) : res (list any_convo) :=
  match fuel with
  | O => Throw OutOfFuel
  | S fuel =>
      if cv_done it then Ok []
      else match cv_val it with
           | None => Throw UB
           | Some v => it ← cv_next it; l ← cv_collect fuel it; Ok (v :: l)
           end
  end.
Definition list_convos (b : ConfigBase) (oneto1 communities groups legacy_groups : bool) : res (list any_convo) :=
  it ← cv_begin b oneto1 communities groups legacy_groups;
  cv_collect (S (Z.to_nat (convo_info_size b))) it.

(** ** Pruning *)

Definition is_stale (cutoff : Z) (c : convo_base) : bool := negb (unread c) && (last_read c <? cutoff).

Definition stale_ids (cutoff : Z) (l : list any_convo) : list bytes :=
  flat_map (fun c => match c with
                     | AnyOneToOne c | AnyConvoLegacy c => if is_stale cutoff (kc_base c) then [kc_id c] else []
                     | _ => []
                     end) l.
Definition stale_communities (cutoff : Z) (l : list any_convo) : list (bytes * bytes) :=
  flat_map (fun c => match c with
                     | AnyConvoCommunity c =>
                         if is_stale cutoff (cc_base c) then [(base_url_ (cc_comm c), comm_room (cc_comm c))] else []
                     | _ => []
                     end) l.

Definition prune_cutoff (now prune : Z) : res Z :=
  _ ← throw_if (negb (in_int64 (prune * CLOCK_TICKS_PER_MS))) UB;
  let t := now - prune * CLOCK_TICKS_PER_MS in
  _ ← throw_if (negb (in_int64 t)) UB;
  Ok (Z.quot t CLOCK_TICKS_PER_MS).

(** [prune_stale(prune)]: each kind of conversation is listed, then the stale ones are erased. *)
Definition prune_stale (now : Z) (b : ConfigBase) (prune : Z) : res ConfigBase :=
  cutoff ← prune_cutoff now prune;
  l ← list_convos b true false false false;
  b ← foldM (fun b sid => let! (_, b) := erase_1to1 b sid in Ok b) b (stale_ids cutoff l);
  l ← list_convos b false false false true;
  b ← foldM (fun b id => let! (_, b) := erase_convo_legacy_at b id in Ok b) b (stale_ids cutoff l);
  l ← list_convos b false true false false;
  foldM (fun b c => let! (_, b) := erase_convo_community_at b (c : bytes * bytes).1 c.2 in Ok b) b
    (stale_communities cutoff l).

Definition convo_push (now : Z) (b : ConfigBase) :
    res ((Z * list bytes * list bytes) * ConfigBase) :=
  b ← prune_stale now b PRUNE_HIGH; push convo_info_type (now / CLOCK_TICKS_PER_MS) b.
End WithLibraries.
