(* ===== verification/ConvoInfoFacts.v ===== *)
(** * Facts about the volatile conversation info: iteration, erasing, pruning *)
From S2P Require Import Prelude OMap Util Internal BtValue ThirdParty ConfigData.
From S2P Require Import ConfigDataFacts ConfigParse ConfigParseFacts ConfigMessage.
From S2P Require Import MessageFacts MergeFacts ReplayFacts Encrypt.
From S2P Require Import SessionEncrypt Protos ConfigBase BaseFacts Multipart BaseSync.
From S2P Require Import DictField DictFieldFacts Community CommunityFacts UserProfileConfig.
From S2P Require Import UserProfileConfig ContactsConfig ContactsFacts UserGroupsConfig UserGroupsFacts.
From S2P Require Import GroupRecordFacts ConvoInfoConfig.

(** ** Iteration *)

Section Iteration.
Context `{Oxenc} `{CryptoBox} `{Aead} `{Zstd} `{Protobuf} `{TextEncodings}.

Lemma make_one_to_one_ok k info :
  size_of k = 33 -> head k = Some (byte_of 5) ->
  make_keyed new_one_to_one (to_hex k) info = Ok (load_keyed_convo (to_hex k) info).
Proof.
  intros Hs Hh. unfold make_keyed, new_one_to_one.
  by rewrite (check_hex_id k "05" 5 Hs Hh to_hex_05 eq_refl).
Qed.
Lemma make_convo_group_ok k info :
  size_of k = 33 -> head k = Some (byte_of 3) ->
  make_keyed new_convo_group (to_hex k) info = Ok (load_keyed_convo (to_hex k) info).
Proof.
  intros Hs Hh. unfold make_keyed, new_convo_group.
  by rewrite (check_hex_id k "03" 3 Hs Hh to_hex_03 eq_refl).
Qed.
Lemma load_convo_community_throws c d e :
  load_convo_community c d = Throw e -> is_std_exception e = true.
Proof. done. Qed.

(** The valid entries of each kind. *)
Definition keyed_list (prefix : Z) (d : dict) : list keyed_convo := keyed_entries load_keyed_convo prefix d.
Definition comm_list (d : dict) : list convo_community := server_entries load_convo_community d.

(** The entries that an iterator has still to visit. *)
Definition cv_rest (it : convo_iterator) : list any_convo :=
  (AnyOneToOne <$> keyed_list 5 (rest_of (cv_11 it))) ++
  (AnyConvoGroup <$> keyed_list 3 (rest_of (cv_group it))) ++
  (AnyConvoCommunity <$> match cv_comm it with Some h => comm_rest load_convo_community h | None => [] end) ++
  (AnyConvoLegacy <$> keyed_list 5 (rest_of (cv_legacy it))).


Lemma load_servers_current (servers : dict) rooms c h :
  load_servers load_convo_community servers rooms = Ok (Some c, h) -> comm_done h = false.
Proof.
  revert rooms; induction servers as [|[u v] servers IH]; intros rooms; cbn [load_servers]; [done|].
  destruct v as [si|s|s]; [|apply IH..]. destruct (maybe_string si "#") as [pk|]; [|apply IH].
  destruct (match rooms with Some _ => _ | None => _ end) as [r|]; [|apply IH].
  destruct (load_rooms _ _ _ _) as [[[c' r']|]|]; cbn [mbind res_bind]; [|apply IH|done].
  intros E. by injection E as _ <-.
Qed.
Lemma comm_load_current h c h' :
  comm_load load_convo_community h = Ok (Some c, h') -> comm_done h' = false.
Proof. unfold comm_load. destruct (it_server h); [|done]. apply load_servers_current. Qed.

Ltac cv_simpl :=
  unfold cv_rest, cv_done, cv_advance, rest_of, keyed_list;
  cbn [cv_11 cv_group cv_comm cv_legacy value_or fmap option_fmap option_map].
(** The current entry of a sub-iterator is the value; the rest follows. *)
Ltac cv_found Hl := eexists; split_and!; [done..|cv_simpl; by rewrite Hl].

Lemma cv_load_val_spec it :
  match cv_rest it with
  | [] => exists it', cv_load_val it = Ok it' /\ cv_done it' = true
  | v :: l => exists it', cv_load_val it = Ok it' /\ cv_done it' = false /\ cv_val it' = Some v /\
                cv_rest (cv_advance it') = l
  end.
Proof.
  unfold cv_rest at 1, cv_load_val.
  pose proof (load_keyed_at_spec _ load_keyed_convo 5 (cv_11 it) make_one_to_one_ok) as Ho.
  fold (keyed_list 5 (rest_of (cv_11 it))) in Ho. destruct (keyed_list 5 (rest_of (cv_11 it))) as [|c1 l1].
  2: { destruct Ho as (d & -> & Hl). cbn [fmap list_fmap app]. cv_found Hl. }
  rewrite Ho. cbn [fmap list_fmap app].
  pose proof (load_keyed_at_spec _ load_keyed_convo 3 (cv_group it) make_convo_group_ok) as Hg.
  fold (keyed_list 3 (rest_of (cv_group it))) in Hg. destruct (keyed_list 3 (rest_of (cv_group it))) as [|cg lg].
  2: { destruct Hg as (d & -> & Hl). cbn [fmap list_fmap app]. cv_found Hl. }
  rewrite Hg. cbn [fmap list_fmap app].
  pose proof (load_keyed_at_spec _ load_keyed_convo 5 (cv_legacy it) make_one_to_one_ok) as Hx.
  fold (keyed_list 5 (rest_of (cv_legacy it))) in Hx. change (make_keyed new_convo_legacy) with (make_keyed new_one_to_one).
  destruct (cv_comm it) as [h|].
  - pose proof (comm_load_spec load_convo_community load_convo_community_throws h) as Hc.
    destruct (comm_rest load_convo_community h) as [|c lc].
    + destruct Hc as [h' ->]. cbn [fmap list_fmap app]. destruct (keyed_list 5 (rest_of (cv_legacy it))) as [|x lx].
      * rewrite Hx. by eexists.
      * destruct Hx as (d & -> & Hl). cbn [fmap list_fmap]. cv_found Hl.
    + destruct Hc as (h' & E & Hl). pose proof (comm_load_current _ _ _ E) as Hd. rewrite E.
      cbn [fmap list_fmap app]. eexists. split_and!; [done| |done|]; cv_simpl; rewrite Hd; [by destruct (cv_legacy it)|].
      cbn. by rewrite Hl.
  - cbn [fmap list_fmap app]. destruct (keyed_list 5 (rest_of (cv_legacy it))) as [|x lx].
    + rewrite Hx. by eexists.
    + destruct Hx as (d & -> & Hl). cbn [fmap list_fmap]. cv_found Hl.
Qed.

Lemma cv_collect_spec l it fuel :
  cv_rest it = l -> (length l < fuel)%nat ->
  exists it', cv_load_val it = Ok it' /\ cv_collect fuel it' = Ok l.
Proof.
  revert it fuel; induction l as [|v l IH]; intros it fuel Hr Hf; (destruct fuel as [|fuel]; [lia|]);
    pose proof (cv_load_val_spec it) as Hs; rewrite Hr in Hs.
  - destruct Hs as (it' & -> & Hd). exists it'. split; [done|]. cbn. by rewrite Hd.
  - destruct Hs as (it' & -> & Hd & Hv & Hl). exists it'. split; [done|]. cbn [cv_collect]. rewrite Hd, Hv.
    unfold cv_next. destruct (IH (cv_advance it') fuel Hl) as (it2 & -> & Hc); [cbn in Hf; lia|].
    cbn [mbind res_bind]. by rewrite Hc.
Qed.

(** The valid entries of the data, as the iterators should list them. *)
Definition all_convos (b : ConfigBase) (oneto1 communities groups legacy_groups : bool) : list any_convo :=
  (if oneto1 then AnyOneToOne <$> keyed_list 5 (dict_at b "1") else []) ++
  (if groups then AnyConvoGroup <$> keyed_list 3 (dict_at b "g") else []) ++
  (if communities then AnyConvoCommunity <$> comm_list (dict_at b "o") else []) ++
  (if legacy_groups then AnyConvoLegacy <$> keyed_list 5 (dict_at b "C") else []).

Lemma omap_size {A B} (f : A -> option B) l : (length (omap f l) <= length l)%nat.
Proof. induction l as [|x l IH]; [done|]. cbn. destruct (f x); cbn; lia. Qed.

(** The rooms that [size_convo_communities] counts for a server. *)
Definition server_count (e : bytes * dict_value) : Z :=
  match e.2 with
  | VDict si => match maybe_string si "#" with
                | Some _ => match mfind (bs "R") si with Some (VDict rd) => size_of rd | _ => 0 end
                | None => 0
                end
  | _ => 0
  end.

Lemma server_lookup b servers e key :
  get_dict b (root_field "o") = Some servers -> msorted servers -> e ∈ servers ->
  get_clean b (sub_field (sub_field (root_field "o") e.1) key) =
  match e.2 with VDict si => mfind key si | _ => None end.
Proof.
  intros Hg Hs Hin. unfold get_dict, get_clean in *. cbn in *. destruct (mfind _ _) as [[d|?|?]|]; try done.
  injection Hg as ->. destruct e as [u v]. rewrite (In_mfind u v) by done. by destruct v.
Qed.

Lemma size_communities_sum b :
  wf_dict (data_of b) ->
  size_convo_communities b = foldl (fun n e => n + server_count e) 0 (dict_at b "o").
Proof.
  intros Hw. unfold size_convo_communities, dict_at. destruct (get_dict b (root_field "o")) as [servers|] eqn:Eg; [|done].
  assert (msorted servers) as Hs.
  { unfold get_dict, get_clean in Eg. cbn in Eg. destruct (mfind _ _) as [[d|?|?]|] eqn:Em; try done.
    injection Eg as ->. apply (wf_dict_find _ _ _ Hw) in Em. by apply wf_VDict in Em as [? _]. }
  cbn [value_or]. assert (forall e, e ∈ servers -> e ∈ servers) as Hin by done. revert Hin.
  generalize servers at 1 3 4. intros l Hin. generalize 0. induction l as [|e l IH]; intros n; [done|]. cbn [foldl].
  rewrite IH by (intros e' He'; apply Hin; by right). f_equal. unfold get_string, get_dict.
  rewrite !(server_lookup b servers e) by (done || apply Hin; by left).
  unfold server_count. destruct e as [u [si|?|?]]; cbn; [|lia..]. rewrite maybe_string_scalar.
  destruct (get_scalar (mfind _ si)) as [[?|?]|]; [lia| |lia]. destruct (mfind _ si) as [[]|]; lia.
Qed.

Lemma server_entry_size e : Z.of_nat (length (server_entry load_convo_community e)) <= server_count e.
Proof.
  unfold server_entry, server_count, rooms_entries, server_rooms. destruct e as [u [si|?|?]]; [|done..]. cbn [fst snd].
  destruct (maybe_string si "#") as [pk|]; [|done]. destruct (mfind _ si) as [[rd|?|?]|]; try done.
  unfold size_of. pose proof (omap_size (room_entry load_convo_community u pk) rd). lia.
Qed.

Lemma size_nonneg b f : 0 <= size_of_dict b f.
Proof. unfold size_of_dict, size_of. destruct (get_dict b f); lia. Qed.

Lemma keyed_list_size prefix b key : Z.of_nat (length (keyed_list prefix (dict_at b key))) <= size_of_dict b (root_field key).
Proof.
  unfold dict_at, size_of_dict, keyed_list, keyed_entries. destruct (get_dict b _) as [d|]; [|done].
  cbn [value_or]. unfold size_of. pose proof (omap_size (keyed_entry load_keyed_convo prefix) d). lia.
Qed.

Lemma comm_list_size b :
  wf_dict (data_of b) -> Z.of_nat (length (comm_list (dict_at b "o"))) <= size_convo_communities b.
Proof.
  intros Hw. rewrite size_communities_sum by done. unfold comm_list, server_entries.
  enough (forall n, n + Z.of_nat (length (mjoin (server_entry load_convo_community <$> dict_at b "o"))) <=
                    foldl (fun n e => n + server_count e) n (dict_at b "o")) as Hn by apply (Hn 0).
  induction (dict_at b "o") as [|e l IH]; intros n; [cbn; lia|]. rewrite fmap_cons, join_cons, length_app.
  cbn [foldl]. pose proof (server_entry_size e). pose proof (IH (n + server_count e)). lia.
Qed.

(** The loops over the conversations list the valid entries, in order, and end. *)
Lemma list_convos_ok b oneto1 communities groups legacy_groups :
  wf_dict (data_of b) ->
  list_convos b oneto1 communities groups legacy_groups = Ok (all_convos b oneto1 communities groups legacy_groups).
Proof.
  intros Hw. unfold list_convos, cv_begin.
  edestruct (cv_collect_spec (all_convos b oneto1 communities groups legacy_groups)) as (it & -> & Hc);
    [| |cbn [mbind res_bind]; exact Hc].
  - unfold cv_rest, all_convos, dict_at, rest_of. cbn [cv_11 cv_group cv_comm cv_legacy].
    f_equal; [by destruct oneto1|]. f_equal; [by destruct groups|]. f_equal; [|by destruct legacy_groups].
    destruct communities; [|done]. destruct (get_dict b (root_field "o")) as [[|[u v] d]|]; [done| |done].
    cbn. unfold comm_rest. cbn. by destruct v.
  - unfold all_convos. rewrite !length_app. unfold convo_info_size, size_1to1, size_convo_groups, size_convo_legacy.
    pose proof (keyed_list_size 5 b "1"). pose proof (keyed_list_size 3 b "g"). pose proof (keyed_list_size 5 b "C").
    pose proof (comm_list_size b Hw). destruct oneto1, communities, groups, legacy_groups; rewrite ?length_fmap; cbn [length]; lia.
Qed.
End Iteration.

(** ** Storing and reading back *)

Section Records.
Context `{Oxenc} `{CryptoBox} `{Aead} `{Zstd} `{Protobuf} `{TextEncodings}.

(** The time that is stored: an older one than before, or a recent one. *)
Definition takes_read (now : Z) (old : option Z) (t : Z) : bool :=
  match old with Some v => t <? v | None => false end ||
  (now - PRUNE_LOW * CLOCK_TICKS_PER_MS <? t * CLOCK_TICKS_PER_MS).
Definition stored_convo (now : Z) (old : option Z) (c : convo_base) : convo_base :=
  {| last_read := if takes_read now old (last_read c) then last_read c else value_or old 0;
     unread := unread c |}.

(** A record as it is read, empty if it is not there. *)
Definition convo_at (b : ConfigBase) (info : DictFieldProxy) : convo_base :=
  match get_dict b info with Some d => load_convo d | None => empty_convo end.

Lemma convo_at_fields b info :
  convo_at b info =
  {| last_read := int_field (field_scalar b (sub_field info "r"));
     unread := to_bool (int_field (field_scalar b (sub_field info "u"))) |}.
Proof.
  unfold convo_at. destruct (get_dict b info) as [d|] eqn:Eg.
  - unfold load_convo. rewrite !maybe_int_field, <- !(field_scalar_sub b info _ d Eg). done.
  - assert (forall k, field_scalar b (sub_field info k) = None) as Hn; [|by rewrite !Hn].
    intros k. destruct (field_scalar b (sub_field info k)) as [x|] eqn:Ef; [|done].
    destruct (get_dict_field _ _ _ _ Ef) as [d Hd]. congruence.
Qed.

Lemma set_convo_base_ok now b c info :
  editable b -> in_int64 (last_read c * CLOCK_TICKS_PER_MS) = true ->
  exists b', set_convo_base now b c info = Ok b' /\ editable b' /\ frame info b b' /\
    convo_at b' info = stored_convo now (get_integer b (sub_field info "r")) c.
Proof.
  intros Hb Hi. unfold set_convo_base. rewrite Hi. cbn [negb throw_if mbind res_bind].
  set (old := get_integer b (sub_field info "r")).
  assert (exists b1, (if match old with Some val => last_read c <? val | None => false end
       then set_int b (sub_field info "r") (last_read c)
       else if now - PRUNE_LOW * CLOCK_TICKS_PER_MS <? last_read c * CLOCK_TICKS_PER_MS
            then set_int b (sub_field info "r") (last_read c) else Ok b) = Ok b1 /\ editable b1 /\ frame info b b1 /\
    int_field (field_scalar b1 (sub_field info "r")) = last_read (stored_convo now old c)) as (b1 & E1 & Hb1 & Hf1 & Hr1).
  { unfold stored_convo, takes_read. cbn [last_read].
    destruct (write_scalar_editable b (sub_field info "r") (Some (SInt (last_read c)))) as (b1 & E1 & Hb1 & Hr & Hf); [done| |].
    { cbn. unfold in_int64, CLOCK_TICKS_PER_MS, INT64_MIN, INT64_MAX in *. apply andb_true_iff in Hi as [? ?]. bool_prop.
      apply andb_true_iff. lia. }
    assert (frame info b b1) as Hfi.
    { intros ob q Hq. apply Hf. rewrite sub_field_path. by apply diverge_app. }
    change (set_int b ?f ?x) with (write_scalar b f (Some (SInt x))).
    destruct (match old with Some v => last_read c <? v | None => false end); cbn [orb].
    { exists b1. by rewrite Hr. }
    destruct (_ <? _); [exists b1; by rewrite Hr|]. by exists b. }
  rewrite E1. cbn [mbind res_bind]. rewrite set_flag_write.
  destruct (write_scalar_editable b1 (sub_field info "u") (flag (unread c))) as (b' & E & Hb' & Hu & Hf); [done|by destruct (unread c)|].
  exists b'. split_and!; try done.
  { intros ob q Hq. rewrite Hf; [by apply Hf1|]. rewrite sub_field_path. by apply diverge_app. }
  rewrite convo_at_fields, Hu, read_flag. etransitivity; [|by destruct (stored_convo now old c) eqn:Es; cbn in Hr1; rewrite <- Hr1; injection Es as _ <-].
  do 2 f_equal.
  eapply frame_scalar; [done|]. rewrite !sub_field_path. by apply diverge_siblings.
Qed.

(** The getters that never fail return the record, empty if it is not there. *)
Lemma keyed_at b new f id :
  new id = Ok {| kc_base := empty_convo; kc_id := id |} ->
  (o ← get_keyed b new f id; or_construct new id o) = Ok {| kc_base := convo_at b f; kc_id := id |}.
Proof.
  intros Hn. unfold get_keyed, make_keyed, convo_at. destruct (get_dict b f) as [d|]; cbn [mbind res_bind or_construct]; [|done].
  by rewrite Hn.
Qed.

Lemma checked_id id prefix pk : session_id_to_bytes id prefix = Ok pk -> check_session_id id prefix = Ok tt.
Proof. unfold session_id_to_bytes. by destruct (check_session_id id prefix) as [[]|]. Qed.

(** The three kinds of conversations with an id: where they are stored, how they are read. *)
Inductive convo_kind := KOneToOne | KGroup | KLegacy.
Definition kind_prefix (k : convo_kind) : bytes := match k with KGroup => bs "03" | _ => bs "05" end.
Definition kind_field (k : convo_kind) : bytes -> DictFieldProxy :=
  match k with KOneToOne => one_to_one_field | KGroup => group_field | KLegacy => legacy_field end.
Definition set_kind (k : convo_kind) : Z -> ConfigBase -> keyed_convo -> res ConfigBase :=
  match k with KOneToOne => set_1to1 | KGroup => set_convo_group | KLegacy => set_convo_legacy end.
Definition get_or_construct_kind (k : convo_kind) : ConfigBase -> bytes -> res keyed_convo :=
  match k with
  | KOneToOne => get_or_construct_1to1
  | KGroup => get_or_construct_convo_group
  | KLegacy => get_or_construct_convo_legacy
  end.

Lemma get_or_construct_at k b id pk :
  session_id_to_bytes id (kind_prefix k) = Ok pk ->
  get_or_construct_kind k b id = Ok {| kc_base := convo_at b (kind_field k pk); kc_id := id |}.
Proof.
  intros Hpk. pose proof (checked_id _ _ _ Hpk) as Hc.
  destruct k; cbn [kind_prefix kind_field set_kind get_or_construct_kind] in *;
    unfold get_or_construct_1to1, get_or_construct_convo_group, get_or_construct_convo_legacy,
      get_1to1, get_convo_group, get_convo_legacy; rewrite Hpk; cbn [mbind res_bind]; apply keyed_at;
    unfold new_one_to_one, new_convo_group, new_convo_legacy; by rewrite Hc.
Qed.

Lemma convo_set_get k now b c pk :
  editable b -> in_int64 (last_read (kc_base c) * CLOCK_TICKS_PER_MS) = true ->
  session_id_to_bytes (kc_id c) (kind_prefix k) = Ok pk ->
  exists b', set_kind k now b c = Ok b' /\ editable b' /\ frame (kind_field k pk) b b' /\
    get_or_construct_kind k b' (kc_id c) =
    Ok {| kc_base := stored_convo now (get_integer b (sub_field (kind_field k pk) "r")) (kc_base c); kc_id := kc_id c |}.
Proof.
  intros Hb Hi Hpk. destruct (set_convo_base_ok now b (kc_base c) (kind_field k pk) Hb Hi) as (b' & E & Hb' & Hf & Hc).
  exists b'. rewrite (get_or_construct_at k b' _ pk Hpk), Hc. split_and!; try done.
  destruct k; cbn [kind_prefix kind_field set_kind get_or_construct_kind] in *; unfold set_1to1, set_convo_group, set_convo_legacy; by rewrite Hpk.
Qed.

(** A valid community: canonical address, a key. *)
Definition valid_comm (c : community) : Prop :=
  canonical_url (base_url_ c) = Ok (base_url_ c) /\ canonical_room (room_ c) = Ok (room_ c) /\ size_of (pubkey_ c) = 32.
Definition plain_comm (c : community) : community :=
  {| base_url_ := base_url_ c; room_ := room_ c; localized_room_ := Some (room_ c); pubkey_ := pubkey_ c |}.

Lemma get_or_construct_comm_at b c :
  valid_comm c ->
  get_or_construct_convo_community b (base_url_ c) (room_ c) (pubkey_ c) =
  Ok {| cc_base := convo_at b (community_field c); cc_comm := plain_comm c |}.
Proof.
  intros (Hu & Hr & Hp). unfold get_or_construct_convo_community, new_community_pk, new_community, set_base_url, set_room, set_pubkey.
  rewrite Hu, Hr. cbn [mbind res_bind]. rewrite Hr. cbn [mbind res_bind]. rewrite Hp. cbn [Z.eqb Pos.eqb negb throw_if mbind res_bind].
  unfold load_convo_or_empty, convo_at. change (community_field {| base_url_ := _ |}) with (community_field c).
  by destruct (get_dict b (community_field c)).
Qed.

Lemma convo_comm_set_get now b c :
  editable b -> in_int64 (last_read (cc_base c) * CLOCK_TICKS_PER_MS) = true -> valid_comm (cc_comm c) ->
  exists b', set_convo_community now b c = Ok b' /\ editable b' /\
    (forall ob q, diverge (path (community_field (cc_comm c))) q = true ->
       diverge (path (sub_field (server_field (base_url_ (cc_comm c))) "#")) q = true ->
       observe_at ob q (data_of b') = observe_at ob q (data_of b)) /\
    get_or_construct_convo_community b' (base_url_ (cc_comm c)) (room_ (cc_comm c)) (pubkey_ (cc_comm c)) =
    Ok {| cc_base := stored_convo now (get_integer b (sub_field (community_field (cc_comm c)) "r")) (cc_base c);
          cc_comm := plain_comm (cc_comm c) |}.
Proof.
  intros Hb Hi Hv. unfold set_convo_community. set (info := community_field (cc_comm c)).
  set (key := sub_field (server_field (base_url_ (cc_comm c))) "#").
  change (set_str b key ?x) with (write_scalar b key (Some (SStr x))).
  destruct (write_scalar_editable b key (Some (SStr (pubkey_ (cc_comm c))))) as (b1 & -> & Hb1 & _ & Hf1); [done..|].
  cbn [mbind res_bind]. destruct (set_convo_base_ok now b1 (cc_base c) info Hb1 Hi) as (b' & E & Hb' & Hf & Hc).
  exists b'. rewrite get_or_construct_comm_at by done. fold info. rewrite Hc. split_and!; try done.
  - intros ob q Hq1 Hq2. rewrite Hf by done. by apply Hf1.
  - assert (get_integer b1 (sub_field info "r") = get_integer b (sub_field info "r")) as ->; [|done].
    change (get_integer ?b ?f) with (match field_scalar b f with Some (SInt z) => Some z | _ => None end).
    rewrite (frame_scalar _ (sub_field info "r") _ _ Hf1); [done|]. cbn. by rewrite !keqb_refl.
Qed.
End Records.
