(* ===== verification/ConvoPruneFacts.v ===== *)
(** * Facts about pruning the volatile conversation info *)
From S2P Require Import Prelude OMap Util Internal BtValue ThirdParty ConfigData.
From S2P Require Import ConfigDataFacts ConfigParse ConfigParseFacts ConfigMessage.
From S2P Require Import MessageFacts MergeFacts ReplayFacts Encrypt.
From S2P Require Import SessionEncrypt Protos ConfigBase BaseFacts Multipart BaseSync.
From S2P Require Import DictField DictFieldFacts Community CommunityFacts UserProfileConfig.
From S2P Require Import UserProfileConfig ContactsConfig ContactsFacts UserGroupsConfig UserGroupsFacts.
From S2P Require Import GroupRecordFacts ConvoInfoConfig ConvoInfoFacts.

Section Prune.
Context `{Oxenc} `{CryptoBox} `{Aead} `{Zstd} `{Protobuf} `{TextEncodings}.

(** ** Conversations with an id *)

Definition valid_key (prefix : Z) (k : bytes) : Prop := size_of k = 33 /\ head k = Some (byte_of prefix).

Lemma to_hex_inj a b : to_hex a = to_hex b -> a = b.
Proof. intros E. by rewrite <- (from_to_hex a), E, from_to_hex. Qed.

Lemma keyed_list_key prefix d c :
  c ∈ keyed_list prefix d -> exists k info, (k, VDict info) ∈ d /\ valid_key prefix k /\ c = load_keyed_convo (to_hex k) info.
Proof.
  unfold keyed_list, keyed_entries. intros ([k v] & Hin & He)%list_elem_of_omap. unfold keyed_entry in He. cbn in He.
  destruct v as [info|?|?]; try done. destruct (_ && _) eqn:E; [|done]. injection He as <-.
  apply andb_true_iff in E as [?%Z.eqb_eq ?%bool_decide_eq_true]. by exists k, info.
Qed.

Lemma keyed_list_erase prefix k d :
  keyed_list prefix (merase k d) = filter (fun c => kc_id c <> to_hex k) (keyed_list prefix d).
Proof.
  apply omap_filter_erase. intros [k0 v] c _ He. unfold keyed_entry in He. cbn in *. destruct v as [info|?|?]; try done.
  destruct (_ && _); [|done]. injection He as <-. cbn. split; [by intros Hne ->|]. by intros Hne E%to_hex_inj.
Qed.

Lemma keyed_list_nodup prefix d : msorted d -> NoDup (kc_id <$> keyed_list prefix d).
Proof.
  induction d as [|[k v] d IH]; [constructor|]. intros [Hs Hlt]%msorted_cons. specialize (IH Hs).
  change (keyed_list prefix ((k, v) :: d)) with
    (match keyed_entry load_keyed_convo prefix (k, v) with Some c => c :: keyed_list prefix d | None => keyed_list prefix d end).
  unfold keyed_entry. cbn [fst snd]. destruct v as [info|?|?]; [|done..]. destruct (_ && _); [|done].
  rewrite fmap_cons. apply NoDup_cons. split; [|done]. intros (c & Hc & Hin)%list_elem_of_fmap.
  apply keyed_list_key in Hin as (k' & info' & Hin & _ & ->). apply to_hex_inj in Hc. subst k'.
  rewrite Forall_forall in Hlt. apply Hlt in Hin. by apply klt_irrefl in Hin.
Qed.

Lemma erase_entry_data b key k :
  settled b ->
  exists b', erase_field b (sub_field (root_field key) k) = Ok b' /\ settled b' /\
    dict_at b' key = merase k (dict_at b key) /\ forall key', key' <> key -> dict_at b' key' = dict_at b key'.
Proof.
  intros Hs. destruct (erase_field_data b (sub_field (root_field key) k) Hs) as (b' & E & Hs' & Hd).
  exists b'. split_and!; try done; rewrite ?dict_at_data, ?Hd.
  - apply (update_existing_dict key [] k).
  - intros key' Hne. rewrite !dict_at_data, Hd. cbn [_inter_keys _last_key sub_field root_field app].
    rewrite mfind_update_existing. by apply keqb_neq in Hne as ->.
Qed.

(** Erasing a list of ids; [op] erases one of them from the dict below [key]. *)
Lemma erase_ids_data (op : ConfigBase -> bytes -> res (bool * ConfigBase)) key prefix ids b :
  (forall b k, valid_key prefix k -> op b (to_hex k) = erase_impl b (sub_field (root_field key) k)) ->
  Forall (fun id => exists k, id = to_hex k /\ valid_key prefix k) ids -> settled b ->
  exists b', foldM (fun b id => let! (_, b) := op b id in Ok b) b ids = Ok b' /\ settled b' /\
    keyed_list prefix (dict_at b' key) = filter (fun c => kc_id c ∉ ids) (keyed_list prefix (dict_at b key)) /\
    forall key', key' <> key -> dict_at b' key' = dict_at b key'.
Proof.
  intros Hop Hids. revert b. induction Hids as [|id ids (k & -> & Hk) _ IH]; intros b Hs.
  { exists b. split_and!; try done. symmetry. apply filter_all. set_solver. }
  cbn [foldM]. rewrite Hop by done. unfold erase_impl.
  destruct (erase_entry_data b key k Hs) as (b1 & -> & Hs1 & Hd1 & Ho1). cbn [mbind res_bind].
  destruct (IH b1 Hs1) as (b' & E & Hs' & Hd' & Ho'). exists b'. split_and!; try done.
  - rewrite Hd', Hd1, keyed_list_erase, list_filter_filter. apply list_filter_iff. intros c. set_solver.
  - intros key' Hne. by rewrite Ho', Ho1.
Qed.

(** Leaving out the keys of the stale entries is leaving out the stale entries. *)
Lemma filter_stale {C K} `{EqDecision K} (key : C -> K) (stale : C -> bool) (l : list C) (ids : list K) :
  NoDup (key <$> l) -> (forall id, id ∈ ids <-> exists c, c ∈ l /\ stale c = true /\ id = key c) ->
  filter (fun c => key c ∉ ids) l = filter (fun c => stale c = false) l.
Proof.
  intros Hn Hin. apply filter_ext_in. intros c Hc. rewrite Hin. destruct (stale c) eqn:Es; [|split; [done|]].
  - split; [|done]. intros Hno. exfalso. by apply Hno; exists c.
  - intros _ (c' & Hc' & Es' & E). apply list_elem_of_lookup in Hc as [i Hi], Hc' as [j Hj].
    assert (i = j) as ->; [|congruence].
    apply (NoDup_lookup _ _ _ (key c) Hn); rewrite list_lookup_fmap; [by rewrite Hi|by rewrite Hj, E].
Qed.

Lemma stale_elem {C A B} (mk : C -> A) (f : A -> list B) (stale : C -> bool) (key : C -> B) (l : list C) id :
  (forall c, f (mk c) = if stale c then [key c] else []) ->
  id ∈ flat_map f (mk <$> l) <-> exists c, c ∈ l /\ stale c = true /\ id = key c.
Proof.
  intros Hf. rewrite list_elem_of_In, in_flat_map. split.
  - intros (a & Ha%list_elem_of_In & Hid%list_elem_of_In). apply list_elem_of_fmap in Ha as (c & -> & Hc).
    rewrite Hf in Hid. exists c. destruct (stale c); [|by apply not_elem_of_nil in Hid].
    by apply list_elem_of_singleton in Hid.
  - intros (c & Hc & Hs & ->). exists (mk c). rewrite <- !list_elem_of_In. split; [by apply list_elem_of_fmap_2|].
    rewrite Hf, Hs. by apply list_elem_of_singleton.
Qed.

(** ** Communities *)

(** The servers and rooms are stored under their canonical names. *)
Definition canonical_servers (o : dict) : Prop :=
  Forall (fun e : bytes * dict_value => canonical_url e.1 = Ok e.1 /\
    match e.2 with
    | VDict si => Forall (fun e' => canonical_room e'.1 = Ok e'.1) (server_rooms si)
    | _ => True
    end) o.

Definition comm_addr (c : convo_community) : bytes * bytes := (base_url_ (cc_comm c), room_ (cc_comm c)).

Lemma load_room_addr u pk r data c :
  canonical_url u = Ok u -> canonical_room r = Ok r ->
  load_room load_convo_community u pk r data = Ok c -> comm_addr c = (u, r) /\ comm_room (cc_comm c) = r.
Proof.
  intros Hu Hr. unfold load_room, set_base_url, set_room, set_pubkey. rewrite Hu. cbn [mbind res_bind].
  rewrite Hr. cbn [mbind res_bind]. unfold throw_if. destruct (negb _); cbn; [done|]. by intros [= <-].
Qed.

Lemma server_entry_addr u v c :
  canonical_servers [(u, v)] -> c ∈ server_entry load_convo_community (u, v) ->
  exists si r data, v = VDict si /\ (r, VDict data) ∈ server_rooms si /\ comm_addr c = (u, r) /\
    comm_room (cc_comm c) = r.
Proof.
  intros [[Hu Hr] _]%Forall_cons Hin. cbn in Hu, Hr. unfold server_entry, rooms_entries in Hin. cbn in Hin.
  destruct v as [si|?|?]; [|by apply not_elem_of_nil in Hin..]. destruct (maybe_string si _) as [pk|]; [|by apply not_elem_of_nil in Hin].
  apply list_elem_of_omap in Hin as ([r w] & Hin & He). unfold room_entry in He. cbn in He.
  destruct w as [data|?|?]; try done. destruct (load_room _ _ _ _ _) as [c'|] eqn:El; [|done]. injection He as ->.
  rewrite Forall_forall in Hr. pose proof (Hr _ Hin) as Hc. cbn in Hc.
  exists si, r, data. split_and!; try done; by eapply load_room_addr.
Qed.

(** What erasing a room does to the servers. *)
Definition erase_room (u r : bytes) (o : dict) : dict :=
  match mfind u o with
  | Some (VDict si) =>
      match mfind (bs "R") si with
      | Some (VDict rooms) =>
          match mfind r rooms with
          | Some _ => match merase r rooms with
                      | [] => merase u o
                      | rooms' => minsert u (VDict (minsert (bs "R") (VDict rooms') si)) o
                      end
          | None => o
          end
      | _ => o
      end
  | _ => o
  end.

Lemma room_at b u r :
  get_clean b (sub_field (rooms_field u) r) =
  match mfind u (dict_at b "o") with
  | Some (VDict si) => mfind r (server_rooms si)
  | _ => None
  end.
Proof.
  rewrite dict_at_data. unfold get_clean, data_of, server_rooms. cbn. destruct (mfind _ _) as [[o|?|?]|]; try done. cbn.
  destruct (mfind u o) as [[si|?|?]|]; try done. by destruct (mfind _ si) as [[]|].
Qed.

Lemma rooms_at b u :
  get_dict b (rooms_field u) =
  match mfind u (dict_at b "o") with
  | Some (VDict si) => match mfind (bs "R") si with Some (VDict r) => Some r | _ => None end
  | _ => None
  end.
Proof.
  rewrite dict_at_data. unfold get_dict, get_clean, data_of. cbn. destruct (mfind _ _) as [[o|?|?]|]; try done. cbn.
  by destruct (mfind u o) as [[]|].
Qed.

Lemma erase_below_data b key ks last :
  settled b ->
  exists b', erase_field b {| _inter_keys := key :: ks; _last_key := last |} = Ok b' /\ settled b' /\
    dict_at b' key = update_existing ks (merase last) (dict_at b key) /\
    forall key', key' <> key -> dict_at b' key' = dict_at b key'.
Proof.
  intros Hs. destruct (erase_field_data b {| _inter_keys := key :: ks; _last_key := last |} Hs) as (b' & E & Hs' & Hd).
  exists b'. cbn [_inter_keys _last_key] in Hd. split_and!; try done.
  - rewrite !dict_at_data, Hd. apply update_existing_dict.
  - intros key' Hne. rewrite !dict_at_data, Hd, mfind_update_existing. by apply keqb_neq in Hne as ->.
Qed.

Definition room_value (u r : bytes) (o : dict) : option dict_value :=
  match mfind u o with Some (VDict si) => mfind r (server_rooms si) | _ => None end.

Lemma erase_room_absent u r o :
  wf_dict o -> room_value u r o = None -> update_existing [u; bs "R"] (merase r) o = o /\ erase_room u r o = o.
Proof.
  intros Hw Hv. unfold room_value, server_rooms, erase_room in *. split.
  - apply update_existing_absent; [done|]. cbn [app]. rewrite value_at_cons.
    destruct (mfind u o) as [[si|?|?]|]; try done. rewrite value_at_cons.
    destruct (mfind (bs "R") si) as [[rooms|?|?]|]; try done. rewrite value_at_cons. by rewrite Hv.
  - destruct (mfind u o) as [[si|?|?]|]; try done. destruct (mfind (bs "R") si) as [[rooms|?|?]|]; try done.
    by rewrite Hv.
Qed.

Lemma dict_at_wf b key : settled b -> wf_dict (dict_at b key).
Proof.
  intros [[_ Hw] _]. rewrite dict_at_data. destruct (mfind _ _) as [[d|?|?]|] eqn:E; try apply wf_dict_nil.
  apply (wf_dict_find _ _ _ Hw) in E. by apply wf_VDict in E.
Qed.

Lemma erase_community_data b c :
  settled b ->
  exists gone b', erase_convo_community b c = Ok (gone, b') /\ settled b' /\
    dict_at b' "o" = erase_room (base_url_ c) (room_ c) (dict_at b "o") /\
    forall key', key' <> bs "o" -> dict_at b' key' = dict_at b key'.
Proof.
  intros Hs. pose proof (dict_at_wf b "o" Hs) as Hw. unfold erase_convo_community, erase_impl, exists_field, community_field.
  rewrite room_at. set (u := base_url_ c). set (r := room_ c). fold (room_value u r (dict_at b "o")).
  destruct (erase_below_data b "o" [u; bs "R"] r Hs) as (b1 & E1 & Hs1 & Hd1 & Ho1).
  change (sub_field (rooms_field u) r) with {| _inter_keys := [bs "o"; u; bs "R"]; _last_key := r |}. rewrite E1.
  cbn [mbind res_bind]. destruct (room_value u r (dict_at b "o")) as [v|] eqn:Er.
  2: { destruct (erase_room_absent u r _ Hw Er) as [Ea Eb]. exists false, b1. by rewrite Hd1, Ea, Eb. }
  unfold room_value, server_rooms in Er. destruct (mfind u _) as [[si|?|?]|] eqn:Eu; try done.
  destruct (mfind (bs "R") si) as [[rooms|?|?]|] eqn:ER; try done.
  cbn [update_existing] in Hd1. rewrite Eu in Hd1. cbn [update_existing] in Hd1. rewrite ER in Hd1.
  change (sub_field (server_field u) "R") with (rooms_field u). rewrite rooms_at, Hd1, mfind_minsert_eq, mfind_minsert_eq.
  unfold erase_room. rewrite Eu, ER, Er. destruct (merase r rooms) as [|e rooms'] eqn:Em; [|by exists true, b1].
  destruct (erase_below_data b1 "o" [u] (bs "R") Hs1) as (b2 & E2 & Hs2 & Hd2 & Ho2).
  change (rooms_field u) with {| _inter_keys := [bs "o"; u]; _last_key := bs "R" |}. rewrite E2. cbn [mbind res_bind].
  destruct (erase_entry_data b2 "o" u Hs2) as (b3 & E3 & Hs3 & Hd3 & Ho3).
  change (server_field u) with (sub_field (root_field "o") u). rewrite E3. cbn [mbind res_bind].
  exists true, b3. split_and!; try done.
  - rewrite Hd3, Hd2, Hd1. cbn [update_existing]. rewrite mfind_minsert_eq.
    assert (msorted (dict_at b "o")) by apply Hw. rewrite !merase_minsert by auto with session. done.
  - intros key' Hne. by rewrite Ho3, Ho2, Ho1.
Qed.

Notation other u r := (fun c : convo_community => comm_addr c <> (u, r)).

(** The entries of the other servers. *)
Lemma server_entry_other u r e :
  canonical_servers [e] -> u <> e.1 ->
  server_entry load_convo_community e = filter (other u r) (server_entry load_convo_community e).
Proof.
  destruct e as [u' v]. intros Hc Hne. symmetry. apply filter_all. intros c Hin.
  apply (server_entry_addr _ _ _ Hc) in Hin as (si & r' & data & _ & _ & Ha & _). rewrite Ha. cbn in *. congruence.
Qed.

(** The entries of the server itself. *)
Lemma server_entry_erase u r si rooms :
  canonical_servers [(u, VDict si)] -> mfind (bs "R") si = Some (VDict rooms) ->
  server_entry load_convo_community (u, VDict (minsert (bs "R") (VDict (merase r rooms)) si)) =
  filter (other u r) (server_entry load_convo_community (u, VDict si)).
Proof.
  intros [[Hu Hr] _]%Forall_cons ER. cbn in Hu, Hr. unfold server_entry, rooms_entries. cbn [fst snd].
  assert (maybe_string (minsert (bs "R") (VDict (merase r rooms)) si) "#" = maybe_string si "#") as ->.
  { unfold maybe_string. by rewrite mfind_minsert_ne. }
  unfold server_rooms in *. rewrite mfind_minsert_eq. rewrite ER in *. destruct (maybe_string si "#") as [pk|]; [|done].
  apply omap_filter_erase. intros [r' w] c Hin He. rewrite Forall_forall in Hr. pose proof (Hr _ Hin) as Hc. cbn in Hc.
  unfold room_entry in He. cbn in He. destruct w as [data|?|?]; try done.
  destruct (load_room _ _ _ _ _) as [c'|] eqn:El; [|done]. injection He as ->.
  destruct (load_room_addr _ _ _ _ _ Hu Hc El) as [-> _]. cbn. split; congruence.
Qed.

Lemma comm_list_erase u r o :
  canonical_servers o -> wf_dict o -> comm_list (erase_room u r o) = filter (other u r) (comm_list o).
Proof.
  intros Hc Hw. destruct (room_value u r o) as [v|] eqn:Er.
  2: { destruct (erase_room_absent u r o Hw Er) as [_ ->]. symmetry. apply filter_all. intros c Hin Ha.
       apply list_elem_of_join in Hin as (l & Hin & Hl). apply list_elem_of_fmap in Hl as ([u' v] & -> & Hl).
       unfold canonical_servers in Hc. rewrite Forall_forall in Hc. pose proof (Hc _ Hl) as Hce.
       apply server_entry_addr in Hin as (si & r' & data & -> & Hr & Ha' & _); [|by apply Forall_singleton].
       rewrite Ha in Ha'. injection Ha' as <- <-. unfold room_value in Er.
       rewrite (In_mfind u (VDict si)) in Er by (done || apply Hw).
       assert (wf_dict (server_rooms si)) as [Hs _].
       { apply (In_mfind _ _ _ (proj1 Hw)) in Hl. apply (wf_dict_find _ _ _ Hw) in Hl. apply wf_VDict in Hl.
         unfold server_rooms. destruct (mfind _ si) as [[d|?|?]|] eqn:Ed; try apply wf_dict_nil.
         apply (wf_dict_find _ _ _ Hl) in Ed. by apply wf_VDict in Ed. }
       by rewrite (In_mfind _ _ _ Hs Hr) in Er. }
  unfold room_value, server_rooms in Er. destruct (mfind u o) as [[si|?|?]|] eqn:Eu; try done.
  destruct (mfind (bs "R") si) as [[rooms|?|?]|] eqn:ER; try done. unfold erase_room. rewrite Eu, ER, Er.
  assert (forall e, e ∈ o -> u = e.1 -> e = (u, VDict si)) as Hue.
  { intros [u' w] Hin ->. cbn in *. apply (In_mfind _ _ _ (proj1 Hw)) in Hin. congruence. }
  assert (forall e, e ∈ o -> canonical_servers [e]) as Hce.
  { intros e Hin. apply Forall_singleton. unfold canonical_servers in Hc. rewrite Forall_forall in Hc. by apply Hc. }
  destruct (merase r rooms) as [|e0 rooms'] eqn:Em.
  - apply join_filter_erase. apply Forall_forall. intros e Hin. destruct (keqb_spec u e.1) as [He|Hne].
    + rewrite (Hue e Hin He), <- (server_entry_erase u r si rooms), Em by (done || rewrite <- (Hue e Hin He); auto).
      unfold server_entry, rooms_entries, server_rooms. cbn [fst snd]. rewrite mfind_minsert_eq. by destruct (maybe_string _ _).
    + by apply server_entry_other; auto.
  - unfold comm_list, server_entries. rewrite minsert_existing by (apply Hw || by rewrite Eu).
    apply join_filter_map. apply Forall_forall. intros e Hin. destruct (keqb_spec u e.1) as [He|Hne].
    + rewrite <- Em, (Hue e Hin He). apply server_entry_erase; [rewrite <- (Hue e Hin He); auto|done].
    + by apply server_entry_other; auto.
Qed.

Lemma erase_room_canonical u r o : wf_dict o -> canonical_servers o -> canonical_servers (erase_room u r o).
Proof.
  intros Hw Hc. unfold erase_room. destruct (mfind u o) as [[si|?|?]|] eqn:Eu; try done.
  destruct (mfind (bs "R") si) as [[rooms|?|?]|] eqn:ER; try done. destruct (mfind r rooms); [|done].
  assert (Forall (fun e' => canonical_room e'.1 = Ok e'.1) (merase r rooms) /\ canonical_url u = Ok u) as [Hr Hu].
  { apply mfind_In in Eu. unfold canonical_servers in Hc. rewrite Forall_forall in Hc. apply Hc in Eu as [Hu Hr].
    cbn [fst snd] in *. unfold server_rooms in Hr. rewrite ER in Hr. split; [by apply merase_Forall|done]. }
  destruct (merase r rooms) as [|e rooms'] eqn:Em; [by apply merase_Forall|].
  apply minsert_Forall; [|done]. cbn [fst snd]. split; [done|]. unfold server_rooms. by rewrite mfind_minsert_eq.
Qed.

Lemma erase_at_canonical b u r :
  canonical_url u = Ok u -> canonical_room r = Ok r ->
  erase_convo_community_at b u r =
  erase_convo_community b {| base_url_ := u; room_ := r; localized_room_ := Some r; pubkey_ := [] |}.
Proof.
  intros Hu Hr. unfold erase_convo_community_at, new_community, set_base_url, set_room. rewrite Hu.
  cbn [mbind res_bind]. by rewrite Hr.
Qed.

(** Erasing a list of rooms. *)
Lemma erase_rooms_data l b :
  Forall (fun a : bytes * bytes => canonical_url a.1 = Ok a.1 /\ canonical_room a.2 = Ok a.2) l ->
  settled b -> canonical_servers (dict_at b "o") ->
  exists b', foldM (fun b c => let! (_, b) := erase_convo_community_at b (c : bytes * bytes).1 c.2 in Ok b) b l = Ok b' /\
    settled b' /\ comm_list (dict_at b' "o") = filter (fun c => comm_addr c ∉ l) (comm_list (dict_at b "o")) /\
    forall key', key' <> bs "o" -> dict_at b' key' = dict_at b key'.
Proof.
  intros Hl. revert b. induction Hl as [|[u r] l [Hu Hr] _ IH]; intros b Hs Hc.
  { exists b. split_and!; try done. symmetry. apply filter_all. intros c _. apply not_elem_of_nil. }
  cbn [fst snd] in Hu, Hr. cbn [foldM fst snd]. rewrite (erase_at_canonical b u r Hu Hr).
  edestruct (erase_community_data b) as (gone & b1 & -> & Hs1 & Hd1 & Ho1); [done|]. cbn [base_url_ room_] in Hd1.
  cbn [mbind res_bind]. pose proof (dict_at_wf b "o" Hs) as Hw.
  destruct (IH b1 Hs1) as (b' & E & Hs' & Hd' & Ho'); [rewrite Hd1; by apply erase_room_canonical|].
  exists b'. split_and!; try done.
  - rewrite Hd', Hd1, comm_list_erase, list_filter_filter by done. apply list_filter_iff. intros c.
    rewrite not_elem_of_cons. tauto.
  - intros key' Hne. by rewrite Ho', Ho1.
Qed.

Lemma comm_list_addr o c :
  canonical_servers o -> c ∈ comm_list o ->
  canonical_url (comm_addr c).1 = Ok (comm_addr c).1 /\ canonical_room (comm_addr c).2 = Ok (comm_addr c).2 /\
  comm_room (cc_comm c) = (comm_addr c).2.
Proof.
  intros Hc (l & Hin & ([u v] & -> & Hl)%list_elem_of_fmap)%list_elem_of_join.
  unfold canonical_servers in Hc. rewrite Forall_forall in Hc. pose proof (Hc _ Hl) as Hce.
  apply server_entry_addr in Hin as (si & r & data & -> & Hr & Ha & Hroom); [|by apply Forall_singleton].
  rewrite Ha. cbn in *. destruct Hce as [Hu Hf]. rewrite Forall_forall in Hf. apply Hf in Hr. done.
Qed.

Lemma rooms_nodup u pk rooms :
  canonical_url u = Ok u -> msorted rooms -> Forall (fun e => canonical_room e.1 = Ok e.1) rooms ->
  NoDup (comm_addr <$> omap (room_entry load_convo_community u pk) rooms).
Proof.
  intros Hu. induction rooms as [|[r v] rooms IH]; [constructor|].
  intros [Hs Hlt]%msorted_cons [Hr Hf]%Forall_cons. cbn in Hr. specialize (IH Hs Hf). cbn [omap list_omap].
  destruct (room_entry _ _ _ (r, v)) as [c|] eqn:Ec; [|done]. rewrite fmap_cons. apply NoDup_cons. split; [|done].
  assert (forall e c, room_entry load_convo_community u pk e = Some c -> canonical_room e.1 = Ok e.1 -> comm_addr c = (u, e.1)) as Hre.
  { intros [r' w] c' He Hcr. unfold room_entry in He. cbn in *. destruct w as [data|?|?]; try done.
    destruct (load_room _ _ _ _ _) eqn:El; [|done]. injection He as ->. by eapply load_room_addr. }
  intros (c' & Ha & (e & Hin & He)%list_elem_of_omap)%list_elem_of_fmap. rewrite Forall_forall in Hf, Hlt.
  rewrite (Hre _ _ Ec Hr), (Hre _ _ He (Hf _ Hin)) in Ha. injection Ha as ->. apply Hlt in Hin. by apply klt_irrefl in Hin.
Qed.

Lemma comm_list_nodup o : wf_dict o -> canonical_servers o -> NoDup (comm_addr <$> comm_list o).
Proof.
  induction o as [|[u v] o IH]; [constructor|]. intros (Hv & Hlt & Hw)%wf_dict_cons [Hu Hc]%Forall_cons.
  specialize (IH Hw Hc). change (comm_list ((u, v) :: o)) with (server_entry load_convo_community (u, v) ++ comm_list o).
  rewrite fmap_app. apply NoDup_app. split_and!; [|intros a Ha Ha'|done].
  - unfold server_entry, rooms_entries. cbn [fst snd] in *. destruct v as [si|?|?]; [|constructor..].
    destruct (maybe_string si _) as [pk|]; [|constructor]. destruct Hu as [Hu Hr]. apply rooms_nodup; [done| |done].
    unfold server_rooms. apply wf_VDict in Hv. destruct (mfind _ si) as [[d|?|?]|] eqn:Ed; try apply msorted_nil.
    apply (wf_dict_find _ _ _ Hv) in Ed. by apply wf_VDict in Ed as [? _].
  - apply list_elem_of_fmap in Ha as (c & -> & Hc1), Ha' as (c' & Ha & Hc2).
    apply server_entry_addr in Hc1 as (si & r & data & -> & _ & Hc1 & _); [|by apply Forall_singleton].
    apply list_elem_of_join in Hc2 as (l & Hin & ([u' v'] & -> & Hl)%list_elem_of_fmap).
    unfold canonical_servers in Hc. rewrite Forall_forall in Hc, Hlt. pose proof (Hc _ Hl) as Hce. apply Hlt in Hl. cbn in Hl.
    apply server_entry_addr in Hin as (si' & r' & data' & -> & _ & Hc2 & _); [|by apply Forall_singleton].
    rewrite Hc1, Hc2 in Ha. injection Ha as -> _. by apply klt_irrefl in Hl.
Qed.

(** ** Pruning *)

(** The conversations that pruning keeps: groups in any case, others unless they are stale. *)
Definition keeps (cutoff : Z) (c : any_convo) : Prop :=
  match c with
  | AnyConvoGroup _ => True
  | AnyOneToOne c | AnyConvoLegacy c => is_stale cutoff (kc_base c) = false
  | AnyConvoCommunity c => is_stale cutoff (cc_base c) = false
  end.
#[export] Instance keeps_dec cutoff c : Decision (keeps cutoff c).
Proof. destruct c; cbn; apply _. Defined.

Lemma erase_1to1_hex b k : valid_key 5 k -> erase_1to1 b (to_hex k) = erase_impl b (sub_field (root_field "1") k).
Proof.
  intros [Hs Hh]. unfold erase_1to1, new_one_to_one, erase_one_to_one, session_id_to_bytes.
  rewrite (check_hex_id k "05" 5 Hs Hh to_hex_05 eq_refl). cbn [mbind res_bind kc_id].
  rewrite (check_hex_id k "05" 5 Hs Hh to_hex_05 eq_refl). cbn [mbind res_bind]. by rewrite from_to_hex.
Qed.
Lemma erase_legacy_hex b k :
  valid_key 5 k -> erase_convo_legacy_at b (to_hex k) = erase_impl b (sub_field (root_field "C") k).
Proof.
  intros [Hs Hh]. unfold erase_convo_legacy_at, new_convo_legacy, erase_convo_legacy, session_id_to_bytes.
  rewrite (check_hex_id k "05" 5 Hs Hh to_hex_05 eq_refl). cbn [mbind res_bind kc_id].
  rewrite (check_hex_id k "05" 5 Hs Hh to_hex_05 eq_refl). cbn [mbind res_bind]. by rewrite from_to_hex.
Qed.

(** Listing the conversations of one kind with an id and erasing the stale ones. *)
Lemma prune_keyed (op : ConfigBase -> bytes -> res (bool * ConfigBase)) key (mk : keyed_convo -> any_convo) cutoff b :
  (forall b k, valid_key 5 k -> op b (to_hex k) = erase_impl b (sub_field (root_field key) k)) ->
  (forall c, stale_ids cutoff [mk c] = if is_stale cutoff (kc_base c) then [kc_id c] else []) ->
  settled b ->
  exists b', foldM (fun b id => let! (_, b) := op b id in Ok b) b
               (stale_ids cutoff (mk <$> keyed_list 5 (dict_at b key))) = Ok b' /\ settled b' /\
    keyed_list 5 (dict_at b' key) = filter (fun c => is_stale cutoff (kc_base c) = false) (keyed_list 5 (dict_at b key)) /\
    forall key', key' <> key -> dict_at b' key' = dict_at b key'.
Proof.
  intros Hop Hmk Hs.
  assert (forall id, id ∈ stale_ids cutoff (mk <$> keyed_list 5 (dict_at b key)) <->
    exists c, c ∈ keyed_list 5 (dict_at b key) /\ is_stale cutoff (kc_base c) = true /\ id = kc_id c) as Hin.
  { intros id. apply (stale_elem mk _ (fun c => is_stale cutoff (kc_base c))). intros c. rewrite <- Hmk.
    cbn. by rewrite app_nil_r. }
  edestruct (erase_ids_data op key 5 (stale_ids cutoff (mk <$> keyed_list 5 (dict_at b key))) b) as (b' & E & Hs' & Hd & Ho);
    [done| |done|].
  - apply Forall_forall. intros id (c & Hc & _ & ->)%Hin. apply keyed_list_key in Hc as (k & info & _ & Hk & ->). by exists k.
  - exists b'. split_and!; try done. rewrite Hd. apply (filter_stale kc_id (fun c => is_stale cutoff (kc_base c))); [|done].
    apply keyed_list_nodup. by apply dict_at_wf.
Qed.

Lemma prune_communities cutoff b :
  settled b -> canonical_servers (dict_at b "o") ->
  exists b', foldM (fun b c => let! (_, b) := erase_convo_community_at b (c : bytes * bytes).1 c.2 in Ok b) b
               (stale_communities cutoff (AnyConvoCommunity <$> comm_list (dict_at b "o"))) = Ok b' /\ settled b' /\
    comm_list (dict_at b' "o") = filter (fun c => is_stale cutoff (cc_base c) = false) (comm_list (dict_at b "o")) /\
    forall key', key' <> bs "o" -> dict_at b' key' = dict_at b key'.
Proof.
  intros Hs Hc. set (L := comm_list (dict_at b "o")).
  assert (forall a, a ∈ stale_communities cutoff (AnyConvoCommunity <$> L) <->
    exists c, c ∈ L /\ is_stale cutoff (cc_base c) = true /\ a = comm_addr c) as Hin.
  { intros a. unfold stale_communities.
    rewrite (stale_elem AnyConvoCommunity _ (fun c => is_stale cutoff (cc_base c))
              (fun c => (base_url_ (cc_comm c), comm_room (cc_comm c)))) by done.
    split; intros (c & Hl & Hst & ->); exists c; split_and!; try done;
      destruct (comm_list_addr _ c Hc Hl) as (_ & _ & Hr); rewrite Hr; done. }
  edestruct (erase_rooms_data (stale_communities cutoff (AnyConvoCommunity <$> L)) b) as (b' & E & Hs' & Hd & Ho); [|done..|].
  - apply Forall_forall. intros a (c & Hl & _ & ->)%Hin. by destruct (comm_list_addr _ c Hc Hl) as (? & ? & _).
  - exists b'. split_and!; try done. rewrite Hd.
    apply (filter_stale comm_addr (fun c => is_stale cutoff (cc_base c))); [|done].
    apply comm_list_nodup; [by apply dict_at_wf|done].
Qed.

Lemma filter_fmap_keeps {C} (mk : C -> any_convo) cutoff (l : list C) (P : C -> Prop) `{forall c, Decision (P c)} :
  (forall c, keeps cutoff (mk c) <-> P c) -> filter (keeps cutoff) (mk <$> l) = mk <$> filter P l.
Proof.
  intros Hk. induction l as [|c l IH]; [done|]. rewrite fmap_cons, !filter_cons, IH.
  destruct (decide (keeps cutoff (mk c))) as [Hc|Hc], (decide (P c)) as [Hp|Hp]; try done; exfalso; by apply Hk in Hc || apply Hk in Hp.
Qed.

Lemma prune_stale_ok now b prune cutoff :
  settled b -> canonical_servers (dict_at b "o") -> prune_cutoff now prune = Ok cutoff ->
  exists b', prune_stale now b prune = Ok b' /\ settled b' /\
    all_convos b' true true true true = filter (keeps cutoff) (all_convos b true true true true).
Proof.
  intros Hs Hc Hcut. unfold prune_stale. rewrite Hcut. cbn [mbind res_bind].
  rewrite list_convos_ok by apply Hs. unfold all_convos at 1. cbn [app mbind res_bind]. rewrite app_nil_r.
  destruct (prune_keyed erase_1to1 "1" AnyOneToOne cutoff b) as (b1 & -> & Hs1 & Hd1 & Ho1);
    [apply erase_1to1_hex|intros c; apply app_nil_r|done|]. cbn [mbind res_bind].
  rewrite list_convos_ok by apply Hs1. unfold all_convos at 1. cbn [app mbind res_bind].
  destruct (prune_keyed erase_convo_legacy_at "C" AnyConvoLegacy cutoff b1) as (b2 & -> & Hs2 & Hd2 & Ho2);
    [apply erase_legacy_hex|intros c; apply app_nil_r|done|]. cbn [mbind res_bind].
  rewrite list_convos_ok by apply Hs2. unfold all_convos at 1. cbn [app mbind res_bind]. rewrite app_nil_r.
  destruct (prune_communities cutoff b2) as (b3 & -> & Hs3 & Hd3 & Ho3); [done|by rewrite Ho2, Ho1|].
  exists b3. split_and!; try done. unfold all_convos. rewrite !filter_app.
  rewrite (filter_fmap_keeps AnyOneToOne cutoff _ (fun c => is_stale cutoff (kc_base c) = false)) by done.
  rewrite (filter_fmap_keeps AnyConvoGroup cutoff _ (fun _ => True)) by done.
  rewrite (filter_fmap_keeps AnyConvoCommunity cutoff _ (fun c => is_stale cutoff (cc_base c) = false)) by done.
  rewrite (filter_fmap_keeps AnyConvoLegacy cutoff _ (fun c => is_stale cutoff (kc_base c) = false)) by done.
  rewrite (filter_all (fun _ : keyed_convo => True)) by done.
  by rewrite Hd3, !(Ho3 (bs _)), Hd2, !(Ho2 (bs _)), Hd1, !(Ho1 (bs _)) by done.
Qed.
End Prune.
