(* ===== verification/GroupInfoConfig.v ===== *)
(** * Group info

    [groups::Info] of [src/config/groups/info.cpp] and its header: the name, the description, the
    picture and the settings that the members of a group share, and whether it was destroyed. *)
From S2P Require Import Prelude OMap Util Internal BtValue ThirdParty ConfigData ConfigParse.
From S2P Require Import ConfigMessage Encrypt SessionEncrypt Protos ConfigBase Multipart.
From S2P Require Import BaseSync DictField UserProfileConfig.
From S2P Require Import ConfigDataFacts.
From S2P Require Import ConfigParseFacts MessageFacts MergeFacts.
From S2P Require Import ReplayFacts.
From S2P Require Import BaseFacts DictFieldFacts.
From S2P Require Import ContactsConfig ContactsFacts.

Module Info.
Definition NAME_MAX_LENGTH : nat := 100.
Definition DESCRIPTION_MAX_LENGTH : nat := 600.

Definition info_type : ConfigType :=
  {| storage_namespace := GroupInfo; encryption_domain := "groups::Info"; compression_level := Some 1;
     config_lags := 5; accepts_protobuf := false; keeps_extra := false |}.

Section WithLibraries.
Context `{Oxenc} `{CryptoBox} `{Aead} `{Zstd} `{Protobuf} `{TextEncodings}.

(** The constructor: the object and its [id]. *)
Definition new_info (now : Z) (ed25519_pubkey : bytes) (ed25519_secretkey dumped : option bytes) :
    res (ConfigBase * bytes) :=
  b ← init info_type now dumped (Some ed25519_pubkey) ed25519_secretkey;
  Ok (b, bs "03" ++ to_hex ed25519_pubkey).

(** A string that is there and is not empty. *)
Definition text_of (b : ConfigBase) (f : DictFieldProxy) : option bytes :=
  match get_string b f with
  | Some s => if is_nil s then None else Some s
  | None => None
  end.
Definition get_name (b : ConfigBase) : option bytes := text_of b (root_field "n").
Definition set_name (b : ConfigBase) (new_name : bytes) : res ConfigBase :=
  _ ← throw_if (NAME_MAX_LENGTH <? length new_name)%nat InvalidArgument;
  set_nonempty_str b (root_field "n") new_name.
Definition set_name_truncated (b : ConfigBase) (new_name : bytes) : res ConfigBase :=
  set_name b (utf8_truncate new_name NAME_MAX_LENGTH).

Definition get_description (b : ConfigBase) : option bytes := text_of b (root_field "o").
Definition set_description (b : ConfigBase) (new_desc : bytes) : res ConfigBase :=
  _ ← throw_if (DESCRIPTION_MAX_LENGTH <? length new_desc)%nat InvalidArgument;
  set_nonempty_str b (root_field "o") new_desc.
Definition set_description_truncated (b : ConfigBase) (new_desc : bytes) : res ConfigBase :=
  set_description b (utf8_truncate new_desc DESCRIPTION_MAX_LENGTH).

Definition get_profile_pic (b : ConfigBase) : profile_pic :=
  {| pic_url := value_or (text_of b (root_field "p")) [];
     pic_key := match get_string b (root_field "q") with
                | Some key => if size_of key =? 32 then key else []
                | None => []
                end |}.
Definition set_profile_pic (b : ConfigBase) (url key : bytes) : res ConfigBase :=
  set_pair_if b (negb (is_nil url) && (size_of key =? 32))
    (root_field "p") (VScalar (SStr url)) (root_field "q") (VScalar (SStr key)).

Definition get_expiry_timer (b : ConfigBase) : option Z := get_integer b (root_field "E").
Definition set_expiry_timer (b : ConfigBase) (expiration_timer : Z) : res ConfigBase :=
  set_positive_int b (root_field "E") expiration_timer.

Definition set_created (b : ConfigBase) (timestamp : Z) : res ConfigBase :=
  set_positive_int b (root_field "c") (to_epoch_seconds timestamp).
Definition get_created (b : ConfigBase) : option Z := to_epoch_seconds <$> get_integer b (root_field "c").
Definition set_delete_before (b : ConfigBase) (timestamp : Z) : res ConfigBase :=
  set_positive_int b (root_field "d") (to_epoch_seconds timestamp).
Definition get_delete_before (b : ConfigBase) : option Z := to_epoch_seconds <$> get_integer b (root_field "d").
Definition set_delete_attach_before (b : ConfigBase) (timestamp : Z) : res ConfigBase :=
  set_positive_int b (root_field "D") (to_epoch_seconds timestamp).
Definition get_delete_attach_before (b : ConfigBase) : option Z :=
  to_epoch_seconds <$> get_integer b (root_field "D").

Definition destroy_group (b : ConfigBase) : res ConfigBase := set_flag b (root_field "!") true.
Definition is_destroyed (b : ConfigBase) : bool :=
  match get_integer b (root_field "!") with Some ts => 0 <? ts | None => false end.
End WithLibraries.
End Info.

(** ** Facts *)

(** The abstract state. *)
Record info_spec := {
  is_name : option bytes;
  is_description : option bytes;
  is_pic : profile_pic;
  is_expiry : option Z;
  is_created : option Z;
  is_delete_before : option Z;
  is_delete_attach : option Z;
  is_gone : bool
}.

(** The operations that change it. *)
Inductive info_op :=
| SetName (n : bytes) | SetNameTruncated (n : bytes)
| SetDescription (d : bytes) | SetDescriptionTruncated (d : bytes)
| SetPic (url key : bytes)
| SetExpiry (secs : Z) | SetCreated (t : Z) | SetDeleteBefore (t : Z) | SetDeleteAttach (t : Z)
| Destroy.

Definition text (s : bytes) : option bytes := if is_nil s then None else Some s.
Definition secs (z : Z) : option Z := if 0 <? z then Some z else None.

Definition spec_step (s : info_spec) (op : info_op) : res info_spec :=
  let upd n d p e c b a g := Ok {| is_name := n; is_description := d; is_pic := p; is_expiry := e; is_created := c;
                                   is_delete_before := b; is_delete_attach := a; is_gone := g |} in
  let '{| is_name := n; is_description := d; is_pic := p; is_expiry := e; is_created := c;
          is_delete_before := b; is_delete_attach := a; is_gone := g |} := s in
  match op with
  | SetName x => if (100 <? length x)%nat then Throw InvalidArgument else upd (text x) d p e c b a g
  | SetNameTruncated x => upd (text (utf8_truncate x 100)) d p e c b a g
  | SetDescription x => if (600 <? length x)%nat then Throw InvalidArgument else upd n (text x) p e c b a g
  | SetDescriptionTruncated x => upd n (text (utf8_truncate x 600)) p e c b a g
  | SetPic url key =>
      upd n d (if negb (is_nil url) && (size_of key =? 32) then {| pic_url := url; pic_key := key |} else empty_pic)
        e c b a g
  | SetExpiry t => upd n d p (secs t) c b a g
  | SetCreated t => upd n d p e (secs (to_epoch_seconds t)) b a g
  | SetDeleteBefore t => upd n d p e c (secs (to_epoch_seconds t)) a g
  | SetDeleteAttach t => upd n d p e c b (secs (to_epoch_seconds t)) g
  | Destroy => upd n d p e c b a true
  end.

(** Times before the year 2255, in seconds, milliseconds or microseconds. *)
Definition valid_op (op : info_op) : Prop :=
  match op with
  | SetExpiry t => in_int64 t = true
  | SetCreated t | SetDeleteBefore t | SetDeleteAttach t => INT64_MIN <= t <= 9000000000000000
  | _ => True
  end.

Section Refinement.
Context `{Oxenc} `{CryptoBox} `{Aead} `{Zstd} `{Protobuf} `{TextEncodings}.

Definition info_step (b : ConfigBase) (op : info_op) : res ConfigBase :=
  match op with
  | SetName x => Info.set_name b x
  | SetNameTruncated x => Info.set_name_truncated b x
  | SetDescription x => Info.set_description b x
  | SetDescriptionTruncated x => Info.set_description_truncated b x
  | SetPic url key => Info.set_profile_pic b url key
  | SetExpiry t => Info.set_expiry_timer b t
  | SetCreated t => Info.set_created b t
  | SetDeleteBefore t => Info.set_delete_before b t
  | SetDeleteAttach t => Info.set_delete_attach_before b t
  | Destroy => Info.destroy_group b
  end.

(** The abstract state that an object stands for. *)
Definition info_abs (b : ConfigBase) : info_spec :=
  {| is_name := Info.get_name b; is_description := Info.get_description b; is_pic := Info.get_profile_pic b;
     is_expiry := Info.get_expiry_timer b; is_created := Info.get_created b;
     is_delete_before := Info.get_delete_before b; is_delete_attach := Info.get_delete_attach_before b;
     is_gone := Info.is_destroyed b |}.

(** It only depends on the scalars at the nine keys. *)
Definition abs_of (f : bytes -> option scalar) : info_spec :=
  let str k := str_field (f k) in
  let int k := match f k with Some (SInt z) => Some z | _ => None end in
  let txt k := match str k with Some s => text s | None => None end in
  {| is_name := txt (bs "n"); is_description := txt (bs "o");
     is_pic := {| pic_url := value_or (txt (bs "p")) [];
                  pic_key := match str (bs "q") with Some k => if size_of k =? 32 then k else [] | None => [] end |};
     is_expiry := int (bs "E"); is_created := to_epoch_seconds <$> int (bs "c");
     is_delete_before := to_epoch_seconds <$> int (bs "d"); is_delete_attach := to_epoch_seconds <$> int (bs "D");
     is_gone := match int (bs "!") with Some t => 0 <? t | None => false end |}.

Lemma info_abs_fields b : info_abs b = abs_of (fun k => field_scalar b (root_field k)).
Proof. done. Qed.

(** Writing the field of one key. *)
Lemma write_root b k o :
  editable b -> from_option wf_scalar True o ->
  exists b', write_scalar b (root_field k) o = Ok b' /\ editable b' /\
    forall k', field_scalar b' (root_field k') = if keqb k' k then o else field_scalar b (root_field k').
Proof.
  intros Hb Ho. destruct (write_scalar_editable b (root_field k) o Hb Ho) as (b' & E & Hb' & Hf & Hfr).
  exists b'. split_and!; try done. intros k'. destruct (keqb_spec k' k) as [->|Hne]; [done|].
  apply (frame_scalar _ _ _ _ Hfr). cbn. by rewrite (proj2 (keqb_neq k k') (not_eq_sym Hne)).
Qed.

Lemma text_field s : match str_field (if is_nil s then None else Some (SStr s)) with Some s => text s | None => None end = text s.
Proof. by destruct s. Qed.

Lemma positive_wf z : in_int64 z = true -> from_option wf_scalar True (if 0 <? z then Some (SInt z) else None).
Proof. by destruct (0 <? z). Qed.

Lemma epoch_field t :
  t <= 9000000000000000 ->
  to_epoch_seconds <$> (match (if 0 <? to_epoch_seconds t then Some (SInt (to_epoch_seconds t)) else None) with
                        | Some (SInt z) => Some z | _ => None end) = secs (to_epoch_seconds t).
Proof.
  intros Ht. unfold secs. destruct (0 <? _); [|done]. cbn. f_equal. apply to_epoch_seconds_fix.
  by apply to_epoch_seconds_bound.
Qed.

Lemma pic_field url key :
  let c := negb (is_nil url) && (size_of key =? 32) in
  {| pic_url := value_or (match str_field (if c then Some (SStr url) else None) with
                          | Some s => text s | None => None end) [];
     pic_key := match str_field (if c then Some (SStr key) else None) with
                | Some k => if size_of k =? 32 then k else [] | None => [] end |} =
  if c then {| pic_url := url; pic_key := key |} else empty_pic.
Proof.
  intros c. destruct c eqn:E; [|done]. apply andb_true_iff in E as [Eu Ek]. cbn. rewrite Ek.
  unfold text. by destruct (is_nil url).
Qed.

(** What an operation writes, in order: the keys and their new values. *)
Definition op_writes (op : info_op) : res (list (bytes * option scalar)) :=
  let str (s : bytes) := if is_nil s then None else Some (SStr s) in
  let int (z : Z) := if 0 <? z then Some (SInt z) else None in
  match op with
  | SetName x => if (100 <? length x)%nat then Throw InvalidArgument else Ok [(bs "n", str x)]
  | SetNameTruncated x => Ok [(bs "n", str (utf8_truncate x 100))]
  | SetDescription x => if (600 <? length x)%nat then Throw InvalidArgument else Ok [(bs "o", str x)]
  | SetDescriptionTruncated x => Ok [(bs "o", str (utf8_truncate x 600))]
  | SetPic url key =>
      let c := negb (is_nil url) && (size_of key =? 32) in
      Ok [(bs "p", if c then Some (SStr url) else None); (bs "q", if c then Some (SStr key) else None)]
  | SetExpiry t => Ok [(bs "E", int t)]
  | SetCreated t => Ok [(bs "c", int (to_epoch_seconds t))]
  | SetDeleteBefore t => Ok [(bs "d", int (to_epoch_seconds t))]
  | SetDeleteAttach t => Ok [(bs "D", int (to_epoch_seconds t))]
  | Destroy => Ok [(bs "!", Some (SInt 1))]
  end.
Definition write_roots (b : ConfigBase) (ws : list (bytes * option scalar)) : res ConfigBase :=
  foldM (fun b w => write_scalar b (root_field w.1) w.2) b ws.
Definition after (ws : list (bytes * option scalar)) (f : bytes -> option scalar) : bytes -> option scalar :=
  fold_left (fun f w k => if keqb k w.1 then w.2 else f k) ws f.

Lemma after_ext ws f g k : (forall k, f k = g k) -> after ws f k = after ws g k.
Proof.
  revert f g. induction ws as [|w ws IH]; intros f g Hfg; [done|]. apply IH. intros k'. cbn. by destruct (keqb k' w.1).
Qed.

Lemma info_step_writes b op : info_step b op = ws ← op_writes op; write_roots b ws.
Proof.
  assert (forall k o, write_roots b [(k, o)] = write_scalar b (root_field k) o) as Hone.
  { intros k o. unfold write_roots. cbn [foldM fst snd]. by destruct (write_scalar _ _ _). }
  destruct op as [x|x|x|x|url key|t|t|t|t|]; cbn [info_step op_writes mbind res_bind].
  - unfold Info.set_name. change Info.NAME_MAX_LENGTH with 100%nat. destruct (100 <? length x)%nat; [done|].
    cbn [throw_if mbind res_bind]. by rewrite set_nonempty_str_write, Hone.
  - unfold Info.set_name_truncated, Info.set_name. change Info.NAME_MAX_LENGTH with 100%nat.
    destruct (utf8_truncate_ok x 100) as (k & _ & Hl & _). rewrite (proj2 (Nat.ltb_ge _ _) Hl).
    cbn [throw_if mbind res_bind]. by rewrite set_nonempty_str_write, Hone.
  - unfold Info.set_description. change Info.DESCRIPTION_MAX_LENGTH with 600%nat. destruct (600 <? length x)%nat; [done|].
    cbn [throw_if mbind res_bind]. by rewrite set_nonempty_str_write, Hone.
  - unfold Info.set_description_truncated, Info.set_description. change Info.DESCRIPTION_MAX_LENGTH with 600%nat.
    destruct (utf8_truncate_ok x 600) as (k & _ & Hl & _). rewrite (proj2 (Nat.ltb_ge _ _) Hl).
    cbn [throw_if mbind res_bind]. by rewrite set_nonempty_str_write, Hone.
  - unfold Info.set_profile_pic, write_roots. rewrite set_pair_if_write. cbn [foldM fst snd].
    destruct (write_scalar b _ _) as [b1|]; [|done]. cbn [mbind res_bind]. by destruct (write_scalar b1 _ _).
  - unfold Info.set_expiry_timer. by rewrite set_positive_int_write, Hone.
  - unfold Info.set_created. by rewrite set_positive_int_write, Hone.
  - unfold Info.set_delete_before. by rewrite set_positive_int_write, Hone.
  - unfold Info.set_delete_attach_before. by rewrite set_positive_int_write, Hone.
  - unfold Info.destroy_group. by rewrite set_flag_write, Hone.
Qed.

(** All fields but one are as they were. *)
Ltac one_field lem := unfold after, abs_of; cbn [fold_left fst snd]; f_equal; f_equal; first [symmetry; apply lem | by rewrite lem].

Lemma spec_step_writes f op :
  valid_op op ->
  spec_step (abs_of f) op = match op_writes op with Ok ws => Ok (abs_of (after ws f)) | Throw e => Throw e end.
Proof.
  intros Hv. destruct op as [x|x|x|x|url key|t|t|t|t|]; cbn [valid_op] in Hv; cbn [op_writes];
    unfold spec_step, abs_of; cbv zeta.
  - destruct (100 <? length x)%nat; [done|]. one_field text_field.
  - one_field text_field.
  - destruct (600 <? length x)%nat; [done|]. one_field text_field.
  - one_field text_field.
  - one_field pic_field.
  - unfold after, abs_of. cbn [fold_left fst snd]. f_equal. f_equal. cbn. unfold secs. by destruct (0 <? t).
  - one_field (epoch_field t (proj2 Hv)).
  - one_field (epoch_field t (proj2 Hv)).
  - one_field (epoch_field t (proj2 Hv)).
  - done.
Qed.

Lemma op_writes_wf op ws : valid_op op -> op_writes op = Ok ws -> Forall (fun w => from_option wf_scalar True w.2) ws.
Proof.
  assert (forall s, from_option wf_scalar True (if is_nil s then None else Some (SStr s))) as Hs by (by intros []).
  intros Hv. destruct op as [x|x|x|x|url key|t|t|t|t|]; cbn [valid_op] in Hv; cbn [op_writes].
  1, 3: destruct (_ <? _)%nat; [done|].
  all: intros [= <-]; repeat (apply Forall_cons; split); try apply Forall_nil; cbn [snd]; auto;
    try (by apply positive_wf); try (by apply positive_wf, epoch_int64).
  1, 2: by destruct (_ && _).
  done.
Qed.

(** On an object that can be changed all of it is written. *)
Lemma write_roots_ok ws b :
  editable b -> Forall (fun w => from_option wf_scalar True w.2) ws ->
  exists b', write_roots b ws = Ok b' /\ editable b' /\
    forall k, field_scalar b' (root_field k) = after ws (fun k => field_scalar b (root_field k)) k.
Proof.
  intros Hb Hws. revert b Hb. induction Hws as [|[k o] ws Ho _ IH]; intros b Hb; [by exists b|].
  destruct (write_root b k o Hb Ho) as (b1 & E1 & Hb1 & Hf1). destruct (IH b1 Hb1) as (b2 & E2 & Hb2 & Hf2).
  exists b2. unfold write_roots in *. cbn [foldM fst snd]. rewrite E1. cbn [mbind res_bind].
  split_and!; [done..|]. intros k'. rewrite Hf2. unfold after. cbn [fold_left fst snd].
  by apply after_ext.
Qed.

(** An object without the key to sign, of an ordinary member. *)
Definition locked (b : ConfigBase) : Prop := is_readonly b = true /\ _state b <> Dirty.

(** On such an object nothing is written: what is there already is left alone, and anything else throws. *)
Lemma write_scalar_locked b f o :
  locked b -> write_scalar b f o = Ok b /\ field_scalar b f = o \/ write_scalar b f o = Throw RuntimeError.
Proof.
  intros [Hr Hs]. assert (is_dirty b = false) as Hd by (by apply bool_decide_eq_false_2).
  destruct o as [x|]; cbn [write_scalar]; unfold assign, erase_field, exists_field, field_scalar; cbn [is_empty_container];
    rewrite Hd, (dirty_readonly b Hr Hs); cbn [negb andb mbind res_bind].
  - destruct (bool_decide_reflect (get_clean b f = Some (VScalar x))) as [E|]; [|by right]. left. by rewrite E.
  - destruct (get_clean b f); [by right|by left].
Qed.
Lemma write_roots_locked b ws :
  locked b ->
  write_roots b ws = Ok b /\ (forall k, after ws (fun k => field_scalar b (root_field k)) k = field_scalar b (root_field k)) \/
  write_roots b ws = Throw RuntimeError.
Proof.
  intros Hl. induction ws as [|[k o] ws IH]; [by left|]. unfold write_roots in *. cbn [foldM fst snd].
  destruct (write_scalar_locked b (root_field k) o Hl) as [[-> Hf]| ->]; [|by right]. cbn [mbind res_bind].
  destruct IH as [[-> IH]| ->]; [left|by right]. split; [done|]. intros k'. unfold after in *. cbn [fold_left fst snd].
  rewrite <- IH. apply after_ext. intros k''. by destruct (keqb_spec k'' k) as [->|].
Qed.

Lemma info_step_refines b op :
  editable b -> valid_op op ->
  match spec_step (info_abs b) op with
  | Ok s => exists b', info_step b op = Ok b' /\ editable b' /\ info_abs b' = s
  | Throw e => info_step b op = Throw e
  end.
Proof.
  intros Hb Hv. rewrite info_abs_fields, spec_step_writes, info_step_writes by done.
  destruct (op_writes op) as [ws|e] eqn:E; [|done]. cbn [mbind res_bind].
  destruct (write_roots_ok ws b Hb (op_writes_wf op ws Hv E)) as (b' & -> & Hb' & Hf). exists b'. split_and!; [done..|].
  rewrite info_abs_fields. unfold abs_of. by rewrite !Hf.
Qed.
Lemma info_step_locked b op :
  locked b -> valid_op op ->
  info_step b op = Ok b /\ spec_step (info_abs b) op = Ok (info_abs b) \/
  info_step b op = Throw RuntimeError \/
  info_step b op = Throw InvalidArgument /\ spec_step (info_abs b) op = Throw InvalidArgument.
Proof.
  intros Hl Hv. rewrite info_abs_fields, spec_step_writes, info_step_writes by done.
  destruct (op_writes op) as [ws|e] eqn:E.
  - cbn [mbind res_bind]. destruct (write_roots_locked b ws Hl) as [[-> Hf]| ->]; [left|by right; left].
    split; [done|]. unfold abs_of. by rewrite !Hf.
  - right. right. destruct op; cbn [op_writes] in E; try done; destruct (_ <? _)%nat; try done; by injection E as <-.
Qed.

(** Sequences of operations. *)
Lemma info_refines ops b :
  editable b -> Forall valid_op ops ->
  match foldM spec_step (info_abs b) ops with
  | Ok s => exists b', foldM info_step b ops = Ok b' /\ editable b' /\ info_abs b' = s
  | Throw e => foldM info_step b ops = Throw e
  end.
Proof.
  intros Hb Hops. revert b Hb. induction Hops as [|op ops Hop _ IH]; intros b Hb; [by exists b|]. cbn [foldM].
  pose proof (info_step_refines b op Hb Hop) as Hst. destruct (spec_step (info_abs b) op) as [s|e]; cbn [mbind res_bind].
  - destruct Hst as (b' & -> & Hb' & <-). by apply IH.
  - by rewrite Hst.
Qed.
End Refinement.
