(* ===== verification/GroupMembers.v ===== *)
(** * Group members

    [groups::member] and [groups::Members] of [src/config/groups/members.cpp] and its header: a
    member is a dict of scalars below ["m"], keyed by the 33 bytes of the session id; ids whose
    invitation or promotion is still to be sent are kept in the dump's extra data. *)
From S2P Require Import Prelude OMap Util Internal BtValue ThirdParty ConfigData ConfigParse.
From S2P Require Import ConfigMessage Encrypt SessionEncrypt Protos ConfigBase Multipart.
From S2P Require Import BaseSync DictField UserProfileConfig ContactsConfig.

Definition STATUS_SENT : Z := 1.
Definition STATUS_FAILED : Z := 2.
Definition STATUS_NOT_SENT : Z := 3.
Definition REMOVED_MEMBER : Z := 1.
Definition REMOVED_MEMBER_AND_MESSAGES : Z := 2.

(** [enum class Status] *)
Inductive member_status :=
| invite_unknown | invite_not_sent | invite_sending | invite_failed | invite_sent | invite_accepted
| promotion_unknown | promotion_not_sent | promotion_sending | promotion_failed | promotion_sent
| promotion_accepted
| removed_unknown | removed | removed_including_messages.

Record member := {
  mem_session_id : bytes;
  mem_name : bytes;
  mem_profile_picture : profile_pic;
  mem_admin : bool;
  mem_supplement : bool;
  mem_invite_status : Z;
  mem_promotion_status : Z;
  mem_removed_status : Z
}.

(** The setters of [member]. *)
Definition with_invite (m : member) (s : Z) (supplement : bool) : member :=
  {| mem_session_id := mem_session_id m; mem_name := mem_name m;
     mem_profile_picture := mem_profile_picture m; mem_admin := mem_admin m;
     mem_supplement := supplement; mem_invite_status := s;
     mem_promotion_status := mem_promotion_status m; mem_removed_status := mem_removed_status m |}.
Definition set_invite_sent (m : member) : member := with_invite m STATUS_SENT (mem_supplement m).
Definition set_invite_not_sent (m : member) : member := with_invite m STATUS_NOT_SENT (mem_supplement m).
Definition set_invite_failed (m : member) : member := with_invite m STATUS_FAILED (mem_supplement m).
Definition set_invite_accepted (m : member) : member := with_invite m 0 false.

Definition with_promotion (m : member) (s : Z) : member :=
  {| mem_session_id := mem_session_id m; mem_name := mem_name m;
     mem_profile_picture := mem_profile_picture m; mem_admin := true;
     mem_supplement := mem_supplement m; mem_invite_status := 0;
     mem_promotion_status := s; mem_removed_status := mem_removed_status m |}.
Definition set_promoted (m : member) : member := with_promotion m STATUS_NOT_SENT.
Definition set_promotion_sent (m : member) : member := with_promotion m STATUS_SENT.
Definition set_promotion_failed (m : member) : member := with_promotion m STATUS_FAILED.
Definition set_promotion_accepted (m : member) : member := with_promotion m 0.

Definition set_removed (m : member) (messages : bool) : member :=
  {| mem_session_id := mem_session_id m; mem_name := mem_name m;
     mem_profile_picture := mem_profile_picture m; mem_admin := mem_admin m;
     mem_supplement := mem_supplement m; mem_invite_status := 0; mem_promotion_status := 0;
     mem_removed_status := if messages then REMOVED_MEMBER_AND_MESSAGES else REMOVED_MEMBER |}.

Definition member_name (n : bytes) : res bytes :=
  if (MAX_NAME_LENGTH <? length n)%nat then Throw InvalidArgument else Ok n.
Definition member_name_truncated (n : bytes) : res bytes := member_name (utf8_truncate n MAX_NAME_LENGTH).

(** [member::load] *)
Definition load_member (session_id : bytes) (info_dict : dict) : member :=
  let int_of key := value_or (maybe_int info_dict key) 0 in
  let admin := to_bool (int_of "A") in
  let invite_status := if admin then 0 else to_int (int_of "I") in
  let promotion_status := to_int (int_of "P") in
  {| mem_session_id := session_id;
     mem_name := value_or (maybe_string info_dict "n") [];
     mem_profile_picture := contact_picture info_dict;
     mem_admin := admin;
     mem_supplement := if (0 <? invite_status) && negb (admin || (0 <? promotion_status))
                       then to_bool (int_of "s") else false;
     mem_invite_status := invite_status;
     mem_promotion_status := promotion_status;
     mem_removed_status := to_int (int_of "R") |}.

Definition members_type : ConfigType :=
  {| storage_namespace := GroupMembers; encryption_domain := "groups::Members";
     compression_level := Some 1; config_lags := 5; accepts_protobuf := false; keeps_extra := true |}.

(** The config object and [pending_send_ids]. *)
Record Members := { members_base : ConfigBase; pending_send_ids : list bytes }.
Definition on_base (ms : Members) (b : ConfigBase) : Members :=
  {| members_base := b; pending_send_ids := pending_send_ids ms |}.

Definition has_pending_send (ms : Members) (pubkey_hex : bytes) : bool :=
  smem pubkey_hex (pending_send_ids ms).

Definition set_pending_send (ms : Members) (pubkey_hex : bytes) (pending : bool) : Members :=
  let changed := if pending then negb (has_pending_send ms pubkey_hex)
                 else has_pending_send ms pubkey_hex in
  let ids := if pending then sinsert pubkey_hex (pending_send_ids ms)
             else serase pubkey_hex (pending_send_ids ms) in
  {| members_base := if changed then set_needs_dump (members_base ms) true else members_base ms;
     pending_send_ids := ids |}.

(** [Members::get_status] *)
Definition get_status (ms : Members) (m : member) : member_status :=
  if mem_removed_status m =? REMOVED_MEMBER_AND_MESSAGES then removed_including_messages
  else if mem_removed_status m =? REMOVED_MEMBER then removed
  else if 0 <? mem_removed_status m then removed_unknown
  else if mem_admin m then
    if (mem_promotion_status m =? STATUS_NOT_SENT) && has_pending_send ms (mem_session_id m)
    then promotion_sending
    else if mem_promotion_status m =? STATUS_NOT_SENT then promotion_not_sent
    else if mem_promotion_status m =? STATUS_FAILED then promotion_failed
    else if mem_promotion_status m =? STATUS_SENT then promotion_sent
    else if negb (mem_promotion_status m =? 0) then promotion_unknown
    else promotion_accepted
  else
    if (mem_invite_status m =? STATUS_NOT_SENT) && has_pending_send ms (mem_session_id m)
    then invite_sending
    else if mem_invite_status m =? STATUS_NOT_SENT then invite_not_sent
    else if mem_invite_status m =? STATUS_FAILED then invite_failed
    else if mem_invite_status m =? STATUS_SENT then invite_sent
    else if negb (mem_invite_status m =? 0) then invite_unknown
    else invite_accepted.

(** [extra_data] and [load_extra_data] *)
Definition members_extra_data (ms : Members) : bt_dict :=
  if is_nil (pending_send_ids ms) then []
  else [(bs "pending_send_ids", BList (BStr <$> pending_send_ids ms))].

Definition load_extra_data (extra : bt_dict) : res (list bytes) :=
  match snd (skip_pairs "pending_send_ids" extra) with
  | (k, v) :: _ => if keqb k "pending_send_ids" then l ← as_list v; strings_of l else Ok []
  | [] => Ok []
  end.

Definition member_field (pk : bytes) : DictFieldProxy := sub_field (root_field "m") pk.

Section WithLibraries.
Context `{Oxenc} `{CryptoBox} `{Aead} `{Zstd} `{Protobuf} `{TextEncodings}.

(** [member(std::string sid)] *)
Definition new_member (session_id : bytes) : res member :=
  _ ← check_session_id session_id "05";
  Ok {| mem_session_id := session_id; mem_name := []; mem_profile_picture := empty_pic;
        mem_admin := false; mem_supplement := false; mem_invite_status := STATUS_NOT_SENT;
        mem_promotion_status := 0; mem_removed_status := 0 |}.

Definition new_members (now : Z) (ed25519_pubkey : bytes) (ed25519_secretkey dumped : option bytes) :
    res Members :=
  b ← init members_type now dumped (Some ed25519_pubkey) ed25519_secretkey;
  ids ← load_extra_data (_extra b);
  Ok {| members_base := b; pending_send_ids := ids |}.

Definition members_get (ms : Members) (pubkey_hex : bytes) : res (option member) :=
  pubkey ← session_id_to_bytes pubkey_hex "05";
  match get_dict (members_base ms) (member_field pubkey) with
  | None => Ok None
  | Some info_dict => Ok (Some (load_member pubkey_hex info_dict))
  end.

Definition members_get_or_construct (ms : Members) (pubkey_hex : bytes) : res member :=
  o ← members_get ms pubkey_hex;
  match o with Some m => Ok m | None => new_member pubkey_hex end.

Definition members_set (ms : Members) (mem : member) : res Members :=
  pk ← session_id_to_bytes (mem_session_id mem) "05";
  let info := member_field pk in
  let b := members_base ms in
  b ← set_str b (sub_field info "n") (take MAX_NAME_LENGTH (mem_name mem));
  b ← set_pair_if b (negb (pic_empty (mem_profile_picture mem)))
        (sub_field info "p") (VScalar (SStr (pic_url (mem_profile_picture mem))))
        (sub_field info "q") (VScalar (SStr (pic_key (mem_profile_picture mem))));
  b ← set_flag b (sub_field info "A") (mem_admin mem);
  b ← set_positive_int b (sub_field info "P") (mem_promotion_status mem);
  b ← set_positive_int b (sub_field info "I") (if mem_admin mem then 0 else mem_invite_status mem);
  b ← set_flag b (sub_field info "s") (mem_supplement mem);
  b ← set_positive_int b (sub_field info "R") (mem_removed_status mem);
  let not_sent := (negb (mem_admin mem) && (mem_invite_status mem =? STATUS_NOT_SENT)) ||
                  (mem_admin mem && (mem_promotion_status mem =? STATUS_NOT_SENT)) in
  Ok (set_pending_send (on_base ms b) (mem_session_id mem) not_sent).

Definition members_erase (ms : Members) (session_id : bytes) : res (bool * Members) :=
  pk ← session_id_to_bytes session_id "05";
  let info := member_field pk in
  let ret := exists_field (members_base ms) info in
  b ← erase_field (members_base ms) info;
  Ok (ret, set_pending_send (on_base ms b) session_id false).

Definition members_size (ms : Members) : Z :=
  match get_dict (members_base ms) (root_field "m") with Some d => size_of d | None => 0 end.

(** Iteration ([Members::iterator], [_load_info]): the members in key order, skipping keys of
    another size and values that are not dicts; the constructor of [member] checks the id. *)
Definition load_next (kv : bytes * dict_value) : res (option member) :=
  match kv.2 with
  | VDict info =>
      if size_of kv.1 =? 33
      then m ← new_member (to_hex kv.1); Ok (Some (load_member (mem_session_id m) info))
      else Ok None
  | _ => Ok None
  end.
Fixpoint load_infos (d : dict) : res (list member) :=
  match d with
  | [] => Ok []
  | kv :: d' => o ← load_next kv; l ← load_infos d';
                Ok (match o with Some m => m :: l | None => l end)
  end.
Definition members_list (ms : Members) : res (list member) :=
  match get_dict (members_base ms) (root_field "m") with None => Ok [] | Some d => load_infos d end.
End WithLibraries.
