(* ===== verification/GroupMembersFacts.v ===== *)
(** * Facts about group members *)
From S2P Require Import Prelude OMap Util Internal BtValue ThirdParty ConfigData.
From S2P Require Import ConfigDataFacts ConfigParse ConfigParseFacts ConfigMessage.
From S2P Require Import MessageFacts MergeFacts ReplayFacts Encrypt.
From S2P Require Import SessionEncrypt Protos ConfigBase BaseFacts Multipart BaseSync.
From S2P Require Import DictField DictFieldFacts UserProfileConfig.
From S2P Require Import ContactsConfig ContactsFacts GroupMembers.

(** The status values are [int]s. *)
Record valid_member (m : member) : Prop := {
  vm_invite : - 2 ^ 31 <= mem_invite_status m < 2 ^ 31;
  vm_promotion : - 2 ^ 31 <= mem_promotion_status m < 2 ^ 31;
  vm_removed : - 2 ^ 31 <= mem_removed_status m < 2 ^ 31
}.

Definition or_zero (z : Z) : Z := if 0 <? z then z else 0.

(** What a stored member reads back as: an admin has no invitation, and only an invited member who
    is not promoted has a supplement. *)
Definition normal_member (m : member) : member :=
  let invite := if mem_admin m then 0 else or_zero (mem_invite_status m) in
  {| mem_session_id := mem_session_id m;
     mem_name := take MAX_NAME_LENGTH (mem_name m);
     mem_profile_picture := normal_pic (mem_profile_picture m);
     mem_admin := mem_admin m;
     mem_supplement := (0 <? invite) && negb (mem_admin m || (0 <? or_zero (mem_promotion_status m)))
                       && mem_supplement m;
     mem_invite_status := invite;
     mem_promotion_status := or_zero (mem_promotion_status m);
     mem_removed_status := or_zero (mem_removed_status m) |}.

(** Whether the invitation or promotion is still to be sent. *)
Definition not_sent (m : member) : bool :=
  if mem_admin m then mem_promotion_status m =? STATUS_NOT_SENT
  else mem_invite_status m =? STATUS_NOT_SENT.

Definition member_writes (m : member) : list (bytes * option scalar) :=
  let pic := negb (pic_empty (mem_profile_picture m)) in
  [(bs "n", Some (SStr (take MAX_NAME_LENGTH (mem_name m))));
   (bs "p", if pic then Some (SStr (pic_url (mem_profile_picture m))) else None);
   (bs "q", if pic then Some (SStr (pic_key (mem_profile_picture m))) else None);
   (bs "A", flag (mem_admin m)); (bs "P", positive (mem_promotion_status m));
   (bs "I", positive (if mem_admin m then 0 else mem_invite_status m));
   (bs "s", flag (mem_supplement m)); (bs "R", positive (mem_removed_status m))].

Lemma or_zero_idem z : or_zero (or_zero z) = or_zero z.
Proof. unfold or_zero. by destruct (0 <? z) eqn:E; [rewrite E|]. Qed.

Lemma read_positive z : - 2 ^ 31 <= z < 2 ^ 31 -> to_int (int_field (positive z)) = or_zero z.
Proof.
  intros Hz. unfold positive, or_zero. destruct (0 <? z); [|done]. cbn. by apply to_int_id.
Qed.

Lemma load_member_normal d m :
  valid_member m ->
  (forall k o, mfind k (member_writes m) = Some o -> get_scalar (mfind k d) = o) ->
  load_member (mem_session_id m) d = normal_member m.
Proof.
  intros [Hi Hp Hr] Hk. unfold load_member, contact_picture, normal_member.
  cbv zeta. rewrite !maybe_int_field, !maybe_string_field.
  repeat match goal with
  | |- context [get_scalar (mfind (bs ?s) d)] => erewrite (Hk (bs s)) by reflexivity
  end.
  rewrite read_pic, !read_flag, !read_positive by (try done; destruct (mem_admin m); lia).
  assert ((if mem_admin m then 0 else or_zero (if mem_admin m then 0 else mem_invite_status m)) =
          (if mem_admin m then 0 else or_zero (mem_invite_status m))) as -> by (by destruct (mem_admin m)).
  destruct ((0 <? _) && _); [|done]. by rewrite andb_true_l.
Qed.

Lemma member_writes_wf m :
  valid_member m -> Forall (fun kv => from_option wf_scalar True kv.2) (member_writes m).
Proof.
  intros [Hi Hp Hr]. unfold member_writes, flag, positive.
  repeat (apply Forall_cons; split); try apply Forall_nil; try done; cbn [snd].
  - by destruct (negb _).
  - by destruct (negb _).
  - by destruct (mem_admin m).
  - destruct (0 <? _); [|done]. by apply small_int64.
  - destruct (0 <? _); [|done]. apply small_int64. destruct (mem_admin m); [lia|done].
  - by destruct (mem_supplement m).
  - destruct (0 <? _); [|done]. by apply small_int64.
Qed.

Lemma normal_member_idem m : normal_member (normal_member m) = normal_member m.
Proof.
  unfold normal_member. cbn. rewrite take_take, Nat.min_id, !or_zero_idem.
  assert (normal_pic (normal_pic (mem_profile_picture m)) = normal_pic (mem_profile_picture m)) as ->.
  { unfold normal_pic. by destruct (pic_empty (mem_profile_picture m)) eqn:E; [|rewrite E]. }
  destruct (mem_admin m); [done|]. rewrite or_zero_idem.
  by destruct (0 <? or_zero (mem_invite_status m)), (0 <? or_zero (mem_promotion_status m)), (mem_supplement m).
Qed.

Section WithLibraries.
Context `{Oxenc} `{Blake2b} `{TextEncodings}.

Ltac next_write :=
  rewrite ?writes_cons;
  match goal with
  | |- context [write_scalar ?b ?f ?o] =>
      destruct (write_scalar b f o); cbn [mbind res_bind]; [|done]
  end.

Lemma members_set_writes ms m :
  members_set ms m =
  (pk ← session_id_to_bytes (mem_session_id m) "05";
   b ← writes (members_base ms) (member_field pk) (member_writes m);
   Ok (set_pending_send (on_base ms b) (mem_session_id m) (not_sent m))).
Proof.
  unfold members_set. destruct (session_id_to_bytes _ _) as [pk|]; [|done]. cbn [mbind res_bind].
  unfold member_writes. cbv zeta. rewrite !writes_cons. unfold set_str.
  change (assign ?b ?f (VScalar ?x)) with (write_scalar b f (Some x)). next_write.
  rewrite set_pair_if_write. next_write. next_write.
  rewrite set_flag_write. unfold flag. next_write. rewrite set_positive_int_write. unfold positive. next_write.
  rewrite set_positive_int_write. next_write. rewrite set_flag_write. next_write.
  rewrite set_positive_int_write. next_write. cbn. unfold not_sent.
  destruct (mem_admin m); cbn; [done|]. by rewrite orb_false_r.
Qed.

Lemma pending_after ms sid p sid' :
  ssorted (pending_send_ids ms) ->
  has_pending_send (set_pending_send ms sid p) sid' =
    (if decide (sid' = sid) then p else has_pending_send ms sid').
Proof.
  intros Hs. unfold has_pending_send, set_pending_send. cbn [pending_send_ids].
  destruct p; (destruct (decide (sid' = sid)) as [->|Hne]).
  - by apply smem_In, sinsert_In; left.
  - apply member_eq. rewrite sinsert_In. naive_solver.
  - destruct (smem _ _) eqn:E; [|done]. apply smem_In, serase_In in E as [? _]. done.
  - apply member_eq. rewrite serase_In. naive_solver.
Qed.

Lemma dirty_needs_dump b : dirty (set_needs_dump b true) = dirty b.
Proof. done. Qed.

(** Storing and reading a member, the members' pending sends, and the status. *)
Lemma members_set_get ms m pk :
  editable (members_base ms) -> valid_member m -> ssorted (pending_send_ids ms) ->
  session_id_to_bytes (mem_session_id m) "05" = Ok pk ->
  exists ms', members_set ms m = Ok ms' /\ editable (members_base ms') /\
    members_get ms' (mem_session_id m) = Ok (Some (normal_member m)) /\
    frame (member_field pk) (members_base ms) (members_base ms') /\
    (forall sid, has_pending_send ms' sid =
       if decide (sid = mem_session_id m) then not_sent m else has_pending_send ms sid).
Proof.
  intros Hb Hm Hs Hpk. rewrite members_set_writes. unfold members_get. rewrite Hpk. cbn [mbind res_bind].
  destruct (writes_record (members_base ms) (member_field pk) (member_writes m) "n"
              (SStr (take MAX_NAME_LENGTH (mem_name m)))) as (b' & d & E & Hb' & Hfr & Hd & Hk).
  { done. } { by apply (bool_decide_unpack _). } { by apply member_writes_wf. } { done. }
  rewrite E. cbn [mbind res_bind]. eexists. split; [done|].
  assert (forall p, data_of (members_base (set_pending_send (on_base ms b') (mem_session_id m) p)) = data_of b') as Hdata.
  { intros p. unfold set_pending_send. cbn. by destruct (if p then _ else _). }
  assert (forall p f, get_dict (members_base (set_pending_send (on_base ms b') (mem_session_id m) p)) f = get_dict b' f) as Hget.
  { intros p f. unfold get_dict. by rewrite !get_clean_value, Hdata. }
  rewrite Hget, Hd, load_member_normal by done. split_and!; try done.
  - destruct Hb' as [[b2 Hw2] Hd2]. split; [|by rewrite Hdata].
    unfold set_pending_send. cbn [members_base on_base].
    destruct (if not_sent m then _ else _); exists b2; [by rewrite dirty_needs_dump|done].
  - intros ob q Hq. rewrite Hdata. by apply Hfr.
  - intros sid. by apply (pending_after (on_base ms b')).
Qed.

(** The status of a stored member is that of the member. *)
Lemma stored_status ms m :
  0 <= mem_invite_status m -> 0 <= mem_promotion_status m -> 0 <= mem_removed_status m ->
  get_status ms (normal_member m) = get_status ms m.
Proof.
  intros Hi Hp Hr. unfold get_status, normal_member. cbn.
  assert (forall z, 0 <= z -> or_zero z = z) as Ho.
  { intros z Hz. unfold or_zero. destruct (Z.ltb_spec 0 z); lia. }
  rewrite !Ho by done. by destruct (mem_admin m).
Qed.
End WithLibraries.
