(* ===== verification/GroupKeys.v ===== *)
(** * Group encryption keys

    [groups::Keys] of [src/config/groups/keys.cpp]: the sorted list of the group's encryption
    keys with their generations, the messages that are still needed, a pending key of an admin,
    their dump, the messages that distribute keys and the messages encrypted with them. *)
From S2P Require Import Prelude OMap Util Internal BtValue ThirdParty Bencode ConfigData ConfigParse.
From S2P Require Import ConfigMessage Encrypt SessionEncrypt Protos ConfigBase Multipart BaseSync.
From S2P Require Import MultiEncrypt DictField UserProfileConfig ContactsConfig GroupMembers.

(** ** Keys and times

    A [std::chrono::system_clock::time_point] is kept in milliseconds, the precision the code
    uses; the clock counts nanoseconds in an [int64_t]. *)
Definition TICKS_PER_MS : Z := 1000000.
Definition sys_time_from_ms (ms : Z) : res Z :=
  if in_int64 (ms * TICKS_PER_MS) then Ok ms else Throw UB.
Definition KEY_EXPIRY : Z := 2 * 30 * 24 * 3600 * 1000.
(** [timestamp + KEY_EXPIRY] *)
Definition expiry_of (timestamp : Z) : res Z := sys_time_from_ms (timestamp + KEY_EXPIRY).

Record key_info := { ki_key : bytes; ki_timestamp : Z; ki_generation : Z }.
#[export] Instance key_info_eq_dec : EqDecision key_info.
Proof. solve_decision. Defined.

(** [std::tie(generation, timestamp, key)], which the comparison operators compare. *)
Definition cmpval (k : key_info) : Z * Z * bytes := (ki_generation k, ki_timestamp k, ki_key k).
Definition key_ltb (a b : key_info) : bool := kltb (cmpval a) (cmpval b).

(** The members of [Keys] and of its base [ConfigSig]. *)
Record Keys := {
  user_ed25519_sk : bytes;
  keys_ : list key_info;
  active_msgs_ : list (Z * list bytes);
  pending_key_ : bytes;
  pending_key_config_ : bytes;
  pending_gen_ : Z;
  needs_dump_ : bool;
  verifier_ : option verify_callable;
  signer_ : option sign_callable;
  sig_sk : option bytes;
  sig_pk : option bytes
}.

Definition set_key_list (k : Keys) (l : list key_info) (active : list (Z * list bytes)) (nd : bool) :
    Keys :=
  {| user_ed25519_sk := user_ed25519_sk k; keys_ := l; active_msgs_ := active;
     pending_key_ := pending_key_ k; pending_key_config_ := pending_key_config_ k;
     pending_gen_ := pending_gen_ k; needs_dump_ := nd; verifier_ := verifier_ k;
     signer_ := signer_ k; sig_sk := sig_sk k; sig_pk := sig_pk k |}.
Definition set_pending (k : Keys) (key config : bytes) (gen : Z) (nd : bool) : Keys :=
  {| user_ed25519_sk := user_ed25519_sk k; keys_ := keys_ k; active_msgs_ := active_msgs_ k;
     pending_key_ := key; pending_key_config_ := config; pending_gen_ := gen; needs_dump_ := nd;
     verifier_ := verifier_ k; signer_ := signer_ k; sig_sk := sig_sk k; sig_pk := sig_pk k |}.
Definition set_sig (k : Keys) (vf : option verify_callable) (sg : option sign_callable)
    (sk pk : option bytes) : Keys :=
  {| user_ed25519_sk := user_ed25519_sk k; keys_ := keys_ k; active_msgs_ := active_msgs_ k;
     pending_key_ := pending_key_ k; pending_key_config_ := pending_key_config_ k;
     pending_gen_ := pending_gen_ k; needs_dump_ := needs_dump_ k; verifier_ := vf; signer_ := sg;
     sig_sk := sk; sig_pk := pk |}.

Definition admin (k : Keys) : bool :=
  match sig_sk k, sig_pk k with Some _, Some _ => true | _, _ => false end.
Definition has_pending (k : Keys) : bool := negb (is_nil (pending_key_config_ k)).
Definition pending_config (k : Keys) : option bytes :=
  if has_pending k then Some (pending_key_config_ k) else None.
Definition pending_key (k : Keys) : option bytes :=
  if has_pending k then Some (pending_key_ k) else None.
Definition keys_size (k : Keys) : Z := size_of (keys_ k) + if has_pending k then 1 else 0.

(** Newest first, with a pending key in front. *)
Definition group_keys (k : Keys) : list bytes :=
  (if has_pending k then [pending_key_ k] else []) ++ rev (ki_key <$> keys_ k).
Definition group_enc_key (k : Keys) : res bytes :=
  if has_pending k then Ok (pending_key_ k)
  else match last (keys_ k) with Some i => Ok (ki_key i) | None => Throw RuntimeError end.

Definition current_generation (k : Keys) : Z :=
  match last (keys_ k) with Some i => to_int (ki_generation i) | None => 0 end.

Definition needs_rekey (k : Keys) : bool :=
  admin k &&
  match rev (keys_ k) with
  | last_it :: second_it :: _ => ki_generation last_it =? ki_generation second_it
  | _ => false
  end.

Definition keys_active_hashes (k : Keys) : list bytes :=
  foldl (fun hs e => insert_all e.2 hs) [] (active_msgs_ k).

(** ** Adding and expiring keys *)

(** [active_msgs_[gen].emplace(hash)] *)
Definition activate (gen : Z) (hash : bytes) (active : list (Z * list bytes)) :
    list (Z * list bytes) :=
  minsert gen (sinsert hash (value_or (mfind gen active) [])) active.

(** The loop of [remove_expired]: [start] is [lapsed_end] (and up), [it] the last key seen of the
    generation at the head of [start], [it2] the keys after it. *)
Fixpoint drop_lapsed (newest : Z) (start : list key_info) (it : key_info) (it2 : list key_info) :
    res (list key_info) :=
  match it2 with
  | [] => Ok start
  | k :: rest =>
      if ki_generation k =? ki_generation it then drop_lapsed newest start k rest
      else
        e ← expiry_of (ki_timestamp k);
        if e <? newest then drop_lapsed newest it2 k rest else Ok start
  end.

Definition remove_expired (k : Keys) : res Keys :=
  l ← match keys_ k, last (keys_ k) with
      | first :: (_ :: _) as rest, Some back =>
          drop_lapsed (ki_timestamp back) (keys_ k) first rest
      | _, _ => Ok (keys_ k)
      end;
  let active := match l with
                | first :: _ => filter (fun e => ki_generation first <= e.1) (active_msgs_ k)
                | [] => []
                end in
  Ok (set_key_list k l active (needs_dump_ k)).

(** [insert] at [lower_bound]. *)
Fixpoint insert_sorted (new_key : key_info) (l : list key_info) : list key_info :=
  match l with
  | [] => [new_key]
  | k :: l' => if key_ltb k new_key then k :: insert_sorted new_key l' else new_key :: l
  end.

(** The keys of the new key's generation: [equal_range] of the sorted list. *)
Definition same_generation (new_key : key_info) (l : list key_info) : list key_info :=
  filter (fun k => ki_generation k = ki_generation new_key) l.

(** The new key goes before a front key of a later generation that is itself lapsed. *)
Definition is_stale (new_key : key_info) (l : list key_info) : res bool :=
  match l, last l with
  | front :: _ :: _, Some back =>
      if negb (key_ltb front new_key) && (ki_generation new_key <? ki_generation front)
      then e ← expiry_of (ki_timestamp front); Ok (e <? ki_timestamp back)
      else Ok false
  | _, _ => Ok false
  end.

Definition insert_key (k : Keys) (msg_hash : bytes) (new_key : key_info) : res Keys :=
  let active := activate (ki_generation new_key) msg_hash (active_msgs_ k) in
  if existsb (fun i => bool_decide (ki_key i = ki_key new_key)) (same_generation new_key (keys_ k))
  then Ok (set_key_list k (keys_ k) active (needs_dump_ k))
  else
    stale ← is_stale new_key (keys_ k);
    if (stale : bool) then Ok k
    else
      k ← remove_expired (set_key_list k (insert_sorted new_key (keys_ k)) active (needs_dump_ k));
      Ok (set_key_list k (keys_ k) (active_msgs_ k) true).

(** ** Reading dicts of a dump or message *)

(** [if (!d.skip_until(key)) throw e; ... d.consume...()] on a nested dict. *)
Definition take_key (key : bytes) (e : exn) (d : bt_dict) : res (bt_value * bt_dict) :=
  match snd (skip_pairs key d) with
  | (k, v) :: rest => if keqb k key then Ok (v, rest) else Throw e
  | [] => Throw e
  end.

(** A key's dict: generation, key bytes, timestamp. *)
Definition key_dict (k : key_info) : bt_value :=
  BDict [(bs "g", BInt (ki_generation k)); (bs "k", BStr (ki_key k)); (bs "t", BInt (ki_timestamp k))].

Definition load_key_dict (v : bt_value) : res key_info :=
  kd ← as_dict v;
  let! (v, kd) := take_key "g" ConfigValueError kd in
  generation ← as_int64 v;
  let! (v, kd) := take_key "k" ConfigValueError kd in
  key_bytes ← as_string v;
  _ ← throw_if (negb (size_of key_bytes =? 32)) ConfigValueError;
  let! (v, kd) := take_key "t" ConfigValueError kd in
  t ← as_int64 v;
  timestamp ← sys_time_from_ms t;
  Ok {| ki_key := key_bytes; ki_timestamp := timestamp; ki_generation := generation |}.

(** [Keys] with nothing in it. *)
Definition blank_keys (user_sk : bytes) : Keys :=
  {| user_ed25519_sk := user_sk; keys_ := []; active_msgs_ := []; pending_key_ := zero_hash;
     pending_key_config_ := []; pending_gen_ := -1; needs_dump_ := false; verifier_ := None;
     signer_ := None; sig_sk := None; sig_pk := None |}.

Section WithLibraries.
Context `{Oxenc} `{X25519} `{Aead} `{Zstd} `{Protobuf} `{TextEncodings} `{Randombytes}.

(** ** The signing keys ([ConfigSig]) *)

Definition keys_set_sig_keys (k : Keys) (secret : bytes) : res Keys :=
  if size_of secret =? 64 then
    let pk := ed_sk_to_pk secret in
    Ok (set_sig k (Some (ed_verifier pk)) (Some (ed_signer secret)) (Some secret) (Some pk))
  else Throw InvalidArgument.

Definition keys_init_sig_keys (k : Keys) (pubkey : bytes) (secret : option bytes) : res Keys :=
  match secret with
  | Some sk =>
      _ ← throw_if (negb (bool_decide (pubkey = drop 32 sk))) InvalidArgument;
      keys_set_sig_keys k sk
  | None =>
      if size_of pubkey =? 32
      then Ok (set_sig k (Some (ed_verifier pubkey)) (signer_ k) (sig_sk k) (Some pubkey))
      else Throw InvalidArgument
  end.

Definition keys_seed_hash (k : Keys) (key : bytes) : res bytes :=
  match sig_sk k with
  | None => Throw RuntimeError
  | Some sk => Ok (generichash 32 (take 64 key) (take 32 sk))
  end.

(** ** Dumping and loading *)

Definition dump_active (e : Z * list bytes) : bt_value := BList (BInt e.1 :: (BStr <$> e.2)).

Definition keys_make_dump (k : Keys) : bytes :=
  bt_dict_print
    ([(bs "A", BList (dump_active <$> active_msgs_ k)); (bs "L", BList (key_dict <$> keys_ k))] ++
     if has_pending k
     then [(bs "P", BDict [(bs "c", BStr (pending_key_config_ k)); (bs "g", BInt (pending_gen_ k));
                           (bs "k", BStr (pending_key_ k))])]
     else []).

Definition keys_dump (k : Keys) : bytes * Keys :=
  (keys_make_dump k, set_key_list k (keys_ k) (active_msgs_ k) false).

Definition load_active (active : list (Z * list bytes)) (v : bt_value) : res (list (Z * list bytes)) :=
  lst ← as_list v;
  match lst with
  | [] => Throw BtInvalid
  | g :: hashes =>
      gen ← as_int64 g;
      hs ← foldM (fun hs v => h ← as_string v; Ok (sinsert h hs)) (value_or (mfind gen active) []) hashes;
      Ok (minsert gen hs active)
  end.

(** Appending a loaded key, which must come after the last one. *)
Definition append_key (l : list key_info) (v : bt_value) : res (list key_info) :=
  k ← load_key_dict v;
  _ ← throw_if (match last l with Some p => negb (key_ltb p k) | None => false end) ConfigValueError;
  Ok (l ++ [k]).

Definition keys_load_dump (k : Keys) (dump : bytes) : res Keys :=
  d ← dc_open dump;
  let! (v, d) := dc_require "A" ConfigValueError d in
  l ← as_list v;
  active ← foldM load_active (active_msgs_ k) l;
  let! (v, d) := dc_require "L" ConfigValueError d in
  l ← as_list v;
  keys ← foldM append_key (keys_ k) l;
  let k := set_key_list k keys active (needs_dump_ k) in
  let! (found, d) := dc_skip_until "P" d in
  if (found : bool) then
    let! (_, v, d) := dc_next d in
    pending ← as_dict v;
    let! (v, pending) := take_key "c" ConfigValueError pending in
    config ← as_string v;
    let! (v, pending) := take_key "g" ConfigValueError pending in
    gen ← as_int64 v;
    let! (v, pending) := take_key "k" ConfigValueError pending in
    key ← as_string v;
    _ ← throw_if (negb (size_of key =? 32)) ConfigValueError;
    Ok (set_pending k key config gen (needs_dump_ k))
  else Ok k.

(** The members and info configs a [Keys] object works with; they get the current keys. *)
Record group_configs := { info : ConfigBase; members : Members }.
Definition replace_group_keys (g : group_configs) (key_list : list bytes) (dirty : bool) :
    res group_configs :=
  m ← replace_keys (members_base (members g)) key_list dirty;
  i ← replace_keys (info g) key_list dirty;
  Ok {| info := i; members := on_base (members g) m |}.

(** [Keys(user_ed25519_secretkey, group_ed25519_pubkey, group_ed25519_secretkey, dumped, info,
    members)] *)
Definition new_keys (user_sk group_pk : bytes) (group_sk dumped : option bytes) (g : group_configs) :
    res (Keys * group_configs) :=
  _ ← throw_if (negb (size_of user_sk =? 64)) InvalidArgument;
  _ ← throw_if (negb (size_of group_pk =? 32)) InvalidArgument;
  _ ← throw_if (match group_sk with Some sk => negb (size_of sk =? 64) | None => false end)
               InvalidArgument;
  k ← keys_init_sig_keys (blank_keys user_sk) group_pk group_sk;
  match dumped with
  | None => Ok (k, g)
  | Some s =>
      k ← keys_load_dump k s;
      g ← replace_group_keys g (group_keys k) false;
      Ok (k, g)
  end.

Definition load_admin_key (k : Keys) (seed : bytes) (g : group_configs) : res (Keys * group_configs) :=
  if admin k then Ok (k, g)
  else
    seed ← (if size_of seed =? 64 then Ok (take 32 seed)
            else if size_of seed =? 32 then Ok seed else Throw InvalidArgument);
    let '(pk, sk) := ed_seed_keypair seed in
    _ ← throw_if (match sig_pk k with Some p => negb (bool_decide (p = pk)) | None => false end)
                 RuntimeError;
    k ← keys_set_sig_keys k sk;
    i ← set_sig_keys (info g) sk;
    m ← set_sig_keys (members_base (members g)) sk;
    Ok (k, {| info := i; members := on_base (members g) m |}).
End WithLibraries.
