(* ===== verification/GroupKeysFacts.v ===== *)
(** * Facts about the list of group keys

    [remove_expired] against a reference definition, the invariant of the key list, and the
    independence of the list from the order in which keys arrive. *)
From S2P Require Import Prelude OMap Util Internal BtValue ThirdParty Bencode ConfigData ConfigParse.
From S2P Require Import ConfigMessage Encrypt SessionEncrypt Protos ConfigBase Multipart BaseSync.
From S2P Require Import MultiEncrypt DictField UserProfileConfig ContactsConfig GroupMembers GroupKeys.
From S2P Require Import ConfigParseFacts BaseFacts.
From S2P Require Import MessageFacts.

Definition key_lt (a b : key_info) : Prop := cmpval a ≺ cmpval b.
Abbreviation keys_sorted := (StronglySorted key_lt).

(** Times the clock can represent, also after [KEY_EXPIRY]. *)
Definition time_ok (t : Z) : bool :=
  in_int64 (t * TICKS_PER_MS) && in_int64 ((t + KEY_EXPIRY) * TICKS_PER_MS).
Definition key_ok (k : key_info) : Prop :=
  size_of (ki_key k) = 32 /\ in_int64 (ki_generation k) = true /\ time_ok (ki_timestamp k) = true.

Lemma time_ok_expiry t : time_ok t = true -> expiry_of t = Ok (t + KEY_EXPIRY).
Proof.
  unfold time_ok, expiry_of, sys_time_from_ms. intros [_ ->]%andb_true_iff. done.
Qed.
Lemma time_ok_load t : time_ok t = true -> sys_time_from_ms t = Ok t.
Proof. unfold time_ok, sys_time_from_ms. by intros [-> _]%andb_true_iff. Qed.

Lemma cmpval_inj a b : cmpval a = cmpval b -> a = b.
Proof. destruct a, b. unfold cmpval. cbn. by intros [= -> -> ->]. Qed.

Lemma key_lt_generation a b : key_lt a b -> ki_generation a <= ki_generation b.
Proof.
  unfold key_lt, klt, cmpval. cbn. unfold pair_cmp at 1. cbn. unfold pair_cmp. cbn.
  destruct (Z.compare_spec (ki_generation a) (ki_generation b)); try done; lia.
Qed.

Lemma key_lt_total a b : key_ltb a b = false -> a <> b -> key_lt b a.
Proof.
  unfold key_ltb. rewrite kltb_nlt. intros Hn Hne.
  destruct (klt_total (cmpval a) (cmpval b)) as [?|[?%cmpval_inj|?]]; done.
Qed.

Lemma key_lt_trans a b c : key_lt a b -> key_lt b c -> key_lt a c.
Proof. apply klt_trans. Qed.

Lemma keys_sorted_cmpval l : keys_sorted l -> ssorted (cmpval <$> l).
Proof.
  unfold ssorted. induction 1 as [|a l Hl IH Ha]; cbn; constructor; [done|]. by apply Forall_fmap.
Qed.

(** Two sorted lists with the same elements are equal. *)
Lemma keys_sorted_ext l1 l2 :
  keys_sorted l1 -> keys_sorted l2 -> (forall k, k ∈ l1 <-> k ∈ l2) -> l1 = l2.
Proof.
  intros H1 H2 He. assert (cmpval <$> l1 = cmpval <$> l2) as Hm.
  { apply sext.
    - by apply keys_sorted_cmpval.
    - by apply keys_sorted_cmpval.
    - intros x. rewrite !list_elem_of_fmap. naive_solver. }
  apply list_fmap_eq_inj in Hm; [done|]. intros a b. apply cmpval_inj.
Qed.

(** ** Expiry *)

(** A key is obsolete when the first key of the next generation is lapsed: its expiry lies before
    the newest key. *)
Definition next_generation_key (l : list key_info) (k : key_info) : option key_info :=
  head (filter (fun j => ki_generation k < ki_generation j) l).
Definition obsolete (l : list key_info) (k : key_info) : bool :=
  match next_generation_key l k, last l with
  | Some j, Some back => ki_timestamp j + KEY_EXPIRY <? ki_timestamp back
  | _, _ => false
  end.
Fixpoint drop_while {A} (p : A -> bool) (l : list A) : list A :=
  match l with [] => [] | x :: l' => if p x then drop_while p l' else l end.

(** The reference for [remove_expired]: the longest prefix of obsolete keys goes. *)
Definition unexpired_keys (l : list key_info) : list key_info := drop_while (obsolete l) l.

Lemma drop_while_suffix {A} (p : A -> bool) l : exists l1, l = l1 ++ drop_while p l /\ Forall p l1.
Proof.
  induction l as [|x l (l1 & He & Hf)]; cbn; [by exists []|]. destruct (p x) eqn:E; [|by exists []].
  exists (x :: l1). cbn. rewrite <- He. split; [done|]. constructor; [by rewrite E|done].
Qed.

Lemma drop_while_all {A} (p : A -> bool) l1 l2 :
  Forall p l1 -> drop_while p (l1 ++ l2) = drop_while p l2.
Proof. induction 1 as [|x l1 Hx Hl IH]; cbn; [done|]. destruct (p x); [done|by destruct Hx]. Qed.

Lemma next_generation_key_app g l1 k l2 :
  Forall (fun j => ki_generation j <= ki_generation g) l1 -> ki_generation g < ki_generation k ->
  next_generation_key (l1 ++ k :: l2) g = Some k.
Proof.
  intros Hf Hk. unfold next_generation_key. induction Hf as [|j l1 Hj Hf IH]; cbn.
  - by rewrite decide_True.
  - rewrite decide_False by lia. done.
Qed.

Lemma next_generation_key_none g l :
  Forall (fun j => ki_generation j <= ki_generation g) l -> next_generation_key l g = None.
Proof.
  intros Hf. unfold next_generation_key. induction Hf as [|j l1 Hj Hf IH]; cbn; [done|].
  by rewrite decide_False by lia.
Qed.

Lemma drop_lapsed_spec all back pre cur it it2 :
  all = pre ++ (cur ++ [it]) ++ it2 -> last all = Some back ->
  Forall (fun j => ki_generation j <= ki_generation it) pre ->
  Forall (fun j => ki_generation j = ki_generation it) cur ->
  keys_sorted (it :: it2) -> Forall (fun j => time_ok (ki_timestamp j) = true) it2 ->
  drop_lapsed (ki_timestamp back) ((cur ++ [it]) ++ it2) it it2 =
    Ok (drop_while (obsolete all) ((cur ++ [it]) ++ it2)).
Proof.
  revert pre cur it. induction it2 as [|k rest IH]; intros pre cur it Ha Hb Hp Hc Hs Ht; cbn [drop_lapsed].
  - assert (Forall (fun j => obsolete all j = false) (cur ++ [it])) as Hn.
    { assert (Forall (fun j => ki_generation j = ki_generation it) (cur ++ [it])) as Hg
        by (apply Forall_app; by repeat constructor).
      apply (Forall_impl _ _ _ Hg). intros j Hj. unfold obsolete. rewrite next_generation_key_none; [done|].
      rewrite Ha, app_nil_r, !Forall_app, Hj. split_and!; [done| |by repeat constructor].
      eapply Forall_impl; [done|]. cbn. lia. }
    rewrite app_nil_r. destruct (cur ++ [it]) as [|x l]; [done|]. apply Forall_cons in Hn as [Hx _].
    cbn. by rewrite Hx.
  - apply StronglySorted_inv in Hs as [Hs Hk]. apply Forall_cons in Hk as [Hk%key_lt_generation Hk'].
    apply Forall_cons in Ht as [Htk Ht]. destruct (Z.eqb_spec (ki_generation k) (ki_generation it)) as [Eg|Eg].
    + replace ((cur ++ [it]) ++ k :: rest) with (((cur ++ [it]) ++ [k]) ++ rest) in Ha |- *
        by (by rewrite <- (app_assoc _ [k])).
      apply (IH pre); try done.
      * by rewrite Eg.
      * rewrite Eg, Forall_app. split; [done|]. by repeat constructor.
    + rewrite time_ok_expiry by done. cbn [mbind res_bind].
      assert (Forall (fun j => ki_generation j = ki_generation it) (cur ++ [it])) as Hg
        by (apply Forall_app; by repeat constructor).
      assert (Forall (fun j => obsolete all j = (ki_timestamp k + KEY_EXPIRY <? ki_timestamp back)) (cur ++ [it])) as Ho.
      { apply (Forall_impl _ _ _ Hg). intros j Hj. unfold obsolete. rewrite Hb.
        rewrite Ha, app_assoc, next_generation_key_app; [done| |lia]. rewrite Forall_app, Hj. split; [done|].
        eapply Forall_impl; [done|]. cbn. lia. }
      destruct (ki_timestamp k + KEY_EXPIRY <? ki_timestamp back) eqn:E.
      * specialize (IH (pre ++ cur ++ [it]) [] k). cbn [app] in IH. rewrite IH; try done.
        -- rewrite drop_while_all; [done|]. eapply Forall_impl; [apply Ho|]. cbn. intros j ->. done.
        -- by rewrite Ha, <- !app_assoc.
        -- rewrite Forall_app. split; [eapply Forall_impl; [done|]; cbn; lia|].
           eapply Forall_impl; [apply Hg|]. cbn. lia.
      * destruct (cur ++ [it]) as [|x l] eqn:Ec; [by destruct cur|]. apply Forall_cons in Ho as [Hx _].
        cbn. by rewrite Hx.
Qed.

Lemma unexpired_short l : (length l <= 1)%nat -> unexpired_keys l = l.
Proof.
  destruct l as [|k [|]]; cbn; [done| |lia]. intros _. unfold unexpired_keys, obsolete. cbn.
  by rewrite next_generation_key_none by (repeat constructor; lia).
Qed.

(** The messages of generations that are still kept. *)
Definition kept_active (l : list key_info) (active : list (Z * list bytes)) : list (Z * list bytes) :=
  match l with
  | first :: _ => filter (fun e => ki_generation first <= e.1) active
  | [] => []
  end.

Lemma remove_expired_spec k :
  keys_sorted (keys_ k) -> Forall (fun j => time_ok (ki_timestamp j) = true) (keys_ k) ->
  remove_expired k =
    Ok (set_key_list k (unexpired_keys (keys_ k)) (kept_active (unexpired_keys (keys_ k)) (active_msgs_ k))
                     (needs_dump_ k)).
Proof.
  intros Hs Ht. unfold remove_expired. fold kept_active.
  assert (match keys_ k, last (keys_ k) with
          | first :: (_ :: _) as rest, Some back => drop_lapsed (ki_timestamp back) (keys_ k) first rest
          | _, _ => Ok (keys_ k)
          end = Ok (unexpired_keys (keys_ k))) as ->; [|done].
  destruct (keys_ k) as [|first [|second rest]]; [done|by rewrite unexpired_short by (cbn; lia)|].
  destruct (last (first :: second :: rest)) as [back|] eqn:Eb; [|by apply last_None in Eb].
  apply Forall_cons in Ht as [_ Ht].
  apply (drop_lapsed_spec _ _ [] [] first (second :: rest)); done.
Qed.

Lemma unexpired_suffix l : exists l1, l = l1 ++ unexpired_keys l /\ Forall (obsolete l) l1.
Proof. apply drop_while_suffix. Qed.

Lemma sorted_generation l k j : keys_sorted (l ++ [k]) -> j ∈ l ++ [k] -> ki_generation j <= ki_generation k.
Proof.
  intros Hs Hj. apply elem_of_app in Hj as [Hj|Hj%list_elem_of_singleton]; [|subst; lia].
  apply key_lt_generation. eapply StronglySorted_app_1_elem_of; [apply Hs|done|].
  by apply list_elem_of_singleton.
Qed.

(** The newest key is never dropped. *)
Lemma unexpired_last l : keys_sorted l -> last (unexpired_keys l) = last l.
Proof.
  intros Hs. destruct (unexpired_suffix l) as (l1 & He & Hf). destruct (unexpired_keys l) as [|x l2] eqn:Eu.
  - rewrite app_nil_r in He. subst l1. destruct (last l) as [back|] eqn:Eb; [|done].
    apply last_Some in Eb as [l' ->]. exfalso. apply Forall_app in Hf as [_ Hf].
    apply Forall_cons in Hf as [Hf _]. unfold obsolete in Hf. rewrite next_generation_key_none in Hf; [done|].
    apply Forall_forall. intros j. by apply sorted_generation.
  - rewrite He. by rewrite last_app_cons.
Qed.

Lemma unexpired_sorted l : keys_sorted l -> keys_sorted (unexpired_keys l).
Proof.
  intros Hs. destruct (unexpired_suffix l) as (l1 & He & _). rewrite He in Hs.
  by eapply StronglySorted_app_1_r.
Qed.

Lemma unexpired_incl l k : k ∈ unexpired_keys l -> k ∈ l.
Proof.
  intros Hk. destruct (unexpired_suffix l) as (l1 & He & _). rewrite He. apply elem_of_app. by right.
Qed.

(** ** Insertion *)

Lemma insert_sorted_perm x l : insert_sorted x l ≡ₚ x :: l.
Proof.
  induction l as [|k l IH]; cbn; [done|]. destruct (key_ltb k x); [|done]. rewrite IH. apply Permutation_swap.
Qed.

Lemma insert_sorted_elem x l k : k ∈ insert_sorted x l <-> k = x \/ k ∈ l.
Proof. by rewrite insert_sorted_perm, elem_of_cons. Qed.

Lemma insert_sorted_sorted x l : keys_sorted l -> x ∉ l -> keys_sorted (insert_sorted x l).
Proof.
  induction 1 as [|k l Hl IH Hk]; intros Hx; cbn; [by repeat constructor|].
  apply not_elem_of_cons in Hx as [Hne Hx]. destruct (key_ltb k x) eqn:E.
  - constructor; [auto|]. rewrite insert_sorted_perm. constructor; [|done]. by apply kltb_lt.
  - apply key_lt_total in E; [|done]. constructor; [by constructor|]. constructor; [done|].
    eapply Forall_impl; [apply Hk|]. intros j. by apply key_lt_trans.
Qed.

(** What a key is recognized by. *)
Definition key_id (k : key_info) : Z * bytes := (ki_generation k, ki_key k).

Record keys_wf (k : Keys) : Prop := {
  kw_sorted : keys_sorted (keys_ k);
  kw_distinct : NoDup (key_id <$> keys_ k);
  kw_keys : Forall key_ok (keys_ k);
  kw_active_sorted : msorted (active_msgs_ k);
  kw_active_hashes : Forall (fun e => ssorted e.2) (active_msgs_ k);
  kw_active_kept : kept_active (keys_ k) (active_msgs_ k) = active_msgs_ k
}.

Lemma existsb_same k (l : list key_info) :
  existsb (fun i => bool_decide (ki_key i = ki_key k)) (same_generation k l) = true <->
  key_id k ∈ key_id <$> l.
Proof.
  rewrite existsb_exists. unfold same_generation, key_id. split.
  - intros (i & Hi%list_elem_of_In & Hk%bool_decide_eq_true). apply list_elem_of_filter in Hi as [Hg Hi].
    apply list_elem_of_fmap. exists i. by rewrite Hg, Hk.
  - intros (i & [= Hg Hk] & Hi)%list_elem_of_fmap. exists i. split; [|by apply bool_decide_eq_true].
    apply list_elem_of_In, list_elem_of_filter. done.
Qed.

(** ** Active messages *)

Lemma filter_idemp {A} (P : A -> Prop) `{forall x, Decision (P x)} (l : list A) : filter P (filter P l) = filter P l.
Proof.
  induction l as [|x l IH]; [done|]. rewrite filter_cons. destruct (decide (P x)); [|done].
  by rewrite filter_cons_True, IH.
Qed.

Lemma filter_id {A} (P : A -> Prop) `{forall x, Decision (P x)} (l : list A) : filter P l = l <-> Forall P l.
Proof.
  split.
  - intros <-. apply Forall_forall. intros x [? _]%list_elem_of_filter. done.
  - induction 1 as [|x l Hx Hl IH]; [done|]. by rewrite filter_cons_True, IH.
Qed.

Lemma kept_active_idemp l a : kept_active l (kept_active l a) = kept_active l a.
Proof. destruct l; [done|]. apply filter_idemp. Qed.

Lemma kept_active_sorted l a : msorted a -> msorted (kept_active l a).
Proof.
  destruct l as [|x l]; cbn; [intros; apply msorted_nil|]. induction a as [|[g h] a IH]; [done|].
  rewrite msorted_cons. intros [Ha Hf]. rewrite filter_cons. destruct (decide _); [|auto].
  apply msorted_cons. split; [auto|]. apply Forall_forall. intros e [_ He]%list_elem_of_filter.
  by eapply Forall_forall in Hf.
Qed.

Lemma kept_active_Forall (P : Z * list bytes -> Prop) l a : Forall P a -> Forall P (kept_active l a).
Proof.
  destruct l; cbn; [constructor|]. rewrite !Forall_forall. intros Hf e [_ He]%list_elem_of_filter. auto.
Qed.

Lemma activate_sorted g h a : msorted a -> msorted (activate g h a).
Proof. apply msorted_minsert. Qed.

Lemma activate_hashes g h a :
  msorted a -> Forall (fun e => ssorted e.2) a -> Forall (fun e => ssorted e.2) (activate g h a).
Proof.
  intros Hm Hf. apply minsert_Forall; [|done]. cbn. apply ssorted_sinsert.
  destruct (mfind g a) eqn:E; cbn; [|constructor]. apply mfind_In in E. rewrite Forall_forall in Hf. by apply Hf in E.
Qed.

Lemma activate_kept l g h a :
  kept_active l a = a -> (exists first l', l = first :: l' /\ ki_generation first <= g) ->
  kept_active l (activate g h a) = activate g h a.
Proof.
  intros Hk (first & l' & -> & Hg). cbn in Hk |- *. apply filter_id in Hk. apply filter_id.
  by apply minsert_Forall.
Qed.

(** The keys of [l] are too old for the new one to matter: [is_stale] without the arithmetic
    checks. *)
Definition stale_key (i : key_info) (l : list key_info) : bool :=
  match l, last l with
  | front :: _ :: _, Some back =>
      (ki_generation i <? ki_generation front) &&
      (ki_timestamp front + KEY_EXPIRY <? ki_timestamp back)
  | _, _ => false
  end.

Lemma is_stale_spec i l : Forall key_ok l -> is_stale i l = Ok (stale_key i l).
Proof.
  intros Hf. unfold is_stale, stale_key. destruct l as [|front [|second l]]; try done.
  destruct (last _) as [back|]; [|done]. apply Forall_cons in Hf as [(_ & _ & Ht) _].
  destruct (ki_generation i <? ki_generation front) eqn:E; [|by rewrite andb_false_r].
  destruct (key_ltb front i) eqn:El.
  - apply kltb_lt in El. apply key_lt_generation in El. bool_prop. lia.
  - cbn [negb andb]. by rewrite time_ok_expiry.
Qed.

(** [insert_key] without the checks that cannot fail. *)
Definition insert_spec (k : Keys) (h : bytes) (i : key_info) : Keys :=
  let active := activate (ki_generation i) h (active_msgs_ k) in
  if decide (key_id i ∈ key_id <$> keys_ k) then set_key_list k (keys_ k) active (needs_dump_ k)
  else if stale_key i (keys_ k) then k
  else let l := unexpired_keys (insert_sorted i (keys_ k)) in
       set_key_list k l (kept_active l active) true.

Lemma not_id_not_elem i (l : list key_info) : key_id i ∉ key_id <$> l -> i ∉ l.
Proof. intros Hn Hi. apply Hn. by apply list_elem_of_fmap_2. Qed.

Lemma insert_key_spec k h i : keys_wf k -> key_ok i -> insert_key k h i = Ok (insert_spec k h i).
Proof.
  intros Hw Hi. unfold insert_key, insert_spec. destruct (decide _) as [Hd|Hd].
  - by rewrite (proj2 (existsb_same _ _)).
  - destruct (existsb _ _) eqn:Ee; [by apply existsb_same in Ee|].
    rewrite is_stale_spec by apply Hw. cbn [mbind res_bind].
    destruct (stale_key i (keys_ k)); [done|]. rewrite remove_expired_spec; [done| |].
    + cbn. apply insert_sorted_sorted; [apply Hw|]. by apply not_id_not_elem.
    + cbn. rewrite insert_sorted_perm. constructor; [apply Hi|].
      eapply Forall_impl; [apply Hw|]. by intros ? (_ & _ & ?).
Qed.

Lemma sorted_front l first l' j :
  keys_sorted l -> l = first :: l' -> j ∈ l -> ki_generation first <= ki_generation j.
Proof.
  intros Hs -> Hj. apply StronglySorted_inv in Hs as [_ Hf]. apply elem_of_cons in Hj as [->|Hj]; [lia|].
  rewrite Forall_forall in Hf. by apply key_lt_generation, Hf.
Qed.

Lemma insert_spec_wf k h i : keys_wf k -> key_ok i -> keys_wf (insert_spec k h i).
Proof.
  intros Hw Hi. unfold insert_spec. destruct (decide _) as [Hd|Hd].
  - apply list_elem_of_fmap in Hd as (j & [= Hg Hk] & Hj). constructor; cbn; try apply Hw.
    + apply activate_sorted, Hw.
    + apply activate_hashes; apply Hw.
    + apply activate_kept; [apply Hw|]. destruct (keys_ k) as [|first l] eqn:El; [by apply not_elem_of_nil in Hj|].
      exists first, l. split; [done|]. rewrite Hg.
      apply (sorted_front (first :: l) first l); [|done|done]. rewrite <- El. apply Hw.
  - destruct (stale_key i (keys_ k)); [done|].
    assert (keys_sorted (insert_sorted i (keys_ k))) as Hs.
    { apply insert_sorted_sorted; [apply Hw|]. by apply not_id_not_elem. }
    constructor; cbn.
    + by apply unexpired_sorted.
    + destruct (unexpired_suffix (insert_sorted i (keys_ k))) as (l1 & He & _).
      assert (NoDup (key_id <$> insert_sorted i (keys_ k))) as Hn.
      { rewrite insert_sorted_perm. cbn. constructor; [done|apply Hw]. }
      rewrite He, fmap_app in Hn. by apply NoDup_app in Hn as (_ & _ & ?).
    + apply Forall_forall. intros j Hj%unexpired_incl%insert_sorted_elem.
      destruct Hj as [->|Hj]; [done|]. pose proof (kw_keys _ Hw) as Hk.
      rewrite Forall_forall in Hk. by apply Hk.
    + apply kept_active_sorted, activate_sorted, Hw.
    + apply kept_active_Forall, activate_hashes; apply Hw.
    + apply kept_active_idemp.
Qed.

Lemma insert_spec_incl k h i j : j ∈ keys_ (insert_spec k h i) -> j = i \/ j ∈ keys_ k.
Proof.
  unfold insert_spec. destruct (decide _); [by right|]. destruct (stale_key _ _); [by right|]. cbn.
  by intros Hj%unexpired_incl%insert_sorted_elem.
Qed.

(** ** Keys that arrive in any order

    Keys whose times are within [KEY_EXPIRY] of each other. *)
Record compatible (u : list key_info) : Prop := {
  cp_ok : Forall key_ok u;
  cp_close : forall a b, a ∈ u -> b ∈ u -> ki_timestamp b <= ki_timestamp a + KEY_EXPIRY
}.
(** No key is there with two times. *)
Definition one_time (u : list key_info) : Prop := forall a b, a ∈ u -> b ∈ u -> key_id a = key_id b -> a = b.

(** Of the keys with the same generation and bytes the first one. *)
Fixpoint first_arrivals (l : list key_info) : list key_info :=
  match l with
  | [] => []
  | i :: l => i :: filter (fun j => key_id j <> key_id i) (first_arrivals l)
  end.

Lemma close_obsolete u l k :
  compatible u -> (forall j, j ∈ l -> j ∈ u) -> obsolete l k = false.
Proof.
  intros Hu Hl. unfold obsolete. destruct (next_generation_key l k) as [j|] eqn:En; [|done].
  destruct (last l) as [back|] eqn:Eb; [|done]. apply Z.ltb_ge, (cp_close _ Hu); apply Hl.
  - unfold next_generation_key in En. apply head_Some in En as [l' El].
    assert (j ∈ filter (fun j => ki_generation k < ki_generation j) l) as [_ ?]%list_elem_of_filter; [|done].
    rewrite El. by left.
  - apply last_Some in Eb as [l' ->]. apply elem_of_app. right. by left.
Qed.

Lemma close_unexpired u l : compatible u -> (forall j, j ∈ l -> j ∈ u) -> unexpired_keys l = l.
Proof.
  intros Hu Hl. unfold unexpired_keys. destruct l as [|x l]; [done|]. cbn. by erewrite close_obsolete.
Qed.

Lemma close_stale u i l : compatible u -> (forall j, j ∈ l -> j ∈ u) -> stale_key i l = false.
Proof.
  intros Hu Hl. unfold stale_key. destruct l as [|front [|second l]]; try done.
  destruct (last _) as [back|] eqn:Eb; [|done]. apply andb_false_iff. right.
  apply Z.ltb_ge, (cp_close _ Hu); apply Hl; [by left|]. apply last_Some in Eb as [l' ->].
  apply elem_of_app. right. by left.
Qed.

Lemma close_kept i l h a :
  keys_sorted (insert_sorted i l) -> kept_active l a = a ->
  let a' := activate (ki_generation i) h a in kept_active (insert_sorted i l) a' = a'.
Proof.
  intros Hs Hk a'. destruct (insert_sorted i l) as [|first l'] eqn:Ei.
  { destruct l; cbn in Ei; [done|]. by destruct (key_ltb _ _). }
  assert (forall j, j ∈ first :: l' -> ki_generation first <= ki_generation j) as Hf.
  { intros j. by apply (sorted_front (first :: l') first l'). }
  cbn. apply filter_id, minsert_Forall.
  - cbn. apply Hf. rewrite <- Ei. apply insert_sorted_elem. by left.
  - destruct l as [|x l]; cbn in Hk; [subst a; constructor|]. apply filter_id in Hk.
    eapply Forall_impl; [apply Hk|]. cbn. intros e He.
    assert (ki_generation first <= ki_generation x); [|lia]. apply Hf. rewrite <- Ei.
    apply insert_sorted_elem. right. by left.
Qed.

(** [insert_key] on compatible keys. *)
Definition known_key (k : Keys) (i : key_info) : bool := bool_decide (key_id i ∈ key_id <$> keys_ k).
Definition insert_close (k : Keys) (h : bytes) (i : key_info) : Keys :=
  set_key_list k (if known_key k i then keys_ k else insert_sorted i (keys_ k))
    (activate (ki_generation i) h (active_msgs_ k)) (needs_dump_ k || negb (known_key k i)).

Definition within (u : list key_info) (k : Keys) : Prop := keys_wf k /\ forall j, j ∈ keys_ k -> j ∈ u.

Lemma insert_close_spec u k h i :
  compatible u -> within u k -> i ∈ u ->
  insert_key k h i = Ok (insert_close k h i) /\ within u (insert_close k h i).
Proof.
  intros Hu [Hw Hk] Hi. assert (key_ok i) as Hok.
  { destruct Hu as [Hf _]. rewrite Forall_forall in Hf. auto. }
  rewrite insert_key_spec by done.
  assert (insert_spec k h i = insert_close k h i) as He.
  { unfold insert_spec, insert_close, known_key. destruct (decide (key_id i ∈ key_id <$> keys_ k)) as [Hin|Hin].
    - rewrite bool_decide_eq_true_2 by done. by rewrite orb_false_r.
    - rewrite bool_decide_eq_false_2 by done. rewrite orb_true_r. erewrite close_stale by done. erewrite (close_unexpired u).
      + rewrite close_kept; [done| |apply Hw]. apply insert_sorted_sorted; [apply Hw|by apply not_id_not_elem].
      + done.
      + intros j [->|?]%insert_sorted_elem; auto. }
  rewrite <- He. split; [done|]. split; [by apply insert_spec_wf|].
  intros j [->|?]%insert_spec_incl; auto.
Qed.

Lemma activate_find g h a g' :
  mfind g' (activate g h a) =
  if keqb g' g then Some (sinsert h (value_or (mfind g a) [])) else mfind g' a.
Proof. apply mfind_minsert. Qed.

Lemma active_set_sorted g (a : list (Z * list bytes)) :
  Forall (fun e => ssorted e.2) a -> ssorted (value_or (mfind g a) []).
Proof.
  intros Hf. destruct (mfind g a) as [s|] eqn:E; cbn; [|constructor]. apply mfind_In in E.
  rewrite Forall_forall in Hf. by apply Hf in E.
Qed.

Lemma sinsert_comm {A} `{Ordered A} (x y : A) s :
  ssorted s -> sinsert x (sinsert y s) = sinsert y (sinsert x s).
Proof.
  intros Hs. apply sext; [by do 2 apply ssorted_sinsert..|]. intros z. rewrite !sinsert_In. naive_solver.
Qed.

Lemma activate_comm g1 h1 g2 h2 a :
  msorted a -> Forall (fun e => ssorted e.2) a ->
  activate g1 h1 (activate g2 h2 a) = activate g2 h2 (activate g1 h1 a).
Proof.
  intros Hm Hf. apply mext; [by do 2 apply activate_sorted..|]. intros g. rewrite !activate_find.
  destruct (keqb_spec g g1) as [E1|H1], (keqb_spec g g2) as [E2|H2]; try done.
  - subst. rewrite !keqb_refl. cbn. f_equal. apply sinsert_comm. by apply active_set_sorted.
  - subst. by rewrite (proj2 (keqb_neq g1 g2)).
  - subst. by rewrite (proj2 (keqb_neq g2 g1)).
Qed.

Definition insert_all_keys (k : Keys) (l : list (bytes * key_info)) : res Keys :=
  foldM (fun k hi => insert_key k hi.1 hi.2) k l.

(** The new keys, each with the time it had when it first arrived. *)
Definition fresh_keys (k : Keys) (l : list key_info) : list key_info :=
  filter (fun j => key_id j ∉ key_id <$> keys_ k) (first_arrivals l).
Definition activate_all (l : list (bytes * key_info)) (a : list (Z * list bytes)) : list (Z * list bytes) :=
  foldl (fun a hi => activate (ki_generation hi.2) hi.1 a) a l.

Lemma fresh_keys_cons k h i l :
  keys_ k ++ fresh_keys k (i :: l) ≡ₚ keys_ (insert_close k h i) ++ fresh_keys (insert_close k h i) l.
Proof.
  unfold fresh_keys, insert_close, known_key. cbn [first_arrivals keys_ set_key_list]. case_bool_decide as Hi.
  - f_equiv. rewrite filter_cons_False by (by intros Hn; apply Hn). rewrite list_filter_filter.
    apply reflexive_eq, list_filter_iff. intros j. split; [by intros []|]. intros Hn. split; [done|]. intros E. apply Hn. by rewrite E.
  - rewrite filter_cons_True by done. rewrite insert_sorted_perm. rewrite <- Permutation_middle. cbn [app]. constructor. f_equiv.
    rewrite list_filter_filter. apply reflexive_eq, list_filter_iff. intros j.
    rewrite (insert_sorted_perm i (keys_ k)). cbn [fmap list_fmap]. rewrite not_elem_of_cons. naive_solver.
Qed.

Lemma is_nil_length {A} (l1 l2 : list A) : length l1 = length l2 -> is_nil l1 = is_nil l2.
Proof. by destruct l1, l2. Qed.
Lemma fresh_keys_step k h i l :
  negb (known_key k i) || negb (is_nil (fresh_keys (insert_close k h i) l)) = negb (is_nil (fresh_keys k (i :: l))).
Proof.
  pose proof (Permutation_length (fresh_keys_cons k h i l)) as Hn. rewrite !length_app in Hn.
  replace (keys_ (insert_close k h i)) with (if known_key k i then keys_ k else insert_sorted i (keys_ k)) in Hn by done.
  destruct (known_key k i); cbn [negb orb].
  - f_equal. apply is_nil_length. lia.
  - rewrite insert_sorted_perm in Hn. cbn [length] in Hn. by destruct (fresh_keys k (i :: l)); cbn [length] in Hn; [lia|].
Qed.
(** What inserting compatible keys gives. *)
Lemma insert_all_keys_ok u k l :
  compatible u -> within u k -> (forall hi, hi ∈ l -> hi.2 ∈ u) ->
  exists k', insert_all_keys k l = Ok k' /\ within u k' /\ keys_ k' ≡ₚ keys_ k ++ fresh_keys k l.*2 /\
    k' = set_key_list k (keys_ k') (activate_all l (active_msgs_ k)) (needs_dump_ k || negb (is_nil (fresh_keys k l.*2))).
Proof.
  intros Hu. revert k; induction l as [|[h i] l IH]; intros k Hk Hl.
  { exists k. split_and!; [done|apply Hk..| |]; [by rewrite app_nil_r|]. cbn. rewrite orb_false_r. by destruct k. }
  destruct (insert_close_spec u k h i) as [Hi Hk1]; [done..|by apply (Hl (h, i)); left|].
  destruct (IH _ Hk1) as (k' & He & Hk' & Hp & Eq); [by intros; apply Hl; right|]. exists k'.
  pose proof (fresh_keys_cons k h i l.*2) as Hn. cbn [fmap list_fmap snd] in *.
  split_and!; [by cbn; rewrite Hi|apply Hk'..|by rewrite Hp, Hn|].
  rewrite <- (fresh_keys_step k h i), orb_assoc. exact Eq.
Qed.

Lemma first_arrivals_ids l x : x ∈ key_id <$> first_arrivals l <-> x ∈ key_id <$> l.
Proof.
  induction l as [|i l IH]; [done|]. cbn. rewrite !elem_of_cons, <- IH. split.
  - intros [->|(j & -> & [_ Hj]%list_elem_of_filter)%list_elem_of_fmap]; [by left|right; by apply list_elem_of_fmap_2].
  - intros [->|(j & -> & Hj)%list_elem_of_fmap]; [by left|]. destruct (decide (key_id j = key_id i)) as [->|Hne]; [by left|].
    right. apply list_elem_of_fmap_2, list_elem_of_filter. done.
Qed.
Lemma fresh_keys_ids k l x : x ∈ key_id <$> keys_ k ++ fresh_keys k l <-> x ∈ key_id <$> keys_ k ++ l.
Proof.
  rewrite !fmap_app, !elem_of_app. split; (intros [Hx|Hx]; [by left|]).
  - right. apply list_elem_of_fmap in Hx as (j & -> & [_ Hj]%list_elem_of_filter). by apply first_arrivals_ids, list_elem_of_fmap_2.
  - destruct (decide (x ∈ key_id <$> keys_ k)) as [|Hn]; [by left|]. right. apply first_arrivals_ids in Hx.
    apply list_elem_of_fmap in Hx as (j & -> & Hj). apply list_elem_of_fmap_2, list_elem_of_filter. done.
Qed.
Lemma fresh_keys_nil k l : fresh_keys k l = [] <-> Forall (fun x => x ∈ key_id <$> keys_ k) (key_id <$> l).
Proof.
  rewrite Forall_forall. split.
  - intros E x Hx. pose proof (proj2 (fresh_keys_ids k l x)) as Hi. rewrite E, app_nil_r in Hi. apply Hi.
    rewrite fmap_app. apply elem_of_app. by right.
  - intros Hf. destruct (fresh_keys k l) as [|j rest] eqn:E; [done|]. exfalso.
    assert (Hj : j ∈ fresh_keys k l) by (rewrite E; left). apply list_elem_of_filter in Hj as [Hn Hj]. apply Hn, Hf.
    by apply first_arrivals_ids, list_elem_of_fmap_2.
Qed.

Lemma activate_all_wf l : forall a, msorted a -> Forall (fun e => ssorted e.2) a ->
  msorted (activate_all l a) /\ Forall (fun e => ssorted e.2) (activate_all l a).
Proof.
  induction l as [|hi l IH]; intros a Hm Hf; [done|]. apply IH; [by apply activate_sorted|by apply activate_hashes].
Qed.
Lemma activate_all_perm l1 l2 : l1 ≡ₚ l2 -> forall a, msorted a -> Forall (fun e => ssorted e.2) a ->
  activate_all l1 a = activate_all l2 a.
Proof.
  induction 1 as [|hi l1 l2 _ IH|h1 h2 l|l1 l2 l3 _ IH1 _ IH2]; intros a Hm Hf.
  - done.
  - apply IH; [by apply activate_sorted|by apply activate_hashes].
  - unfold activate_all. cbn [foldl fst snd]. by rewrite activate_comm.
  - by rewrite IH1, IH2.
Qed.

(** Two orders: the same keys but for their times, and the same object if no key has two times. *)
Lemma insert_all_keys_perm u k l1 l2 :
  compatible u -> within u k -> (forall hi, hi ∈ l1 -> hi.2 ∈ u) -> l1 ≡ₚ l2 ->
  exists k1 k2, insert_all_keys k l1 = Ok k1 /\ insert_all_keys k l2 = Ok k2 /\
    keys_ k1 ≡ₚ keys_ k ++ fresh_keys k l1.*2 /\ keys_ k2 ≡ₚ keys_ k ++ fresh_keys k l2.*2 /\
    key_id <$> keys_ k1 ≡ₚ key_id <$> keys_ k2 /\
    k2 = set_key_list k1 (keys_ k2) (active_msgs_ k1) (needs_dump_ k1) /\ (one_time u -> k1 = k2).
Proof.
  intros Hu Hk Hl Hp. destruct (insert_all_keys_ok u k l1 Hu Hk Hl) as (k1 & E1 & [W1 I1] & P1 & Q1).
  destruct (insert_all_keys_ok u k l2 Hu Hk) as (k2 & E2 & [W2 I2] & P2 & Q2); [intros hi; rewrite <- Hp; apply Hl|].
  assert (Hids : key_id <$> keys_ k1 ≡ₚ key_id <$> keys_ k2).
  { apply NoDup_Permutation; [apply W1|apply W2|]. intros x. rewrite P1, P2, !fresh_keys_ids. by rewrite Hp. }
  assert (Hrest : k2 = set_key_list k1 (keys_ k2) (active_msgs_ k1) (needs_dump_ k1)).
  { pose proof (f_equal active_msgs_ Q1) as Qa. pose proof (f_equal needs_dump_ Q1) as Qd. cbn [active_msgs_ needs_dump_ set_key_list] in Qa, Qd.
    assert (Qs : forall x y z, set_key_list k1 x y z = set_key_list k x y z) by (intros; by rewrite Q1).
    rewrite Q2 at 1. rewrite Qs, Qa, Qd. f_equal.
    - symmetry. apply activate_all_perm; [done|apply Hk..].
    - do 2 f_equal. assert (E : fresh_keys k l2.*2 = [] <-> fresh_keys k l1.*2 = []) by (rewrite !fresh_keys_nil; by rewrite Hp).
      destruct (fresh_keys k l1.*2), (fresh_keys k l2.*2); naive_solver. }
  exists k1, k2. split_and!; [done..|]. intros Ho.
  assert (keys_ k1 = keys_ k2) as Ek.
  { apply keys_sorted_ext; [apply W1|apply W2|]. intros j.
    assert (Hg : forall a b, (forall x, x ∈ keys_ a -> x ∈ u) -> (forall x, x ∈ keys_ b -> x ∈ u) ->
      key_id <$> keys_ a ≡ₚ key_id <$> keys_ b -> j ∈ keys_ a -> j ∈ keys_ b).
    { intros a b Ia Ib Hab Hj. assert (Hx : key_id j ∈ key_id <$> keys_ b) by (rewrite <- Hab; by apply list_elem_of_fmap_2).
      apply list_elem_of_fmap in Hx as (j' & Ej & Hj'). by rewrite (Ho j j' (Ia _ Hj) (Ib _ Hj') Ej). }
    split; apply Hg; done. }
  rewrite Hrest, <- Ek. by destruct k1.
Qed.

Lemma next_generation_key_elem l k j :
  next_generation_key l k = Some j -> j ∈ l /\ ki_generation k < ki_generation j.
Proof.
  unfold next_generation_key. intros Hn. apply head_Some in Hn as [l' El].
  assert (j ∈ filter (fun j => ki_generation k < ki_generation j) l) as [? ?]%list_elem_of_filter; [|done].
  rewrite El. by left.
Qed.

(** Keys of the newest generation are never dropped. *)
Lemma unexpired_newest l j :
  j ∈ l -> (forall i, i ∈ l -> ki_generation i <= ki_generation j) -> j ∈ unexpired_keys l.
Proof.
  intros Hj Hn. destruct (unexpired_suffix l) as (l1 & He & Hf). rewrite He in Hj.
  apply elem_of_app in Hj as [Hj|Hj]; [|done]. rewrite Forall_forall in Hf. apply Hf in Hj. unfold obsolete in Hj.
  destruct (next_generation_key l j) as [i|] eqn:E; [|done]. apply next_generation_key_elem in E as [Hi Hlt].
  apply Hn in Hi. lia.
Qed.

Lemma insert_spec_newest k h i j :
  keys_wf k -> j ∈ i :: keys_ k -> (forall x, x ∈ i :: keys_ k -> ki_generation x <= ki_generation j) ->
  key_id j ∈ key_id <$> keys_ (insert_spec k h i).
Proof.
  intros Hw Hj Hn. unfold insert_spec. destruct (decide _) as [Hd|Hd].
  { cbn. apply elem_of_cons in Hj as [->|Hj]; [done|]. by apply list_elem_of_fmap_2. }
  destruct (stale_key i (keys_ k)) eqn:Es.
  - apply elem_of_cons in Hj as [->|Hj]; [|by apply list_elem_of_fmap_2]. exfalso. unfold stale_key in Es.
    destruct (keys_ k) as [|front [|second l]]; try done. destruct (last _); [|done]. bool_prop.
    assert (ki_generation front <= ki_generation i) by (apply Hn; set_solver). lia.
  - cbn. apply list_elem_of_fmap_2, unexpired_newest.
    + by rewrite insert_sorted_perm.
    + intros x. rewrite insert_sorted_perm. apply Hn.
Qed.

(** ** Dumps *)

Abbreviation dcx src pos rest :=
  {| dc_src := src; dc_pos := pos; dc_rest := rest; dc_complete := true |}.

(** A key that is next is found, a smaller one is not. *)
Lemma require_next src pos k e v X :
  dc_require k e (dcx src pos ((k, v) :: X)) = Ok (v, dcx src (S pos) X).
Proof.
  unfold dc_require, dc_skip_until. cbn [dc_rest skip_pairs]. rewrite kltb_refl.
  cbn [dc_src dc_pos dc_complete]. rewrite keqb_refl. cbn. by rewrite Nat.add_0_r.
Qed.

Lemma skip_next src pos k v X :
  dc_skip_until k (dcx src pos ((k, v) :: X)) = Ok (true, dcx src pos ((k, v) :: X)).
Proof.
  unfold dc_skip_until. cbn [dc_rest skip_pairs]. rewrite kltb_refl.
  cbn [dc_src dc_pos dc_complete]. rewrite keqb_refl. by rewrite Nat.add_0_r.
Qed.

Lemma next_next src pos k v X : dc_next (dcx src pos ((k, v) :: X)) = Ok (k, v, dcx src (S pos) X).
Proof. done. Qed.

Lemma skip_smaller src pos k k' v X :
  k ≺ k' -> dc_skip_until k (dcx src pos ((k', v) :: X)) = Ok (false, dcx src pos ((k', v) :: X)).
Proof.
  intros Hk. unfold dc_skip_until. cbn [dc_rest skip_pairs].
  rewrite (proj2 (kltb_nlt k' k)) by (by apply klt_asym).
  cbn [dc_src dc_pos dc_complete]. rewrite (proj2 (keqb_neq k' k)) by (by apply not_eq_sym, klt_neq).
  by rewrite Nat.add_0_r.
Qed.

Lemma skip_end src pos k :
  dc_skip_until k (dcx src pos []) = Ok (false, dcx src pos []).
Proof. unfold dc_skip_until. cbn. by rewrite Nat.add_0_r. Qed.

Lemma take_key_next k e v X : take_key k e ((k, v) :: X) = Ok (v, X).
Proof. unfold take_key. cbn [skip_pairs]. rewrite kltb_refl. cbn [snd]. by rewrite keqb_refl. Qed.

Lemma load_key_dict_ok k : key_ok k -> load_key_dict (key_dict k) = Ok k.
Proof.
  intros (Hs & Hg & Ht). unfold load_key_dict, key_dict. cbn [as_dict mbind res_bind].
  rewrite take_key_next. cbn [as_int64]. rewrite Hg. cbn [mbind res_bind]. rewrite take_key_next.
  cbn [as_string mbind res_bind]. rewrite Hs. cbn [Z.eqb Pos.eqb negb throw_if mbind res_bind].
  rewrite take_key_next. cbn [as_int64].
  assert (in_int64 (ki_timestamp k) = true) as ->.
  { unfold time_ok, in_int64, TICKS_PER_MS, INT64_MIN, INT64_MAX in *. bool_prop.
    apply andb_true_iff. rewrite !Z.leb_le. lia. }
  cbn [mbind res_bind]. rewrite time_ok_load by done. cbn. by destruct k.
Qed.

Lemma key_dict_wf k : key_ok k -> bt_wf (key_dict k).
Proof.
  intros (Hs & Hg & Ht). apply bt_wf_BDict. split; [repeat constructor|].
  assert (in_int64 (ki_timestamp k) = true).
  { unfold time_ok, in_int64, TICKS_PER_MS, INT64_MIN, INT64_MAX in *. bool_prop.
    apply andb_true_iff. rewrite !Z.leb_le. lia. }
  repeat constructor; by apply int64_bt.
Qed.

Lemma append_keys acc l :
  Forall key_ok l -> keys_sorted (acc ++ l) -> foldM append_key acc (key_dict <$> l) = Ok (acc ++ l).
Proof.
  intros Hf. revert acc. induction Hf as [|k l Hk _ IH]; intros acc Hs; cbn [fmap list_fmap foldM].
  { by rewrite app_nil_r. }
  assert (append_key acc (key_dict k) = Ok (acc ++ [k])) as ->.
  { unfold append_key. rewrite load_key_dict_ok by done. cbn [mbind res_bind].
    destruct (last acc) as [p|] eqn:E; [|done].
    assert (key_ltb p k = true) as ->; [|done]. apply kltb_lt. apply last_Some in E as [l' ->].
    eapply (StronglySorted_app_1_elem_of key_lt); [apply Hs| |by left]. apply elem_of_app. right. by left. }
  cbn [mbind res_bind]. unfold fmap in IH. rewrite IH; by rewrite <- app_assoc.
Qed.

Lemma load_hash_list acc l :
  ssorted (acc ++ l) -> foldM (fun hs v => h ← as_string v; Ok (sinsert h hs)) acc (BStr <$> l) = Ok (acc ++ l).
Proof.
  revert acc. induction l as [|h l IH]; intros acc Hs; cbn [fmap list_fmap foldM]; [by rewrite app_nil_r|].
  cbn [as_string mbind res_bind]. rewrite sinsert_last.
  - unfold fmap in IH. rewrite IH; by rewrite <- app_assoc.
  - apply Forall_forall. intros x Hx. eapply (StronglySorted_app_1_elem_of klt); [apply Hs|done|by left].
Qed.

Lemma load_actives acc l :
  Forall (fun e => in_int64 e.1 = true /\ ssorted e.2) l -> msorted (acc ++ l) ->
  foldM load_active acc (dump_active <$> l) = Ok (acc ++ l).
Proof.
  intros Hf. revert acc. induction Hf as [|[g hs] l [Hg Hh] _ IH]; intros acc Hs; cbn [fmap list_fmap foldM].
  { by rewrite app_nil_r. }
  pose proof Hs as Hs2. apply msorted_app in Hs2 as (_ & _ & Hlt).
  assert (Forall (fun p => p.1 ≺ g) acc) as Hacc.
  { apply Forall_forall. intros p Hp. apply (Hlt p (g, hs) Hp). by left. }
  assert (load_active acc (dump_active (g, hs)) = Ok (acc ++ [(g, hs)])) as ->.
  { unfold load_active, dump_active. cbn [as_list mbind res_bind fst snd as_int64]. cbn [fst] in Hg.
    rewrite Hg. cbn [mbind res_bind]. assert (mfind g acc = None) as ->.
    { destruct (mfind g acc) eqn:E; [|done]. apply mfind_In in E. rewrite Forall_forall in Hacc.
      by apply Hacc, klt_irrefl in E. }
    cbn [value_or]. rewrite (load_hash_list []) by done. cbn [mbind res_bind app]. by rewrite minsert_last. }
  cbn [mbind res_bind]. unfold fmap in IH. rewrite IH; by rewrite <- app_assoc.
Qed.

Record keys_dumpable (k : Keys) : Prop := {
  kd_wf : keys_wf k;
  kd_active : Forall (fun e => in_int64 e.1 = true) (active_msgs_ k);
  kd_pending : has_pending k = true -> size_of (pending_key_ k) = 32 /\ in_int64 (pending_gen_ k) = true
}.

Section WithLibraries.
Context `{Oxenc}.

Definition dump_pairs (k : Keys) : bt_dict :=
  [(bs "A", BList (dump_active <$> active_msgs_ k)); (bs "L", BList (key_dict <$> keys_ k))] ++
  if has_pending k
  then [(bs "P", BDict [(bs "c", BStr (pending_key_config_ k)); (bs "g", BInt (pending_gen_ k));
                        (bs "k", BStr (pending_key_ k))])]
  else [].

Lemma dump_pairs_wf k : keys_dumpable k -> bt_wf_dict (dump_pairs k).
Proof.
  intros Hk. unfold dump_pairs. split; [destruct (has_pending k); repeat constructor|].
  apply Forall_app. split.
  - apply Forall_cons; split; [|apply Forall_singleton]; cbn [snd]; apply bt_wf_BList, Forall_fmap.
    + eapply Forall_impl; [apply (kd_active _ Hk)|]. intros [g hs] Hg. unfold dump_active. cbn.
      split; [by apply int64_bt|]. clear. induction hs; cbn; auto.
    + eapply Forall_impl; [apply (kd_wf _ Hk)|]. apply key_dict_wf.
  - destruct (has_pending k) eqn:E; [|constructor]. apply (kd_pending _ Hk) in E as [_ Hg].
    apply Forall_singleton. cbn [snd]. apply bt_wf_BDict. split; [repeat constructor|].
    repeat constructor; by apply int64_bt.
Qed.

(** What a fresh object is after loading the dump. *)
Definition restored (k0 k : Keys) : Keys :=
  let k1 := set_key_list k0 (keys_ k) (active_msgs_ k) (needs_dump_ k0) in
  if has_pending k then set_pending k1 (pending_key_ k) (pending_key_config_ k) (pending_gen_ k) (needs_dump_ k0)
  else k1.

Lemma load_make_dump k0 k :
  keys_ k0 = [] -> active_msgs_ k0 = [] -> keys_dumpable k ->
  keys_load_dump k0 (keys_make_dump k) = Ok (restored k0 k).
Proof.
  intros Hk0 Ha0 Hk. unfold keys_load_dump, keys_make_dump. fold (dump_pairs k).
  unfold dc_open. rewrite <- (app_nil_r (bt_dict_print _)).
  rewrite bt_dict_parse_print by (by apply dump_pairs_wf). cbn [mbind res_bind].
  unfold dump_pairs. cbn [app]. rewrite require_next. cbn [as_list mbind res_bind].
  rewrite Ha0, (load_actives []).
  2: { apply Forall_and. split; [apply Hk|apply (kd_wf _ Hk)]. }
  2: { apply (kd_wf _ Hk). }
  cbn [mbind res_bind]. rewrite require_next. cbn [as_list mbind res_bind app].
  rewrite Hk0, (append_keys []) by apply (kd_wf _ Hk). cbn [mbind res_bind app].
  unfold restored. destruct (has_pending k) eqn:Ep; [|by rewrite skip_end].
  rewrite skip_next. cbn [dc_next dc_rest as_dict mbind res_bind]. rewrite take_key_next.
  cbn [as_string mbind res_bind]. rewrite take_key_next. apply (kd_pending _ Hk) in Ep as [Hs Hg].
  cbn [as_int64]. rewrite Hg. cbn [mbind res_bind]. rewrite take_key_next. cbn [as_string mbind res_bind].
  by rewrite Hs.
Qed.
End WithLibraries.
