(* ===== verification/MultiFacts.v ===== *)
(** * Facts about encryption for several recipients *)
From S2P Require Import Prelude OMap BtValue ThirdParty ConfigData ConfigParse Encrypt Protos ConfigBase.
From S2P Require Import Multipart SessionEncrypt MessageFacts MultiEncrypt GroupKeys GroupKeysFacts.

(** ** The ciphertexts a callback goes through *)

Inductive stream {St} (next : St -> res (option bytes * St)) : St -> list bytes -> St -> Prop :=
| stream_end st st' : next st = Ok (None, st') -> stream next st [] st'
| stream_next st c st1 cs st' :
    next st = Ok (Some c, st1) -> stream next st1 cs st' -> stream next st (c :: cs) st'.

Section WithSodium.
Context `{Oxenc} `{X25519} `{Aead}.

(** Both sides of an encryption derive the same key. *)
Lemma multi_key_agree a b domain :
  encrypt_multi_key a (scalarmult_base a) (scalarmult_base b) true domain =
  encrypt_multi_key b (scalarmult_base b) (scalarmult_base a) false domain.
Proof. unfold encrypt_multi_key. by rewrite x_scalarmult_comm. Qed.

Lemma multi_key_ok a A b encrypting domain :
  exists key, encrypt_multi_key a A (scalarmult_base b) encrypting domain = Ok key.
Proof.
  unfold encrypt_multi_key. destruct (x_scalarmult_base a b) as [buf ->].
  destruct encrypting; by eexists.
Qed.

Lemma decrypt_encrypt_impl m key nonce :
  decrypt_multi_impl (encrypt_multi_impl m key nonce) key nonce = Some m.
Proof.
  unfold decrypt_multi_impl, encrypt_multi_impl. rewrite aead_encrypt_size.
  pose proof (size_of_nonneg m). replace (_ <? _) with false by lia. apply aead_decrypt_encrypt.
Qed.

(** The first ciphertext that opens. *)
Definition first_opened (key nonce : bytes) (cs : list bytes) : option bytes :=
  head (omap (fun c => decrypt_multi_impl c key nonce) cs).

Lemma first_opened_cons key nonce c cs :
  first_opened key nonce (c :: cs) =
  match decrypt_multi_impl c key nonce with Some m => Some m | None => first_opened key nonce cs end.
Proof. unfold first_opened. cbn. by destruct (decrypt_multi_impl c key nonce). Qed.

(** No ciphertext opens to anything but [m]. *)
Definition opens_only (key nonce : bytes) (cs : list bytes) (m : bytes) : Prop :=
  forall c p, c ∈ cs -> decrypt_multi_impl c key nonce = Some p -> p = m.

Lemma first_opened_unique key nonce cs c m :
  c ∈ cs -> decrypt_multi_impl c key nonce = Some m -> opens_only key nonce cs m ->
  first_opened key nonce cs = Some m.
Proof.
  intros Hc Hd Ho. induction cs as [|c' cs IH]; [by apply not_elem_of_nil in Hc|].
  rewrite first_opened_cons. destruct (decrypt_multi_impl c' key nonce) as [p|] eqn:E.
  - f_equal. apply (Ho c'); [by left|done].
  - apply elem_of_cons in Hc as [->|Hc]; [congruence|]. apply IH; [done|]. intros c2 p Hc2. apply Ho. by right.
Qed.

Lemma first_opened_none key nonce cs :
  (forall c, c ∈ cs -> decrypt_multi_impl c key nonce = None) -> first_opened key nonce cs = None.
Proof.
  induction cs as [|c cs IH]; intros Hn; [done|]. rewrite first_opened_cons, Hn by (by left).
  apply IH. intros c2 Hc2. apply Hn. by right.
Qed.

Lemma decrypt_loop_stream {St} (next : St -> res (option bytes * St)) fuel st cs st' nonce key :
  stream next st cs st' -> (length cs < fuel)%nat ->
  exists st2 rest, decrypt_loop next fuel st nonce key = Ok (first_opened key nonce cs, st2) /\
    (first_opened key nonce cs = None -> st2 = st') /\
    (is_Some (first_opened key nonce cs) -> stream next st2 rest st').
Proof.
  intros Hs. revert fuel. induction Hs as [st st' Hn|st c st1 cs st' Hn Hs IH]; intros fuel Hf;
    (destruct fuel as [|fuel]; [cbn in Hf; lia|]); cbn [decrypt_loop]; rewrite Hn.
  - exists st', []. split_and!; [done..|]. by intros [].
  - rewrite first_opened_cons. destruct (decrypt_multi_impl c key nonce) as [m|] eqn:E.
    + by exists st1, cs.
    + apply IH. cbn in Hf. lia.
Qed.

(** ** Encryption *)

Definition recipient_ciphertext (m nonce privkey pubkey domain r : bytes) : option bytes :=
  match encrypt_multi_key privkey pubkey r true domain with
  | Ok key => Some (encrypt_multi_impl m key nonce)
  | Throw _ => None
  end.

Lemma encrypt_each_single m rs nonce privkey pubkey domain :
  encrypt_each true [m] rs nonce privkey pubkey domain true =
    Ok (omap (recipient_ciphertext m nonce privkey pubkey domain) rs).
Proof.
  induction rs as [|r rs IH]; [done|]. cbn [encrypt_each]. rewrite IH. cbn. unfold recipient_ciphertext.
  by destruct (encrypt_multi_key privkey pubkey r true domain).
Qed.

Lemma encrypt_each_lookup single ms rs nonce privkey pubkey domain cs i m r key :
  encrypt_each single ms rs nonce privkey pubkey domain false = Ok cs ->
  (if single then ms !! 0%nat else ms !! i) = Some m -> rs !! i = Some r ->
  encrypt_multi_key privkey pubkey r true domain = Ok key ->
  cs !! i = Some (encrypt_multi_impl m key nonce).
Proof.
  revert ms cs i. induction rs as [|r' rs IH]; intros ms cs i He Hm Hr Hk; [done|].
  cbn [encrypt_each] in He. destruct ms as [|m' ms]; [done|].
  destruct (encrypt_multi_key privkey pubkey r' true domain) as [key'|] eqn:Ek; [|done].
  res_step He. injection He as <-. destruct i as [|i].
  - cbn in Hr. injection Hr as ->. rewrite Hk in Ek. injection Ek as <-. cbn. do 2 f_equal.
    destruct single; cbn in Hm; congruence.
  - cbn. eapply IH; [apply E| |done|done]. by destruct single.
Qed.

Lemma fields_ok nonce privkey pubkey :
  size_of nonce = 24 -> size_of privkey = 32 -> size_of pubkey = 32 ->
  validate_multi_fields nonce privkey pubkey = Ok tt.
Proof. unfold validate_multi_fields. by intros -> -> ->. Qed.

Lemma encrypt_for_multiple_single m rs nonce privkey pubkey domain :
  size_of nonce = 24 -> size_of privkey = 32 -> size_of pubkey = 32 ->
  Forall (fun r => size_of r = 32) rs ->
  encrypt_for_multiple [m] rs nonce privkey pubkey domain true =
    Ok (omap (recipient_ciphertext m nonce privkey pubkey domain) rs).
Proof.
  intros Hn Hs Hp Hr. unfold encrypt_for_multiple. rewrite fields_ok by done. cbn [mbind res_bind].
  assert (existsb (fun r => negb (size_of r =? 32)) rs = false) as ->.
  { induction Hr as [|r rs Hr _ IH]; [done|]. cbn. rewrite Hr. cbn. apply IH. }
  cbn [throw_if mbind res_bind length Nat.eqb negb andb]. apply encrypt_each_single.
Qed.

(** ** The encoded form *)

Lemma stream_bt_list es : stream next_of_bt_list (BStr <$> es) es [].
Proof. induction es as [|e es IH]; [by constructor|]. by econstructor. Qed.

Lemma stream_list es : stream next_of_list es es [].
Proof. induction es as [|e es IH]; [by constructor|]. by econstructor. Qed.

Definition multi_pairs (nonce : bytes) (es : list bytes) : bt_dict :=
  [(bs "#", BStr nonce); (bs "e", BList (BStr <$> es))].

Lemma multi_pairs_wf nonce es : bt_wf_dict (multi_pairs nonce es).
Proof.
  split; [repeat constructor|]. apply Forall_cons; split; [done|]. apply Forall_singleton.
  apply bt_wf_BList, Forall_fmap, Forall_true. done.
Qed.

Lemma decrypt_simple_spec nonce es b A domain key :
  size_of nonce = 24 -> size_of b = 32 -> size_of A = 32 ->
  encrypt_multi_key b (scalarmult_base b) A false domain = Ok key ->
  decrypt_for_multiple_simple (bt_dict_print (multi_pairs nonce es)) b (scalarmult_base b) A domain =
    Ok (first_opened key nonce es).
Proof.
  intros Hn Hb HA Hk. unfold decrypt_for_multiple_simple, dc_open.
  rewrite <- (app_nil_r (bt_dict_print _)), bt_dict_parse_print by apply multi_pairs_wf.
  unfold multi_pairs. cbn [mbind res_bind]. rewrite require_next. cbn [as_string mbind res_bind]. rewrite Hn.
  cbn [Z.eqb Pos.eqb negb]. rewrite require_next. cbn [as_list mbind res_bind].
  unfold decrypt_for_multiple. rewrite fields_ok by (try done; apply scalarmult_base_size).
  rewrite HA. cbn [Z.eqb Pos.eqb negb throw_if mbind res_bind]. rewrite Hk. cbn [mbind res_bind].
  destruct (decrypt_loop_stream next_of_bt_list (S (length (BStr <$> es))) (BStr <$> es) es [] nonce key)
    as (st2 & rest & -> & _); [apply stream_bt_list|rewrite length_fmap; lia|]. done.
Qed.

(** Every recipient finds the own message, provided nothing else opens under the recipient's key. *)
Lemma multi_simple_ok a b ms rs domain nonce pad rn random out i m :
  size_of a = 32 -> size_of b = 32 ->
  encrypt_for_multiple_simple ms rs a (scalarmult_base a) domain (Some nonce) pad rn random = Ok out ->
  (if (length ms =? 1)%nat then ms !! 0%nat else ms !! i) = Some m -> rs !! i = Some (scalarmult_base b) ->
  exists cs key, encrypt_for_multiple ms rs nonce a (scalarmult_base a) domain false = Ok cs /\
    encrypt_multi_key b (scalarmult_base b) (scalarmult_base a) false domain = Ok key /\
    (opens_only key nonce (cs ++ junk_entries ms pad (size_of cs) random) m ->
     decrypt_for_multiple_simple out b (scalarmult_base b) (scalarmult_base a) domain = Ok (Some m)).
Proof.
  intros Ha Hb He Hm Hr. unfold encrypt_for_multiple_simple in He.
  destruct (Z.eqb_spec (size_of nonce) 24) as [Hn|]; [|done]. cbn [mbind res_bind] in He.
  destruct (encrypt_for_multiple _ _ _ _ _ _ _) as [cs|] eqn:Ec; [|done]. cbn [mbind res_bind] in He.
  set (es := cs ++ _) in He. injection He as <-.
  destruct (multi_key_ok b (scalarmult_base b) a false domain) as [key Hk]. exists cs, key.
  split; [done|]. split; [done|]. intros Ho.
  change (decrypt_for_multiple_simple (bt_dict_print (multi_pairs nonce es)) b (scalarmult_base b)
            (scalarmult_base a) domain = Ok (Some m)).
  rewrite (decrypt_simple_spec _ _ _ _ _ key) by (try done; apply scalarmult_base_size). f_equal.
  apply (first_opened_unique _ _ _ (encrypt_multi_impl m key nonce)); [|apply decrypt_encrypt_impl|done].
  apply elem_of_app. left. unfold encrypt_for_multiple in Ec. rewrite fields_ok in Ec by (try done; apply scalarmult_base_size).
  cbn [mbind res_bind] in Ec. res_step Ec. res_step Ec. cbn [mbind res_bind] in Ec.
  eapply list_elem_of_lookup_2, encrypt_each_lookup; [apply Ec|done|done|]. by rewrite multi_key_agree.
Qed.

(** The overload for Ed25519 keys never makes up a nonce: with its default argument it throws. *)
Lemma multi_default_nonce ms rs sk domain pad rn random :
  size_of sk = 64 -> is_Some (ed_pk_to_curve25519 (drop 32 sk)) ->
  encrypt_for_multiple_simple_ed ms rs sk domain [] pad rn random = Throw InvalidArgument.
Proof. intros Hs [x Hx]. unfold encrypt_for_multiple_simple_ed, x_keys. rewrite Hs, Hx. done. Qed.

(** Junk entries have the size of a message, the real ones are longer by the overhead. *)
Lemma multi_junk_sizes m ms rs nonce privkey pubkey domain cs pad (random : nat -> Z -> bytes) :
  (forall i n, 0 <= n -> size_of (random i n) = n) ->
  encrypt_for_multiple [m] rs nonce privkey pubkey domain false = Ok cs ->
  Forall (fun c => size_of c = size_of m + XCHACHA_ABYTES) cs /\
  Forall (fun j => size_of j = size_of m) (junk_entries (m :: ms) pad (size_of cs) random).
Proof.
  intros Hr He. split.
  - unfold encrypt_for_multiple in He. repeat res_step He. clear -He. revert cs He.
    induction rs as [|r rs IH]; intros cs He; cbn [encrypt_each] in He; [by injection He as <-|].
    destruct (encrypt_multi_key _ _ _ _ _); [|done]. res_step He. injection He as <-. constructor; [|by apply IH].
    unfold encrypt_multi_impl. apply aead_encrypt_size.
  - unfold junk_entries. pose proof (size_of_nonneg m). destruct (1 <? pad); [|constructor].
    destruct (size_of m =? 0); [constructor|]. apply Forall_fmap, Forall_true. intros i. cbn. by apply Hr.
Qed.
End WithSodium.
