(* ===== verification/GroupMessages.v ===== *)
(** * Messages of a group

    The messages of [src/config/groups/keys.cpp]: [rekey] and [key_supplement] distribute keys,
    [load_key_message] reads them, [encrypt_message] and [decrypt_message] use them. *)
From S2P Require Import Prelude OMap Util Internal BtValue ThirdParty Bencode ConfigData ConfigParse.
From S2P Require Import ConfigMessage Encrypt SessionEncrypt Protos ConfigBase Multipart BaseSync.
From S2P Require Import MultiEncrypt DictField UserProfileConfig ContactsConfig GroupMembers GroupKeys.

Definition MESSAGE_KEY_MULTIPLE : Z := 45.
Definition MAX_PLAINTEXT_MESSAGE_SIZE : Z := 1000000.
Definition seed_hash_key : bytes := "SessionGroupKeySeed".
Definition enc_key_hash_key : bytes := "SessionGroupKeyGen".
Definition enc_key_admin_hash_key : bytes := "SessionGroupKeyAdminKey".
Definition enc_key_member_hash_key : bytes := "SessionGroupKeyMemberKey".
Definition junk_seed_hash_key : bytes := "SessionGroupJunkMembers".

(** [std::to_string] of an [int64_t] *)
Definition to_string (z : Z) : bytes := print_int z.

(** Cutting junk into entries of [n] bytes; [n] entries are asked for, so [count] is exact. *)
Fixpoint chunks (count n : nat) (data : bytes) : list bytes :=
  match count with
  | O => []
  | S count => take n data :: chunks count n (drop n data)
  end.

Section WithLibraries.
Context `{Oxenc} `{X25519} `{Aead} `{Zstd} `{Protobuf} `{TextEncodings} `{Randombytes}.

Definition compute_xpk (ed25519_pk : bytes) : res bytes :=
  match ed_pk_to_curve25519 ed25519_pk with Some x => Ok x | None => Throw RuntimeError end.

(** [Keys::sign] *)
Definition keys_sign (k : Keys) (data : bytes) : res bytes :=
  match signer_ k with
  | None => Throw RuntimeError  (* std::bad_function_call *)
  | Some f => let sig := f data in
              _ ← throw_if (negb (size_of sig =? 64)) LogicError; Ok sig
  end.

(** [d.append_signature("~", sign)] and the finished dict. *)
Definition sign_dict (k : Keys) (d : bt_dict) : res bytes :=
  sig ← keys_sign k (bt_dict_open d);
  Ok (bt_dict_print (d ++ [(bs "~", BStr sig)])).

(** ** Issuing keys *)

Definition sid_pks (sids : list bytes) : res (list bytes) :=
  foldM (fun l sid => pk ← session_id_pk sid "05"; Ok (l ++ [pk])) [] sids.

(** The junk that fills the member keys up to a multiple of [MESSAGE_KEY_MULTIPLE]. *)
Definition junk_member_keys (member_count : Z) (h1 sk : bytes) : list bytes :=
  if member_count mod MESSAGE_KEY_MULTIPLE =? 0 then []
  else
    let n_junk := MESSAGE_KEY_MULTIPLE - member_count mod MESSAGE_KEY_MULTIPLE in
    let rng_seed := generichash 32 junk_seed_hash_key (h1 ++ sk) in
    chunks (Z.to_nat n_junk) 48 (randombytes_deterministic (48 * n_junk) rng_seed).

(** [keys_.empty() ? 0 : keys_.back().generation + 1] *)
Definition next_generation (k : Keys) : res Z :=
  match last (keys_ k) with None => Ok 0 | Some i => int64_add (ki_generation i) 1 end.

(** [H1(members || generation || H2(seed))] of [rekey]. *)
Definition rekey_hash (sids : list bytes) (gen : Z) (h2 : bytes) : bytes :=
  generichash 56 enc_key_hash_key (concat sids ++ to_string gen ++ h2).

(** The new generation and key, and the message that carries them, without its signature. *)
Definition rekey_body (k : Keys) (ms : Members) : res (Z * bytes * bt_dict) :=
  match sig_sk k, sig_pk k with
  | Some sk, Some pk =>
      group_xpk ← compute_xpk pk;
      let group_xsk := ed_sk_to_curve25519 sk in
      h2 ← keys_seed_hash k seed_hash_key;
      mems ← members_list ms;
      let sids := mem_session_id <$> mems in
      gen ← next_generation k;
      let h1 := rekey_hash sids gen h2 in
      let enc_key := take 32 h1 in
      let nonce := take 24 (drop 32 h1) in
      member_k ← keys_seed_hash k enc_key_admin_hash_key;
      let encrypted := aead_encrypt enc_key nonce member_k in
      member_xpks ← sid_pks sids;
      cs ← encrypt_for_multiple [enc_key] member_xpks nonce group_xsk group_xpk
             enc_key_member_hash_key true;
      Ok (gen, enc_key,
          [(bs "#", BStr nonce); (bs "G", BInt gen); (bs "K", BStr encrypted);
           (bs "k", BList (BStr <$> (cs ++ junk_member_keys (size_of cs) h1 sk)))])
  | _, _ => Throw LogicError
  end.

(** [Keys::rekey(info, members)]: (the message, the object, info and members). *)
Definition rekey (k : Keys) (g : group_configs) : res (bytes * Keys * group_configs) :=
  let! (gen, enc_key, body) := rekey_body k (members g) in
  conf ← sign_dict k body;
  let k := set_pending k enc_key conf gen (needs_dump_ k) in
  g ← replace_group_keys g (group_keys k) true;
  Ok (conf, set_pending k enc_key conf gen true, g).

(** [Keys::key_supplement(sids)] *)
Definition key_supplement (k : Keys) (sids : list bytes) : res bytes :=
  match sig_sk k, sig_pk k with
  | Some sk, Some pk =>
      match last (keys_ k) with
      | None => Throw LogicError
      | Some back =>
          group_xpk ← compute_xpk pk;
          let group_xsk := ed_sk_to_curve25519 sk in
          let supp_keys := bt_list_print (key_dict <$> keys_ k) in
          h2 ← keys_seed_hash k seed_hash_key;
          let nonce := generichash 24 enc_key_hash_key (concat sids ++ supp_keys ++ h2) in
          member_xpks ← sid_pks sids;
          cs ← encrypt_for_multiple [supp_keys] member_xpks nonce group_xsk group_xpk
                 enc_key_member_hash_key true;
          _ ← throw_if (is_nil cs) RuntimeError;
          sign_dict k [(bs "#", BStr nonce); (bs "+", BList (BStr <$> cs));
                       (bs "G", BInt (ki_generation back))]
      end
  | _, _ => Throw LogicError
  end.

(** ** Loading keys *)

(** The callback [next_ciphertext] over the list of encrypted keys: checks the size of every
    entry and returns the next one, or goes on to the end if there is nothing to look for. *)
Fixpoint next_ciphertext (valid : Z -> bool) (skip : bool) (pos : Z) (l : bt_list) :
    res (option bytes * (Z * bt_list)) :=
  match l with
  | [] => Ok (None, (pos, []))
  | v :: l' =>
      s ← as_string v;
      _ ← throw_if (negb (valid (size_of s))) ConfigValueError;
      if skip then next_ciphertext valid skip (pos + 1) l' else Ok (Some s, (pos + 1, l'))
  end.

(** Looking for one's own entry, then [while (next_ciphertext()) {}], which checks what is left
    (whether or not the entries are returned).  Returns the plaintext and, given its use
    [on_plaintext] in between, the position reached. *)
Definition find_own_entry {A} (valid : Z -> bool) (skip : bool) (l : bt_list)
    (nonce xsk xpk group_xpk : bytes) (on_plaintext : option bytes -> res A) : res (A * Z) :=
  let! (plaintext, (pos, rest)) :=
    decrypt_for_multiple (fun st => next_ciphertext valid skip st.1 st.2) (S (length l)) (-1, l)
      nonce xsk xpk group_xpk enc_key_member_hash_key in
  a ← on_plaintext plaintext;
  let! (_, (pos, _)) := next_ciphertext valid true pos rest in
  Ok (a, pos).

(** The key infos of a supplement. *)
Definition load_key_list (plaintext : option bytes) : res (list key_info) :=
  match plaintext with
  | None => Ok []
  | Some p =>
      match bt_list_parse p with
      | None => Throw BtInvalid
      | Some (infos, complete) =>
          ks ← foldM (fun ks v => i ← load_key_dict v; Ok (ks ++ [i])) [] infos;
          _ ← throw_if (negb complete) BtInvalid; Ok ks
      end
  end.

(** A supplemental message: (new keys, max_gen, the consumer). *)
Definition load_supplement (k : Keys) (nonce xsk xpk group_xpk : bytes) (d : dict_consumer) :
    res (list key_info * option Z * dict_consumer) :=
  let! (_, v, d) := dc_next d in
  supp ← as_list v;
  let! (ks, _) := find_own_entry (fun n => 52 + XCHACHA_ABYTES <=? n) (admin k) supp
                    nonce xsk xpk group_xpk load_key_list in
  let! (v, d) := dc_require "G" ConfigValueError d in
  g ← as_int64 v;
  Ok (ks, Some g, d).

(** A full message.  The nonce's size is only asserted before an admin's key is decrypted: a
    shorter one is read past its end. *)
Definition load_full (k : Keys) (timestamp_ms : Z) (nonce xsk xpk group_xpk : bytes)
    (d : dict_consumer) : res (list key_info * option Z * dict_consumer) :=
  timestamp ← sys_time_from_ms timestamp_ms;
  let! (v, d) := dc_require "G" ConfigValueError d in
  generation ← as_int64 v;
  _ ← throw_if (generation <? 0) ConfigValueError;
  let! (v, d) := dc_require "K" ConfigValueError d in
  admin_key ← as_string v;
  _ ← throw_if (negb (size_of admin_key =? 32 + XCHACHA_ABYTES)) ConfigValueError;
  found ← (if admin k then
             kk ← keys_seed_hash k enc_key_admin_hash_key;
             _ ← throw_if (size_of nonce <? XCHACHA_NPUBBYTES) UB;
             match aead_decrypt admin_key (take 24 nonce) kk with
             | Some key => Ok (Some key)
             | None => Throw ConfigValueError
             end
           else Ok None);
  let! (v, d) := dc_require "k" ConfigValueError d in
  key_list ← as_list v;
  let found_key := match found with Some _ => true | None => false end in
  let! (found, pos) := find_own_entry (fun n => n =? 32 + XCHACHA_ABYTES) found_key key_list
                         nonce xsk xpk group_xpk
                         (fun p => Ok (match p with Some key => Some key | None => found end)) in
  _ ← throw_if (negb ((pos + 1) mod MESSAGE_KEY_MULTIPLE =? 0)) ConfigValueError;
  Ok (match found with
      | Some key => ([{| ki_key := key; ki_timestamp := timestamp; ki_generation := generation |}],
                     None, d)
      | None => ([], Some generation, d)
      end).

(** The part of [load_key_message] after the message has been verified. *)
Definition accept_keys (k : Keys) (hash : bytes) (loaded : list key_info) (max_gen : option Z)
    (g : group_configs) : res (bool * Keys * group_configs) :=
  let drop_pending :=
    match loaded with
    | first :: _ => admin k && has_pending k &&
        ((pending_gen_ k <? ki_generation first) || bool_decide (ki_key first = pending_key_ k))
    | [] => false
    end in
  let k := if drop_pending then set_pending k (pending_key_ k) [] (pending_gen_ k) true else k in
  match loaded, max_gen with
  | _ :: _, _ =>
      k ← foldM (fun k i => insert_key k hash i) k loaded;
      g ← replace_group_keys g (group_keys k) false;
      Ok (true, k, g)
  | [], Some gen =>
      k ← remove_expired (set_key_list k (keys_ k) (activate gen hash (active_msgs_ k)) (needs_dump_ k));
      Ok (false, set_key_list k (keys_ k) (active_msgs_ k) true, g)
  | [], None => Ok (false, k, g)
  end.

(** An admin's own X25519 keys are not computed: the arrays are left as they are and what is
    derived from them is not used; they are zero here. *)
Definition member_keys (k : Keys) : res (bytes * bytes) :=
  if admin k then Ok (zero_hash, zero_hash)
  else
    xpk ← compute_xpk (drop 32 (user_ed25519_sk k));
    Ok (ed_sk_to_curve25519 (user_ed25519_sk k), xpk).

(** [Keys::load_key_message(hash, data, timestamp_ms, info, members)] *)
Definition load_key_message (k : Keys) (hash data : bytes) (timestamp_ms : Z) (g : group_configs) :
    res (bool * Keys * group_configs) :=
  d ← dc_open data;
  match sig_pk k, verifier_ k with
  | Some pk, Some vf =>
      group_xpk ← compute_xpk pk;
      let! (v, d) := dc_require "#" ConfigValueError d in
      nonce ← as_string v;
      let! (xsk, xpk) := member_keys k in
      let! (found, d) := dc_skip_until "+" d in
      let! (loaded, max_gen, d) :=
        (if (found : bool) then load_supplement k nonce xsk xpk group_xpk d
         else load_full k timestamp_ms nonce xsk xpk group_xpk d) in
      _ ← verify_config_sig d (Some vf) None false;
      accept_keys k hash loaded max_gen g
  | _, _ => Throw LogicError
  end.

(** ** Messages *)

Definition ENCRYPT_OVERHEAD : Z := XCHACHA_NPUBBYTES + XCHACHA_ABYTES.

(** [Keys::encrypt_message(plaintext, compress, padding)]; [nonce] is what [randombytes_buf]
    fills in. *)
Definition encrypt_message (k : Keys) (plaintext : bytes) (compress : bool) (padding : Z)
    (nonce : bytes) : res bytes :=
  _ ← throw_if (MAX_PLAINTEXT_MESSAGE_SIZE <? size_of plaintext) RuntimeError;
  let compressed := zstd_compress plaintext 1 [] in
  let compress := compress && (size_of compressed <? size_of plaintext) in
  let plaintext := if compress then compressed else plaintext in
  match sig_pk k with
  | None => Throw UB
  | Some pk =>
      let signature := ed_sign (plaintext ++ pk) (user_ed25519_sk k) in
      let encoded :=
        bt_dict_print
          ([(bs "", BInt 1); (bs "a", BStr (drop 32 (user_ed25519_sk k)))] ++
           (if compress then [] else [(bs "d", BStr plaintext)]) ++ [(bs "s", BStr signature)] ++
           (if compress then [(bs "z", BStr plaintext)] else [])) in
      let final_len := ENCRYPT_OVERHEAD + size_of encoded in
      let encoded :=
        if (1 <? padding) && negb (final_len mod padding =? 0)
        then encoded ++ replicate (Z.to_nat (padding - final_len mod padding)) char_nul
        else encoded in
      key ← group_enc_key k;
      Ok (nonce ++ aead_encrypt encoded nonce key)
  end.

(** The first of the keys that opens the ciphertext: a pending key, then the keys from the
    oldest. *)
Definition open_with_keys (k : Keys) (ciphertext nonce : bytes) : option bytes :=
  head (omap (fun key => aead_decrypt ciphertext nonce key)
             ((if has_pending k then [pending_key_ k] else []) ++ (ki_key <$> keys_ k))).

(** Removing the null padding, unless there is nothing else. *)
Fixpoint drop_nulls (rplain : bytes) : bytes :=
  match rplain with
  | c :: rest => if bool_decide (c = char_nul) then drop_nulls rest else rplain
  | [] => []
  end.
Definition strip_padding (plain : bytes) : bytes :=
  match drop_nulls (rev plain) with [] => plain | r => rev r end.

(** The fields of a decrypted message, up to the signature check:
    (author, data, signature, compressed). *)
Definition parse_group_message (plain : bytes) : res (bytes * bytes * bytes * bool) :=
  _ ← throw_if (negb (bool_decide (head plain = Some "d"%char)) ||
                negb (bool_decide (last plain = Some "e"%char))) RuntimeError;
  d ← dc_open plain;
  let! (v, d) := dc_require [] RuntimeError d in
  version ← as_int32 v;
  _ ← throw_if (negb (version =? 1)) RuntimeError;
  let! (v, d) := dc_require "a" RuntimeError d in
  ed_pk ← as_string v;
  _ ← throw_if (negb (size_of ed_pk =? 32)) RuntimeError;
  _ ← throw_if (match ed_pk_to_curve25519 ed_pk with None => true | Some _ => false end) RuntimeError;
  let! (found, d) := dc_skip_until "d" d in
  let! (raw_data, d) :=
    (if (found : bool) then
       let! (_, v, d) := dc_next d in
       s ← as_string v; _ ← throw_if (is_nil s) RuntimeError; Ok (s, d)
     else Ok ([], d)) in
  let! (v, d) := dc_require "s" RuntimeError d in
  ed_sig ← as_string v;
  _ ← throw_if (negb (size_of ed_sig =? 64)) RuntimeError;
  let! (found, d) := dc_skip_until "z" d in
  if (found : bool) then
    _ ← throw_if (negb (is_nil raw_data)) RuntimeError;
    let! (_, v, d) := dc_next d in
    s ← as_string v; _ ← throw_if (is_nil s) RuntimeError;
    Ok (ed_pk, s, ed_sig, true)
  else
    _ ← throw_if (is_nil raw_data) RuntimeError;
    Ok (ed_pk, raw_data, ed_sig, false).

(** [Keys::decrypt_message(ciphertext)]: (session id of the author, the plaintext). *)
Definition decrypt_message (k : Keys) (ciphertext : bytes) : res (bytes * bytes) :=
  _ ← throw_if (size_of ciphertext <? ENCRYPT_OVERHEAD) RuntimeError;
  let nonce := take 24 ciphertext in
  match open_with_keys k (drop 24 ciphertext) nonce with
  | None => Throw RuntimeError
  | Some plain =>
      let! (ed_pk, raw_data, ed_sig, compressed) := parse_group_message (strip_padding plain) in
      x_pk ← compute_xpk ed_pk;
      match sig_pk k with
      | None => Throw UB
      | Some pk =>
          _ ← throw_if (negb (ed_verify ed_sig (raw_data ++ pk) ed_pk)) RuntimeError;
          data ← (if compressed then
                    match zstd_decompress raw_data MAX_PLAINTEXT_MESSAGE_SIZE with
                    | Some d => Ok d
                    | None => Throw RuntimeError
                    end
                  else Ok raw_data);
          Ok (bs "05" ++ to_hex x_pk, data)
      end
  end.
End WithLibraries.
