(* ===== verification/GroupLoadFacts.v ===== *)
(** * Facts about key messages

    What [rekey] sends is what [load_key_message] reads: for the admins, for every member, and for
    somebody who is not a member. *)
From S2P Require Import Prelude OMap Util Internal BtValue ThirdParty Bencode ConfigData ConfigParse.
From S2P Require Import ConfigParseFacts ConfigMessage MessageFacts Encrypt SessionEncrypt Protos ConfigBase.
From S2P Require Import BaseFacts Multipart BaseSync MultiEncrypt DictField UserProfileConfig ContactsConfig.
From S2P Require Import GroupMembers GroupKeys GroupKeysFacts MultiFacts GroupMessages.
From S2P Require Import SyncFacts.

(** ** Handing the keys to info and members *)

Definition first_occurrences (acc ks : list bytes) : list bytes :=
  foldl (fun acc k => if decide (k ∈ acc) then acc else acc ++ [k]) acc ks.

Lemma first_occurrences_elem acc ks x : x ∈ first_occurrences acc ks <-> x ∈ acc \/ x ∈ ks.
Proof.
  revert acc. induction ks as [|k ks IH]; intros acc; cbn; [set_solver|]. unfold first_occurrences in IH. rewrite IH.
  destruct (decide (k ∈ acc)); set_solver.
Qed.

Lemma first_occurrences_head acc ks :
  head (first_occurrences acc ks) = match acc with x :: _ => Some x | [] => head ks end.
Proof.
  revert acc. induction ks as [|k ks IH]; intros acc; cbn; [by destruct acc|]. unfold first_occurrences in IH. rewrite IH.
  destruct acc as [|x acc]; [done|]. by destruct (decide _).
Qed.

Section WithLibraries.
Context `{Oxenc} `{Blake2b}.

Lemma add_key_low b k :
  size_of k = 32 ->
  add_key b k false false =
    Ok (if decide (k ∈ _keys b) then b else set_keys b (_keys b ++ [k])).
Proof.
  intros Hk. unfold add_key. unfold KEY_SIZE. rewrite Hk. cbn [Z.eqb Pos.eqb negb throw_if mbind res_bind].
  destruct (front_is b k) eqn:Ef.
  { unfold front_is in Ef. destruct (_keys b) as [|x l]; [done|]. apply bool_decide_eq_true in Ef as ->.
    rewrite decide_True; [done|]. by left. }
  destruct (has_key_unchecked b k) eqn:Eh; cbn [negb andb].
  - unfold has_key_unchecked in Eh. apply existsb_exists in Eh as (x & Hx%list_elem_of_In & Hd%bool_decide_eq_true).
    subst x. by rewrite decide_True.
  - rewrite decide_False; [done|]. intros Hin. unfold has_key_unchecked in Eh.
    enough (existsb (fun k0 => bool_decide (k0 = k)) (_keys b) = true) by congruence.
    apply existsb_exists. exists k. split; [by apply list_elem_of_In|by apply bool_decide_eq_true].
Qed.

Lemma set_keys_set b l1 l2 : set_keys (set_keys b l1) l2 = set_keys b l2.
Proof. done. Qed.

Lemma add_keys_low b ks :
  Forall (fun k => size_of k = 32) ks ->
  foldM (fun b k => add_key b k false false) b ks = Ok (set_keys b (first_occurrences (_keys b) ks)).
Proof.
  intros Hf. revert b. induction Hf as [|k ks Hk _ IH]; intros b; cbn [foldM].
  { cbn. by destruct b. }
  rewrite add_key_low by done. cbn [mbind res_bind]. rewrite IH. unfold first_occurrences. cbn [foldl].
  by destruct (decide (k ∈ _keys b)).
Qed.

Lemma replace_keys_clean b ks :
  Forall (fun k => size_of k = 32) ks ->
  replace_keys b ks false = Ok (set_keys b (first_occurrences [] ks)).
Proof.
  intros Hf. unfold replace_keys. destruct ks as [|first ks].
  { destruct (is_nil (_keys b)) eqn:E; [|done]. cbn. destruct b as [? [|]]; done. }
  assert (existsb (fun k => negb (size_of k =? KEY_SIZE)) (first :: ks) = false) as ->.
  { induction Hf as [|k l Hk _ IH]; [done|]. cbn. unfold KEY_SIZE in *. rewrite Hk. cbn. apply IH. }
  cbn [throw_if mbind res_bind andb]. rewrite add_keys_low by done. done.
Qed.

(** Info and members hold exactly the group's keys, the one to encrypt with in front. *)
Definition share_keys (g : group_configs) (ks : list bytes) : group_configs :=
  {| info := set_keys (info g) (first_occurrences [] ks);
     members := on_base (members g) (set_keys (members_base (members g)) (first_occurrences [] ks)) |}.

Lemma replace_group_keys_clean g ks :
  Forall (fun k => size_of k = 32) ks -> replace_group_keys g ks false = Ok (share_keys g ks).
Proof. intros Hf. unfold replace_group_keys. by rewrite !replace_keys_clean. Qed.
End WithLibraries.

(** ** Going through the entries of a key message *)

Section Entries.
Variable valid : Z -> bool.

Lemma next_ciphertext_skip pos es :
  Forall (fun e => valid (size_of e) = true) es ->
  next_ciphertext valid true pos (BStr <$> es) = Ok (None, (pos + size_of es, [])).
Proof.
  intros Hf. revert pos. induction Hf as [|e es He _ IH]; intros pos; cbn [fmap list_fmap next_ciphertext].
  { replace (pos + size_of []) with pos by (unfold size_of; cbn; lia). done. }
  cbn [as_string mbind res_bind]. rewrite He. cbn [negb throw_if mbind res_bind]. unfold fmap in IH.
  rewrite IH. replace (pos + size_of (e :: es)) with (pos + 1 + size_of es) by (unfold size_of; cbn; lia).
  done.
Qed.

Context `{Oxenc} `{X25519} `{Aead}.
Abbreviation next skip := (fun st : Z * bt_list => next_ciphertext valid skip st.1 st.2).

Lemma decrypt_loop_entries fuel pos es nonce key :
  Forall (fun e => valid (size_of e) = true) es -> (length es < fuel)%nat ->
  exists n, (n <= length es)%nat /\
    decrypt_loop (next false) fuel (pos, BStr <$> es) nonce key =
      Ok (first_opened key nonce es, (pos + Z.of_nat n, BStr <$> drop n es)).
Proof.
  intros Hf. revert fuel pos. induction Hf as [|e es He _ IH]; intros fuel pos Hl;
    (destruct fuel as [|fuel]; [cbn in Hl; lia|]); cbn [decrypt_loop fst snd fmap list_fmap next_ciphertext].
  { exists O. split; [done|]. cbn. by rewrite Z.add_0_r. }
  cbn [as_string mbind res_bind]. rewrite He. cbn [negb throw_if mbind res_bind].
  rewrite first_opened_cons. destruct (decrypt_multi_impl e key nonce) as [m|].
  - exists 1%nat. split; [cbn; lia|]. cbn [drop]. by rewrite drop_0.
  - destruct (IH fuel (pos + 1)) as (n & Hn & Hd); [cbn in Hl; lia|]. exists (S n). split; [cbn; lia|].
    rewrite Hd. cbn [drop].
    by replace (pos + Z.of_nat (S n)) with (pos + 1 + Z.of_nat n) by lia.
Qed.

Lemma find_own_entry_spec {A} skip es nonce xsk xpk group_xpk key (f : option bytes -> res A) a :
  Forall (fun e => valid (size_of e) = true) es ->
  size_of nonce = 24 -> size_of xsk = 32 -> size_of xpk = 32 -> size_of group_xpk = 32 ->
  encrypt_multi_key xsk xpk group_xpk false enc_key_member_hash_key = Ok key ->
  f (if skip : bool then None else first_opened key nonce es) = Ok a ->
  find_own_entry valid skip (BStr <$> es) nonce xsk xpk group_xpk f = Ok (a, size_of es - 1).
Proof.
  intros Hf Hn Hs Hp Hg Hk Ha. unfold find_own_entry, decrypt_for_multiple.
  rewrite fields_ok by done. cbn [mbind res_bind]. rewrite Hg. cbn [Z.eqb Pos.eqb negb throw_if mbind res_bind].
  rewrite Hk. cbn [mbind res_bind]. rewrite length_fmap. destruct skip.
  - cbn [decrypt_loop fst snd]. rewrite next_ciphertext_skip by done. cbn beta iota. rewrite Ha.
    cbn [mbind res_bind next_ciphertext]. by replace (-1 + size_of es) with (size_of es - 1) by lia.
  - destruct (decrypt_loop_entries (S (length es)) (-1) es nonce key) as (n & Hle & ->); [done|lia|].
    cbn beta iota. rewrite Ha. cbn [mbind res_bind]. rewrite next_ciphertext_skip by (by apply Forall_drop).
    by replace (-1 + Z.of_nat n + size_of (drop n es)) with (size_of es - 1)
      by (unfold size_of; rewrite length_drop; lia).
Qed.
End Entries.

(** ** The junk *)

Lemma chunks_length count n data : length (chunks count n data) = count.
Proof. revert data. induction count as [|count IH]; intros data; cbn; [done|by rewrite IH]. Qed.

Lemma chunks_size count n data :
  length data = (count * n)%nat -> Forall (fun c => size_of c = Z.of_nat n) (chunks count n data).
Proof.
  revert data. induction count as [|count IH]; intros data Hd; cbn; constructor.
  - unfold size_of. rewrite length_take. lia.
  - apply IH. rewrite length_drop. lia.
Qed.

Section Junk.
Context `{Blake2b} `{Randombytes}.

Lemma junk_multiple n h1 sk :
  0 <= n -> (n + size_of (junk_member_keys n h1 sk)) mod MESSAGE_KEY_MULTIPLE = 0.
Proof.
  intros Hn. unfold junk_member_keys, MESSAGE_KEY_MULTIPLE. pose proof (Z.mod_pos_bound n 45 ltac:(lia)).
  destruct (Z.eqb_spec (n mod 45) 0) as [E|E]; [cbn; by rewrite Z.add_0_r|].
  unfold size_of. rewrite chunks_length, Z2Nat.id by lia.
  replace (n + (45 - n mod 45)) with ((n / 45 + 1) * 45) by (pose proof (Z.div_mod n 45); lia).
  by apply Z_mod_mult.
Qed.

Lemma junk_sizes n h1 sk : Forall (fun c => size_of c = 48) (junk_member_keys n h1 sk).
Proof.
  unfold junk_member_keys, MESSAGE_KEY_MULTIPLE. pose proof (Z.mod_pos_bound n 45 ltac:(lia)).
  destruct (Z.eqb_spec (n mod 45) 0) as [E|E]; [constructor|].
  apply (chunks_size _ 48). pose proof (randombytes_size (48 * (45 - n mod 45))
    (generichash 32 junk_seed_hash_key (h1 ++ sk)) ltac:(lia)) as Hs. unfold size_of in Hs. lia.
Qed.
End Junk.

(** ** A group *)

(** A key message as [rekey] builds it: the new key and its generation, the nonce, and the
    entries for the members. *)
Record key_message := {
  km_key : bytes;
  km_gen : Z;
  km_nonce : bytes;
  km_entries : list bytes
}.

Section Group.
Context `{Oxenc} `{X25519} `{Aead} `{Zstd} `{Protobuf} `{TextEncodings} `{Randombytes}.
Variable gseed : bytes.
Hypothesis gseed_size : size_of gseed = 32.

Definition group_pk : bytes := (ed_seed_keypair gseed).1.
Definition group_sk : bytes := (ed_seed_keypair gseed).2.
Definition group_xsk : bytes := ed_sk_to_curve25519 group_sk.
Definition group_xpk : bytes := scalarmult_base group_xsk.
Definition admin_hash : bytes := generichash 32 (take 64 enc_key_admin_hash_key) (take 32 group_sk).

(** A [Keys] object of this group; one of an admin; one of the user with the given seed. *)
Definition in_group (k : Keys) : Prop :=
  sig_pk k = Some group_pk /\ verifier_ k = Some (ed_verifier group_pk).
Definition group_admin (k : Keys) : Prop :=
  in_group k /\ sig_sk k = Some group_sk /\ signer_ k = Some (ed_signer group_sk).
Definition group_user (useed : bytes) (k : Keys) : Prop :=
  in_group k /\ sig_sk k = None /\ size_of useed = 32 /\
  user_ed25519_sk k = (ed_seed_keypair useed).2.

Lemma group_sk_size : size_of group_sk = 64.
Proof.
  unfold group_sk. rewrite ed_seed_sk by done. rewrite size_of_app, ed_seed_pk_size by done. lia.
Qed.
Lemma group_xpk_ok : compute_xpk group_pk = Ok group_xpk.
Proof. unfold compute_xpk, group_pk. by rewrite ed_curve_keys. Qed.
Lemma group_xpk_size : size_of group_xpk = 32.
Proof. apply scalarmult_base_size. Qed.
Lemma group_xsk_size : size_of group_xsk = 32.
Proof. apply ed_sk_to_curve25519_size, group_sk_size. Qed.

Definition key_body (m : key_message) : bt_dict :=
  [(bs "#", BStr (km_nonce m)); (bs "G", BInt (km_gen m));
   (bs "K", BStr (aead_encrypt (km_key m) (km_nonce m) admin_hash));
   (bs "k", BList (BStr <$> km_entries m))].
Definition key_config (m : key_message) : bytes :=
  bt_dict_print (key_body m ++ [(bs "~", BStr (ed_sign (bt_dict_open (key_body m)) group_sk))]).

Record good_message (m : key_message) : Prop := {
  gm_key : size_of (km_key m) = 32;
  gm_gen : in_int64 (km_gen m) = true;
  gm_nonce : size_of (km_nonce m) = 24;
  gm_entries : Forall (fun e => size_of e = 48) (km_entries m);
  gm_count : size_of (km_entries m) mod MESSAGE_KEY_MULTIPLE = 0
}.

(** The member with this X25519 key has an entry. *)
Definition entry_for (m : key_message) (xpk : bytes) : Prop :=
  forall key, encrypt_multi_key group_xsk group_xpk xpk true enc_key_member_hash_key = Ok key ->
    encrypt_multi_impl (km_key m) key (km_nonce m) ∈ km_entries m.

Lemma sid_pks_ok sids acc l :
  foldM (fun l sid => pk ← session_id_pk sid "05"; Ok (l ++ [pk])) acc sids = Ok l ->
  Forall (fun r => size_of r = 32) acc ->
  Forall (fun r => size_of r = 32) l /\ (forall x, x ∈ acc -> x ∈ l) /\
  forall sid pk, sid ∈ sids -> session_id_pk sid "05" = Ok pk -> pk ∈ l.
Proof.
  revert acc. induction sids as [|sid sids IH]; intros acc Hs Ha; cbn [foldM] in Hs.
  { injection Hs as <-. split_and!; [done..|]. set_solver. }
  destruct (session_id_pk sid "05") as [pk|] eqn:Ep; [|done]. cbn [mbind res_bind] in Hs.
  apply IH in Hs as (Hf & Hi & Hm).
  - split_and!; [done|set_solver|]. intros sid' pk' [->|Hin]%elem_of_cons Hpk; [|by eapply Hm].
    rewrite Ep in Hpk. injection Hpk as <-. apply Hi. set_solver.
  - apply Forall_app. split; [done|]. apply Forall_singleton.
    unfold session_id_pk, check_session_id in Ep. res_step Ep. injection Ep as <-.
    unfold throw_if in E. destruct (_ && _) eqn:Eb; [|done]. bool_prop.
    pose proof (from_hex_size (drop 2 sid)) as Hh. rewrite is_hex_drop in Hh by done.
    specialize (Hh eq_refl). assert (size_of (drop 2 sid) = size_of sid - 2) as Hd.
    { unfold size_of in *. cbn in *. rewrite length_drop. lia. }
    change (size_of (bs "05")) with 2 in *. lia.
Qed.

Lemma recipient_entry key nonce (pks : list bytes) pk ks :
  pk ∈ pks -> encrypt_multi_key group_xsk group_xpk pk true enc_key_member_hash_key = Ok ks ->
  encrypt_multi_impl key ks nonce ∈
    omap (recipient_ciphertext key nonce group_xsk group_xpk enc_key_member_hash_key) pks.
Proof.
  intros Hp Hk. apply list_elem_of_omap. exists pk. split; [done|]. unfold recipient_ciphertext.
  by rewrite Hk.
Qed.

Lemma recipient_sizes key nonce (pks : list bytes) :
  size_of key = 32 ->
  Forall (fun e => size_of e = 48)
    (omap (recipient_ciphertext key nonce group_xsk group_xpk enc_key_member_hash_key) pks).
Proof.
  intros Hk. apply Forall_forall. intros e (pk & _ & He)%list_elem_of_omap.
  unfold recipient_ciphertext in He. destruct (encrypt_multi_key _ _ _ _ _); [|done].
  injection He as <-. unfold encrypt_multi_impl. rewrite aead_encrypt_size, Hk. done.
Qed.

(** The message for the given members and generation: it depends on nothing else, so that every
    admin makes the same one. *)
Definition rekey_message (sids : list bytes) (gen : Z) : key_message :=
  let h1 := rekey_hash sids gen (generichash 32 (take 64 seed_hash_key) (take 32 group_sk)) in
  let cs := match sid_pks sids with
            | Ok pks => omap (recipient_ciphertext (take 32 h1) (take 24 (drop 32 h1)) group_xsk group_xpk
                                enc_key_member_hash_key) pks
            | Throw _ => []
            end in
  {| km_key := take 32 h1; km_gen := gen; km_nonce := take 24 (drop 32 h1);
     km_entries := cs ++ junk_member_keys (size_of cs) h1 group_sk |}.

Lemma rekey_message_good sids gen : in_int64 gen = true -> good_message (rekey_message sids gen).
Proof.
  intros Hg. unfold rekey_message. set (h1 := rekey_hash _ _ _). assert (length h1 = 56%nat) as Hh1.
  { pose proof (generichash_size 56 enc_key_hash_key) as Hs. unfold h1, rekey_hash.
    match goal with |- context [generichash 56 ?a ?b] => specialize (Hs b ltac:(lia)) end.
    unfold size_of in Hs. lia. }
  assert (size_of (take 32 h1) = 32) as Hk32 by (unfold size_of; rewrite length_take; lia).
  constructor; cbn [km_key km_gen km_nonce km_entries]; try done.
  - unfold size_of. rewrite length_take, length_drop. lia.
  - apply Forall_app. split; [|apply junk_sizes]. destruct (sid_pks sids); [|constructor].
    by apply recipient_sizes.
  - rewrite size_of_app. apply junk_multiple, size_of_nonneg.
Qed.

(** What [rekey] does. *)
Lemma rekey_inv k g conf k' g' :
  group_admin k -> rekey k g = Ok (conf, k', g') ->
  exists mems gen, let m := rekey_message (mem_session_id <$> mems) gen in
    members_list (members g) = Ok mems /\ next_generation k = Ok gen /\ in_int64 gen = true /\
    conf = key_config m /\ k' = set_pending k (km_key m) conf gen true /\
    (forall mem pk, mem ∈ mems -> session_id_pk (mem_session_id mem) "05" = Ok pk -> entry_for m pk).
Proof.
  intros ((Hpk & Hvf) & Hsk & Hsg) Hr. unfold rekey, rekey_body in Hr. rewrite Hsk, Hpk in Hr.
  rewrite group_xpk_ok in Hr. unfold keys_seed_hash in Hr. rewrite Hsk in Hr. cbn [mbind res_bind] in Hr.
  destruct (members_list (members g)) as [mems|] eqn:Em; [|done]. cbn [mbind res_bind] in Hr.
  destruct (next_generation k) as [gen|] eqn:Eg; [|done]. cbn [mbind res_bind] in Hr.
  assert (in_int64 gen = true) as Hi.
  { unfold next_generation in Eg. destruct (last (keys_ k)); [|by injection Eg as <-].
    unfold int64_add in Eg. destruct (in_int64 _) eqn:Ei; [|done]. by injection Eg as <-. }
  set (sids := mem_session_id <$> mems) in *.
  destruct (sid_pks sids) as [pks|] eqn:Ep; [|done]. cbn [mbind res_bind] in Hr.
  destruct (sid_pks_ok _ _ _ Ep) as (Hps & _ & Hpi); [constructor|]. fold group_xsk in Hr.
  destruct (rekey_message_good sids gen Hi) as [Hkey _ Hnon _ _]. set (m := rekey_message sids gen) in *.
  rewrite encrypt_for_multiple_single in Hr; [|exact Hnon|apply group_xsk_size|apply group_xpk_size|done].
  cbn [mbind res_bind] in Hr.
  match type of Hr with context [sign_dict k ?b] => assert (b = key_body m) as Hb end.
  { unfold key_body, m, rekey_message. by rewrite Ep. }
  rewrite Hb in Hr. unfold sign_dict, keys_sign in Hr. rewrite Hsg in Hr. unfold ed_signer in Hr.
  rewrite ed_sign_size in Hr. cbn [Z.eqb Pos.eqb negb throw_if mbind res_bind] in Hr. fold (key_config m) in Hr.
  destruct (replace_group_keys _ _ _) as [g2|]; [|done]. cbn [mbind res_bind] in Hr. injection Hr as <- <- <-.
  exists mems, gen. fold sids m. split_and!; [done..|]. intros mem pk Hin Hpk2 ks Hks.
  unfold m, rekey_message at 3. rewrite Ep. apply elem_of_app. left. apply (recipient_entry _ _ _ pk); [|done].
  eapply Hpi; [|done]. by apply list_elem_of_fmap_2.
Qed.

Lemma key_body_wf m : good_message m -> bt_wf_dict (key_body m ++ sig_pairs (Some (ed_sign (bt_dict_open (key_body m)) group_sk))).
Proof.
  intros [_ Hg _ _ _]. split; [repeat constructor|]. unfold key_body. cbn [app sig_pairs].
  rewrite !Forall_cons, Forall_nil. cbn [snd]. split; [done|]. split; [by apply int64_bt|].
  split; [done|]. split; [|done]. apply bt_wf_BList, Forall_fmap, Forall_true. done.
Qed.

Definition new_key_of (m : key_message) (ts : Z) (key : bytes) : key_info :=
  {| ki_key := key; ki_timestamp := ts; ki_generation := km_gen m |}.

Lemma load_full_spec k ts m src pos X xsk xpk ks :
  good_message m -> 0 <= km_gen m -> sys_time_from_ms ts = Ok ts ->
  (admin k = true -> sig_sk k = Some group_sk) -> size_of xsk = 32 -> size_of xpk = 32 ->
  encrypt_multi_key xsk xpk group_xpk false enc_key_member_hash_key = Ok ks ->
  load_full k ts (km_nonce m) xsk xpk group_xpk (dcx src pos (tail (key_body m) ++ X)) =
  Ok (match (if admin k then Some (km_key m) else first_opened ks (km_nonce m) (km_entries m)) with
      | Some key => ([new_key_of m ts key], None, dcx src (3 + pos) X)
      | None => ([], Some (km_gen m), dcx src (3 + pos) X)
      end).
Proof.
  intros [Hk Hg Hn He Hc] Hpos Ht Ha Hs Hp Hks. unfold load_full. rewrite Ht. cbn [mbind res_bind key_body tail app].
  rewrite require_next. cbn [as_int64]. rewrite Hg. cbn [mbind res_bind].
  rewrite (proj2 (Z.ltb_ge (km_gen m) 0)) by done. cbn [throw_if mbind res_bind]. rewrite require_next.
  cbn [as_string mbind res_bind]. rewrite aead_encrypt_size, Hk.
  cbn [Z.eqb Pos.eqb negb throw_if mbind res_bind Z.add Pos.add Pos.succ XCHACHA_ABYTES].
  assert (forall skip found, found = (if skip : bool then Some (km_key m) else None) ->
    find_own_entry (fun n => n =? 32 + XCHACHA_ABYTES) skip (BStr <$> km_entries m) (km_nonce m) xsk xpk group_xpk
      (fun p => Ok (match p with Some key => Some key | None => found end)) =
    Ok (if skip then Some (km_key m) else first_opened ks (km_nonce m) (km_entries m), size_of (km_entries m) - 1)) as Hfind.
  { intros skip found ->. apply (find_own_entry_spec _ _ _ _ _ _ _ ks); try done.
    - eapply Forall_impl; [apply He|]. cbn. by intros e ->.
    - apply group_xpk_size.
    - destruct skip; [done|]. by destruct (first_opened _ _ _). }
  destruct (admin k) eqn:Ead.
  - unfold keys_seed_hash. rewrite Ha by done. cbn [mbind res_bind]. rewrite Hn.
    cbn [Z.ltb Z.compare Pos.compare Pos.compare_cont throw_if mbind res_bind XCHACHA_NPUBBYTES].
    rewrite (take_ge (km_nonce m)) by (unfold size_of in Hn; lia). fold admin_hash.
    rewrite aead_decrypt_encrypt. cbn [mbind res_bind]. rewrite require_next. cbn [as_list mbind res_bind].
    rewrite (Hfind true) by done. rewrite Z.sub_add, Hc. done.
  - cbn [mbind res_bind]. rewrite require_next. cbn [as_list mbind res_bind].
    rewrite (Hfind false) by done. rewrite Z.sub_add, Hc. cbn. by destruct (first_opened _ _ _).
Qed.

Lemma load_key_config k hash ts g m xsk xpk ks :
  good_message m -> 0 <= km_gen m -> sys_time_from_ms ts = Ok ts -> in_group k ->
  (admin k = true -> sig_sk k = Some group_sk) -> member_keys k = Ok (xsk, xpk) ->
  size_of xsk = 32 -> size_of xpk = 32 ->
  encrypt_multi_key xsk xpk group_xpk false enc_key_member_hash_key = Ok ks ->
  load_key_message k hash (key_config m) ts g =
  match (if admin k then Some (km_key m) else first_opened ks (km_nonce m) (km_entries m)) with
  | Some key => accept_keys k hash [new_key_of m ts key] None g
  | None => accept_keys k hash [] (Some (km_gen m)) g
  end.
Proof.
  intros Hm Hpos Ht [Hpk Hvf] Ha Hmk Hs Hp Hks. pose proof (key_body_wf m Hm) as Hw.
  unfold load_key_message, dc_open, key_config. rewrite <- (app_nil_r (bt_dict_print _)).
  rewrite bt_dict_parse_print by done. cbn [mbind res_bind]. rewrite Hpk, Hvf, group_xpk_ok.
  cbn [mbind res_bind]. change (key_body m ++ ?x) with ((bs "#", BStr (km_nonce m)) :: tail (key_body m) ++ x).
  rewrite require_next. cbn [as_string mbind res_bind]. rewrite Hmk.
  change (tail (key_body m) ++ ?x) with ((bs "G", BInt (km_gen m)) :: tail (tail (key_body m)) ++ x).
  rewrite skip_smaller by done.
  change ((bs "G", BInt (km_gen m)) :: tail (tail (key_body m)) ++ ?x) with (tail (key_body m) ++ x).
  rewrite (load_full_spec _ _ _ _ _ _ _ _ ks) by done.
  pose proof (verify_config_sig_complete _ _ (Some (ed_verifier group_pk)) false [] Hw (ed_sign_size _ _)) as Hv.
  cbn [sig_accepted] in Hv. unfold ed_verifier, group_pk, group_sk in Hv. rewrite ed_verify_sign in Hv by done.
  specialize (Hv eq_refl). fold group_pk group_sk in Hv.
  destruct (if admin k then _ else _); cbn [mbind res_bind]; by refine (eq_trans (f_equal (mbind _) Hv) _).
Qed.

(** ** What the recipients have afterwards *)

Lemma group_keys_sizes k :
  keys_wf k -> (has_pending k = true -> size_of (pending_key_ k) = 32) ->
  Forall (fun x => size_of x = 32) (group_keys k).
Proof.
  intros Hw Hp. unfold group_keys. apply Forall_app. split.
  - destruct (has_pending k); [|constructor]. apply Forall_singleton. auto.
  - apply Forall_rev, Forall_fmap. eapply Forall_impl; [apply Hw|]. by intros i (Hs & _).
Qed.

Lemma insert_spec_pending k h i :
  has_pending (insert_spec k h i) = has_pending k /\ pending_key_ (insert_spec k h i) = pending_key_ k.
Proof. unfold insert_spec. destruct (decide _); [done|]. by destruct (stale_key _ _). Qed.

(** One new key, for somebody who has nothing pending. *)
Lemma accept_one k hash i g :
  keys_wf k -> key_ok i -> has_pending k = false ->
  accept_keys k hash [i] None g =
    Ok (true, insert_spec k hash i, share_keys g (group_keys (insert_spec k hash i))).
Proof.
  intros Hw Hi Hp. unfold accept_keys. rewrite Hp, andb_false_r. cbn [andb foldM].
  rewrite insert_key_spec by done. cbn [mbind res_bind]. rewrite replace_group_keys_clean; [done|].
  apply group_keys_sizes; [by apply insert_spec_wf|].
  destruct (insert_spec_pending k hash i) as [-> _]. by rewrite Hp.
Qed.

Lemma insert_sorted_last i l :
  Forall (fun j => ki_generation j < ki_generation i) l -> insert_sorted i l = l ++ [i].
Proof.
  induction 1 as [|j l Hj _ IH]; cbn; [done|].
  assert (key_ltb j i = true) as ->; [|by rewrite IH].
  apply kltb_lt. unfold klt, cmpval. cbn. unfold pair_cmp at 1. cbn. unfold pair_cmp. cbn.
  by apply Z.compare_lt_iff in Hj as ->.
Qed.

(** A key of a new generation becomes the one to encrypt with. *)
Lemma insert_newest k h i :
  keys_wf k -> Forall (fun j => ki_generation j < ki_generation i) (keys_ k) ->
  last (keys_ (insert_spec k h i)) = Some i.
Proof.
  intros Hw Hf. unfold insert_spec. rewrite decide_False.
  2: { intros (j & [= Hg _] & Hj)%list_elem_of_fmap. rewrite Forall_forall in Hf. apply Hf in Hj. lia. }
  assert (stale_key i (keys_ k) = false) as ->.
  { unfold stale_key. destruct (keys_ k) as [|front [|second l]]; try done. destruct (last _); [|done].
    apply Forall_cons in Hf as [Hf _]. rewrite (proj2 (Z.ltb_ge _ _)) by lia. done. }
  cbn [keys_ set_key_list]. rewrite unexpired_last.
  - rewrite insert_sorted_last by done. by rewrite last_snoc.
  - apply insert_sorted_sorted; [apply Hw|]. intros Hi. rewrite Forall_forall in Hf. apply Hf in Hi. lia.
Qed.

Lemma next_generation_newer k gen :
  keys_wf k -> next_generation k = Ok gen -> Forall (fun j => ki_generation j < gen) (keys_ k).
Proof.
  intros Hw Hg. unfold next_generation in Hg. destruct (last (keys_ k)) as [back|] eqn:Eb.
  - unfold int64_add in Hg. destruct (in_int64 _); [|done]. injection Hg as <-.
    apply last_Some in Eb as [l El]. pose proof (kw_sorted _ Hw) as Hs. rewrite El in *.
    apply Forall_forall. intros j Hj. apply sorted_generation in Hj; [lia|done].
  - apply last_None in Eb as ->. constructor.
Qed.

Lemma key_config_nonempty m : is_nil (key_config m) = false.
Proof. unfold key_config. destruct (bt_dict_print_d (key_body m ++ [(bs "~", BStr (ed_sign (bt_dict_open (key_body m)) group_sk))])) as [r Hr]. by rewrite Hr. Qed.

Lemma new_key_ok m ts :
  good_message m -> time_ok ts = true -> key_ok (new_key_of m ts (km_key m)).
Proof. intros Hm Ht. split_and!; cbn; [apply Hm|apply Hm|done]. Qed.

(** The admin who sent the message gets it back: nothing is pending any more and the new key is
    the one to encrypt with. *)
Lemma own_message k m hash ts g :
  group_admin k -> keys_wf k -> good_message m -> 0 <= km_gen m -> time_ok ts = true ->
  next_generation k = Ok (km_gen m) ->
  exists k2, load_key_message (set_pending k (km_key m) (key_config m) (km_gen m) true) hash (key_config m) ts g =
      Ok (true, k2, share_keys g (group_keys k2)) /\
    keys_wf k2 /\ has_pending k2 = false /\ last (keys_ k2) = Some (new_key_of m ts (km_key m)) /\
    group_enc_key k2 = Ok (km_key m).
Proof.
  intros [[Hpk Hvf] [Hsk Hsg]] Hw Hm Hpos Ht Hgen. set (k1 := set_pending _ _ _ _ _).
  assert (admin k1 = true) as Had by (unfold admin, k1; cbn; by rewrite Hsk, Hpk).
  destruct (multi_key_ok zero_hash zero_hash group_xsk false enc_key_member_hash_key) as [ks Hks].
  rewrite (load_key_config k1 hash ts g m zero_hash zero_hash ks); try done.
  2: { by apply time_ok_load. }
  2: { unfold member_keys. by rewrite Had. }
  rewrite Had. set (i := new_key_of m ts (km_key m)).
  set (k0 := set_pending k1 (pending_key_ k1) [] (pending_gen_ k1) true).
  assert (keys_wf k0) as Hw0 by (destruct Hw; by constructor).
  assert (accept_keys k1 hash [i] None g = accept_keys k0 hash [i] None g) as ->.
  { assert (has_pending k1 = true) as Hp1.
    { unfold has_pending, k1. cbn. by rewrite key_config_nonempty. }
    unfold accept_keys. rewrite Had, Hp1. cbn [andb]. rewrite (bool_decide_eq_true_2 (ki_key i = _)) by done.
    rewrite orb_true_r. change (has_pending k0) with false. by rewrite andb_false_r. }
  rewrite accept_one; [|done|by apply new_key_ok|done]. exists (insert_spec k0 hash i).
  assert (last (keys_ (insert_spec k0 hash i)) = Some i) as Hl.
  { apply insert_newest; [done|]. cbn. by apply next_generation_newer. }
  assert (has_pending (insert_spec k0 hash i) = false) as Hp.
  { by destruct (insert_spec_pending k0 hash i) as [-> _]. }
  split_and!; [done|apply insert_spec_wf; [done|by apply new_key_ok]|done|done|].
  unfold group_enc_key. by rewrite Hp, Hl.
Qed.

(** The keys of a user. *)
Lemma user_member_keys useed k :
  group_user useed k ->
  admin k = false /\
  member_keys k = Ok (ed_sk_to_curve25519 (ed_seed_keypair useed).2, x_pubkey useed) /\
  size_of (ed_sk_to_curve25519 (ed_seed_keypair useed).2) = 32 /\ size_of (x_pubkey useed) = 32.
Proof.
  intros (_ & Hsk & Hs & Hu). assert (admin k = false) as Ha by (unfold admin; by rewrite Hsk).
  assert (size_of (ed_seed_keypair useed).2 = 64) as H64.
  { rewrite ed_seed_sk by done. rewrite size_of_app, ed_seed_pk_size by done. lia. }
  split_and!; [done| |by apply ed_sk_to_curve25519_size|apply scalarmult_base_size].
  unfold member_keys, compute_xpk. rewrite Ha, Hu.
  assert (drop 32 (ed_seed_keypair useed).2 = (ed_seed_keypair useed).1) as ->.
  { rewrite ed_seed_sk by done. by rewrite drop_app_length' by (unfold size_of in Hs; lia). }
  by rewrite ed_curve_keys.
Qed.

Definition user_key (useed : bytes) : res bytes :=
  encrypt_multi_key (ed_sk_to_curve25519 (ed_seed_keypair useed).2) (x_pubkey useed) group_xpk false
    enc_key_member_hash_key.

(** A member finds the new key, provided no other entry opens under the member's key. *)
Lemma member_message useed k m hash ts g ks :
  group_user useed k -> keys_wf k -> has_pending k = false -> good_message m -> 0 <= km_gen m ->
  time_ok ts = true -> entry_for m (x_pubkey useed) -> user_key useed = Ok ks ->
  opens_only ks (km_nonce m) (km_entries m) (km_key m) ->
  let k2 := insert_spec k hash (new_key_of m ts (km_key m)) in
  load_key_message k hash (key_config m) ts g = Ok (true, k2, share_keys g (group_keys k2)).
Proof.
  intros Hu Hw Hp Hm Hpos Ht He Hks Ho k2. destruct (user_member_keys _ _ Hu) as (Ha & Hmk & Hs1 & Hs2).
  rewrite (load_key_config k hash ts g m _ _ ks Hm Hpos) with (4 := Hmk); try done.
  - rewrite Ha. rewrite (first_opened_unique _ _ _ (encrypt_multi_impl (km_key m) ks (km_nonce m)) (km_key m)).
    + by rewrite accept_one; [|done|by apply new_key_ok|done].
    + apply He. unfold user_key in Hks. unfold group_xpk, x_pubkey in *. by rewrite multi_key_agree.
    + apply decrypt_encrypt_impl.
    + done.
  - by apply time_ok_load.
  - apply Hu.
  - by rewrite Ha.
Qed.

(** Somebody for whom no entry opens learns the generation but no key. *)
Lemma outsider_message useed k m hash ts g ks :
  group_user useed k -> keys_wf k -> good_message m -> 0 <= km_gen m -> time_ok ts = true ->
  user_key useed = Ok ks ->
  (forall e, e ∈ km_entries m -> decrypt_multi_impl e ks (km_nonce m) = None) ->
  exists k2, load_key_message k hash (key_config m) ts g = Ok (false, k2, g) /\
    keys_ k2 = unexpired_keys (keys_ k) /\
    active_msgs_ k2 = kept_active (unexpired_keys (keys_ k)) (activate (km_gen m) hash (active_msgs_ k)).
Proof.
  intros Hu Hw Hm Hpos Ht Hks Hn. destruct (user_member_keys _ _ Hu) as (Ha & Hmk & Hs1 & Hs2).
  rewrite (load_key_config k hash ts g m _ _ ks Hm Hpos) with (4 := Hmk); try done.
  - rewrite Ha, first_opened_none by done. unfold accept_keys. rewrite remove_expired_spec.
    + by eexists.
    + apply Hw.
    + eapply Forall_impl; [apply Hw|]. by intros ? (_ & _ & ?).
  - by apply time_ok_load.
  - apply Hu.
  - by rewrite Ha.
Qed.
End Group.

(** ** Messages to the group *)

(** ** Padding *)

Lemma drop_nulls_app n s : drop_nulls (replicate n char_nul ++ s) = drop_nulls s.
Proof. induction n as [|n IH]; cbn; [done|]. by rewrite bool_decide_eq_true_2. Qed.

Lemma strip_null_padding s n : strip_padding ((s ++ ["e"%char]) ++ replicate n char_nul) = s ++ ["e"%char].
Proof.
  unfold strip_padding. rewrite rev_app_distr. assert (rev (replicate n char_nul) = replicate n char_nul) as ->.
  { rewrite rev_alt. apply reverse_replicate. }
  rewrite drop_nulls_app, rev_app_distr. cbn [rev app drop_nulls]. rewrite bool_decide_eq_false_2 by done.
  cbn [rev]. by rewrite rev_involutive.
Qed.

Section WithLibraries.
Context `{Oxenc} `{X25519} `{Aead} `{Zstd} `{Protobuf} `{TextEncodings} `{Randombytes}.

(** ** The pairs of a message *)

Definition message_fields (pk data sig : bytes) (compressed : bool) : bt_dict :=
  [(bs "", BInt 1); (bs "a", BStr pk)] ++ (if compressed then [] else [(bs "d", BStr data)]) ++
  [(bs "s", BStr sig)] ++ (if compressed then [(bs "z", BStr data)] else []).

Lemma message_fields_wf pk data sig compressed : bt_wf_dict (message_fields pk data sig compressed).
Proof. destruct compressed; (split; [repeat constructor|]); repeat constructor; cbn; unfold INT64_MIN, UINT64_MAX; lia. Qed.

Lemma parse_message_fields pk data sig compressed :
  size_of pk = 32 -> is_Some (ed_pk_to_curve25519 pk) -> size_of sig = 64 -> data <> [] ->
  parse_group_message (bt_dict_print (message_fields pk data sig compressed)) = Ok (pk, data, sig, compressed).
Proof.
  intros Hp [x Hx] Hs Hd. unfold parse_group_message.
  destruct (bt_dict_print_d (message_fields pk data sig compressed)) as [r1 E1].
  destruct (bt_dict_print_e (message_fields pk data sig compressed)) as [r2 E2].
  set (s := bt_dict_print _) in *. assert (head s = Some "d"%char) as -> by (by rewrite E1).
  assert (last s = Some "e"%char) as -> by (rewrite E2; apply last_snoc). subst s.
  rewrite !bool_decide_eq_true_2 by done. cbn [negb orb throw_if mbind res_bind]. unfold dc_open.
  rewrite <- (app_nil_r (bt_dict_print _)), bt_dict_parse_print by apply message_fields_wf.
  cbn [mbind res_bind]. unfold message_fields. cbn [app]. rewrite (require_next _ _ []).
  cbn [as_int32 Z.leb Z.ltb Z.compare andb mbind res_bind Z.eqb Pos.eqb negb throw_if].
  change (as_int32 (BInt 1)) with (@Ok Z 1). cbn [mbind res_bind Z.eqb Pos.eqb negb throw_if].
  rewrite require_next. cbn [as_string mbind res_bind]. rewrite Hp, Hx.
  cbn [Z.eqb Pos.eqb negb throw_if mbind res_bind].
  assert (is_nil data = false) as Hn by (by destruct data). destruct compressed; cbn [app].
  - rewrite skip_smaller by done. rewrite require_next. cbn [as_string mbind res_bind]. rewrite Hs.
    cbn [Z.eqb Pos.eqb negb throw_if mbind res_bind]. rewrite skip_next. cbn [is_nil negb throw_if mbind res_bind dc_next dc_rest as_string].
    by rewrite Hn.
  - rewrite skip_next, next_next. cbn [as_string mbind res_bind].
    rewrite Hn. cbn [throw_if mbind res_bind]. rewrite require_next. cbn [as_string mbind res_bind]. rewrite Hs.
    cbn [Z.eqb Pos.eqb negb throw_if mbind res_bind]. rewrite skip_end, Hn. done.
Qed.

Lemma open_with_keys_unique k c nonce key m :
  (key ∈ (if has_pending k then [pending_key_ k] else []) ++ (ki_key <$> keys_ k)) ->
  aead_decrypt c nonce key = Some m ->
  (forall key' m', key' ∈ group_keys k -> aead_decrypt c nonce key' = Some m' -> m' = m) ->
  open_with_keys k c nonce = Some m.
Proof.
  intros Hk Hd Ho. unfold open_with_keys.
  assert (forall key' m', key' ∈ (if has_pending k then [pending_key_ k] else []) ++ (ki_key <$> keys_ k) ->
            aead_decrypt c nonce key' = Some m' -> m' = m) as Ho'.
  { intros key' m' Hin. apply Ho. unfold group_keys. rewrite rev_alt. apply elem_of_app in Hin as [Hin|Hin];
      apply elem_of_app; [by left|right]. by apply elem_of_reverse. }
  clear Ho. induction ((if has_pending k then [pending_key_ k] else []) ++ (ki_key <$> keys_ k)) as [|x l IH];
    [by apply not_elem_of_nil in Hk|]. cbn [omap list_omap].
  destruct (aead_decrypt c nonce x) as [m'|] eqn:E.
  - cbn. f_equal. apply (Ho' x); [by left|done].
  - apply elem_of_cons in Hk as [->|Hk]; [congruence|]. apply IH; [done|]. intros. eapply Ho'; [by right|done].
Qed.

Lemma zstd_append_bounded max acc outs :
  size_of (acc ++ concat outs) <= max -> zstd_append max acc outs = Some (acc ++ concat outs).
Proof.
  revert acc. induction outs as [|o outs IH]; intros acc Hs; cbn [zstd_append concat] in *.
  { by rewrite app_nil_r. }
  rewrite app_assoc, size_of_app in Hs. pose proof (size_of_nonneg (concat outs)).
  rewrite size_of_app in Hs. rewrite (proj2 (Z.ltb_ge max _)) by lia. rewrite andb_false_r, app_assoc.
  apply IH. rewrite !size_of_app. lia.
Qed.

Lemma decompress_bounded data level :
  size_of data <= MAX_PLAINTEXT_MESSAGE_SIZE ->
  zstd_decompress (zstd_compress data level []) MAX_PLAINTEXT_MESSAGE_SIZE = Some data.
Proof.
  intros Hs. unfold zstd_decompress, zstd_compress. cbn [app].
  destruct (ZSTD_roundtrip data level) as [Hok Hcat].
  destruct (ZSTD_decompressStream _) as [outs ok]. cbn in Hok, Hcat. subst ok.
  rewrite zstd_append_bounded; cbn [app]; by rewrite Hcat.
Qed.

(** The padded encoding, and its length. *)
Lemma padded_multiple padding (s : bytes) :
  1 < padding ->
  let final_len := ENCRYPT_OVERHEAD + size_of s in
  (ENCRYPT_OVERHEAD + size_of (if (1 <? padding) && negb (final_len mod padding =? 0)
     then s ++ replicate (Z.to_nat (padding - final_len mod padding)) char_nul else s)) mod padding = 0.
Proof.
  intros Hp final_len. rewrite (proj2 (Z.ltb_lt 1 padding)) by done. cbn [andb].
  destruct (Z.eqb_spec (final_len mod padding) 0) as [E|E]; cbn [negb]; [done|].
  rewrite size_of_app. unfold size_of at 2. rewrite length_replicate.
  pose proof (Z.mod_pos_bound final_len padding ltac:(lia)). rewrite Z2Nat.id by lia.
  replace (ENCRYPT_OVERHEAD + (size_of s + (padding - final_len mod padding)))
    with ((final_len / padding + 1) * padding); [apply Z_mod_mult|].
  pose proof (Z.div_mod final_len padding ltac:(lia)). unfold final_len in *. lia.
Qed.

Definition opens_alone (r : Keys) (c nonce key : bytes) : Prop :=
  forall key', key' ∈ group_keys r -> key' <> key -> aead_decrypt c nonce key' = None.

Lemma group_message_ok useed gpk k r key pt compress padding nonce :
  size_of useed = 32 -> user_ed25519_sk k = (ed_seed_keypair useed).2 ->
  sig_pk k = Some gpk -> sig_pk r = Some gpk -> group_enc_key k = Ok key -> key ∈ group_keys r ->
  size_of nonce = 24 -> pt <> [] -> size_of pt <= MAX_PLAINTEXT_MESSAGE_SIZE ->
  exists c, encrypt_message k pt compress padding nonce = Ok c /\
    (1 < padding -> size_of c mod padding = 0) /\
    (opens_alone r (drop 24 c) nonce key ->
     decrypt_message r c = Ok (bs "05" ++ to_hex (x_pubkey useed), pt)).
Proof.
  intros Hs Hu Hk Hr Hkey Hin Hn Hpt Hmax. unfold encrypt_message.
  rewrite (proj2 (Z.ltb_ge MAX_PLAINTEXT_MESSAGE_SIZE _)) by done. cbn [throw_if mbind res_bind].
  set (compressed := compress && _). set (data := if compressed then zstd_compress pt 1 [] else pt). rewrite Hk, Hu.
  set (pk := (ed_seed_keypair useed).1).
  assert (drop 32 (ed_seed_keypair useed).2 = pk) as Hpk.
  { rewrite ed_seed_sk by done. by rewrite drop_app_length' by (unfold size_of in Hs; lia). }
  rewrite Hpk. set (sig := ed_sign (data ++ gpk) _). fold (message_fields pk data sig compressed).
  set (encoded := bt_dict_print _). cbv zeta. set (padded := if _ && _ then _ else encoded).
  rewrite Hkey. cbn [mbind res_bind]. exists (nonce ++ aead_encrypt padded nonce key). split; [done|]. split.
  { intros Hp. rewrite size_of_app, aead_encrypt_size, Hn.
    replace (24 + (size_of padded + XCHACHA_ABYTES)) with (ENCRYPT_OVERHEAD + size_of padded)
      by (unfold ENCRYPT_OVERHEAD, XCHACHA_NPUBBYTES, XCHACHA_ABYTES; lia).
    by apply padded_multiple. }
  assert (length nonce = 24%nat) as Hl by (unfold size_of in Hn; lia).
  rewrite drop_app_length' by done. intros Ho. unfold decrypt_message.
  rewrite size_of_app, aead_encrypt_size, Hn. pose proof (size_of_nonneg padded).
  rewrite (proj2 (Z.ltb_ge _ _)) by (unfold ENCRYPT_OVERHEAD, XCHACHA_NPUBBYTES, XCHACHA_ABYTES; lia).
  cbn [throw_if mbind res_bind]. rewrite take_app_length', drop_app_length' by done.
  rewrite (open_with_keys_unique r _ _ key padded).
  - assert (strip_padding padded = encoded) as ->.
    { destruct (bt_dict_print_e (message_fields pk data sig compressed)) as [s Es]. fold encoded in Es.
      unfold padded. rewrite Es.
      match goal with |- strip_padding (if ?b then _ else _) = _ => destruct b end; [apply strip_null_padding|].
      rewrite <- (app_nil_r (s ++ _)) at 1. apply (strip_null_padding s 0). }
    assert (is_Some (ed_pk_to_curve25519 pk)) as Hx by (unfold pk; by rewrite ed_curve_keys).
    unfold encoded. rewrite parse_message_fields; [|by apply ed_seed_pk_size|done|apply ed_sign_size|].
    2: { unfold data. destruct compressed; [|done]. unfold zstd_compress. apply ZSTD_compress_nonempty. }
    unfold compute_xpk, pk. rewrite ed_curve_keys by done. cbn [mbind res_bind]. rewrite Hr.
    unfold sig. rewrite ed_verify_sign by done. cbn [negb throw_if mbind res_bind].
    unfold data. destruct compressed; [|done]. by rewrite decompress_bounded.
  - unfold group_keys in Hin. rewrite rev_alt in Hin. apply elem_of_app in Hin as [Hin|Hin];
      apply elem_of_app; [by left|right]. by apply (proj1 (elem_of_reverse _ _) Hin).
  - apply aead_decrypt_encrypt.
  - intros key' m' Hk' Hd. destruct (decide (key' = key)) as [->|Hne].
    + rewrite aead_decrypt_encrypt in Hd. by injection Hd as <-.
    + by rewrite (Ho key') in Hd.
Qed.
End WithLibraries.
