(* ===== verification/DataProperties.v ===== *)
(** * Properties of config data: diffs, pruning, the data encoding

    The correctness theorems about [ConfigData] and [ConfigParse], each with an example that
    applies it to concrete data. *)
From S2P Require Import Prelude OMap BtValue Bencode ConfigData ConfigDataFacts ConfigParse.
From S2P Require Import ConfigParseFacts MessageFacts ReplayFacts.

(** The data of the examples: an old and a new version of a small config. *)
Definition ex_old : dict :=
  [(bs "a", VScalar (SInt 1)); (bs "b", VSet [SInt 3; SStr "x"]);
   (bs "c", VDict [(bs "d", VScalar (SStr "y"))])].
Definition ex_new : dict :=
  [(bs "a", VScalar (SInt 2)); (bs "b", VSet [SInt 3; SInt 4]);
   (bs "c", VDict [(bs "e", VScalar (SStr "z"))])].
(** What somebody else made of the old version. *)
Definition ex_other : dict :=
  [(bs "a", VScalar (SInt 7)); (bs "b", VSet [SInt 5; SStr "x"]); (bs "f", VScalar (SInt 0))].

(** The scalar a bt value is read as. *)
Definition scalar_of (v : bt_value) : option scalar :=
  match v with BInt z => Some (SInt z) | BStr s => Some (SStr s) | _ => None end.

(** Closes well-formedness goals about closed data. *)
Ltac wf_concrete :=
  repeat match goal with
  | |- valid_diff _ => split
  | |- valid_diff_value _ => cbn
  | |- valid_sublist ?l => let s := eval vm_compute in (omap scalar_of l) in exists s
  | |- exists a r, [BList ?x; BList ?y] = _ /\ _ => exists x, y
  | |- _ = _ \/ _ => first [left; reflexivity | right; reflexivity]
  | |- wf_lags _ => split
  | |- wf_lag _ => unfold wf_lag
  | |- wf_unknown _ => split
  | |- in_window _ _ _ => split
  | |- (_ < _)%Z => reflexivity
  | |- (_ <= _)%Z => discriminate
  | |- seqno_ok _ _ => split
  | |- from_option _ _ _ => cbn
  | |- wf_dict _ => split
  | |- pruned_dict _ => unfold pruned_dict
  | |- msorted _ => unfold msorted
  | |- ssorted _ => unfold ssorted
  | |- Forall _ ?l => let l' := eval hnf in l in change l with l'; constructor
  | |- StronglySorted _ ?l => let l' := eval hnf in l in change l with l'; constructor
  | |- wf_value _ => cbn
  | |- pruned_value _ => cbn
  | |- _ /\ _ => split
  | |- True => exact I
  | |- _ <> _ => discriminate
  | |- klt _ _ => reflexivity
  | |- _ = _ => reflexivity
  | |- _ => progress cbn
  end.

Section DataProperties.
Context `{Oxenc}.

(** C1: [diff_impl] refines the declarative specification [diff_rel] of a diff: on well-formed,
    pruned data it always returns (no undefined dereference, no endless loop), what it returns
    records exactly the differences key by key and level by level, and it returns nothing
    precisely when the two versions are equal. *)
Theorem diff_refines old new_ :
  wf_dict old -> wf_dict new_ -> pruned_dict old -> pruned_dict new_ ->
  exists o, diff_impl old new_ = Ok o /\ diff_rel old new_ (value_or o []) /\
            (o = None <-> old = new_).
Proof.
  intros Ho Hn Hpo Hpn. destruct (diff_impl_spec old new_) as (df & -> & Hr); [done..|].
  exists (nonempty_dict df). destruct df as [|e df]; cbn.
  - split_and!; [done|done|]. split; [|done]. intros _. by apply diff_rel_nil_eq.
  - split_and!; [done|done|]. split; [done|]. intros <-. by apply diff_rel_self in Hr.
Qed.

(** C2: a diff carries a config from its old to its new version: applying what [diff_impl]
    recorded to the old data, with the new data as the source of values, gives exactly the new
    data. *)
Theorem diff_apply old new_ :
  wf_dict old -> wf_dict new_ -> pruned_dict old -> pruned_dict new_ ->
  exists o, diff_impl old new_ = Ok o /\ apply_diff old (value_or o []) new_ = Ok new_.
Proof.
  intros Ho Hn Hpo Hpn. destruct (diff_impl_spec old new_) as (df & -> & Hr); [done..|].
  exists (nonempty_dict df). split; [done|].
  assert (value_or (nonempty_dict df) [] = df) as -> by (by destruct df).
  destruct (proj1 diff_applies_mut _ _ _ Hr old) as (r & -> & _ & _ & Hs); [done..|].
  by rewrite Hs.
Qed.

(** a change wins over whatever it is replayed on: applied to any well-formed data, a diff
    from [old] to [new_] gives well-formed data in which every scalar and every set member (at
    any depth) that differs between [old] and [new_] has its state of [new_]. *)
Theorem diff_changes_win old new_ data df :
  wf_dict old -> wf_dict new_ -> wf_dict data -> diff_rel old new_ df ->
  exists r, apply_diff data df new_ = Ok r /\ wf_dict r /\
    forall ob p, observe_at ob p old <> observe_at ob p new_ ->
                 observe_at ob p r = observe_at ob p new_.
Proof.
  intros Ho Hn Hd Hr. destruct (proj1 diff_applies_mut _ _ _ Hr data) as (r & He & Hw & Hwin & _);
    [done..|]. by exists r.
Qed.

(** any diff that passed the parser's checks can be applied to any data without throwing, and
    leaves every position that the diff does not name as it was. *)
Theorem apply_diff_total_frame data df src :
  valid_diff df -> wf_dict data -> wf_dict src ->
  exists r, apply_diff data df src = Ok r /\ wf_dict r /\
    forall ob p, disjoint p df src -> observe_at ob p r = observe_at ob p data.
Proof.
  intros Hv Hd Hs. destruct (apply_diff_valid data df src) as (r & He & Hw); [done..|].
  exists r. split_and!; [done|done|]. intros ob p Hp. by eapply apply_diff_frame.
Qed.

(** pruning removes exactly the empty sets and dicts: the result is well formed and has no
    empty container left, no scalar and no set member is lost, the returned flag tells whether
    anything was removed, and pruning again changes nothing. *)
Theorem prune_correct d :
  wf_dict d ->
  wf_dict (prune_dict d).2 /\ pruned_dict (prune_dict d).2 /\
  (forall ob p, observe_at ob p (prune_dict d).2 = observe_at ob p d) /\
  ((prune_dict d).1 = true <-> (prune_dict d).2 <> d) /\
  prune_dict (prune_dict d).2 = (false, (prune_dict d).2).
Proof.
  intros Hw. destruct (prune_dict_good d Hw) as [Hg Hp].
  destruct (prune_dict_changed d) as (_ & Ht & Hf).
  split_and!; [done|done|intros; by apply prune_dict_observed| |by apply prune_dict_pruned].
  destruct ((prune_dict d).1); split; intros Hx; try done.
  - intros He. specialize (Ht eq_refl). rewrite He in Ht. lia.
  - by destruct (Hx (Hf eq_refl)).
Qed.

(** config data survives its encoding: what [serialize_data] writes for well-formed, pruned
    data is read back by [parse_data] as the same data. *)
Theorem data_roundtrip d :
  wf_dict d -> pruned_dict d -> parse_data (serialize_data d) = Ok d.
Proof. apply parse_data_complete. Qed.

(** the encoding of data is canonical: whatever [parse_data] accepts is well formed and pruned,
    and is exactly what [serialize_data] writes for the result, so no two different inputs give
    the same data. *)
Theorem data_canonical inp inp' d :
  parse_data inp = Ok d -> parse_data inp' = Ok d ->
  wf_dict d /\ pruned_dict d /\ serialize_data d = inp /\ inp' = inp.
Proof.
  intros (Hw & Hp & He)%parse_data_sound (_ & _ & He')%parse_data_sound. by subst.
Qed.

(** a diff survives its encoding: what [diff_impl] records between two well-formed versions
    passes all of [load_diff]'s checks and is loaded as itself. *)
Theorem diff_loads old new_ df :
  wf_dict old -> wf_dict new_ -> diff_rel old new_ df -> load_diff df = Ok df.
Proof. intros Ho Hn Hr. by apply load_diff_valid, (diff_rel_valid old new_). Qed.

(** C40: [load_diff] returns (a diff or an error) on every input without integer values: the loop
    never runs out of its fuel, one step per pair at any depth.  An integer value makes it loop
    for ever: no branch of its loop consumes it, so no number of steps is enough, whatever
    follows. *)
Theorem load_diff_terminates d :
  (forallb (fun kv => int_free kv.2) d = true -> load_diff d <> Throw OutOfFuel) /\
  (forall fuel k z rest, load_diff_loop fuel ((k, BInt z) :: rest) [] = Throw OutOfFuel).
Proof.
  split; [|intros; by apply load_diff_loop_int].
  intros Hi. apply load_diff_loop_terminates; [lia|done].
Qed.

End DataProperties.

(** ** Examples *)

Lemma diff_refines_example :
  exists o, diff_impl ex_old ex_new = Ok o /\ diff_rel ex_old ex_new (value_or o []) /\
            (o = None <-> ex_old = ex_new).
Proof. apply (diff_refines ex_old ex_new); wf_concrete. Defined.

Lemma diff_apply_example :
  exists o, diff_impl ex_old ex_new = Ok o /\
            @apply_diff bencode ex_old (value_or o []) ex_new = Ok ex_new.
Proof. apply (@diff_apply bencode ex_old ex_new); wf_concrete. Defined.

(** The diff between the two versions. *)
Definition ex_diff : bt_dict :=
  [(bs "a", BStr ""); (bs "b", BList [BList [BInt 4]; BList [BStr "x"]]);
   (bs "c", BDict [(bs "d", BStr "-"); (bs "e", BStr "")])].

Lemma ex_diff_rel : diff_rel ex_old ex_new ex_diff.
Proof.
  destruct (diff_impl_spec ex_old ex_new) as (df & He & Hr); [wf_concrete..|].
  assert (nonempty_dict df = Some ex_diff) as Hd.
  { assert (Ok (nonempty_dict df) = Ok (Some ex_diff)) as [= Hd]; [|done].
    rewrite <- He. by vm_compute. }
  apply (f_equal (fun o => value_or o [])) in Hd. destruct df; [done|]. cbn [value_or nonempty_dict is_nil] in Hd. by rewrite <- Hd.
Qed.

Lemma diff_changes_win_example :
  exists r, @apply_diff bencode ex_other ex_diff ex_new = Ok r /\ wf_dict r /\
    forall ob p, observe_at ob p ex_old <> observe_at ob p ex_new ->
                 observe_at ob p r = observe_at ob p ex_new.
Proof. apply (@diff_changes_win bencode ex_old); [wf_concrete..|apply ex_diff_rel]. Defined.

Lemma ex_diff_valid : valid_diff ex_diff.
Proof. apply (diff_rel_valid ex_old ex_new); [apply ex_diff_rel|wf_concrete..]. Qed.

Lemma apply_diff_total_frame_example :
  exists r, @apply_diff bencode ex_other ex_diff ex_new = Ok r /\ wf_dict r /\
    forall ob p, disjoint p ex_diff ex_new -> observe_at ob p r = observe_at ob p ex_other.
Proof. apply (@apply_diff_total_frame bencode); [apply ex_diff_valid|wf_concrete..]. Defined.

Definition ex_unpruned : dict :=
  [(bs "a", VScalar (SInt 1)); (bs "b", VSet []); (bs "c", VDict [(bs "d", VDict [])])].

Lemma prune_correct_example :
  let d := ex_unpruned in
  wf_dict (prune_dict d).2 /\ pruned_dict (prune_dict d).2 /\
  (forall ob p, observe_at ob p (prune_dict d).2 = observe_at ob p d) /\
  ((prune_dict d).1 = true <-> (prune_dict d).2 <> d) /\
  prune_dict (prune_dict d).2 = (false, (prune_dict d).2).
Proof. apply (prune_correct ex_unpruned); wf_concrete. Defined.

Lemma data_roundtrip_example : parse_data (serialize_data ex_old) = Ok ex_old.
Proof. apply (data_roundtrip ex_old); wf_concrete. Defined.

Lemma data_canonical_example :
  wf_dict ex_old /\ pruned_dict ex_old /\ serialize_data ex_old = serialize_data ex_old /\
  serialize_data ex_old = serialize_data ex_old.
Proof. by apply (data_canonical (serialize_data ex_old) (serialize_data ex_old) ex_old); vm_compute. Defined.

Lemma diff_loads_example : @load_diff bencode ex_diff = Ok ex_diff.
Proof. apply (@diff_loads bencode ex_old ex_new); [wf_concrete..|apply ex_diff_rel]. Defined.

Lemma load_diff_terminates_example : @load_diff bencode ex_diff <> Throw OutOfFuel.
Proof. by apply (@load_diff_terminates bencode ex_diff); vm_compute. Defined.
