(* ===== verification/MessageProperties.v ===== *)
(** * Properties of config messages: encoding, editing, merging

    The correctness theorems about [ConfigMessage], each with an example on concrete messages. *)
From S2P Require Import Prelude OMap BtValue ThirdParty Bencode ConfigData ConfigDataFacts.
From S2P Require Import ConfigParse ConfigParseFacts ConfigMessage MessageFacts MergeFacts.
From S2P Require Import ReplayFacts Instances SyncFacts.
From S2P Require Import DataProperties.

(** ** Example messages: two edits of the same message *)
Definition ex_empty : ConfigMessage :=
  Eval vm_compute in
    match @parse_message bencode toy_hash "d1:#i1e1:&de1:<le1:=dee" None None 5 false with
    | Ok m => m
    | Throw _ => blank_message
    end.

Definition ex_edit (m : ConfigMessage) (d : dict) : ConfigMessage :=
  match (m1 ← @increment bencode toy_hash m;
         let! (s, _) := @serialize bencode (edited m1 d) true in
         @parse_message bencode toy_hash s None None 5 false) with
  | Ok m => m
  | Throw _ => blank_message
  end.

Definition ex_m0 : ConfigMessage := Eval vm_compute in ex_edit ex_empty ex_old.
Definition ex_a : ConfigMessage := Eval vm_compute in ex_edit ex_m0 ex_new.
Definition ex_b : ConfigMessage := Eval vm_compute in ex_edit ex_m0 ex_other.

Definition ex_merged : ConfigMessage :=
  Eval vm_compute in
    match @merge_configs bencode toy_hash [ex_a; ex_b] None None 5 with
    | Ok m => m
    | Throw _ => blank_message
    end.

Section MessageProperties.
Context `{Oxenc} `{Blake2b}.

(** C9: a message survives its encoding.  A well-formed message with pruned data serializes (with
    whatever diff it carries), and parsing the output (whatever bytes follow it) gives back its
    data, seqno, unknown keys and diff, the lagged diffs that are inside the window, and the
    signature, which the verifier has accepted; its hash is the hash of the bytes. *)
Theorem message_roundtrip m df enable vf sg trust junk :
  wf_message m -> pruned_dict (data_ m) -> valid_diff df ->
  (forall body, from_option (fun s => size_of s = 64) True (written_sig m body enable)) ->
  (forall body, sig_accepted vf body (written_sig m body enable)) ->
  exists out body, serialize_impl m df enable = Ok out /\ message_pairs m df = Ok body /\
    parse_message (out ++ junk) vf sg (lag m) trust =
      Ok {| data_ := data_ m; diff_ := df;
            lagged_diffs_ := window (seqno m) (lag m) (lagged_diffs_ m); unknown_ := unknown_ m;
            seqno_hash_ := (seqno m, hash_msg (out ++ junk));
            verified_signature_ := kept_sig vf trust (written_sig m body enable);
            unmerged_ := None; verifier := vf; signer := sg; lag := lag m; orig_data_ := None |}.
Proof. apply serialize_parse. Qed.

(** C10: the edit cycle.  Incrementing a received message, changing its data and serializing it
    produces a message that others parse as: the new data (pruned), seqno one higher, the diff
    between the old and the new data (which, applied to the old data, gives the new), the old
    message's own diff moved to the lagged diffs, and the unknown keys preserved. *)
Theorem edit_and_send m d vf sg :
  wf_message m -> parsed_ok (lag m) m -> in_int64 (seqno m + 1) = true ->
  in_int64 (seqno m + 1 - lag m) = true -> size_of (seqno_hash_ m).2 = HASH_SIZE -> wf_dict d ->
  sign_ok (signer m) ->
  (forall body sig, match vf with
    | None => True
    | Some v => exists sign, signer m = Some sign /\ (sig = sign body -> v body sig = true) end) ->
  exists m1 out m2 df,
    increment m = Ok m1 /\ serialize (edited m1 d) true = Ok (out, m2) /\
    let new_ := (prune_dict d).2 in
    diff_rel (data_ m) new_ df /\ apply_diff (data_ m) df new_ = Ok new_ /\
    exists vsig,
    parse_message out vf sg (lag m) false = Ok
      {| data_ := new_; diff_ := df;
         lagged_diffs_ := window (seqno m + 1) (lag m)
                            (lagged_diffs_ m ++ [(seqno_hash_ m, diff_ m)]);
         unknown_ := unknown_ m; seqno_hash_ := (seqno m + 1, hash_msg out);
         verified_signature_ := vsig; unmerged_ := None; verifier := vf; signer := sg;
         lag := lag m; orig_data_ := None |}.
Proof. apply edit_cycle. Qed.

(** C39: a message that parses is sound: its data is well formed and pruned, its lagged diffs are
    sorted and all inside the window below its seqno, its seqno fits 64 bits, and its hash is the
    hash of the given bytes. *)
Theorem parse_message_invariant s vf sg l trust m :
  parse_message s vf sg l trust = Ok m ->
  parsed_ok l m /\ verifier m = vf /\ signer m = sg /\ lag m = l /\ (seqno_hash_ m).2 = hash_msg s.
Proof. apply parse_message_sound. Qed.

(** C11: which messages take part in a merge.  For parsed messages without hash collisions, the
    redundancy marking keeps at least one message, no duplicates, and exactly the messages that
    no other message includes in its history and that are not a whole window behind. *)
Theorem survivors_exact l configs :
  Forall (parsed_ok l) configs -> collision_free configs -> 1 <= l -> configs <> [] ->
  Forall (fun c => in_int64 (seqno c + l) = true) configs ->
  exists marked, mark_redundant l (max_seqno configs) configs 0 configs = Ok marked /\
    good marked <> [] /\ NoDup (seqno_hash_ <$> good marked) /\
    forall c, c ∈ good marked <-> c ∈ configs /\ survives l (max_seqno configs) configs c.
Proof.
  intros Hpo Hcf Hl Hne Hov.
  destruct (proj2 (mark_redundant_total l (max_seqno configs) configs 0 configs) Hov) as [mk Hmk].
  exists mk. destruct (good_elem l _ _ _ Hpo Hcf Hmk). split_and!; [done| |done|done].
  by eapply good_nonempty.
Qed.

(** C3: merging does not depend on the order in which messages arrive: if the bytes of the given
    messages have no hash collision among them, any two orders give the same result (or the same
    failure), up to the reported position of a message that was taken unmerged.  Each message
    parses or is refused with a [config_error] (another exception of the parser would leave the
    merge at the first message that has one), and the error handler ignores the refused ones. *)
Theorem merge_order_independent confs1 confs2 vf sg l :
  confs1 ≡ₚ confs2 -> Forall (skippable vf sg l) confs1 ->
  (forall s s', s ∈ confs1 -> s' ∈ confs1 -> hash_msg s = hash_msg s' -> s = s') -> 1 <= l ->
  erase_index <$> merge_message confs1 vf sg l (fun _ _ => Ok tt) =
  erase_index <$> merge_message confs2 vf sg l (fun _ _ => Ok tt).
Proof. apply merge_message_perm. Qed.

(** C4: merging converges: a message produced by a merge serializes and parses, and merging it
    with the messages it was made from yields that very message, so no further merge message is
    created. *)
Theorem merge_absorbs configs vf sg l m :
  Forall (parsed_ok l) configs -> Forall sound_conf configs -> 1 <= l -> configs <> [] ->
  merge_configs configs vf sg l = Ok m -> unmerged_ m = None ->
  in_int64 (seqno m - l) = true -> in_int64 (seqno m + l) = true ->
  sign_ok sg -> verifies vf m true ->
  exists s m', serialize m true = Ok (s, m) /\ parse_message s vf sg l false = Ok m' /\
    data_ m' = data_ m /\ seqno m' = seqno m /\
    erase_index <$> merge_configs (m' :: configs) vf sg l = Ok (with_unmerged m' (Some O)).
Proof. apply merge_converges. Qed.

(** in a merge the highest (seqno, hash) wins: every position its own diff changed has, in
    the merged data, the value that message gave it. *)
Theorem merge_top_wins l c cs mx vf sg m old :
  Forall (parsed_ok l) (c :: cs) -> Forall replayable (c :: cs) ->
  StronglySorted hash_gt (c :: cs) -> merge_sorted_confs (c :: cs) mx vf sg l = Ok m ->
  wf_dict old -> diff_rel old (data_ c) (diff_ c) ->
  forall ob p, observe_at ob p old <> observe_at ob p (data_ c) ->
    observe_at ob p (data_ m) = observe_at ob p (data_ c).
Proof. apply merge_top_observed. Qed.

(** the merge itself never fails on messages as the library writes them, gives the next
    seqno, and its history contains every merged message and everything in their histories. *)
Theorem merge_keeps_history cs mx vf sg l :
  Forall sound_conf cs -> in_int64 (mx + 1) = true -> in_int64 (mx + 1 - l) = true -> sign_ok sg ->
  exists m, merge_sorted_confs cs mx vf sg l = Ok m /\ seqno m = mx + 1 /\
    wf_lags (lagged_diffs_ m) /\
    forall c, c ∈ cs -> includes m c = true /\
      forall k, is_Some (mfind k (lagged_diffs_ c)) -> is_Some (mfind k (lagged_diffs_ m)).
Proof.
  intros Hf H1 H2 Hs. destruct (merge_sorted_total cs mx vf sg l) as [m Hm]; [|done..|].
  { eapply Forall_impl; [apply Hf|]. apply sound_replayable. }
  exists m. split; [done|]. split; [by apply merge_sorted_inv in Hm as (_ & _ & _ & ? & _)|].
  split; [by eapply merged_lags_wf|]. intros c Hc. eapply merge_sorted_history; [|done..].
  eapply Forall_impl; [apply Hf|]. by intros ? (_ & _ & [? _] & _).
Qed.
End MessageProperties.

(** ** Examples *)

Lemma ex_a_parsed : parsed_ok 5 ex_a.
Proof. constructor; wf_concrete. Qed.
Lemma ex_b_parsed : parsed_ok 5 ex_b.
Proof. constructor; wf_concrete. Qed.
Lemma ex_a_wf : wf_message ex_a.
Proof. constructor; wf_concrete. Qed.
Lemma ex_a_sound : sound_conf ex_a.
Proof. split_and!; wf_concrete. Qed.
Lemma ex_b_sound : sound_conf ex_b.
Proof. split_and!; wf_concrete. Qed.
Lemma ex_parsed : Forall (parsed_ok 5) [ex_a; ex_b].
Proof. apply Forall_cons; split; [apply ex_a_parsed|]. apply Forall_singleton, ex_b_parsed. Qed.

Lemma message_roundtrip_example :
  exists out body, @serialize_impl bencode ex_a ex_diff true = Ok out /\
    message_pairs ex_a ex_diff = Ok body /\
    @parse_message bencode toy_hash (out ++ "junk") None None 5 false =
      Ok {| data_ := data_ ex_a; diff_ := ex_diff;
            lagged_diffs_ := window 3 5 (lagged_diffs_ ex_a); unknown_ := unknown_ ex_a;
            seqno_hash_ := (3, @hash_msg toy_hash (out ++ "junk"));
            verified_signature_ := kept_sig None false (@written_sig bencode ex_a body true);
            unmerged_ := None; verifier := None; signer := None; lag := 5; orig_data_ := None |}.
Proof.
  apply (@message_roundtrip bencode toy_hash ex_a ex_diff true None None false "junk");
    [apply ex_a_wf|wf_concrete|apply ex_diff_valid|done|done].
Defined.

Lemma edit_and_send_example :
  exists m1 out m2 df,
    @increment bencode toy_hash ex_a = Ok m1 /\
    @serialize bencode (edited m1 ex_other) true = Ok (out, m2) /\
    let new_ := (prune_dict ex_other).2 in
    diff_rel (data_ ex_a) new_ df /\ @apply_diff bencode (data_ ex_a) df new_ = Ok new_ /\
    exists vsig,
    @parse_message bencode toy_hash out None None (lag ex_a) false = Ok
      {| data_ := new_; diff_ := df;
         lagged_diffs_ := window (seqno ex_a + 1) (lag ex_a)
                            (lagged_diffs_ ex_a ++ [(seqno_hash_ ex_a, diff_ ex_a)]);
         unknown_ := unknown_ ex_a; seqno_hash_ := (seqno ex_a + 1, @hash_msg toy_hash out);
         verified_signature_ := vsig; unmerged_ := None; verifier := None; signer := None;
         lag := lag ex_a; orig_data_ := None |}.
Proof.
  apply (@edit_and_send bencode toy_hash ex_a ex_other None None);
    [apply ex_a_wf|apply ex_a_parsed|done|done|done|wf_concrete|done|done].
Defined.

Lemma parse_message_invariant_example :
  parsed_ok 5 ex_empty /\ verifier ex_empty = None /\ signer ex_empty = None /\ lag ex_empty = 5 /\
  (seqno_hash_ ex_empty).2 = @hash_msg toy_hash "d1:#i1e1:&de1:<le1:=dee".
Proof.
  apply (@parse_message_invariant bencode toy_hash "d1:#i1e1:&de1:<le1:=dee" None None 5 false ex_empty).
  by vm_compute.
Defined.

Lemma survivors_exact_example :
  let configs := [ex_a; ex_b] in
  exists marked, mark_redundant 5 (max_seqno configs) configs 0 configs = Ok marked /\
    good marked <> [] /\ NoDup (seqno_hash_ <$> good marked) /\
    forall c, c ∈ good marked <-> c ∈ configs /\ survives 5 (max_seqno configs) configs c.
Proof.
  apply (survivors_exact 5 [ex_a; ex_b]); [apply ex_parsed| |done|done|by repeat constructor].
  intros c c' Hc Hc' He. set_unfold. destruct Hc as [->|[->|[]]], Hc' as [->|[->|[]]]; done.
Defined.

(** The example messages as bytes. *)
Definition ex_bytes (m : ConfigMessage) : bytes :=
  match @serialize bencode m true with Ok (s, _) => s | Throw _ => [] end.

Lemma merge_order_independent_example :
  let s1 := ex_bytes ex_a in let s2 := ex_bytes ex_b in
  erase_index <$> @merge_message bencode toy_hash [s1; s2] None None 5 (fun _ _ => Ok tt) =
  erase_index <$> @merge_message bencode toy_hash [s2; s1] None None 5 (fun _ _ => Ok tt).
Proof.
  apply (@merge_order_independent bencode toy_hash [ex_bytes ex_a; ex_bytes ex_b]
           [ex_bytes ex_b; ex_bytes ex_a] None None 5);
    [apply perm_swap|by repeat constructor; vm_compute| |done].
  intros s s' Hs Hs' He. set_unfold.
  destruct Hs as [->|[->|[]]], Hs' as [->|[->|[]]]; done.
Defined.

Lemma merge_absorbs_example :
  exists s m', @serialize bencode ex_merged true = Ok (s, ex_merged) /\
    @parse_message bencode toy_hash s None None 5 false = Ok m' /\
    data_ m' = data_ ex_merged /\ seqno m' = seqno ex_merged /\
    erase_index <$> @merge_configs bencode toy_hash [m'; ex_a; ex_b] None None 5 =
      Ok (with_unmerged m' (Some O)).
Proof.
  apply (@merge_absorbs bencode toy_hash [ex_a; ex_b] None None 5 ex_merged);
    [apply ex_parsed|constructor; [apply ex_a_sound|constructor; [apply ex_b_sound|constructor]]
    |done|done|by vm_compute|done|done|done|done|done].
Defined.

Lemma ex_a_replayable : Forall replayable [ex_a; ex_b].
Proof.
  apply Forall_cons; split; [apply sound_replayable, ex_a_sound|].
  apply Forall_singleton, sound_replayable, ex_b_sound.
Qed.

Lemma merge_top_wins_example :
  observe_at OScalar [bs "a"] (data_ ex_merged) = Some (SInt 2).
Proof.
  etransitivity; [apply (@merge_top_wins bencode toy_hash 5 ex_a [ex_b] 3 None None ex_merged ex_old);
    [apply ex_parsed|apply ex_a_replayable|repeat constructor|by vm_compute|wf_concrete
    |apply ex_diff_rel|by vm_compute]|by vm_compute].
Defined.

Lemma merge_keeps_history_example :
  exists m, @merge_sorted_confs bencode toy_hash [ex_a; ex_b] 3 None None 5 = Ok m /\
    seqno m = 3 + 1 /\ wf_lags (lagged_diffs_ m) /\
    forall c, c ∈ [ex_a; ex_b] -> includes m c = true /\
      forall k, is_Some (mfind k (lagged_diffs_ c)) -> is_Some (mfind k (lagged_diffs_ m)).
Proof.
  apply (@merge_keeps_history bencode toy_hash [ex_a; ex_b] 3 None None 5);
    [constructor; [apply ex_a_sound|constructor; [apply ex_b_sound|constructor]]|done|done|done].
Defined.
