(* ===== verification/SyncProperties.v ===== *)
(** * Properties of encryption, keys and synchronization

    The correctness theorems about the wire format and the config object ([Encrypt],
    [SessionEncrypt], [Protos], [ConfigBase], [Multipart], [BaseSync], [BtMerge]), each with an
    example. *)
From S2P Require Import Prelude OMap BtValue ThirdParty Bencode BtMerge ConfigData.
From S2P Require Import ConfigDataFacts ConfigParse ConfigParseFacts ConfigMessage.
From S2P Require Import MessageFacts MergeFacts ReplayFacts Encrypt.
From S2P Require Import SessionEncrypt Protos Instances ConfigBase BaseFacts Multipart.
From S2P Require Import MultipartFacts BaseSync SyncFacts DumpFacts DataProperties.
From S2P Require Import MessageProperties.

Section SyncProperties.
Context `{Oxenc} `{CryptoBox} `{Aead} `{Zstd} `{Protobuf}.
Variable ty : ConfigType.

(** padding is exact and reversible.  For sizes that do not overflow, [pad_message] produces
    [padded_size] bytes: the message, plus less than one chunk (256, 1024, 2048 or 5120 bytes) of
    padding, so that with the overhead the total is a multiple of the chunk; and stripping the
    padding gives the message back (a message starts with a non-null byte). *)
Theorem padding_exact s o :
  size_ok (size_of s) o -> unpadded s ->
  exists chunk, chunk ∈ [256; 1024; 2048; 5120] /\
    size_of s <= size_of (pad_message s o) < size_of s + chunk /\
    (size_of (pad_message s o) + o) mod chunk = 0 /\ strip_padding (pad_message s o) = s.
Proof.
  intros Hs Hu. destruct (padded_size_eq _ _ Hs) as (chunk & Hc & _ & ? & ? & ?).
  exists chunk. rewrite pad_message_size by done. split_and!; try done. by apply strip_pad.
Qed.

(** a config message encrypted with a 32-byte key and a valid domain is [40] bytes longer and
    decrypts to itself with the same key and domain; a ciphertext too short to hold a nonce and a
    tag is refused with a decryption error, whatever the key (the unsigned size computation wraps
    around and is caught). *)
Theorem encrypt_then_decrypt message key_base domain :
  key_args_ok key_base domain -> size_of message < 2 ^ 63 ->
  (exists c, encrypt message key_base domain = Ok c /\
    size_of c = size_of message + ENCRYPT_DATA_OVERHEAD /\ decrypt c key_base domain = Ok message) /\
  (forall c key domain, size_of c < ENCRYPT_DATA_OVERHEAD -> decrypt c key domain = Throw DecryptError).
Proof.
  intros Hk Hm. split; [|apply decrypt_short].
  destruct (decrypt_encrypt message key_base domain Hk Hm) as (c & He & Hd).
  exists c. split_and!; [done|by eapply encrypt_size|done].
Qed.

(** a message encrypted for a recipient is decrypted by that recipient to the same message,
    and the verified sender is the one who sent it. *)
Theorem recipient_roundtrip sender recipient message :
  size_of sender = 32 -> size_of recipient = 32 ->
  exists c, encrypt_for_recipient_deterministic sender (x_pubkey recipient) message = Ok c /\
            decrypt_incoming recipient c = Ok (message, (ed_seed_keypair sender).1).
Proof. apply deterministic_roundtrip. Qed.

(** a config wrapped for one of the user namespaces is unwrapped by its owner to the same
    data. *)
Theorem config_wrapper_roundtrip seed data seqno t :
  size_of seed = 32 -> user_namespace t = true ->
  exists c, wrap_config seed data seqno t = Ok c /\ unwrap_config seed c t = Ok data.
Proof. apply wrap_unwrap. Qed.

(** the key list stays a list of distinct 32-byte keys when keys are added and removed.  An
    added key is in it (at the front if it is of high priority, otherwise the front key stays) and
    no other key appears or disappears; removing a key removes exactly it and reports whether it
    was there. *)
Theorem key_list_invariant b k hp d :
  keys_ok (_keys b) ->
  (forall b', add_key b k hp d = Ok b' ->
     keys_ok (_keys b') /\ (hp = true -> head (_keys b') = Some k) /\
     (hp = false -> _keys b <> [] -> head (_keys b') = head (_keys b)) /\
     (forall x, x ∈ _keys b' <-> x = k \/ x ∈ _keys b)) /\
  (forall r b', remove_key b k 0 d = Ok (r, b') ->
     keys_ok (_keys b') /\ (r = true <-> k ∈ _keys b) /\
     (forall x, x ∈ _keys b' <-> x <> k /\ x ∈ _keys b)).
Proof.
  intros Hk. split.
  - intros b' Ha. destruct (add_key_ok b k hp d b' Hk Ha) as (? & _ & ? & ? & ?). done.
  - intros r b' Hr. destruct (remove_key_ok b k 0 d r b' Hk Hr) as (Ho & Hx & Hb).
    destruct (Hx eq_refl) as [Hn He]. split_and!; [done|done|]. intros x.
    destruct (decide (x = k)) as [->|Hne]; [naive_solver|]. by rewrite He; naive_solver.
Qed.

(** [push] sends what [serialize] wrote.  For an object with a usable key it returns the
    config's seqno and encryptions of the padded message (or of its parts, if it is too big for
    one), wrapped for old clients if the type asks for it and it fits, none bigger than the storage
    limit; the object is then waiting for confirmation if it
    was dirty, and its obsolete hashes have been handed out. *)
Theorem push_sends now b k ks s c :
  wrappable ty -> _keys b = k :: ks -> key_fits ty k ->
  serialize (_config b) true = Ok (s, c) -> size_of (padded ty s) <= MAX_MULTIPART_SIZE ->
  exists plains msgs b',
    plaintexts ty s = Ok plains /\
    push ty now b =
      Ok ((seqno (_config b), msgs, if is_readonly b then [] else _old_hashes b), b') /\
    Forall2 (carries ty k) plains msgs /\
    Forall (fun m => size_of m <= MAX_MESSAGE_SIZE) msgs /\
    _config b' = c /\ _keys b' = _keys b /\ _old_hashes b' = [] /\
    _curr_hashes b' = _curr_hashes b /\ _state b' = (if is_dirty b then Waiting else _state b).
Proof. apply push_ok. Qed.

(** C13: multipart messages survive reordering.  A message too big for one push splits into between
    2 and 66 parts that each fit a push, and a receiver who gets the parts in any order accepts
    all of them, completes the message exactly once, and gets back the original with the ids of
    all the parts in part order. *)
Theorem multipart_any_order now msg r ids :
  splittable msg -> decode_recombined msg = Ok r ->
  exists outs, multipart_parts msg = Ok outs /\ 2 <= size_of outs <= 66 /\
    Forall (fun o => size_of o + ENCRYPT_DATA_OVERHEAD <= MAX_MESSAGE_SIZE) outs /\
    forall order b, order ≡ₚ imap (fun i o => (i, o)) outs ->
      mfind (generichash 32 [] msg) (_multiparts b) = None ->
      exists b', receive_all now b ((fun io : nat * bytes => (ids io.1, io.2)) <$> order) =
        (replicate (length outs) true, [(imap (fun i _ => ids i) outs, r)], b').
Proof.
  intros Hs Hd. destruct (multipart_parts_ok msg Hs) as (outs & Ho & Hn & Hf & _).
  exists outs. split; [done|]. split.
  { rewrite Hn. by destruct (num_parts_range msg Hs). }
  split; [done|]. intros order b Hp Hm. by eapply reassemble.
Qed.

(** C8: end to end: what one device pushes, another device with the same key merges, for every type of
    config: also those of the user, whose messages [push] wraps in protobuf for old clients if the
    wrapping fits, and [merge] unwraps up to twice.  A fresh object that gets the pushed messages in
    order takes over exactly the sender's data and seqno, reports every message as good, is clean,
    and remembers the messages' hashes as the current config.  The sender's message must be one that
    its own kind of object makes and can send: well formed, with a signature that the receiver
    accepts, with the lag of the type, a seqno that is not 0 and far from overflow, and at most the
    maximal size when padded; and for the types with wrapping no ciphertext may itself be what
    [unwrap_config] accepts. *)
Theorem push_then_merge now now' b1 b2 k vf sg :
  wrappable ty -> (exists ks, _keys b1 = k :: ks) -> key_fits ty k ->
  sendable (_config b1) -> verifies vf (_config b1) true -> lag (_config b1) = config_lags ty ->
  1 <= config_lags ty -> in_int64 (seqno (_config b1) + config_lags ty) = true ->
  seqno (_config b1) <> 0 -> new_object k vf sg b2 ->
  (forall s c, serialize (_config b1) true = Ok (s, c) ->
     size_of (padded ty s) <= MAX_MULTIPART_SIZE /\ not_wrapped ty k s) ->
  exists msgs obs b1', push ty now b1 = Ok ((seqno (_config b1), msgs, obs), b1') /\
    forall ids, length ids = length msgs ->
    exists b2', merge ty now' b2 (zip ids msgs) = Ok (hash_set ids, b2') /\
      data_ (_config b2') = sent_data (_config b1) /\ seqno (_config b2') = seqno (_config b1) /\
      _state b2' = Clean /\ _curr_hashes b2' = hash_set ids /\ _keys b2' = _keys b2.
Proof. apply push_merge. Qed.

(** C38: a dumped object is restored.  Loading the dump of a clean or waiting object restores its
    state, its hashes, its extra data, its config (data, seqno, unknown keys, recent changes),
    and its unexpired sets of message parts; that a set was already completed is not restored. *)
Theorem dump_then_load now b :
  dumpable b -> lag (_config b) = config_lags ty ->
  exists s d b' m, make_dump now b = Ok (d, b') /\ serialize (_config b) false = Ok (s, _config b') /\
    load_dump ty now d =
      Ok {| _config := m; _keys := []; _state := _state b; _curr_hashes := _curr_hashes b;
            _old_hashes := _old_hashes b;
            _multiparts := (fun e => (e.1, reloaded_parts e.2)) <$> unexpired now (_multiparts b);
            _needs_dump := false; _sign_sk := None; _sign_pk := None;
            _extra := if keeps_extra ty then _extra b else [] |} /\
    data_ m = sent_data (_config b) /\ seqno_hash_ m = (seqno (_config b), hash_msg s) /\
    unknown_ m = unknown_ (_config b) /\
    lagged_diffs_ m = window (seqno (_config b)) (config_lags ty) (lagged_diffs_ (_config b)).
Proof. apply dump_load. Qed.

(** [bt::merge] of two dicts is the sorted union in which the first dict's values win. *)
Theorem bt_merge_union a b :
  msorted a -> msorted b ->
  msorted (BtMerge.merge a b) /\
  forall k, mfind k (BtMerge.merge a b) = match mfind k a with Some v => Some v | None => mfind k b end.
Proof. apply merge_ok. Qed.

(** dirtying is refused for a read-only object; otherwise, if it succeeds, the object is
    dirty with a mutable config whose seqno is one higher (or the same, if it already was dirty),
    it needs a dump, and its invariant is kept. *)
Theorem dirty_invariant b :
  base_ok b ->
  (is_readonly b = true -> dirty b = Throw RuntimeError) /\
  forall b', dirty b = Ok b' ->
    base_ok b' /\ _state b' = Dirty /\ _needs_dump b' = true /\ _keys b' = _keys b /\
    (exists d, orig_data_ (_config b') = Some d) /\
    seqno (_config b') = seqno (_config b) + (if decide (_state b = Dirty) then 0 else 1).
Proof.
  intros Hb. split.
  - intros Hr. apply dirty_readonly; [done|]. intros Hd. destruct Hb as (_ & _ & _ & Hx).
    destruct (Hx Hd). congruence.
  - intros b' Hd. pose proof (dirty_preserves b b' Hb Hd).
    destruct (dirty_inv b b' Hd) as (? & ? & _ & ? & ? & Hs). split_and!; try done.
    destruct (decide (_state b = Dirty)) as [E|E]; [|by destruct Hs].
    rewrite Hs. lia.
Qed.
End SyncProperties.

(** ** Examples *)
#[local] Existing Instances bencode toy_hash toy_aead toy_sign toy_box toy_zstd toy_protobuf.

Definition ex_key : bytes := replicate 32 "k"%char.
Definition ex_key2 : bytes := replicate 32 "j"%char.
Definition ex_type : ConfigType :=
  {| storage_namespace := GroupInfo; encryption_domain := "groups::Info";
     compression_level := Some 1; config_lags := 5; accepts_protobuf := false;
     keeps_extra := false |}.

(** A clean object with the example message, and a new one. *)
Definition ex_object : ConfigBase :=
  {| _config := ex_a; _keys := [ex_key]; _state := Clean; _curr_hashes := [bs "h1"];
     _old_hashes := [bs "h0"];
     _multiparts := [(replicate 32 "m"%char,
       {| pms_done := false; pms_size := 3; pms_expiry := 2000;
          pms_parts := [{| pm_index := 1; pm_message_id := "id"; pm_data := "data" |}] |})];
     _needs_dump := true; _sign_sk := None; _sign_pk := None; _extra := [] |}.
Definition ex_fresh : ConfigBase :=
  {| _config := blank_message; _keys := [ex_key]; _state := Clean; _curr_hashes := [];
     _old_hashes := []; _multiparts := []; _needs_dump := false; _sign_sk := None;
     _sign_pk := None; _extra := [] |}.

Lemma padding_exact_example :
  exists chunk, chunk ∈ [256; 1024; 2048; 5120] /\
    size_of "data" <= size_of (pad_message "data" 40) < size_of "data" + chunk /\
    (size_of (pad_message "data" 40) + 40) mod chunk = 0 /\
    strip_padding (pad_message "data" 40) = "data".
Proof. apply (padding_exact "data" 40); [done|]. by eexists _, _. Defined.

Lemma encrypt_then_decrypt_example :
  (exists c, encrypt "data" ex_key "UserProfile" = Ok c /\ size_of c = size_of "data" + 40 /\
    decrypt c ex_key "UserProfile" = Ok (bs "data")) /\
  decrypt "short" ex_key "UserProfile" = Throw DecryptError.
Proof.
  split; [by apply (encrypt_then_decrypt "data" ex_key "UserProfile")|].
  by apply (encrypt_then_decrypt "data" ex_key "UserProfile").
Defined.

Lemma recipient_roundtrip_example :
  exists c, encrypt_for_recipient_deterministic ex_key (x_pubkey ex_key2) "hello" = Ok c /\
            decrypt_incoming ex_key2 c = Ok (bs "hello", (ed_seed_keypair ex_key).1).
Proof. by apply (recipient_roundtrip ex_key ex_key2 "hello"). Defined.

Lemma config_wrapper_roundtrip_example :
  exists c, wrap_config ex_key "data" 3 Contacts = Ok c /\
            unwrap_config ex_key c Contacts = Ok (bs "data").
Proof. by apply (config_wrapper_roundtrip ex_key "data" 3 Contacts). Defined.

Lemma ex_keys_ok : keys_ok [ex_key].
Proof. split; [apply NoDup_singleton|by apply Forall_singleton]. Qed.

Lemma key_list_invariant_example :
  (forall x, x ∈ [ex_key2; ex_key] <-> x = ex_key2 \/ x ∈ [ex_key]) /\ keys_ok [].
Proof.
  split.
  - by apply (proj1 (key_list_invariant ex_object ex_key2 true false ex_keys_ok)
                (set_keys ex_object [ex_key2; ex_key])); vm_compute.
  - by apply (proj2 (key_list_invariant ex_object ex_key true false ex_keys_ok)
                true (set_keys ex_object [])); vm_compute.
Defined.

Lemma push_sends_example :
  exists plains msgs b',
    plaintexts ex_type (ex_bytes ex_a) = Ok plains /\
    push ex_type 1000 ex_object =
      Ok ((seqno ex_a, msgs, if is_readonly ex_object then [] else _old_hashes ex_object), b') /\
    Forall2 (carries ex_type ex_key) plains msgs /\
    Forall (fun m => size_of m <= MAX_MESSAGE_SIZE) msgs /\
    _config b' = ex_a /\ _keys b' = _keys ex_object /\ _old_hashes b' = [] /\
    _curr_hashes b' = _curr_hashes ex_object /\
    _state b' = (if is_dirty ex_object then Waiting else _state ex_object).
Proof. by apply (push_sends ex_type 1000 ex_object ex_key [] (ex_bytes ex_a) ex_a); vm_compute. Defined.

(** A message that needs two parts. *)
Definition ex_big : bytes := "d"%char :: replicate (Z.to_nat 80000) "x"%char.

Lemma ex_big_size : size_of ex_big = 80001.
Proof. unfold ex_big, size_of. cbn [length]. rewrite length_replicate. lia. Qed.

Lemma ex_big_plain r : decode_recombined ("d"%char :: r) = Ok ("d"%char :: r).
Proof. done. Qed.

Lemma multipart_any_order_example :
  exists outs, multipart_parts ex_big = Ok outs /\ 2 <= size_of outs <= 66 /\
    Forall (fun o => size_of o + ENCRYPT_DATA_OVERHEAD <= MAX_MESSAGE_SIZE) outs /\
    forall order b, order ≡ₚ imap (fun i o => (i, o)) outs ->
      mfind (generichash 32 [] ex_big) (_multiparts b) = None ->
      exists b', receive_all 1000 b ((fun io : nat * bytes => ([byte_of (Z.of_nat io.1)], io.2)) <$> order) =
        (replicate (length outs) true, [(imap (fun i _ => [byte_of (Z.of_nat i)]) outs, ex_big)], b').
Proof.
  apply (multipart_any_order 1000 ex_big ex_big (fun i => [byte_of (Z.of_nat i)])).
  - unfold splittable. rewrite ex_big_size. done.
  - apply ex_big_plain.
Defined.

Lemma ex_a_sendable : sendable ex_a.
Proof. constructor; cbn -[in_int64]; try (split_and!); wf_concrete. Qed.

(** A type of the user's configs: the message is wrapped. *)
Definition ex_user_type : ConfigType :=
  {| storage_namespace := Contacts; encryption_domain := "Contacts"; compression_level := Some 1; config_lags := 5;
     accepts_protobuf := true; keeps_extra := false |}.
Lemma ex_not_wrapped : not_wrapped ex_user_type ex_key (ex_bytes ex_a).
Proof.
  intros _ plains p c Hp Hin Hc.
  assert (E : plaintexts ex_user_type (ex_bytes ex_a) = Ok [padded ex_user_type (ex_bytes ex_a)]) by (vm_compute; reflexivity).
  rewrite E in Hp. injection Hp as <-. apply list_elem_of_singleton in Hin as ->.
  assert (E2 : (c ← encrypt (padded ex_user_type (ex_bytes ex_a)) ex_key (encryption_domain ex_user_type);
                Ok (is_ok (unwrap_config ex_key c Contacts))) = Ok false) by (vm_compute; reflexivity).
  rewrite Hc in E2. by injection E2.
Qed.

Lemma push_then_merge_example :
  exists msgs obs b1', push ex_user_type 1000 ex_object = Ok ((seqno ex_a, msgs, obs), b1') /\
    forall ids, length ids = length msgs ->
    exists b2', merge ex_user_type 1000 ex_fresh (zip ids msgs) = Ok (hash_set ids, b2') /\
      data_ (_config b2') = sent_data ex_a /\ seqno (_config b2') = seqno ex_a /\
      _state b2' = Clean /\ _curr_hashes b2' = hash_set ids /\ _keys b2' = _keys ex_fresh.
Proof.
  apply (push_then_merge ex_user_type 1000 1000 ex_object ex_fresh ex_key None None);
    [done|by eexists|done|apply ex_a_sendable|done|done|done|done|done| |].
  - split_and!; try done. by eexists.
  - intros s c Hs. assert (s = ex_bytes ex_a) as ->; [|split; [by vm_compute|apply ex_not_wrapped]].
    unfold ex_bytes. change ex_a with (_config ex_object). by rewrite Hs.
Defined.
(** The message that is sent is the wrapped one. *)
Example push_wraps :
  match push ex_user_type 1000 ex_object with
  | Ok ((_, [m], _), _) => is_ok (unwrap_config ex_key m Contacts)
  | _ => false
  end = true.
Proof. vm_compute. reflexivity. Qed.

Lemma dump_then_load_example :
  let b := ex_object in
  exists s d b' m, make_dump 1000 b = Ok (d, b') /\ serialize (_config b) false = Ok (s, _config b') /\
    load_dump ex_type 1000 d =
      Ok {| _config := m; _keys := []; _state := _state b; _curr_hashes := _curr_hashes b;
            _old_hashes := _old_hashes b;
            _multiparts := (fun e => (e.1, reloaded_parts e.2)) <$> unexpired 1000 (_multiparts b);
            _needs_dump := false; _sign_sk := None; _sign_pk := None;
            _extra := [] |} /\
    data_ m = sent_data (_config b) /\ seqno_hash_ m = (seqno (_config b), hash_msg s) /\
    unknown_ m = unknown_ (_config b) /\
    lagged_diffs_ m = window (seqno (_config b)) 5 (lagged_diffs_ (_config b)).
Proof.
  apply (dump_then_load ex_type 1000 ex_object); [|done]. constructor.
  - apply ex_a_sendable.
  - by left.
  - wf_concrete.
  - wf_concrete.
  - wf_concrete.
  - apply Forall_singleton. split_and!; try done; [|by left]. wf_concrete.
  - split; constructor.
Defined.

Lemma bt_merge_union_example :
  let a := [(bs "a", BInt 1); (bs "b", BInt 2)] in let b := [(bs "b", BInt 3); (bs "c", BInt 4)] in
  msorted (BtMerge.merge a b) /\
  forall k, mfind k (BtMerge.merge a b) = match mfind k a with Some v => Some v | None => mfind k b end.
Proof.
  apply (bt_merge_union [(bs "a", BInt 1); (bs "b", BInt 2)] [(bs "b", BInt 3); (bs "c", BInt 4)]);
    wf_concrete.
Defined.

Lemma dirty_invariant_example :
  (is_readonly ex_object = true -> dirty ex_object = Throw RuntimeError) /\
  forall b', dirty ex_object = Ok b' ->
    base_ok b' /\ _state b' = Dirty /\ _needs_dump b' = true /\ _keys b' = _keys ex_object /\
    (exists d, orig_data_ (_config b') = Some d) /\
    seqno (_config b') = seqno (_config ex_object) + 1.
Proof.
  apply (dirty_invariant ex_object). split_and!; [apply ex_keys_ok..|wf_concrete|wf_concrete|done].
Defined.
