(* ===== verification/CStructs.v ===== *)
(** * C structs

    The structs of the C interface and the conversions between them and the C++ records, [into] and
    the constructors from a struct, in [src/config/contacts.cpp], [src/config/groups/members.cpp],
    [src/config/user_groups.cpp] and [src/config/convo_info_volatile.cpp].  An array of characters
    is a byte string of fixed length, so that writing beyond its end is an error ([Throw UB]).  The
    second part shows that writing a text into an array is defined exactly if it fits with its null
    byte, and that records whose texts fit are the same after they went through a struct. *)
From S2P Require Import Prelude OMap Util Internal BtValue ThirdParty ConfigData ConfigParse ConfigMessage Encrypt.
From S2P Require Import SessionEncrypt Protos ConfigBase Multipart BaseSync DictField UserProfileConfig ContactsConfig.
From S2P Require Import Community UserGroupsConfig ConvoInfoConfig GroupMembers.
From S2P Require Import ContactsFacts CommunityFacts.

(** ** Arrays *)

(** An array of null bytes. *)
Definition zeros (n : nat) : bytes := replicate n char_nul.

(** [std::memcpy(dest, src, n)], from the beginning of an array. *)
Definition memcpy (dest src : bytes) (n : nat) : res bytes :=
  if (length src <? n)%nat || (length dest <? n)%nat then Throw UB else Ok (take n src ++ drop n dest).

(** [memcpy(dest, s.c_str(), s.size() + 1)] *)
Definition copy_text (dest s : bytes) : res bytes := memcpy dest (s ++ [char_nul]) (S (length s)).

(** [set_error]: into the array of the caller, if there is one. *)
Definition set_error (error : option bytes) (msg : bytes) : res (option bytes) :=
  match error with
  | None => Ok None
  | Some error => Some <$> copy_text error (take 255 msg)
  end.

(** [copy_c_str(dest, src)] of [include/session/config/base.hpp], for an array of [N] characters.
    The number of characters to remove is a [size_t]; removing more than there are is undefined. *)
Definition copy_c_str (dest src : bytes) : res bytes :=
  let N := size_of dest in
  src ← (if N <=? size_of src then
           let n := (size_of src - N - 1) mod 2 ^ 64 in
           if size_of src <? n then Throw UB else Ok (take (Z.to_nat (size_of src - n)) src)
         else Ok src);
  dest ← memcpy dest src (length src);
  if size_of dest <=? size_of src then Throw UB else Ok (<[length src := char_nul]> dest).

(** Reading an array as a C string, which needs a null byte to end at. *)
Fixpoint c_string (a : bytes) : res bytes :=
  match a with
  | [] => Throw UB
  | c :: a => if bool_decide (c = char_nul) then Ok [] else s ← c_string a; Ok (c :: s)
  end.

(** [std::string{c.id, 66}] *)
Definition id_string (a : bytes) : bytes := take 66 a.
(** [memcpy(c.id, id.data(), 67)]: the characters of a string are followed by a null byte. *)
Definition copy_id (dest id : bytes) : res bytes := memcpy dest (id ++ [char_nul]) 67.

Record user_profile_pic := { pp_url : bytes; pp_key : bytes }.
Definition pic_into (p : profile_pic) (c : user_profile_pic) : res user_profile_pic :=
  if negb (pic_empty p) then
    url ← copy_c_str (pp_url c) (pic_url p);
    key ← memcpy (pp_key c) (pic_key p) 32;
    Ok {| pp_url := url; pp_key := key |}
  else
    url ← copy_c_str (pp_url c) [];
    Ok {| pp_url := url; pp_key := pp_key c |}.
Definition pic_from (c : user_profile_pic) : res profile_pic :=
  url ← c_string (pp_url c);
  Ok (if is_nil url then empty_pic else {| pic_url := url; pic_key := take 32 (pp_key c) |}).

(** ** Contacts *)

Record contacts_contact := {
  cc_session_id : bytes;
  cc_name : bytes;
  cc_nickname : bytes;
  cc_profile_pic : user_profile_pic;
  cc_approved : bool;
  cc_approved_me : bool;
  cc_blocked : bool;
  cc_priority : Z;
  cc_notifications : notify_mode;
  cc_mute_until : Z;
  cc_exp_mode : expiration_mode;
  cc_exp_seconds : Z;
  cc_created : Z
}.

(** [contact_info::into] *)
Definition contact_into (i : contact_info) (c : contacts_contact) : res contacts_contact :=
  session_id ← copy_id (cc_session_id c) (ci_session_id i);
  name ← copy_c_str (cc_name c) (ci_name i);
  nickname ← copy_c_str (cc_nickname c) (ci_nickname i);
  pic ← pic_into (ci_profile_picture i) (cc_profile_pic c);
  let exp_seconds := to_int (ci_exp_timer i) in
  Ok {| cc_session_id := session_id; cc_name := name; cc_nickname := nickname; cc_profile_pic := pic;
        cc_approved := ci_approved i; cc_approved_me := ci_approved_me i; cc_blocked := ci_blocked i;
        cc_priority := ci_priority i; cc_notifications := ci_notifications i;
        cc_mute_until := to_epoch_seconds (ci_mute_until i);
        cc_exp_mode := if (exp_seconds <=? 0) && negb (bool_decide (ci_exp_mode i = exp_none)) then exp_none
                       else ci_exp_mode i;
        cc_exp_seconds := exp_seconds; cc_created := to_epoch_seconds (ci_created i) |}.

(** [contact_info(const contacts_contact&)] *)
Definition contact_from (c : contacts_contact) : res contact_info :=
  name ← c_string (cc_name c);
  nickname ← c_string (cc_nickname c);
  pic ← pic_from (cc_profile_pic c);
  let exp_timer := if bool_decide (cc_exp_mode c = exp_none) then 0 else cc_exp_seconds c in
  Ok {| ci_session_id := id_string (cc_session_id c); ci_name := name; ci_nickname := nickname;
        ci_profile_picture := pic; ci_approved := cc_approved c; ci_approved_me := cc_approved_me c;
        ci_blocked := cc_blocked c; ci_priority := cc_priority c; ci_notifications := cc_notifications c;
        ci_mute_until := to_epoch_seconds (cc_mute_until c);
        ci_exp_mode := if (exp_timer <=? 0) && negb (bool_decide (cc_exp_mode c = exp_none)) then exp_none
                       else cc_exp_mode c;
        ci_exp_timer := exp_timer; ci_created := to_epoch_seconds (cc_created c) |}.

(** ** Group members *)

Record config_group_member := {
  cm_session_id : bytes;
  cm_name : bytes;
  cm_profile_pic : user_profile_pic;
  cm_admin : bool;
  cm_invited : Z;
  cm_promoted : Z;
  cm_removed : Z;
  cm_supplement : bool
}.
Definition member_into (m : member) (c : config_group_member) : res config_group_member :=
  session_id ← copy_id (cm_session_id c) (mem_session_id m);
  name ← copy_c_str (cm_name c) (mem_name m);
  pic ← pic_into (mem_profile_picture m) (cm_profile_pic c);
  Ok {| cm_session_id := session_id; cm_name := name; cm_profile_pic := pic; cm_admin := mem_admin m;
        cm_invited := mem_invite_status m; cm_promoted := mem_promotion_status m;
        cm_removed := mem_removed_status m; cm_supplement := mem_supplement m |}.

Definition known_status (s : Z) : Z := if (s =? STATUS_SENT) || (s =? STATUS_FAILED) || (s =? STATUS_NOT_SENT) then s else 0.
Definition known_removed (s : Z) : Z := if (s =? REMOVED_MEMBER) || (s =? REMOVED_MEMBER_AND_MESSAGES) then s else 0.
Definition member_from (c : config_group_member) : res member :=
  name ← c_string (cm_name c);
  pic ← pic_from (cm_profile_pic c);
  Ok {| mem_session_id := id_string (cm_session_id c); mem_name := name; mem_profile_picture := pic;
        mem_admin := cm_admin c; mem_supplement := cm_supplement c; mem_invite_status := known_status (cm_invited c);
        mem_promotion_status := known_status (cm_promoted c); mem_removed_status := known_removed (cm_removed c) |}.

(** ** Groups *)

(** The members that the three structs share. *)
Record c_group_base := {
  cg_priority : Z;
  cg_joined_at : Z;
  cg_notifications : notify_mode;
  cg_mute_until : Z;
  cg_invited : bool
}.
Definition base_into (self : base_group_info) : c_group_base :=
  {| cg_priority := bg_priority self; cg_joined_at := to_epoch_seconds (bg_joined_at self);
     cg_notifications := bg_notifications self; cg_mute_until := to_epoch_seconds (bg_mute_until self);
     cg_invited := bg_invited self |}.
Definition base_from (name : bytes) (c : c_group_base) : base_group_info :=
  {| bg_priority := cg_priority c; bg_joined_at := to_epoch_seconds (cg_joined_at c);
     bg_notifications := cg_notifications c; bg_mute_until := to_epoch_seconds (cg_mute_until c);
     bg_name := name; bg_invited := cg_invited c |}.

Record ugroups_community_info := {
  cu_base : c_group_base;
  cu_base_url : bytes;
  cu_room : bytes;
  cu_pubkey : bytes
}.
Definition community_into (i : community_info) (c : ugroups_community_info) : res ugroups_community_info :=
  url ← copy_c_str (cu_base_url c) (base_url_ (co_comm i));
  room ← copy_c_str (cu_room c) (comm_room (co_comm i));
  pubkey ← memcpy (cu_pubkey c) (pubkey_ (co_comm i)) 32;
  Ok {| cu_base := base_into (co_base i); cu_base_url := url; cu_room := room; cu_pubkey := pubkey |}.
Definition community_from (c : ugroups_community_info) : res community_info :=
  url ← c_string (cu_base_url c);
  room ← c_string (cu_room c);
  comm ← new_community_pk url room (take 32 (cu_pubkey c));
  Ok {| co_base := base_from [] (cu_base c); co_comm := comm |}.

Record ugroups_group_info := {
  cgi_base : c_group_base;
  cgi_id : bytes;
  cgi_name : bytes;
  cgi_have_secretkey : bool;
  cgi_secretkey : bytes;
  cgi_have_auth_data : bool;
  cgi_auth_data : bytes;
  cgi_removed_status : Z
}.
(** Copying a key if it has the right size. *)
Definition copy_if (have : bool) (dest src : bytes) (n : nat) : res bytes := if have then memcpy dest src n else Ok dest.
Definition group_into (i : group_info) (c : ugroups_group_info) : res ugroups_group_info :=
  id ← copy_c_str (cgi_id c) (gi_id i);
  name ← copy_c_str (cgi_name c) (bg_name (gi_base i));
  let have_secretkey := size_of (gi_secretkey i) =? 64 in
  secretkey ← copy_if have_secretkey (cgi_secretkey c) (gi_secretkey i) 64;
  let have_auth_data := size_of (gi_auth_data i) =? 100 in
  auth_data ← copy_if have_auth_data (cgi_auth_data c) (gi_auth_data i) 100;
  Ok {| cgi_base := base_into (gi_base i); cgi_id := id; cgi_name := name; cgi_have_secretkey := have_secretkey;
        cgi_secretkey := secretkey; cgi_have_auth_data := have_auth_data; cgi_auth_data := auth_data;
        cgi_removed_status := gi_removed_status i |}.
Definition group_from (c : ugroups_group_info) : res group_info :=
  name ← c_string (cgi_name c);
  Ok {| gi_base := base_from name (cgi_base c); gi_id := id_string (cgi_id c);
        gi_secretkey := if cgi_have_secretkey c then take 64 (cgi_secretkey c) else [];
        gi_auth_data := if cgi_have_auth_data c then take 100 (cgi_auth_data c) else [];
        gi_removed_status := cgi_removed_status c |}.

(** The members of a legacy group are kept behind the pointer [_internal]. *)
Record ugroups_legacy_group_info := {
  cl_base : c_group_base;
  cl_session_id : bytes;
  cl_name : bytes;
  cl_have_enc_keys : bool;
  cl_enc_pubkey : bytes;
  cl_enc_seckey : bytes;
  cl_disappearing_timer : Z;
  cl_internal : option (list (bytes * bool))
}.
Definition legacy_into (i : legacy_group_info) (c : ugroups_legacy_group_info) : res ugroups_legacy_group_info :=
  session_id ← copy_c_str (cl_session_id c) (lg_session_id i);
  name ← copy_c_str (cl_name c) (bg_name (lg_base i));
  let have_enc_keys := (size_of (lg_enc_pubkey i) =? 32) && (size_of (lg_enc_seckey i) =? 32) in
  enc_pubkey ← copy_if have_enc_keys (cl_enc_pubkey c) (lg_enc_pubkey i) 32;
  enc_seckey ← copy_if have_enc_keys (cl_enc_seckey c) (lg_enc_seckey i) 32;
  Ok {| cl_base := base_into (lg_base i); cl_session_id := session_id; cl_name := name;
        cl_have_enc_keys := have_enc_keys; cl_enc_pubkey := enc_pubkey; cl_enc_seckey := enc_seckey;
        cl_disappearing_timer := lg_disappearing_timer i; cl_internal := Some (lg_members i) |}.
Definition legacy_from (c : ugroups_legacy_group_info) : res legacy_group_info :=
  name ← c_string (cl_name c);
  Ok {| lg_base := base_from name (cl_base c); lg_session_id := id_string (cl_session_id c);
        lg_enc_pubkey := if cl_have_enc_keys c then take 32 (cl_enc_pubkey c) else [];
        lg_enc_seckey := if cl_have_enc_keys c then take 32 (cl_enc_seckey c) else [];
        lg_disappearing_timer := cl_disappearing_timer c; lg_members := value_or (cl_internal c) [] |}.

(** ** Conversations *)

(** [convo_info_volatile_1to1], [convo_info_volatile_group], [convo_info_volatile_legacy_group] *)
Record convo_info_volatile := { cv_id : bytes; cv_last_read : Z; cv_unread : bool }.
Definition convo_into (i : keyed_convo) (c : convo_info_volatile) : res convo_info_volatile :=
  id ← copy_id (cv_id c) (kc_id i);
  Ok {| cv_id := id; cv_last_read := last_read (kc_base i); cv_unread := unread (kc_base i) |}.
Definition convo_from (c : convo_info_volatile) : keyed_convo :=
  {| kc_base := {| last_read := cv_last_read c; unread := cv_unread c |}; kc_id := id_string (cv_id c) |}.

Record convo_info_volatile_community := {
  cvc_base_url : bytes;
  cvc_room : bytes;
  cvc_pubkey : bytes;
  cvc_last_read : Z;
  cvc_unread : bool
}.
(** The room is the one in lower case ([room_norm()]). *)
Definition convo_community_into (i : convo_community) (c : convo_info_volatile_community) :
    res convo_info_volatile_community :=
  url ← copy_c_str (cvc_base_url c) (base_url_ (cc_comm i));
  room ← copy_c_str (cvc_room c) (room_ (cc_comm i));
  pubkey ← memcpy (cvc_pubkey c) (pubkey_ (cc_comm i)) 32;
  Ok {| cvc_base_url := url; cvc_room := room; cvc_pubkey := pubkey; cvc_last_read := last_read (cc_base i);
        cvc_unread := unread (cc_base i) |}.
Definition convo_community_from (c : convo_info_volatile_community) : res convo_community :=
  url ← c_string (cvc_base_url c);
  room ← c_string (cvc_room c);
  comm ← new_community_pk url room (take 32 (cvc_pubkey c));
  Ok {| cc_base := {| last_read := cvc_last_read c; unread := cvc_unread c |}; cc_comm := comm |}.

(** ** Facts *)

(** ** Arrays *)

Lemma memcpy_ok dest src n :
  (n <= length src)%nat -> (n <= length dest)%nat -> memcpy dest src n = Ok (take n src ++ drop n dest).
Proof.
  intros Hs Hd. unfold memcpy. by rewrite (proj2 (Nat.ltb_ge _ _) Hs), (proj2 (Nat.ltb_ge _ _) Hd).
Qed.
Lemma memcpy_key dest src n :
  length src = n -> length dest = n -> memcpy dest src n = Ok src.
Proof.
  intros Hs Hd. rewrite memcpy_ok by lia. rewrite take_ge, drop_ge by lia. by rewrite app_nil_r.
Qed.

(** The array afterwards: the text, a null byte, and what was there before. *)
Definition c_text (dest src : bytes) : bytes := src ++ char_nul :: drop (S (length src)) dest.

Lemma copy_text_fits dest s : size_of s < size_of dest -> copy_text dest s = Ok (c_text dest s).
Proof.
  intros Hs. unfold copy_text, c_text. unfold size_of in Hs. rewrite memcpy_ok by (rewrite ?length_app; cbn [length]; lia).
  rewrite take_ge by (rewrite length_app; cbn [length]; lia). by rewrite <- app_assoc.
Qed.

Lemma set_error_fits error msg :
  size_of error = 256 -> exists e, set_error (Some error) msg = Ok (Some e) /\ e = c_text error (take 255 msg).
Proof.
  intros Hs. eexists. split; [|done]. cbn [set_error]. rewrite copy_text_fits; [done|].
  unfold size_of in *. rewrite length_take. lia.
Qed.

(** A text that does not fit is written past the end of the array. *)
Lemma copy_text_overflows dest s : size_of dest <= size_of s -> copy_text dest s = Throw UB.
Proof.
  intros Hs. unfold copy_text, memcpy. unfold size_of in Hs. replace (length dest <? S (length s))%nat with true; [by rewrite orb_true_r|].
  symmetry. apply Nat.ltb_lt. lia.
Qed.

Lemma copy_c_str_fits dest src : size_of src < size_of dest -> copy_c_str dest src = Ok (c_text dest src).
Proof.
  intros Hf. unfold copy_c_str. rewrite (proj2 (Z.leb_gt _ _)) by lia. cbn [mbind res_bind].
  unfold size_of in Hf. rewrite memcpy_ok by lia. cbn [mbind res_bind].
  rewrite take_ge by lia. rewrite (proj2 (Z.leb_gt _ _)) by (unfold size_of; rewrite length_app, length_drop; lia).
  f_equal. unfold c_text. rewrite insert_app_r_alt by lia. rewrite Nat.sub_diag.
  destruct (drop (length src) dest) as [|c rest] eqn:E; [apply (f_equal length) in E; rewrite length_drop in E; cbn in E; lia|].
  cbn [insert list_insert]. do 2 f_equal. by rewrite <- Nat.add_1_r, <- drop_drop, E.
Qed.
(** A text of the size of the array or more is written past its end: the size that is kept is one
    more than the size of the array instead of one less. *)
Lemma copy_c_str_overflows dest src :
  size_of dest <= size_of src -> size_of src < 2 ^ 64 - 1 -> copy_c_str dest src = Throw UB.
Proof.
  intros Hf Hm. unfold copy_c_str. rewrite (proj2 (Z.leb_le _ _)) by lia. pose proof (size_of_nonneg dest).
  destruct (Z.eq_dec (size_of dest) (size_of src)) as [E|Hne].
  - replace ((size_of src - size_of dest - 1) mod 2 ^ 64) with (2 ^ 64 - 1); [by rewrite (proj2 (Z.ltb_lt _ _)) by lia|].
    replace (size_of src - size_of dest - 1) with (2 ^ 64 - 1 + (-1) * 2 ^ 64) by lia. by rewrite Z.mod_add by lia.
  - rewrite Z.mod_small by lia. rewrite (proj2 (Z.ltb_ge _ _)) by lia. cbn [mbind res_bind]. unfold memcpy.
    replace (length dest <? _)%nat with true; [by rewrite orb_true_r|].
    symmetry. apply Nat.ltb_lt. rewrite length_take. unfold size_of in *. lia.
Qed.

Lemma c_string_app (src rest : bytes) : char_nul ∉ src -> c_string (src ++ char_nul :: rest) = Ok src.
Proof.
  induction src as [|c src IH]; [done|]. intros [Hc Hs]%not_elem_of_cons. cbn [app c_string].
  rewrite bool_decide_false by done. by rewrite IH.
Qed.

(** Texts that go through an array of [n] characters. *)
Definition fits (n : Z) (s : bytes) : Prop := size_of s < n /\ char_nul ∉ s.
Lemma text_through n dest s : size_of dest = n -> fits n s -> exists d, copy_c_str dest s = Ok d /\ c_string d = Ok s.
Proof. intros <- [Hf Hn]. exists (c_text dest s). split; [by apply copy_c_str_fits|by apply c_string_app]. Qed.

(** ** Ids and pictures *)

Lemma id_through dest id :
  size_of dest = 67 -> size_of id = 66 -> exists d, copy_id dest id = Ok d /\ id_string d = id.
Proof.
  intros Hd Hi. assert (Hl : length (id ++ [char_nul]) = 67%nat) by (rewrite length_app; unfold size_of in Hi; cbn [length]; lia).
  unfold copy_id. rewrite memcpy_ok by (unfold size_of in Hd; lia). eexists. split; [done|].
  unfold id_string. rewrite (take_ge (id ++ [char_nul])), <- app_assoc by lia. apply take_app_length'. unfold size_of in Hi. lia.
Qed.
Lemma id_text_through dest id :
  size_of dest = 67 -> size_of id = 66 -> exists d, copy_c_str dest id = Ok d /\ id_string d = id.
Proof.
  intros Hd Hi. rewrite copy_c_str_fits by lia. eexists. split; [done|]. unfold id_string, c_text.
  apply take_app_length'. unfold size_of in Hi. lia.
Qed.

Definition pic_sizes (c : user_profile_pic) : Prop := size_of (pp_url c) = 224 /\ size_of (pp_key c) = 32.
Lemma pic_through p c :
  pic_sizes c -> fits 224 (pic_url p) -> exists c', pic_into p c = Ok c' /\ pic_from c' = Ok (normal_pic p).
Proof.
  intros [Hu Hk] Hf. unfold pic_into, normal_pic, pic_from. destruct (pic_empty p) eqn:Ep; cbn [negb].
  - destruct (text_through 224 (pp_url c) []) as (d & -> & Ed); [done|split; [done|apply not_elem_of_nil]|].
    eexists. split; [done|]. cbn [pp_url]. by rewrite Ed.
  - destruct (text_through 224 (pp_url c) (pic_url p)) as (d & -> & Ed); [done..|].
    unfold pic_empty in Ep. apply orb_false_iff in Ep as [Ea Eb]. apply negb_false_iff, Z.eqb_eq in Eb.
    cbn [mbind res_bind]. rewrite memcpy_key by (unfold size_of in *; lia). eexists. split; [done|].
    cbn [pp_url pp_key]. rewrite Ed. cbn [mbind res_bind]. rewrite Ea, take_ge by (unfold size_of in Eb; lia).
    by destruct p.
Qed.

(** ** Contacts *)

Definition contact_sizes (c : contacts_contact) : Prop :=
  size_of (cc_session_id c) = 67 /\ size_of (cc_name c) = 101 /\ size_of (cc_nickname c) = 101 /\ pic_sizes (cc_profile_pic c).

Lemma fits_take n s : char_nul ∉ s -> fits (Z.of_nat (S n)) (take n s).
Proof.
  intros Hs. split.
  - unfold size_of. rewrite length_take. lia.
  - intros Hin. apply Hs. by apply (elem_of_take _ n) in Hin as (i & Hi & _); apply list_elem_of_lookup_2 in Hi.
Qed.
Lemma normal_pic_idem p : normal_pic (normal_pic p) = normal_pic p.
Proof. unfold normal_pic. destruct (pic_empty p) eqn:E; [done|]. by rewrite E. Qed.
Lemma normal_pic_fits n p : 0 < n -> fits n (pic_url p) -> fits n (pic_url (normal_pic p)).
Proof. intros Hn Hf. unfold normal_pic. destruct (pic_empty p); [split; [done|apply not_elem_of_nil]|done]. Qed.
Lemma to_int_fix z : - 2 ^ 31 <= z < 2 ^ 31 -> to_int z = z.
Proof. intros Hz. unfold to_int. rewrite Z.mod_small by lia. lia. Qed.
Lemma normal_time_fix t : t <= 9000000000000000 -> to_epoch_seconds (normal_time t) = normal_time t.
Proof.
  intros Ht. apply to_epoch_seconds_fix. unfold normal_time. pose proof (to_epoch_seconds_bound t Ht).
  destruct (0 <? _); lia.
Qed.

(** A contact as it is read from the config. *)
Lemma contact_through c a :
  valid_contact c -> size_of (ci_session_id c) = 66 -> char_nul ∉ ci_name c -> char_nul ∉ ci_nickname c ->
  fits 224 (pic_url (ci_profile_picture c)) -> contact_sizes a ->
  exists a', contact_into (normal_contact c) a = Ok a' /\ contact_from a' = Ok (normal_contact c).
Proof.
  intros [Hp Ht Hm Hc] Hi Hn Hk Hu (S1 & S2 & S3 & S4). unfold contact_into.
  destruct (id_through (cc_session_id a) (ci_session_id c)) as (d1 & E1 & F1); [done..|].
  destruct (text_through 101 (cc_name a) (ci_name (normal_contact c))) as (d2 & E2 & F2); [done|by apply (fits_take 100)|].
  destruct (text_through 101 (cc_nickname a) (ci_nickname (normal_contact c))) as (d3 & E3 & F3); [done|by apply (fits_take 100)|].
  destruct (pic_through (ci_profile_picture (normal_contact c)) (cc_profile_pic a)) as (d4 & E4 & F4); [done|by apply normal_pic_fits|].
  change (ci_session_id (normal_contact c)) with (ci_session_id c). rewrite E1, E2, E3, E4. eexists. split; [done|].
  unfold contact_from. cbn [cc_session_id cc_name cc_nickname cc_profile_pic cc_approved cc_approved_me cc_blocked cc_priority
    cc_notifications cc_mute_until cc_exp_mode cc_exp_seconds cc_created]. rewrite F1, F2, F3, F4. cbn [mbind res_bind].
  f_equal. unfold normal_contact. cbn [ci_session_id ci_name ci_nickname ci_profile_picture ci_approved ci_approved_me ci_blocked
    ci_priority ci_notifications ci_mute_until ci_exp_mode ci_exp_timer ci_created].
  rewrite normal_pic_idem, !normal_time_fix by lia.
  unfold expires. destruct (bool_decide (ci_exp_mode c = exp_none)) eqn:Ee; cbn [negb andb].
  - by rewrite (to_int_fix 0) by done.
  - destruct (Z.ltb_spec 0 (ci_exp_timer c)) as [Hpos|_]; [|done]. rewrite to_int_fix by done.
    replace (ci_exp_timer c <=? 0) with false by lia. cbn [andb]. rewrite Ee.
    by replace (ci_exp_timer c <=? 0) with false by lia.
Qed.

(** ** Members *)

Definition member_sizes (c : config_group_member) : Prop :=
  size_of (cm_session_id c) = 67 /\ size_of (cm_name c) = 101 /\ pic_sizes (cm_profile_pic c).
Record member_fits (m : member) : Prop := {
  mf_id : size_of (mem_session_id m) = 66;
  mf_name : fits 101 (mem_name m);
  mf_pic : fits 224 (pic_url (mem_profile_picture m));
  mf_normal : normal_pic (mem_profile_picture m) = mem_profile_picture m;
  mf_invite : known_status (mem_invite_status m) = mem_invite_status m;
  mf_promotion : known_status (mem_promotion_status m) = mem_promotion_status m;
  mf_removed : known_removed (mem_removed_status m) = mem_removed_status m
}.
Lemma member_through m a :
  member_fits m -> member_sizes a -> exists a', member_into m a = Ok a' /\ member_from a' = Ok m.
Proof.
  intros [Hi Hn Hp Hq H1 H2 H3] (S1 & S2 & S3). unfold member_into.
  destruct (id_through (cm_session_id a) (mem_session_id m)) as (d1 & E1 & F1); [done..|].
  destruct (text_through 101 (cm_name a) (mem_name m)) as (d2 & E2 & F2); [done..|].
  destruct (pic_through (mem_profile_picture m) (cm_profile_pic a)) as (d3 & E3 & F3); [done..|].
  rewrite E1, E2, E3. eexists. split; [done|]. unfold member_from.
  cbn [cm_session_id cm_name cm_profile_pic cm_admin cm_invited cm_promoted cm_removed cm_supplement].
  rewrite F1, F2, F3, Hq, H1, H2, H3. by destruct m.
Qed.

(** ** Groups *)

Record base_fits (b : base_group_info) : Prop := {
  bf_name : fits 101 (bg_name b);
  bf_joined : bg_joined_at b <= 9000000000;
  bf_mute : bg_mute_until b <= 9000000000
}.
Lemma base_through b : bg_joined_at b <= 9000000000 -> bg_mute_until b <= 9000000000 -> base_from (bg_name b) (base_into b) = b.
Proof.
  intros Hj Hm. unfold base_from, base_into.
  cbn [cg_priority cg_joined_at cg_notifications cg_mute_until cg_invited]. 
  rewrite !(to_epoch_seconds_fix (bg_joined_at b)), !(to_epoch_seconds_fix (bg_mute_until b)) by done. by destruct b.
Qed.

Definition group_sizes (c : ugroups_group_info) : Prop :=
  size_of (cgi_id c) = 67 /\ size_of (cgi_name c) = 101 /\ size_of (cgi_secretkey c) = 64 /\ size_of (cgi_auth_data c) = 100.
Record group_fits (g : group_info) : Prop := {
  gf_base : base_fits (gi_base g);
  gf_id : size_of (gi_id g) = 66;
  gf_secretkey : gi_secretkey g = [] \/ size_of (gi_secretkey g) = 64;
  gf_auth : gi_auth_data g = [] \/ size_of (gi_auth_data g) = 100
}.
(** A key that is there or not. *)
Lemma key_through dest key (n : nat) :
  n <> 0%nat -> length dest = n -> key = [] \/ size_of key = Z.of_nat n ->
  exists d, copy_if (size_of key =? Z.of_nat n) dest key n = Ok d /\
            (if size_of key =? Z.of_nat n then take n d else []) = key.
Proof.
  intros Hn Hd [-> | Hk].
  - replace (size_of [] =? Z.of_nat n) with false by (symmetry; apply Z.eqb_neq; unfold size_of; cbn; lia). by exists dest.
  - rewrite Hk, Z.eqb_refl. exists key. assert (Hl : length key = n) by (unfold size_of in Hk; lia).
    split; [by apply memcpy_key|]. apply take_ge. lia.
Qed.
Lemma group_through g a : group_fits g -> group_sizes a -> exists a', group_into g a = Ok a' /\ group_from a' = Ok g.
Proof.
  intros [[Hn Hj Hm] Hi Hs Ha] (S1 & S2 & S3 & S4). unfold group_into.
  destruct (id_text_through (cgi_id a) (gi_id g)) as (d1 & E1 & F1); [done..|].
  destruct (text_through 101 (cgi_name a) (bg_name (gi_base g))) as (d2 & E2 & F2); [done..|].
  destruct (key_through (cgi_secretkey a) (gi_secretkey g) 64) as (d3 & E3 & F3); [done|unfold size_of in S3; lia|done|].
  destruct (key_through (cgi_auth_data a) (gi_auth_data g) 100) as (d4 & E4 & F4); [done|unfold size_of in S4; lia|done|].
  change (Z.of_nat 64) with 64 in *. change (Z.of_nat 100) with 100 in *.
  rewrite E1, E2. cbn [mbind res_bind]. rewrite E3. cbn [mbind res_bind]. rewrite E4. cbn [mbind res_bind].
  eexists. split; [done|]. unfold group_from.
  cbn [cgi_base cgi_id cgi_name cgi_have_secretkey cgi_secretkey cgi_have_auth_data cgi_auth_data cgi_removed_status].
  rewrite F2. cbn [mbind res_bind]. rewrite base_through, F1, F3, F4 by done. by destruct g.
Qed.

Definition legacy_sizes (c : ugroups_legacy_group_info) : Prop :=
  size_of (cl_session_id c) = 67 /\ size_of (cl_name c) = 101 /\ size_of (cl_enc_pubkey c) = 32 /\ size_of (cl_enc_seckey c) = 32.
Record legacy_fits (g : legacy_group_info) : Prop := {
  lf_base : base_fits (lg_base g);
  lf_id : size_of (lg_session_id g) = 66;
  lf_keys : (lg_enc_pubkey g = [] /\ lg_enc_seckey g = []) \/ (size_of (lg_enc_pubkey g) = 32 /\ size_of (lg_enc_seckey g) = 32)
}.
Lemma legacy_through g a : legacy_fits g -> legacy_sizes a -> exists a', legacy_into g a = Ok a' /\ legacy_from a' = Ok g.
Proof.
  intros [[Hn Hj Hm] Hi Hk] (S1 & S2 & S3 & S4). unfold legacy_into.
  destruct (id_text_through (cl_session_id a) (lg_session_id g)) as (d1 & E1 & F1); [done..|].
  destruct (text_through 101 (cl_name a) (bg_name (lg_base g))) as (d2 & E2 & F2); [done..|].
  rewrite E1, E2. cbn [mbind res_bind]. destruct Hk as [[Ep Es]|[Ep Es]].
  - rewrite Ep, Es. eexists. split; [done|]. unfold legacy_from.
    cbn [cl_base cl_session_id cl_name cl_have_enc_keys cl_enc_pubkey cl_enc_seckey cl_disappearing_timer cl_internal].
    rewrite F2. cbn [mbind res_bind]. rewrite base_through, F1 by done. cbn [size_of Z.eqb andb length Z.of_nat value_or].
    destruct g. cbn in *. by subst.
  - rewrite Ep, Es. cbn [Z.eqb Pos.eqb andb copy_if]. unfold size_of in *.
    rewrite !memcpy_key by lia. cbn [mbind res_bind]. eexists. split; [done|]. unfold legacy_from.
    cbn [cl_base cl_session_id cl_name cl_have_enc_keys cl_enc_pubkey cl_enc_seckey cl_disappearing_timer cl_internal value_or].
    rewrite F2. cbn [mbind res_bind]. rewrite base_through, F1, !take_ge by (done || lia). by destruct g.
Qed.

(** ** Communities *)

(** A community that was made from its address. *)
Definition made_community (k : community) (room : bytes) : Prop := new_community_pk (base_url_ k) room (pubkey_ k) = Ok k.

Lemma room_no_null room r : canonical_room room = Ok r -> char_nul ∉ room.
Proof.
  intros (-> & Hf & _)%canonical_room_inv Hin. rewrite forallb_forall in Hf.
  by specialize (Hf (lower char_nul) (in_map lower _ _ (proj1 (list_elem_of_In _ _) Hin))).
Qed.
Lemma url_no_null u r : canonical_url u = Ok r -> char_nul ∉ r.
Proof.
  intros (proto & host & port & Hp & -> & _)%canonical_url_inv [Hin|[Hin|Hin]%elem_of_app]%elem_of_app.
  - destruct (cp_proto _ _ _ Hp) as [-> | ->]; by apply list_elem_of_In in Hin; cbn in Hin; naive_solver.
  - pose proof (cp_chars _ _ _ Hp) as Hh. rewrite Forall_forall in Hh. by specialize (Hh _ Hin).
  - destruct port as [p|]; [|by apply not_elem_of_nil in Hin]. cbn [port_text] in Hin.
    apply elem_of_cons in Hin as [?|Hin]; [done|].
    pose proof (cp_port _ _ _ Hp) as [[Hr _] _]. pose proof (print_int_chars p Hr) as Hd.
    rewrite Forall_forall in Hd. by specialize (Hd _ Hin).
Qed.

Lemma made_parts k room :
  made_community k room -> fits 268 (base_url_ k) /\ fits 65 room /\ size_of (pubkey_ k) = 32.
Proof.
  unfold made_community, new_community_pk, new_community, set_base_url, set_room, set_pubkey.
  destruct (canonical_url (base_url_ k)) as [u|] eqn:Eu; [|done]. cbn [mbind res_bind].
  destruct (canonical_room room) as [r|] eqn:Er; [|done]. cbn [mbind res_bind].
  destruct (Z.eqb_spec (size_of (pubkey_ k)) 32) as [Hk|]; [|done]. cbn [negb throw_if mbind res_bind base_url_]. intros [= Ek].
  assert (base_url_ k = u) as Hu by (by rewrite <- Ek). split; [|split; [|done]].
  - pose proof (url_no_null _ _ Eu). apply canonical_url_inv in Eu as (? & ? & ? & _ & _ & Hs).
    unfold BASE_URL_MAX_LENGTH in Hs. rewrite Hu. split; [lia|done].
  - pose proof (room_no_null _ _ Er). apply canonical_room_inv in Er as (-> & _ & _ & Hs).
    unfold ROOM_MAX_LENGTH, size_of, make_lc in *. rewrite length_fmap in Hs. split; [unfold size_of; lia|done].
Qed.

Definition community_sizes (c : ugroups_community_info) : Prop :=
  size_of (cu_base_url c) = 268 /\ size_of (cu_room c) = 65 /\ size_of (cu_pubkey c) = 32.
Lemma community_through i a :
  made_community (co_comm i) (comm_room (co_comm i)) -> bg_name (co_base i) = [] ->
  bg_joined_at (co_base i) <= 9000000000 -> bg_mute_until (co_base i) <= 9000000000 -> community_sizes a ->
  exists a', community_into i a = Ok a' /\ community_from a' = Ok i.
Proof.
  intros Hm Hn Hj Hmu (S1 & S2 & S3). destruct (made_parts _ _ Hm) as (Hu & Hr & Hk). unfold community_into.
  destruct (text_through 268 (cu_base_url a) (base_url_ (co_comm i))) as (d1 & E1 & F1); [done..|].
  destruct (text_through 65 (cu_room a) (comm_room (co_comm i))) as (d2 & E2 & F2); [done..|].
  rewrite E1, E2. cbn [mbind res_bind]. rewrite memcpy_key by (unfold size_of in *; lia). eexists. split; [done|].
  unfold community_from. cbn [cu_base cu_base_url cu_room cu_pubkey]. rewrite F1, F2. cbn [mbind res_bind].
  rewrite take_ge by (unfold size_of in Hk; lia). rewrite Hm. cbn [mbind res_bind].
  rewrite <- Hn, base_through by done. by destruct i.
Qed.

(** ** Conversations *)

Lemma convo_through i a :
  size_of (kc_id i) = 66 -> size_of (cv_id a) = 67 -> exists a', convo_into i a = Ok a' /\ convo_from a' = i.
Proof.
  intros Hi Ha. unfold convo_into. destruct (id_through (cv_id a) (kc_id i)) as (d & -> & F); [done..|].
  eexists. split; [done|]. unfold convo_from. cbn [cv_id cv_last_read cv_unread]. rewrite F. by destruct i as [[] ?].
Qed.

Definition convo_community_sizes (c : convo_info_volatile_community) : Prop :=
  size_of (cvc_base_url c) = 268 /\ size_of (cvc_room c) = 65 /\ size_of (cvc_pubkey c) = 32.
(** The room comes back in lower case. *)
Lemma convo_community_through i a :
  made_community (cc_comm i) (room_ (cc_comm i)) -> convo_community_sizes a ->
  exists a', convo_community_into i a = Ok a' /\ convo_community_from a' = Ok i.
Proof.
  intros Hm (S1 & S2 & S3). destruct (made_parts _ _ Hm) as (Hu & Hr & Hk). unfold convo_community_into.
  destruct (text_through 268 (cvc_base_url a) (base_url_ (cc_comm i))) as (d1 & E1 & F1); [done..|].
  destruct (text_through 65 (cvc_room a) (room_ (cc_comm i))) as (d2 & E2 & F2); [done..|].
  rewrite E1, E2. cbn [mbind res_bind]. rewrite memcpy_key by (unfold size_of in *; lia). eexists. split; [done|].
  unfold convo_community_from. cbn [cvc_base_url cvc_room cvc_pubkey cvc_last_read cvc_unread]. rewrite F1, F2. cbn [mbind res_bind].
  rewrite take_ge by (unfold size_of in Hk; lia). rewrite Hm. by destruct i as [[] ?].
Qed.
