(* ===== verification/CMemory.v ===== *)
(** * Memory of the C interface

    The functions of the C interface in [src/config/base.cpp] that pass arrays and texts through
    memory, and [make_string_list] of [src/config/internal.hpp].  Memory is a list of blocks, each
    a range of addresses with its bytes; an access outside of the blocks or a word at an address
    that is not aligned is an error ([Throw UB]).  Pointers and [size_t] have 8 bytes, the lowest
    first. *)
From stdpp Require Import list_numbers.
From S2P Require Import Prelude OMap BtValue ThirdParty ConfigData ConfigParse ConfigMessage.
From S2P Require Import Encrypt SessionEncrypt Protos Util ConfigBase Multipart BaseSync.
From S2P Require Import Internal Community ConvoInfoConfig CStructs.

(** ** Blocks *)

Record block := { b_addr : Z; b_data : bytes }.
Abbreviation memory := (list block).

Definition b_end (b : block) : Z := b_addr b + size_of (b_data b).
(** The [n] bytes from [p] on belong to the block. *)
Definition within (p n : Z) (b : block) : bool := (b_addr b <=? p) && (p + n <=? b_end b).
Definition apart (b b' : block) : Prop := b_end b <= b_addr b' \/ b_end b' <= b_addr b.

Fixpoint find_block (m : memory) (p n : Z) : option block :=
  match m with
  | [] => None
  | b :: m => if within p n b then Some b else find_block m p n
  end.

(** Writing [s] at [p] into a block that is being filled. *)
Definition store (b : block) (p : Z) (s : bytes) : res block :=
  if within p (size_of s) b then
    let i := Z.to_nat (p - b_addr b) in
    Ok {| b_addr := b_addr b; b_data := take i (b_data b) ++ s ++ drop (i + length s) (b_data b) |}
  else Throw UB.

(** Reading the [n] bytes at [p]; nothing is read if [n] is 0. *)
Definition load (m : memory) (p n : Z) : res bytes :=
  if n =? 0 then Ok []
  else match find_block m p n with
       | Some b => Ok (take (Z.to_nat n) (drop (Z.to_nat (p - b_addr b)) (b_data b)))
       | None => Throw UB
       end.

Definition word (v : Z) : bytes := byte_of <$> Z_to_little_endian 8 8 v.
Definition word_val (s : bytes) : Z := little_endian_to_Z 8 (byte_val <$> s).
Definition aligned (p : Z) : bool := p mod 8 =? 0.

Definition store_word (b : block) (p v : Z) : res block :=
  if aligned p then store b p (word v) else Throw UB.
Definition load_word (m : memory) (p : Z) : res Z :=
  if aligned p then s ← load m p 8; Ok (word_val s) else Throw UB.

(** The C string at [p], which ends before the first null byte. *)
Definition load_c_str (m : memory) (p : Z) : res bytes :=
  match find_block m p 1 with
  | Some b => c_string (drop (Z.to_nat (p - b_addr b)) (b_data b))
  | None => Throw UB
  end.

(** [std::malloc]: no block (a null pointer), or one that is aligned and apart from the others;
    what it holds is not known. *)
Class Allocator := {
  malloc : memory -> Z -> option block;
  malloc_size m n b : malloc m n = Some b -> size_of (b_data b) = n;
  malloc_range m n b : malloc m n = Some b -> 0 < b_addr b /\ b_end b < 2 ^ 64;
  malloc_aligned m n b : malloc m n = Some b -> b_addr b mod 8 = 0;
  malloc_apart m n b : malloc m n = Some b -> Forall (apart b) m
}.

(** A number of type [size_t]. *)
Definition size_t (n : Z) : Z := n mod 2 ^ 64.
Definition sizes (l : list bytes) : Z := foldr (fun s n => size_of s + n) 0 l.
(** Texts with their null bytes, as [c_str()] gives them. *)
Definition c_strs (l : list bytes) : list bytes := (fun s => s ++ [char_nul]) <$> l.

(** ** String lists *)

(** The loop that copies the texts and writes a pointer to each: [next_ptr] is where the pointer
    goes and [next_str] where the text goes. *)
Fixpoint put_strings (b : block) (next_ptr next_str : Z) (vals : list bytes) : res (block * Z) :=
  match vals with
  | [] => Ok (b, next_str)
  | v :: vals =>
      b ← store_word b next_ptr next_str;
      b ← store b next_str (v ++ [char_nul]);
      put_strings b (next_ptr + 8) (next_str + (size_of v + 1)) vals
  end.

Section CInterface.
Context `{Allocator}.

(** [make_string_list]: the memory with the new block, and its address.  The struct has the fields
    [value] and [len]. *)
Definition make_string_list (m : memory) (vals : list bytes) : res (memory * Z) :=
  let sz := size_t (16 + size_of vals * 8 + sizes (c_strs vals)) in
  match malloc m sz with
  | None => Throw UB
  | Some b =>
      let ret := b_addr b in
      b ← store_word b (ret + 8) (size_of vals);
      b ← store_word b ret (ret + 16);
      let! (b, _) := put_strings b (ret + 16) (ret + 16 + 8 * size_of vals) vals in
      Ok (b :: m, ret)
  end.

(** The statements that allocate [data.size()] bytes for [*out] and copy [data] to them: the memory,
    [*out] and [*outlen].  Nothing is copied, even to a null pointer, if there is no data. *)
Definition copy_out (m : memory) (data : bytes) : res (memory * Z * Z) :=
  match malloc m (size_of data) with
  | None => if is_nil data then Ok (m, 0, 0) else Throw UB
  | Some b => b ← store b (b_addr b) data; Ok (b :: m, b_addr b, size_of data)
  end.

(** Reading an array of [n] C strings. *)
Fixpoint load_strings (m : memory) (value : Z) (n : nat) : res (list bytes) :=
  match n with
  | O => Ok []
  | S n => p ← load_word m value; s ← load_c_str m p; l ← load_strings m (value + 8) n; Ok (s :: l)
  end.
Definition read_string_list (m : memory) (p : Z) : res (list bytes) :=
  value ← load_word m p; len ← load_word m (p + 8); load_strings m value (Z.to_nat len).

(** ** Pushing *)

Fixpoint put_data (b : block) (config config_lens pos : Z) (data : list bytes) : res (block * Z) :=
  match data with
  | [] => Ok (b, pos)
  | d :: data =>
      b ← store b pos d;
      b ← store_word b config pos;
      b ← store_word b config_lens (size_of d);
      put_data b (config + 8) (config_lens + 8) (pos + size_of d) data
  end.

Fixpoint put_obsolete (b : block) (obsolete pos : Z) (obs : list bytes) : res (block * Z) :=
  match obs with
  | [] => Ok (b, pos)
  | o :: obs =>
      let cstr_len := size_of o + 1 in
      b ← store b pos (o ++ [char_nul]);
      b ← store_word b obsolete pos;
      put_obsolete b (obsolete + 8) (pos + cstr_len) obs
  end.

(** The block that [config_push] returns.  The struct [config_push_data] has six fields of 8 bytes:
    [seqno], [config], [config_lens], [n_configs], [obsolete], [obsolete_len].  A failing [assert]
    ends the program. *)
Definition push_data_block (m : memory) (seqno : Z) (data obs : list bytes) :
    res (option (memory * Z)) :=
  let buffer_size := size_t (48 + size_of data * 8 + size_of data * 8 + size_of obs * 8 +
                             sizes data + sizes (c_strs obs)) in
  match malloc m buffer_size with
  | None => Ok None
  | Some b =>
      let ret := b_addr b in
      let config := ret + 48 in
      let config_lens := config + 8 * size_of data in
      let obsolete := config_lens + 8 * size_of data in
      b ← store_word b ret seqno;
      b ← store_word b (ret + 8) config;
      b ← store_word b (ret + 16) config_lens;
      b ← store_word b (ret + 24) (size_of data);
      b ← store_word b (ret + 32) obsolete;
      b ← store_word b (ret + 40) (size_of obs);
      let! (b, pos) := put_data b config config_lens (obsolete + 8 * size_of obs) data in
      let! (b, pos) := put_obsolete b obsolete pos obs in
      _ ← throw_if (negb (pos - ret =? buffer_size)) UB;
      Ok (Some (b :: m, ret))
  end.

(** Reading arrays of pointers and lengths. *)
Fixpoint load_data (m : memory) (config config_lens : Z) (n : nat) : res (list bytes) :=
  match n with
  | O => Ok []
  | S n => p ← load_word m config; len ← load_word m config_lens; d ← load m p len;
           l ← load_data m (config + 8) (config_lens + 8) n; Ok (d :: l)
  end.

(** A word as a signed number. *)
Definition signed_word (v : Z) : Z := if v <? 2 ^ 63 then v else v - 2 ^ 64.

(** The fields of a [config_push_data], and what an application reads through them. *)
Definition pd_seqno (m : memory) (p : Z) : res Z := signed_word <$> load_word m p.
Definition pd_config (m : memory) (p : Z) : res Z := load_word m (p + 8).
Definition pd_config_lens (m : memory) (p : Z) : res Z := load_word m (p + 16).
Definition pd_n_configs (m : memory) (p : Z) : res Z := load_word m (p + 24).
Definition pd_obsolete (m : memory) (p : Z) : res Z := load_word m (p + 32).
Definition pd_obsolete_len (m : memory) (p : Z) : res Z := load_word m (p + 40).
Definition read_push_data (m : memory) (p : Z) : res (Z * list bytes * list bytes) :=
  s ← pd_seqno m p; config ← pd_config m p; lens ← pd_config_lens m p; n ← pd_n_configs m p;
  obsolete ← pd_obsolete m p; n' ← pd_obsolete_len m p;
  data ← load_data m config lens (Z.to_nat n);
  obs ← load_strings m obsolete (Z.to_nat n');
  Ok (s, data, obs).

(** ** Exceptions

    [wrap_exceptions] of [include/session/config/base.hpp]: an exception becomes a null pointer or
    the value for errors.  It copies the text of the exception into the array [_error_buf] of 256
    characters.  What the array holds is not modelled; that the text fits is, where its length is not
    fixed by the code: [wrap_session_ids] is [wrap_exceptions] for the calls that check ids that
    the application passes.  Functions that catch exceptions themselves, without a text, are also
    written with [wrap_exceptions]. *)
Definition wrap_exceptions {A} (f : res A) : res (option A) :=
  match f with
  | Ok a => Ok (Some a)
  | Throw UB => Throw UB
  | Throw OutOfFuel => Throw OutOfFuel
  | Throw _ => Ok None
  end.

(** The text that [check_session_id] throws, and the first one for some ids. *)
Definition session_id_error (session_id prefix : bytes) : bytes :=
  bs "Invalid session ID: expected 66 hex digits starting with " ++ prefix ++ bs "; got " ++ session_id.
Fixpoint session_ids_error `{TextEncodings} (session_ids : list bytes) (prefix : bytes) : option bytes :=
  match session_ids with
  | [] => None
  | id :: ids => match check_session_id id prefix with
                 | Ok _ => session_ids_error ids prefix
                 | Throw _ => Some (session_id_error id prefix)
                 end
  end.
Definition wrap_session_ids `{TextEncodings} {A} (session_ids : list bytes) (prefix : bytes) (f : res A) : res (option A) :=
  match f, session_ids_error session_ids prefix with
  | Throw InvalidArgument, Some text => _ ← copy_c_str (zeros 256) text; Ok None
  | _, _ => wrap_exceptions f
  end.

(** ** The functions

    The pointer of a function that returns one is [None] for a null pointer.  The object comes with
    the result if there was no exception. *)
Context `{Oxenc} `{CryptoBox} `{Aead} `{Zstd} `{Protobuf} `{TextEncodings}.
Variable ty : ConfigType.

Fixpoint load_confs (m : memory) (msg_hashes configs lengths : Z) (count : nat) :
    res (list (bytes * bytes)) :=
  match count with
  | O => Ok []
  | S count =>
      hp ← load_word m msg_hashes; h ← load_c_str m hp;
      p ← load_word m configs; len ← load_word m lengths; d ← load m p len;
      l ← load_confs m (msg_hashes + 8) (configs + 8) (lengths + 8) count;
      Ok ((h, d) :: l)
  end.

Definition config_merge (now : Z) (m : memory) (conf : ConfigBase)
    (msg_hashes configs lengths count : Z) : res (option (memory * Z * ConfigBase)) :=
  wrap_exceptions (
    confs ← load_confs m msg_hashes configs lengths (Z.to_nat count);
    let! (good, conf) := merge ty now conf confs in
    let! (m, ret) := make_string_list m good in
    Ok (m, ret, conf)).

(** [push] is a virtual method: [ConvoInfoVolatile] has one of its own, which removes what is stale first.
    The time is in ticks of the clock. *)
Definition virtual_push (now : Z) (conf : ConfigBase) : res ((Z * list bytes * list bytes) * ConfigBase) :=
  match storage_namespace ty with
  | ConvoInfoVolatile => convo_push now conf
  | _ => push ty (now / CLOCK_TICKS_PER_MS) conf
  end.
Definition config_push (now : Z) (m : memory) (conf : ConfigBase) :
    res (option (option (memory * Z) * ConfigBase)) :=
  wrap_exceptions (
    let! ((seqno, data, obs), conf) := virtual_push now conf in
    ret ← push_data_block m seqno data obs;
    Ok (ret, conf)).

(** The set that is made from the hashes. *)
Definition config_confirm_pushed (m : memory) (conf : ConfigBase) (seqno msg_hashes hashes_len : Z) :
    res ConfigBase :=
  hashes ← load_strings m msg_hashes (Z.to_nat hashes_len);
  confirm_pushed conf seqno hashes.

(** [config_dump]: the memory, the values of [*out] and [*outlen], and the object. *)
Definition config_dump (now : Z) (m : memory) (conf : ConfigBase) :
    res (option (memory * Z * Z * ConfigBase)) :=
  wrap_exceptions (
    let! (data, conf) := dump now conf in
    let! (m, out, outlen) := copy_out m data in Ok (m, out, outlen, conf)).

Definition config_curr_hashes (m : memory) (conf : ConfigBase) : res (memory * Z) :=
  make_string_list m (_curr_hashes conf).
Definition config_active_hashes (now : Z) (m : memory) (conf : ConfigBase) : res (memory * Z) :=
  make_string_list m (active_hashes now conf).
Definition config_old_hashes (m : memory) (conf : ConfigBase) : res (memory * Z * ConfigBase) :=
  let '(old, conf) := old_hashes conf in
  let! (m, ret) := make_string_list m old in Ok (m, ret, conf).

(** [config_get_keys]: the pointer and [*len]. *)
Fixpoint put_keys (b : block) (cur : Z) (keys : list bytes) : res block :=
  match keys with
  | [] => Ok b
  | k :: keys => b ← (if size_of k <? 32 then Throw UB else store b cur (take 32 k));
                 put_keys b (cur + 32) keys
  end.
Definition config_get_keys (m : memory) (conf : ConfigBase) : res (memory * option Z * Z) :=
  let keys := _keys conf in
  _ ← throw_if (negb (forallb (fun k => size_of k =? 32) keys)) UB;
  if is_nil keys then Ok (m, None, 0)
  else match malloc m (size_t (32 * size_of keys)) with
       | None => Throw UB
       | Some b => b' ← put_keys b (b_addr b) keys; Ok (b' :: m, Some (b_addr b), size_of keys)
       end.

(** [config_encrypt], [config_decrypt] and [config_padded_size] of [src/config/encrypt.cpp]; [domain] is a C string. *)
Definition config_encrypt (m : memory) (plaintext len key_base : Z) (domain : bytes) : res (option (memory * Z * Z)) :=
  ciphertext ← wrap_exceptions (p ← load m plaintext len; key ← load m key_base 32; encrypt p key domain);
  match ciphertext with Some c => Some <$> copy_out m c | None => Ok None end.
Definition config_decrypt (m : memory) (ciphertext clen key_base : Z) (domain : bytes) : res (option (memory * Z * Z)) :=
  plaintext ← wrap_exceptions (c ← load m ciphertext clen; key ← load m key_base 32; decrypt c key domain);
  match plaintext with Some p => Some <$> copy_out m p | None => Ok None end.
Definition config_padded_size (s overhead : Z) : Z := padded_size s overhead.

Definition config_add_key (m : memory) (conf : ConfigBase) (key : Z) : res (option ConfigBase) :=
  wrap_exceptions (k ← load m key 32; add_key conf k true false).
Definition config_add_key_low_prio (m : memory) (conf : ConfigBase) (key : Z) :
    res (option ConfigBase) :=
  wrap_exceptions (k ← load m key 32; add_key conf k false false).
Definition config_clear_keys (conf : ConfigBase) : res (nat * ConfigBase) := clear_keys conf false.
Definition config_remove_key (m : memory) (conf : ConfigBase) (key : Z) : res (bool * ConfigBase) :=
  k ← load m key 32; remove_key conf k 0 false.
Definition config_key_count (conf : ConfigBase) : Z := key_count conf.
Definition config_has_key (m : memory) (conf : ConfigBase) (key : Z) : res bool :=
  k ← load m key 32; match has_key conf k with Ok r => Ok r | Throw _ => Ok false end.

Definition config_needs_push (conf : ConfigBase) : bool := needs_push conf.
Definition config_needs_dump (conf : ConfigBase) : bool := _needs_dump conf.

Definition config_set_sig_keys (m : memory) (conf : ConfigBase) (secret : Z) : res (option ConfigBase) :=
  wrap_exceptions (k ← load m secret 64; set_sig_keys conf k).
Definition config_set_sig_pubkey (m : memory) (conf : ConfigBase) (pubkey : Z) : res (option ConfigBase) :=
  wrap_exceptions (k ← load m pubkey 32; set_sig_pubkey conf k).
(** The functions that return a pointer into the object give what it points to. *)
Definition config_get_sig_pubkey (conf : ConfigBase) : option bytes := _sign_pk conf.
Definition config_key (conf : ConfigBase) (i : nat) : res bytes := key_at conf i.
Definition config_storage_namespace : Z := namespace_value (storage_namespace ty).
Definition config_encryption_domain : bytes := encryption_domain ty.
Definition config_clear_sig_keys (conf : ConfigBase) : ConfigBase := clear_sig_keys conf.
End CInterface.

(** ** Facts *)

(** ** Words *)

Lemma length_word v : length (word v) = 8%nat.
Proof. unfold word. rewrite length_fmap. pose proof (length_Z_to_little_endian 8 8 v). lia. Qed.

Lemma size_word v : size_of (word v) = 8.
Proof. unfold size_of. by rewrite length_word. Qed.

Lemma word_val_word v : word_val (word v) = v mod 2 ^ 64.
Proof.
  unfold word_val, word. rewrite <- list_fmap_compose.
  rewrite (list_fmap_ext _ id).
  - rewrite list_fmap_id. by rewrite little_endian_to_Z_to_little_endian.
  - intros i x Hx. apply list_elem_of_lookup_2 in Hx.
    pose proof (Z_to_little_endian_bound 8 8 v ltac:(lia) ltac:(lia)) as Hb.
    rewrite Forall_forall in Hb. apply byte_val_of. by apply Hb.
Qed.

Definition words (l : list Z) : bytes := concat (word <$> l).

Lemma size_words l : size_of (words l) = 8 * size_of l.
Proof.
  unfold words. induction l as [|v l IH]; [done|]. cbn. rewrite size_of_app, IH, size_word.
  unfold size_of. cbn [length]. lia.
Qed.

Lemma size_cons {A} (x : A) l : size_of (x :: l) = size_of l + 1.
Proof. unfold size_of. cbn [length]. lia. Qed.

Lemma size_nil {A} : size_of (@nil A) = 0.
Proof. done. Qed.

Lemma size_concat l : size_of (concat l) = sizes l.
Proof. induction l as [|s l IH]; [done|]. cbn. by rewrite size_of_app, IH. Qed.

Lemma size_fmap {A B} (f : A -> B) l : size_of (f <$> l) = size_of l.
Proof. unfold size_of. by rewrite length_fmap. Qed.

Lemma sizes_cons s l : sizes (s :: l) = size_of s + sizes l.
Proof. done. Qed.
Lemma c_strs_cons v vals : c_strs (v :: vals) = (v ++ [char_nul]) :: c_strs vals.
Proof. done. Qed.
Lemma size_c_strs vals : size_of (c_strs vals) = size_of vals.
Proof. apply size_fmap. Qed.

#[export] Hint Rewrite sizes_cons c_strs_cons size_c_strs @size_of_app size_word size_words @size_cons @size_nil size_concat @size_fmap : sizes.
(** Concatenations up to associativity, and arithmetic with the sizes of lists. *)
Ltac apps := cbn [app concat fmap list_fmap]; rewrite <- ?app_assoc; try done.
Ltac size_lia := autorewrite with sizes in *; lia.

(** ** Writing to a block *)

Lemma store_at A X B a D p s :
  D = A ++ X ++ B -> p = a + size_of A -> size_of X = size_of s ->
  store {| b_addr := a; b_data := D |} p s = Ok {| b_addr := a; b_data := A ++ s ++ B |}.
Proof.
  intros -> -> Hs. unfold store, within, b_end. cbn [b_addr b_data].
  pose proof (size_of_nonneg A). pose proof (size_of_nonneg B).
  rewrite (proj2 (Z.leb_le _ _)) by lia. rewrite (proj2 (Z.leb_le _ _)) by size_lia. cbn [andb].
  replace (Z.to_nat _) with (length A) by (unfold size_of in *; lia).
  assert (length X = length s) by (unfold size_of in *; lia).
  rewrite take_app_length, <- drop_drop, drop_app_length, (drop_app_length' X) by done. done.
Qed.

Lemma store_word_at A X B a D p v :
  D = A ++ X ++ B -> p = a + size_of A -> size_of X = 8 -> p mod 8 = 0 ->
  store_word {| b_addr := a; b_data := D |} p v =
  Ok {| b_addr := a; b_data := A ++ word v ++ B |}.
Proof.
  intros Hd Hp HX Ha. unfold store_word, aligned. rewrite Ha. cbn [Z.eqb].
  apply (store_at A X); [done..|]. by rewrite size_word.
Qed.

(** ** Reading memory *)

(** The blocks do not overlap. *)
Definition wf_memory (m : memory) : Prop :=
  forall b b', b ∈ m -> b' ∈ m -> b = b' \/ apart b b'.

Lemma wf_memory_nil : wf_memory [].
Proof. intros b b' Hin. by apply not_elem_of_nil in Hin. Qed.

Lemma find_block_in m b p n :
  wf_memory m -> b ∈ m -> within p n b = true -> 0 < n -> find_block m p n = Some b.
Proof.
  intros Hw Hb Hp Hn. unfold wf_memory in Hw.
  assert (forall b', b' ∈ m -> b = b' \/ apart b b') as Hall by auto. clear Hw.
  induction m as [|c m IH]; [by apply not_elem_of_nil in Hb|]. cbn [find_block].
  destruct (within p n c) eqn:Hc.
  - destruct (Hall c) as [->|Ha]; [constructor|done|].
    unfold within, apart in *. bool_prop. lia.
  - apply IH.
    + apply elem_of_cons in Hb as [->|?]; [congruence|done].
    + intros. apply Hall. by constructor.
Qed.

Section InBlock.
Variables (m : memory) (b : block).
Hypotheses (Hm : wf_memory m) (Hb : b ∈ m).

Lemma load_at A X B p n :
  b_data b = A ++ X ++ B -> p = b_addr b + size_of A -> n = size_of X -> load m p n = Ok X.
Proof.
  intros Hd -> ->. unfold load. pose proof (size_of_nonneg A). pose proof (size_of_nonneg B).
  destruct (Z.eqb_spec (size_of X) 0) as [E|E].
  { destruct X; [done|]. by unfold size_of in E. }
  pose proof (size_of_nonneg X).
  rewrite (find_block_in m b) by (auto; try lia; unfold within, b_end; rewrite Hd;
    apply andb_true_iff; split; apply Z.leb_le; size_lia).
  replace (Z.to_nat (_ - _)) with (length A) by (unfold size_of in *; lia).
  unfold size_of. rewrite Nat2Z.id, Hd, drop_app_length, take_app_length. done.
Qed.

Lemma load_word_mod A v B p :
  b_data b = A ++ word v ++ B -> p = b_addr b + size_of A -> p mod 8 = 0 ->
  load_word m p = Ok (v mod 2 ^ 64).
Proof.
  intros Hd Hp Ha. unfold load_word, aligned. rewrite Ha. cbn [Z.eqb].
  rewrite (load_at A (word v) B) by (auto; by rewrite size_word). cbn [mbind res_bind].
  by rewrite word_val_word.
Qed.

Lemma load_word_at A v B p :
  b_data b = A ++ word v ++ B -> p = b_addr b + size_of A -> p mod 8 = 0 -> 0 <= v < 2 ^ 64 ->
  load_word m p = Ok v.
Proof. intros Hd Hp Ha Hv. rewrite (load_word_mod A v B) by done. by rewrite Z.mod_small. Qed.

Lemma load_c_str_at A s B p :
  b_data b = A ++ (s ++ [char_nul]) ++ B -> p = b_addr b + size_of A -> char_nul ∉ s ->
  load_c_str m p = Ok s.
Proof.
  intros Hd -> Hs. unfold load_c_str. pose proof (size_of_nonneg A). pose proof (size_of_nonneg s).
  pose proof (size_of_nonneg B).
  rewrite (find_block_in m b) by (auto; try lia; unfold within, b_end; rewrite Hd;
    apply andb_true_iff; split; apply Z.leb_le; size_lia).
  replace (Z.to_nat (_ - _)) with (length A) by (unfold size_of in *; lia).
  rewrite Hd, drop_app_length, <- app_assoc. by apply c_string_app.
Qed.
End InBlock.

(** ** Arrays of pointers with the data they point to *)

(** The addresses of data that is packed from [p] on. *)
Fixpoint pointers (p : Z) (l : list bytes) : list Z :=
  match l with [] => [] | s :: l => p :: pointers (p + size_of s) l end.

Lemma size_pointers p l : size_of (pointers p l) = size_of l.
Proof. revert p; induction l as [|s l IH]; intros p; cbn; [done|]. by rewrite !size_cons, IH. Qed.
#[export] Hint Rewrite size_pointers : sizes.

Lemma sizes_nonneg l : 0 <= sizes l.
Proof. rewrite <- size_concat. apply size_of_nonneg. Qed.

Lemma size_c_str s : size_of (s ++ [char_nul]) = size_of s + 1.
Proof. size_lia. Qed.

(** A list of a given size splits at any smaller size. *)
Lemma split_size (X : bytes) n :
  0 <= n <= size_of X -> exists X1 X2, X = X1 ++ X2 /\ size_of X1 = n /\ size_of X2 = size_of X - n.
Proof.
  intros Hn. exists (take (Z.to_nat n) X), (drop (Z.to_nat n) X). rewrite take_drop.
  unfold size_of in *. rewrite length_take, length_drop. split_and!; [done|lia..].
Qed.

Lemma mod8_next p : p mod 8 = 0 -> (p + 8) mod 8 = 0.
Proof. intros Hp. rewrite Z.add_mod, Hp by lia. done. Qed.
#[export] Hint Resolve mod8_next : session.

Lemma words_cons v l : words (v :: l) = word v ++ words l.
Proof. done. Qed.

Lemma put_strings_ok vals a A P C S T D p q :
  D = A ++ P ++ C ++ S ++ T -> p = a + size_of A -> q = p + size_of P + size_of C -> p mod 8 = 0 ->
  size_of P = 8 * size_of vals -> size_of S = sizes (c_strs vals) ->
  put_strings {| b_addr := a; b_data := D |} p q vals =
  Ok ({| b_addr := a; b_data := A ++ words (pointers q (c_strs vals)) ++ C ++ concat (c_strs vals) ++ T |},
      q + sizes (c_strs vals)).
Proof.
  revert A P C S D p q. induction vals as [|v vals IH]; intros A P C S D p q -> Hp Hq Ha HP HS.
  - destruct P; [|done]. destruct S; [|done]. cbn. by rewrite Z.add_0_r.
  - rewrite c_strs_cons, sizes_cons in *.
    pose proof (size_of_nonneg vals). pose proof (size_of_nonneg v). pose proof (sizes_nonneg (c_strs vals)).
    destruct (split_size P 8) as (P1 & P2 & -> & HP1 & HP2); [size_lia|].
    destruct (split_size S (size_of (v ++ [char_nul]))) as (S1 & S2 & -> & HS1 & HS2); [size_lia|].
    cbn [put_strings pointers].
    rewrite (store_word_at A P1 (P2 ++ C ++ S1 ++ S2 ++ T)) by (auto; apps). cbn [mbind res_bind].
    rewrite (store_at (A ++ word q ++ P2 ++ C) S1 (S2 ++ T)) by (apps; size_lia). cbn [mbind res_bind].
    rewrite (IH (A ++ word q) P2 (C ++ v ++ [char_nul]) S2) by (auto with session; apps; size_lia).
    rewrite size_c_str, words_cons. f_equal. f_equal; [|size_lia]. f_equal. apps.
Qed.

Lemma put_obsolete_ok obs a A P C S T D p q :
  D = A ++ P ++ C ++ S ++ T -> p = a + size_of A -> q = p + size_of P + size_of C -> p mod 8 = 0 ->
  size_of P = 8 * size_of obs -> size_of S = sizes (c_strs obs) ->
  put_obsolete {| b_addr := a; b_data := D |} p q obs =
  Ok ({| b_addr := a; b_data := A ++ words (pointers q (c_strs obs)) ++ C ++ concat (c_strs obs) ++ T |},
      q + sizes (c_strs obs)).
Proof.
  revert A P C S D p q. induction obs as [|o obs IH]; intros A P C S D p q -> Hp Hq Ha HP HS.
  - destruct P; [|done]. destruct S; [|done]. cbn. by rewrite Z.add_0_r.
  - rewrite c_strs_cons, sizes_cons in *.
    pose proof (size_of_nonneg obs). pose proof (size_of_nonneg o). pose proof (sizes_nonneg (c_strs obs)).
    destruct (split_size P 8) as (P1 & P2 & -> & HP1 & HP2); [size_lia|].
    destruct (split_size S (size_of (o ++ [char_nul]))) as (S1 & S2 & -> & HS1 & HS2); [size_lia|].
    cbn [put_obsolete pointers].
    rewrite (store_at (A ++ P1 ++ P2 ++ C) S1 (S2 ++ T)) by (apps; size_lia). cbn [mbind res_bind].
    rewrite (store_word_at A P1 (P2 ++ C ++ (o ++ [char_nul]) ++ S2 ++ T)) by (auto; apps). cbn [mbind res_bind].
    rewrite (IH (A ++ word q) P2 (C ++ o ++ [char_nul]) S2) by (auto with session; apps; size_lia).
    rewrite size_c_str, words_cons. f_equal. f_equal; [|size_lia]. f_equal. apps.
Qed.

Lemma put_data_ok data a A P C L B S T D p l q :
  D = A ++ P ++ C ++ L ++ B ++ S ++ T -> p = a + size_of A -> l = p + size_of P + size_of C ->
  q = l + size_of L + size_of B -> p mod 8 = 0 -> l mod 8 = 0 ->
  size_of P = 8 * size_of data -> size_of L = 8 * size_of data -> size_of S = sizes data ->
  put_data {| b_addr := a; b_data := D |} p l q data =
  Ok ({| b_addr := a; b_data := A ++ words (pointers q data) ++ C ++ words (size_of <$> data) ++ B ++
           concat data ++ T |}, q + sizes data).
Proof.
  revert A P C L B S D p l q.
  induction data as [|d data IH]; intros A P C L B S D p l q -> Hp Hl Hq Ha Ha' HP HL HS.
  - destruct P; [|done]. destruct L; [|done]. destruct S; [|done]. cbn. by rewrite Z.add_0_r.
  - rewrite sizes_cons in *.
    pose proof (size_of_nonneg data). pose proof (size_of_nonneg d). pose proof (sizes_nonneg data).
    destruct (split_size P 8) as (P1 & P2 & -> & HP1 & HP2); [size_lia|].
    destruct (split_size L 8) as (L1 & L2 & -> & HL1 & HL2); [size_lia|].
    destruct (split_size S (size_of d)) as (S1 & S2 & -> & HS1 & HS2); [size_lia|].
    cbn [put_data pointers].
    rewrite (store_at (A ++ P1 ++ P2 ++ C ++ L1 ++ L2 ++ B) S1 (S2 ++ T)) by (apps; size_lia). cbn [mbind res_bind].
    rewrite (store_word_at A P1 (P2 ++ C ++ L1 ++ L2 ++ B ++ d ++ S2 ++ T)) by (auto; apps). cbn [mbind res_bind].
    rewrite (store_word_at (A ++ word q ++ P2 ++ C) L1 (L2 ++ B ++ d ++ S2 ++ T)) by (auto; apps; size_lia).
    cbn [mbind res_bind].
    rewrite (IH (A ++ word q) P2 (C ++ word (size_of d)) L2 (B ++ d) S2) by (auto with session; apps; size_lia).
    cbn [fmap list_fmap]. rewrite !words_cons. f_equal. f_equal; [|size_lia]. f_equal. apps.
Qed.

(** ** Reading them *)

Section InBlock.
Variables (m : memory) (b : block).
Hypotheses (Hm : wf_memory m) (Hb : b ∈ m) (H0 : 0 < b_addr b) (Hend : b_end b < 2 ^ 64).

Lemma load_strings_ok vals A C T p q :
  b_data b = A ++ words (pointers q (c_strs vals)) ++ C ++ concat (c_strs vals) ++ T ->
  p = b_addr b + size_of A -> q = p + 8 * size_of vals + size_of C -> p mod 8 = 0 ->
  Forall (fun s => char_nul ∉ s) vals ->
  load_strings m p (length vals) = Ok vals.
Proof.
  revert A C p q. induction vals as [|v vals IH]; intros A C p q Hd Hp Hq Ha Hv; [done|].
  rewrite c_strs_cons in Hd. apply Forall_cons in Hv as [Hv Hvs].
  cbn [pointers concat] in Hd. rewrite words_cons in Hd.
  assert (b_end b = b_addr b + size_of (b_data b)) as He by done. rewrite Hd in He.
  pose proof (size_of_nonneg vals). pose proof (size_of_nonneg v). pose proof (size_of_nonneg A).
  pose proof (size_of_nonneg C). pose proof (size_of_nonneg T). pose proof (sizes_nonneg (c_strs vals)).
  cbn [load_strings length].
  rewrite (load_word_at m b Hm Hb A q (words (pointers (q + size_of (v ++ [char_nul])) (c_strs vals)) ++ C ++
    (v ++ [char_nul]) ++ concat (c_strs vals) ++ T)) by (auto; try rewrite Hd; apps; size_lia).
  cbn [mbind res_bind].
  rewrite (load_c_str_at m b Hm Hb (A ++ word q ++ words (pointers (q + size_of (v ++ [char_nul])) (c_strs vals)) ++ C)
    v (concat (c_strs vals) ++ T)) by (auto; try rewrite Hd; apps; size_lia).
  cbn [mbind res_bind].
  rewrite (IH (A ++ word q) (C ++ v ++ [char_nul]) (p + 8) (q + size_of (v ++ [char_nul])))
    by (auto with session; try rewrite Hd; apps; size_lia). done.
Qed.

Lemma load_data_ok data A C B T p l q :
  b_data b = A ++ words (pointers q data) ++ C ++ words (size_of <$> data) ++ B ++ concat data ++ T ->
  p = b_addr b + size_of A -> l = p + 8 * size_of data + size_of C ->
  q = l + 8 * size_of data + size_of B -> p mod 8 = 0 -> l mod 8 = 0 ->
  load_data m p l (length data) = Ok data.
Proof.
  revert A C B p l q. induction data as [|d data IH]; intros A C B p l q Hd Hp Hl Hq Ha Ha'; [done|].
  cbn [pointers concat fmap list_fmap] in Hd. rewrite !words_cons in Hd.
  assert (b_end b = b_addr b + size_of (b_data b)) as He by done. rewrite Hd in He.
  pose proof (size_of_nonneg data). pose proof (size_of_nonneg d). pose proof (size_of_nonneg A).
  pose proof (size_of_nonneg C). pose proof (size_of_nonneg B). pose proof (size_of_nonneg T).
  pose proof (sizes_nonneg data).
  set (ps := words (pointers (q + size_of d) data)) in *. set (ls := words (size_of <$> data)) in *.
  assert (size_of ps = 8 * size_of data) as Hps by (unfold ps; size_lia).
  assert (size_of ls = 8 * size_of data) as Hls by (unfold ls; size_lia).
  cbn [load_data length].
  rewrite (load_word_at m b Hm Hb A q (ps ++ C ++ word (size_of d) ++ ls ++ B ++ d ++ concat data ++ T) p)
    by (auto; try rewrite Hd; apps; size_lia). cbn [mbind res_bind].
  rewrite (load_word_at m b Hm Hb (A ++ word q ++ ps ++ C) (size_of d) (ls ++ B ++ d ++ concat data ++ T) l)
    by (auto; try rewrite Hd; apps; size_lia). cbn [mbind res_bind].
  rewrite (load_at m b Hm Hb (A ++ word q ++ ps ++ C ++ word (size_of d) ++ ls ++ B) d (concat data ++ T))
    by (auto; try rewrite Hd; apps; size_lia). cbn [mbind res_bind].
  rewrite (IH (A ++ word q) (C ++ word (size_of d)) (B ++ d) (p + 8) (l + 8) (q + size_of d))
    by (auto with session; try rewrite Hd; apps; size_lia). done.
Qed.
End InBlock.

(** The arguments of [config_merge] are an array of texts and one of data. *)
Lemma load_confs_zip m hs p l n hashes data :
  load_strings m hs n = Ok hashes -> load_data m p l n = Ok data ->
  load_confs m hs p l n = Ok (zip hashes data).
Proof.
  revert hs p l hashes data. induction n as [|n IH]; intros hs p l hashes data Hh Hd.
  - cbn in *. by simplify_eq.
  - cbn [load_strings load_data load_confs] in *. res_inv Hh. res_inv Hd.
    cbn [mbind res_bind]. rewrite E0. cbn [mbind res_bind]. rewrite E4. cbn [mbind res_bind].
    by rewrite (IH _ _ _ _ _ E1 E5).
Qed.

(** ** The blocks *)

Section Blocks.
Context `{Allocator}.

(** A block that has been filled is part of a memory without overlaps. *)
Lemma malloc_filled m n b d b' :
  wf_memory m -> malloc m n = Some b -> size_of d = n -> b' = {| b_addr := b_addr b; b_data := d |} ->
  wf_memory (b' :: m) /\ b' ∈ b' :: m /\ 0 < b_addr b' /\ b_end b' < 2 ^ 64 /\ b_addr b' mod 8 = 0.
Proof.
  intros Hm Hb Hd ->. pose proof (malloc_apart m n b Hb) as Ha. rewrite Forall_forall in Ha.
  pose proof (malloc_size _ _ _ Hb) as Hs. pose proof (malloc_range _ _ _ Hb) as [Hr He].
  pose proof (malloc_aligned _ _ _ Hb). split_and!; [|constructor|done| |done].
  2:{ unfold b_end in *. cbn. lia. }
  intros c c' Hc Hc'.
  assert (forall e, e ∈ m -> apart {| b_addr := b_addr b; b_data := d |} e) as Hn.
  { intros e Hin. specialize (Ha e Hin). unfold apart, b_end in *. cbn. lia. }
  apply elem_of_cons in Hc as [->|Hc]; apply elem_of_cons in Hc' as [->|Hc']; auto.
  right. specialize (Hn c Hc). unfold apart in *. lia.
Qed.

(** The string list as it is in memory. *)
Definition string_list_data (ret : Z) (vals : list bytes) : bytes :=
  words [ret + 16; size_of vals] ++
  words (pointers (ret + 16 + 8 * size_of vals) (c_strs vals)) ++ concat (c_strs vals).

Definition string_list_size (vals : list bytes) : Z := 16 + size_of vals * 8 + sizes (c_strs vals).

Lemma make_string_list_ok m vals b :
  string_list_size vals < 2 ^ 64 -> malloc m (string_list_size vals) = Some b ->
  make_string_list m vals =
  Ok ({| b_addr := b_addr b; b_data := string_list_data (b_addr b) vals |} :: m, b_addr b).
Proof.
  intros Hsz Hb. pose proof (size_of_nonneg vals). pose proof (sizes_nonneg (c_strs vals)).
  pose proof (malloc_size _ _ _ Hb) as Hs. pose proof (malloc_aligned _ _ _ Hb) as Ha.
  unfold make_string_list, size_t. rewrite Z.mod_small by (unfold string_list_size in Hsz; lia).
  fold (string_list_size vals). rewrite Hb. unfold string_list_size in *.
  destruct b as [a D]; cbn [b_addr b_data] in *.
  destruct (split_size D 8) as (D1 & D' & -> & HD1 & HD'); [lia|].
  destruct (split_size D' 8) as (D2 & D'' & -> & HD2 & HD''); [lia|].
  destruct (split_size D'' (8 * size_of vals)) as (P & S & -> & HP & HS); [lia|].
  rewrite (store_word_at D1 D2 (P ++ S)) by (auto with session; lia). cbn [mbind res_bind].
  rewrite (store_word_at [] D1 (word (size_of vals) ++ P ++ S)) by (auto; size_lia). cbn [mbind res_bind].
  rewrite (put_strings_ok vals a (word (a + 16) ++ word (size_of vals)) P [] S []).
  - unfold string_list_data. rewrite app_nil_r. unfold words at 2. cbn. by rewrite app_nil_r, <- !app_assoc.
  - rewrite app_nil_r. apps.
  - size_lia.
  - size_lia.
  - replace (a + 16) with (a + 8 + 8) by lia. auto with session.
  - done.
  - lia.
Qed.

Lemma read_string_list_ok m m' vals p :
  wf_memory m -> string_list_size vals < 2 ^ 64 -> make_string_list m vals = Ok (m', p) ->
  Forall (fun s => char_nul ∉ s) vals ->
  wf_memory m' /\ load_word m' p = Ok (p + 16) /\ load_strings m' (p + 16) (length vals) = Ok vals /\
  read_string_list m' p = Ok vals.
Proof.
  intros Hm Hsz Hmk Hv. destruct (malloc m (string_list_size vals)) as [b|] eqn:Hb.
  2:{ unfold make_string_list, size_t in Hmk. pose proof (size_of_nonneg vals).
      pose proof (sizes_nonneg (c_strs vals)). unfold string_list_size in *.
      by rewrite Z.mod_small, Hb in Hmk by lia. }
  rewrite (make_string_list_ok m vals b Hsz Hb) in Hmk. injection Hmk as <- <-.
  pose proof (size_of_nonneg vals). pose proof (sizes_nonneg (c_strs vals)).
  destruct (malloc_filled m _ b (string_list_data (b_addr b) vals) 
    {| b_addr := b_addr b; b_data := string_list_data (b_addr b) vals |} Hm Hb)
    as (Hw & Hin & Hr & He & Ha); [unfold string_list_data, string_list_size; size_lia|done|].
  set (b' := {| b_addr := b_addr b; b_data := string_list_data (b_addr b) vals |}) in *.
  assert (b_end b' = b_addr b + string_list_size vals) as Hs.
  { unfold b_end. cbn [b_addr b_data b']. unfold string_list_data, string_list_size. size_lia. }
  unfold string_list_size in *. cbn [b_addr b'] in Hr, Ha.
  assert (load_word (b' :: m) (b_addr b) = Ok (b_addr b + 16)) as Hvalue.
  { apply (load_word_at _ b' Hw Hin [] (b_addr b + 16) (words [size_of vals] ++
      words (pointers (b_addr b + 16 + 8 * size_of vals) (c_strs vals)) ++ concat (c_strs vals))).
    all: try (cbn [b_addr b']; auto; size_lia). }
  assert (load_strings (b' :: m) (b_addr b + 16) (length vals) = Ok vals) as Hstr.
  { apply (load_strings_ok _ b' Hw Hin Hr He vals (words [b_addr b + 16; size_of vals]) [] []
      _ (b_addr b + 16 + 8 * size_of vals)); cbn [b_addr b_data b']; auto.
    - unfold string_list_data. by rewrite app_nil_r.
    - size_lia.
    - replace (b_addr b + 16) with (b_addr b + 8 + 8) by lia. auto with session. }
  split_and!; [done..|]. unfold read_string_list. rewrite Hvalue. cbn [mbind res_bind].
  rewrite (load_word_at _ b' Hw Hin (word (b_addr b + 16)) (size_of vals)
    (words (pointers (b_addr b + 16 + 8 * size_of vals) (c_strs vals)) ++ concat (c_strs vals))).
  - cbn [mbind res_bind]. unfold size_of at 1. by rewrite Nat2Z.id.
  - cbn [b_data b']. unfold string_list_data. rewrite !words_cons. apps.
  - cbn [b_addr b']. size_lia.
  - auto with session.
  - lia.
Qed.

(** The data of a push as it is in memory: the struct, the pointers, the lengths, the pointers to
    the hashes, the data, the hashes. *)
Definition push_data_data (ret s : Z) (data obs : list bytes) : bytes :=
  let n := size_of data in
  let q := ret + 48 + 8 * n + 8 * n + 8 * size_of obs in
  words [s; ret + 48; ret + 48 + 8 * n; n; ret + 48 + 8 * n + 8 * n; size_of obs] ++
  words (pointers q data) ++ words (size_of <$> data) ++ words (pointers (q + sizes data) (c_strs obs)) ++
  concat data ++ concat (c_strs obs).

Definition push_data_size (data obs : list bytes) : Z :=
  48 + size_of data * 8 + size_of data * 8 + size_of obs * 8 + sizes data + sizes (c_strs obs).

Lemma size_push_data_data ret s data obs : size_of (push_data_data ret s data obs) = push_data_size data obs.
Proof. unfold push_data_data, push_data_size. size_lia. Qed.

Lemma mod8_add p n : p mod 8 = 0 -> (p + 8 * n) mod 8 = 0.
Proof. intros Hp. rewrite Z.add_mod, (Z.mul_comm 8), Z_mod_mult, Hp by lia. done. Qed.

(** Alignment of an address that is a multiple of 8 away from an aligned one. *)
Ltac mod8 a := match goal with |- ?p mod 8 = 0 =>
  let d := eval cbv beta in ((p - a) / 8) in first
  [ done | assert (p = a + 8 * d) as -> by (Z.to_euclidean_division_equations; lia); apply mod8_add; done ] end.

Lemma push_data_block_ok m s data obs b :
  push_data_size data obs < 2 ^ 64 -> malloc m (push_data_size data obs) = Some b ->
  push_data_block m s data obs =
  Ok (Some ({| b_addr := b_addr b; b_data := push_data_data (b_addr b) s data obs |} :: m, b_addr b)).
Proof.
  intros Hsz Hb. pose proof (size_of_nonneg data). pose proof (size_of_nonneg obs).
  pose proof (sizes_nonneg data). pose proof (sizes_nonneg (c_strs obs)).
  pose proof (malloc_size _ _ _ Hb) as Hs. pose proof (malloc_aligned _ _ _ Hb) as Ha.
  unfold push_data_block, size_t. rewrite !Z.mod_small by (unfold push_data_size in Hsz; lia).
  fold (push_data_size data obs). rewrite Hb. unfold push_data_size in *.
  destruct b as [a D]; cbn [b_addr b_data] in *.
  destruct (split_size D 8) as (D1 & R & -> & HD1 & HR); [lia|].
  destruct (split_size R 8) as (D2 & R2 & -> & HD2 & HR2); [lia|].
  destruct (split_size R2 8) as (D3 & R3 & -> & HD3 & HR3); [lia|].
  destruct (split_size R3 8) as (D4 & R4 & -> & HD4 & HR4); [lia|].
  destruct (split_size R4 8) as (D5 & R5 & -> & HD5 & HR5); [lia|].
  destruct (split_size R5 8) as (D6 & R6 & -> & HD6 & HR6); [lia|].
  destruct (split_size R6 (8 * size_of data)) as (P & R7 & -> & HP & HR7); [lia|].
  destruct (split_size R7 (8 * size_of data)) as (L & R8 & -> & HL & HR8); [lia|].
  destruct (split_size R8 (8 * size_of obs)) as (O & R9 & -> & HO & HR9); [lia|].
  destruct (split_size R9 (sizes data)) as (S1 & S2 & -> & HS1 & HS2); [lia|].
  set (n := size_of data) in *. set (k := size_of obs) in *.
  rewrite (store_word_at [] D1 (D2 ++ D3 ++ D4 ++ D5 ++ D6 ++ P ++ L ++ O ++ S1 ++ S2))
    by (try apps; size_lia). cbn [mbind res_bind].
  rewrite (store_word_at (word s) D2 (D3 ++ D4 ++ D5 ++ D6 ++ P ++ L ++ O ++ S1 ++ S2))
    by (try apps; first [size_lia | mod8 a]). cbn [mbind res_bind].
  rewrite (store_word_at (words [s; a + 48]) D3 (D4 ++ D5 ++ D6 ++ P ++ L ++ O ++ S1 ++ S2))
    by (try apps; first [size_lia | mod8 a]). cbn [mbind res_bind].
  rewrite (store_word_at (words [s; a + 48; a + 48 + 8 * n]) D4 (D5 ++ D6 ++ P ++ L ++ O ++ S1 ++ S2))
    by (try apps; first [size_lia | mod8 a]). cbn [mbind res_bind].
  rewrite (store_word_at (words [s; a + 48; a + 48 + 8 * n; n]) D5 (D6 ++ P ++ L ++ O ++ S1 ++ S2))
    by (try apps; first [size_lia | mod8 a]). cbn [mbind res_bind].
  set (hd := words [s; a + 48; a + 48 + 8 * n; n; a + 48 + 8 * n + 8 * n]).
  rewrite (store_word_at hd D6 (P ++ L ++ O ++ S1 ++ S2))
    by (try apps; first [unfold hd; size_lia | mod8 a]). cbn [mbind res_bind].
  rewrite (put_data_ok data a (hd ++ word k) P [] L O S1 S2)
    by (auto; try apps; first [unfold hd; size_lia | mod8 a]). cbn [mbind res_bind app].
  rewrite (put_obsolete_ok obs a (hd ++ word k ++ words (pointers (a + 48 + 8 * n + 8 * n + 8 * k) data) ++
    words (size_of <$> data)) O (concat data) S2 [])
    by (rewrite ?app_nil_r; auto; try apps; first [unfold hd, n, k in *; size_lia | mod8 a]).
  rewrite (proj2 (Z.eqb_eq _ _)) by (unfold n, k; size_lia). cbn [mbind res_bind negb throw_if].
  unfold push_data_data, hd. cbv zeta. rewrite app_nil_r. apps.
Qed.

Lemma signed_word_mod s : in_int64 s = true -> signed_word (s mod 2 ^ 64) = s.
Proof.
  unfold in_int64, INT64_MIN, INT64_MAX. intros Hs. bool_prop. unfold signed_word.
  destruct (Z.ltb_spec (s mod 2 ^ 64) (2 ^ 63)); Z.to_euclidean_division_equations; lia.
Qed.

(** A memory that has the data of a push at [p]. *)
Record holds_push (m : memory) (p s : Z) (data obs : list bytes) : Prop := {
  hp_config : pd_config m p = Ok (p + 48);
  hp_config_lens : pd_config_lens m p = Ok (p + 48 + 8 * size_of data);
  hp_n_configs : pd_n_configs m p = Ok (size_of data);
  hp_load : load_data m (p + 48) (p + 48 + 8 * size_of data) (length data) = Ok data;
  hp_read : Forall (fun s => char_nul ∉ s) obs -> read_push_data m p = Ok (s, data, obs)
}.

Lemma words_app l1 l2 : words (l1 ++ l2) = words l1 ++ words l2.
Proof. unfold words. by rewrite fmap_app, concat_app. Qed.

(** Reading a field of a struct of words at the beginning of a block. *)
Lemma load_field m b l T i v p :
  wf_memory m -> b ∈ m -> b_data b = words l ++ T -> b_addr b mod 8 = 0 -> l !! i = Some v ->
  p = b_addr b + 8 * Z.of_nat i -> 0 <= v < 2 ^ 64 -> load_word m p = Ok v.
Proof.
  intros Hm Hb Hd Ha Hi -> Hv. pose proof (take_drop_middle l i v Hi) as Hl.
  apply (load_word_at m b Hm Hb (words (take i l)) v (words (drop (S i) l) ++ T)).
  - rewrite Hd. rewrite <- Hl at 1. rewrite words_app, words_cons. apps.
  - rewrite size_words. unfold size_of. rewrite length_take. apply lookup_lt_Some in Hi. lia.
  - by apply mod8_add.
  - done.
Qed.

Lemma push_data_held m b s data obs :
  wf_memory m -> b ∈ m -> b_data b = push_data_data (b_addr b) s data obs ->
  0 < b_addr b -> b_end b < 2 ^ 64 -> b_addr b mod 8 = 0 -> in_int64 s = true ->
  holds_push m (b_addr b) s data obs.
Proof.
  intros Hm Hb Hd H0 He Ha Hs. pose proof (size_of_nonneg data). pose proof (size_of_nonneg obs).
  pose proof (sizes_nonneg data). pose proof (sizes_nonneg (c_strs obs)).
  assert (b_end b = b_addr b + push_data_size data obs) as Hz.
  { unfold b_end. by rewrite Hd, size_push_data_data. }
  unfold push_data_size in Hz. unfold push_data_data in Hd. cbv zeta in Hd.
  assert (Z.to_nat (size_of data) = length data /\ Z.to_nat (size_of obs) = length obs) as [En Ek].
  { unfold size_of. lia. }
  set (n := size_of data) in *. set (k := size_of obs) in *. set (a := b_addr b) in *.
  set (q := a + 48 + 8 * n + 8 * n + 8 * k) in *.
  set (hd := [s; a + 48; a + 48 + 8 * n; n; a + 48 + 8 * n + 8 * n; k]) in *.
  assert (size_of (words hd) = 48) as Hhd by (rewrite size_words; done).
  assert (load_word m a = Ok (s mod 2 ^ 64)) as F0.
  { eapply (load_word_mod m b Hm Hb []); [by rewrite Hd; unfold hd; rewrite words_cons; apps|size_lia|done]. }
  assert (pd_config m a = Ok (a + 48)) as F1 by (eapply (load_field m b hd _ 1); eauto; lia).
  assert (pd_config_lens m a = Ok (a + 48 + 8 * n)) as F2 by (eapply (load_field m b hd _ 2); eauto; lia).
  assert (pd_n_configs m a = Ok n) as F3 by (eapply (load_field m b hd _ 3); eauto; lia).
  assert (pd_obsolete m a = Ok (a + 48 + 8 * n + 8 * n)) as F4 by (eapply (load_field m b hd _ 4); eauto; lia).
  assert (pd_obsolete_len m a = Ok k) as F5 by (eapply (load_field m b hd _ 5); eauto; lia).
  assert (load_data m (a + 48) (a + 48 + 8 * n) (length data) = Ok data) as F6.
  { eapply (load_data_ok m b Hm Hb H0 He data (words hd) [] (words (pointers (q + sizes data) (c_strs obs)))
      (concat (c_strs obs))); [by rewrite Hd|unfold a in *; lia|unfold n in *; size_lia|
      unfold q, n, k in *; size_lia|mod8 a|mod8 a]. }
  constructor; [done..|]. intros Hn. unfold read_push_data, pd_seqno. rewrite F0. cbn [fmap res_fmap mbind res_bind].
  rewrite F1. cbn [mbind res_bind]. rewrite F2. cbn [mbind res_bind]. rewrite F3. cbn [mbind res_bind].
  rewrite F4. cbn [mbind res_bind]. rewrite F5. cbn [mbind res_bind]. rewrite En, Ek, F6. cbn [mbind res_bind].
  rewrite (load_strings_ok m b Hm Hb H0 He obs (words hd ++ words (pointers q data) ++ words (size_of <$> data))
    (concat data) [] _ (q + sizes data)).
  - cbn [mbind res_bind]. by rewrite signed_word_mod.
  - rewrite Hd, app_nil_r. apps.
  - unfold n, a in *. rewrite size_of_app, Hhd. size_lia.
  - unfold q, n, k in *. size_lia.
  - mod8 a.
  - done.
Qed.
End Blocks.

(** The data of a push stays readable when a string list is made. *)
Section Pushed.
Context `{Allocator} `{Oxenc} `{CryptoBox} `{Aead} `{Zstd} `{Protobuf} `{TextEncodings}.
Variable ty : ConfigType.

Lemma config_push_block now m conf s data obs conf' m1 p :
  virtual_push ty now conf = Ok ((s, data, obs), conf') -> push_data_size data obs < 2 ^ 64 ->
  config_push ty now m conf = Ok (Some (Some (m1, p), conf')) ->
  exists b, malloc m (push_data_size data obs) = Some b /\ p = b_addr b /\
    m1 = {| b_addr := b_addr b; b_data := push_data_data (b_addr b) s data obs |} :: m.
Proof.
  intros Hp Hsz Hc. unfold config_push in Hc. rewrite Hp in Hc.
  destruct (malloc m (push_data_size data obs)) as [b|] eqn:Hb.
  - rewrite (push_data_block_ok m s data obs b Hsz Hb) in Hc. cbn in Hc. simplify_eq. by exists b.
  - pose proof (size_of_nonneg data). pose proof (size_of_nonneg obs).
    pose proof (sizes_nonneg data). pose proof (sizes_nonneg (c_strs obs)).
    unfold push_data_block, size_t in Hc. unfold push_data_size in Hsz, Hb.
    by rewrite Z.mod_small, Hb in Hc by lia.
Qed.

Lemma make_string_list_extends m vals m' p : make_string_list m vals = Ok (m', p) -> forall b, b ∈ m -> b ∈ m'.
Proof.
  unfold make_string_list. intros E b Hb. destruct (malloc _ _); [|done]. cbn [mbind] in E.
  res_inv E. by constructor.
Qed.

Lemma pushed_held now m conf s data obs conf' m1 p m2 hashes q :
  wf_memory m -> virtual_push ty now conf = Ok ((s, data, obs), conf') -> in_int64 s = true ->
  push_data_size data obs < 2 ^ 64 -> config_push ty now m conf = Ok (Some (Some (m1, p), conf')) ->
  Forall (fun h => char_nul ∉ h) hashes -> string_list_size hashes < 2 ^ 64 ->
  make_string_list m1 hashes = Ok (m2, q) ->
  wf_memory m1 /\ holds_push m2 p s data obs.
Proof.
  intros Hm Hp Hs Hsz Hc Hh Hhs Hq.
  destruct (config_push_block now m conf s data obs conf' m1 p Hp Hsz Hc) as (b & Hb & -> & ->).
  destruct (malloc_filled m _ b _ _ Hm Hb (size_push_data_data (b_addr b) s data obs) eq_refl) as (Hw & Hin & H0' & He & Ha).
  split; [done|]. destruct (read_string_list_ok _ _ _ _ Hw Hhs Hq Hh) as (Hw2 & _).
  apply (push_data_held m2 _ s data obs Hw2 (make_string_list_extends _ _ _ _ Hq _ Hin) eq_refl); done.
Qed.
End Pushed.

(** ** Copies of byte strings *)

Section Copies.
Context `{Allocator}.

Lemma put_keys_ok keys a A K D p :
  D = A ++ K -> p = a + size_of A -> size_of K = 32 * size_of keys ->
  Forall (fun k => size_of k = 32) keys ->
  put_keys {| b_addr := a; b_data := D |} p keys = Ok {| b_addr := a; b_data := A ++ concat keys |}.
Proof.
  revert A K D p. induction keys as [|k keys IH]; intros A K D p -> Hp HK Hk.
  - destruct K; [done|]. unfold size_of in HK. done.
  - apply Forall_cons in Hk as [Hk Hks]. pose proof (size_of_nonneg keys).
    destruct (split_size K 32) as (K1 & K2 & -> & HK1 & HK2); [size_lia|].
    cbn [put_keys]. rewrite Hk. cbn [Z.ltb Z.compare Pos.compare Pos.compare_cont].
    rewrite (take_ge k) by (unfold size_of in Hk; lia).
    rewrite (store_at A K1 K2) by (auto; lia). cbn [mbind res_bind].
    rewrite (IH (A ++ k) K2) by (auto; apps; size_lia). f_equal. f_equal. apps.
Qed.

Lemma config_get_keys_ok m conf b :
  wf_memory m -> _keys conf <> [] -> Forall (fun k => size_of k = 32) (_keys conf) ->
  32 * size_of (_keys conf) < 2 ^ 64 -> malloc m (32 * size_of (_keys conf)) = Some b ->
  exists m', config_get_keys m conf = Ok (m', Some (b_addr b), size_of (_keys conf)) /\
    load m' (b_addr b) (32 * size_of (_keys conf)) = Ok (concat (_keys conf)).
Proof.
  intros Hm Hne Hk Hsz Hb. unfold config_get_keys, size_t. pose proof (size_of_nonneg (_keys conf)).
  assert (forallb (fun k => size_of k =? 32) (_keys conf) = true) as ->.
  { clear -Hk. induction Hk as [|k ks Hk _ IH]; [done|]. cbn [forallb]. by rewrite Hk, IH. }
  cbn [negb throw_if mbind res_bind]. destruct (_keys conf) as [|k0 ks] eqn:Ek; [done|]. rewrite <- Ek in *. clear Hne.
  assert (is_nil (_keys conf) = false) as -> by (by rewrite Ek).
  rewrite Z.mod_small, Hb by lia. destruct b as [a D] eqn:Eb.
  pose proof (malloc_size _ _ _ Hb) as Hs. cbn [b_addr b_data] in *.
  rewrite (put_keys_ok (_keys conf) a [] D) by (auto; size_lia). cbn [mbind res_bind app].
  assert (size_of (concat (_keys conf)) = 32 * size_of (_keys conf)) as Hc.
  { rewrite size_concat. clear -Hk. induction Hk as [|k ks Hk _ IH]; [done|]. size_lia. }
  destruct (malloc_filled m _ _ (concat (_keys conf)) _ Hm Hb Hc eq_refl) as (Hw & Hin & _). cbn [b_addr] in *.
  eexists. split; [done|]. eapply (load_at _ _ Hw Hin [] (concat (_keys conf)) []); cbn; [|size_lia|done].
  by rewrite app_nil_r.
Qed.

(** One block more, apart from all others, which are as they were. *)
Definition adds (m m' : memory) (p : Z) (d : bytes) : Prop :=
  let b := {| b_addr := p; b_data := d |} in m' = b :: m /\ Forall (apart b) m.

Lemma copy_out_ok m d :
  wf_memory m -> (malloc m (size_of d) <> None) ->
  exists m' p, copy_out m d = Ok (m', p, size_of d) /\ load m' p (size_of d) = Ok d /\ wf_memory m' /\
    (forall b, b ∈ m -> b ∈ m') /\ adds m m' p d.
Proof.
  intros Hm Hb. unfold copy_out. destruct (malloc m (size_of d)) as [b|] eqn:Eb; [|done].
  destruct (malloc_filled m _ _ d _ Hm Eb eq_refl eq_refl) as (Hw & Hin & _).
  pose proof (malloc_size _ _ _ Eb) as Hs. pose proof (malloc_apart _ _ _ Eb) as Ha. destruct b as [a D]. cbn [b_addr b_data] in *.
  rewrite (store_at [] D []) by (try rewrite app_nil_r; auto; size_lia). cbn [mbind res_bind app].
  rewrite app_nil_r. eexists _, a. split_and!; [done| |done|by constructor|].
  - by eapply (load_at _ _ Hw Hin [] d []); cbn; [rewrite app_nil_r|size_lia|].
  - split; [done|]. eapply Forall_impl; [apply Ha|]. unfold apart, b_end. cbn. lia.
Qed.

(** What could be read can be read in a larger memory. *)
Lemma load_extends m m' p n s :
  wf_memory m' -> (forall b, b ∈ m -> b ∈ m') -> 0 <= n -> load m p n = Ok s -> load m' p n = Ok s.
Proof.
  intros Hw Hsub Hn. unfold load. destruct (Z.eqb_spec n 0); [done|].
  assert (forall b, find_block m p n = Some b -> b ∈ m /\ within p n b = true) as Hf.
  { clear. induction m as [|c m IH]; cbn [find_block]; [done|]. destruct (within p n c) eqn:E.
    - intros b [= <-]. split; [constructor|done].
    - intros b Hb. apply IH in Hb as [? ?]. split; [by constructor|done]. }
  destruct (find_block m p n) as [b|] eqn:Eb; [|done]. destruct (Hf b eq_refl) as [Hin Hwi]. intros Hs.
  by rewrite (find_block_in m' b) by (auto; lia).
Qed.

Lemma config_dump_ok `{Oxenc} `{CryptoBox} `{Aead} `{Zstd} `{Protobuf} now m conf d conf' :
  wf_memory m -> dump now conf = Ok (d, conf') -> malloc m (size_of d) <> None ->
  exists m' p, config_dump now m conf = Ok (Some (m', p, size_of d, conf')) /\ load m' p (size_of d) = Ok d.
Proof.
  intros Hm Hd Hb. unfold config_dump. rewrite Hd.
  destruct (copy_out_ok m d Hm Hb) as (m' & p & -> & Hl & _). by exists m', p.
Qed.
End Copies.

(** ** An allocator

    Each block begins after all others. *)

Definition top (m : memory) : Z := foldr (fun b n => Z.max (b_end b) n) 0 m.
Definition bump_malloc (m : memory) (n : Z) : option block :=
  let a := (top m / 16 + 1) * 16 in
  if (0 <=? n) && (a + n <? 2 ^ 64) then Some {| b_addr := a; b_data := replicate (Z.to_nat n) char_nul |} else None.

Lemma top_max m : Forall (fun b => b_end b <= top m) m.
Proof.
  induction m as [|b m IH]; constructor; change (top (b :: m)) with (Z.max (b_end b) (top m)); [lia|].
  eapply Forall_impl; [done|]. intros c Hc. cbv beta in *. lia.
Qed.

Lemma top_nonneg m : 0 <= top m.
Proof. induction m as [|b m IH]; [done|]. change (top (b :: m)) with (Z.max (b_end b) (top m)). lia. Qed.

Lemma bump_malloc_some m n b :
  bump_malloc m n = Some b ->
  b_addr b = (top m / 16 + 1) * 16 /\ size_of (b_data b) = n /\ top m <= b_addr b /\ 0 < b_addr b /\ b_end b < 2 ^ 64.
Proof.
  unfold bump_malloc. intros E. destruct (_ && _) eqn:Eb; [|done]. bool_prop. simplify_eq.
  unfold b_end, size_of. cbn [b_addr b_data]. rewrite length_replicate. pose proof (top_nonneg m).
  Z.to_euclidean_division_equations; lia.
Qed.

Definition bump_allocator : Allocator.
Proof.
  refine {| malloc := bump_malloc |}; intros m n b Hb; apply bump_malloc_some in Hb as (Ha & Hs & Ht & H0 & He); auto.
  - rewrite Ha. Z.to_euclidean_division_equations; lia.
  - eapply Forall_impl; [apply top_max|]. cbn. unfold apart. intros c Hc. right. lia.
Defined.
