(* ===== verification/CConfigs.v ===== *)
(** * Functions of the C interface of the typed configs

    The exported functions of [src/config/contacts.cpp], [src/config/user_groups.cpp],
    [src/config/convo_info_volatile.cpp], [src/config/user_profile.cpp], [src/config/local.cpp] and
    [src/config/groups/] (members and info) and [src/config/community.cpp]: each converts a struct,
    calls the C++ function and turns an exception into a result.  The objects are made by
    [c_wrapper_init] of [src/config/internal.hpp].
    A C string that is an argument is the text before its null byte.  The result [None] of a
    function stands for an exception that was caught; there is no object then. *)
From S2P Require Import Prelude OMap Util Internal BtValue ThirdParty ConfigData ConfigParse ConfigMessage Encrypt.
From S2P Require Import SessionEncrypt Protos ConfigBase Multipart BaseSync DictField UserProfileConfig ContactsConfig.
From S2P Require Import Community UserGroupsConfig ConvoInfoConfig GroupInfoConfig GroupMembers CStructs CMemory.
From S2P Require Import DictFieldFacts ContactsFacts UserGroupsFacts GroupRecordFacts GroupMembersFacts.

(** A record that is looked up and, if it is there, written into the struct. *)
Definition found_into {A C} (o : res (option A)) (into : A -> C -> res C) (c : C) : res (option (option C)) :=
  wrap_exceptions (o ← o; match o with Some a => c ← into a c; Ok (Some c) | None => Ok None end).
(** The same with an id that is checked. *)
Definition found_id_into `{TextEncodings} {A C} (session_id prefix : bytes) (o : res (option A)) (into : A -> C -> res C) (c : C) :
    res (option (option C)) :=
  wrap_session_ids [session_id] prefix
    (o ← o; match o with Some a => c ← into a c; Ok (Some c) | None => Ok None end).

Section WithLibraries.
Context `{Oxenc} `{CryptoBox} `{Aead} `{Zstd} `{Protobuf} `{TextEncodings}.

(** ** Contacts *)

Definition session_id_is_valid (session_id : bytes) : bool := (size_of session_id =? 66) && is_hex session_id.

Definition c_contacts_get (conf : ConfigBase) (contact : contacts_contact) (session_id : bytes) :
    res (option (option contacts_contact)) :=
  found_id_into session_id "05" (contacts_get conf session_id) contact_into contact.
Definition c_contacts_get_or_construct (conf : ConfigBase) (contact : contacts_contact) (session_id : bytes) :
    res (option contacts_contact) :=
  wrap_session_ids [session_id] "05" (c ← contacts_get_or_construct conf session_id; contact_into c contact).
Definition c_contacts_set (conf : ConfigBase) (contact : contacts_contact) : res (option ConfigBase) :=
  wrap_exceptions (c ← contact_from contact; contacts_set conf c).
Definition c_contacts_erase (conf : ConfigBase) (session_id : bytes) : res (option (bool * ConfigBase)) :=
  wrap_exceptions (contacts_erase conf session_id).

Definition c_contacts_size (conf : ConfigBase) : Z := contacts_size conf.

(** ** Communities

    The text arrays of the caller have the maximum sizes of a base URL and of a room and one more
    character; [assert] has no effect, as in a release build. *)

Definition community_parse_full_url (full_url base_url room_token pubkey : bytes) : res (option (bytes * bytes * bytes)) :=
  wrap_exceptions (
    let! (base, room, pk) := parse_full_url full_url in
    base_url ← copy_text base_url base;
    room_token ← copy_text room_token room;
    pubkey ← memcpy pubkey pk (length pk);
    Ok (base_url, room_token, pubkey)).
(** [pubkey] and [has_pubkey] may be null. *)
Definition community_parse_partial_url (full_url base_url room_token : bytes) (pubkey : option bytes) (has_pubkey : option bool) :
    res (option (bytes * bytes * option bytes * option bool)) :=
  wrap_exceptions (
    let! (base, room, maybe_pk) := parse_partial_url full_url in
    base_url ← copy_text base_url base;
    room_token ← copy_text room_token room;
    pubkey ← match maybe_pk, pubkey with
             | Some pk, Some pubkey => Some <$> memcpy pubkey pk (length pk)
             | _, _ => Ok pubkey
             end;
    Ok (base_url, room_token, pubkey, (fun _ => bool_decide (maybe_pk <> None)) <$> has_pubkey)).
(** Exceptions are not caught; there are none. *)
Definition community_make_full_url (base_url room pubkey full_url : bytes) : res bytes :=
  copy_text full_url (make_full_url base_url room pubkey).

(** ** The user profile, the local settings and the group info

    The setters that return nothing do not catch exceptions. *)

(** Into a new struct, whose bytes are not known. *)
Definition pic_struct (pic : profile_pic) (p : user_profile_pic) : res user_profile_pic :=
  if negb (pic_empty pic) then
    url ← copy_c_str (pp_url p) (pic_url pic);
    key ← memcpy (pp_key p) (pic_key pic) 32;
    Ok {| pp_url := url; pp_key := key |}
  else if is_nil (pp_url p) then Throw UB
  else Ok {| pp_url := <[0%nat := char_nul]> (pp_url p); pp_key := pp_key p |}.
(** The URL and the key that the setters take from a struct. *)
Definition struct_pic (pic : user_profile_pic) : res (bytes * bytes) :=
  url ← c_string (pp_url pic); Ok (url, if is_nil url then [] else take 32 (pp_key pic)).

Definition user_profile_get_name (conf : ConfigBase) : option bytes := get_name conf.
Definition user_profile_set_name (conf : ConfigBase) (name : bytes) : res (option ConfigBase) :=
  wrap_exceptions (set_name conf name).
Definition user_profile_get_pic (conf : ConfigBase) (p : user_profile_pic) : res user_profile_pic :=
  pic_struct (get_profile_pic conf) p.
Definition user_profile_set_pic (conf : ConfigBase) (pic : user_profile_pic) : res (option ConfigBase) :=
  let! (url, key) := struct_pic pic in wrap_exceptions (set_profile_pic conf url key).
Definition user_profile_get_nts_priority (conf : ConfigBase) : Z := get_nts_priority conf.
Definition user_profile_set_nts_priority (conf : ConfigBase) (priority : Z) : res ConfigBase :=
  set_nts_priority conf priority.
Definition user_profile_get_nts_expiry (conf : ConfigBase) : Z := to_int (value_or (get_nts_expiry conf) 0).
Definition user_profile_set_nts_expiry (conf : ConfigBase) (expiry : Z) : res ConfigBase :=
  set_nts_expiry conf (Z.max 0 expiry).
(** An optional flag as a number: [-1] if it is not set. *)
Definition flag_number (o : option bool) : Z := match o with Some v => if v then 1 else 0 | None => -1 end.
Definition number_flag (enabled : Z) : option bool := if 0 <=? enabled then Some (to_bool enabled) else None.
Definition user_profile_get_blinded_msgreqs (conf : ConfigBase) : Z := flag_number (get_blinded_msgreqs conf).
Definition user_profile_set_blinded_msgreqs (conf : ConfigBase) (enabled : Z) : res ConfigBase :=
  set_blinded_msgreqs conf (number_flag enabled).

Definition local_get_notification_content (conf : ConfigBase) : Z := get_notification_content conf.
Definition local_set_notification_content (conf : ConfigBase) (value : Z) : res ConfigBase := set_notification_content conf value.
Definition local_get_ios_notification_sound (conf : ConfigBase) : Z := get_ios_notification_sound conf.
Definition local_set_ios_notification_sound (conf : ConfigBase) (value : Z) : res ConfigBase := set_ios_notification_sound conf value.
Definition local_get_theme (conf : ConfigBase) : Z := get_theme conf.
Definition local_set_theme (conf : ConfigBase) (value : Z) : res ConfigBase := set_theme conf value.
Definition local_get_theme_primary_color (conf : ConfigBase) : Z := get_theme_primary_color conf.
Definition local_set_theme_primary_color (conf : ConfigBase) (value : Z) : res ConfigBase := set_theme_primary_color conf value.
Definition local_size_settings (conf : ConfigBase) : Z := size_settings conf.
Definition local_get_setting (conf : ConfigBase) (key : bytes) : Z := flag_number (get_setting conf key).
Definition local_set_setting (conf : ConfigBase) (key : bytes) (value : Z) : res ConfigBase :=
  set_setting conf key (number_flag value).

Definition groups_info_get_name (conf : ConfigBase) : option bytes := Info.get_name conf.
Definition groups_info_set_name (conf : ConfigBase) (name : bytes) : res (option ConfigBase) :=
  wrap_exceptions (Info.set_name conf name).
Definition groups_info_get_description (conf : ConfigBase) : option bytes := Info.get_description conf.
Definition groups_info_set_description (conf : ConfigBase) (description : bytes) : res (option ConfigBase) :=
  wrap_exceptions (Info.set_description conf description).
Definition groups_info_get_pic (conf : ConfigBase) (p : user_profile_pic) : res user_profile_pic :=
  pic_struct (Info.get_profile_pic conf) p.
Definition groups_info_set_pic (conf : ConfigBase) (pic : user_profile_pic) : res (option ConfigBase) :=
  let! (url, key) := struct_pic pic in wrap_exceptions (Info.set_profile_pic conf url key).
Definition groups_info_get_expiry_timer (conf : ConfigBase) : Z :=
  match Info.get_expiry_timer conf with Some t => if 0 <? t then to_int t else 0 | None => 0 end.
Definition groups_info_set_expiry_timer (conf : ConfigBase) (expiry : Z) : res ConfigBase :=
  Info.set_expiry_timer conf (Z.max 0 expiry).
Definition groups_info_get_created (conf : ConfigBase) : Z := value_or (Info.get_created conf) 0.
Definition groups_info_set_created (conf : ConfigBase) (ts : Z) : res ConfigBase := Info.set_created conf (Z.max 0 ts).
Definition groups_info_get_delete_before (conf : ConfigBase) : Z := value_or (Info.get_delete_before conf) 0.
Definition groups_info_set_delete_before (conf : ConfigBase) (ts : Z) : res ConfigBase :=
  Info.set_delete_before conf (Z.max 0 ts).
Definition groups_info_get_attach_delete_before (conf : ConfigBase) : Z :=
  value_or (Info.get_delete_attach_before conf) 0.
Definition groups_info_set_attach_delete_before (conf : ConfigBase) (ts : Z) : res ConfigBase :=
  Info.set_delete_attach_before conf (Z.max 0 ts).
Definition groups_info_is_destroyed (conf : ConfigBase) : bool := Info.is_destroyed conf.
Definition groups_info_destroy_group (conf : ConfigBase) : res ConfigBase := Info.destroy_group conf.

(** ** Group members *)

Definition groups_members_get (conf : Members) (m : config_group_member) (session_id : bytes) :
    res (option (option config_group_member)) :=
  found_id_into session_id "05" (members_get conf session_id) member_into m.
Definition groups_members_get_or_construct (conf : Members) (m : config_group_member) (session_id : bytes) :
    res (option config_group_member) :=
  wrap_session_ids [session_id] "05" (c ← members_get_or_construct conf session_id; member_into c m).
Definition groups_members_set (conf : Members) (m : config_group_member) : res (option Members) :=
  wrap_exceptions (c ← member_from m; members_set conf c).
Definition groups_members_get_status (conf : Members) (m : config_group_member) : res member_status :=
  r ← wrap_exceptions (c ← member_from m; Ok (get_status conf c));
  Ok (value_or r invite_not_sent).

(** The functions that change the member with an id, if there is one. *)
Definition change_member (change : member -> member) (conf : Members) (session_id : bytes) :
    res (option (bool * Members)) :=
  wrap_exceptions (
    o ← members_get conf session_id;
    match o with
    | Some m => conf ← members_set conf (change m); Ok (true, conf)
    | None => Ok (false, conf)
    end).
Definition groups_members_set_invite_sent := change_member set_invite_sent.
Definition groups_members_set_invite_not_sent := change_member set_invite_not_sent.
Definition groups_members_set_invite_failed := change_member set_invite_failed.
Definition groups_members_set_invite_accepted := change_member set_invite_accepted.
Definition groups_members_set_promoted := change_member set_promoted.
Definition groups_members_set_promotion_sent := change_member set_promotion_sent.
Definition groups_members_set_promotion_failed := change_member set_promotion_failed.
Definition groups_members_set_promotion_accepted := change_member set_promotion_accepted.
Definition groups_members_set_removed (conf : Members) (session_id : bytes) (messages : bool) :
    res (option (bool * Members)) :=
  change_member (fun m => set_removed m messages) conf session_id.
Definition groups_members_erase (conf : Members) (session_id : bytes) : res (option (bool * Members)) :=
  wrap_exceptions (members_erase conf session_id).

Definition groups_members_size (conf : Members) : Z := members_size conf.

(** ** Conversations *)

Definition c_convo_get_1to1 (conf : ConfigBase) (convo : convo_info_volatile) (session_id : bytes) :=
  found_id_into session_id "05" (get_1to1 conf session_id) convo_into convo.
Definition c_convo_get_or_construct_1to1 (conf : ConfigBase) (convo : convo_info_volatile) (session_id : bytes) :=
  wrap_session_ids [session_id] "05" (c ← get_or_construct_1to1 conf session_id; convo_into c convo).
Definition c_convo_get_community (conf : ConfigBase) (og : convo_info_volatile_community) (base_url room : bytes) :=
  found_into (get_convo_community conf base_url room) convo_community_into og.
(** The key is an array of 32 bytes. *)
Definition c_convo_get_or_construct_community (conf : ConfigBase) (convo : convo_info_volatile_community)
    (base_url room pubkey : bytes) :=
  wrap_exceptions (c ← get_or_construct_convo_community conf base_url room pubkey; convo_community_into c convo).
Definition c_convo_get_group (conf : ConfigBase) (convo : convo_info_volatile) (id : bytes) :=
  found_id_into id "03" (get_convo_group conf id) convo_into convo.
Definition c_convo_get_or_construct_group (conf : ConfigBase) (convo : convo_info_volatile) (id : bytes) :=
  wrap_session_ids [id] "03" (c ← get_or_construct_convo_group conf id; convo_into c convo).
Definition c_convo_get_legacy_group (conf : ConfigBase) (convo : convo_info_volatile) (id : bytes) :=
  found_id_into id "05" (get_convo_legacy conf id) convo_into convo.
Definition c_convo_get_or_construct_legacy_group (conf : ConfigBase) (convo : convo_info_volatile) (id : bytes) :=
  wrap_session_ids [id] "05" (c ← get_or_construct_convo_legacy conf id; convo_into c convo).

Definition c_convo_set_1to1 (now : Z) (conf : ConfigBase) (convo : convo_info_volatile) : res (option ConfigBase) :=
  wrap_exceptions (set_1to1 now conf (convo_from convo)).
Definition c_convo_set_community (now : Z) (conf : ConfigBase) (convo : convo_info_volatile_community) :
    res (option ConfigBase) :=
  wrap_exceptions (c ← convo_community_from convo; set_convo_community now conf c).
Definition c_convo_set_group (now : Z) (conf : ConfigBase) (convo : convo_info_volatile) : res (option ConfigBase) :=
  wrap_exceptions (set_convo_group now conf (convo_from convo)).
Definition c_convo_set_legacy_group (now : Z) (conf : ConfigBase) (convo : convo_info_volatile) :
    res (option ConfigBase) :=
  wrap_exceptions (set_convo_legacy now conf (convo_from convo)).

Definition c_convo_erase_1to1 (conf : ConfigBase) (session_id : bytes) := wrap_session_ids [session_id] "05" (erase_1to1 conf session_id).
Definition c_convo_erase_community (conf : ConfigBase) (base_url room : bytes) :=
  wrap_exceptions (erase_convo_community_at conf base_url room).
Definition c_convo_erase_group (conf : ConfigBase) (id : bytes) := wrap_session_ids [id] "03" (erase_convo_group_at conf id).
Definition c_convo_erase_legacy_group (conf : ConfigBase) (id : bytes) :=
  wrap_session_ids [id] "05" (erase_convo_legacy_at conf id).

Definition c_convo_size (conf : ConfigBase) : Z := convo_info_size conf.
Definition c_convo_size_1to1 (conf : ConfigBase) : Z := size_1to1 conf.
Definition c_convo_size_communities (conf : ConfigBase) : Z := size_convo_communities conf.
Definition c_convo_size_groups (conf : ConfigBase) : Z := size_convo_groups conf.
Definition c_convo_size_legacy_groups (conf : ConfigBase) : Z := size_convo_legacy conf.

(** ** Groups *)

Definition user_groups_get_community (conf : ConfigBase) (comm : ugroups_community_info) (base_url room : bytes) :=
  found_into (get_community conf base_url room) community_into comm.
Definition user_groups_get_or_construct_community (conf : ConfigBase) (comm : ugroups_community_info)
    (base_url room pubkey : bytes) :=
  wrap_exceptions (c ← get_or_construct_community conf base_url room pubkey; community_into c comm).
Definition user_groups_get_group (conf : ConfigBase) (group : ugroups_group_info) (group_id : bytes) :=
  found_id_into group_id "03" (get_group conf group_id) group_into group.
Definition user_groups_get_or_construct_group (conf : ConfigBase) (group : ugroups_group_info) (group_id : bytes) :=
  wrap_session_ids [group_id] "03" (g ← get_or_construct_group conf group_id; group_into g group).

(** The struct of a legacy group is allocated and zero. *)
Definition zero_legacy_group : ugroups_legacy_group_info :=
  {| cl_base := {| cg_priority := 0; cg_joined_at := 0; cg_notifications := notify_defaulted; cg_mute_until := 0;
                   cg_invited := false |};
     cl_session_id := zeros 67; cl_name := zeros 101; cl_have_enc_keys := false; cl_enc_pubkey := zeros 32;
     cl_enc_seckey := zeros 32; cl_disappearing_timer := 0; cl_internal := None |}.
Definition user_groups_get_legacy_group (conf : ConfigBase) (id : bytes) :=
  found_id_into id "05" (get_legacy_group conf id) legacy_into zero_legacy_group.
Definition user_groups_get_or_construct_legacy_group (conf : ConfigBase) (id : bytes) :=
  wrap_session_ids [id] "05" (g ← get_or_construct_legacy_group conf id; legacy_into g zero_legacy_group).

(** [user_groups_set_community] does not catch exceptions. *)
Definition user_groups_set_community (conf : ConfigBase) (comm : ugroups_community_info) : res ConfigBase :=
  c ← community_from comm; set_community conf c.
Definition user_groups_set_group (conf : ConfigBase) (group : ugroups_group_info) : res (option ConfigBase) :=
  wrap_exceptions (g ← group_from group; set_group conf g).
Definition user_groups_set_legacy_group (conf : ConfigBase) (group : ugroups_legacy_group_info) :
    res (option ConfigBase) :=
  wrap_exceptions (g ← legacy_from group; set_legacy_group conf g).

(** The struct without its members, which are moved out of it ([legacy_group_info&&]). *)
Definition freed (group : ugroups_legacy_group_info) : ugroups_legacy_group_info :=
  {| cl_base := cl_base group; cl_session_id := cl_session_id group; cl_name := cl_name group;
     cl_have_enc_keys := cl_have_enc_keys group; cl_enc_pubkey := cl_enc_pubkey group;
     cl_enc_seckey := cl_enc_seckey group; cl_disappearing_timer := cl_disappearing_timer group; cl_internal := None |}.
(** The struct may be a null pointer. *)
Definition ugroups_legacy_group_free (group : option ugroups_legacy_group_info) : option ugroups_legacy_group_info :=
  freed <$> group.
Definition user_groups_set_free_legacy_group (conf : ConfigBase) (group : ugroups_legacy_group_info) :
    res (option (ConfigBase * ugroups_legacy_group_info)) :=
  wrap_exceptions (g ← legacy_from group; conf ← set_legacy_group conf g; Ok (conf, freed group)).

Definition user_groups_erase_community (conf : ConfigBase) (base_url room : bytes) :=
  wrap_exceptions (erase_community_at conf base_url room).
Definition user_groups_erase_group (conf : ConfigBase) (group_id : bytes) := wrap_exceptions (erase_group conf group_id).
Definition user_groups_erase_legacy_group (conf : ConfigBase) (group_id : bytes) :=
  wrap_exceptions (erase_legacy_group conf group_id).
Definition c_user_groups_size (conf : ConfigBase) : Z := user_groups_size conf.
Definition user_groups_size_communities (conf : ConfigBase) : Z := size_communities conf.
Definition user_groups_size_groups (conf : ConfigBase) : Z := size_groups conf.
Definition user_groups_size_legacy_groups (conf : ConfigBase) : Z := size_legacy_groups conf.
End WithLibraries.

(** The status of a group that the application keeps in a struct. *)
Definition with_removed_status (g : ugroups_group_info) (have : bool) (status : Z) : ugroups_group_info :=
  {| cgi_base := cgi_base g; cgi_id := cgi_id g; cgi_name := cgi_name g;
     cgi_have_secretkey := have && cgi_have_secretkey g; cgi_secretkey := cgi_secretkey g;
     cgi_have_auth_data := have && cgi_have_auth_data g; cgi_auth_data := cgi_auth_data g;
     cgi_removed_status := status |}.
Definition ugroups_group_set_invited (g : ugroups_group_info) : ugroups_group_info :=
  if cgi_removed_status g =? KICKED_FROM_GROUP then with_removed_status g true NOT_REMOVED else g.
Definition ugroups_group_set_kicked (g : ugroups_group_info) : ugroups_group_info :=
  with_removed_status g false KICKED_FROM_GROUP.
Definition ugroups_group_is_kicked (g : ugroups_group_info) : bool := cgi_removed_status g =? KICKED_FROM_GROUP.
Definition ugroups_group_set_destroyed (g : ugroups_group_info) : ugroups_group_info :=
  with_removed_status g false GROUP_DESTROYED.
Definition ugroups_group_is_destroyed (g : ugroups_group_info) : bool := cgi_removed_status g =? GROUP_DESTROYED.

(** ** Members of a legacy group

    An iterator of a [std::map] is the key of its element, or [None] at the end; using one whose
    element is gone, advancing the end and erasing at the end are undefined. *)

Record ugroups_legacy_members_iterator := { mi_it : option bytes; mi_need_advance : bool }.

Fixpoint key_after (k : bytes) (m : list (bytes * bool)) : option bytes :=
  match m with
  | [] => None
  | (k', _) :: m => if kltb k k' then Some k' else key_after k m
  end.
Definition first_key (m : list (bytes * bool)) : option bytes := fst <$> head m.

(** [++it] *)
Definition map_next (members : list (bytes * bool)) (it : option bytes) : res (option bytes) :=
  match it with
  | None => Throw UB
  | Some k => match mfind k members with Some _ => Ok (key_after k members) | None => Throw UB end
  end.

Definition internal_members (group : ugroups_legacy_group_info) : res (list (bytes * bool)) :=
  match cl_internal group with Some m => Ok m | None => Throw UB end.
Definition with_internal (g : ugroups_legacy_group_info) (m : list (bytes * bool)) : ugroups_legacy_group_info :=
  {| cl_base := cl_base g; cl_session_id := cl_session_id g; cl_name := cl_name g;
     cl_have_enc_keys := cl_have_enc_keys g; cl_enc_pubkey := cl_enc_pubkey g; cl_enc_seckey := cl_enc_seckey g;
     cl_disappearing_timer := cl_disappearing_timer g; cl_internal := Some m |}.

Definition ugroups_legacy_members_begin (group : ugroups_legacy_group_info) : res ugroups_legacy_members_iterator :=
  m ← internal_members group; Ok {| mi_it := first_key m; mi_need_advance := false |}.

(** The member that is returned, and the iterator.  The iterator refers to the members of the
    group, which are an argument here. *)
Definition ugroups_legacy_members_next (members : list (bytes * bool)) (it : ugroups_legacy_members_iterator) :
    res (option (bytes * bool) * ugroups_legacy_members_iterator) :=
  pos ← (if mi_need_advance it then map_next members (mi_it it) else Ok (mi_it it));
  let it := {| mi_it := pos; mi_need_advance := true |} in
  match pos with
  | Some k => match mfind k members with Some admin => Ok (Some (k, admin), it) | None => Throw UB end
  | None => Ok (None, it)
  end.

Definition ugroups_legacy_members_erase (members : list (bytes * bool)) (it : ugroups_legacy_members_iterator) :
    res (list (bytes * bool) * ugroups_legacy_members_iterator) :=
  pos ← map_next members (mi_it it);
  match mi_it it with
  | Some k => Ok (merase k members, {| mi_it := pos; mi_need_advance := false |})
  | None => Throw UB
  end.

Section Members.
Context `{TextEncodings}.

Definition ugroups_legacy_member_add (group : ugroups_legacy_group_info) (session_id : bytes) (admin : bool) :
    res (bool * ugroups_legacy_group_info) :=
  match check_session_id session_id "05" with
  | Throw _ => Ok (false, group)
  | Ok _ =>
      m ← internal_members group;
      match mfind session_id m with
      | None => Ok (true, with_internal group (minsert session_id admin m))
      | Some a => if eqb a admin then Ok (false, group) else Ok (true, with_internal group (minsert session_id admin m))
      end
  end.
End Members.

Definition ugroups_legacy_member_remove (group : ugroups_legacy_group_info) (session_id : bytes) :
    res (bool * ugroups_legacy_group_info) :=
  m ← internal_members group;
  Ok (match mfind session_id m with Some _ => true | None => false end, with_internal group (merase session_id m)).

(** The number of all members, [*members] and [*admins]; a null pointer ([want] is false) is not
    written to. *)
Definition ugroups_legacy_members_count (group : ugroups_legacy_group_info) (want_members want_admins : bool) :
    res (Z * option Z * option Z) :=
  mems ← internal_members group;
  let zero := fun want : bool => if want then Some 0 else None in
  let '(members, admins) :=
    if want_members || want_admins then
      foldl (fun (c : option Z * option Z) (e : bytes * bool) =>
               if e.2 then (c.1, Z.succ <$> c.2) else (Z.succ <$> c.1, c.2))
        (zero want_members, zero want_admins) mems
    else (None, None) in
  Ok (size_of mems, members, admins).

(** ** Objects

    [c_wrapper_init_generic], [c_wrapper_init] and [c_group_wrapper_init] of
    [src/config/internal.hpp]: the object, or the error text that was written into the array of
    the caller, if there is one. *)
Section Objects.
Variable what : exn -> bytes.

Definition c_wrapper_init_generic {A} (error : option bytes) (r : res A) : res (A + option bytes) :=
  match r with
  | Ok a => Ok (inl a)
  | Throw e => if is_std_exception e then error ← set_error error (what e); Ok (inr error) else Throw e
  end.
Definition load_dumped (m : memory) (dump dumplen : Z) : res (option bytes) :=
  if (dump =? 0) || (dumplen =? 0) then Ok None else Some <$> load m dump dumplen.
Definition c_wrapper_init {A} (make : bytes -> option bytes -> res A) (m : memory)
    (ed25519_secretkey dumpstr dumplen : Z) (error : option bytes) : res (A + option bytes) :=
  sk ← load m ed25519_secretkey 64;
  dump ← load_dumped m dumpstr dumplen;
  c_wrapper_init_generic error (make sk dump).
Definition c_group_wrapper_init {A} (make : bytes -> option bytes -> option bytes -> res A) (m : memory)
    (ed25519_pubkey ed25519_secretkey dump_bytes dumplen : Z) (error : option bytes) : res (A + option bytes) :=
  pk ← load m ed25519_pubkey 32;
  sk ← (if ed25519_secretkey =? 0 then Ok None else Some <$> load m ed25519_secretkey 64);
  dump ← load_dumped m dump_bytes dumplen;
  c_wrapper_init_generic error (make pk sk dump).

Context `{Oxenc} `{CryptoBox} `{Aead} `{Zstd} `{Protobuf} `{TextEncodings}.

Definition user_profile_init (now : Z) := c_wrapper_init (new_user_profile now).
Definition local_init (now : Z) := c_wrapper_init (new_local now).
Definition contacts_init (now : Z) := c_wrapper_init (new_contacts now).
Definition user_groups_init (now : Z) := c_wrapper_init (new_user_groups now).
Definition convo_info_volatile_init (now : Z) := c_wrapper_init (new_convo_info now).
Definition groups_info_init (now : Z) := c_group_wrapper_init (Info.new_info now).
Definition groups_members_init (now : Z) := c_group_wrapper_init (new_members now).
End Objects.

(** ** Iterators *)

(** A function on each element, from the left. *)
Fixpoint map_res {A B} (f : A -> res B) (l : list A) : res (list B) :=
  match l with
  | [] => Ok []
  | a :: l => b ← f a; l ← map_res f l; Ok (b :: l)
  end.

(** [Contacts::iterator] and [Members::iterator]: the current value and the entries from the current
    one on; without entries for an end iterator. *)
Section RecordIterators.
Context {A C : Type} (make : bytes -> dict -> res A) (into : A -> C -> res C).

Record record_iterator := { rec_val : option A; rec_rest : option dict }.

(** [_load_info]: the old value stays at the end. *)
Fixpoint load_info (val : option A) (d : dict) : res record_iterator :=
  match d with
  | [] => Ok {| rec_val := val; rec_rest := Some [] |}
  | (k, v) :: rest =>
      match v with
      | VDict info => if size_of k =? 33 then a ← make k info; Ok {| rec_val := Some a; rec_rest := Some d |}
                      else load_info val rest
      | _ => load_info val rest
      end
  end.
Definition record_begin (d : option dict) : res record_iterator :=
  match d with Some d => load_info None d | None => Ok {| rec_val := None; rec_rest := None |} end.
Definition record_done (it : record_iterator) : bool :=
  match rec_rest it with None | Some [] => true | _ => false end.
Definition record_next (it : record_iterator) : res record_iterator :=
  match rec_rest it with Some (_ :: rest) => load_info (rec_val it) rest | _ => Throw UB end.

(** [..._iterator_done]: the struct that was written if there is a current value. *)
Definition record_into (it : record_iterator) (c : C) : res (option C) :=
  if record_done it then Ok None
  else match rec_val it with Some a => Some <$> into a c | None => Throw UB end.
(** [for (it = new(); !done(it, &c); advance(it))] with the struct [c] before each step. *)
Fixpoint record_loop (fuel : nat) (it : record_iterator) (c : C) : res (list C) :=
  match fuel with
  | O => Throw OutOfFuel
  | S fuel =>
      o ← record_into it c;
      match o with
      | None => Ok []
      | Some a => it ← record_next it; l ← record_loop fuel it c; Ok (a :: l)
      end
  end.
End RecordIterators.

Section CIterators.
Context `{Oxenc} `{CryptoBox} `{Aead} `{Zstd} `{Protobuf} `{TextEncodings}.

Definition make_contact (key : bytes) (info : dict) : res contact_info :=
  c ← new_contact (to_hex key); Ok (load_contact (ci_session_id c) info).
Definition make_member (key : bytes) (info : dict) : res member :=
  m ← new_member (to_hex key); Ok (load_member (mem_session_id m) info).
Definition contacts_iterator_new (conf : ConfigBase) := record_begin make_contact (get_dict conf (root_field "c")).
Definition contacts_iterator_done := record_into contact_into.
Definition contacts_iterator_advance := record_next make_contact.
Definition groups_members_iterator_new (conf : Members) := record_begin make_member (get_dict (members_base conf) (root_field "m")).
Definition groups_members_iterator_done := record_into member_into.
Definition groups_members_iterator_advance := record_next make_member.

Definition user_groups_iterator_new (conf : ConfigBase) := ug_begin conf true true true.
Definition user_groups_iterator_new_communities (conf : ConfigBase) := ug_begin conf false true false.
Definition user_groups_iterator_new_groups (conf : ConfigBase) := ug_begin conf true false false.
Definition user_groups_iterator_new_legacy_groups (conf : ConfigBase) := ug_begin conf false false true.
Definition user_groups_iterator_done (it : groups_iterator) : bool := ug_done it.
Definition user_groups_iterator_advance (it : groups_iterator) : res groups_iterator := ug_next it.
(** The struct that was written if the current value has the kind that is asked for. *)
Definition it_is_impl {V I C} (get_if : V -> option I) (into : I -> C -> res C) (val : option V) (c : C) : res (option C) :=
  match val with
  | None => Throw UB
  | Some v => match get_if v with Some i => Some <$> into i c | None => Ok None end
  end.
Definition user_groups_it_is_community (it : groups_iterator) :=
  it_is_impl (fun v => match v with AnyCommunity c => Some c | _ => None end) community_into (ug_val it).
Definition user_groups_it_is_group (it : groups_iterator) :=
  it_is_impl (fun v => match v with AnyGroup g => Some g | _ => None end) group_into (ug_val it).
Definition user_groups_it_is_legacy_group (it : groups_iterator) :=
  it_is_impl (fun v => match v with AnyLegacy g => Some g | _ => None end) legacy_into (ug_val it).

Definition convo_info_volatile_iterator_new (conf : ConfigBase) := cv_begin conf true true true true.
Definition convo_info_volatile_iterator_new_1to1 (conf : ConfigBase) := cv_begin conf true false false false.
Definition convo_info_volatile_iterator_new_communities (conf : ConfigBase) := cv_begin conf false true false false.
Definition convo_info_volatile_iterator_new_groups (conf : ConfigBase) := cv_begin conf false false true false.
Definition convo_info_volatile_iterator_new_legacy_groups (conf : ConfigBase) := cv_begin conf false false false true.
Definition convo_info_volatile_iterator_done (it : convo_iterator) : bool := cv_done it.
Definition convo_info_volatile_iterator_advance (it : convo_iterator) : res convo_iterator := cv_next it.
Definition convo_info_volatile_it_is_1to1 (it : convo_iterator) :=
  it_is_impl (fun v => match v with AnyOneToOne c => Some c | _ => None end) convo_into (cv_val it).
Definition convo_info_volatile_it_is_community (it : convo_iterator) :=
  it_is_impl (fun v => match v with AnyConvoCommunity c => Some c | _ => None end) convo_community_into (cv_val it).
Definition convo_info_volatile_it_is_group (it : convo_iterator) :=
  it_is_impl (fun v => match v with AnyConvoGroup c => Some c | _ => None end) convo_into (cv_val it).
Definition convo_info_volatile_it_is_legacy_group (it : convo_iterator) :=
  it_is_impl (fun v => match v with AnyConvoLegacy c => Some c | _ => None end) convo_into (cv_val it).

(** The loop of the header [user_groups.h], with the structs before each step. *)
Inductive c_group :=
| CCommunity (c : ugroups_community_info)
| CGroup (g : ugroups_group_info)
| CLegacyGroup (g : ugroups_legacy_group_info).
Fixpoint user_groups_loop (fuel : nat) (it : groups_iterator) (c : ugroups_community_info) (g : ugroups_group_info)
    (l : ugroups_legacy_group_info) : res (list c_group) :=
  match fuel with
  | O => Throw OutOfFuel
  | S fuel =>
      if user_groups_iterator_done it then Ok []
      else
        is_c ← user_groups_it_is_community it c;
        a ← match is_c with
            | Some a => Ok (CCommunity a)
            | None =>
                is_g ← user_groups_it_is_group it g;
                match is_g with
                | Some a => Ok (CGroup a)
                | None =>
                    is_l ← user_groups_it_is_legacy_group it l;
                    match is_l with Some a => Ok (CLegacyGroup a) | None => Throw UB end
                end
            end;
        it ← user_groups_iterator_advance it;
        rest ← user_groups_loop fuel it c g l;
        Ok (a :: rest)
  end.
(** The struct of a value. *)
Definition group_struct (c : ugroups_community_info) (g : ugroups_group_info) (l : ugroups_legacy_group_info)
    (v : any_group_info) : res c_group :=
  match v with
  | AnyCommunity i => CCommunity <$> community_into i c
  | AnyGroup i => CGroup <$> group_into i g
  | AnyLegacy i => CLegacyGroup <$> legacy_into i l
  end.
End CIterators.

(** ** Facts *)

(** The room of a URL is not checked, so that one of more than 64 characters is written past the
    end of the array of the caller. *)
Lemma community_parse_full_exact `{TextEncodings} url base_url room_token pubkey base room pk :
  size_of base_url = BASE_URL_MAX_LENGTH + 1 -> size_of room_token = ROOM_MAX_LENGTH + 1 -> size_of pubkey = 32 ->
  parse_full_url url = Ok (base, room, pk) ->
  community_parse_full_url url base_url room_token pubkey =
    if size_of room <=? ROOM_MAX_LENGTH then Ok (Some (c_text base_url base, c_text room_token room, pk)) else Throw UB.
Proof.
  intros Hb Hr Hk Hu. unfold community_parse_full_url. rewrite Hu. cbn [mbind res_bind].
  assert (size_of base <= BASE_URL_MAX_LENGTH /\ size_of pk = 32) as [Hbase Hpk].
  { clear -Hu. unfold parse_full_url, parse_partial_url in Hu.
    destruct (rfind_sub _ _).
    2:{ cbn [mbind res_bind] in Hu. destruct (split_room _) as [u rm]. by destruct (canonical_url u). }
    destruct (decode_pubkey _) eqn:Ek; [|done]. apply decode_pubkey_size in Ek. cbn [mbind res_bind] in Hu.
    destruct (split_room _) as [u rm]. destruct (canonical_url u) as [cu|] eqn:Ec; [|done]. cbn [mbind res_bind] in Hu. simplify_eq.
    split; [|done]. unfold canonical_url in Ec. destruct (parse_url u) as [[[[? ?] ?] ?]|]; [|done]. cbn [mbind res_bind] in Ec.
    repeat res_step Ec. res_step E0. injection Ec as <-. by apply Z.ltb_ge. }
  rewrite (copy_text_fits base_url) by lia. cbn [mbind res_bind]. destruct (Z.leb_spec (size_of room) ROOM_MAX_LENGTH).
  - rewrite copy_text_fits by lia. cbn [mbind res_bind]. rewrite memcpy_key by (unfold size_of in *; lia). done.
  - by rewrite copy_text_overflows by lia.
Qed.

(** A loop of the application over the members that erases some of them. *)
Fixpoint erase_members (fuel : nat) (drop : bytes * bool -> bool) (members : list (bytes * bool))
    (it : ugroups_legacy_members_iterator) : res (list (bytes * bool) * list (bytes * bool)) :=
  match fuel with
  | O => Throw OutOfFuel
  | S fuel =>
      let! (o, it) := ugroups_legacy_members_next members it in
      match o with
      | None => Ok ([], members)
      | Some e =>
          let! (members, it) := (if drop e then ugroups_legacy_members_erase members it else Ok (members, it)) in
          let! (visited, members) := erase_members fuel drop members it in
          Ok (e :: visited, members)
      end
  end.

Lemma key_after_app kept k a rest :
  msorted (kept ++ (k, a) :: rest) -> key_after k (kept ++ (k, a) :: rest) = first_key rest.
Proof.
  induction kept as [|[k' a'] kept IH]; intros Hs; cbn [app key_after].
  - apply msorted_cons in Hs as [_ Hs]. unfold kltb at 1. rewrite (proj2 (cmp_eq k k) eq_refl).
    destruct rest as [|[k2 a2] rest]; [done|]. apply Forall_cons in Hs as [Hk _]. cbn in *.
    unfold kltb. unfold klt in Hk. by rewrite Hk.
  - apply msorted_cons in Hs as [Hs Hk]. apply Forall_app in Hk as [_ [Hk _]%Forall_cons]. cbn in Hk.
    unfold kltb. rewrite cmp_opp, Hk. cbn. by apply IH.
Qed.

Lemma msorted_split kept k a rest :
  msorted (kept ++ (k, a) :: rest) -> Forall (fun e : bytes * bool => e.1 <> k) (kept ++ rest).
Proof.
  intros Hs. apply Forall_forall. intros [k' a'] Hin Ek. cbn in Ek. subst k'.
  assert (NoDup (kept ++ (k, a) :: rest).*1) as Hn.
  { clear Hin. unfold msorted in Hs. induction Hs as [|x l Hs IH Hx]; constructor; [|done].
    intros Hin. rewrite Forall_forall in Hx. specialize (Hx x Hin). unfold klt in Hx.
    by rewrite (proj2 (cmp_eq x x) eq_refl) in Hx. }
  rewrite fmap_app, fmap_cons in Hn. cbn in Hn.
  apply NoDup_app in Hn as (_ & Hn1 & [Hn2 _]%NoDup_cons).
  apply elem_of_app in Hin as [Hin|Hin]; apply (list_elem_of_fmap_2 fst) in Hin; cbn in Hin.
  - apply (Hn1 k Hin). constructor.
  - done.
Qed.

Lemma merase_none k (m : list (bytes * bool)) : Forall (fun e => e.1 <> k) m -> merase k m = m.
Proof.
  induction 1 as [|[k' a] m Hk _ IH]; [done|]. cbn [merase]. cbn in Hk.
  destruct (keqb k k') eqn:E; [|by rewrite IH]. apply keqb_eq in E. congruence.
Qed.

Lemma merase_split (kept : list (bytes * bool)) k a rest :
  msorted (kept ++ (k, a) :: rest) -> merase k (kept ++ (k, a) :: rest) = kept ++ rest.
Proof.
  intros Hs%msorted_split. apply Forall_app in Hs as [Hk Hr].
  induction Hk as [|[k' a'] kept Hne _ IH]; cbn [app merase].
  - rewrite (proj2 (keqb_eq k k) eq_refl). by apply merase_none.
  - cbn in Hne. destruct (keqb k k') eqn:E; [apply keqb_eq in E; congruence|]. by rewrite IH.
Qed.

Lemma mfind_split (kept : list (bytes * bool)) k a rest : msorted (kept ++ (k, a) :: rest) -> mfind k (kept ++ (k, a) :: rest) = Some a.
Proof. intros Hs. apply mfind_Some_iff; [done|]. apply elem_of_app. right. constructor. Qed.

(** An iterator between the members it has passed and those it has not. *)
Definition between (it : ugroups_legacy_members_iterator) (passed rest : list (bytes * bool)) : Prop :=
  (mi_need_advance it = false /\ mi_it it = first_key rest) \/
  (mi_need_advance it = true /\ exists init k a, passed = init ++ [(k, a)] /\ mi_it it = Some k).

Lemma members_next_between it passed rest :
  msorted (passed ++ rest) -> between it passed rest ->
  ugroups_legacy_members_next (passed ++ rest) it =
  Ok (head rest, {| mi_it := first_key rest; mi_need_advance := true |}).
Proof.
  intros Hs Hb. unfold ugroups_legacy_members_next.
  assert ((if mi_need_advance it then map_next (passed ++ rest) (mi_it it) else Ok (mi_it it)) = Ok (first_key rest)) as ->.
  { destruct Hb as [[-> ->]|[-> (init & k & a & -> & ->)]]; [done|]. rewrite <- app_assoc in *. cbn [app] in *.
    unfold map_next. by rewrite mfind_split, key_after_app. }
  cbn [mbind res_bind]. destruct rest as [|[k a] rest]; [done|]. cbn [first_key head fmap option_fmap option_map fst].
  by rewrite mfind_split.
Qed.

Lemma erase_members_between drop rest passed it fuel :
  msorted (passed ++ rest) -> between it passed rest -> (length rest < fuel)%nat ->
  erase_members fuel drop (passed ++ rest) it = Ok (rest, passed ++ filter (fun e => drop e = false) rest).
Proof.
  revert passed it fuel. induction rest as [|[k a] rest IH]; intros passed it fuel Hs Hb Hf;
    (destruct fuel as [|fuel]; [cbn in Hf; lia|]); cbn [erase_members];
    rewrite (members_next_between it passed _ Hs Hb); [done|].
  cbn [head]. rewrite filter_cons. cbn [length] in Hf. destruct (drop (k, a)) eqn:Ed.
  - unfold ugroups_legacy_members_erase. cbn [mi_it first_key head fmap option_fmap option_map fst map_next].
    rewrite mfind_split, key_after_app, merase_split by done. cbn [mbind res_bind].
    rewrite (IH passed); [done|..|lia].
    + by rewrite <- (merase_split passed k a rest Hs); apply msorted_merase.
    + by left.
  - change (passed ++ (k, a) :: rest) with (passed ++ [(k, a)] ++ rest) in *. rewrite app_assoc in *.
    rewrite (IH (passed ++ [(k, a)])); [|done| |lia].
    + by rewrite decide_True, <- app_assoc by done.
    + right. split; [done|]. by exists passed, k, a.
Qed.

(** ** Records that go through the C interface *)

Lemma c_string_inv a s : c_string a = Ok s -> char_nul ∉ s /\ size_of s < size_of a.
Proof.
  revert s. induction a as [|c a IH]; intros s; cbn [c_string]; [done|].
  destruct (bool_decide_reflect (c = char_nul)) as [->|Hc].
  - intros [= <-]. split; [apply not_elem_of_nil|]. unfold size_of. cbn [length]. lia.
  - destruct (c_string a) as [s'|] eqn:E; [|done]. cbn. intros [= <-]. destruct (IH s' eq_refl) as [Hn Hl].
    split; [by apply not_elem_of_cons|]. unfold size_of in *. cbn [length]. lia.
Qed.

Lemma c_string_fits n a s : size_of a = n -> c_string a = Ok s -> fits n s.
Proof. intros <- [? ?]%c_string_inv. done. Qed.

Lemma pic_from_fits c p :
  pic_sizes c -> pic_from c = Ok p -> fits 224 (pic_url p) /\ normal_pic p = p.
Proof.
  intros [Hu Hk] Hp. unfold pic_from in Hp. res_inv Hp.
  pose proof (c_string_fits 224 _ _ Hu E) as Hf. destruct (is_nil a) eqn:En.
  - destruct a; [|done]. done.
  - split; [done|]. unfold normal_pic, pic_empty. cbn [pic_url pic_key]. rewrite En. cbn [orb].
    replace (size_of (take 32 (pp_key c))) with 32; [done|].
    unfold size_of in *. rewrite length_take. lia.
Qed.

Lemma session_id_text_size `{TextEncodings} sid pk : session_id_to_bytes sid "05" = Ok pk -> size_of sid = 66.
Proof.
  unfold session_id_to_bytes, check_session_id, throw_if. destruct (negb _) eqn:E; [done|]. intros _.
  apply negb_false_iff in E. bool_prop. done.
Qed.

(** The result for an id that is not valid: the text about it has 65 more characters than the id. *)
Definition invalid_id_result {A} (session_id : bytes) : res (option A) :=
  if size_of session_id <? 191 then Ok None else Throw UB.

Lemma wrap_invalid_id `{TextEncodings} {A} id prefix :
  size_of prefix = 2 -> size_of id < 2 ^ 63 -> check_session_id id prefix = Throw InvalidArgument ->
  wrap_session_ids [id] prefix (Throw InvalidArgument) = @invalid_id_result A id.
Proof.
  intros Hp Hs E. unfold wrap_session_ids, invalid_id_result. cbn [session_ids_error]. rewrite E.
  assert (size_of (session_id_error id prefix) = size_of id + 65) as Hl.
  { unfold session_id_error. rewrite !size_of_app, Hp. change (size_of (bs "; got ")) with 6.
    match goal with |- size_of ?t + _ = _ => change (size_of t) with 57 end. lia. }
  assert (size_of (zeros 256) = 256) as H256 by done.
  destruct (Z.ltb_spec (size_of id) 191).
  - rewrite copy_c_str_fits; [done|lia].
  - rewrite copy_c_str_overflows; [done|lia..].
Qed.

Lemma check_id_invalid `{TextEncodings} id prefix :
  check_session_id id prefix <> Ok tt -> check_session_id id prefix = Throw InvalidArgument.
Proof. unfold check_session_id, throw_if. by destruct (negb _). Qed.

(** The functions that begin with the check of an id, and what they do if it fails. *)
Create HintDb id_checks.
#[export] Hint Unfold c_contacts_get c_contacts_get_or_construct c_contacts_erase groups_members_get
  groups_members_get_or_construct groups_members_erase change_member c_convo_get_1to1 c_convo_get_or_construct_1to1
  c_convo_erase_1to1 c_convo_get_legacy_group c_convo_get_or_construct_legacy_group c_convo_erase_legacy_group
  c_convo_get_group c_convo_get_or_construct_group c_convo_erase_group user_groups_get_legacy_group
  user_groups_get_or_construct_legacy_group user_groups_erase_legacy_group user_groups_get_group
  user_groups_get_or_construct_group user_groups_erase_group found_id_into : id_checks.
#[export] Hint Unfold contacts_get contacts_get_or_construct contacts_erase members_get members_get_or_construct
  members_erase get_1to1 get_or_construct_1to1 erase_1to1 get_convo_legacy get_or_construct_convo_legacy
  erase_convo_legacy_at get_convo_group get_or_construct_convo_group erase_convo_group_at get_legacy_group
  get_or_construct_legacy_group erase_legacy_group get_group get_or_construct_group erase_group
  new_one_to_one new_convo_legacy new_convo_group new_legacy_group new_group session_id_to_bytes : id_checks.
Ltac invalid_id E :=
  autounfold with id_checks; cbn [mbind res_bind]; rewrite E; cbn [mbind res_bind];
  first [done | by apply wrap_invalid_id].

Section Records.
Context `{Oxenc} `{CryptoBox} `{Aead} `{Zstd} `{Protobuf} `{TextEncodings}.

Lemma found_id_some {A C} id prefix (a : A) (into : A -> C -> res C) c c' :
  into a c = Ok c' -> found_id_into id prefix (Ok (Some a)) into c = Ok (Some (Some c')).
Proof. intros E. unfold found_id_into. cbn [mbind res_bind]. by rewrite E. Qed.

Lemma contact_set_get_c b a a0 i pk :
  editable b -> contact_sizes a -> contact_sizes a0 -> contact_from a = Ok i -> valid_contact i ->
  session_id_to_bytes (ci_session_id i) "05" = Ok pk ->
  exists b' a', c_contacts_set b a = Ok (Some b') /\ editable b' /\
    c_contacts_get b' a0 (ci_session_id i) = Ok (Some (Some a')) /\ contact_from a' = Ok (normal_contact i).
Proof.
  intros Hb Ha Ha0 Hf Hv Hpk. destruct (contacts_set_get b i pk Hb Hv Hpk) as (b' & Hset & Hb' & _ & Hget).
  destruct (contact_through i a0) as (a' & Hi & Hr); [done|by apply (session_id_text_size _ pk)|..|done|].
  1-3: unfold contact_from in Hf; destruct Ha as (_ & S2 & S3 & S4); res_inv Hf; cbn [ci_name ci_nickname ci_profile_picture].
  - by apply c_string_inv in E as [? _].
  - by apply c_string_inv in E0 as [? _].
  - by eapply pic_from_fits.
  - exists b', a'. unfold c_contacts_set, c_contacts_get. rewrite Hf, Hget. cbn [mbind res_bind].
    rewrite Hset. split_and!; [done..| |done]. by apply found_id_some.
Qed.

Lemma known_status_range s : 0 <= known_status s < 4.
Proof. unfold known_status, STATUS_SENT, STATUS_FAILED, STATUS_NOT_SENT. destruct (_ || _) eqn:E; [|lia].
  apply orb_true_iff in E as [[E|E]%orb_true_iff|E]; apply Z.eqb_eq in E; lia.
Qed.
Lemma known_removed_range s : 0 <= known_removed s < 4.
Proof. unfold known_removed, REMOVED_MEMBER, REMOVED_MEMBER_AND_MESSAGES. destruct (_ || _) eqn:E; [|lia].
  apply orb_true_iff in E as [E|E]; apply Z.eqb_eq in E; lia.
Qed.
Lemma known_status_fix s : known_status (or_zero (known_status s)) = or_zero (known_status s).
Proof.
  unfold known_status at 2 3. destruct (_ || _) eqn:E; [|done].
  apply orb_true_iff in E as [[E|E]%orb_true_iff|E]; apply Z.eqb_eq in E; by subst.
Qed.
Lemma known_removed_fix s : known_removed (or_zero (known_removed s)) = or_zero (known_removed s).
Proof.
  unfold known_removed at 2 3. destruct (_ || _) eqn:E; [|done].
  apply orb_true_iff in E as [E|E]; apply Z.eqb_eq in E; by subst.
Qed.

Lemma member_set_get_c ms a a0 m pk :
  editable (members_base ms) -> ssorted (pending_send_ids ms) -> member_sizes a -> member_sizes a0 ->
  member_from a = Ok m -> session_id_to_bytes (mem_session_id m) "05" = Ok pk ->
  exists ms' a', groups_members_set ms a = Ok (Some ms') /\ editable (members_base ms') /\
    groups_members_get ms' a0 (mem_session_id m) = Ok (Some (Some a')) /\ member_from a' = Ok (normal_member m).
Proof.
  intros Hb Hp Ha Ha0 Hf Hpk. unfold groups_members_set, groups_members_get. rewrite Hf. cbn [mbind res_bind].
  assert (member_fits (normal_member m) /\ valid_member m) as [Hfit Hv].
  { pose proof (session_id_text_size _ _ Hpk) as Hid. unfold member_from in Hf. destruct Ha as (_ & S2 & S3). res_inv Hf. cbn in Hid.
    destruct (pic_from_fits _ _ S3 E0) as [Hpic Hnp]. apply c_string_inv in E as [Hn _].
    pose proof (known_status_range (cm_invited a)). pose proof (known_status_range (cm_promoted a)).
    pose proof (known_removed_range (cm_removed a)).
    split; [|constructor; cbn; lia]. constructor; cbn.
    - done.
    - by apply (fits_take 100).
    - by rewrite Hnp.
    - by rewrite !Hnp.
    - destruct (cm_admin a); [done|apply known_status_fix].
    - apply known_status_fix.
    - apply known_removed_fix. }
  destruct (members_set_get ms m pk Hb Hv Hp Hpk) as (ms' & -> & Hb' & Hget & _).
  destruct (member_through (normal_member m) a0 Hfit Ha0) as (a' & Hi & Hr).
  exists ms', a'. rewrite Hget. split_and!; [done..| |done]. by apply found_id_some.
Qed.

Lemma normal_time_bound t : t <= 9000000000000000 -> normal_time t <= 9000000000.
Proof. intros Ht. pose proof (to_epoch_seconds_bound t Ht). unfold normal_time. destruct (0 <? _); lia. Qed.

Lemma legacy_set_get_c b a g pk :
  editable b -> legacy_sizes a -> legacy_from a = Ok g -> valid_legacy g ->
  session_id_to_bytes (lg_session_id g) "05" = Ok pk ->
  exists b' a', user_groups_set_legacy_group b a = Ok (Some b') /\ editable b' /\
    user_groups_set_free_legacy_group b a = Ok (Some (b', freed a)) /\
    user_groups_get_legacy_group b' (lg_session_id g) = Ok (Some (Some a')) /\ legacy_from a' = Ok (normal_legacy g).
Proof.
  intros Hb Ha Hf Hv Hpk. unfold user_groups_set_legacy_group, user_groups_set_free_legacy_group, user_groups_get_legacy_group.
  rewrite Hf. cbn [mbind res_bind].
  destruct (legacy_set_get b g pk Hb Hv Hpk) as (b' & -> & Hb' & _ & Hget).
  destruct (legacy_through (normal_legacy g) zero_legacy_group) as (a' & Hi & Hr).
  - constructor; cbn.
    + destruct Hv as [[_ [_ ?] [_ ?]] _ _ _]. unfold legacy_from in Hf. destruct Ha as (_ & S2 & _). res_inv Hf. cbn in *.
      apply c_string_inv in E as [Hn _]. constructor; cbn; [by apply (fits_take 100)|by apply normal_time_bound..].
    + by apply (session_id_text_size _ pk).
    + unfold legacy_keys. destruct (_ && _) eqn:E; [right|by left]. bool_prop. done.
  - done.
  - exists b', a'. rewrite Hget. split_and!; [done..| |done]. by apply found_id_some.
Qed.
End Records.

(** The status of a group in the struct and in the record. *)
Lemma group_status_c c g :
  group_from c = Ok g ->
  group_from (ugroups_group_set_invited c) = Ok (mark_invited g) /\
  group_from (ugroups_group_set_destroyed c) = Ok (mark_destroyed g) /\
  (is_destroyed g = false -> group_from (ugroups_group_set_kicked c) = Ok (mark_kicked g)) /\
  (is_destroyed g = true ->
   is_destroyed (mark_invited (mark_kicked g)) = true /\
   ugroups_group_is_destroyed (ugroups_group_set_kicked c) = false /\
   cgi_removed_status (ugroups_group_set_invited (ugroups_group_set_kicked c)) = NOT_REMOVED).
Proof.
  unfold group_from at 1. intros Hg. res_inv Hg. split_and!.
  - unfold ugroups_group_set_invited, mark_invited, with_status. cbn [gi_removed_status gi_secretkey gi_auth_data].
    destruct (cgi_removed_status c =? KICKED_FROM_GROUP); unfold group_from; cbn; by rewrite E.
  - unfold ugroups_group_set_destroyed, group_from. cbn. by rewrite E.
  - unfold is_destroyed, ugroups_group_set_kicked, mark_kicked, group_from. cbn. intros ->. by rewrite E.
  - unfold is_destroyed, mark_invited, mark_kicked, ugroups_group_is_destroyed. cbn. intros Hd. rewrite Hd. cbn.
    apply Z.eqb_eq in Hd. by rewrite Hd.
Qed.

(** *** Iterators *)

Section RecordFacts.
Context {A C : Type} (make : bytes -> dict -> res A) (into : A -> C -> res C).

Fixpoint records (d : dict) : res (list A) :=
  match d with
  | [] => Ok []
  | (k, v) :: d =>
      match v with
      | VDict info => if size_of k =? 33 then a ← make k info; l ← records d; Ok (a :: l) else records d
      | _ => records d
      end
  end.

(** A loop over all records, with one step per record to spare, does what the conversion of each of
    them does: it ends, and it skips what is no record. *)
Lemma record_loop_ok c d : forall l val fuel,
  records d = Ok l -> (length l < fuel)%nat ->
  exists it, load_info make val d = Ok it /\ record_loop make into fuel it c = map_res (fun a => into a c) l.
Proof.
  induction d as [|[k v] d IH]; intros l val [|fuel] Hl Hf; [lia| |lia|]; cbn [records load_info] in *.
  - injection Hl as <-. by eexists.
  - destruct v as [info|s|s]; [|by apply IH..]. destruct (size_of k =? 33); [|by apply IH].
    destruct (make k info) as [a|]; [|done]. cbn [mbind res_bind] in *. destruct (records d) as [l'|] eqn:Er; [|done].
    cbn [mbind res_bind] in Hl. injection Hl as <-. cbn [length] in Hf. eexists. split; [done|].
    destruct (IH l' (Some a) fuel eq_refl ltac:(lia)) as (it & Hit & Hloop).
    cbn [record_loop]. unfold record_into, record_done, record_next. cbn [rec_rest rec_val map_res].
    destruct (into a c) as [b|]; [|done]. cbn [fmap res_fmap mbind res_bind]. rewrite Hit. cbn [mbind res_bind]. by rewrite Hloop.
Qed.
End RecordFacts.

Section IteratorFacts.
Context `{Oxenc} `{CryptoBox} `{Aead} `{Zstd} `{Protobuf} `{TextEncodings}.

Lemma contacts_list_records b :
  contacts_list b = match get_dict b (root_field "c") with Some d => records make_contact d | None => Ok [] end.
Proof.
  unfold contacts_list. destruct (get_dict b (root_field "c")) as [d|]; [|done].
  set (f := fun (l : list contact_info) (kv : bytes * dict_value) => _).
  assert (Hf : forall d acc, foldM f acc d = (l ← records make_contact d; Ok (acc ++ l))); [|by rewrite Hf; destruct (records _ d)].
  clear d. induction d as [|[k v] d IH]; intros acc; cbn [foldM records]; [cbn; by rewrite app_nil_r|].
  assert (f acc (k, v) = match v with
                         | VDict info => if size_of k =? 33 then c ← new_contact (to_hex k); Ok (acc ++ [load_contact (ci_session_id c) info])
                                         else Ok acc
                         | _ => Ok acc
                         end) as -> by done.
  destruct v as [info|s|s]; [|apply IH..]. destruct (size_of k =? 33); [|apply IH].
  assert (make_contact k info = (c ← new_contact (to_hex k); Ok (load_contact (ci_session_id c) info))) as -> by done.
  destruct (new_contact (to_hex k)) as [c|e]; [|done]. cbn [mbind res_bind]. rewrite IH.
  destruct (records make_contact d) as [l|e]; [|done]. cbn [mbind res_bind]. by rewrite <- app_assoc.
Qed.
Lemma members_list_records ms :
  members_list ms = match get_dict (members_base ms) (root_field "m") with Some d => records make_member d | None => Ok [] end.
Proof.
  unfold members_list. destruct (get_dict _ _) as [d|]; [|done]. induction d as [|[k v] d IH]; [done|].
  cbn [load_infos records]. unfold load_next. cbn [fst snd]. destruct v as [info|s|s]; cbn [mbind res_bind];
    [|rewrite IH; by destruct (records make_member d)..].
  destruct (size_of k =? 33); [|cbn; rewrite IH; by destruct (records make_member d)].
  assert (make_member k info = (m ← new_member (to_hex k); Ok (load_member (mem_session_id m) info))) as -> by done.
  destruct (new_member (to_hex k)) as [m|]; [|done]. cbn [mbind res_bind]. by rewrite IH.
Qed.

(** The loops of the C interface over contacts and members. *)
Theorem c_contacts_iterate b l c fuel :
  contacts_list b = Ok l -> (length l < fuel)%nat ->
  exists it, contacts_iterator_new b = Ok it /\
    record_loop make_contact contact_into fuel it c = map_res (fun i => contact_into i c) l.
Proof.
  rewrite contacts_list_records. unfold contacts_iterator_new, record_begin.
  destruct (get_dict b (root_field "c")) as [d|]; [apply record_loop_ok|].
  intros [= <-] Hf. eexists. split; [done|]. destruct fuel; [lia|done].
Qed.
Theorem c_members_iterate ms l c fuel :
  members_list ms = Ok l -> (length l < fuel)%nat ->
  exists it, groups_members_iterator_new ms = Ok it /\
    record_loop make_member member_into fuel it c = map_res (fun i => member_into i c) l.
Proof.
  rewrite members_list_records. unfold groups_members_iterator_new, record_begin.
  destruct (get_dict (members_base ms) (root_field "m")) as [d|]; [apply record_loop_ok|].
  intros [= <-] Hf. eexists. split; [done|]. destruct fuel; [lia|done].
Qed.

(** The loop over groups, legacy groups and communities visits all of them, and each has one kind. *)
Lemma user_groups_loop_ok c g lg fuel : forall it l,
  ug_collect fuel it = Ok l -> user_groups_loop fuel it c g lg = map_res (group_struct c g lg) l.
Proof.
  induction fuel as [|fuel IH]; intros it l Hl; [done|]. cbn [ug_collect user_groups_loop] in *. unfold user_groups_iterator_done.
  destruct (ug_done it); [by injection Hl as <-|].
  unfold user_groups_it_is_community, user_groups_it_is_group, user_groups_it_is_legacy_group, it_is_impl.
  destruct (ug_val it) as [v|]; [|done]. unfold user_groups_iterator_advance.
  destruct (ug_next it) as [it'|]; [|done]. cbn [mbind res_bind] in *. destruct (ug_collect fuel it') as [l'|] eqn:Ec; [|done].
  injection Hl as <-. cbn [map_res].
  destruct v as [i|i|i]; cbn [group_struct mbind res_bind];
    [destruct (group_into i g)|destruct (community_into i c)|destruct (legacy_into i lg)]; try done;
    cbn [fmap res_fmap mbind res_bind]; by rewrite (IH _ _ Ec).
Qed.
Theorem c_groups_iterate b c g lg fuel :
  (length (all_groups b true true true) < fuel)%nat ->
  exists it, user_groups_iterator_new b = Ok it /\
    user_groups_loop fuel it c g lg = map_res (group_struct c g lg) (all_groups b true true true).
Proof.
  intros Hf. destruct (ug_iterate b true true true fuel Hf) as (it & Hit & Hl). exists it. split; [done|].
  by apply user_groups_loop_ok.
Qed.
End IteratorFacts.
