(* ===== verification/FieldProperties.v ===== *)
(** * Properties of the typed configs: fields, profile, contacts, C structs

    The correctness theorems about [DictField], [UserProfileConfig], [ContactsConfig] and
    [CStructs], each with an example. *)
From S2P Require Import Prelude OMap Util Internal BtValue ThirdParty Bencode ConfigData.
From S2P Require Import ConfigDataFacts ConfigParse ConfigParseFacts ConfigMessage.
From S2P Require Import MessageFacts MergeFacts ReplayFacts Encrypt.
From S2P Require Import SessionEncrypt Protos Instances ConfigBase BaseFacts Multipart.
From S2P Require Import BaseSync DictField DictFieldFacts UserProfileConfig.
From S2P Require Import ContactsConfig ContactsFacts DataProperties MessageProperties.
From S2P Require Import SyncProperties.
From S2P Require Import Community UserGroupsConfig ConvoInfoConfig GroupMembers CStructs.
From S2P Require Import CMemory.

Section FieldProperties.
Context `{Oxenc} `{Blake2b} `{TextEncodings}.

(** assigning to a field.  On an object that can be changed, assigning a non-empty value to any
    path succeeds (creating the dicts on the way), reading the field then gives that value, the
    data stays well formed, and nothing that can be observed on a path that parts from the
    field's path changes.  Assigning the value a field already has does not touch an object that
    is not dirty: no new version of the config is made. *)
Theorem assign_field b f v :
  editable b -> wf_value v -> is_empty_container v = false ->
  (exists b', assign b f v = Ok b' /\ get_clean b' f = Some v /\ wf_dict (data_of b') /\
    (forall ob q, diverge (path f) q = true ->
       observe_at ob q (data_of b') = observe_at ob q (data_of b))) /\
  (is_dirty b = false -> get_clean b f = Some v -> assign b f v = Ok b).
Proof.
  intros [Hw Hd] Hv He. split; [|intros; by apply assign_same].
  destruct (assign_ok b f v Hw Hd Hv He) as (b' & ? & ? & ? & Hf & _). by exists b'.
Qed.

(** inserting into and erasing from the set at a field add and remove exactly the given
    element and leave the rest of the data alone.  Erasing an element from a set that does not
    exist is not a no-op, though: an object that was not dirty becomes dirty with the next seqno
    although its data does not change. *)
Theorem set_insert_erase b f x :
  editable b -> wf_scalar x ->
  (exists b' s, set_insert b f x = Ok b' /\ get_set b' f = Some s /\
     (forall y, y ∈ s <-> y = x \/ y ∈ as_subset (get_clean b f)) /\ frame f b b') /\
  (exists b', set_erase b f x = Ok b' /\
     (forall y, y ∈ as_subset (get_clean b' f) <-> y <> x /\ y ∈ as_subset (get_clean b f)) /\
     frame f b b' /\
     (is_dirty b = false -> get_clean b f = None ->
      _state b' = Dirty /\ seqno (_config b') = seqno (_config b) + 1)).
Proof.
  intros [Hw Hd] Hx. split.
  - destruct (set_insert_ok b f x Hw Hd Hx) as (b' & s & ? & ? & _ & ? & ? & _). by exists b', s.
  - destruct (set_erase_ok b f x Hw Hd) as (b' & He & _ & ? & ? & _). exists b'. split_and!; [done..|].
    intros Hn Hg. destruct Hw as [b0 Hb0].
    destruct (set_erase_absent b f x b0 Hn Hg Hb0) as (b2 & He2 & ? & ?).
    by assert (b2 = b') as -> by congruence.
Qed.

(** A profile name of at most 100 bytes is stored and read back (an empty one reads as unset);
    a longer one is refused; the truncating version always succeeds and stores a prefix of at
    most 100 bytes that does not end inside a UTF-8 sequence. *)
Theorem profile_name b n :
  editable b ->
  (if (MAX_NAME_LENGTH <? length n)%nat then set_name b n = Throw InvalidArgument
   else exists b', set_name b n = Ok b' /\ get_name b' = (if is_nil n then None else Some n)) /\
  exists b' k, set_name_truncated b n = Ok b' /\
    get_name b' = (if is_nil (take k n) then None else Some (take k n)) /\
    (length (take k n) <= MAX_NAME_LENGTH)%nat /\
    (forall c, n !! k = Some c -> k <> 0%nat -> is_continuation c = false).
Proof.
  intros Hb. split.
  - pose proof (set_name_ok b n Hb) as Hs. destruct (_ <? _)%nat; [done|].
    destruct Hs as (b' & ? & _ & ? & _). by exists b'.
  - destruct (set_name_truncated_ok b n Hb) as (b' & ? & _ & Hg & _).
    destruct (utf8_truncate_ok n MAX_NAME_LENGTH) as (k & Hk & Hl & Hc).
    exists b', k. cbv zeta in Hg. rewrite Hk in *. done.
Qed.

(** a setting that is switched off is not stored: reading it afterwards gives "not set", as if
    it had been cleared; only a setting that is switched on is read back. *)
Theorem setting_off_is_unset b key enabled :
  editable b -> c_str key = key ->
  exists b', set_setting b key enabled = Ok b' /\
    get_setting b' key = (if decide (enabled = Some true) then Some true else None).
Proof. intros Hb Hk. destruct (set_setting_ok b key enabled Hb Hk) as (b' & ? & _ & ?). by exists b'. Qed.

(** Contacts are stored faithfully.  Storing a contact with a valid session id succeeds, reading
    it back gives the same contact in normal form (names cut to 100 bytes, times in seconds, no
    expiry without a timer), the normal form is stable, and no field of any other contact
    changes.  Erasing a contact reports whether there was one, and it is gone afterwards. *)
Theorem contact_roundtrip b c pk :
  editable b -> valid_contact c -> session_id_to_bytes (ci_session_id c) "05" = Ok pk ->
  (exists b', contacts_set b c = Ok b' /\ editable b' /\
    contacts_get b' (ci_session_id c) = Ok (Some (normal_contact c)) /\
    normal_contact (normal_contact c) = normal_contact c /\
    (forall pk' k, pk' <> pk -> field_scalar b' (sub_field (contact_field pk') k) =
                                field_scalar b (sub_field (contact_field pk') k))) /\
  (exists b', contacts_erase b (ci_session_id c) = Ok (exists_field b (contact_field pk), b') /\
    contacts_get b' (ci_session_id c) = Ok None).
Proof.
  intros Hb Hc Hpk. split.
  - destruct (contacts_set_get b c pk Hb Hc Hpk) as (b' & ? & ? & Hf & ?).
    exists b'. split_and!; try done; [by apply normal_contact_idem|]. intros pk' k Hne.
    by eapply contact_other.
  - destruct (contacts_erase_get b _ pk Hb Hpk) as (b' & ? & _ & _ & ?). by exists b'.
Qed.

End FieldProperties.

(** ** Examples *)
#[local] Existing Instances bencode toy_hash toy_sign toy_box toy_aead toy_zstd toy_protobuf hex_encodings.

Lemma ex_object_editable : editable ex_object.
Proof. split; [|wf_concrete]. eexists. vm_compute. reflexivity. Qed.

Definition ex_field : DictFieldProxy := sub_field (root_field "c") "x".
Definition ex_setfield : DictFieldProxy := root_field "b".

Lemma assign_field_example :
  (exists b', assign ex_object ex_field (VScalar (SInt 5)) = Ok b' /\
    get_clean b' ex_field = Some (VScalar (SInt 5)) /\ wf_dict (data_of b') /\
    (forall ob q, diverge (path ex_field) q = true ->
       observe_at ob q (data_of b') = observe_at ob q (data_of ex_object))) /\
  assign ex_object (root_field "a") (VScalar (SInt 2)) = Ok ex_object.
Proof.
  split.
  - by apply (assign_field ex_object ex_field (VScalar (SInt 5))); [apply ex_object_editable|..].
  - by apply (assign_field ex_object (root_field "a") (VScalar (SInt 2))); [apply ex_object_editable|..].
Defined.

Lemma set_insert_erase_example :
  exists b', set_erase ex_object (root_field "z") (SInt 9) = Ok b' /\
    (forall y, y ∈ as_subset (get_clean b' (root_field "z")) <->
               y <> SInt 9 /\ y ∈ as_subset (get_clean ex_object (root_field "z"))) /\
    frame (root_field "z") ex_object b' /\
    (is_dirty ex_object = false -> get_clean ex_object (root_field "z") = None ->
     _state b' = Dirty /\ seqno (_config b') = seqno (_config ex_object) + 1).
Proof. by apply (set_insert_erase ex_object (root_field "z") (SInt 9)); [apply ex_object_editable|]. Defined.

(** The example object, dirtied. *)
Definition ex_dirty : ConfigBase :=
  match dirty ex_object with Ok b => b | Throw _ => ex_object end.

Lemma setting_off_is_unset_example :
  exists b', set_setting ex_object "dark" (Some false) = Ok b' /\ get_setting b' "dark" = None.
Proof. by apply (setting_off_is_unset ex_object "dark" (Some false)); [apply ex_object_editable|]. Defined.

Definition ex_sid : bytes := "05" ++ replicate 64 "a"%char.
Definition ex_contact : contact_info :=
  {| ci_session_id := ex_sid; ci_name := "Bob"; ci_nickname := "b"; ci_profile_picture := empty_pic;
     ci_approved := true; ci_approved_me := false; ci_blocked := false; ci_priority := -1;
     ci_notifications := notify_mentions_only; ci_mute_until := 1700000000000;
     ci_exp_mode := exp_after_send; ci_exp_timer := 3600; ci_created := 1700000000 |}.
Definition ex_pk : bytes := hex_decode ex_sid.

Lemma contact_roundtrip_example :
  (exists b', contacts_set ex_object ex_contact = Ok b' /\ editable b' /\
    contacts_get b' ex_sid = Ok (Some (normal_contact ex_contact)) /\
    normal_contact (normal_contact ex_contact) = normal_contact ex_contact /\
    (forall pk' k, pk' <> ex_pk -> field_scalar b' (sub_field (contact_field pk') k) =
                                   field_scalar ex_object (sub_field (contact_field pk') k))) /\
  (exists b', contacts_erase ex_object ex_sid = Ok (exists_field ex_object (contact_field ex_pk), b') /\
    contacts_get b' ex_sid = Ok None).
Proof.
  apply (contact_roundtrip ex_object ex_contact ex_pk);
    [apply ex_object_editable|by constructor|by vm_compute].
Defined.

(** ** The C structs *)

(** C37: copying a text into an array of the C interface stays inside the array exactly if the text is
    shorter than the array; then the array holds the text, a null byte and what was there before.
    A longer text is not shortened to the array, as the code means to do, but written past its
    end.  In particular, converting a contact whose stored name has more than 100 bytes, which
    nothing prevents when a config is read, is undefined behaviour. *)
Theorem copy_c_str_exact :
  (forall dest src, size_of src < 2 ^ 64 - 1 ->
     copy_c_str dest src =
       if size_of src <? size_of dest then Ok (src ++ char_nul :: drop (S (length src)) dest) else Throw UB) /\
  (forall session_id info_dict name c,
     size_of session_id = 66 -> contact_sizes c -> maybe_string info_dict "n" = Some name ->
     100 < size_of name < 2 ^ 64 - 1 -> contact_into (load_contact session_id info_dict) c = Throw UB).
Proof.
  split.
  - intros dest src Hs. destruct (Z.ltb_spec (size_of src) (size_of dest)); [by apply copy_c_str_fits|by apply copy_c_str_overflows].
  - intros session_id info_dict name c Hi (S1 & S2 & _) Hn Hsize. unfold contact_into, load_contact.
    destruct (load_expiry _ _) as [mode timer]. cbn [ci_session_id ci_name]. rewrite Hn. cbn [value_or].
    destruct (id_through (cc_session_id c) session_id) as (d & -> & _); [done..|]. cbn [mbind res_bind].
    by rewrite (copy_c_str_overflows (cc_name c) name) by lia.
Qed.

(** Records are the same after they were converted to a C struct and back: a contact as it is read
    from the config, if its names and the URL of its picture have no null bytes and the URL fits;
    a group member, a group and a legacy group with texts that fit; and a community and a
    conversation, whose addresses and ids always fit. *)
Theorem c_structs_roundtrip :
  (forall c a, valid_contact c -> size_of (ci_session_id c) = 66 -> char_nul ∉ ci_name c -> char_nul ∉ ci_nickname c ->
     fits 224 (pic_url (ci_profile_picture c)) -> contact_sizes a ->
     exists a', contact_into (normal_contact c) a = Ok a' /\ contact_from a' = Ok (normal_contact c)) /\
  (forall m a, member_fits m -> member_sizes a -> exists a', member_into m a = Ok a' /\ member_from a' = Ok m) /\
  (forall g a, group_fits g -> group_sizes a -> exists a', group_into g a = Ok a' /\ group_from a' = Ok g) /\
  (forall g a, legacy_fits g -> legacy_sizes a -> exists a', legacy_into g a = Ok a' /\ legacy_from a' = Ok g) /\
  (forall i a, made_community (co_comm i) (comm_room (co_comm i)) -> bg_name (co_base i) = [] ->
     bg_joined_at (co_base i) <= 9000000000 -> bg_mute_until (co_base i) <= 9000000000 -> community_sizes a ->
     exists a', community_into i a = Ok a' /\ community_from a' = Ok i) /\
  (forall i a, size_of (kc_id i) = 66 -> size_of (cv_id a) = 67 -> exists a', convo_into i a = Ok a' /\ convo_from a' = i) /\
  (forall i a, made_community (cc_comm i) (room_ (cc_comm i)) -> convo_community_sizes a ->
     exists a', convo_community_into i a = Ok a' /\ convo_community_from a' = Ok i).
Proof.
  split_and!; [exact contact_through|exact member_through|exact group_through|exact legacy_through|exact community_through|
    exact convo_through|exact convo_community_through].
Qed.

(** ** Examples *)

Definition ex_struct : contacts_contact :=
  {| cc_session_id := zeros 67; cc_name := zeros 101; cc_nickname := zeros 101;
     cc_profile_pic := {| pp_url := zeros 224; pp_key := zeros 32 |}; cc_approved := false; cc_approved_me := false;
     cc_blocked := false; cc_priority := 0; cc_notifications := notify_defaulted; cc_mute_until := 0;
     cc_exp_mode := exp_none; cc_exp_seconds := 0; cc_created := 0 |}.
Definition ex_c_contact : contact_info :=
  {| ci_session_id := replicate 66 "0"%char; ci_name := bs "Joe"; ci_nickname := bs "J"; ci_profile_picture := empty_pic;
     ci_approved := true; ci_approved_me := false; ci_blocked := false; ci_priority := -1; ci_notifications := notify_disabled;
     ci_mute_until := 1700000000000; ci_exp_mode := exp_after_read; ci_exp_timer := 60; ci_created := 1700000000 |}.

Lemma copy_c_str_exact_example :
  copy_c_str (zeros 3) (bs "abc") = Throw UB /\
  contact_into (load_contact (replicate 66 "0"%char) [(bs "n", VScalar (SStr (replicate 101 "n"%char)))]) ex_struct = Throw UB.
Proof.
  destruct copy_c_str_exact as [H1 H2]. split.
  - exact (H1 (zeros 3) (bs "abc") eq_refl).
  - apply (H2 _ _ (replicate 101 "n"%char)); [reflexivity| |reflexivity|split; reflexivity].
    repeat split; reflexivity.
Defined.

Lemma c_structs_roundtrip_example :
  exists a', contact_into (normal_contact ex_c_contact) ex_struct = Ok a' /\ contact_from a' = Ok (normal_contact ex_c_contact).
Proof.
  destruct c_structs_roundtrip as [H _]. apply H.
  - constructor; cbn; unfold INT64_MIN; lia.
  - reflexivity.
  - apply (bool_decide_eq_false_1 (char_nul ∈ _)). vm_compute. reflexivity.
  - apply (bool_decide_eq_false_1 (char_nul ∈ _)). vm_compute. reflexivity.
  - split; [reflexivity|]. apply not_elem_of_nil.
  - repeat split; reflexivity.
Defined.

(** ** Memory of the C interface *)

Section CMemoryProperties.
Context `{Allocator} `{Oxenc} `{CryptoBox} `{Aead} `{Zstd} `{Protobuf} `{TextEncodings}.
Variable ty : ConfigType.

(** C35: [config_push] hands over exactly what the [push] of the object's class returns (that of
    [ConvoInfoVolatile] prunes first).  It asks for the number of bytes that
    the struct, the three arrays and the packed data take; if there is no memory it returns a null
    pointer, and otherwise one new block, which it fills exactly (no store is outside of it and
    every word is aligned), apart from all others; reading the number, the messages with their
    lengths and the obsolete hashes through the pointers of the struct gives those of [push]. *)
Theorem config_push_exact now m conf s data obs conf' :
  wf_memory m -> virtual_push ty now conf = Ok ((s, data, obs), conf') -> in_int64 s = true ->
  Forall (fun h => char_nul ∉ h) obs -> push_data_size data obs < 2 ^ 64 ->
  match malloc m (push_data_size data obs) with
  | None => config_push ty now m conf = Ok (Some (None, conf'))
  | Some b =>
      exists b', config_push ty now m conf = Ok (Some (Some (b' :: m, b_addr b), conf')) /\
        b_addr b' = b_addr b /\ b_end b' = b_end b /\ wf_memory (b' :: m) /\
        read_push_data (b' :: m) (b_addr b) = Ok (s, data, obs)
  end.
Proof.
  intros Hm Hp Hs Ho Hsz. unfold config_push. rewrite Hp.
  destruct (malloc m (push_data_size data obs)) as [b|] eqn:Hb.
  - rewrite (push_data_block_ok m s data obs b Hsz Hb). cbn [mbind res_bind wrap_exceptions].
    pose proof (size_push_data_data (b_addr b) s data obs) as Hd.
    destruct (malloc_filled m _ b _ _ Hm Hb Hd eq_refl) as (Hw & Hin & Hpos & He & Ha).
    eexists. split_and!; [done|done| |done|].
    + unfold b_end. cbn [b_addr b_data]. rewrite Hd. by rewrite (malloc_size _ _ _ Hb).
    + apply (push_data_held _ _ s data obs Hw Hin) in Hs as [_ _ _ _ Hr]; auto.
  - pose proof (size_of_nonneg data). pose proof (size_of_nonneg obs).
    pose proof (sizes_nonneg data). pose proof (sizes_nonneg (c_strs obs)).
    unfold push_data_block, size_t. unfold push_data_size in Hsz, Hb. by rewrite Z.mod_small, Hb by lia.
Qed.

(** C36: [config_merge] can be called with the arrays of a [config_push_data] and those of a string list
    as they are in memory: it then merges the pushed messages under the listed hashes, exactly as
    [merge] does with the values; an exception of [merge] becomes a null pointer, and the hashes of
    the messages that were understood are read back from the list that is returned. *)
Theorem config_merge_exact now now' m conf s data obs conf' m1 p hashes m2 q conf2 :
  wf_memory m -> virtual_push ty now conf = Ok ((s, data, obs), conf') -> in_int64 s = true ->
  push_data_size data obs < 2 ^ 64 -> config_push ty now m conf = Ok (Some (Some (m1, p), conf')) ->
  length hashes = length data -> Forall (fun h => char_nul ∉ h) hashes -> string_list_size hashes < 2 ^ 64 ->
  make_string_list m1 hashes = Ok (m2, q) ->
  exists config config_lens n value,
    pd_config m2 p = Ok config /\ pd_config_lens m2 p = Ok config_lens /\ pd_n_configs m2 p = Ok n /\
    load_word m2 q = Ok value /\
    (forall e, merge ty now' conf2 (zip hashes data) = Throw e ->
       config_merge ty now' m2 conf2 value config config_lens n = wrap_exceptions (Throw e)) /\
    (forall good conf2' m3 r, merge ty now' conf2 (zip hashes data) = Ok (good, conf2') ->
       make_string_list m2 good = Ok (m3, r) ->
       config_merge ty now' m2 conf2 value config config_lens n = Ok (Some (m3, r, conf2')) /\
       (string_list_size good < 2 ^ 64 -> Forall (fun h => char_nul ∉ h) good -> read_string_list m3 r = Ok good)).
Proof.
  intros Hm Hp Hs Hsz Hc Hl Hh Hhs Hq.
  destruct (pushed_held ty now m conf s data obs conf' m1 p m2 hashes q) as [Hw [F1 F2 F3 F4 _]]; [done..|].
  destruct (read_string_list_ok m1 m2 hashes q) as (Hw2 & Hv & Hstr & _); [done..|].
  exists (p + 48), (p + 48 + 8 * size_of data), (size_of data), (q + 16).
  assert (load_confs m2 (q + 16) (p + 48) (p + 48 + 8 * size_of data) (Z.to_nat (size_of data)) = Ok (zip hashes data)) as Hconf.
  { unfold size_of at 2. rewrite Nat2Z.id. apply load_confs_zip; [by rewrite <- Hl|done]. }
  split_and!; [done..| |].
  - intros e Hmg. unfold config_merge. rewrite Hconf. cbn [mbind res_bind]. by rewrite Hmg.
  - intros good conf2' m3 r Hmg Hr. split.
    + unfold config_merge. rewrite Hconf. cbn [mbind res_bind]. by rewrite Hmg, Hr.
    + intros Hgs Hg. by apply (read_string_list_ok m2 m3 good r).
Qed.
End CMemoryProperties.

(** *** Examples *)

#[local] Existing Instances bump_allocator hex_encodings.

Definition ex_pushed : (Z * list bytes * list bytes) * ConfigBase :=
  match push ex_type 1000 ex_object with Ok r => r | Throw _ => ((0, [], []), ex_object) end.
Definition ex_seqno : Z := ex_pushed.1.1.1.
Definition ex_data : list bytes := ex_pushed.1.1.2.
Definition ex_obs : list bytes := ex_pushed.1.2.

Lemma config_push_exact_example :
  exists b', config_push ex_type (1000 * CLOCK_TICKS_PER_MS) [] ex_object = Ok (Some (Some ([b'], 16), ex_pushed.2)) /\
    b_addr b' = 16 /\ b_end b' = 16 + push_data_size ex_data ex_obs /\ wf_memory [b'] /\
    read_push_data [b'] 16 = Ok (ex_seqno, ex_data, [bs "h0"]).
Proof.
  assert (malloc [] (push_data_size ex_data ex_obs) =
    Some {| b_addr := 16; b_data := replicate (Z.to_nat (push_data_size ex_data ex_obs)) char_nul |}) as Hb
    by (vm_compute; reflexivity).
  assert (forall h, h ∈ ex_obs -> char_nul ∉ h) as Ho.
  { apply Forall_forall. apply (bool_decide_eq_true_1 (Forall _ _)). vm_compute. reflexivity. }
  pose proof (config_push_exact ex_type (1000 * CLOCK_TICKS_PER_MS) [] ex_object ex_seqno ex_data ex_obs ex_pushed.2) as E.
  rewrite Hb in E. destruct E as (b' & E1 & E2 & E3 & E4 & E5).
  - exact wf_memory_nil.
  - vm_compute. reflexivity.
  - vm_compute. reflexivity.
  - by apply Forall_forall.
  - vm_compute. reflexivity.
  - exists b'. split_and!; [exact E1|exact E2| |exact E4|exact E5].
    rewrite E3. unfold b_end. cbn [b_addr b_data]. unfold size_of. rewrite length_replicate. vm_compute. reflexivity.
Defined.

Definition ex_hashes : list bytes := [bs "h9"].
Definition ex_m1 : memory :=
  match config_push ex_type (1000 * CLOCK_TICKS_PER_MS) [] ex_object with Ok (Some (Some (m, _), _)) => m | _ => [] end.
Definition ex_list : memory * Z := match make_string_list ex_m1 ex_hashes with Ok r => r | Throw _ => ([], 0) end.
Definition ex_merged : ConfigBase :=
  match merge ex_type 1000 ex_fresh (zip ex_hashes ex_data) with Ok (_, b) => b | Throw _ => ex_fresh end.
Definition ex_good : memory * Z := match make_string_list ex_list.1 ex_hashes with Ok r => r | Throw _ => ([], 0) end.

Lemma config_merge_exact_example :
  exists config config_lens value,
    pd_config ex_list.1 16 = Ok config /\ pd_config_lens ex_list.1 16 = Ok config_lens /\
    load_word ex_list.1 ex_list.2 = Ok value /\
    config_merge ex_type 1000 ex_list.1 ex_fresh value config config_lens 1 =
      Ok (Some (ex_good.1, ex_good.2, ex_merged)) /\
    read_string_list ex_good.1 ex_good.2 = Ok ex_hashes /\ data_ (_config ex_merged) = data_ ex_a.
Proof.
  assert (forall h, h ∈ ex_hashes -> char_nul ∉ h) as Hh.
  { apply Forall_forall. apply (bool_decide_eq_true_1 (Forall _ _)). vm_compute. reflexivity. }
  destruct (config_merge_exact ex_type (1000 * CLOCK_TICKS_PER_MS) 1000 [] ex_object ex_seqno ex_data ex_obs ex_pushed.2 ex_m1 16
    ex_hashes ex_list.1 ex_list.2 ex_fresh) as (config & lens & n & value & E1 & E2 & E3 & E4 & _ & E5).
  - exact wf_memory_nil.
  - vm_compute. reflexivity.
  - vm_compute. reflexivity.
  - vm_compute. reflexivity.
  - vm_compute. reflexivity.
  - vm_compute. reflexivity.
  - by apply Forall_forall.
  - vm_compute. reflexivity.
  - vm_compute. reflexivity.
  - assert (n = 1) as ->.
    { assert (pd_n_configs ex_list.1 16 = Ok 1) as E6 by (vm_compute; reflexivity). rewrite E6 in E3. congruence. }
    destruct (E5 ex_hashes ex_merged ex_good.1 ex_good.2) as [E6 E7]; [vm_compute; reflexivity..|].
    exists config, lens, value. split_and!; [exact E1|exact E2|exact E4|exact E6| |vm_compute; reflexivity].
    apply E7; [vm_compute; reflexivity|by apply Forall_forall].
Defined.
