(* ===== verification/GroupListProperties.v ===== *)
(** * Properties of the user's groups, conversations and the group info

    The correctness theorems about [Community], [UserGroupsConfig], [ConvoInfoConfig] and
    [GroupInfoConfig], and about the C functions of [CConfigs], each with an example. *)
From S2P Require Import Prelude OMap Util Internal BtValue ThirdParty Bencode ConfigData.
From S2P Require Import ConfigDataFacts ConfigParse ConfigParseFacts ConfigMessage.
From S2P Require Import MessageFacts MergeFacts ReplayFacts Encrypt.
From S2P Require Import SessionEncrypt Protos Instances ConfigBase BaseFacts Multipart.
From S2P Require Import BaseSync DictField DictFieldFacts UserProfileConfig.
From S2P Require Import ContactsConfig ContactsFacts Community CommunityFacts.
From S2P Require Import UserGroupsConfig UserGroupsFacts GroupRecordFacts.
From S2P Require Import ConvoInfoConfig ConvoInfoFacts ConvoPruneFacts GroupInfoConfig.
From S2P Require Import GroupMembers GroupMembersFacts CStructs CMemory CConfigs.
From S2P Require Import DataProperties MessageProperties SyncProperties FieldProperties.

Section GroupListProperties.
Context `{Oxenc} `{CryptoBox} `{Aead} `{Zstd} `{Protobuf} `{TextEncodings}.

(** community addresses are canonical and survive their URL.  Whatever server URL and room are
    accepted, their canonical forms are accepted again and unchanged; the full URL of a
    community, in the form that is generated and in the older form with /r/ before the room,
    parses back to the canonical server, the room as it was written and the server's key. *)
Theorem community_url_roundtrip u base room r pk :
  canonical_url u = Ok base -> canonical_room room = Ok r -> size_of pk = 32 ->
  canonical_url base = Ok base /\ canonical_room r = Ok r /\
  parse_full_url (make_full_url base room pk) = Ok (base, room, pk) /\
  parse_full_url (base ++ bs "/r/" ++ room ++ qs_pubkey ++ to_hex pk) = Ok (base, room, pk) /\
  set_full_url empty_community (make_full_url base room pk) =
    Ok {| base_url_ := base; room_ := r; localized_room_ := Some room; pubkey_ := pk |}.
Proof.
  intros Hu Hr Hpk. pose proof (parse_url_forms u base room r pk (bs "/") Hu Hr Hpk (or_introl eq_refl)) as Hp.
  split_and!.
  - by apply canonical_url_fix in Hu.
  - by apply canonical_room_fix in Hr.
  - exact Hp.
  - apply (parse_url_forms u base room r pk (bs "/r/") Hu Hr Hpk). by right.
  - unfold set_full_url. change (make_full_url base room pk) with (base ++ bs "/" ++ room ++ qs_pubkey ++ to_hex pk).
    rewrite Hp. cbn [mbind res_bind]. unfold set_room. by rewrite Hr.
Qed.

(** Iterating over the user's groups visits every valid entry exactly once, in order (groups,
    then communities, then legacy groups, each by key), skips what is not valid, never throws and
    ends: with one step per entry to spare the loop returns the complete list. *)
Theorem group_lists_iterate b groups communities legacy_groups fuel :
  (length (all_groups b groups communities legacy_groups) < fuel)%nat ->
  exists it, ug_begin b groups communities legacy_groups = Ok it /\
    ug_collect fuel it = Ok (all_groups b groups communities legacy_groups).
Proof. apply ug_iterate. Qed.

(** groups are stored faithfully.  Storing a group with a valid id succeeds, reading it back gives
    the same group in normal form (name cut to 100 bytes, times in seconds, the secret key only if
    it belongs to the id, auth data only without it, except that auth data stored earlier stays
    next to a secret key), and nothing outside of the group's own dict changes. *)
Theorem group_roundtrip b g pk :
  editable b -> valid_group g -> session_id_to_bytes (gi_id g) "03" = Ok pk ->
  exists b', set_group b g = Ok b' /\ editable b' /\ frame (group_field pk) b b' /\
    get_group b' (gi_id g) = Ok (Some (normal_group b pk g)).
Proof. apply group_set_get. Qed.

(** legacy groups are stored faithfully.  Storing a legacy group succeeds, reading it back gives
    the same members with the same admins, the keys if both are there, the timer if it is
    positive, and the common fields in normal form; nothing outside of its own dict changes. *)
Theorem legacy_group_roundtrip b g pk :
  editable b -> valid_legacy g -> session_id_to_bytes (lg_session_id g) "05" = Ok pk ->
  exists b', set_legacy_group b g = Ok b' /\ editable b' /\ frame (legacy_field pk) b b' /\
    get_legacy_group b' (lg_session_id g) = Ok (Some (normal_legacy g)).
Proof. apply legacy_set_get. Qed.

(** Communities are stored faithfully.  Storing a community with a canonical server, a valid room
    and a key succeeds, looking it up by server and room gives it back, with the capitalization of
    the room and the key of the server; nothing outside of the room's dict and the server's key
    changes. *)
Theorem community_roundtrip b c :
  editable b -> valid_community c ->
  exists b', set_community b c = Ok b' /\ editable b' /\ community_frame (co_comm c) b b' /\
    get_community b' (base_url_ (co_comm c)) (comm_room (co_comm c)) = Ok (Some (normal_community c)).
Proof. apply community_set_get. Qed.

(** erasing a community removes the room, and with its last room the server; every other server
    and every other kind of group or conversation is exactly as it was (for the user's groups and
    for the volatile conversation info, which share the layout). *)
Theorem community_erase_exact b c :
  settled b ->
  erase_community b c = erase_convo_community b c /\
  exists gone b', erase_community b c = Ok (gone, b') /\ settled b' /\
    dict_at b' "o" = erase_room (base_url_ c) (room_ c) (dict_at b "o") /\
    (forall u, u <> base_url_ c -> mfind u (dict_at b' "o") = mfind u (dict_at b "o")) /\
    forall key', key' <> bs "o" -> dict_at b' key' = dict_at b key'.
Proof.
  intros Hs. split; [done|]. destruct (erase_community_data b c Hs) as (gone & b' & E & Hs' & Hd & Ho).
  exists gone, b'. split_and!; try done. intros u Hne. rewrite Hd. unfold erase_room.
  destruct (mfind (base_url_ c) _) as [[si|?|?]|]; try done. destruct (mfind (bs "R") si) as [[rooms|?|?]|]; try done.
  destruct (mfind (room_ c) rooms); [|done]. destruct (merase _ rooms); [by apply mfind_merase_ne|by apply mfind_minsert_ne].
Qed.

(** C26: the status of a stored group.  When the application reads a group, marks it as kicked, invited
    or destroyed and stores it again in an object that can be changed, any number of times, every step succeeds, nothing outside of
    the group changes, and reading the group gives exactly the status that the steps lead to: a
    destroyed group stays destroyed, a kick makes any other one a group the user was kicked from,
    which an invitation ends.  Being kicked or destroyed once erases the secret key and the
    authentication data for good: no later step brings them back, and neither for a group that had
    none before.  So if a removed user had no keys at the beginning, one never has.  The fields of the
    group at the beginning are in the range in which they can be stored. *)
Theorem group_status_safe ops b id pk g :
  editable b -> session_id_to_bytes id "03" = Ok pk -> get_group b id = Ok (Some g) -> valid_group g ->
  exists b' g', foldM (change_status id) b ops = Ok b' /\ editable b' /\ get_group b' id = Ok (Some g') /\
    frame (group_field pk) b b' /\ membership_of g' = foldl next_membership (membership_of g) ops /\
    (existsb removes ops = true \/ no_keys g -> no_keys g') /\
    ((membership_of g <> InGroup -> no_keys g) -> membership_of g' <> InGroup -> no_keys g').
Proof.
  intros Hb Hpk Hg Hv. destruct (change_all_ok id pk ops b g Hb Hpk Hg Hv) as (b' & g' & E & Hb' & Hg' & Hf & Hm & Hk).
  exists b', g'. split_and!; [done..|]. intros Hin Hr. apply Hk. destruct (existsb removes ops) eqn:Eo; [by left|right].
  apply Hin. rewrite Hm in Hr. by eapply still_in.
Qed.

(** C27: the C functions for the status of a group do to the struct what the C++ ones do to the group, but
    for a destroyed group: kicking the user from it in C makes it a group that is not destroyed any
    more, and an invitation then makes it an ordinary group. *)
Theorem c_group_status c g :
  group_from c = Ok g ->
  group_from (ugroups_group_set_invited c) = Ok (mark_invited g) /\
  group_from (ugroups_group_set_destroyed c) = Ok (mark_destroyed g) /\
  (is_destroyed g = false -> group_from (ugroups_group_set_kicked c) = Ok (mark_kicked g)) /\
  (is_destroyed g = true ->
   is_destroyed (mark_invited (mark_kicked g)) = true /\
   ugroups_group_is_destroyed (ugroups_group_set_kicked c) = false /\
   cgi_removed_status (ugroups_group_set_invited (ugroups_group_set_kicked c)) = NOT_REMOVED).
Proof. apply group_status_c. Qed.

(** C34: records go through the C interface unharmed.  Whatever struct of a contact, a group member or
    a legacy group an application stores with the C functions in an object that can be changed (the
    members of a group: with the admin's key), if its id is valid and its numbers are in range,
    storing succeeds, and reading it with the C functions into any struct succeeds and
    gives the same record in the normal form in which it is stored; no text is written beyond the
    end of its array.  Storing and freeing a legacy group stores the same and leaves no members
    behind in the struct. *)
Theorem c_records_roundtrip :
  (forall b a a0 i pk, editable b -> contact_sizes a -> contact_sizes a0 -> contact_from a = Ok i -> valid_contact i ->
     session_id_to_bytes (ci_session_id i) "05" = Ok pk ->
     exists b' a', c_contacts_set b a = Ok (Some b') /\ editable b' /\
       c_contacts_get b' a0 (ci_session_id i) = Ok (Some (Some a')) /\ contact_from a' = Ok (normal_contact i)) /\
  (forall ms a a0 m pk, editable (members_base ms) -> ssorted (pending_send_ids ms) -> member_sizes a -> member_sizes a0 ->
     member_from a = Ok m -> session_id_to_bytes (mem_session_id m) "05" = Ok pk ->
     exists ms' a', groups_members_set ms a = Ok (Some ms') /\ editable (members_base ms') /\
       groups_members_get ms' a0 (mem_session_id m) = Ok (Some (Some a')) /\ member_from a' = Ok (normal_member m)) /\
  (forall b a g pk, editable b -> legacy_sizes a -> legacy_from a = Ok g -> valid_legacy g ->
     session_id_to_bytes (lg_session_id g) "05" = Ok pk ->
     exists b' a', user_groups_set_legacy_group b a = Ok (Some b') /\ editable b' /\
       user_groups_set_free_legacy_group b a = Ok (Some (b', freed a)) /\
       user_groups_get_legacy_group b' (lg_session_id g) = Ok (Some (Some a')) /\ legacy_from a' = Ok (normal_legacy g)).
Proof. split_and!; [exact contact_set_get_c|exact member_set_get_c|exact legacy_set_get_c]. Qed.

(** C32: the C function that takes a community URL apart writes the base URL, the room and the key of the
    server into the arrays of the caller, of the sizes that its header asks for, exactly if the room
    has at most 64 characters; the room of a URL is not checked, and a longer one is written past
    the end of its array. *)
Theorem c_community_url_exact url base_url room_token pubkey base room pk :
  size_of base_url = BASE_URL_MAX_LENGTH + 1 -> size_of room_token = ROOM_MAX_LENGTH + 1 -> size_of pubkey = 32 ->
  parse_full_url url = Ok (base, room, pk) ->
  community_parse_full_url url base_url room_token pubkey =
    if size_of room <=? ROOM_MAX_LENGTH then Ok (Some (c_text base_url base, c_text room_token room, pk)) else Throw UB.
Proof. apply community_parse_full_exact. Qed.

(** C29: a C function that looks up, makes or erases the record of an id that is not valid reports an
    error exactly if the id has at most 190 characters.  With a longer id the text of the error, which
    repeats the id, is written past the end of the buffer for errors.  The functions that catch
    exceptions without a text report an error for every id that is not valid. *)
Theorem c_invalid_id_exact b ms id :
  size_of id < 2 ^ 63 ->
  (check_session_id id "05" <> Ok tt ->
   (forall c, c_contacts_get b c id = invalid_id_result id) /\
   (forall c, c_contacts_get_or_construct b c id = invalid_id_result id) /\
   (forall m, groups_members_get ms m id = invalid_id_result id) /\
   (forall m, groups_members_get_or_construct ms m id = invalid_id_result id) /\
   (forall c, c_convo_get_1to1 b c id = invalid_id_result id) /\
   (forall c, c_convo_get_or_construct_1to1 b c id = invalid_id_result id) /\
   c_convo_erase_1to1 b id = invalid_id_result id /\
   (forall c, c_convo_get_legacy_group b c id = invalid_id_result id) /\
   (forall c, c_convo_get_or_construct_legacy_group b c id = invalid_id_result id) /\
   c_convo_erase_legacy_group b id = invalid_id_result id /\
   user_groups_get_legacy_group b id = invalid_id_result id /\
   user_groups_get_or_construct_legacy_group b id = invalid_id_result id /\
   c_contacts_erase b id = Ok None /\
   (forall change, change_member change ms id = Ok None) /\
   groups_members_erase ms id = Ok None /\
   user_groups_erase_legacy_group b id = Ok None) /\
  (check_session_id id "03" <> Ok tt ->
   (forall c, c_convo_get_group b c id = invalid_id_result id) /\
   (forall c, c_convo_get_or_construct_group b c id = invalid_id_result id) /\
   c_convo_erase_group b id = invalid_id_result id /\
   (forall g, user_groups_get_group b g id = invalid_id_result id) /\
   (forall g, user_groups_get_or_construct_group b g id = invalid_id_result id) /\
   user_groups_erase_group b id = Ok None).
Proof.
  intros Hs. split; intros E%check_id_invalid; split_and!; intros; invalid_id E.
Qed.

(** An application can erase members of a legacy group while it iterates over them.  A loop that
    takes the next member until there is none and erases those it chooses visits every member
    exactly once, in order, whichever ones it erases; it never uses an iterator that is not valid, and
    exactly the chosen members are gone afterwards. *)
Theorem legacy_members_iteration group members choose :
  cl_internal group = Some members -> msorted members ->
  exists it, ugroups_legacy_members_begin group = Ok it /\
    erase_members (S (length members)) choose members it =
      Ok (members, filter (fun e => choose e = false) members).
Proof.
  intros Hi Hs. unfold ugroups_legacy_members_begin, internal_members. rewrite Hi. eexists. split; [done|].
  apply (erase_members_between choose members []); [done|by left|lia].
Qed.

(** a conversation reads back as it was stored, with one exception for the time it was last read:
    a time that is not older than the stored one is ignored if it is more than 30 days ago (then
    the stored one stays, 0 if there is none).  The same for one-to-one conversations, groups and
    legacy groups; nothing outside of the conversation's own dict changes. *)
Theorem convo_roundtrip k now b c pk :
  editable b -> in_int64 (last_read (kc_base c) * CLOCK_TICKS_PER_MS) = true ->
  session_id_to_bytes (kc_id c) (kind_prefix k) = Ok pk ->
  exists b', set_kind k now b c = Ok b' /\ editable b' /\ frame (kind_field k pk) b b' /\
    get_or_construct_kind k b' (kc_id c) =
    Ok {| kc_base := stored_convo now (get_integer b (sub_field (kind_field k pk) "r")) (kc_base c); kc_id := kc_id c |}.
Proof. apply convo_set_get. Qed.

(** C25: pruning removes the stale conversations and nothing else.  The conversations after pruning
    are, in order, those before it except for the one-to-one conversations, communities and legacy
    groups that were last read before the cutoff and are not marked unread (groups always stay);
    pruning never throws, and the conversations that remain have kept their data.  The servers and
    rooms of the communities are in the data under their canonical names, as every setter stores
    them; the object can be changed, and is dirty or holds no empty sets and dicts. *)
Theorem convo_prune_exact now b prune cutoff :
  settled b -> canonical_servers (dict_at b "o") -> prune_cutoff now prune = Ok cutoff ->
  exists b', prune_stale now b prune = Ok b' /\ settled b' /\
    list_convos b true true true true = Ok (all_convos b true true true true) /\
    list_convos b' true true true true = Ok (filter (keeps cutoff) (all_convos b true true true true)).
Proof.
  intros Hs Hc Hcut. destruct (prune_stale_ok now b prune cutoff Hs Hc Hcut) as (b' & E & Hs' & Ha).
  exists b'. rewrite <- Ha, !list_convos_ok by (apply Hs || apply Hs'). done.
Qed.

(** C28: the group info refines a record of its fields.  The operations are those whose times, in
    seconds, milliseconds or microseconds, are before the year 2255 (at most 9000000000000000) and
    whose timer is a number of 64 bits.  On an object that can be changed (an admin's), for every
    sequence of operations, running them and reading the fields gives what the operations do to the
    record, each one changing its own field only, and the object throws exactly where the record
    rejects a name or a description that is too long.  On an object without the secret key (a
    member's, which is never dirty) nothing ever changes: an operation returns only if the record
    would not change either, and otherwise it throws the exception for read-only objects, or the
    one for too long texts where the record rejects them. *)
Theorem group_info_refines ops b :
  Forall valid_op ops ->
  (editable b ->
   match foldM spec_step (info_abs b) ops with
   | Ok s => exists b', foldM info_step b ops = Ok b' /\ editable b' /\ info_abs b' = s
   | Throw e => foldM info_step b ops = Throw e
   end) /\
  (locked b ->
   Forall (fun op =>
     info_step b op = Ok b /\ spec_step (info_abs b) op = Ok (info_abs b) \/
     info_step b op = Throw RuntimeError \/
     info_step b op = Throw InvalidArgument /\ spec_step (info_abs b) op = Throw InvalidArgument) ops).
Proof.
  intros Hops. split; intros Hb; [by apply info_refines|].
  apply (Forall_impl _ _ _ Hops). intros op Hv. by apply info_step_locked.
Qed.
End GroupListProperties.

(** ** Examples *)
#[local] Existing Instances bencode toy_hash toy_sign toy_box toy_aead toy_zstd toy_protobuf hex_encodings.

Definition ex_url : bytes := "HTTPS://Example.com:443".
Definition ex_base_url : bytes := "https://example.com".
Definition ex_comm_key : bytes := replicate 32 "k"%char.

Lemma community_url_roundtrip_example :
  parse_full_url (make_full_url ex_base_url "SudokuRoom" ex_comm_key) = Ok (ex_base_url, bs "SudokuRoom", ex_comm_key).
Proof. by apply (community_url_roundtrip ex_url ex_base_url "SudokuRoom" "sudokuroom" ex_comm_key). Defined.

Definition ex_base_group : base_group_info :=
  {| bg_priority := 3; bg_joined_at := 1700000000000; bg_notifications := notify_mentions_only;
     bg_mute_until := 0; bg_name := "Group"; bg_invited := true |}.
Lemma ex_base_group_valid : valid_base ex_base_group.
Proof. by constructor. Qed.

(** A group whose id is the key of its secret key. *)
Definition ex_seed : bytes := replicate 32 "s"%char.
Definition ex_group_sk : bytes := (ed_seed_keypair ex_seed).2.
Definition ex_group_pk : bytes := byte_of 3 :: (ed_seed_keypair ex_seed).1.
Definition ex_group : group_info :=
  {| gi_base := ex_base_group; gi_id := to_hex ex_group_pk; gi_secretkey := ex_group_sk; gi_auth_data := [];
     gi_removed_status := 0 |}.

Lemma group_roundtrip_example :
  exists b', set_group ex_object ex_group = Ok b' /\ editable b' /\ frame (group_field ex_group_pk) ex_object b' /\
    get_group b' (gi_id ex_group) = Ok (Some (normal_group ex_object ex_group_pk ex_group)).
Proof.
  apply (group_roundtrip ex_object ex_group ex_group_pk); [apply ex_object_editable| |by vm_compute].
  constructor; [apply ex_base_group_valid|done|by vm_compute|]. right. by exists ex_seed.
Defined.

Definition ex_legacy : legacy_group_info :=
  {| lg_base := ex_base_group; lg_session_id := ex_sid; lg_enc_pubkey := replicate 32 "p"%char;
     lg_enc_seckey := replicate 32 "q"%char; lg_disappearing_timer := 60; lg_members := [(ex_sid, true)] |}.
Lemma legacy_group_roundtrip_example :
  exists b', set_legacy_group ex_object ex_legacy = Ok b' /\ editable b' /\ frame (legacy_field ex_pk) ex_object b' /\
    get_legacy_group b' ex_sid = Ok (Some (normal_legacy ex_legacy)).
Proof.
  apply (legacy_group_roundtrip ex_object ex_legacy ex_pk); [apply ex_object_editable| |by vm_compute].
  constructor; [apply ex_base_group_valid|done|by apply msortedb_spec|].
  apply Forall_singleton. exists ex_pk. by vm_compute.
Defined.

Definition ex_community : community_info :=
  {| co_base := ex_base_group;
     co_comm := {| base_url_ := ex_base_url; room_ := bs "sudoku"; localized_room_ := Some (bs "Sudoku");
                   pubkey_ := ex_comm_key |} |}.
Lemma community_roundtrip_example :
  exists b', set_community ex_object ex_community = Ok b' /\ editable b' /\
    community_frame (co_comm ex_community) ex_object b' /\
    get_community b' ex_base_url "Sudoku" = Ok (Some (normal_community ex_community)).
Proof.
  apply (community_roundtrip ex_object ex_community); [apply ex_object_editable|].
  constructor; [apply ex_base_group_valid|by vm_compute..].
Defined.

(** Conversations: one read long ago, one marked unread, a room. *)
Definition ex_now : Z := 1700000000 * 1000000000.
Definition ex_convo (unread : bool) (t : Z) (id : bytes) : keyed_convo :=
  {| kc_base := {| last_read := t; unread := unread |}; kc_id := id |}.
Definition ex_convo_comm : convo_community :=
  {| cc_base := {| last_read := 1699999999999; unread := false |}; cc_comm := co_comm ex_community |}.
Definition ex_sid2 : bytes := "05" ++ replicate 64 "b"%char.
Definition or_object (r : res ConfigBase) : ConfigBase := match r with Ok b => b | Throw _ => ex_object end.
(** Stored a while before [ex_now]. *)
Definition ex_convos : ConfigBase :=
  or_object (b ← set_1to1 1600000000000000000 ex_object (ex_convo false 1600000000000 ex_sid);
             b ← set_1to1 1600000000000000000 b (ex_convo true 1600000000000 ex_sid2);
             set_convo_community ex_now b ex_convo_comm).

Lemma ex_convos_settled : settled ex_convos.
Proof.
  split; [split|by left]; [by eexists; vm_compute; reflexivity|].
  let d := eval vm_compute in (data_of ex_convos) in change (data_of ex_convos) with d. wf_concrete.
Qed.
Lemma ex_convos_canonical : canonical_servers (dict_at ex_convos "o").
Proof.
  let d := eval vm_compute in (dict_at ex_convos "o") in change (dict_at ex_convos "o") with d.
  apply Forall_singleton. split; [by vm_compute|]. apply Forall_singleton. by vm_compute.
Qed.

Lemma convo_prune_exact_example :
  exists b', prune_stale ex_now ex_convos PRUNE_HIGH = Ok b' /\ settled b' /\
    list_convos ex_convos true true true true = Ok (all_convos ex_convos true true true true) /\
    list_convos b' true true true true =
      Ok (filter (keeps (1700000000000 - PRUNE_HIGH)) (all_convos ex_convos true true true true)).
Proof.
  apply (convo_prune_exact ex_now ex_convos PRUNE_HIGH (1700000000000 - PRUNE_HIGH));
    [apply ex_convos_settled|apply ex_convos_canonical|by vm_compute].
Defined.

Lemma convo_roundtrip_example :
  exists b', set_kind KOneToOne ex_now ex_object (ex_convo true 1699999999999 ex_sid) = Ok b' /\ editable b' /\
    frame (kind_field KOneToOne ex_pk) ex_object b' /\
    get_or_construct_kind KOneToOne b' ex_sid = Ok (ex_convo true 1699999999999 ex_sid).
Proof.
  apply (convo_roundtrip KOneToOne ex_now ex_object (ex_convo true 1699999999999 ex_sid) ex_pk);
    [apply ex_object_editable|done|by vm_compute].
Defined.

Lemma community_erase_exact_example :
  exists gone b', erase_community ex_convos (co_comm ex_community) = Ok (gone, b') /\ dict_at b' "o" = [].
Proof.
  destruct (community_erase_exact ex_convos (co_comm ex_community) ex_convos_settled)
    as (_ & gone & b' & E & _ & Hd & _). exists gone, b'. split; [done|]. rewrite Hd. by vm_compute.
Defined.

Lemma group_lists_iterate_example :
  exists it, ug_begin ex_convos true true true = Ok it /\
    ug_collect 10 it = Ok (all_groups ex_convos true true true).
Proof. apply (group_lists_iterate ex_convos true true true 10). vm_compute. lia. Defined.

Definition ex_status_ops : list status_op := [OpKicked; OpInvited; OpDestroyed; OpKicked; OpInvited].
Lemma group_status_safe_example :
  exists b b' g', set_group ex_object ex_group = Ok b /\ foldM (change_status (gi_id ex_group)) b ex_status_ops = Ok b' /\
    get_group b' (gi_id ex_group) = Ok (Some g') /\ membership_of g' = Destroyed /\ no_keys g'.
Proof.
  assert (Hv : valid_group ex_group).
  { constructor; [apply ex_base_group_valid|done|by vm_compute|]. right. by exists ex_seed. }
  destruct (group_set_get ex_object ex_group ex_group_pk ex_object_editable Hv) as (b & Es & Hb & _ & Eg); [by vm_compute|].
  destruct (group_status_safe ex_status_ops b (gi_id ex_group) ex_group_pk _ Hb ltac:(by vm_compute) Eg (normal_group_valid _ _ _ Hv))
    as (b' & g' & E & _ & Hg' & _ & Hm & Hk & _).
  exists b, b', g'. split_and!; [exact Es|exact E|exact Hg'|by rewrite Hm|]. apply Hk. by left.
Defined.

Definition ex_ops : list info_op :=
  [SetName "Chess"; SetDescriptionTruncated "A club"; SetCreated 1700000000000; SetExpiry 3600; SetPic "http://x" ex_key;
   SetName []; Destroy].
(** A member's object: it has the public key only, and every setter that has something to change throws. *)
Definition ex_member_info : ConfigBase :=
  match Info.new_info 0 (ed_seed_keypair ex_seed).1 None None with Ok (b, _) => b | Throw _ => ex_object end.
Lemma ex_member_info_locked : locked ex_member_info.
Proof. split; vm_compute; [reflexivity|discriminate]. Qed.
Example member_info_throws :
  map (info_step ex_member_info) [SetName "Super Group!"; SetExpiry 60; Destroy; SetName (replicate 101 "x"%char)] =
    [Throw RuntimeError; Throw RuntimeError; Throw RuntimeError; Throw InvalidArgument] /\
  info_step ex_member_info (SetName []) = Ok ex_member_info.
Proof. by vm_compute. Qed.

Lemma group_info_refines_example :
  match foldM spec_step (info_abs ex_object) ex_ops with
  | Ok s => exists b', foldM info_step ex_object ex_ops = Ok b' /\ editable b' /\ info_abs b' = s
  | Throw e => foldM info_step ex_object ex_ops = Throw e
  end /\
  Forall (fun op => info_step ex_member_info op = Ok ex_member_info \/ exists e, info_step ex_member_info op = Throw e) ex_ops.
Proof.
  assert (Forall valid_op ex_ops) as Hv by (repeat (apply Forall_cons; split; [done|]); by apply Forall_nil).
  split.
  - apply (group_info_refines ex_ops ex_object Hv). apply ex_object_editable.
  - eapply Forall_impl; [apply (group_info_refines ex_ops ex_member_info Hv); apply ex_member_info_locked|].
    intros op [[? _]|[?|[? _]]]; [by left|right; by eexists..].
Defined.

Definition ex_legacy_struct : ugroups_legacy_group_info :=
  with_internal zero_legacy_group [(bs "a", true); (bs "b", false); (bs "c", false); (bs "d", true)].
Lemma legacy_members_iteration_example :
  exists it, ugroups_legacy_members_begin ex_legacy_struct = Ok it /\
    erase_members 5 (fun e => bool_decide (e.1 = bs "b" \/ e.1 = bs "c"))
      [(bs "a", true); (bs "b", false); (bs "c", false); (bs "d", true)] it =
    Ok ([(bs "a", true); (bs "b", false); (bs "c", false); (bs "d", true)], [(bs "a", true); (bs "d", true)]).
Proof.
  destruct (legacy_members_iteration ex_legacy_struct _ (fun e => bool_decide (e.1 = bs "b" \/ e.1 = bs "c")) eq_refl)
    as (it & E1 & E2).
  - apply msortedb_spec. vm_compute. reflexivity.
  - exists it. split; [exact E1|]. etransitivity; [exact E2|]. vm_compute. reflexivity.
Defined.

Definition ex_stored_struct : contacts_contact :=
  {| cc_session_id := bs "05" ++ replicate 64 "a"%char ++ [char_nul]; cc_name := bs "Joe" ++ zeros 98;
     cc_nickname := zeros 101; cc_profile_pic := {| pp_url := zeros 224; pp_key := zeros 32 |};
     cc_approved := true; cc_approved_me := false; cc_blocked := true; cc_priority := 3;
     cc_notifications := notify_all; cc_mute_until := 0; cc_exp_mode := exp_after_read; cc_exp_seconds := 30;
     cc_created := 1700000000 |}.
Lemma c_records_roundtrip_example :
  exists b' a', c_contacts_set ex_object ex_stored_struct = Ok (Some b') /\
    c_contacts_get b' ex_struct (bs "05" ++ replicate 64 "a"%char) = Ok (Some (Some a')) /\
    ci_name <$> contact_from a' = Ok (bs "Joe").
Proof.
  destruct c_records_roundtrip as [Hc _].
  destruct (Hc ex_object ex_stored_struct ex_struct
    (match contact_from ex_stored_struct with Ok i => i | Throw _ => ex_c_contact end)
    (match session_id_to_bytes (bs "05" ++ replicate 64 "a"%char) "05" with Ok pk => pk | Throw _ => [] end))
    as (b' & a' & E1 & _ & E2 & E3).
  - apply ex_object_editable.
  - repeat split; reflexivity.
  - repeat split; reflexivity.
  - vm_compute. reflexivity.
  - clear Hc. constructor; vm_compute; split; (discriminate || reflexivity).
  - vm_compute. reflexivity.
  - exists b', a'. split; [exact E1|]. split; [exact E2|]. rewrite E3. vm_compute. reflexivity.
Defined.

Definition ex_long_id : bytes := replicate 191 "0"%char.
Lemma c_invalid_id_exact_example :
  c_contacts_get ex_object ex_struct ex_long_id = Throw UB /\
  c_contacts_get ex_object ex_struct (bs "05") = Ok None /\
  c_contacts_erase ex_object ex_long_id = Ok None.
Proof.
  pose (ms := {| members_base := ex_object; pending_send_ids := [] |}).
  assert (check_session_id ex_long_id "05" <> Ok tt) as H1 by (vm_compute; discriminate).
  assert (check_session_id (bs "05") "05" <> Ok tt) as H2 by (vm_compute; discriminate).
  destruct (proj1 (c_invalid_id_exact ex_object ms ex_long_id ltac:(reflexivity)) H1)
    as (Hg & _ & _ & _ & _ & _ & _ & _ & _ & _ & _ & _ & He & _).
  destruct (proj1 (c_invalid_id_exact ex_object ms (bs "05") ltac:(reflexivity)) H2) as (Hs & _).
  split; [exact (Hg ex_struct)|]. split; [exact (Hs ex_struct)|exact He].
Defined.

Definition ex_destroyed_struct : ugroups_group_info :=
  {| cgi_base := base_into empty_base_group; cgi_id := bs "03" ++ replicate 64 "a"%char ++ [char_nul]; cgi_name := zeros 101;
     cgi_have_secretkey := false; cgi_secretkey := zeros 64; cgi_have_auth_data := false; cgi_auth_data := zeros 100;
     cgi_removed_status := GROUP_DESTROYED |}.
Definition ex_destroyed_group : group_info :=
  match group_from ex_destroyed_struct with Ok g => g | Throw _ => ex_group end.
Lemma c_group_status_example :
  is_destroyed (mark_invited (mark_kicked ex_destroyed_group)) = true /\
  ugroups_group_is_destroyed (ugroups_group_set_kicked ex_destroyed_struct) = false /\
  cgi_removed_status (ugroups_group_set_invited (ugroups_group_set_kicked ex_destroyed_struct)) = NOT_REMOVED.
Proof. apply (c_group_status ex_destroyed_struct ex_destroyed_group); reflexivity. Defined.

Definition ex_room_url (n : nat) : bytes :=
  bs "https://example.org/" ++ replicate n "r"%char ++ qs_pubkey ++ replicate 64 "a"%char.
Lemma c_community_url_exact_example :
  community_parse_full_url (ex_room_url 64) (zeros 268) (zeros 65) (zeros 32) =
    Ok (Some (c_text (zeros 268) (bs "https://example.org"), c_text (zeros 65) (replicate 64 "r"%char), replicate 32 (byte_of 170))) /\
  community_parse_full_url (ex_room_url 65) (zeros 268) (zeros 65) (zeros 32) = Throw UB.
Proof.
  split.
  - apply (c_community_url_exact (ex_room_url 64) (zeros 268) (zeros 65) (zeros 32) (bs "https://example.org")
      (replicate 64 "r"%char) (replicate 32 (byte_of 170))); vm_compute; reflexivity.
  - apply (c_community_url_exact (ex_room_url 65) (zeros 268) (zeros 65) (zeros 32) (bs "https://example.org")
      (replicate 65 "r"%char) (replicate 32 (byte_of 170))); vm_compute; reflexivity.
Defined.
