(* ===== verification/GroupProperties.v ===== *)
(** * Properties of groups

    The correctness theorems about [MultiEncrypt], [GroupKeys] and [GroupMessages], each with an
    example. *)
From S2P Require Import Prelude OMap Util Internal BtValue ThirdParty Bencode ConfigData ConfigParse.
From S2P Require Import ConfigMessage Encrypt SessionEncrypt Protos Instances ConfigBase Multipart.
From S2P Require Import BaseSync MultiEncrypt DictField UserProfileConfig ContactsConfig GroupMembers.
From S2P Require Import GroupKeys GroupKeysFacts MultiFacts GroupMessages GroupLoadFacts.
From S2P Require Import GroupLoadFacts DictFieldFacts UserProfileConfig ContactsFacts GroupMembersFacts.
From S2P Require Import DataProperties MessageProperties SyncProperties FieldProperties.

Section GroupProperties.
Context `{Oxenc} `{X25519} `{Aead} `{Zstd} `{Protobuf} `{TextEncodings} `{Randombytes}.

(** C16: expiry drops exactly what the reference says.  On a sorted key list [remove_expired]
    drops the longest prefix of obsolete keys (a key is obsolete when the first key of the next
    generation became more than [KEY_EXPIRY] older than the newest key), so never the newest key,
    and forgets the messages of generations before the first key that is left. *)
Theorem expiry_exact k :
  keys_sorted (keys_ k) -> Forall (fun j => time_ok (ki_timestamp j) = true) (keys_ k) ->
  exists k', remove_expired k = Ok k' /\ keys_ k' = unexpired_keys (keys_ k) /\
    last (keys_ k') = last (keys_ k) /\
    active_msgs_ k' = kept_active (unexpired_keys (keys_ k)) (active_msgs_ k).
Proof.
  intros Hs Ht. rewrite remove_expired_spec by done. eexists. split_and!; [done|done| |done].
  by apply unexpired_last.
Qed.

(** adding a key.  [insert_key] always succeeds on a well-formed object and keeps it well formed
    (keys sorted by generation, time and bytes, no key twice in a generation, message hashes only
    for generations that are kept); nothing but the new key is added, and every key of the newest
    generation, the new one included, is there afterwards. *)
Theorem insert_key_invariant k h i :
  keys_wf k -> key_ok i ->
  exists k', insert_key k h i = Ok k' /\ keys_wf k' /\
    (forall j, j ∈ keys_ k' -> j = i \/ j ∈ keys_ k) /\
    (forall j, j ∈ i :: keys_ k -> (forall x, x ∈ i :: keys_ k -> ki_generation x <= ki_generation j) ->
       key_id j ∈ key_id <$> keys_ k').
Proof.
  intros Hw Hi. exists (insert_spec k h i). split_and!.
  - by apply insert_key_spec.
  - by apply insert_spec_wf.
  - apply insert_spec_incl.
  - intros j. by apply insert_spec_newest.
Qed.

(** The hash of a message stays active if its generation does. *)
Lemma kept_active_hash l first g h a :
  head l = Some first -> ki_generation first <= g -> exists hs, (g, hs) ∈ kept_active l (activate g h a) /\ h ∈ hs.
Proof.
  destruct l as [|x l]; [done|]. intros [= ->] Hg. exists (sinsert h (value_or (mfind g a) [])). split.
  - cbn. apply list_elem_of_filter. split; [done|]. apply mfind_In. unfold activate. rewrite mfind_minsert. by rewrite keqb_refl.
  - apply sinsert_In. by left.
Qed.

(** C15: the order in which key messages arrive does not matter, but for the times of keys that arrive
    with two different ones.  For keys whose times are within [KEY_EXPIRY] of each other, adding them
    (with the hashes of their messages) in two different orders succeeds and gives the same keys by
    generation and bytes, the same active message hashes and the same rest of the object.  In each
    order the list is the old one with the new keys, each at the time it had in the first message
    that brought it; if no key comes with two times, the two objects are equal. *)
Theorem keys_any_order u k l1 l2 :
  compatible u -> keys_wf k -> (forall j, j ∈ keys_ k -> j ∈ u) -> (forall hi, hi ∈ l1 -> hi.2 ∈ u) ->
  l1 ≡ₚ l2 ->
  exists k1 k2, insert_all_keys k l1 = Ok k1 /\ insert_all_keys k l2 = Ok k2 /\
    keys_ k1 ≡ₚ keys_ k ++ fresh_keys k l1.*2 /\ keys_ k2 ≡ₚ keys_ k ++ fresh_keys k l2.*2 /\
    key_id <$> keys_ k1 ≡ₚ key_id <$> keys_ k2 /\
    k2 = set_key_list k1 (keys_ k2) (active_msgs_ k1) (needs_dump_ k1) /\ (one_time u -> k1 = k2).
Proof. intros Hu Hw Hk Hl Hp. exact (insert_all_keys_perm u k l1 l2 Hu (conj Hw Hk) Hl Hp). Qed.

(** C14: a new key reaches everybody.  The message [rekey] issues depends only on the members, the
    generation and the group's secret.  Loading it, the admin who issued it has nothing pending
    any more and encrypts with the new key.  A member (provided no other entry of the message opens
    under the member's key) finds the new key and inserts it as [insert_key] does, and info and members
    get the updated keys; if no key of the member is of a later generation the new key is then in the
    list (an old key may be dropped as stale or lapsed).  A user for whom no entry opens gets no key
    and drops lapsed ones; such a user keeps the hash of the message only if there are keys left
    whose generations do not all come after it: a user without keys has no active hashes at all.
    The objects are well formed (keys in order, times that the clock has, a generation that has not
    overflowed), members and users have the public key of the group only and nothing pending. *)
Theorem rekey_reaches gseed k g conf k' g' hash ts :
  size_of gseed = 32 -> group_admin gseed k -> keys_wf k -> time_ok ts = true ->
  rekey k g = Ok (conf, k', g') -> 0 <= pending_gen_ k' ->
  exists mems, let m := rekey_message gseed (mem_session_id <$> mems) (pending_gen_ k') in
    members_list (members g) = Ok mems /\ conf = key_config gseed m /\ pending_key_ k' = km_key m /\
    (forall g2, exists k2,
       load_key_message k' hash conf ts g2 = Ok (true, k2, share_keys g2 (group_keys k2)) /\
       keys_wf k2 /\ has_pending k2 = false /\ group_enc_key k2 = Ok (km_key m)) /\
    (forall useed r g2 ks, group_user gseed useed r -> keys_wf r -> has_pending r = false ->
       user_key gseed useed = Ok ks ->
       ((exists mem, mem ∈ mems /\ session_id_pk (mem_session_id mem) "05" = Ok (x_pubkey useed)) ->
        opens_only ks (km_nonce m) (km_entries m) (km_key m) ->
        let r' := insert_spec r hash (new_key_of m ts (km_key m)) in
        load_key_message r hash conf ts g2 = Ok (true, r', share_keys g2 (group_keys r')) /\
        ((forall x, x ∈ keys_ r -> ki_generation x <= km_gen m) ->
         key_id (new_key_of m ts (km_key m)) ∈ key_id <$> keys_ r')) /\
       ((forall e, e ∈ km_entries m -> decrypt_multi_impl e ks (km_nonce m) = None) ->
        exists r', load_key_message r hash conf ts g2 = Ok (false, r', g2) /\
          keys_ r' = unexpired_keys (keys_ r) /\
          active_msgs_ r' = kept_active (keys_ r') (activate (km_gen m) hash (active_msgs_ r)) /\
          (keys_ r = [] -> active_msgs_ r' = []) /\
          (forall first, head (keys_ r') = Some first -> ki_generation first <= km_gen m ->
             exists hashes, (km_gen m, hashes) ∈ active_msgs_ r' /\ hash ∈ hashes))).
Proof.
  intros Hs Ha Hw Ht Hr Hpos. destruct (rekey_inv gseed Hs k g conf k' g' Ha Hr) as (mems & gen & Hm & Hg & Hi & Hc & Hk' & He).
  subst k'. cbn [pending_gen_ set_pending pending_key_] in *. exists mems. set (m := rekey_message _ _ _) in *.
  assert (good_message m) as Hgood by (by apply rekey_message_good). subst conf. split_and!; [done..| |].
  - intros g2. destruct (own_message gseed Hs k m hash ts g2) as (k2 & ? & ? & ? & _ & ?); [done..|]. by exists k2.
  - intros useed r g2 ks Hu Hwr Hp Hks. split.
    + intros (mem & Hin & Hpk) Ho. split; [by apply (member_message gseed Hs useed _ _ _ _ _ ks); eauto|].
      intros Hnew. apply insert_spec_newest; [done|by left|].
      intros x [->|Hx]%elem_of_cons; [done|by apply Hnew].
    + intros Hn. destruct (outsider_message gseed Hs useed r m hash ts g2 ks) as (r' & ? & Hkr & Har); [done..|].
      exists r'. rewrite Hkr. split_and!; [done..| |].
      * intros E. by rewrite Har, E.
      * intros first Hf Hge. rewrite Har. by apply (kept_active_hash _ first).
Qed.

(** A group message arrives.  What a member encrypts (any non-empty message up to the size
    limit, compressed or not, padded or not) is a multiple of the padding long, and whoever holds
    the key it was encrypted with, and no other key that opens it, decrypts it to the same
    plaintext and the author's session id. *)
Theorem group_message_roundtrip useed gpk k r key pt compress padding nonce :
  size_of useed = 32 -> user_ed25519_sk k = (ed_seed_keypair useed).2 ->
  sig_pk k = Some gpk -> sig_pk r = Some gpk -> group_enc_key k = Ok key -> key ∈ group_keys r ->
  size_of nonce = 24 -> pt <> [] -> size_of pt <= MAX_PLAINTEXT_MESSAGE_SIZE ->
  exists c, encrypt_message k pt compress padding nonce = Ok c /\
    (1 < padding -> size_of c mod padding = 0) /\
    (opens_alone r (drop 24 c) nonce key ->
     decrypt_message r c = Ok (bs "05" ++ to_hex (x_pubkey useed), pt)).
Proof. apply group_message_ok. Qed.

(** A dump of the group keys restores them: loading it into a fresh object gives the same keys,
    the same messages per generation and the same pending key. *)
Theorem keys_dump_roundtrip k0 k :
  keys_ k0 = [] -> active_msgs_ k0 = [] -> pending_key_config_ k0 = [] -> keys_dumpable k ->
  exists k', keys_load_dump k0 (keys_make_dump k) = Ok k' /\ keys_ k' = keys_ k /\
    active_msgs_ k' = active_msgs_ k /\ pending_config k' = pending_config k /\
    pending_key k' = pending_key k /\ group_keys k' = group_keys k /\ group_enc_key k' = group_enc_key k.
Proof.
  intros Ek Ea Ep0 Hk. exists (restored k0 k). rewrite load_make_dump by done.
  unfold restored. destruct (has_pending k) eqn:Ep;
    unfold pending_config, pending_key, group_keys, group_enc_key, has_pending in *; cbn; rewrite ?Ep0, ?Ep; done.
Qed.

(** encryption for several recipients.  Every recipient decrypts the own message (the only
    message, or the one at the recipient's position), provided no other entry opens under the
    recipient's key.  The overload for Ed25519 keys does not make up a nonce, though: called with
    its default argument it throws. *)
Theorem multi_roundtrip a b ms rs domain nonce pad rn random out i m :
  size_of a = 32 -> size_of b = 32 ->
  encrypt_for_multiple_simple ms rs a (scalarmult_base a) domain (Some nonce) pad rn random = Ok out ->
  (if (length ms =? 1)%nat then ms !! 0%nat else ms !! i) = Some m -> rs !! i = Some (scalarmult_base b) ->
  (exists cs key, encrypt_for_multiple ms rs nonce a (scalarmult_base a) domain false = Ok cs /\
     encrypt_multi_key b (scalarmult_base b) (scalarmult_base a) false domain = Ok key /\
     (opens_only key nonce (cs ++ junk_entries ms pad (size_of cs) random) m ->
      decrypt_for_multiple_simple out b (scalarmult_base b) (scalarmult_base a) domain = Ok (Some m))) /\
  (forall sk, size_of sk = 64 -> is_Some (ed_pk_to_curve25519 (drop 32 sk)) ->
     encrypt_for_multiple_simple_ed ms rs sk domain [] pad rn random = Throw InvalidArgument).
Proof.
  intros Ha Hb He Hm Hr. split; [by apply (multi_simple_ok a b ms rs domain nonce pad rn random out i)|].
  intros sk. apply multi_default_nonce.
Qed.

(** group members are stored faithfully.  Storing a member with a valid session id succeeds and
    reading it back gives the member in normal form (an admin has no invitation, negative statuses
    read as zero, only an invited member who is not promoted has a supplement), which has the same
    status; the member is marked as pending exactly when the invitation or promotion is still to
    be sent, and nobody else's pending mark or data changes. *)
Theorem member_roundtrip ms m pk :
  editable (members_base ms) -> valid_member m -> ssorted (pending_send_ids ms) ->
  session_id_to_bytes (mem_session_id m) "05" = Ok pk ->
  exists ms', members_set ms m = Ok ms' /\ editable (members_base ms') /\
    members_get ms' (mem_session_id m) = Ok (Some (normal_member m)) /\
    normal_member (normal_member m) = normal_member m /\
    (0 <= mem_invite_status m -> 0 <= mem_promotion_status m -> 0 <= mem_removed_status m ->
     get_status ms' (normal_member m) = get_status ms' m) /\
    frame (member_field pk) (members_base ms) (members_base ms') /\
    (forall sid, has_pending_send ms' sid =
       if decide (sid = mem_session_id m) then not_sent m else has_pending_send ms sid).
Proof.
  intros Hb Hm Hs Hpk. destruct (members_set_get ms m pk Hb Hm Hs Hpk) as (ms' & ? & ? & ? & ? & ?).
  exists ms'. split_and!; try done; [apply normal_member_idem|apply stored_status].
Qed.
End GroupProperties.

(** ** Examples *)

#[local] Existing Instances bencode toy_hash toy_sign toy_box toy_exchange toy_aead toy_zstd
  toy_protobuf hex_encodings toy_random.

Abbreviation ex_seed := (bs "ABCDEFGHIJKLMNOPQRSTUVWXYZ012345").
Abbreviation ex_useed := (bs "abcdefghijklmnopqrstuvwxyz678900").

Definition ex_ki (n : Z) (ts : Z) : key_info :=
  {| ki_key := replicate 32 (byte_of n); ki_timestamp := ts; ki_generation := n |}.

(** An admin's and a member's object of the same group. *)
Definition ex_admin : Keys :=
  {| user_ed25519_sk := (ed_seed_keypair ex_useed).2;
     keys_ := [ex_ki 1 1000; ex_ki 2 2000]; active_msgs_ := [(1, [bs "m1"]); (2, [bs "m2"; bs "m3"])];
     pending_key_ := zero_hash; pending_key_config_ := []; pending_gen_ := -1; needs_dump_ := false;
     verifier_ := Some (ed_verifier (group_pk ex_seed));
     signer_ := Some (ed_signer (group_sk ex_seed));
     sig_sk := Some (group_sk ex_seed); sig_pk := Some (group_pk ex_seed) |}.
Definition ex_member : Keys :=
  set_sig ex_admin (verifier_ ex_admin) None None (sig_pk ex_admin).

Definition ex_member_sid : bytes := bs "05" ++ hex_encode ex_useed.
Definition ex_group : group_configs :=
  {| info := ex_object;
     members := on_base {| members_base := ex_object; pending_send_ids := [] |}
       (set_data ex_object [(bs "m", VDict [(byte_of 5 :: ex_useed, VDict [(bs "n", VScalar (SStr "x"))])])]) |}.

Lemma ex_admin_wf : keys_wf ex_admin.
Proof.
  constructor; try (by repeat constructor).
  - apply (bool_decide_unpack (NoDup (key_id <$> keys_ ex_admin))). by vm_compute.
Qed.

Lemma ex_member_wf : keys_wf ex_member.
Proof. destruct ex_admin_wf. by constructor. Qed.

Lemma ex_admin_group : group_admin ex_seed ex_admin.
Proof. done. Qed.
Lemma ex_member_group : group_user ex_seed ex_useed ex_member.
Proof. done. Qed.

Lemma expiry_exact_example :
  exists k', remove_expired ex_admin = Ok k' /\ keys_ k' = [ex_ki 1 1000; ex_ki 2 2000] /\
    last (keys_ k') = last (keys_ ex_admin) /\
    active_msgs_ k' = active_msgs_ ex_admin.
Proof. apply (expiry_exact ex_admin); [apply ex_admin_wf|by repeat constructor]. Defined.

Lemma insert_key_invariant_example :
  exists k', insert_key ex_admin "m4" (ex_ki 3 3000) = Ok k' /\ keys_wf k' /\
    (forall j, j ∈ keys_ k' -> j = ex_ki 3 3000 \/ j ∈ keys_ ex_admin) /\
    (forall j, j ∈ ex_ki 3 3000 :: keys_ ex_admin ->
       (forall x, x ∈ ex_ki 3 3000 :: keys_ ex_admin -> ki_generation x <= ki_generation j) ->
       key_id j ∈ key_id <$> keys_ k').
Proof. apply (insert_key_invariant ex_admin "m4" (ex_ki 3 3000)); [apply ex_admin_wf|done]. Defined.

(** The key of generation 4 comes in two messages, with two times, as when two admins make the same new
    key. *)
Definition ex_arrivals : list (bytes * key_info) :=
  [(bs "m4", ex_ki 3 3000); (bs "m5", ex_ki 4 2500); (bs "m6", ex_ki 4 2700)].
Lemma ex_compatible : compatible ([ex_ki 1 1000; ex_ki 2 2000] ++ ex_arrivals.*2).
Proof.
  constructor; [by repeat constructor|]. intros a b Ha Hb. cbn in Ha, Hb. rewrite !elem_of_cons, elem_of_nil in Ha, Hb. unfold KEY_EXPIRY.
  destruct Ha as [->|[->|[->|[->|[->|[]]]]]], Hb as [->|[->|[->|[->|[->|[]]]]]]; cbn; lia.
Qed.

Lemma keys_any_order_example :
  exists k1 k2, insert_all_keys ex_admin ex_arrivals = Ok k1 /\ insert_all_keys ex_admin (rev ex_arrivals) = Ok k2 /\
    key_id <$> keys_ k1 ≡ₚ key_id <$> keys_ k2 /\ active_msgs_ k1 = active_msgs_ k2 /\
    ex_ki 4 2500 ∈ keys_ k1 /\ ex_ki 4 2700 ∈ keys_ k2.
Proof.
  destruct (keys_any_order ([ex_ki 1 1000; ex_ki 2 2000] ++ ex_arrivals.*2) ex_admin ex_arrivals (rev ex_arrivals))
    as (k1 & k2 & E1 & E2 & P1 & P2 & Hids & Hr & _).
  - apply ex_compatible.
  - apply ex_admin_wf.
  - intros j. cbn [keys_ ex_admin]. rewrite elem_of_app. tauto.
  - intros hi Hhi. apply elem_of_app. right. by apply list_elem_of_fmap_2.
  - apply Permutation_rev.
  - exists k1, k2. split_and!; [exact E1|exact E2|exact Hids|by rewrite Hr| |].
    + rewrite P1. apply (bool_decide_eq_true_1 (_ ∈ _)). vm_compute. reflexivity.
    + rewrite P2. apply (bool_decide_eq_true_1 (_ ∈ _)). vm_compute. reflexivity.
Defined.
(** The times matter for the order in the list: with another key of the generation between the two times,
    the two objects encrypt with different keys. *)
Example first_time_orders_keys :
  let other := {| ki_key := replicate 32 (byte_of 9); ki_timestamp := 2600; ki_generation := 4 |} in
  let enc l := (k ← insert_all_keys ex_admin l; group_enc_key k) in
  enc ((bs "m7", other) :: ex_arrivals) = Ok (ki_key other) /\
  enc ((bs "m7", other) :: rev ex_arrivals) = Ok (ki_key (ex_ki 4 2700)).
Proof. vm_compute. by split. Qed.

(** ** A new key for a group of one member *)

Definition ex_mems : list member :=
  Eval vm_compute in match members_list (members ex_group) with Ok l => l | Throw _ => [] end.
Definition ex_message : key_message :=
  Eval vm_compute in rekey_message ex_seed (mem_session_id <$> ex_mems) 3.
Definition ex_user_key : bytes :=
  Eval vm_compute in match user_key ex_seed ex_useed with Ok k => k | Throw _ => [] end.

Lemma ex_opens_only :
  opens_only ex_user_key (km_nonce ex_message) (km_entries ex_message) (km_key ex_message).
Proof.
  assert (Forall (fun c => decrypt_multi_impl c ex_user_key (km_nonce ex_message) = None \/
                           decrypt_multi_impl c ex_user_key (km_nonce ex_message) = Some (km_key ex_message))
            (km_entries ex_message)) as Hf.
  { match goal with |- ?P => apply (bool_decide_unpack P) end. by vm_compute. }
  rewrite Forall_forall in Hf. intros c p Hc Hp. destruct (Hf c Hc); congruence.
Qed.

Lemma rekey_reaches_example :
  exists conf k' g' r', rekey ex_admin ex_group = Ok (conf, k', g') /\
    load_key_message ex_member "h" conf 3000 ex_group = Ok (true, r', share_keys ex_group (group_keys r')) /\
    last (keys_ r') = Some (new_key_of ex_message 3000 (km_key ex_message)).
Proof.
  destruct (rekey ex_admin ex_group) as [[[conf k'] g']|e] eqn:E; [|by vm_compute in E].
  assert (pending_gen_ k' = 3) as Hg.
  { assert ((fun r => match r with Ok (_, k, _) => pending_gen_ k | Throw _ => 0 end) (rekey ex_admin ex_group) = 3)
      as H3 by (by vm_compute). by rewrite E in H3. }
  destruct (rekey_reaches ex_seed ex_admin ex_group conf k' g' "h" 3000) as (mems & Hm & _ & _ & _ & Hmem);
    [done|apply ex_admin_group|apply ex_admin_wf|done|done|lia|].
  rewrite Hg in Hmem. assert (mems = ex_mems) as ->.
  { assert (members_list (members ex_group) = Ok ex_mems) as Hx by (by vm_compute). congruence. }
  exists conf, k', g'. eexists. split; [done|].
  destruct (Hmem ex_useed ex_member ex_group ex_user_key) as [Hload _];
    [apply ex_member_group|apply ex_member_wf|done|by vm_compute|].
  split; [apply Hload|by vm_compute].
  - eexists. split; [by left|by vm_compute].
  - change (rekey_message ex_seed (mem_session_id <$> ex_mems) 3) with ex_message. apply ex_opens_only.
Defined.

Lemma group_message_roundtrip_example :
  exists c, encrypt_message ex_admin "hello" true 256 (replicate 24 "n"%char) = Ok c /\
    size_of c mod 256 = 0 /\ decrypt_message ex_member c = Ok (ex_member_sid, bs "hello").
Proof.
  destruct (group_message_roundtrip ex_useed (group_pk ex_seed) ex_admin ex_member
              (replicate 32 (byte_of 2)) "hello" true 256 (replicate 24 "n"%char)) as (c & Hc & Hp & Hd);
    [done|done|done|done|done|by left|done|done|done|].
  exists c. split; [done|]. split; [by apply Hp|]. rewrite Hd; [by vm_compute|].
  assert (encrypt_message ex_admin "hello" true 256 (replicate 24 "n"%char) = Ok c -> 
          c = match encrypt_message ex_admin "hello" true 256 (replicate 24 "n"%char) with Ok x => x | Throw _ => [] end)
    as Hx by (by intros ->).
  rewrite (Hx Hc). intros key' Hk' Hne. change (group_keys ex_member) with
    [replicate 32 (byte_of 2); replicate 32 (byte_of 1)] in Hk'.
  rewrite !elem_of_cons, elem_of_nil in Hk'. destruct Hk' as [->|[->|[]]]; [done|by vm_compute].
Defined.

Lemma ex_admin_dumpable : keys_dumpable (set_pending ex_admin (replicate 32 "p"%char) "config" 3 true).
Proof.
  constructor; [|by repeat constructor|done]. destruct ex_admin_wf. by constructor.
Qed.

Lemma keys_dump_roundtrip_example :
  let k := set_pending ex_admin (replicate 32 "p"%char) "config" 3 true in
  exists k', keys_load_dump (blank_keys ex_useed) (keys_make_dump k) = Ok k' /\ keys_ k' = keys_ k /\
    active_msgs_ k' = active_msgs_ k /\ pending_config k' = pending_config k /\
    pending_key k' = pending_key k /\ group_keys k' = group_keys k /\ group_enc_key k' = group_enc_key k.
Proof.
  by apply (keys_dump_roundtrip (blank_keys ex_useed)
              (set_pending ex_admin (replicate 32 "p"%char) "config" 3 true)); [..|apply ex_admin_dumpable].
Defined.

(** Two messages for two recipients. *)
Definition ex_multi : res bytes :=
  encrypt_for_multiple_simple [bs "one"; bs "two"] [scalarmult_base ex_useed; scalarmult_base ex_key2]
    ex_seed (scalarmult_base ex_seed) "domain" (Some (replicate 24 "n"%char)) 0 [] (fun _ _ => []).

Lemma multi_roundtrip_example :
  exists out, ex_multi = Ok out /\
    decrypt_for_multiple_simple out ex_key2 (scalarmult_base ex_key2) (scalarmult_base ex_seed) "domain" =
      Ok (Some (bs "two")).
Proof.
  destruct ex_multi as [out|] eqn:E; [|by vm_compute in E]. exists out. split; [done|].
  destruct (multi_roundtrip ex_seed ex_key2 [bs "one"; bs "two"]
              [scalarmult_base ex_useed; scalarmult_base ex_key2] "domain" (replicate 24 "n"%char) 0 []
              (fun _ _ => []) out 1 "two") as [(cs & key & Hc & Hk & Hd) _]; [done|done|apply E|done|done|].
  apply Hd. vm_compute in Hc, Hk. injection Hc as <-. injection Hk as <-. intros c p Hin Hp.
  apply elem_of_app in Hin as [Hin|Hin]; [|by apply not_elem_of_nil in Hin].
  rewrite !elem_of_cons in Hin. destruct Hin as [->|[->|Hin]]; [by vm_compute in Hp|vm_compute in Hp; by injection Hp as <-|].
  by apply not_elem_of_nil in Hin.
Defined.

Definition ex_new_member : member :=
  {| mem_session_id := ex_member_sid; mem_name := "Bob"; mem_profile_picture := empty_pic;
     mem_admin := false; mem_supplement := true; mem_invite_status := STATUS_NOT_SENT;
     mem_promotion_status := 0; mem_removed_status := 0 |}.

Lemma member_roundtrip_example :
  exists ms', members_set {| members_base := ex_object; pending_send_ids := [] |} ex_new_member = Ok ms' /\
    members_get ms' ex_member_sid = Ok (Some ex_new_member) /\ get_status ms' ex_new_member = invite_sending.
Proof.
  destruct (member_roundtrip {| members_base := ex_object; pending_send_ids := [] |} ex_new_member
              (byte_of 5 :: ex_useed)) as (ms' & Hs & _ & Hg & _ & _ & _ & Hp);
    [apply ex_object_editable|by constructor|constructor|by vm_compute|].
  exists ms'. split; [done|]. split; [done|]. unfold get_status. cbn -[has_pending_send ex_member_sid].
  by rewrite Hp, decide_True.
Defined.
