(* ===== verification/OnionProperties.v ===== *)
(** * Properties of onion requests *)
From S2P Require Import Prelude OMap Util Internal BtValue ThirdParty Bencode Protos Instances.
From S2P Require Import OnionRequest OnionFacts.

(** ** Libraries for the examples *)

#[refine] Definition toy_gcm : AesGcm := {|
  gcm_aes256_encrypt k iv m := (m, fit 16 k);
  gcm_aes256_decrypt k iv c := (c, fit 16 k);
  hmacsha256 k m := fit 32 (k ++ m)
|}.
Proof.
  - done.
  - intros. cbn [snd]. by rewrite fit_size.
  - done.
Defined.

(** Objects of strings and numbers, as bencoded dicts. *)
Definition bt_of_json (j : json) : option bt_value :=
  match j with JStr s => Some (BStr s) | JInt z => Some (BInt z) | _ => None end.
Definition json_of_bt (v : bt_value) : json :=
  match v with BStr s => JStr s | BInt z => JInt z | _ => JNull end.
Fixpoint bt_of_fields (l : list (bytes * json)) : option bt_dict :=
  match l with
  | [] => Some []
  | (k, j) :: l =>
      match bt_of_json j, bt_of_fields l with Some v, Some d => Some ((k, v) :: d) | _, _ => None end
  end.

Lemma bt_of_flat l :
  flat_object l ->
  exists d, bt_of_fields l = Some d /\ bt_wf_dict d /\ ((fun kv => (kv.1, json_of_bt kv.2)) <$> d) = l.
Proof.
  intros [Hs Hf]. enough (exists d, bt_of_fields l = Some d /\ Forall (fun kv => bt_wf kv.2) d /\ d.*1 = l.*1 /\
    ((fun kv => (kv.1, json_of_bt kv.2)) <$> d) = l) as (d & E & Hw & Hk & Hb).
  { exists d. split_and!; try done. split; [|done]. unfold msorted in *. by rewrite Hk. }
  clear Hs. induction Hf as [|[k j] l [_ Hj] _ (d & E & Hw & Hk & Hb)]; [by exists []|]. cbn in Hj |- *.
  assert (forall v, bt_of_json j = Some v -> bt_wf v /\ json_of_bt v = j) as Hv.
  { intros v Ev. destruct j; try done; injection Ev as <-; [|done]. split; [|done].
    unfold in_int64 in Hj. apply andb_true_iff in Hj as [? ?]. bool_prop.
    cbn [bt_wf]. unfold INT64_MAX, UINT64_MAX, INT64_MIN in *. lia. }
  destruct (bt_of_json j) as [v|] eqn:Ev; [|by destruct j]. destruct (Hv v eq_refl) as [Hwv Hjv].
  rewrite E. exists ((k, v) :: d). split_and!; [done|by apply Forall_cons|cbn; by rewrite Hk|cbn; by rewrite Hb, Hjv].
Qed.

#[refine] Definition toy_json : Json := {|
  json_dump j := match j with
                 | JObj l => match bt_of_fields l with
                             | Some d => Ok (@bt_dict_print bencode d)
                             | None => Throw JsonError
                             end
                 | _ => Throw JsonError
                 end;
  json_parse s := match @bt_dict_parse bencode s with
                  | Some (d, true) => Ok (JObj ((fun kv => (kv.1, json_of_bt kv.2)) <$> d))
                  | _ => Throw JsonError
                  end
|}.
Proof.
  intros l Hl. destruct (bt_of_flat l Hl) as (d & E & Hw & Hb). rewrite E. eexists. split; [done|].
  pose proof (@bt_dict_parse_print bencode d [] Hw) as Hp. rewrite app_nil_r in Hp. rewrite Hp. by rewrite Hb.
Defined.

(** ** Requests and replies *)

(** C20: a request that the builder makes for a service node reaches it unchanged: if the nodes of
    the path and then the destination decrypt it one after the other (each with its own key, each
    one parsing what the one before it decrypted), each node of the path is told the Ed25519 key
    of the next one, the destination decrypts exactly the payload with its length and an empty
    control object, and whatever it replies (encrypted with any encryption the request chose) is
    decrypted by the response parser made from the builder.  The only condition is that the
    request is not longer than what the parsers accept. *)
Theorem onion_request_roundtrip `{TextEncodings} `{X25519} `{Aead} `{AesGcm} `{Json}
    b rnd path ed sk payload max_size :
  (forall i, random_ok (rnd i)) -> max_size < 2 ^ 32 ->
  hops_ b = hop_pubkeys <$> path -> Forall (fun h => size_of h.2 = 32) path ->
  host_ b = None -> ed25519_public_key_ b = Some ed -> destination_x25519_public_key b = Some (scalarmult_base sk) ->
  size_of sk = 32 ->
  exists req b' s, build b rnd payload = Ok (req, b') /\ json_parse s = Ok control_object /\
    let last_p := {| op_enc := hop_keys sk true; op_enc_type := enc_type b; op_remote_pk := eph_pubkey (rnd 0%nat);
                     op_payload := encode_size (size_of payload) ++ payload ++ s |} in
    (size_of req <= max_size ->
     exists ps, travel max_size ((snd <$> path) ++ [sk]) req = Ok ps /\ last ps = Some last_p /\
       ((fun p => route_of (op_payload p)) <$> ps) =
         tail (((fun h => Some (to_hex h.1)) <$> path) ++ [Some (to_hex ed)]) ++ [None]) /\
    (forall r reply, random_ok r ->
       exists c rp, encrypt_reply last_p r reply = Ok c /\ new_response_parser b' = Ok rp /\
         decrypt_response rp c = Ok reply).
Proof. apply node_request. Qed.

Definition ex_random (i : nat) : hop_random :=
  {| eph_seckey := replicate 32 (byte_of (Z.of_nat i + 65)); gcm_iv := replicate 12 (byte_of 1);
     xchacha_nonce := replicate 24 (byte_of 2) |}.
Definition ex_hops : list (bytes * bytes) :=
  [(replicate 32 (byte_of 1), replicate 32 (byte_of 11)); (replicate 32 (byte_of 2), replicate 32 (byte_of 12))].
Definition ex_node_key : bytes := replicate 32 (byte_of 13).
Definition ex_onion_builder : Builder :=
  {| enc_type := xchacha20; destination_x25519_public_key := Some ex_node_key; final_hop_x25519_keypair := None;
     hops_ := ex_hops; ed25519_public_key_ := Some (replicate 32 (byte_of 3)); host_ := None; endpoint_ := None;
     protocol_ := None; method_ := None; port_ := None; headers_ := None |}.

Lemma onion_request_roundtrip_example :
  exists req b' s, @build hex_encodings toy_hash toy_sign toy_box toy_exchange toy_aead toy_gcm toy_json
      ex_onion_builder ex_random "hello" = Ok (req, b') /\ @json_parse toy_json s = Ok control_object.
Proof.
  destruct (@onion_request_roundtrip hex_encodings toy_hash toy_sign toy_box toy_exchange toy_aead toy_gcm toy_json
    ex_onion_builder ex_random ex_hops (replicate 32 (byte_of 3)) ex_node_key "hello" 10485760)
    as (req & b' & s & E & Hs & _); try (vm_compute; done).
  - repeat constructor.
  - exists req, b', s. done.
Defined.
