(* ===== verification/Blinding.v ===== *)
(** * Blinded ids and XEd25519

    Key conversion and signing helpers of [src/ed25519.cpp], [src/curve25519.cpp] and
    [src/hash.cpp], XEd25519 signatures ([src/xed25519.cpp]) and the blinded ids of community
    servers ([src/blinding.cpp]). *)
From Stdlib Require Import Znumtheory.
From S2P Require Import Prelude OMap Util Internal Bencode ThirdParty SessionEncrypt.

(** ** libsodium's arithmetic *)

(** The sign bit of the encoding of a point is the top bit of the last byte. *)
Definition on_sign_byte (f : Z -> Z) (b : bytes) : bytes :=
  take 31 b ++ ((fun c => byte_of (f (byte_val c))) <$> take 1 (drop 31 b)) ++ drop 32 b.
Definition clear_sign : bytes -> bytes := on_sign_byte (fun v => Z.land v 127).
Definition flip_sign : bytes -> bytes := on_sign_byte (fun v => Z.lxor v 128).
Definition sign_bit (b : bytes) : bool :=
  match b !! 31%nat with Some c => Z.testbit (byte_val c) 7 | None => false end.

(** [crypto_core_ed25519_*] and [crypto_scalarmult_ed25519_*]: scalars are numbers modulo the order
    [L] of the main subgroup, whose points are the multiples of the base point.
    - [scalar_of] is the value of a 32-byte scalar, [point z] the encoding of [z] times the base;
    - [scalarmult_noclamp] fails on points outside the subgroup and if the result is neutral;
    - [scalarmult_ed25519_base] first clears and sets the bits of an X25519 secret key ([clamp]);
    - a signature [R || S] of [M] is valid for the key [A] if [S B = R + H(R || A || M) A] for
      points that are not neutral. *)
Class EdCurve `{CryptoBox} := {
  group_order : Z;
  scalar_of : bytes -> Z;
  point : Z -> bytes;
  sha512 : bytes -> bytes;
  clamp : bytes -> bytes;
  scalar_reduce : bytes -> bytes;
  scalar_mul : bytes -> bytes -> bytes;
  scalar_add : bytes -> bytes -> bytes;
  scalar_negate : bytes -> bytes;
  scalarmult_noclamp : bytes -> bytes -> option bytes;
  scalarmult_base_noclamp : bytes -> bytes;
  generichash_personal : Z -> bytes -> bytes -> bytes;
  group_order_prime : prime group_order;
  point_size : forall z, size_of (point z) = 32;
  point_mod : forall z, point (z mod group_order) = point z;
  point_negate : forall z, z mod group_order <> 0 -> point (- z) = flip_sign (point z);
  scalar_mul_of : forall a b, scalar_of (scalar_mul a b) = (scalar_of a * scalar_of b) mod group_order;
  scalar_add_of : forall a b, scalar_of (scalar_add a b) = (scalar_of a + scalar_of b) mod group_order;
  scalar_negate_of : forall a, scalar_of (scalar_negate a) = (- scalar_of a) mod group_order;
  scalar_add_size : forall a b, size_of (scalar_add a b) = 32;
  scalar_reduce_size : forall h, size_of (scalar_reduce h) = 32;
  scalar_negate_size : forall a, size_of (scalar_negate a) = 32;
  base_noclamp_of : forall a, scalarmult_base_noclamp a = point (scalar_of a);
  noclamp_of : forall a z, (scalar_of a * z) mod group_order <> 0 ->
    scalarmult_noclamp a (point z) = Some (point (scalar_of a * z));
  ed_seed_point : forall seed, size_of seed = 32 ->
    (ed_seed_keypair seed).1 = point (scalar_of (ed_sk_to_curve25519 (ed_seed_keypair seed).2)) /\
    scalar_of (ed_sk_to_curve25519 (ed_seed_keypair seed).2) mod group_order <> 0;
  ed_sk_to_curve25519_seed : forall sk, ed_sk_to_curve25519 sk = ed_sk_to_curve25519 (take 32 sk);
  ed_seed_clamped : forall sk, clamp (ed_sk_to_curve25519 sk) = ed_sk_to_curve25519 sk;
  ed_verify_equation : forall r a S m, r mod group_order <> 0 -> a mod group_order <> 0 ->
    size_of S = 32 ->
    scalar_of S = (r + scalar_of (scalar_reduce (sha512 (point r ++ point a ++ m))) * a) mod group_order ->
    ed_verify (point r ++ S) m (point a) = true
}.

(** The field of 2^255-19 ([crypto_internal_fe25519_*]).  An encoding is read without its sign bit,
    and [crypto_sign_ed25519_pk_to_curve25519] maps the [y] of a point to [(1 + y) / (1 - y)]. *)
Class Fe25519 `{EdCurve} := {
  fe : Type;
  fe_0 : fe; fe_1 : fe;
  fe_add : fe -> fe -> fe; fe_sub : fe -> fe -> fe; fe_mul : fe -> fe -> fe; fe_opp : fe -> fe;
  fe_invert : fe -> fe;
  fe_frombytes : bytes -> fe;
  fe_tobytes : fe -> bytes;
  fe_ring : ring_theory fe_0 fe_1 fe_add fe_mul fe_sub fe_opp eq;
  fe_inverse : forall x, x <> fe_0 -> fe_mul x (fe_invert x) = fe_1;
  fe_two : fe_add fe_1 fe_1 <> fe_0;
  fe_point : forall z, fe_tobytes (fe_frombytes (point z)) = clear_sign (point z);
  pk_to_curve_map : forall p x, ed_pk_to_curve25519 p = Some x ->
    fe_frombytes p <> fe_1 /\
    fe_mul (fe_frombytes x) (fe_sub fe_1 (fe_frombytes p)) = fe_add fe_1 (fe_frombytes p)
}.

(** ** Keys and hashes *)

Section Keys.
Context `{CryptoBox}.

(** [ed25519::ed25519_key_pair(seed)] *)
Definition ed25519_key_pair (ed25519_seed : bytes) : res (bytes * bytes) :=
  _ ← throw_if (negb (size_of ed25519_seed =? 32)) InvalidArgument;
  Ok (ed_seed_keypair ed25519_seed).

Definition seed_for_ed_privkey (ed25519_privkey : bytes) : res bytes :=
  if (size_of ed25519_privkey =? 32) || (size_of ed25519_privkey =? 64) then Ok (take 32 ed25519_privkey)
  else Throw InvalidArgument.

(** [ed25519::sign] and [ed25519::verify] *)
Definition ed25519_sign (ed25519_privkey msg : bytes) : res bytes :=
  sk ← full_privkey ed25519_privkey;
  Ok (ed_sign msg sk).
Definition ed25519_verify (sig pubkey msg : bytes) : res bool :=
  _ ← throw_if (negb (size_of sig =? 64)) InvalidArgument;
  _ ← throw_if (negb (size_of pubkey =? 32)) InvalidArgument;
  Ok (ed_verify sig msg pubkey).

(** [curve25519::to_curve25519_pubkey] and [to_curve25519_seckey] *)
Definition to_curve25519_pubkey (ed25519_pubkey : bytes) : res bytes :=
  _ ← throw_if (negb (size_of ed25519_pubkey =? 32)) InvalidArgument;
  match ed_pk_to_curve25519 ed25519_pubkey with Some pk => Ok pk | None => Throw RuntimeError end.
Definition to_curve25519_seckey (ed25519_seckey : bytes) : res bytes :=
  _ ← throw_if (negb (size_of ed25519_seckey =? 64)) InvalidArgument;
  Ok (ed_sk_to_curve25519 ed25519_seckey).

(** [hash::hash(size, msg, key)] *)
Definition session_hash (size : Z) (msg : bytes) (key : option bytes) : res bytes :=
  _ ← throw_if ((size <? 16) || (64 <? size)) InvalidArgument;
  _ ← throw_if (match key with Some k => 64 <? size_of k | None => false end) InvalidArgument;
  Ok (generichash size (value_or key []) msg).
End Keys.

(** ** XEd25519 *)

(** [constant_time_conditional_assign(f, g, b)] of [include/session/xed25519.hpp]: [f] becomes [g] if
    [b], with the same operations in both cases. *)
Definition xor_arrays (f g : bytes) : bytes :=
  zip_with (fun c d => byte_of (Z.lxor (byte_val c) (byte_val d))) f g.
Definition constant_time_conditional_assign (f g : bytes) (b : bool) : bytes :=
  let x := xor_arrays f g in
  let mask := (- (if b then 1 else 0)) mod 256 in
  let x := (fun c => byte_of (Z.land (byte_val c) mask)) <$> x in
  xor_arrays f x.

Section XEd25519.
Context `{Fe25519}.

Definition fe25519_montx_to_edy (u : fe) : fe := fe_mul (fe_sub u fe_1) (fe_invert (fe_add u fe_1)).

(** [xed25519::pubkey] *)
Definition xed_pubkey (curve25519_pubkey : bytes) : bytes :=
  fe_tobytes (fe25519_montx_to_edy (fe_frombytes curve25519_pubkey)).

Definition XED_PERSONALITY : bytes := "xed25519signatur".
Definition xed25519_compute_r (a msg random : bytes) : bytes :=
  scalar_reduce (generichash_personal 64 XED_PERSONALITY (a ++ msg ++ random)).
Definition ed25519_hram (R A msg : bytes) : bytes := scalar_reduce (sha512 (R ++ A ++ msg)).

(** [S = r + H(R || A || M) a] *)
Definition sign_scalar (r a A msg : bytes) : bytes :=
  scalar_add (scalar_mul (ed25519_hram (scalarmult_base_noclamp r) A msg) a) r.

(** [xed25519::sign]; [random] are the random bytes that go into [r]. *)
Definition xed_sign (curve25519_privkey msg random : bytes) : bytes :=
  let A := scalarmult_base_noclamp (clamp curve25519_privkey) in
  let negative := sign_bit A in
  let A := clear_sign A in
  let a := constant_time_conditional_assign curve25519_privkey (scalar_negate curve25519_privkey) negative in
  let r := xed25519_compute_r a msg random in
  scalarmult_base_noclamp r ++ sign_scalar r a A msg.

(** [xed25519::verify] *)
Definition xed_verify (signature curve25519_pubkey msg : bytes) : bool :=
  ed_verify signature msg (xed_pubkey curve25519_pubkey).
End XEd25519.

(** ** Blinded ids *)

Inductive Platform := android | desktop | ios.

Section Blinding.
Context `{Fe25519} `{TextEncodings}.

Definition blind15_factor (server_pk : bytes) : bytes := scalar_reduce (generichash 64 [] server_pk).
Definition blind25_factor (session_id server_pk : bytes) : bytes :=
  scalar_reduce (generichash 64 [] ((if size_of session_id =? 32 then [byte_of 5] else []) ++ session_id ++ server_pk)).

(** The point times the factor, with a prefix. *)
Definition blind_point (prefix : Z) (k pk : bytes) : res bytes :=
  match scalarmult_noclamp k pk with
  | Some p => Ok (byte_of prefix :: p)
  | None => Throw RuntimeError
  end.
Definition drop_prefix (session_id : bytes) : bytes :=
  if size_of session_id =? 33 then tail session_id else session_id.
Definition blind15_id_impl (session_id server_pk : bytes) : res bytes :=
  blind_point 21 (blind15_factor server_pk) (xed_pubkey (drop_prefix session_id)).
Definition blind25_id_impl (session_id server_pk : bytes) : res bytes :=
  blind_point 37 (blind25_factor session_id server_pk) (xed_pubkey (drop_prefix session_id)).

Definition check_raw_id (session_id server_pk : bytes) : res unit :=
  _ ← (if size_of session_id =? 33 then throw_if (negb (bool_decide (head session_id = Some (byte_of 5)))) InvalidArgument
       else throw_if (negb (size_of session_id =? 32)) InvalidArgument);
  throw_if (negb (size_of server_pk =? 32)) InvalidArgument.
(** [blind15_id] and [blind25_id] of bytes. *)
Definition blind15_id (session_id server_pk : bytes) : res bytes :=
  _ ← check_raw_id session_id server_pk;
  blind15_id_impl (drop_prefix session_id) server_pk.
Definition blind25_id (session_id server_pk : bytes) : res bytes :=
  _ ← check_raw_id session_id server_pk;
  blind25_id_impl session_id server_pk.

Definition check_hex_id (session_id server_pk : bytes) : res unit :=
  _ ← throw_if (negb (size_of session_id =? 66) || negb (is_hex session_id)) InvalidArgument;
  _ ← throw_if (negb (bool_decide (take 2 session_id = bs "05"))) InvalidArgument;
  throw_if (negb (size_of server_pk =? 64) || negb (is_hex server_pk)) InvalidArgument.
(** [blind15_id] of hex texts: the id with either sign.  [blinded.back() ^= 0x80] changes the last
    of 33 bytes. *)
Definition blind15_id_hex (session_id server_pk : bytes) : res (bytes * bytes) :=
  _ ← check_hex_id session_id server_pk;
  blinded ← blind15_id_impl (from_hex session_id) (from_hex server_pk);
  Ok (to_hex blinded, to_hex (take 1 blinded ++ flip_sign (tail blinded))).
Definition blind25_id_hex (session_id server_pk : bytes) : res bytes :=
  _ ← check_hex_id session_id server_pk;
  blinded ← blind25_id_impl (from_hex session_id) (from_hex server_pk);
  Ok (to_hex blinded).

(** [session_id_matches_blinded_id]; reading the first two characters of a shorter id is undefined. *)
Definition session_id_matches_blinded_id (session_id blinded_id server_pk : bytes) : res bool :=
  _ ← throw_if (negb (size_of session_id =? 66) || negb (is_hex session_id)) InvalidArgument;
  _ ← throw_if (negb (bool_decide (take 2 session_id = bs "05"))) InvalidArgument;
  match blinded_id with
  | c0 :: c1 :: _ =>
      _ ← throw_if (negb (bool_decide (c1 = "5"%char)) &&
                    (negb (bool_decide (c0 = "1"%char)) || negb (bool_decide (c0 = "2"%char)))) InvalidArgument;
      _ ← throw_if (negb (size_of server_pk =? 64) || negb (is_hex server_pk)) InvalidArgument;
      if bool_decide (c0 = "1"%char) then
        let! (id1, id2) := blind15_id_hex session_id server_pk in
        Ok (bool_decide (blinded_id = id1) || bool_decide (blinded_id = id2))
      else if bool_decide (c0 = "2"%char) then
        id ← blind25_id_hex session_id server_pk;
        Ok (bool_decide (blinded_id = id))
      else Throw InvalidArgument
  | _ => Throw UB
  end.

(** The session id of an Ed25519 key. *)
Definition session_id_of (ed_pubkey : bytes) : res bytes :=
  match ed_pk_to_curve25519 ed_pubkey with
  | Some x => Ok (byte_of 5 :: x)
  | None => Throw RuntimeError
  end.

(** [blinded15_id_from_ed(ed_pubkey, server_pk, session_id)]: the pointer for the session id may be
    null, and otherwise points to an empty value, which is set. *)
Definition blinded15_id_from_ed (ed_pubkey server_pk : bytes) (session_id : option bytes) : res (bytes * option bytes) :=
  _ ← throw_if (negb (size_of ed_pubkey =? 32)) InvalidArgument;
  _ ← throw_if (negb (size_of server_pk =? 32)) InvalidArgument;
  _ ← throw_if (match session_id with Some id => negb (is_empty id) | None => false end) InvalidArgument;
  session_id ← (match session_id with
                | Some _ => id ← session_id_of ed_pubkey; Ok (Some id)
                | None => Ok None
                end);
  blinded ← blind_point 21 (blind15_factor server_pk) ed_pubkey;
  Ok (blinded, session_id).
(** [blinded25_id_from_ed]: a session id that is given is used as it is. *)
Definition blinded25_id_from_ed (ed_pubkey server_pk : bytes) (session_id : option bytes) : res (bytes * option bytes) :=
  _ ← throw_if (negb (size_of ed_pubkey =? 32)) InvalidArgument;
  _ ← throw_if (negb (size_of server_pk =? 32)) InvalidArgument;
  _ ← throw_if (match session_id with
                | Some id => negb (size_of id =? 0) && negb (size_of id =? 33)
                | None => false
                end) InvalidArgument;
  id ← (if size_of (value_or session_id []) =? 0 then session_id_of ed_pubkey else Ok (value_or session_id []));
  blinded ← blind_point 37 (blind25_factor id server_pk) (clear_sign ed_pubkey);
  Ok (blinded, (fun _ => id) <$> session_id).

(** The blinded key pair (A, a) with the factor that was used. *)
Definition blind15_key_pair (ed25519_sk server_pk : bytes) : res (bytes * bytes * bytes) :=
  sk ← full_privkey ed25519_sk;
  _ ← throw_if (negb (size_of server_pk =? 32)) InvalidArgument;
  let k := blind15_factor server_pk in
  let a := scalar_mul k (ed_sk_to_curve25519 sk) in
  Ok (scalarmult_base_noclamp a, a, k).
Definition blind25_key_pair (ed25519_sk server_pk : bytes) : res (bytes * bytes * bytes) :=
  sk ← full_privkey ed25519_sk;
  _ ← throw_if (negb (size_of server_pk =? 32)) InvalidArgument;
  match ed_pk_to_curve25519 (drop 32 sk) with
  | None => Throw RuntimeError
  | Some X =>
      let k := blind25_factor X server_pk in
      let k := if sign_bit (drop 32 sk) then scalar_negate k else k in
      let a := scalar_mul k (ed_sk_to_curve25519 sk) in
      Ok (scalarmult_base_noclamp a, a, k)
  end.

(** ** Signing with a blinded key *)

Definition VERSION_BLINDING_KEY : bytes := "VersionCheckKey_sig".
Definition HASH_KEY_SEED : bytes := "SessCommBlind25_seed".
Definition HASH_KEY_SIG : bytes := "SessCommBlind25_sig".

Definition blind_version_key_pair (ed25519_sk : bytes) : res (bytes * bytes) :=
  _ ← throw_if (negb (size_of ed25519_sk =? 32) && negb (size_of ed25519_sk =? 64)) InvalidArgument;
  Ok (ed_seed_keypair (generichash 32 VERSION_BLINDING_KEY (take 32 ed25519_sk))).

(** A server key is given as bytes or as hex. *)
Definition server_key (server_pk_in : bytes) : res bytes :=
  if size_of server_pk_in =? 32 then Ok server_pk_in
  else if (size_of server_pk_in =? 64) && is_hex server_pk_in then Ok (from_hex server_pk_in)
  else Throw InvalidArgument.

(** The number [r] of a signature. *)
Definition blind25_nonce (sk A message : bytes) : bytes :=
  let seedhash := generichash 32 HASH_KEY_SEED (take 32 sk) in
  scalar_reduce (generichash 64 HASH_KEY_SIG (seedhash ++ A ++ message)).
Definition blind15_nonce (sk A message : bytes) : bytes :=
  let hrh := sha512 sk in
  scalar_reduce (sha512 (take 32 (drop 32 hrh) ++ A ++ message)).

Definition blind25_sign (ed25519_sk server_pk_in message : bytes) : res bytes :=
  sk ← full_privkey ed25519_sk;
  server_pk ← server_key server_pk_in;
  let! (A, a, _) := blind25_key_pair sk server_pk in
  let r := blind25_nonce sk A message in
  Ok (scalarmult_base_noclamp r ++ sign_scalar r a A message).

Definition blind15_sign (ed25519_sk server_pk_in message : bytes) : res bytes :=
  sk ← full_privkey ed25519_sk;
  server_pk ← server_key server_pk_in;
  let! (A, a, _) := blind15_key_pair sk server_pk in
  let r := blind15_nonce sk A message in
  Ok (scalarmult_base_noclamp r ++ sign_scalar r a A message).

Definition blind_version_sign_request (ed25519_sk : bytes) (timestamp : Z) (method path : bytes) (body : option bytes) :
    res bytes :=
  let! (_, sk) := blind_version_key_pair ed25519_sk in
  ed25519_sign sk (print_int timestamp ++ method ++ path ++ value_or body []).

Definition version_url (platform : Platform) : bytes :=
  bs "/session_version?platform=" ++
  match platform with android => bs "android" | desktop => bs "desktop" | ios => bs "ios" end.
Definition blind_version_sign (ed25519_sk : bytes) (platform : Platform) (timestamp : Z) : res bytes :=
  let! (_, sk) := blind_version_key_pair ed25519_sk in
  ed25519_sign sk (print_int timestamp ++ bs "GET" ++ version_url platform).
End Blinding.
