(* ===== verification/SessionMessages.v ===== *)
(** * Session messages

    The rest of [src/session_encrypt.cpp]: sealed messages, messages between blinded ids, name
    lookups, push notifications, message hashes and encryption with a shared key.  Random values
    are arguments. *)
From S2P Require Import Prelude OMap Util Internal Bencode ThirdParty SessionEncrypt Blinding.

(** Argon2 with the moderate limits and an all-zero salt, which fails if there is not enough memory,
    and [crypto_secretbox_open_easy(ciphertext, nonce, key)]. *)
Class Secretbox := {
  pwhash : bytes -> option bytes;
  secretbox_open : bytes -> bytes -> bytes -> option bytes
}.
Definition SECRETBOX_MACBYTES : Z := 16.

(** ** Sealed messages *)

Section Sealed.
Context `{CryptoBox} `{TextEncodings}.

(** [crypto_box_seal] with the ephemeral key pair of a random seed. *)
Definition box_seal (message pk eph_seed : bytes) : bytes :=
  let '(eph_pk, eph_sk) := box_seed_keypair eph_seed in
  eph_pk ++ box_easy message (generichash 24 [] (eph_pk ++ pk)) pk eph_sk.

Definition encrypt_for_recipient (ed25519_privkey recipient_pubkey message eph_seed : bytes) : res bytes :=
  signed_msg ← sign_for_recipient ed25519_privkey recipient_pubkey message;
  let recipient_pubkey := if size_of recipient_pubkey =? 33 then tail recipient_pubkey else recipient_pubkey in
  Ok (box_seal signed_msg recipient_pubkey eph_seed).

(** The hex text of a session id. *)
Definition sender_session_id (sender_ed_pk : bytes) : res bytes :=
  match ed_pk_to_curve25519 sender_ed_pk with
  | Some x => Ok (bs "05" ++ to_hex x)
  | None => Throw RuntimeError
  end.
Definition decrypt_incoming_session_id (ed25519_privkey ciphertext : bytes) : res (bytes * bytes) :=
  let! (buf, sender_ed_pk) := decrypt_incoming ed25519_privkey ciphertext in
  id ← sender_session_id sender_ed_pk;
  Ok (buf, id).
Definition decrypt_incoming_session_id_x (x25519_pubkey x25519_seckey ciphertext : bytes) : res (bytes * bytes) :=
  let! (buf, sender_ed_pk) := decrypt_incoming_x x25519_pubkey x25519_seckey ciphertext in
  id ← sender_session_id sender_ed_pk;
  Ok (buf, id).
End Sealed.

(** ** Messages between blinded ids *)

Section BlindedMessages.
Context `{Fe25519} `{Aead} `{TextEncodings}.

Definition BLINDED_ENCRYPT_VERSION : Z := 0.

Definition has_prefix (v : Z) (id : bytes) : bool := bool_decide (head id = Some (byte_of v)).

(** [blinded_shared_secret(seed, kA, jB, server_pk, sending)] *)
Definition blinded_shared_secret (seed kA jB server_pk : bytes) (sending : bool) : res bytes :=
  _ ← throw_if (negb (size_of seed =? 64) && negb (size_of seed =? 32)) InvalidArgument;
  _ ← throw_if (negb (size_of server_pk =? 32)) InvalidArgument;
  _ ← throw_if (negb (size_of kA =? 33)) InvalidArgument;
  _ ← throw_if (negb (size_of jB =? 33)) InvalidArgument;
  let! (_, _, k) :=
    (if has_prefix 21 kA && has_prefix 21 jB then blind15_key_pair seed server_pk
     else if has_prefix 37 kA && has_prefix 37 jB then blind25_key_pair seed server_pk
     else Throw InvalidArgument) in
  let blind25 := has_prefix 37 kA in
  let kA := tail kA in
  let jB := tail jB in
  let ka := ed_sk_to_curve25519 seed in
  let ka := if blind25 then scalar_mul ka k else ka in
  match scalarmult_noclamp ka jB with
  | None => Throw RuntimeError
  | Some shared_secret =>
      let sender := if sending then kA else jB in
      let recipient := if sending then jB else kA in
      Ok (generichash 32 [] (shared_secret ++ sender ++ recipient))
  end.

Definition encrypt_for_blinded_recipient (ed25519_privkey server_pk recipient_blinded_id message nonce : bytes) : res bytes :=
  _ ← throw_if (negb (size_of ed25519_privkey =? 64) && negb (size_of ed25519_privkey =? 32)) InvalidArgument;
  _ ← throw_if (negb (size_of server_pk =? 32)) InvalidArgument;
  _ ← throw_if (negb (size_of recipient_blinded_id =? 33)) InvalidArgument;
  let! (blinded_pk, _, _) :=
    (if has_prefix 21 recipient_blinded_id then blind15_key_pair ed25519_privkey server_pk
     else if has_prefix 37 recipient_blinded_id then blind25_key_pair ed25519_privkey server_pk
     else Throw InvalidArgument) in
  let blinded_id := take 1 recipient_blinded_id ++ blinded_pk in
  enc_key ← blinded_shared_secret ed25519_privkey blinded_id recipient_blinded_id server_pk true;
  let pk := if size_of ed25519_privkey =? 64 then drop 32 ed25519_privkey else (ed_seed_keypair ed25519_privkey).1 in
  Ok (byte_of BLINDED_ENCRYPT_VERSION :: aead_encrypt (message ++ pk) nonce enc_key ++ nonce).

(** The blinded id of an Ed25519 key, of the kind that the prefix of another id says. *)
Definition blinded_id_like (id ed_pk server_pk : bytes) (session_id : option bytes) : res bytes :=
  if has_prefix 37 id then let! (b, _) := blinded25_id_from_ed ed_pk server_pk session_id in Ok b
  else let! (b, _) := blinded15_id_from_ed ed_pk server_pk session_id in Ok b.

(** [extracted_sender[31] ^= 0x80] *)
Definition flip_byte_31 (id : bytes) : bytes := flip_sign id.

(** The message and the sender's session id.  Reading the prefix of an empty id is undefined. *)
Definition decrypt_from_blinded_recipient (ed25519_privkey server_pk sender_id recipient_id ciphertext : bytes) :
    res (bytes * bytes) :=
  sk ← full_privkey ed25519_privkey;
  let ed_pk := drop 32 sk in
  _ ← throw_if (size_of ciphertext <? XCHACHA_NPUBBYTES + 1 + XCHACHA_ABYTES) InvalidArgument;
  _ ← throw_if (is_empty recipient_id) UB;
  blinded_id ← blinded_id_like recipient_id ed_pk server_pk None;
  dec_key ← (if bool_decide (sender_id = blinded_id)
             then blinded_shared_secret sk sender_id recipient_id server_pk true
             else blinded_shared_secret sk recipient_id sender_id server_pk false);
  _ ← throw_if (negb (bool_decide (head ciphertext = Some (byte_of BLINDED_ENCRYPT_VERSION)))) InvalidArgument;
  let msg_size := size_of ciphertext - XCHACHA_ABYTES - 1 - XCHACHA_NPUBBYTES in
  _ ← throw_if (msg_size <? 32) InvalidArgument;
  let nonce := drop (Z.to_nat (msg_size + 1 + XCHACHA_ABYTES)) ciphertext in
  match aead_decrypt (take (Z.to_nat (msg_size + XCHACHA_ABYTES)) (tail ciphertext)) nonce dec_key with
  | None => Throw InvalidArgument
  | Some buf =>
      let sender_ed_pk := drop (length buf - 32) buf in
      id ← sender_session_id sender_ed_pk;
      extracted_sender ← blinded_id_like recipient_id sender_ed_pk server_pk (Some []);
      let matched := bool_decide (sender_id = extracted_sender) in
      let matched := matched || (has_prefix 21 extracted_sender && bool_decide (sender_id = flip_byte_31 extracted_sender)) in
      _ ← throw_if (negb matched) RuntimeError;
      Ok (take (length buf - 32) buf, id)
  end.
End BlindedMessages.

(** ** Names, push notifications, hashes *)

Section Others.
Context `{CryptoBox} `{Aead} `{Secretbox} `{TextEncodings}.

Definition decrypt_ons_response (lowercase_name ciphertext : bytes) (nonce : option bytes) : res bytes :=
  match nonce with
  | None =>
      _ ← throw_if (size_of ciphertext <? SECRETBOX_MACBYTES) InvalidArgument;
      match pwhash lowercase_name with
      | None => Throw RuntimeError
      | Some key =>
          match secretbox_open ciphertext (replicate 24 char_nul) key with
          | None => Throw RuntimeError
          | Some msg => Ok (to_hex msg)
          end
      end
  | Some nonce =>
      _ ← throw_if (size_of ciphertext <? XCHACHA_ABYTES) InvalidArgument;
      _ ← throw_if (negb (size_of nonce =? XCHACHA_NPUBBYTES)) InvalidArgument;
      let name_hash := generichash 32 [] lowercase_name in
      let key := generichash 32 name_hash lowercase_name in
      match aead_decrypt ciphertext nonce key with
      | None => Throw RuntimeError
      | Some buf => _ ← throw_if (negb (size_of buf =? 33)) RuntimeError; Ok (to_hex buf)
      end
  end.

(** Null bytes at the end are dropped, unless there is nothing else. *)
Fixpoint drop_end_nulls (rev_buf : bytes) : bytes :=
  match rev_buf with
  | c :: rest => if bool_decide (c = char_nul) then drop_end_nulls rest else rev_buf
  | [] => []
  end.
Definition decrypt_push_notification (payload enc_key : bytes) : res bytes :=
  _ ← throw_if (size_of payload <? XCHACHA_NPUBBYTES + XCHACHA_ABYTES) InvalidArgument;
  _ ← throw_if (negb (size_of enc_key =? 32)) InvalidArgument;
  match aead_decrypt (drop 24 payload) (take 24 payload) enc_key with
  | None => Throw RuntimeError
  | Some buf => Ok (match drop_end_nulls (rev buf) with [] => buf | kept => rev kept end)
  end.

Fixpoint drop_padding (rev_text : bytes) : bytes :=
  match rev_text with
  | c :: rest => if bool_decide (c = "="%char) then drop_padding rest else rev_text
  | [] => []
  end.
Definition compute_hash_blake2b_b64 (parts : list bytes) : bytes :=
  rev (drop_padding (rev (to_base64 (generichash 32 [] (concat parts))))).
Definition compute_message_hash (pubkey_hex : bytes) (ns : Z) (data : bytes) : res bytes :=
  _ ← throw_if (negb (size_of pubkey_hex =? 66)) InvalidArgument;
  let pubkey := from_hex (drop 2 pubkey_hex) in
  let netid := from_hex (take 2 pubkey_hex) in
  let ns_for_hash := if ns =? 0 then [] else print_int ns in
  Ok (compute_hash_blake2b_b64 [netid; pubkey; ns_for_hash; from_base64 data]).

Definition encrypt_xchacha20 (plaintext enc_key nonce : bytes) : res bytes :=
  _ ← throw_if (negb (size_of enc_key =? 32)) InvalidArgument;
  Ok (nonce ++ aead_encrypt plaintext nonce enc_key).
Definition decrypt_xchacha20 (ciphertext enc_key : bytes) : res bytes :=
  _ ← throw_if (size_of ciphertext <? XCHACHA_NPUBBYTES + XCHACHA_ABYTES) InvalidArgument;
  _ ← throw_if (negb (size_of enc_key =? 32)) InvalidArgument;
  match aead_decrypt (drop 24 ciphertext) (take 24 ciphertext) enc_key with
  | None => Throw RuntimeError
  | Some m => Ok m
  end.
End Others.
