(* ===== verification/BlindingFacts.v ===== *)
(** * Facts about blinded ids

    The ways to compute a blinded id agree, signatures made with blinded keys and XEd25519
    signatures are valid, and messages between blinded ids are read back. *)
From Stdlib Require Import Znumtheory Ring.
From S2P Require Import Prelude OMap Util Internal Bencode ThirdParty SessionEncrypt Blinding SessionMessages.

(** ** Signs *)

Lemma byte_sign (c : ascii) :
  if Z.testbit (byte_val c) 7 then byte_of (Z.lxor (byte_val c) 128) = byte_of (Z.land (byte_val c) 127)
  else byte_of (Z.land (byte_val c) 127) = c.
Proof. by destruct c as [[] [] [] [] [] [] [] []]. Qed.

Lemma sign_byte_split (p : bytes) : size_of p = 32 -> exists c, p = take 31 p ++ [c] /\ p !! 31%nat = Some c.
Proof.
  intros Hp. assert (Hl : length p = 32%nat) by (unfold size_of in Hp; lia).
  destruct (lookup_lt_is_Some_2 p 31) as [c Hc]; [lia|]. exists c. split; [|done].
  rewrite <- (take_drop_middle p 31 c Hc) at 1. by rewrite drop_ge by lia.
Qed.
Lemma on_sign_byte_32 f p c :
  size_of p = 32 -> p !! 31%nat = Some c -> on_sign_byte f p = take 31 p ++ [byte_of (f (byte_val c))].
Proof.
  intros Hp Hc. assert (Hl : length p = 32%nat) by (unfold size_of in Hp; lia).
  unfold on_sign_byte. rewrite (drop_ge p 32) by lia. rewrite (drop_S p c 31) by done. done.
Qed.
Lemma clear_sign_spec p : size_of p = 32 -> clear_sign p = if sign_bit p then flip_sign p else p.
Proof.
  intros Hp. destruct (sign_byte_split p Hp) as (c & Es & Ec). unfold clear_sign, flip_sign, sign_bit. rewrite Ec.
  pose proof (byte_sign c) as Hb. rewrite !(on_sign_byte_32 _ p c) by done.
  destruct (Z.testbit _ _); [by rewrite Hb|]. rewrite Hb. by rewrite <- Es.
Qed.

(** The assignment without branches. *)
Lemma lxor_byte (c d : ascii) : 0 <= Z.lxor (byte_val c) (byte_val d) < 256.
Proof.
  pose proof (byte_val_range c) as Hc. pose proof (byte_val_range d) as Hd.
  split; [apply Z.lxor_nonneg; lia|].
  destruct (Z.eq_dec (Z.lxor (byte_val c) (byte_val d)) 0) as [->|Hn]; [lia|].
  apply (Z.log2_lt_pow2 _ 8); [pose proof (proj2 (Z.lxor_nonneg (byte_val c) (byte_val d))); lia|].
  pose proof (Z.log2_lxor (byte_val c) (byte_val d)). pose proof (Z.log2_le_mono (byte_val c) 255).
  pose proof (Z.log2_le_mono (byte_val d) 255). change (Z.log2 255) with 7 in *. lia.
Qed.
Lemma xor_mask_byte (c d : ascii) (b : bool) :
  byte_of (Z.lxor (byte_val c) (byte_val (byte_of (Z.land (byte_val (byte_of (Z.lxor (byte_val c) (byte_val d))))
    ((- (if b then 1 else 0)) mod 256))))) = if b then d else c.
Proof.
  assert (Hr : 0 <= Z.lxor (byte_val c) (byte_val d) < 256) by apply (lxor_byte c d).
  rewrite (byte_val_of (Z.lxor _ _)) by done. destruct b.
  - change ((- (1)) mod 256) with (Z.ones 8). rewrite Z.land_ones, Z.mod_small, byte_val_of by (done || lia).
    by rewrite <- Z.lxor_assoc, Z.lxor_nilpotent, Z.lxor_0_l, byte_of_val.
  - change ((- 0) mod 256) with 0. rewrite Z.land_0_r. change (byte_val (byte_of 0)) with 0. by rewrite Z.lxor_0_r, byte_of_val.
Qed.
Lemma conditional_assign_spec f g b : length f = length g -> constant_time_conditional_assign f g b = if b then g else f.
Proof.
  unfold constant_time_conditional_assign, xor_arrays. revert g.
  induction f as [|c f IH]; intros [|d g] Hl; [by destruct b|done..|].
  cbn [zip_with fmap list_fmap]. rewrite xor_mask_byte, IH by (by injection Hl). by destruct b.
Qed.

Section Curve.
Context `{Fe25519}.
Local Abbreviation L := group_order.

Lemma order_pos : 1 < L.
Proof. destruct group_order_prime. done. Qed.

Lemma point_eq z z' : z mod L = z' mod L -> point z = point z'.
Proof. intros E. by rewrite <- (point_mod z), <- (point_mod z'), E. Qed.

Lemma mul_nonzero a b : a mod L <> 0 -> b mod L <> 0 -> (a * b) mod L <> 0.
Proof.
  pose proof order_pos. intros Ha Hb Hab. apply Z.mod_divide in Hab; [|lia].
  destruct (prime_mult L group_order_prime a b Hab) as [Hd|Hd]; apply Z.mod_divide in Hd; lia || done.
Qed.
Lemma opp_nonzero a : a mod L <> 0 -> (- a) mod L <> 0.
Proof.
  pose proof order_pos. intros Ha Hb. apply Ha. apply Z.mod_divide; [lia|]. apply Z.divide_opp_r, Z.mod_divide; [lia|done].
Qed.

(** The absolute value of a point. *)
Definition abs_scalar (z : Z) : Z := if sign_bit (point z) then - z else z.
Lemma clear_sign_point z : z mod L <> 0 -> clear_sign (point z) = point (abs_scalar z).
Proof.
  intros Hz. rewrite clear_sign_spec by apply point_size. unfold abs_scalar.
  destruct (sign_bit _); [|done]. by rewrite point_negate.
Qed.
Lemma abs_nonzero z : z mod L <> 0 -> abs_scalar z mod L <> 0.
Proof. intros Hz. unfold abs_scalar. destruct (sign_bit _); [by apply opp_nonzero|done]. Qed.

(** ** The Montgomery coordinate *)

Add Ring fe_is_a_ring : fe_ring.

Lemma fe_cancel x y z : z <> fe_0 -> fe_mul x z = fe_mul y z -> x = y.
Proof.
  intros Hz E. transitivity (fe_mul (fe_mul x z) (fe_invert z)).
  - transitivity (fe_mul x (fe_mul z (fe_invert z))); [rewrite fe_inverse by done; ring|ring].
  - rewrite E. transitivity (fe_mul y (fe_mul z (fe_invert z))); [ring|rewrite fe_inverse by done; ring].
Qed.

Lemma montx_to_edy u y :
  y <> fe_1 -> fe_mul u (fe_sub fe_1 y) = fe_add fe_1 y -> fe25519_montx_to_edy u = y.
Proof.
  intros Hy Hu. assert (Hd : fe_sub fe_1 y <> fe_0).
  { intros E. apply Hy. transitivity (fe_sub fe_1 (fe_sub fe_1 y)); [ring|]. rewrite E. ring. }
  assert (Hs : fe_mul (fe_add u fe_1) (fe_sub fe_1 y) = fe_add fe_1 fe_1).
  { transitivity (fe_add (fe_mul u (fe_sub fe_1 y)) (fe_sub fe_1 y)); [ring|]. rewrite Hu. ring. }
  assert (Hu1 : fe_add u fe_1 <> fe_0).
  { intros E. apply fe_two. rewrite <- Hs, E. ring. }
  unfold fe25519_montx_to_edy. apply (fe_cancel _ _ (fe_add u fe_1) Hu1).
  transitivity (fe_mul (fe_sub u fe_1) (fe_mul (fe_add u fe_1) (fe_invert (fe_add u fe_1)))); [ring|].
  rewrite fe_inverse by done. apply (fe_cancel _ _ (fe_sub fe_1 y) Hd).
  transitivity (fe_mul (fe_sub u fe_1) (fe_sub fe_1 y)); [ring|].
  transitivity (fe_sub (fe_mul u (fe_sub fe_1 y)) (fe_sub fe_1 y)); [ring|]. rewrite Hu.
  transitivity (fe_mul y (fe_add fe_1 fe_1)); [ring|]. rewrite <- Hs. ring.
Qed.

(** The Ed25519 key of an X25519 key is the one it was made from, without its sign. *)
Lemma xed_pubkey_spec z x : ed_pk_to_curve25519 (point z) = Some x -> xed_pubkey x = clear_sign (point z).
Proof.
  intros Hx. destruct (pk_to_curve_map _ _ Hx) as [Hy Hu]. unfold xed_pubkey.
  rewrite (montx_to_edy _ (fe_frombytes (point z))) by done. apply fe_point.
Qed.

(** ** Keys from seeds *)

(** The secret scalar of a seed, and the two forms in which a private key is given. *)
Definition secret_scalar (seed : bytes) : Z := scalar_of (ed_sk_to_curve25519 (ed_seed_keypair seed).2).
Definition privkey_of (seed sk : bytes) : Prop := sk = seed \/ sk = (ed_seed_keypair seed).2.

Lemma seed_pubkey seed : size_of seed = 32 -> (ed_seed_keypair seed).1 = point (secret_scalar seed).
Proof. intros Hs. by destruct (ed_seed_point seed Hs). Qed.
Lemma secret_nonzero seed : size_of seed = 32 -> secret_scalar seed mod L <> 0.
Proof. intros Hs. by destruct (ed_seed_point seed Hs). Qed.
Lemma seed_to_curve seed : size_of seed = 32 -> ed_pk_to_curve25519 (point (secret_scalar seed)) = Some (x_pubkey seed).
Proof. intros Hs. rewrite <- seed_pubkey by done. by apply ed_curve_keys. Qed.
Lemma x_pubkey_size seed : size_of (x_pubkey seed) = 32.
Proof. apply scalarmult_base_size. Qed.

Lemma seed_privkey seed :
  size_of seed = 32 -> (ed_seed_keypair seed).2 = seed ++ point (secret_scalar seed).
Proof. intros Hs. by rewrite ed_seed_sk, seed_pubkey. Qed.
Lemma seed_privkey_size seed : size_of seed = 32 -> size_of (ed_seed_keypair seed).2 = 64.
Proof. intros Hs. rewrite seed_privkey, size_of_app, point_size by done. lia. Qed.
Lemma seed_privkey_pk seed : size_of seed = 32 -> drop 32 (ed_seed_keypair seed).2 = point (secret_scalar seed).
Proof. intros Hs. rewrite seed_privkey by done. apply drop_app_length'. unfold size_of in Hs. lia. Qed.

Lemma full_privkey_of seed sk : size_of seed = 32 -> privkey_of seed sk -> full_privkey sk = Ok (ed_seed_keypair seed).2.
Proof.
  intros Hs [->| ->]; unfold full_privkey; [by rewrite Hs|]. by rewrite seed_privkey_size.
Qed.
Lemma privkey_size seed sk : size_of seed = 32 -> privkey_of seed sk -> size_of sk = 32 \/ size_of sk = 64.
Proof. intros Hs [->| ->]; [by left|right; by apply seed_privkey_size]. Qed.
Lemma privkey_scalar seed sk :
  size_of seed = 32 -> privkey_of seed sk -> scalar_of (ed_sk_to_curve25519 sk) = secret_scalar seed.
Proof.
  intros Hs [->| ->]; [|done]. unfold secret_scalar. rewrite (ed_sk_to_curve25519_seed (ed_seed_keypair seed).2).
  rewrite seed_privkey by done. rewrite take_app_length' by (unfold size_of in Hs; lia). done.
Qed.

(** ** Blinded keys *)

(** The key of a seed that is known on a server. *)
Definition blinded15_key (seed server_pk : bytes) : bytes :=
  point (scalar_of (blind15_factor server_pk) * secret_scalar seed).
Definition blinded25_key (seed server_pk : bytes) : bytes :=
  point (scalar_of (blind25_factor (x_pubkey seed) server_pk) * abs_scalar (secret_scalar seed)).

Lemma blind_point_ok prefix k z :
  scalar_of k mod L <> 0 -> z mod L <> 0 -> blind_point prefix k (point z) = Ok (byte_of prefix :: point (scalar_of k * z)).
Proof. intros Hk Hz. unfold blind_point. by rewrite noclamp_of by (by apply mul_nonzero). Qed.

Lemma blind15_key_pair_of seed sk server_pk :
  size_of seed = 32 -> privkey_of seed sk -> size_of server_pk = 32 ->
  exists a, blind15_key_pair sk server_pk = Ok (blinded15_key seed server_pk, a, blind15_factor server_pk) /\
            scalar_of a = (scalar_of (blind15_factor server_pk) * secret_scalar seed) mod L.
Proof.
  intros Hs Hsk Hp. unfold blind15_key_pair. rewrite (full_privkey_of seed) by done. cbn [mbind res_bind].
  rewrite Hp. cbn [throw_if negb Z.eqb Pos.eqb mbind res_bind]. eexists. split; [|apply scalar_mul_of].
  do 3 f_equal. rewrite base_noclamp_of, scalar_mul_of. apply point_mod.
Qed.

(** The factor is negated with the key. *)
Definition signed_factor (seed server_pk : bytes) : bytes :=
  let k := blind25_factor (x_pubkey seed) server_pk in
  if sign_bit (point (secret_scalar seed)) then scalar_negate k else k.
Lemma signed_factor_mul seed server_pk :
  (scalar_of (signed_factor seed server_pk) * secret_scalar seed) mod L =
  (scalar_of (blind25_factor (x_pubkey seed) server_pk) * abs_scalar (secret_scalar seed)) mod L.
Proof.
  pose proof order_pos. unfold signed_factor, abs_scalar. destruct (sign_bit _); [|done].
  rewrite scalar_negate_of, Z.mul_mod_idemp_l by lia. f_equal. lia.
Qed.

Lemma blind25_key_pair_of seed sk server_pk :
  size_of seed = 32 -> privkey_of seed sk -> size_of server_pk = 32 ->
  exists a, blind25_key_pair sk server_pk = Ok (blinded25_key seed server_pk, a, signed_factor seed server_pk) /\
            scalar_of a = (scalar_of (signed_factor seed server_pk) * secret_scalar seed) mod L.
Proof.
  intros Hs Hsk Hp. unfold blind25_key_pair. rewrite (full_privkey_of seed) by done. cbn [mbind res_bind].
  rewrite Hp. cbn [throw_if negb Z.eqb Pos.eqb mbind res_bind]. rewrite seed_privkey_pk, seed_to_curve by done.
  fold (signed_factor seed server_pk). eexists. split; [|apply scalar_mul_of].
  do 3 f_equal. rewrite base_noclamp_of, scalar_mul_of, point_mod. apply point_eq, signed_factor_mul.
Qed.

(** *** From the Ed25519 key *)

Lemma prefixed_factor x server_pk :
  size_of x = 32 -> blind25_factor (byte_of 5 :: x) server_pk = blind25_factor x server_pk.
Proof.
  intros Hx. unfold blind25_factor. rewrite Hx.
  replace (size_of (byte_of 5 :: x) =? 32) with false; [done|].
  symmetry. apply Z.eqb_neq. unfold size_of in *. cbn [length]. lia.
Qed.

Lemma blinded15_id_from_seed seed server_pk :
  size_of seed = 32 -> size_of server_pk = 32 -> scalar_of (blind15_factor server_pk) mod L <> 0 ->
  blinded15_id_from_ed (ed_seed_keypair seed).1 server_pk None = Ok (byte_of 21 :: blinded15_key seed server_pk, None) /\
  blinded15_id_from_ed (ed_seed_keypair seed).1 server_pk (Some []) =
    Ok (byte_of 21 :: blinded15_key seed server_pk, Some (byte_of 5 :: x_pubkey seed)).
Proof.
  intros Hs Hp Hk. unfold blinded15_id_from_ed, session_id_of. rewrite seed_pubkey, point_size, Hp, seed_to_curve by done.
  rewrite (blind_point_ok _ _ (secret_scalar seed)) by (done || by apply secret_nonzero). done.
Qed.
Lemma blinded25_id_from_seed seed server_pk :
  size_of seed = 32 -> size_of server_pk = 32 -> scalar_of (blind25_factor (x_pubkey seed) server_pk) mod L <> 0 ->
  blinded25_id_from_ed (ed_seed_keypair seed).1 server_pk None = Ok (byte_of 37 :: blinded25_key seed server_pk, None) /\
  blinded25_id_from_ed (ed_seed_keypair seed).1 server_pk (Some []) =
    Ok (byte_of 37 :: blinded25_key seed server_pk, Some (byte_of 5 :: x_pubkey seed)).
Proof.
  intros Hs Hp Hk. pose proof (secret_nonzero seed Hs) as Hz. unfold blinded25_id_from_ed, session_id_of.
  rewrite seed_pubkey, point_size, Hp, seed_to_curve by done.
  cbn [throw_if negb Z.eqb Pos.eqb mbind res_bind andb value_or]. change (size_of []) with 0. cbn [throw_if negb Z.eqb mbind res_bind andb].
  rewrite prefixed_factor by apply x_pubkey_size.
  rewrite clear_sign_point, (blind_point_ok _ _ (abs_scalar _)) by (done || by apply abs_nonzero). done.
Qed.

(** *** From the session id *)

(** The point of a session id is the absolute value of the key, so its 15-blinded id is too. *)
Definition blinded15_abs (seed server_pk : bytes) : bytes :=
  point (scalar_of (blind15_factor server_pk) * abs_scalar (secret_scalar seed)).
Lemma blinded15_abs_key seed server_pk :
  size_of seed = 32 -> scalar_of (blind15_factor server_pk) mod L <> 0 ->
  blinded15_abs seed server_pk =
    if sign_bit (ed_seed_keypair seed).1 then flip_sign (blinded15_key seed server_pk) else blinded15_key seed server_pk.
Proof.
  intros Hs Hk. rewrite seed_pubkey by done. unfold blinded15_abs, blinded15_key, abs_scalar. destruct (sign_bit _); [|done].
  rewrite <- point_negate by (apply mul_nonzero; [done|by apply secret_nonzero]). f_equal. lia.
Qed.

Lemma flip_flip z : z mod L <> 0 -> flip_sign (flip_sign (point z)) = point z.
Proof. intros Hz. rewrite <- !point_negate by (done || by apply opp_nonzero). f_equal. lia. Qed.
Lemma blinded15_either seed server_pk p :
  size_of seed = 32 -> scalar_of (blind15_factor server_pk) mod L <> 0 ->
  bool_decide (p = blinded15_abs seed server_pk) || bool_decide (p = flip_sign (blinded15_abs seed server_pk)) =
  bool_decide (p = blinded15_key seed server_pk) || bool_decide (p = flip_sign (blinded15_key seed server_pk)).
Proof.
  intros Hs Hk. rewrite blinded15_abs_key by done. destruct (sign_bit _); [|done].
  unfold blinded15_key. rewrite flip_flip by (apply mul_nonzero; [done|by apply secret_nonzero]). apply orb_comm.
Qed.

Lemma xed_pubkey_seed seed : size_of seed = 32 -> xed_pubkey (x_pubkey seed) = point (abs_scalar (secret_scalar seed)).
Proof.
  intros Hs. rewrite (xed_pubkey_spec (secret_scalar seed)) by (by apply seed_to_curve).
  apply clear_sign_point. by apply secret_nonzero.
Qed.

Lemma drop_prefix_5 x : size_of x = 32 -> drop_prefix x = x /\ drop_prefix (byte_of 5 :: x) = x /\ size_of (byte_of 5 :: x) = 33.
Proof.
  intros Hx. assert (E : size_of (byte_of 5 :: x) = 33) by (unfold size_of in *; cbn [length]; lia).
  unfold drop_prefix. by rewrite Hx, E.
Qed.

Lemma blind15_id_impl_seed seed server_pk id :
  size_of seed = 32 -> scalar_of (blind15_factor server_pk) mod L <> 0 ->
  id = x_pubkey seed \/ id = byte_of 5 :: x_pubkey seed ->
  blind15_id_impl id server_pk = Ok (byte_of 21 :: blinded15_abs seed server_pk).
Proof.
  intros Hs Hk Hid. destruct (drop_prefix_5 _ (x_pubkey_size seed)) as (E1 & E2 & _).
  unfold blind15_id_impl. replace (drop_prefix id) with (x_pubkey seed) by (by destruct Hid as [-> | ->]).
  rewrite xed_pubkey_seed by done. apply blind_point_ok; [done|]. by apply abs_nonzero, secret_nonzero.
Qed.
Lemma blind25_id_impl_seed seed server_pk id :
  size_of seed = 32 -> scalar_of (blind25_factor (x_pubkey seed) server_pk) mod L <> 0 ->
  id = x_pubkey seed \/ id = byte_of 5 :: x_pubkey seed ->
  blind25_id_impl id server_pk = Ok (byte_of 37 :: blinded25_key seed server_pk).
Proof.
  intros Hs Hk Hid. destruct (drop_prefix_5 _ (x_pubkey_size seed)) as (E1 & E2 & _).
  unfold blind25_id_impl. replace (drop_prefix id) with (x_pubkey seed) by (by destruct Hid as [-> | ->]).
  replace (blind25_factor id server_pk) with (blind25_factor (x_pubkey seed) server_pk).
  - rewrite xed_pubkey_seed by done. apply blind_point_ok; [done|]. by apply abs_nonzero, secret_nonzero.
  - destruct Hid as [-> | ->]; [done|]. by rewrite prefixed_factor by apply x_pubkey_size.
Qed.

Lemma check_raw_id_seed seed server_pk id :
  size_of server_pk = 32 -> id = x_pubkey seed \/ id = byte_of 5 :: x_pubkey seed -> check_raw_id id server_pk = Ok tt.
Proof.
  intros Hp Hid. destruct (drop_prefix_5 _ (x_pubkey_size seed)) as (_ & _ & E). unfold check_raw_id.
  destruct Hid as [-> | ->]; rewrite ?x_pubkey_size, ?E, Hp; done.
Qed.
Lemma blind_id_seed seed server_pk id :
  size_of seed = 32 -> size_of server_pk = 32 -> id = x_pubkey seed \/ id = byte_of 5 :: x_pubkey seed ->
  (scalar_of (blind15_factor server_pk) mod L <> 0 ->
   blind15_id id server_pk = Ok (byte_of 21 :: blinded15_abs seed server_pk)) /\
  (scalar_of (blind25_factor (x_pubkey seed) server_pk) mod L <> 0 ->
   blind25_id id server_pk = Ok (byte_of 37 :: blinded25_key seed server_pk)).
Proof.
  intros Hs Hp Hid. destruct (drop_prefix_5 _ (x_pubkey_size seed)) as (E1 & E2 & _).
  unfold blind15_id, blind25_id. rewrite (check_raw_id_seed seed) by done. cbn [mbind res_bind]. split; intros Hk.
  - apply (blind15_id_impl_seed seed); [done..|]. left. by destruct Hid as [-> | ->].
  - by apply (blind25_id_impl_seed seed).
Qed.

(** *** From hex texts *)

Section Hex.
Context `{TextEncodings}.

Lemma hex_prefix (p : ascii) (t : string) x :
  to_hex [p] = bs t -> String.length t = 2%nat -> to_hex (p :: x) = bs t ++ to_hex x /\ take 2 (to_hex (p :: x)) = bs t.
Proof.
  intros Hp Hl. change (p :: x) with ([p] ++ x). rewrite to_hex_app, Hp. split; [done|].
  apply take_app_length'. pose proof (to_hex_size [p]) as E. rewrite Hp in E. unfold size_of in E.
  change (length [p]) with 1%nat in E. lia.
Qed.
Lemma check_hex_id_seed seed server_pk :
  size_of server_pk = 32 -> check_hex_id (to_hex (byte_of 5 :: x_pubkey seed)) (to_hex server_pk) = Ok tt.
Proof.
  intros Hp. destruct (drop_prefix_5 _ (x_pubkey_size seed)) as (_ & _ & E). unfold check_hex_id.
  rewrite !to_hex_size, !is_hex_to_hex, E, Hp.
  destruct (hex_prefix (byte_of 5) "05" (x_pubkey seed)) as [_ ->]; [apply to_hex_05|done|]. done.
Qed.
Lemma blind15_id_hex_seed seed server_pk :
  size_of seed = 32 -> size_of server_pk = 32 -> scalar_of (blind15_factor server_pk) mod L <> 0 ->
  blind15_id_hex (to_hex (byte_of 5 :: x_pubkey seed)) (to_hex server_pk) =
    Ok (to_hex (byte_of 21 :: blinded15_abs seed server_pk), to_hex (byte_of 21 :: flip_sign (blinded15_abs seed server_pk))).
Proof.
  intros Hs Hp Hk. unfold blind15_id_hex. rewrite check_hex_id_seed, !from_to_hex by done. cbn [mbind res_bind].
  rewrite (blind15_id_impl_seed seed) by (done || by right). done.
Qed.
Lemma blind25_id_hex_seed seed server_pk :
  size_of seed = 32 -> size_of server_pk = 32 -> scalar_of (blind25_factor (x_pubkey seed) server_pk) mod L <> 0 ->
  blind25_id_hex (to_hex (byte_of 5 :: x_pubkey seed)) (to_hex server_pk) = Ok (to_hex (byte_of 37 :: blinded25_key seed server_pk)).
Proof.
  intros Hs Hp Hk. unfold blind25_id_hex. rewrite check_hex_id_seed, !from_to_hex by done. cbn [mbind res_bind].
  rewrite (blind25_id_impl_seed seed) by (done || by right). done.
Qed.

Lemma to_hex_iff a b : to_hex a = to_hex b <-> a = b.
Proof. split; [|by intros ->]. intros E. by rewrite <- (from_to_hex a), <- (from_to_hex b), E. Qed.
Lemma to_hex_eq p a b : bool_decide (to_hex (p :: a) = to_hex (p :: b)) = bool_decide (a = b).
Proof. apply bool_decide_ext. rewrite to_hex_iff. naive_solver. Qed.

Lemma matches_by_kind seed server_pk c rest :
  size_of server_pk = 32 ->
  let session_id := to_hex (byte_of 5 :: x_pubkey seed) in
  let blinded_id := c :: "5"%char :: rest in
  session_id_matches_blinded_id session_id blinded_id (to_hex server_pk) =
    if bool_decide (c = "1"%char) then
      let! (id1, id2) := blind15_id_hex session_id (to_hex server_pk) in
      Ok (bool_decide (blinded_id = id1) || bool_decide (blinded_id = id2))
    else if bool_decide (c = "2"%char) then
      id ← blind25_id_hex session_id (to_hex server_pk); Ok (bool_decide (blinded_id = id))
    else Throw InvalidArgument.
Proof.
  intros Hp session_id blinded_id. destruct (drop_prefix_5 _ (x_pubkey_size seed)) as (_ & _ & E).
  unfold session_id_matches_blinded_id, session_id. rewrite !to_hex_size, !is_hex_to_hex, E, Hp.
  destruct (hex_prefix (byte_of 5) "05" (x_pubkey seed)) as [_ ->]; [apply to_hex_05|done|].
  unfold blinded_id. cbv beta iota. by rewrite (bool_decide_true ("5"%char = "5"%char)) by done.
Qed.

(** The ids that match are exactly the blinded ids of the key. *)
Lemma matches15 seed server_pk p :
  size_of seed = 32 -> size_of server_pk = 32 -> scalar_of (blind15_factor server_pk) mod L <> 0 ->
  session_id_matches_blinded_id (to_hex (byte_of 5 :: x_pubkey seed)) (to_hex (byte_of 21 :: p)) (to_hex server_pk) =
    Ok (bool_decide (p = blinded15_abs seed server_pk) || bool_decide (p = flip_sign (blinded15_abs seed server_pk))).
Proof.
  intros Hs Hp Hk. destruct (hex_prefix (byte_of 21) "15" p) as [E _]; [apply to_hex_15|done|].
  rewrite <- (to_hex_eq (byte_of 21) p (flip_sign _)), <- (to_hex_eq (byte_of 21) p (blinded15_abs _ _)), E. etransitivity; [by apply matches_by_kind|].
  rewrite bool_decide_true, blind15_id_hex_seed by done. done.
Qed.
Lemma matches25 seed server_pk p :
  size_of seed = 32 -> size_of server_pk = 32 -> scalar_of (blind25_factor (x_pubkey seed) server_pk) mod L <> 0 ->
  session_id_matches_blinded_id (to_hex (byte_of 5 :: x_pubkey seed)) (to_hex (byte_of 37 :: p)) (to_hex server_pk) =
    Ok (bool_decide (p = blinded25_key seed server_pk)).
Proof.
  intros Hs Hp Hk. destruct (hex_prefix (byte_of 37) "25" p) as [E _]; [apply to_hex_25|done|].
  rewrite <- (to_hex_eq (byte_of 37) p), E. etransitivity; [by apply matches_by_kind|].
  rewrite bool_decide_false, bool_decide_true, blind25_id_hex_seed by done. done.
Qed.
End Hex.
End Curve.
