(* ===== verification/BlindedMessageFacts.v ===== *)
(** * Facts about signatures and messages of blinded ids

    Signatures with blinded keys and XEd25519 signatures are valid, and both sides of a
    conversation between blinded ids compute the same key. *)
From S2P Require Import Prelude OMap Util Internal Bencode ThirdParty SessionEncrypt Blinding SessionMessages BlindingFacts.

Section Messages.
Context `{Fe25519} `{TextEncodings}.
Local Abbreviation L := group_order.

(** ** Signatures *)

Lemma signature_valid r a z message :
  scalar_of r mod L <> 0 -> z mod L <> 0 -> scalar_of a mod L = z mod L ->
  ed_verify (scalarmult_base_noclamp r ++ sign_scalar r a (point z) message) message (point z) = true.
Proof.
  intros Hr Hz Ha. pose proof order_pos. unfold sign_scalar, ed25519_hram. rewrite base_noclamp_of.
  apply ed_verify_equation; [done..|apply scalar_add_size|].
  rewrite scalar_add_of, scalar_mul_of, Z.add_mod_idemp_l, Z.add_comm by lia.
  rewrite <- Z.add_mod_idemp_r, <- (Z.mul_mod_idemp_r _ (scalar_of a)), Ha by lia.
  by rewrite Z.mul_mod_idemp_r, Z.add_mod_idemp_r by lia.
Qed.

(** A server key as bytes or as hex. *)
Definition server_text (server_pk t : bytes) : Prop := t = server_pk \/ t = to_hex server_pk.
Lemma server_key_of server_pk t : size_of server_pk = 32 -> server_text server_pk t -> server_key t = Ok server_pk.
Proof.
  intros Hp [-> | ->]; unfold server_key; [by rewrite Hp|]. by rewrite to_hex_size, Hp, is_hex_to_hex, from_to_hex.
Qed.
Lemma signature_size r a A message : size_of (scalarmult_base_noclamp r ++ sign_scalar r a A message) = 64.
Proof. unfold sign_scalar. by rewrite size_of_app, (base_noclamp_of r), point_size, scalar_add_size. Qed.

Lemma blind15_sign_valid seed sk server_pk t message :
  size_of seed = 32 -> privkey_of seed sk -> size_of server_pk = 32 -> server_text server_pk t ->
  scalar_of (blind15_factor server_pk) mod L <> 0 ->
  scalar_of (blind15_nonce (ed_seed_keypair seed).2 (blinded15_key seed server_pk) message) mod L <> 0 ->
  exists sig, blind15_sign sk t message = Ok sig /\ ed25519_verify sig (blinded15_key seed server_pk) message = Ok true.
Proof.
  intros Hs Hsk Hp Ht Hk Hr. unfold blind15_sign. rewrite (full_privkey_of seed) by done. cbn [mbind res_bind].
  rewrite (server_key_of server_pk) by done. cbn [mbind res_bind].
  destruct (blind15_key_pair_of seed (ed_seed_keypair seed).2 server_pk) as (a & -> & Ha); [done|by right|done|].
  eexists. split; [done|]. unfold ed25519_verify. rewrite signature_size.
  unfold blinded15_key, blinded25_key. rewrite point_size. cbn [throw_if negb Z.eqb Pos.eqb mbind res_bind]. f_equal. apply signature_valid; [done| |by rewrite Ha, Z.mod_mod by (pose proof order_pos; lia)].
  apply mul_nonzero; [done|by apply secret_nonzero].
Qed.
Lemma blind25_sign_valid seed sk server_pk t message :
  size_of seed = 32 -> privkey_of seed sk -> size_of server_pk = 32 -> server_text server_pk t ->
  scalar_of (blind25_factor (x_pubkey seed) server_pk) mod L <> 0 ->
  scalar_of (blind25_nonce (ed_seed_keypair seed).2 (blinded25_key seed server_pk) message) mod L <> 0 ->
  exists sig, blind25_sign sk t message = Ok sig /\ ed25519_verify sig (blinded25_key seed server_pk) message = Ok true.
Proof.
  intros Hs Hsk Hp Ht Hk Hr. unfold blind25_sign. rewrite (full_privkey_of seed) by done. cbn [mbind res_bind].
  rewrite (server_key_of server_pk) by done. cbn [mbind res_bind].
  destruct (blind25_key_pair_of seed (ed_seed_keypair seed).2 server_pk) as (a & -> & Ha); [done|by right|done|].
  eexists. split; [done|]. unfold ed25519_verify. rewrite signature_size.
  unfold blinded15_key, blinded25_key. rewrite point_size. cbn [throw_if negb Z.eqb Pos.eqb mbind res_bind]. f_equal. apply signature_valid; [done| |].
  - apply mul_nonzero; [done|by apply abs_nonzero, secret_nonzero].
  - rewrite Ha, Z.mod_mod by (pose proof order_pos; lia). apply signed_factor_mul.
Qed.

(** The secret number of a seed, negated if [b]. *)
Lemma conditional_negate seed b :
  size_of seed = 32 ->
  let a := ed_sk_to_curve25519 (ed_seed_keypair seed).2 in
  constant_time_conditional_assign a (scalar_negate a) b = if b then scalar_negate a else a.
Proof.
  intros Hs a. apply conditional_assign_spec, Nat2Z.inj. change (size_of a = size_of (scalar_negate a)).
  unfold a. by rewrite ed_sk_to_curve25519_size, scalar_negate_size by (by apply seed_privkey_size).
Qed.
Lemma negated_scalar seed :
  let a := ed_sk_to_curve25519 (ed_seed_keypair seed).2 in
  scalar_of (if sign_bit (point (secret_scalar seed)) then scalar_negate a else a) mod L = abs_scalar (secret_scalar seed) mod L.
Proof.
  intros a. unfold abs_scalar. destruct (sign_bit _); [|done].
  by rewrite scalar_negate_of, Z.mod_mod by (pose proof order_pos; lia).
Qed.

(** The number that [xed_sign] uses for the key of a seed. *)
Definition xed_secret (seed : bytes) : bytes :=
  let a := ed_sk_to_curve25519 (ed_seed_keypair seed).2 in
  if sign_bit (ed_seed_keypair seed).1 then scalar_negate a else a.
Lemma xed_sign_valid seed message random :
  size_of seed = 32 -> scalar_of (xed25519_compute_r (xed_secret seed) message random) mod L <> 0 ->
  xed_verify (xed_sign (ed_sk_to_curve25519 (ed_seed_keypair seed).2) message random) (x_pubkey seed) message = true.
Proof.
  intros Hs Hr. unfold xed_verify, xed_sign. cbv zeta. rewrite xed_pubkey_seed by done.
  rewrite conditional_negate by done.
  rewrite ed_seed_clamped, (base_noclamp_of (ed_sk_to_curve25519 _)). fold (secret_scalar seed).
  unfold xed_secret in Hr. rewrite seed_pubkey in Hr by done.
  rewrite clear_sign_point by (by apply secret_nonzero). apply signature_valid.
  - done.
  - by apply abs_nonzero, secret_nonzero.
  - apply negated_scalar.
Qed.

(** ** The key of a conversation *)

(** Both kinds of blinding at once: the prefix, the number whose point is the blinded key, and the
    number that the point of the other side is multiplied with. *)
Definition id_prefix (b25 : bool) : ascii := byte_of (if b25 then 37 else 21).
Definition factor_of (b25 : bool) (seed server_pk : bytes) : bytes :=
  if b25 then signed_factor seed server_pk else blind15_factor server_pk.
Definition key_scalar (b25 : bool) (seed server_pk : bytes) : Z :=
  scalar_of (factor_of b25 seed server_pk) * secret_scalar seed.
Definition share_scalar (b25 : bool) (seed server_pk : bytes) : Z :=
  if b25 then key_scalar b25 seed server_pk else secret_scalar seed.
Definition blinded_id (b25 : bool) (seed server_pk : bytes) : bytes :=
  id_prefix b25 :: point (key_scalar b25 seed server_pk).

Definition factor_ok (b25 : bool) (seed server_pk : bytes) : Prop :=
  scalar_of (if b25 then blind25_factor (x_pubkey seed) server_pk else blind15_factor server_pk) mod L <> 0.

Lemma factor_nonzero b25 seed server_pk :
  factor_ok b25 seed server_pk -> scalar_of (factor_of b25 seed server_pk) mod L <> 0.
Proof.
  unfold factor_ok, factor_of, signed_factor. destruct b25; [|done]. destruct (sign_bit _); [|done]. intros Hk.
  rewrite scalar_negate_of, Z.mod_mod by (pose proof order_pos; lia). by apply opp_nonzero.
Qed.
Lemma key_nonzero b25 seed server_pk :
  size_of seed = 32 -> factor_ok b25 seed server_pk -> key_scalar b25 seed server_pk mod L <> 0.
Proof. intros Hs Hk. apply mul_nonzero; [by apply factor_nonzero|by apply secret_nonzero]. Qed.
Lemma share_nonzero b25 seed server_pk :
  size_of seed = 32 -> factor_ok b25 seed server_pk -> share_scalar b25 seed server_pk mod L <> 0.
Proof. intros Hs Hk. unfold share_scalar. destruct b25; [by apply key_nonzero|by apply secret_nonzero]. Qed.

Lemma blinded25_key_scalar seed server_pk : blinded25_key seed server_pk = point (key_scalar true seed server_pk).
Proof. symmetry. apply point_eq, signed_factor_mul. Qed.
Lemma blinded_id_size b25 seed server_pk : size_of (blinded_id b25 seed server_pk) = 33.
Proof. pose proof (point_size (key_scalar b25 seed server_pk)). unfold blinded_id, size_of in *. cbn [length]. lia. Qed.

Lemma id_prefix_kinds b25 p : has_prefix 21 (id_prefix b25 :: p) = negb b25 /\ has_prefix 37 (id_prefix b25 :: p) = b25.
Proof. by destruct b25. Qed.

Lemma blinded_id_like_seed b25 seed server_pk p (want : bool) :
  size_of seed = 32 -> size_of server_pk = 32 -> factor_ok b25 seed server_pk ->
  blinded_id_like (id_prefix b25 :: p) (ed_seed_keypair seed).1 server_pk (if want then Some [] else None) =
    Ok (blinded_id b25 seed server_pk).
Proof.
  intros Hs Hp Hk. unfold blinded_id_like. destruct (id_prefix_kinds b25 p) as [_ ->].
  unfold blinded_id. destruct b25.
  - destruct (blinded25_id_from_seed seed server_pk Hs Hp Hk) as [E1 E2]. rewrite <- blinded25_key_scalar.
    destruct want; [by rewrite E2|by rewrite E1].
  - destruct (blinded15_id_from_seed seed server_pk Hs Hp Hk) as [E1 E2]. destruct want; [by rewrite E2|by rewrite E1].
Qed.

(** The secret with the owner of another id, whose point is known. *)
Lemma shared_secret_with b25 seed sk server_pk p z (sending : bool) :
  size_of seed = 32 -> privkey_of seed sk -> size_of server_pk = 32 -> factor_ok b25 seed server_pk ->
  z mod L <> 0 -> size_of p = 32 ->
  blinded_shared_secret sk (id_prefix b25 :: p) (id_prefix b25 :: point z) server_pk sending =
    Ok (generichash 32 [] (point (share_scalar b25 seed server_pk * z) ++
                           (if sending then p else point z) ++ (if sending then point z else p))).
Proof.
  intros Hs Hsk Hp Hk Hz Hl. pose proof order_pos. unfold blinded_shared_secret. pose proof (point_size z) as Hpz.
  assert (E : negb (size_of sk =? 64) && negb (size_of sk =? 32) = false)
    by (destruct (privkey_size seed sk Hs Hsk) as [-> | ->]; done).
  rewrite E, Hp. replace (size_of (id_prefix b25 :: p)) with 33 by (unfold size_of in *; cbn [length]; lia).
  replace (size_of (id_prefix b25 :: point z)) with 33 by (unfold size_of in *; cbn [length]; lia).
  cbn [throw_if negb Z.eqb Pos.eqb mbind res_bind].
  rewrite !(proj1 (id_prefix_kinds b25 _)), !(proj2 (id_prefix_kinds b25 _)).
  destruct b25; cbn [negb andb tail].
  - destruct (blind25_key_pair_of seed sk server_pk Hs Hsk Hp) as (a & -> & _).
    assert (Eg : (scalar_of (scalar_mul (ed_sk_to_curve25519 sk) (signed_factor seed server_pk)) * z) mod L =
                 (key_scalar true seed server_pk * z) mod L).
    { rewrite scalar_mul_of, Z.mul_mod_idemp_l, (privkey_scalar seed) by (done || lia). unfold key_scalar, factor_of. f_equal. lia. }
    rewrite noclamp_of; [|rewrite Eg; apply mul_nonzero; [by apply key_nonzero|done]].
    by rewrite (point_eq _ _ Eg).
  - destruct (blind15_key_pair_of seed sk server_pk Hs Hsk Hp) as (a & -> & _).
    rewrite noclamp_of; rewrite (privkey_scalar seed) by done; [done|].
    apply mul_nonzero; [by apply secret_nonzero|done].
Qed.

(** Both sides compute the same secret. *)
Lemma shared_agree b25 seed1 seed2 server_pk :
  share_scalar b25 seed1 server_pk * key_scalar b25 seed2 server_pk =
  share_scalar b25 seed2 server_pk * key_scalar b25 seed1 server_pk.
Proof. unfold share_scalar, key_scalar, factor_of. destruct b25; ring. Qed.

(** ** Messages *)

Context `{Aead}.
Variables (b25 : bool) (seed1 seed2 server_pk : bytes).
Hypothesis seed1_size : size_of seed1 = 32.
Hypothesis seed2_size : size_of seed2 = 32.
Hypothesis server_size : size_of server_pk = 32.
Hypothesis factor1 : factor_ok b25 seed1 server_pk.
Hypothesis factor2 : factor_ok b25 seed2 server_pk.

(** The key for messages of the first to the second. *)
Definition conversation_key : bytes :=
  generichash 32 [] (point (share_scalar b25 seed1 server_pk * key_scalar b25 seed2 server_pk) ++
                     point (key_scalar b25 seed1 server_pk) ++ point (key_scalar b25 seed2 server_pk)).
Definition sealed_message (message nonce : bytes) : bytes :=
  byte_of BLINDED_ENCRYPT_VERSION :: aead_encrypt (message ++ point (secret_scalar seed1)) nonce conversation_key ++ nonce.

Lemma encrypt_blinded sk message nonce :
  privkey_of seed1 sk ->
  encrypt_for_blinded_recipient sk server_pk (blinded_id b25 seed2 server_pk) message nonce = Ok (sealed_message message nonce).
Proof.
  intros Hsk. unfold encrypt_for_blinded_recipient.
  assert (E : negb (size_of sk =? 64) && negb (size_of sk =? 32) = false)
    by (destruct (privkey_size seed1 sk seed1_size Hsk) as [-> | ->]; done).
  rewrite E, server_size, blinded_id_size. cbn [throw_if negb Z.eqb Pos.eqb mbind res_bind].
  unfold blinded_id at 1 2. rewrite (proj1 (id_prefix_kinds b25 _)), (proj2 (id_prefix_kinds b25 _)).
  assert (Ek : exists a k, (if negb b25 then blind15_key_pair sk server_pk
                            else if b25 then blind25_key_pair sk server_pk else Throw InvalidArgument) =
                           Ok (point (key_scalar b25 seed1 server_pk), a, k)).
  { destruct b25; cbn [negb].
    - destruct (blind25_key_pair_of seed1 sk server_pk) as (a & -> & _); [done..|]. rewrite blinded25_key_scalar. by eexists _, _.
    - destruct (blind15_key_pair_of seed1 sk server_pk) as (a & -> & _); [done..|]. by eexists _, _. }
  destruct Ek as (a & k & ->). unfold blinded_id. cbn [take firstn app].
  rewrite (shared_secret_with b25 seed1) by (done || apply point_size || by apply key_nonzero). cbn [mbind res_bind].
  unfold sealed_message. fold conversation_key. do 5 f_equal.
  destruct Hsk as [-> | ->].
  - rewrite seed1_size. cbn [Z.eqb Pos.eqb]. by apply seed_pubkey.
  - rewrite seed_privkey_size by done. cbn [Z.eqb Pos.eqb]. by apply seed_privkey_pk.
Qed.

(** Either of the two finds the key. *)
Lemma find_key seed :
  seed = seed1 \/ seed = seed2 ->
  let own := blinded_id b25 seed server_pk in
  let sender_id := blinded_id b25 seed1 server_pk in
  let recipient_id := blinded_id b25 seed2 server_pk in
  let sk := (ed_seed_keypair seed).2 in
  (if bool_decide (sender_id = own) then blinded_shared_secret sk sender_id recipient_id server_pk true
   else blinded_shared_secret sk recipient_id sender_id server_pk false) = Ok conversation_key.
Proof.
  intros Hseed own sender_id recipient_id sk. pose proof (key_nonzero b25 seed1 server_pk seed1_size factor1).
  pose proof (key_nonzero b25 seed2 server_pk seed2_size factor2). unfold own, sender_id, recipient_id, sk, blinded_id.
  destruct Hseed as [-> | ->].
  - rewrite bool_decide_true by done. apply shared_secret_with; done || apply point_size || by right.
  - case_bool_decide as E.
    + injection E as E. rewrite <- E.
      rewrite (shared_secret_with b25 seed2) by (done || apply point_size || by right).
      rewrite <- shared_agree. unfold conversation_key. by rewrite E.
    + rewrite (shared_secret_with b25 seed2) by (done || apply point_size || by right). by rewrite <- shared_agree.
Qed.

Lemma decrypt_blinded seed sk message nonce :
  seed = seed1 \/ seed = seed2 -> privkey_of seed sk -> size_of nonce = 24 ->
  decrypt_from_blinded_recipient sk server_pk (blinded_id b25 seed1 server_pk) (blinded_id b25 seed2 server_pk)
    (sealed_message message nonce) = Ok (message, bs "05" ++ to_hex (x_pubkey seed1)).
Proof.
  intros Hseed Hsk Hn. assert (Hs : size_of seed = 32) by (by destruct Hseed as [-> | ->]).
  assert (Hk : factor_ok b25 seed server_pk) by (by destruct Hseed as [-> | ->]).
  pose proof (size_of_nonneg message) as Hm. pose proof (point_size (secret_scalar seed1)) as Hpk.
  set (inner := aead_encrypt (message ++ point (secret_scalar seed1)) nonce conversation_key).
  assert (Hi : size_of inner = size_of message + 48).
  { unfold inner. rewrite aead_encrypt_size, size_of_app, Hpk. unfold XCHACHA_ABYTES. lia. }
  assert (Hc : size_of (sealed_message message nonce) = size_of message + 73).
  { unfold sealed_message. fold inner. change (size_of (?x :: ?l)) with (size_of ([x] ++ l)).
    rewrite !size_of_app, Hi, Hn. change (size_of [byte_of _]) with 1. lia. }
  unfold decrypt_from_blinded_recipient. rewrite (full_privkey_of seed), Hc by done. cbn [mbind res_bind].
  rewrite seed_privkey_pk, <- seed_pubkey by done. unfold XCHACHA_NPUBBYTES, XCHACHA_ABYTES.
  replace (size_of message + 73 <? 24 + 1 + 16) with false by lia.
  change (is_empty (blinded_id b25 seed2 server_pk)) with false. cbn [throw_if mbind res_bind].
  pose proof (blinded_id_like_seed b25 seed server_pk (point (key_scalar b25 seed2 server_pk)) false Hs server_size Hk) as Eown.
  fold (blinded_id b25 seed2 server_pk) in Eown. rewrite Eown. cbn [mbind res_bind]. rewrite find_key by done. cbn [mbind res_bind].
  unfold sealed_message. fold inner. cbn [head tail]. rewrite bool_decide_true by done. cbn [negb throw_if mbind res_bind].
  replace (size_of message + 73 - 16 - 1 - 24 <? 32) with false by lia. cbn [throw_if mbind res_bind].
  replace (Z.to_nat (size_of message + 73 - 16 - 1 - 24 + 1 + 16)) with (S (length inner)) by (unfold size_of in *; lia).
  replace (Z.to_nat (size_of message + 73 - 16 - 1 - 24 + 16)) with (length inner) by (unfold size_of in *; lia).
  cbn [drop]. rewrite drop_app_length, take_app_length. unfold inner. rewrite aead_decrypt_encrypt.
  replace (length (message ++ point (secret_scalar seed1)) - 32)%nat with (length message)
    by (rewrite length_app; unfold size_of in *; lia).
  rewrite drop_app_length, take_app_length. unfold sender_session_id. rewrite seed_to_curve by done. cbn [mbind res_bind].
  pose proof (blinded_id_like_seed b25 seed1 server_pk (point (key_scalar b25 seed2 server_pk)) true seed1_size server_size factor1) as Es.
  fold (blinded_id b25 seed2 server_pk) in Es. rewrite seed_pubkey in Es by done. rewrite Es. cbn [mbind res_bind].
  by rewrite bool_decide_true by done.
Qed.
End Messages.

(** ** Sealed messages *)

Section Sealed.
Context `{CryptoBox} `{TextEncodings} `{Aead}.

Lemma sealed_opens sender recipient message eph_seed :
  size_of sender = 32 -> size_of recipient = 32 ->
  exists c, encrypt_for_recipient sender (x_pubkey recipient) message eph_seed = Ok c /\
            decrypt_incoming recipient c = Ok (message, (ed_seed_keypair sender).1).
Proof.
  intros Hs Hr. pose proof (scalarmult_base_size (ed_sk_to_curve25519 (ed_seed_keypair recipient).2)) as Hx.
  fold (x_pubkey recipient) in Hx. unfold encrypt_for_recipient. rewrite sign_for_recipient_seed by done.
  cbn [mbind res_bind]. rewrite Hx. cbn [Z.eqb Pos.eqb]. unfold box_seal. set (msg := message ++ _).
  pose proof (box_seal_open_easy msg eph_seed (ed_sk_to_curve25519 (ed_seed_keypair recipient).2)) as Ho.
  pose proof (box_pk_size eph_seed) as Hp. fold (x_pubkey recipient) in Ho.
  destruct (box_seed_keypair eph_seed) as [eph_pk eph_sk]. cbn [fst] in Hp.
  eexists. split; [done|]. apply decrypt_signed; [done..| |exact Ho].
  rewrite size_of_app, box_easy_size. unfold msg. rewrite !size_of_app, ed_sign_size, ed_seed_pk_size by done.
  unfold BOX_SEALBYTES. lia.
Qed.

(** Padding is removed from the end, however long it is. *)
Lemma drop_end_nulls_padded (m : bytes) n : drop_end_nulls (replicate n char_nul ++ m) = drop_end_nulls m.
Proof. induction n as [|n IH]; [done|]. cbn [replicate app drop_end_nulls]. by rewrite bool_decide_true by done. Qed.
Lemma rev_nulls n : rev (replicate n char_nul) = replicate n char_nul.
Proof. induction n as [|n IH]; [done|]. cbn [replicate rev]. rewrite IH. by rewrite <- replicate_cons_app. Qed.
Lemma push_padding_removed message n nonce key c :
  size_of key = 32 -> size_of nonce = 24 -> last message = Some c -> c <> char_nul ->
  decrypt_push_notification (nonce ++ aead_encrypt (message ++ replicate n char_nul) nonce key) key = Ok message.
Proof.
  intros Hk Hn Hl Hc. unfold decrypt_push_notification. rewrite Hk, size_of_app, aead_encrypt_size, Hn.
  pose proof (size_of_nonneg (message ++ replicate n char_nul)). unfold XCHACHA_NPUBBYTES, XCHACHA_ABYTES.
  replace (_ <? _) with false by lia. cbn [throw_if negb Z.eqb Pos.eqb mbind res_bind].
  rewrite (drop_app_length' nonce), (take_app_length' nonce) by (unfold size_of in Hn; lia).
  rewrite aead_decrypt_encrypt, rev_app_distr, rev_nulls, drop_end_nulls_padded.
  apply last_Some in Hl as [m ->]. rewrite rev_app_distr. cbn [rev app drop_end_nulls].
  rewrite bool_decide_false by done. f_equal. cbn [rev]. by rewrite rev_involutive.
Qed.
End Sealed.
