(* ===== verification/SwarmSubaccount.v ===== *)
(** * Swarm subaccounts

    How a group admin lets a member use the swarm of the group, in [src/config/groups/keys.cpp]: the
    admin signs a blinded key of the member ([swarm_make_subaccount]), the member checks what it
    got ([swarm_verify_subaccount]) and signs requests with the blinded key
    ([swarm_subaccount_sign]).  A storage server knows the group's key only. *)
From S2P Require Import Prelude OMap Util Internal BtValue ThirdParty Bencode ConfigData ConfigParse.
From S2P Require Import ConfigMessage Encrypt SessionEncrypt Protos ConfigBase Multipart BaseSync.
From S2P Require Import MultiEncrypt DictField GroupMembers GroupKeys Blinding.
From S2P Require Import SessionMessages BlindingFacts BlindedMessageFacts.

Definition SUBACC_FLAG_READ : Z := 1.
Definition SUBACC_FLAG_WRITE : Z := 2.
Definition SUBACC_FLAG_DEL : Z := 4.
Definition SUBACC_FLAG_ANY_PREFIX : Z := 8.
Definition subacc_flags (write del : bool) : Z :=
  Z.lor (Z.lor SUBACC_FLAG_READ (if write then SUBACC_FLAG_WRITE else 0)) (if del then SUBACC_FLAG_DEL else 0).

(** The network prefix, the permissions and two reserved bytes. *)
Definition subacc_prefix (write del : bool) : bytes :=
  [byte_of 3; byte_of (subacc_flags write del); byte_of 0; byte_of 0].

(** What is sent to the storage server with a request. *)
Record swarm_auth := { subaccount : bytes; subaccount_sig : bytes; auth_signature : bytes }.

Section Subaccounts.
Context `{Fe25519} `{TextEncodings}.

Definition subaccount_mask_key : bytes := "SessionGroupSubaccountMask".

(** [Keys::subaccount_blind_factor]; reading the public key of an object without one is undefined. *)
Definition subaccount_blind_factor (k : Keys) (session_xpk : bytes) : res bytes :=
  mask ← keys_seed_hash k subaccount_mask_key;
  match sig_pk k with
  | None => Throw UB
  | Some pk => Ok (scalar_reduce (generichash 64 mask ([byte_of 5] ++ session_xpk ++ [byte_of 3] ++ pk)))
  end.

Definition swarm_make_subaccount (k : Keys) (session_id : bytes) (write del : bool) : res bytes :=
  match admin k, sig_sk k with
  | true, Some c =>
      X ← session_id_pk session_id "05";
      fac ← subaccount_blind_factor k X;
      let T := xed_pubkey X in
      match scalarmult_noclamp fac T with
      | None => Throw RuntimeError
      | Some kT =>
          let prefix := subacc_prefix write del in
          Ok (prefix ++ fac ++ ed_sign (prefix ++ kT) c)
      end
  | _, _ => Throw LogicError
  end.

Definition swarm_subaccount_token (k : Keys) (session_id : bytes) (write del : bool) : res bytes :=
  _ ← throw_if (negb (admin k)) LogicError;
  X ← session_id_pk session_id "05";
  fac ← subaccount_blind_factor k X;
  let T := xed_pubkey X in
  match scalarmult_noclamp fac T with
  | None => Throw RuntimeError
  | Some kT => Ok (subacc_prefix write del ++ kT)
  end.

Definition subaccount_seed_key : bytes := "SubaccountSeed".
Definition subaccount_sig_key : bytes := "SubaccountSig".

(** The number [r] of a signature with the blinded key. *)
Definition subaccount_nonce (user_sk kT msg : bytes) : bytes :=
  let hseed := generichash 32 subaccount_seed_key (take 32 user_sk) in
  scalar_reduce (generichash 64 subaccount_sig_key (hseed ++ kT ++ msg)).

Definition swarm_subaccount_sign (k : Keys) (msg sign_val : bytes) (binary : bool) : res swarm_auth :=
  _ ← throw_if (negb (size_of sign_val =? 100)) LogicError;
  _ ← throw_if (negb (bool_decide (is_Some (sig_pk k)))) LogicError;
  let fac := take 32 (drop 4 sign_val) in
  let T := ed_sk_to_pk (user_ed25519_sk k) in
  let neg := sign_bit T in
  let T := clear_sign T in
  match scalarmult_noclamp fac T with
  | None => Throw RuntimeError
  | Some kT =>
      let token := take 4 sign_val ++ kT in
      let sub_sig := drop 36 sign_val in
      let s := ed_sk_to_curve25519 (user_ed25519_sk k) in
      let t := constant_time_conditional_assign s (scalar_negate s) neg in
      let kt := scalar_mul fac t in
      let r := subaccount_nonce (user_ed25519_sk k) kT msg in
      let R := scalarmult_base_noclamp r in
      let S := scalar_add (scalar_mul (scalar_reduce (sha512 (R ++ kT ++ msg))) kt) r in
      let sig := R ++ S in
      Ok (if binary then {| subaccount := token; subaccount_sig := sub_sig; auth_signature := sig |}
          else {| subaccount := to_base64 token; subaccount_sig := to_base64 sub_sig; auth_signature := to_base64 sig |})
  end.

Definition has_flag (flags : ascii) (f : Z) : bool := negb (Z.land (byte_val flags) f =? 0).

(** The static [swarm_verify_subaccount]; a secret key of fewer than 64 bytes is read out of bounds. *)
Definition swarm_verify_subaccount_for (group_id user_ed_sk sign_val : bytes) (write del : bool) : res bool :=
  group_pk ← session_id_pk group_id "03";
  match sign_val with
  | p :: flags :: _ =>
      if negb (size_of sign_val =? 100) then Ok false
      else if negb (bool_decide (p = byte_of 3)) && negb (has_flag flags SUBACC_FLAG_ANY_PREFIX) then Ok false
      else if negb (has_flag flags SUBACC_FLAG_READ) then Ok false
      else if write && negb (has_flag flags SUBACC_FLAG_WRITE) then Ok false
      else if del && negb (has_flag flags SUBACC_FLAG_DEL) then Ok false
      else
        let fac := take 32 (drop 4 sign_val) in
        let sig := drop 36 sign_val in
        _ ← throw_if (size_of user_ed_sk <? 64) UB;
        let T := clear_sign (take 32 (ed_sk_to_pk user_ed_sk)) in
        match scalarmult_noclamp fac T with
        | None => Throw RuntimeError
        | Some kT => Ok (ed_verify sig (take 4 sign_val ++ kT) group_pk)
        end
  | _ => Ok false
  end.
Definition swarm_verify_subaccount (k : Keys) (sign_val : bytes) (write del : bool) : res bool :=
  match sig_pk k with
  | None => Ok false
  | Some pk => swarm_verify_subaccount_for (bs "03" ++ to_hex pk) (user_ed25519_sk k) sign_val write del
  end.
End Subaccounts.

(** ** Facts *)

(** ** Flags *)

Lemma flags_of (write del : bool) :
  let f := byte_of (subacc_flags write del) in
  has_flag f SUBACC_FLAG_READ = true /\ has_flag f SUBACC_FLAG_WRITE = write /\ has_flag f SUBACC_FLAG_DEL = del.
Proof. by destruct write, del. Qed.

Section Subaccount.
Context `{Fe25519} `{TextEncodings}.
Local Abbreviation L := group_order.

Lemma prefixed_id_pk (p : ascii) (t : string) x :
  to_hex [p] = bs t -> String.length t = 2%nat -> size_of x = 32 -> session_id_pk (to_hex (p :: x)) (bs t) = Ok x.
Proof.
  intros Hp Hl Hx. destruct (hex_prefix p t x Hp Hl) as [E1 E2].
  assert (Et : length (bs t) = 2%nat) by (rewrite <- Hp; apply Nat2Z.inj; apply (to_hex_size [p])).
  unfold session_id_pk, check_session_id.
  replace (size_of (bs t)) with 2 by (unfold size_of; by rewrite Et). rewrite Et, E2, is_hex_to_hex, to_hex_size.
  replace (size_of (p :: x)) with 33 by (unfold size_of in *; cbn [length]; lia).
  rewrite bool_decide_true by done. cbn [Z.mul Pos.mul Z.add Pos.add Pos.succ Z.eqb Pos.eqb andb negb throw_if mbind res_bind].
  rewrite E1, drop_app_length' by done. by rewrite from_to_hex.
Qed.

(** ** An admin and a member *)

Variables (gseed seed : bytes).
Hypothesis gseed_size : size_of gseed = 32.
Hypothesis seed_size : size_of seed = 32.

(** The key that the storage server sees for the member, and what the admin signs. *)
Variables (k : Keys) (write del : bool).
Hypothesis k_secret : sig_sk k = Some (ed_seed_keypair gseed).2.
Hypothesis k_public : sig_pk k = Some (ed_seed_keypair gseed).1.

Definition member_factor : bytes :=
  scalar_reduce (generichash 64 (generichash 32 (take 64 subaccount_mask_key) gseed)
    ([byte_of 5] ++ x_pubkey seed ++ [byte_of 3] ++ (ed_seed_keypair gseed).1)).
Hypothesis factor_nz : scalar_of member_factor mod L <> 0.

Definition member_key : bytes := point (scalar_of member_factor * abs_scalar (secret_scalar seed)).
Definition member_token : bytes := subacc_prefix write del ++ member_key.
Definition signing_value : bytes :=
  subacc_prefix write del ++ member_factor ++ ed_sign member_token (ed_seed_keypair gseed).2.

Lemma member_factor_of : subaccount_blind_factor k (x_pubkey seed) = Ok member_factor.
Proof.
  unfold subaccount_blind_factor, keys_seed_hash. rewrite k_secret, k_public. cbn [mbind res_bind].
  rewrite seed_privkey by done. by rewrite take_app_length' by (unfold size_of in gseed_size; lia).
Qed.
Lemma member_key_of : scalarmult_noclamp member_factor (point (abs_scalar (secret_scalar seed))) = Some member_key.
Proof. rewrite noclamp_of; [done|]. apply mul_nonzero; [done|]. by apply abs_nonzero, secret_nonzero. Qed.

Lemma make_subaccount : swarm_make_subaccount k (to_hex (byte_of 5 :: x_pubkey seed)) write del = Ok signing_value.
Proof.
  unfold swarm_make_subaccount, admin. rewrite k_secret, k_public.
  rewrite (prefixed_id_pk (byte_of 5) "05") by (apply to_hex_05 || apply x_pubkey_size || done). cbn [mbind res_bind].
  rewrite member_factor_of. cbn [mbind res_bind]. by rewrite xed_pubkey_seed, member_key_of by done.
Qed.
Lemma subaccount_token : swarm_subaccount_token k (to_hex (byte_of 5 :: x_pubkey seed)) write del = Ok member_token.
Proof.
  unfold swarm_subaccount_token, admin. rewrite k_secret, k_public. cbn [negb throw_if mbind res_bind].
  rewrite (prefixed_id_pk (byte_of 5) "05") by (apply to_hex_05 || apply x_pubkey_size || done). cbn [mbind res_bind].
  rewrite member_factor_of. cbn [mbind res_bind]. by rewrite xed_pubkey_seed, member_key_of by done.
Qed.

(** The parts of the signing value. *)
Lemma signing_value_parts :
  size_of signing_value = 100 /\ take 4 signing_value = subacc_prefix write del /\
  take 32 (drop 4 signing_value) = member_factor /\ drop 36 signing_value = ed_sign member_token (ed_seed_keypair gseed).2.
Proof.
  assert (Hf : length member_factor = 32%nat) by (apply Nat2Z.inj; apply scalar_reduce_size).
  split_and!; unfold signing_value.
  - rewrite !size_of_app, ed_sign_size. unfold size_of at 2. by rewrite Hf.
  - done.
  - change (drop 4 (?p ++ ?x)) with x. by rewrite take_app_length' by done.
  - rewrite (app_assoc (subacc_prefix write del)). apply drop_app_length'. by rewrite length_app, Hf.
Qed.

Lemma member_public_key sk : sk = (ed_seed_keypair seed).2 -> clear_sign (ed_sk_to_pk sk) = point (abs_scalar (secret_scalar seed)).
Proof.
  intros ->. unfold ed_sk_to_pk. rewrite seed_privkey_pk by done. apply clear_sign_point. by apply secret_nonzero.
Qed.

Lemma token_signed : ed_verify (ed_sign member_token (ed_seed_keypair gseed).2) member_token (ed_seed_keypair gseed).1 = true.
Proof. by apply ed_verify_sign. Qed.

(** The member accepts the value exactly if it has the permissions asked for. *)
Lemma verify_subaccount (write' del' : bool) :
  swarm_verify_subaccount_for (bs "03" ++ to_hex (ed_seed_keypair gseed).1) (ed_seed_keypair seed).2 signing_value write' del' =
    Ok (implb write' write && implb del' del).
Proof.
  destruct signing_value_parts as (Hsize & Hp & Hf & Hsig). unfold swarm_verify_subaccount_for.
  destruct (hex_prefix (byte_of 3) "03" (ed_seed_keypair gseed).1) as [<- _]; [apply to_hex_03|done|].
  rewrite (prefixed_id_pk (byte_of 3) "03") by (apply to_hex_03 || by apply ed_seed_pk_size || done). cbn [mbind res_bind].
  assert (E : exists rest, signing_value = byte_of 3 :: byte_of (subacc_flags write del) :: rest) by (by eexists).
  destruct E as [rest E]. rewrite E at 1. destruct (flags_of write del) as (Fr & Fw & Fd).
  rewrite Hsize, Fr, Fw, Fd, Hf, Hsig, Hp. rewrite bool_decide_true by done.
  rewrite seed_privkey_size by done. cbn [Z.eqb Pos.eqb negb andb Z.ltb Z.compare Pos.compare Pos.compare_cont throw_if mbind res_bind].
  rewrite take_ge by (unfold ed_sk_to_pk; rewrite seed_privkey_pk by done; pose proof (point_size (secret_scalar seed)); unfold size_of in *; lia).
  rewrite member_public_key, member_key_of by done. fold member_token. rewrite token_signed.
  by destruct write', del', write, del.
Qed.

(** What the member sends with a request. *)
Lemma sign_subaccount (m : Keys) msg :
  user_ed25519_sk m = (ed_seed_keypair seed).2 -> is_Some (sig_pk m) ->
  scalar_of (subaccount_nonce (ed_seed_keypair seed).2 member_key msg) mod L <> 0 ->
  exists auth, swarm_subaccount_sign m msg signing_value true = Ok auth /\
    subaccount auth = member_token /\ ed_verify (subaccount_sig auth) member_token (ed_seed_keypair gseed).1 = true /\
    ed_verify (auth_signature auth) msg member_key = true.
Proof.
  intros Hu Hpk Hr. destruct signing_value_parts as (Hsize & Hp & Hf & Hsig). unfold swarm_subaccount_sign.
  rewrite Hsize, Hf, Hsig, Hp, Hu, (bool_decide_true (is_Some _)) by done. cbn [Z.eqb Pos.eqb negb throw_if mbind res_bind].
  rewrite member_public_key, member_key_of by done. eexists. split; [done|]. cbn [subaccount subaccount_sig auth_signature].
  split; [done|]. split; [apply token_signed|].
  unfold ed_sk_to_pk. rewrite seed_privkey_pk, conditional_negate by done.
  apply signature_valid; [done| |].
  - apply mul_nonzero; [done|]. by apply abs_nonzero, secret_nonzero.
  - pose proof order_pos. rewrite scalar_mul_of, Z.mod_mod by lia.
    by rewrite <- Z.mul_mod_idemp_r, negated_scalar, Z.mul_mod_idemp_r by lia.
Qed.
End Subaccount.
