(* ===== verification/CMessages.v ===== *)
(** * Messages and group keys in the C interface

    The exported functions of [src/session_encrypt.cpp], of [src/config/groups/keys.cpp], of
    [src/multi_encrypt.cpp] and of the files for keys, signatures, hashes and blinding.  Data is read through pointers and returned in new blocks ([CMemory]); an array of the caller that a
    text or a key is copied into is a byte string of fixed length.  The result [None] stands for an
    exception that was caught. *)
From S2P Require Import Prelude OMap Util Internal BtValue ThirdParty Bencode ConfigData ConfigParse.
From S2P Require Import ConfigMessage Encrypt SessionEncrypt Protos ConfigBase Multipart BaseSync.
From S2P Require Import MultiEncrypt DictField UserProfileConfig ContactsConfig GroupMembers GroupKeys.
From S2P Require Import GroupMessages Blinding SessionMessages SwarmSubaccount CStructs CMemory CConfigs MultiFacts.

Section Messages.
Context `{Allocator} `{Fe25519} `{Aead} `{Secretbox} `{TextEncodings}.

Definition session_encrypt_for_recipient_deterministic (m : memory)
    (plaintext_in plaintext_len ed25519_privkey recipient_pubkey : Z) : res (option (memory * Z * Z)) :=
  wrap_exceptions (
    sk ← load m ed25519_privkey 64;
    pk ← load m recipient_pubkey 32;
    plaintext ← load m plaintext_in plaintext_len;
    ciphertext ← encrypt_for_recipient_deterministic sk pk plaintext;
    copy_out m ciphertext).

(** [nonce] is the random number that is drawn. *)
Definition session_encrypt_for_blinded_recipient (m : memory)
    (plaintext_in plaintext_len ed25519_privkey open_group_pubkey recipient_blinded_id : Z) (nonce : bytes) :
    res (option (memory * Z * Z)) :=
  wrap_exceptions (
    sk ← load m ed25519_privkey 64;
    server_pk ← load m open_group_pubkey 32;
    id ← load m recipient_blinded_id 33;
    plaintext ← load m plaintext_in plaintext_len;
    ciphertext ← encrypt_for_blinded_recipient sk server_pk id plaintext nonce;
    copy_out m ciphertext).

(** The plaintext in a new block and the session id in the array of the caller. *)
Definition message_out (m : memory) (session_id_out : bytes) (r : res (bytes * bytes)) :
    res (option (memory * Z * Z * bytes)) :=
  wrap_exceptions (
    let! (plaintext, session_id) := r in
    id ← copy_text session_id_out session_id;
    let! (m, out, outlen) := copy_out m plaintext in
    Ok (m, out, outlen, id)).

Definition session_decrypt_incoming (m : memory) (ciphertext_in ciphertext_len ed25519_privkey : Z)
    (session_id_out : bytes) : res (option (memory * Z * Z * bytes)) :=
  message_out m session_id_out (
    sk ← load m ed25519_privkey 64;
    ciphertext ← load m ciphertext_in ciphertext_len;
    decrypt_incoming_session_id sk ciphertext).

Definition session_decrypt_incoming_legacy_group (m : memory)
    (ciphertext_in ciphertext_len x25519_pubkey x25519_seckey : Z) (session_id_out : bytes) :
    res (option (memory * Z * Z * bytes)) :=
  message_out m session_id_out (
    pk ← load m x25519_pubkey 32;
    sk ← load m x25519_seckey 32;
    ciphertext ← load m ciphertext_in ciphertext_len;
    decrypt_incoming_session_id_x pk sk ciphertext).

Definition session_decrypt_for_blinded_recipient (m : memory)
    (ciphertext_in ciphertext_len ed25519_privkey open_group_pubkey sender_id recipient_id : Z)
    (session_id_out : bytes) : res (option (memory * Z * Z * bytes)) :=
  message_out m session_id_out (
    sk ← load m ed25519_privkey 64;
    server_pk ← load m open_group_pubkey 32;
    sender ← load m sender_id 33;
    recipient ← load m recipient_id 33;
    ciphertext ← load m ciphertext_in ciphertext_len;
    decrypt_from_blinded_recipient sk server_pk sender recipient ciphertext).

(** [nonce_in] is [None] for a null pointer. *)
Definition session_decrypt_ons_response (m : memory) (name_in : bytes) (ciphertext_in ciphertext_len : Z)
    (nonce_in : option Z) (session_id_out : bytes) : res (option bytes) :=
  wrap_exceptions (
    nonce ← match nonce_in with Some p => n ← load m p XCHACHA_NPUBBYTES; Ok (Some n) | None => Ok None end;
    ciphertext ← load m ciphertext_in ciphertext_len;
    session_id ← decrypt_ons_response name_in ciphertext nonce;
    copy_text session_id_out session_id).

Definition session_decrypt_push_notification (m : memory) (payload_in payload_len enc_key_in : Z) :
    res (option (memory * Z * Z)) :=
  wrap_exceptions (
    payload ← load m payload_in payload_len;
    enc_key ← load m enc_key_in 32;
    plaintext ← decrypt_push_notification payload enc_key;
    copy_out m plaintext).

Definition session_compute_message_hash (pubkey_hex_in : bytes) (ns : Z) (base64_data_in hash_out : bytes) :
    res (option bytes) :=
  wrap_exceptions (hash ← compute_message_hash pubkey_hex_in ns base64_data_in; copy_text hash_out hash).

Definition session_encrypt_xchacha20 (m : memory) (plaintext_in plaintext_len enc_key_in : Z) (nonce : bytes) :
    res (option (memory * Z * Z)) :=
  wrap_exceptions (
    plaintext ← load m plaintext_in plaintext_len;
    enc_key ← load m enc_key_in 32;
    ciphertext ← encrypt_xchacha20 plaintext enc_key nonce;
    copy_out m ciphertext).
Definition session_decrypt_xchacha20 (m : memory) (ciphertext_in ciphertext_len enc_key_in : Z) :
    res (option (memory * Z * Z)) :=
  wrap_exceptions (
    ciphertext ← load m ciphertext_in ciphertext_len;
    enc_key ← load m enc_key_in 32;
    plaintext ← decrypt_xchacha20 ciphertext enc_key;
    copy_out m plaintext).
End Messages.

(** ** Group keys *)

Section GroupKeys.
Context `{Allocator} `{Oxenc} `{X25519} `{Aead} `{Zstd} `{Protobuf} `{TextEncodings} `{Randombytes}.

(** The object with the group's configs, or the error text. *)
Definition groups_keys_init (what : exn -> bytes) (m : memory)
    (user_ed25519_secretkey group_ed25519_pubkey group_ed25519_secretkey : Z) (g : group_configs) (dump dumplen : Z)
    (error : option bytes) : res ((Keys * group_configs) + option bytes) :=
  user_sk ← load m user_ed25519_secretkey 64;
  group_pk ← load m group_ed25519_pubkey 32;
  group_sk ← (if group_ed25519_secretkey =? 0 then Ok None else Some <$> load m group_ed25519_secretkey 64);
  dumped ← load_dumped m dump dumplen;
  c_wrapper_init_generic what error (new_keys user_sk group_pk group_sk dumped g).
Definition groups_keys_size (conf : Keys) : Z := keys_size conf.
Definition group_keys_get_key (conf : Keys) (N : nat) : option bytes := group_keys conf !! N.
Definition groups_keys_is_admin (conf : Keys) : bool := admin conf.
Definition groups_keys_load_admin_key (m : memory) (conf : Keys) (secret : Z) (g : group_configs) :
    res (option (Keys * group_configs)) :=
  wrap_exceptions (s ← load m secret 32; load_admin_key conf s g).
(** The message is returned as a pointer into the object. *)
Definition groups_keys_rekey (conf : Keys) (g : group_configs) : res (option (bytes * Keys * group_configs)) :=
  wrap_exceptions (rekey conf g).
Definition groups_keys_pending_config (conf : Keys) : option bytes := pending_config conf.
(** Whether anything was loaded is not returned. *)
Definition groups_keys_load_message (m : memory) (conf : Keys) (msg_hash : bytes) (data datalen timestamp_ms : Z)
    (g : group_configs) : res (option (Keys * group_configs)) :=
  wrap_exceptions (
    d ← load m data datalen;
    let! (_, conf, g) := load_key_message conf msg_hash d timestamp_ms g in Ok (conf, g)).
Definition groups_keys_active_hashes (m : memory) (conf : Keys) : res (memory * Z) :=
  make_string_list m (keys_active_hashes conf).
Definition groups_keys_needs_rekey (conf : Keys) : bool := needs_rekey conf.
Definition groups_keys_needs_dump (conf : Keys) : bool := needs_dump_ conf.
Definition groups_keys_storage_namespace : Z := namespace_value Protos.GroupKeys.
Definition groups_keys_dump (m : memory) (conf : Keys) : res (memory * Z * Z * Keys) :=
  let '(d, conf) := keys_dump conf in
  let! (m, out, outlen) := copy_out m d in Ok (m, out, outlen, conf).

(** A null pointer and the length 0 are returned if there is an exception.  The message is compressed
    and padded to a multiple of 256 bytes. *)
Definition groups_keys_encrypt_message (m : memory) (conf : Keys) (plaintext_in plaintext_len : Z) (nonce : bytes) :
    res (memory * Z * Z) :=
  r ← wrap_exceptions (
        plaintext ← load m plaintext_in plaintext_len;
        ciphertext ← encrypt_message conf plaintext true 256 nonce;
        copy_out m ciphertext);
  Ok (value_or r (m, 0, 0)).
Definition groups_keys_decrypt_message (m : memory) (conf : Keys) (ciphertext_in ciphertext_len : Z)
    (session_id : bytes) : res (option (memory * Z * Z * bytes)) :=
  wrap_exceptions (
    ciphertext ← load m ciphertext_in ciphertext_len;
    let! (sid, plaintext) := decrypt_message conf ciphertext in
    id ← copy_text session_id sid;
    let! (m, out, outlen) := copy_out m plaintext in
    Ok (m, out, outlen, id)).
Definition groups_keys_key_supplement (m : memory) (conf : Keys) (sids sids_len : Z) : res (option (memory * Z * Z)) :=
  session_ids ← load_strings m sids (Z.to_nat sids_len);
  wrap_session_ids session_ids "05" (msg ← key_supplement conf session_ids; copy_out m msg).
Definition groups_keys_current_generation (conf : Keys) : Z := to_int (current_generation conf).
End GroupKeys.

Section Subaccounts.
Context `{Allocator} `{Fe25519} `{TextEncodings}.

(** A failing [assert] ends the program. *)
Definition groups_keys_swarm_make_subaccount_flags (conf : Keys) (session_id : bytes) (write del : bool)
    (sign_value : bytes) : res (option bytes) :=
  wrap_session_ids [session_id] "05" (
    val ← swarm_make_subaccount conf session_id write del;
    _ ← throw_if (negb (size_of val =? 100)) UB;
    memcpy sign_value val (length val)).
Definition groups_keys_swarm_make_subaccount (conf : Keys) (session_id sign_value : bytes) : res (option bytes) :=
  groups_keys_swarm_make_subaccount_flags conf session_id true false sign_value.

Definition groups_keys_swarm_verify_subaccount_flags (m : memory) (group_id : bytes)
    (session_ed25519_secretkey signing_value : Z) (write del : bool) : res bool :=
  r ← wrap_exceptions (
        sk ← load m session_ed25519_secretkey 64;
        val ← load m signing_value 100;
        swarm_verify_subaccount_for group_id sk val write del);
  Ok (value_or r false).
Definition groups_keys_swarm_verify_subaccount (m : memory) (group_id : bytes)
    (session_ed25519_secretkey signing_value : Z) : res bool :=
  groups_keys_swarm_verify_subaccount_flags m group_id session_ed25519_secretkey signing_value false false.

Definition groups_keys_swarm_subaccount_sign (m : memory) (conf : Keys) (msg msg_len signing_value : Z)
    (subaccount_out subaccount_sig_out signature_out : bytes) : res (option (bytes * bytes * bytes)) :=
  wrap_exceptions (
    text ← load m msg msg_len;
    val ← load m signing_value 100;
    auth ← swarm_subaccount_sign conf text val false;
    _ ← throw_if (negb ((size_of (subaccount auth) =? 48) && (size_of (subaccount_sig auth) =? 88) &&
                        (size_of (auth_signature auth) =? 88))) UB;
    a ← copy_text subaccount_out (subaccount auth);
    b ← copy_text subaccount_sig_out (subaccount_sig auth);
    c ← copy_text signature_out (auth_signature auth);
    Ok (a, b, c)).
Definition groups_keys_swarm_subaccount_sign_binary (m : memory) (conf : Keys) (msg msg_len signing_value : Z)
    (subaccount_out subaccount_sig_out signature_out : bytes) : res (option (bytes * bytes * bytes)) :=
  wrap_exceptions (
    text ← load m msg msg_len;
    val ← load m signing_value 100;
    auth ← swarm_subaccount_sign conf text val true;
    _ ← throw_if (negb ((size_of (subaccount auth) =? 36) && (size_of (subaccount_sig auth) =? 64) &&
                        (size_of (auth_signature auth) =? 64))) UB;
    a ← memcpy subaccount_out (subaccount auth) 36;
    b ← memcpy subaccount_sig_out (subaccount_sig auth) 64;
    c ← memcpy signature_out (auth_signature auth) 64;
    Ok (a, b, c)).
Definition groups_keys_swarm_subaccount_token_flags (conf : Keys) (session_id : bytes) (write del : bool)
    (token : bytes) : res (option bytes) :=
  wrap_session_ids [session_id] "05" (
    tok ← swarm_subaccount_token conf session_id write del;
    _ ← throw_if (negb (size_of tok =? 36)) UB;
    memcpy token tok 36).
Definition groups_keys_swarm_subaccount_token (conf : Keys) (session_id token : bytes) : res (option bytes) :=
  groups_keys_swarm_subaccount_token_flags conf session_id true false token.
End Subaccounts.

(** ** Keys, signatures and hashes

    The exported functions of [src/blinding.cpp], [src/ed25519.cpp], [src/xed25519.cpp],
    [src/curve25519.cpp], [src/hash.cpp] and [src/random.cpp]. *)
Section Keys.
Context `{Allocator} `{Fe25519} `{TextEncodings}.

(** [memcpy(dest, s.data(), s.size())] *)
Definition copy_bytes (dest s : bytes) : res bytes := memcpy dest s (length s).
(** Two keys into the two arrays of the caller. *)
Definition copy_pair (pk_out sk_out : bytes) (keys : bytes * bytes) : res (bytes * bytes) :=
  pk ← copy_bytes pk_out keys.1;
  sk ← copy_bytes sk_out keys.2;
  Ok (pk, sk).

Definition session_blind15_key_pair (m : memory) (ed25519_seckey server_pk : Z) (blinded_pk_out blinded_sk_out : bytes) :
    res (option (bytes * bytes)) :=
  wrap_exceptions (
    sk ← load m ed25519_seckey 64;
    server ← load m server_pk 32;
    let! (b_pk, b_sk, _) := blind15_key_pair sk server in
    copy_pair blinded_pk_out blinded_sk_out (b_pk, b_sk)).
Definition session_blind25_key_pair (m : memory) (ed25519_seckey server_pk : Z) (blinded_pk_out blinded_sk_out : bytes) :
    res (option (bytes * bytes)) :=
  wrap_exceptions (
    sk ← load m ed25519_seckey 64;
    server ← load m server_pk 32;
    let! (b_pk, b_sk, _) := blind25_key_pair sk server in
    copy_pair blinded_pk_out blinded_sk_out (b_pk, b_sk)).
Definition session_blind_version_key_pair (m : memory) (ed25519_seckey : Z) (blinded_pk_out blinded_sk_out : bytes) :
    res (option (bytes * bytes)) :=
  wrap_exceptions (
    sk ← load m ed25519_seckey 64;
    keys ← blind_version_key_pair sk;
    copy_pair blinded_pk_out blinded_sk_out keys).

Definition session_blind15_sign (m : memory) (ed25519_seckey server_pk msg msg_len : Z) (blinded_sig_out : bytes) :
    res (option bytes) :=
  wrap_exceptions (
    sk ← load m ed25519_seckey 64;
    server ← load m server_pk 32;
    message ← load m msg msg_len;
    sig ← blind15_sign sk server message;
    copy_bytes blinded_sig_out sig).
Definition session_blind25_sign (m : memory) (ed25519_seckey server_pk msg msg_len : Z) (blinded_sig_out : bytes) :
    res (option bytes) :=
  wrap_exceptions (
    sk ← load m ed25519_seckey 64;
    server ← load m server_pk 32;
    message ← load m msg msg_len;
    sig ← blind25_sign sk server message;
    copy_bytes blinded_sig_out sig).

(** An argument that may be a null pointer. *)
Definition load_or_null (m : memory) (p n : Z) : res (option bytes) :=
  if p =? 0 then Ok None else Some <$> load m p n.
Definition session_blind_version_sign_request (m : memory) (ed25519_seckey timestamp : Z) (method path : bytes)
    (body body_len : Z) (blinded_sig_out : bytes) : res (option bytes) :=
  body ← load_or_null m body body_len;
  wrap_exceptions (
    sk ← load m ed25519_seckey 64;
    sig ← blind_version_sign_request sk timestamp method path body;
    copy_bytes blinded_sig_out sig).
Definition session_blind_version_sign (m : memory) (ed25519_seckey : Z) (platform : Platform) (timestamp : Z)
    (blinded_sig_out : bytes) : res (option bytes) :=
  wrap_exceptions (
    sk ← load m ed25519_seckey 64;
    sig ← blind_version_sign sk platform timestamp;
    copy_bytes blinded_sig_out sig).

(** An exception counts as no match. *)
Definition c_session_id_matches_blinded_id (m : memory) (session_id blinded_id server_pk : Z) : res bool :=
  catch_all (
    sid ← load m session_id 66;
    blinded ← load m blinded_id 66;
    server ← load m server_pk 64;
    session_id_matches_blinded_id sid blinded server) false.

(** [drawn] is the key pair that libsodium draws. *)
Definition session_ed25519_key_pair (drawn : bytes * bytes) (ed25519_pk_out ed25519_sk_out : bytes) :
    res (option (bytes * bytes)) :=
  wrap_exceptions (copy_pair ed25519_pk_out ed25519_sk_out drawn).
Definition session_ed25519_key_pair_seed (m : memory) (ed25519_seed : Z) (ed25519_pk_out ed25519_sk_out : bytes) :
    res (option (bytes * bytes)) :=
  wrap_exceptions (
    seed ← load m ed25519_seed 32;
    keys ← ed25519_key_pair seed;
    copy_pair ed25519_pk_out ed25519_sk_out keys).
Definition session_seed_for_ed_privkey (m : memory) (ed25519_privkey : Z) (ed25519_seed_out : bytes) :
    res (option bytes) :=
  wrap_exceptions (
    sk ← load m ed25519_privkey 64;
    seed ← seed_for_ed_privkey sk;
    copy_bytes ed25519_seed_out seed).
Definition session_ed25519_sign (m : memory) (ed25519_privkey msg msg_len : Z) (ed25519_sig_out : bytes) :
    res (option bytes) :=
  wrap_exceptions (
    sk ← load m ed25519_privkey 64;
    message ← load m msg msg_len;
    sig ← ed25519_sign sk message;
    copy_bytes ed25519_sig_out sig).
Definition session_ed25519_verify (m : memory) (sig pubkey msg msg_len : Z) : res bool :=
  signature ← load m sig 64;
  pk ← load m pubkey 32;
  message ← load m msg msg_len;
  ed25519_verify signature pk message.

(** [random] are the 64 bytes that are drawn for a signature. *)
Definition session_xed25519_sign (m : memory) (signature : bytes) (curve25519_privkey msg msg_len : Z) (random : bytes) :
    res (option bytes) :=
  wrap_exceptions (
    sk ← load m curve25519_privkey 32;
    message ← load m msg msg_len;
    copy_bytes signature (xed_sign sk message random)).
Definition session_xed25519_verify (m : memory) (signature pubkey msg msg_len : Z) : res bool :=
  sig ← load m signature 64;
  pk ← load m pubkey 32;
  message ← load m msg msg_len;
  Ok (xed_verify sig pk message).
Definition session_xed25519_pubkey (m : memory) (ed25519_pubkey : bytes) (curve25519_pubkey : Z) : res (option bytes) :=
  wrap_exceptions (pk ← load m curve25519_pubkey 32; copy_bytes ed25519_pubkey (xed_pubkey pk)).

Definition session_curve25519_key_pair (drawn : bytes * bytes) (curve25519_pk_out curve25519_sk_out : bytes) :
    res (option (bytes * bytes)) :=
  wrap_exceptions (copy_pair curve25519_pk_out curve25519_sk_out drawn).
Definition session_to_curve25519_pubkey (m : memory) (ed25519_pubkey : Z) (curve25519_pk_out : bytes) :
    res (option bytes) :=
  wrap_exceptions (
    pk ← load m ed25519_pubkey 32;
    x ← to_curve25519_pubkey pk;
    copy_bytes curve25519_pk_out x).
Definition session_to_curve25519_seckey (m : memory) (ed25519_seckey : Z) (curve25519_sk_out : bytes) :
    res (option bytes) :=
  wrap_exceptions (
    sk ← load m ed25519_seckey 64;
    x ← to_curve25519_seckey sk;
    copy_bytes curve25519_sk_out x).

Definition c_session_hash (m : memory) (size msg_in msg_len key_in key_len : Z) (hash_out : bytes) : res (option bytes) :=
  wrap_exceptions (
    key ← (if key_len =? 0 then Ok None else load_or_null m key_in key_len);
    msg ← load m msg_in msg_len;
    result ← session_hash size msg key;
    memcpy hash_out result (Z.to_nat size)).

(** [draw n] are the [n] bytes that are drawn. *)
Definition session_random (m : memory) (draw : Z -> bytes) (size : Z) : res (memory * Z) :=
  let! (m, ret, _) := copy_out m (draw size) in Ok (m, ret).
End Keys.

(** ** Messages to several recipients: the exported functions of [src/multi_encrypt.cpp] *)
Section MultiEncryption.
Context `{Allocator} `{Oxenc} `{X25519} `{Aead}.

Definition to_c_buffer (m : memory) (x : bytes) : res (memory * Z * Z) := copy_out m x.

Fixpoint load_spans (m : memory) (pointers lengths : Z) (n : nat) : res (list bytes) :=
  match n with
  | O => Ok []
  | S n =>
      p ← load_word m pointers; len ← load_word m lengths; s ← load m p len;
      l ← load_spans m (pointers + 8) (lengths + 8) n; Ok (s :: l)
  end.
Fixpoint load_keys (m : memory) (pointers : Z) (n : nat) : res (list bytes) :=
  match n with
  | O => Ok []
  | S n => p ← load_word m pointers; k ← load m p 32; l ← load_keys m (pointers + 8) n; Ok (k :: l)
  end.

(** The keys are given as values because one caller has them in arrays of its own. *)
Definition encrypt_for_multiple_with (m : memory) (messages message_lengths n_messages recipients n_recipients : Z)
    (privkey pubkey : bytes) (domain : bytes) (nonce pad : Z) (random_nonce : bytes) (random : nat -> Z -> bytes) :
    res (option (memory * Z * Z)) :=
  msgs ← load_spans m messages message_lengths (Z.to_nat n_messages);
  recips ← load_keys m recipients (Z.to_nat n_recipients);
  maybe_nonce ← (if nonce =? 0 then Ok None else Some <$> load m nonce 24);
  wrap_exceptions (
    encoded ← encrypt_for_multiple_simple msgs recips privkey pubkey domain maybe_nonce pad random_nonce random;
    to_c_buffer m encoded).
Definition session_encrypt_for_multiple_simple (m : memory)
    (messages message_lengths n_messages recipients n_recipients x25519_privkey x25519_pubkey : Z) (domain : bytes)
    (nonce pad : Z) (random_nonce : bytes) (random : nat -> Z -> bytes) : res (option (memory * Z * Z)) :=
  privkey ← load m x25519_privkey 32;
  pubkey ← load m x25519_pubkey 32;
  encrypt_for_multiple_with m messages message_lengths n_messages recipients n_recipients privkey pubkey domain
    nonce pad random_nonce random.
Definition session_encrypt_for_multiple_simple_ed25519 (m : memory)
    (messages message_lengths n_messages recipients n_recipients ed25519_secret_key : Z) (domain : bytes)
    (nonce pad : Z) (random_nonce : bytes) (random : nat -> Z -> bytes) : res (option (memory * Z * Z)) :=
  keys ← wrap_exceptions (sk ← load m ed25519_secret_key 64; x_keys sk);
  match keys with
  | None => Ok None
  | Some (priv, pub) =>
      encrypt_for_multiple_with m messages message_lengths n_messages recipients n_recipients priv pub domain
        nonce pad random_nonce random
  end.

(** The decrypted message in a new block; a null pointer if there is none. *)
Definition decrypted_out (m : memory) (r : res (option bytes)) : res (option (memory * Z * Z)) :=
  o ← wrap_exceptions r;
  match o with
  | Some (Some decrypted) => wrap_exceptions (to_c_buffer m decrypted)
  | _ => Ok None
  end.
Definition session_decrypt_for_multiple_simple (m : memory)
    (encoded encoded_len x25519_privkey x25519_pubkey sender_x25519_pubkey : Z) (domain : bytes) :
    res (option (memory * Z * Z)) :=
  decrypted_out m (
    e ← load m encoded encoded_len;
    privkey ← load m x25519_privkey 32;
    pubkey ← load m x25519_pubkey 32;
    sender ← load m sender_x25519_pubkey 32;
    decrypt_for_multiple_simple e privkey pubkey sender domain).
Definition session_decrypt_for_multiple_simple_ed25519_from_x25519 (m : memory)
    (encoded encoded_len ed25519_secret sender_x25519_pubkey : Z) (domain : bytes) : res (option (memory * Z * Z)) :=
  decrypted_out m (
    e ← load m encoded encoded_len;
    sk ← load m ed25519_secret 64;
    sender ← load m sender_x25519_pubkey 32;
    decrypt_for_multiple_simple_x e sk sender domain).
Definition session_decrypt_for_multiple_simple_ed25519 (m : memory)
    (encoded encoded_len ed25519_secret sender_ed25519_pubkey : Z) (domain : bytes) : res (option (memory * Z * Z)) :=
  decrypted_out m (
    e ← load m encoded encoded_len;
    sk ← load m ed25519_secret 64;
    sender ← load m sender_ed25519_pubkey 32;
    decrypt_for_multiple_simple_ed25519 e sk sender domain).
End MultiEncryption.

(** ** Facts *)

Lemma hex_no_null `{TextEncodings} s : char_nul ∉ to_hex s.
Proof. intros Hin. by pose proof (is_hex_digits _ _ (is_hex_to_hex s) Hin). Qed.

Lemma session_id_text `{TextEncodings} x : size_of x = 32 -> fits 67 (bs "05" ++ to_hex x).
Proof.
  intros Hx. split.
  - rewrite size_of_app, to_hex_size, Hx. done.
  - intros [Hin|Hin]%elem_of_app; [|by apply hex_no_null in Hin].
    apply list_elem_of_In in Hin. cbn in Hin. destruct Hin as [?|[?|[]]]; done.
Qed.

(** It fills the array. *)
Lemma session_id_array `{TextEncodings} dest x :
  size_of dest = 67 -> size_of x = 32 ->
  c_text dest (bs "05" ++ to_hex x) = bs "05" ++ to_hex x ++ [char_nul] /\
  size_of (bs "05" ++ to_hex x ++ [char_nul]) = 67.
Proof.
  intros Hd Hx. pose proof (to_hex_size x) as Ht. rewrite Hx in Ht. unfold c_text.
  rewrite drop_ge by (unfold size_of in *; rewrite length_app; cbn [length bs]; cbn; lia).
  split; [by rewrite <- app_assoc|]. rewrite !size_of_app, Ht. done.
Qed.

Section Facts.
Context `{Allocator} `{Fe25519} `{Aead} `{Secretbox} `{TextEncodings}.

Lemma message_out_ok m session_id_out r plaintext session_id :
  r = Ok (plaintext, session_id) -> wf_memory m -> malloc m (size_of plaintext) <> None ->
  fits (size_of session_id_out) session_id ->
  exists m' p id, message_out m session_id_out r = Ok (Some (m', p, size_of plaintext, id)) /\
    load m' p (size_of plaintext) = Ok plaintext /\ adds m m' p plaintext /\
    id = c_text session_id_out session_id /\ c_string id = Ok session_id.
Proof.
  intros -> Hm Hb [Hs Hn]. unfold message_out. rewrite copy_text_fits by done. cbn [mbind res_bind].
  destruct (copy_out_ok m plaintext Hm Hb) as (m' & p & -> & Hl & _ & _ & Ha). exists m', p. eexists.
  split_and!; [done..|]. by apply c_string_app.
Qed.

Lemma privkey_take seed : size_of seed = 32 -> take 32 (ed_seed_keypair seed).2 = take 32 seed.
Proof. intros Hs. rewrite ed_seed_sk by done. rewrite take_app_le; [done|]. unfold size_of in Hs. lia. Qed.

(** The seed and the 64-byte key are used alike. *)
Lemma encrypt_deterministic_key seed pk message :
  size_of seed = 32 ->
  encrypt_for_recipient_deterministic (ed_seed_keypair seed).2 pk message =
  encrypt_for_recipient_deterministic seed pk message.
Proof.
  intros Hs. unfold encrypt_for_recipient_deterministic, sign_for_recipient.
  by rewrite full_privkey_sk, full_privkey_seed, privkey_take by done.
Qed.
Lemma decrypt_incoming_key seed c :
  size_of seed = 32 -> decrypt_incoming_session_id (ed_seed_keypair seed).2 c = decrypt_incoming_session_id seed c.
Proof.
  intros Hs. unfold decrypt_incoming_session_id, decrypt_incoming. by rewrite full_privkey_sk, full_privkey_seed by done.
Qed.

(** A buffer of the caller. *)
Definition holds (m : memory) (p : Z) (s : bytes) : Prop := load m p (size_of s) = Ok s.

Lemma holds_extends m m' p s : wf_memory m' -> (forall b, b ∈ m -> b ∈ m') -> holds m p s -> holds m' p s.
Proof. intros. apply (load_extends m); auto. apply size_of_nonneg. Qed.

Lemma holds_sized m p s n : holds m p s -> size_of s = n -> load m p n = Ok s.
Proof. by intros ? <-. Qed.

(** A key of the size of the array replaces what was in it. *)
Lemma copy_bytes_key dest k : size_of dest = size_of k -> copy_bytes dest k = Ok k.
Proof. intros Hs. apply memcpy_key; [done|]. unfold size_of in Hs. lia. Qed.

(** What is encrypted with [config_encrypt] is decrypted with [config_decrypt] from the block it is in. *)
Lemma config_encrypt_roundtrip `{Aead} m plaintext message key_base key domain :
  wf_memory m -> holds m plaintext message -> holds m key_base key -> key_args_ok key domain -> size_of message < 2 ^ 63 ->
  exists c, encrypt message key domain = Ok c /\
    (malloc m (size_of c) <> None ->
     exists m1 p, config_encrypt m plaintext (size_of message) key_base domain = Ok (Some (m1, p, size_of c)) /\ wf_memory m1 /\
       (malloc m1 (size_of message) <> None ->
        exists m2 q, config_decrypt m1 p (size_of c) key_base domain = Ok (Some (m2, q, size_of message)) /\ holds m2 q message)).
Proof.
  intros Hm Hp Hk Hok Hs. destruct (decrypt_encrypt message key domain Hok Hs) as (c & Ec & Ed). exists c. split; [done|].
  intros Hb. destruct (copy_out_ok m c Hm Hb) as (m1 & p & Eo & Hc & Hw & Hsub & _). exists m1, p.
  assert (size_of key = 32) as Hk32 by apply Hok. unfold config_encrypt, config_decrypt.
  rewrite Hp. cbn [mbind res_bind]. rewrite (holds_sized _ _ _ 32 Hk) by done. cbn [mbind res_bind]. rewrite Ec.
  cbn [wrap_exceptions mbind res_bind]. rewrite Eo. split_and!; [done..|]. intros Hb1.
  destruct (copy_out_ok m1 message Hw Hb1) as (m2 & q & Eq & Hq & _). exists m2, q. split; [|done].
  rewrite Hc. cbn [mbind res_bind]. rewrite (holds_sized _ _ _ 32 (holds_extends _ _ _ _ Hw Hsub Hk)) by done.
  cbn [mbind res_bind]. rewrite Ed. cbn [wrap_exceptions mbind res_bind]. by rewrite Eq.
Qed.

(** An admin's functions for subaccounts treat an id that is not valid like the lookups do. *)
Lemma subaccount_invalid_id `{Fe25519} `{TextEncodings} conf id write del out :
  admin conf = true -> size_of id < 2 ^ 63 -> check_session_id id "05" <> Ok tt ->
  groups_keys_swarm_make_subaccount_flags conf id write del out = invalid_id_result id /\
  groups_keys_swarm_subaccount_token_flags conf id write del out = invalid_id_result id.
Proof.
  intros Ha Hs E%check_id_invalid. unfold groups_keys_swarm_make_subaccount_flags, groups_keys_swarm_subaccount_token_flags.
  unfold swarm_make_subaccount, swarm_subaccount_token, session_id_pk. rewrite Ha, E.
  destruct (sig_sk conf) as [sk|] eqn:Ek; [|unfold admin in Ha; by rewrite Ek in Ha].
  cbn [throw_if negb mbind res_bind]. split; by apply wrap_invalid_id.
Qed.
End Facts.

Section MultiFacts.
Context `{Allocator} `{Oxenc} `{X25519} `{Aead}.

(** A message to several recipients through the C functions: the [i]th recipient gets the [i]th
    message, or the only one, in a new block. *)
Lemma c_multi_roundtrip m a b nonce ms rs domain pad rn random out mp ml rp ask apk bsk bpk np :
  wf_memory m -> size_of a = 32 -> size_of b = 32 -> size_of nonce = 24 -> np <> 0 ->
  holds m ask a -> holds m apk (scalarmult_base a) -> holds m bsk b -> holds m bpk (scalarmult_base b) -> holds m np nonce ->
  load_spans m mp ml (length ms) = Ok ms -> load_keys m rp (length rs) = Ok rs ->
  encrypt_for_multiple_simple ms rs a (scalarmult_base a) domain (Some nonce) pad rn random = Ok out ->
  malloc m (size_of out) <> None ->
  exists m1 p,
    session_encrypt_for_multiple_simple m mp ml (size_of ms) rp (size_of rs) ask apk domain np pad rn random =
      Ok (Some (m1, p, size_of out)) /\ holds m1 p out /\
    forall i msg, (if (length ms =? 1)%nat then ms !! 0%nat else ms !! i) = Some msg -> rs !! i = Some (scalarmult_base b) ->
    exists cs key, encrypt_for_multiple ms rs nonce a (scalarmult_base a) domain false = Ok cs /\
      encrypt_multi_key b (scalarmult_base b) (scalarmult_base a) false domain = Ok key /\
      (opens_only key nonce (cs ++ junk_entries ms pad (size_of cs) random) msg -> malloc m1 (size_of msg) <> None ->
       exists m2 q, session_decrypt_for_multiple_simple m1 p (size_of out) bsk bpk apk domain = Ok (Some (m2, q, size_of msg)) /\
         holds m2 q msg).
Proof.
  intros Hm Ha Hb Hn Hnp Hask Hapk Hbsk Hbpk Hnonce Hms Hrs He Hout.
  destruct (copy_out_ok m out Hm Hout) as (m1 & p & Eo & Hc & Hw & Hsub & _). exists m1, p.
  unfold session_encrypt_for_multiple_simple, encrypt_for_multiple_with, to_c_buffer.
  rewrite (holds_sized _ _ _ 32 Hask), (holds_sized _ _ _ 32 Hapk) by (try apply scalarmult_base_size; done). cbn [mbind res_bind].
  unfold size_of at 1 2. rewrite !Nat2Z.id, Hms, Hrs. cbn [mbind res_bind]. rewrite (proj2 (Z.eqb_neq _ _) Hnp).
  rewrite (holds_sized _ _ _ 24 Hnonce) by done. cbn [fmap res_fmap mbind res_bind]. rewrite He. cbn [mbind res_bind]. rewrite Eo.
  split_and!; [done|done|]. intros i msg Hmsg Hr.
  destruct (multi_simple_ok a b ms rs domain nonce pad rn random out i msg Ha Hb He Hmsg Hr) as (cs & key & Hcs & Hkey & Hd).
  exists cs, key. split_and!; [done|done|]. intros Ho Hmm. specialize (Hd Ho).
  destruct (copy_out_ok m1 msg Hw Hmm) as (m2 & q & Eq & Hq & _). exists m2, q. split; [|done].
  unfold session_decrypt_for_multiple_simple, decrypted_out, to_c_buffer.
  pose proof (holds_extends _ _ _ _ Hw Hsub Hbsk) as Hbsk1. pose proof (holds_extends _ _ _ _ Hw Hsub Hbpk) as Hbpk1.
  pose proof (holds_extends _ _ _ _ Hw Hsub Hapk) as Hapk1. rewrite Hc. cbn [mbind res_bind].
  rewrite (holds_sized _ _ _ 32 Hbsk1) by done. cbn [mbind res_bind].
  rewrite (holds_sized _ _ _ 32 Hbpk1) by apply scalarmult_base_size. cbn [mbind res_bind].
  rewrite (holds_sized _ _ _ 32 Hapk1) by apply scalarmult_base_size. cbn [mbind res_bind]. rewrite Hd. cbn. by rewrite Eq.
Qed.
End MultiFacts.
