(* ===== verification/CNetwork.v ===== *)
(** * The client version and the C interface of onion requests and the network

    [Network::get_client_version] of [src/session_network.cpp], a request to the file server that is
    signed with a key derived from the account; and the exported functions of
    [src/session_network.cpp] and [src/onionreq/builder.cpp].  Arguments that are pointers are read
    from memory ([CMemory]); a callback with its context is a number, as in [NetworkState].
    [assert] has no effect, as in a release build. *)
From stdpp Require Import list_numbers.
From S2P Require Import Prelude OMap Util Internal BtValue Bencode ThirdParty SessionEncrypt OnionRequest.
From S2P Require Import ConfigData NetworkData NetworkResponse NetworkState NetworkRun Community Blinding CStructs CMemory CMessages.

Definition file_server : bytes := "filev2.getsession.org".
Definition file_server_pubkey : bytes := "da21e1d886c6fbaea313f75298bd64aab03a97ce985b46bb2dad9f2089c8ee59".

Section Version.
Context `{Quic} `{Rng} `{Oxenc} `{TextEncodings} `{X25519} `{Aead} `{AesGcm} `{Json} `{JsonNumbers} `{Texts}.

(** The destination with the signature in its headers, and the key of the server. *)
Definition version_request (platform : Platform) (seckey : bytes) (timestamp : Z) : res (ServerDestination * bytes) :=
  let endpoint := version_url platform in
  let! (blinded_pk, _) := blind_version_key_pair seckey in
  signature ← blind_version_sign seckey platform timestamp;
  pubkey ← load_from_hex 32 file_server_pubkey;
  let headers := [(bs "X-FS-Pubkey", bs "07" ++ to_hex blinded_pk); (bs "X-FS-Timestamp", print_int timestamp);
                  (bs "X-FS-Signature", to_base64 signature)] in
  Ok ({| sd_protocol := bs "http"; sd_host := file_server; sd_endpoint := endpoint; sd_x25519_pubkey := pubkey;
         sd_port := Some 80; sd_headers := Some headers; sd_method := bs "GET" |}, pubkey).

Definition get_client_version (caught : bool) (platform : Platform) (seckey : bytes) (request_timeout : Z) (path_build_timeout : option Z)
    (id : nat) (n : Network) : res Network :=
  let timestamp := Z.quot (clock n) (1000 * NET_TICKS_PER_MS) in
  let! (server, pubkey) := version_request platform seckey timestamp in
  Ok (send_onion_request caught (ServerDest server) None (Some pubkey) request_timeout path_build_timeout pt_standard id n).

(** The signature is one of the whole request by the key in the headers, and sending it is an event
    like any other request, so that what holds in every run holds here too. *)
Lemma version_request_signed platform seckey timestamp pubkey :
  size_of seckey = 64 -> load_from_hex 32 file_server_pubkey = Ok pubkey ->
  exists pk signature server,
    version_request platform seckey timestamp = Ok (server, pubkey) /\
    sd_headers server = Some [(bs "X-FS-Pubkey", bs "07" ++ to_hex pk); (bs "X-FS-Timestamp", print_int timestamp);
                              (bs "X-FS-Signature", to_base64 signature)] /\
    ed25519_verify signature pk (print_int timestamp ++ sd_method server ++ sd_endpoint server) = Ok true.
Proof.
  intros Hs Hp. unfold version_request, blind_version_sign, blind_version_key_pair. rewrite Hs.
  cbn [Z.eqb Pos.eqb negb andb throw_if mbind res_bind]. set (seed := generichash 32 _ _).
  assert (Hseed : size_of seed = 32) by (by apply generichash_size).
  pose proof (ed_seed_pk_size seed Hseed) as Hpk. pose proof (ed_seed_sk seed Hseed) as Hsk.
  pose proof (fun m => ed_verify_sign m seed Hseed) as Hv.
  destruct (ed_seed_keypair seed) as [pk sk]. cbn [fst snd] in *.
  assert (Hsize : size_of sk = 64) by (rewrite Hsk, size_of_app; lia).
  unfold ed25519_sign, full_privkey. rewrite Hsize. cbn [Z.eqb Pos.eqb mbind res_bind]. rewrite Hp. cbn [mbind res_bind].
  eexists pk, _, _. split; [done|]. split; [done|]. unfold ed25519_verify. rewrite ed_sign_size, Hpk.
  cbn [Z.eqb Pos.eqb negb throw_if mbind res_bind sd_method sd_endpoint]. by rewrite Hv.
Qed.
Lemma get_client_version_sends caught platform seckey t pbt id n n' :
  get_client_version caught platform seckey t pbt id n = Ok n' -> exists e, n' = step e n.
Proof.
  unfold get_client_version. destruct (version_request _ _ _) as [[server pubkey]|]; [|done]. intros [= <-].
  by exists (EvSend caught (ServerDest server) None (Some pubkey) t pbt pt_standard id).
Qed.
End Version.

(** ** Structs *)

(** [ip] has 4 numbers and the key is an array of 65 characters. *)
Record network_service_node := { nsn_ip : list Z; nsn_quic_port : Z; nsn_ed25519_pubkey_hex : bytes }.
(** All but the port and the size are pointers. *)
Record network_server_destination := {
  nsd_method : Z; nsd_protocol : Z; nsd_host : Z; nsd_endpoint : Z; nsd_port : Z; nsd_x25519_pubkey : Z;
  nsd_headers : Z; nsd_header_values : Z; nsd_headers_size : Z
}.

Section CNetwork.
Context `{Allocator} `{Quic} `{Rng} `{Oxenc} `{TextEncodings} `{X25519} `{Aead} `{AesGcm} `{Json} `{JsonNumbers} `{Texts}.

Definition octets (addr : Z) : list Z :=
  [Z.land (Z.shiftr addr 24) 255; Z.land (Z.shiftr addr 16) 255; Z.land (Z.shiftr addr 8) 255; Z.land addr 255].
(** [strncpy(dest, s, n)] fills up with null bytes. *)
Definition strncpy (s : bytes) (n : nat) : bytes := take n (s ++ zeros n).
Definition convert_service_node (node : service_node) : network_service_node :=
  {| nsn_ip := octets (sn_ip node); nsn_quic_port := sn_port node;
     nsn_ed25519_pubkey_hex := strncpy (to_hex (sn_key node)) 64 ++ [char_nul] |}.
Definition convert_service_nodes (nodes : list service_node) : list network_service_node :=
  convert_service_node <$> nodes.

(** The service node that is made of an address, a port and the hex text of a key: its version and
    its swarm are not known. *)
Definition target_node (ip : list Z) (quic_port : Z) (ed25519_pubkey_hex : bytes) : res service_node :=
  addr ← parse_ip (join_with (bs ".") (print_int <$> ip));
  Ok {| sn_key := from_hex ed25519_pubkey_hex; sn_version := [0]; sn_swarm := INVALID_SWARM_ID;
        sn_ip := addr; sn_port := quic_port |}.
Definition node_of_struct (node : network_service_node) : res service_node :=
  target_node (nsn_ip node) (nsn_quic_port node) (take 64 (nsn_ed25519_pubkey_hex node)).

Fixpoint load_headers (m : memory) (headers header_values : Z) (n : nat) : res (list (bytes * bytes)) :=
  match n with
  | O => Ok []
  | S n =>
      hp ← load_word m headers; vp ← load_word m header_values;
      h ← load_c_str m hp; v ← load_c_str m vp;
      l ← load_headers m (headers + 8) (header_values + 8) n; Ok ((h, v) :: l)
  end.
Definition convert_server_destination (m : memory) (server : network_server_destination) : res ServerDestination :=
  headers ← (if 0 <? nsd_headers_size server
             then Some <$> load_headers m (nsd_headers server) (nsd_header_values server) (Z.to_nat (nsd_headers_size server))
             else Ok None);
  protocol ← load_c_str m (nsd_protocol server);
  host ← load_c_str m (nsd_host server);
  endpoint ← load_c_str m (nsd_endpoint server);
  hex ← load m (nsd_x25519_pubkey server) 64;
  pk ← load_from_hex 32 hex;
  method ← load_c_str m (nsd_method server);
  Ok {| sd_protocol := protocol; sd_host := host; sd_endpoint := endpoint; sd_x25519_pubkey := pk;
        sd_port := Some (nsd_port server); sd_headers := headers; sd_method := method |}.

(** ** Responses

    What the callback of the application is called with: texts end before the first null byte, and
    the status has 16 bits. *)
Record c_response := {
  cr_success : bool; cr_timeout : bool; cr_status_code : Z;
  cr_headers : list bytes; cr_header_values : list bytes;
  cr_response : option bytes
}.
Fixpoint before_null (s : bytes) : bytes :=
  match s with
  | [] => []
  | c :: s => if bool_decide (c = char_nul) then [] else c :: before_null s
  end.
Definition to_int16 (z : Z) : Z := (z + 2 ^ 15) mod 2 ^ 16 - 2 ^ 15.
Definition c_response_of (success timeout : bool) (status_code : Z) (headers : headers_t) (response : option bytes) :
    c_response :=
  {| cr_success := success; cr_timeout := timeout; cr_status_code := to_int16 status_code;
     cr_headers := before_null <$> headers.*1; cr_header_values := before_null <$> headers.*2;
     cr_response := response |}.

(** What the callbacks of the application get: the arrays are only there during the call. *)
Inductive c_output :=
| CResponse (id : nat) (r : c_response)
| CNodes (id : nat) (nodes : list network_service_node)
| CStatus (s : ConnectionStatus)
| CPaths (paths : list (list network_service_node)).
Definition c_output_of (o : output) : option c_output :=
  match o with
  | OutResponse id success timeout status_code headers response =>
      Some (CResponse id (c_response_of success timeout status_code headers response))
  | OutSwarm id _ nodes | OutNodes id nodes => Some (CNodes id (convert_service_nodes nodes))
  | OutStatus s => Some (CStatus s)
  | OutPaths paths => Some (CPaths (convert_service_nodes <$> paths))
  | OutThrown _ _ | OutSent _ _ => None
  end.

(** [catch (const std::exception& e)]: the callback is called at once with the text of the exception.  The
    block also covers the request itself, which runs on the thread of the caller: it is begun as one
    whose exceptions are caught, and [call_throws] does the same with them. *)
Definition or_fail (id : nat) (n : Network) (r : res Network) : res Network :=
  match r with
  | Ok n => Ok n
  | Throw e => if is_std_exception e then Ok (report (OutResponse id false false (-1) [] (Some (what e []))) n) else Throw e
  end.

(** ** Requests *)

Definition timeout_of (ms : Z) : option Z := if 0 <? ms then Some ms else None.
Definition body_of (m : memory) (body_ body_size : Z) : res (option bytes) :=
  if 0 <? body_size then Some <$> load m body_ body_size else Ok None.

Definition network_send_onion_request_to_snode_destination (m : memory) (node : network_service_node)
    (body_ body_size swarm_pubkey_hex request_timeout_ms request_and_path_build_timeout_ms : Z) (id : nat) (n : Network) :
    res Network :=
  or_fail id n (
    body ← body_of m body_ body_size;
    swarm_pubkey ← (if swarm_pubkey_hex =? 0 then Ok None
                    else hex ← load m swarm_pubkey_hex 64; Some <$> load_from_hex 32 hex);
    node ← node_of_struct node;
    Ok (send_onion_request true (NodeDestination node) body swarm_pubkey request_timeout_ms
          (timeout_of request_and_path_build_timeout_ms) pt_standard id n)).
Definition network_send_onion_request_to_server_destination (m : memory) (server : network_server_destination)
    (body_ body_size request_timeout_ms request_and_path_build_timeout_ms : Z) (id : nat) (n : Network) : res Network :=
  or_fail id n (
    body ← body_of m body_ body_size;
    server ← convert_server_destination m server;
    Ok (send_onion_request true (ServerDest server) body None request_timeout_ms
          (timeout_of request_and_path_build_timeout_ms) pt_standard id n)).
Definition network_upload_to_server (m : memory) (server : network_server_destination)
    (data data_len file_name_ request_timeout_ms request_and_path_build_timeout_ms : Z) (id : nat) (n : Network) :
    res Network :=
  or_fail id n (
    file_name ← (if file_name_ =? 0 then Ok None else Some <$> load_c_str m file_name_);
    data ← load m data data_len;
    server ← convert_server_destination m server;
    Ok (upload_file_to_server true data server file_name request_timeout_ms
          (timeout_of request_and_path_build_timeout_ms) id n)).
Definition network_download_from_server (m : memory) (server : network_server_destination)
    (request_timeout_ms request_and_path_build_timeout_ms : Z) (id : nat) (n : Network) : res Network :=
  or_fail id n (
    server ← convert_server_destination m server;
    Ok (download_file true server request_timeout_ms (timeout_of request_and_path_build_timeout_ms) id n)).
Definition network_get_client_version (m : memory) (platform : Platform) (ed25519_secret : Z)
    (request_timeout_ms request_and_path_build_timeout_ms : Z) (id : nat) (n : Network) : res Network :=
  or_fail id n (
    sk ← load m ed25519_secret 64;
    sk ← load_from_bytes 64 sk;
    get_client_version true platform sk request_timeout_ms (timeout_of request_and_path_build_timeout_ms) id n).

(** The requests that an application can make. *)
Inductive c_request :=
| CSendNode (node : network_service_node) (body_ body_size swarm_pubkey_hex : Z)
| CSendServer (server : network_server_destination) (body_ body_size : Z)
| CUpload (server : network_server_destination) (data data_len file_name_ : Z)
| CDownload (server : network_server_destination)
| CVersion (platform : Platform) (ed25519_secret : Z).
Definition c_call (m : memory) (r : c_request) (t pbt : Z) (id : nat) (n : Network) : res Network :=
  match r with
  | CSendNode node body size pk => network_send_onion_request_to_snode_destination m node body size pk t pbt id n
  | CSendServer server body size => network_send_onion_request_to_server_destination m server body size t pbt id n
  | CUpload server data len name => network_upload_to_server m server data len name t pbt id n
  | CDownload server => network_download_from_server m server t pbt id n
  | CVersion platform sk => network_get_client_version m platform sk t pbt id n
  end.

(** These do not catch exceptions. *)
Definition network_get_swarm (m : memory) (swarm_pubkey_hex : Z) (id : nat) (n : Network) : res Network :=
  hex ← load m swarm_pubkey_hex 64;
  pk ← load_from_hex 32 hex;
  Ok (get_swarm pk (SwUser id) n).
Definition network_get_random_nodes (count : Z) (id : nat) (n : Network) : Network := get_random_nodes count id n.

(** [network_init]: the path of the cache directory, [None] for a null pointer, stands for what is in
    it.  Nothing is thrown. *)
Definition network_init (st : ConnectionStatus) (cache : option disk_dir)
    (use_testnet single_path_mode pre_build_paths : bool) : bool * Network :=
  (true, new_network st cache use_testnet single_path_mode pre_build_paths).
Definition network_free (ok : bool) (n : Network) : Network := destroy ok n.
Definition network_suspend (n : Network) : Network := suspend n.
Definition network_resume (n : Network) : Network := resume n.
Definition network_close_connections (n : Network) : Network := _close_connections n.
Definition network_clear_cache (n : Network) : Network := clear_cache n.
Definition network_get_snode_cache_size (n : Network) : Z := size_of (snode_cache n).

(** ** The callback for changed paths

    The array of paths, each a pointer and a count, is in a block of its own, and so are the nodes
    of each path.  A node takes 72 bytes: the last one is padding, which is not specified (here it
    is null), and the port has two bytes, the lower one first. *)
Definition sizeof_node : Z := 72.
Definition sizeof_path : Z := 16.
Definition node_bytes (c : network_service_node) : bytes :=
  (byte_of <$> nsn_ip c) ++ (byte_of <$> Z_to_little_endian 2 8 (nsn_quic_port c)) ++ nsn_ed25519_pubkey_hex c ++ [char_nul].

(** The loop: [b] is the block of the array and [p] the address of the next path in it. *)
Fixpoint put_paths (m : memory) (b : block) (p : Z) (paths : list (list service_node)) : res (memory * block) :=
  match paths with
  | [] => Ok (m, b)
  | nodes :: paths =>
      let c_nodes := convert_service_nodes nodes in
      let! (m, q) := match malloc (b :: m) (sizeof_node * size_of c_nodes) with
                     | None => if is_nil nodes then Ok (m, 0) else Throw UB
                     | Some nb => nb ← store nb (b_addr nb) (concat (node_bytes <$> c_nodes)); Ok (nb :: m, b_addr nb)
                     end in
      b ← store_word b p q;
      b ← store_word b (p + 8) (size_of c_nodes);
      put_paths m b (p + sizeof_path) paths
  end.
(** The memory with the array and its address. *)
Definition paths_changed_out (m : memory) (paths : list (list service_node)) : res (memory * Z) :=
  let paths_mem_size := foldr (fun nodes n => sizeof_path + sizeof_node * size_of nodes + n) 0 paths in
  match malloc m paths_mem_size with
  | None => if is_nil paths then Ok (m, 0) else Throw UB
  | Some b => let! (m, b) := put_paths m b (b_addr b) paths in Ok (b :: m, b_addr b)
  end.
(** The callbacks that are registered, each a function and the pointer it is given; the null pointer
    takes a callback away. *)
Record network_callbacks := { status_changed : option (Z * Z); paths_changed : option (Z * Z) }.
Definition registered (callback ctx : Z) : option (Z * Z) := if callback =? 0 then None else Some (callback, ctx).
Definition network_set_status_changed_callback (cbs : network_callbacks) (callback ctx : Z) : network_callbacks :=
  {| status_changed := registered callback ctx; paths_changed := paths_changed cbs |}.
Definition network_set_paths_changed_callback (cbs : network_callbacks) (callback ctx : Z) : network_callbacks :=
  {| status_changed := status_changed cbs; paths_changed := registered callback ctx |}.

Definition CONNECTION_STATUS (s : ConnectionStatus) : Z :=
  match s with st_unknown => 0 | st_connecting => 1 | st_connected => 2 | st_disconnected => 3 end.
(** The call of C that a change leads to, if there is one; the paths are in new memory. *)
Inductive callback_call := StatusCall (callback status ctx : Z) | PathsCall (callback paths paths_len ctx : Z).
Definition call_back (m : memory) (cbs : network_callbacks) (o : output) : res (memory * option callback_call) :=
  match o with
  | OutStatus s =>
      Ok (m, match status_changed cbs with Some (f, ctx) => Some (StatusCall f (CONNECTION_STATUS s) ctx) | None => None end)
  | OutPaths paths =>
      match paths_changed cbs with
      | Some (f, ctx) => let! (m, p) := paths_changed_out m paths in Ok (m, Some (PathsCall f p (size_of paths) ctx))
      | None => Ok (m, None)
      end
  | _ => Ok (m, None)
  end.
End CNetwork.

(** ** The builder of onion requests

    The setters do not catch exceptions. *)
Section CBuilder.
Context `{Allocator} `{Quic} `{Oxenc} `{TextEncodings} `{X25519} `{Aead} `{AesGcm} `{Json}.

Definition onion_request_builder_init : Builder := new_builder xchacha20.
(** An enumerator of C is a number. *)
Definition onion_request_builder_set_enc_type (b : Builder) (enc_type : Z) : res Builder :=
  if enc_type =? 0 then Ok (set_enc_type b aes_gcm)
  else if enc_type =? 1 then Ok (set_enc_type b xchacha20)
  else Throw RuntimeError.
Definition onion_request_builder_set_snode_destination (m : memory) (b : Builder) (ip : list Z) (quic_port ed25519_pubkey : Z) :
    res Builder :=
  hex ← load m ed25519_pubkey 64;
  node ← target_node ip quic_port hex;
  set_destination b (DestNode (sn_key node)).
Definition onion_request_builder_set_server_destination (m : memory) (b : Builder)
    (protocol host endpoint method : bytes) (port x25519_pubkey : Z) : res Builder :=
  hex ← load m x25519_pubkey 64;
  pk ← load_from_hex 32 hex;
  set_destination b (DestServer {| sd_protocol := protocol; sd_host := host; sd_endpoint := endpoint; sd_x25519_pubkey := pk;
                                   sd_port := Some port; sd_headers := None; sd_method := method |}).
Definition onion_request_builder_set_destination_pubkey (m : memory) (b : Builder) (x25519_pubkey : Z) : res Builder :=
  hex ← load m x25519_pubkey 64;
  pk ← load_from_hex 32 hex;
  Ok (set_destination_pubkey b pk).
Definition onion_request_builder_add_hop (m : memory) (b : Builder) (ed25519_pubkey x25519_pubkey : Z) : res Builder :=
  hex ← load m ed25519_pubkey 64;
  ed ← load_from_hex 32 hex;
  hex ← load m x25519_pubkey 64;
  x ← load_from_hex 32 hex;
  Ok (add_hop_keys b (ed, x)).

(** The request in a new block and the key pair in the arrays of the caller.  There is no builder
    if an exception was caught. *)
Definition onion_request_builder_build (m : memory) (b : Builder) (rnd : nat -> hop_random) (payload_in payload_in_len : Z)
    (final_x25519_pubkey_out final_x25519_seckey_out : bytes) :
    res (option (memory * Z * Z * (bytes * bytes) * Builder)) :=
  wrap_exceptions (
    payload ← load m payload_in payload_in_len;
    let! (payload, b) := build b rnd payload in
    keys ← match final_hop_x25519_keypair b with
           | Some keys => copy_pair final_x25519_pubkey_out final_x25519_seckey_out keys
           | None => Throw RuntimeError
           end;
    let! (m, out, outlen) := copy_out m payload in
    Ok (m, out, outlen, keys, b)).
End CBuilder.

(** ** Facts *)

(** *** Service nodes *)

Section NodeFacts.
Context `{Quic} `{TextEncodings}.

Lemma strncpy_fits s n : length s = n -> strncpy s n = s.
Proof. intros <-. unfold strncpy. by rewrite take_app_length. Qed.

Lemma size_strncpy s n : length (strncpy s n) = n.
Proof. unfold strncpy. rewrite length_take, length_app. unfold zeros. rewrite length_replicate. lia. Qed.

(** A node that was given to the application is found again by its key, address and port, but
    nothing else of it is kept. *)
Lemma node_of_converted node :
  size_of (sn_key node) = 32 -> 0 <= sn_ip node < 2 ^ 32 ->
  print_ip (sn_ip node) = join_with (bs ".") (print_int <$> octets (sn_ip node)) ->
  node_of_struct (convert_service_node node) =
    Ok {| sn_key := sn_key node; sn_version := [0]; sn_swarm := INVALID_SWARM_ID; sn_ip := sn_ip node; sn_port := sn_port node |}.
Proof.
  intros Hk Hip Hp. unfold node_of_struct, target_node, convert_service_node. cbn [nsn_ip nsn_quic_port nsn_ed25519_pubkey_hex].
  rewrite <- Hp, parse_print_ip by done. cbn [mbind res_bind].
  pose proof (to_hex_size (sn_key node)) as Hs. unfold size_of in *.
  rewrite strncpy_fits, take_app_le, take_ge, from_to_hex by lia. done.
Qed.

(** The swarm of the node that the application names is not known, so that it differs from every
    node of a swarm. *)
Lemma target_differs node target swarm :
  node_of_struct node = Ok target -> Forall (fun s => sn_swarm s <> INVALID_SWARM_ID) swarm ->
  filter (fun s => s <> target) swarm = swarm.
Proof.
  unfold node_of_struct, target_node. destruct (parse_ip _); [|done]. intros [= <-] Hs.
  induction Hs as [|s swarm Hs _ IH]; [done|]. rewrite filter_cons_True; [by rewrite IH|].
  intros ->. by apply Hs.
Qed.
End NodeFacts.

(** *** Requests

    A call begins a request whose exceptions are caught, or it fails at once. *)
Section RequestFacts.
Context `{Quic} `{Rng} `{Oxenc} `{TextEncodings} `{X25519} `{Aead} `{AesGcm} `{Json} `{JsonNumbers} `{Texts}.

Lemma send_onion_request_begins caught dest body pk t pbt type id n :
  exists info, send_onion_request caught dest body pk t pbt type id n = add_call (CallFind caught info id) (next_draw n).
Proof. by eexists. Qed.
Definition begins_or_fails (id : nat) (n n' : Network) : Prop :=
  (exists info, n' = add_call (CallFind true info id) (next_draw n)) \/
  exists text, n' = report (OutResponse id false false (-1) [] (Some text)) n.
Lemma or_fail_spec id n (r : res Network) :
  (forall n', r = Ok n' -> exists info, n' = add_call (CallFind true info id) (next_draw n)) ->
  match or_fail id n r with Ok n' => begins_or_fails id n n' | Throw e => is_std_exception e = false end.
Proof.
  intros Hr. unfold or_fail. destruct r as [n'|e]; [left; by apply Hr|].
  destruct (is_std_exception e) eqn:E; [right; by eexists|done].
Qed.
Lemma c_call_spec m r t pbt id n :
  match c_call m r t pbt id n with Ok n' => begins_or_fails id n n' | Throw e => is_std_exception e = false end.
Proof.
  destruct r; apply or_fail_spec; intros n' E.
  - repeat res_step E. injection E as <-. apply send_onion_request_begins.
  - repeat res_step E. injection E as <-. apply send_onion_request_begins.
  - repeat res_step E. injection E as <-. apply send_onion_request_begins.
  - repeat res_step E. injection E as <-. apply send_onion_request_begins.
  - do 2 res_step E. unfold get_client_version in E. destruct (version_request _ _ _) as [[server pubkey]|]; [|done]. injection E as <-.
    apply send_onion_request_begins.
Qed.
End RequestFacts.

(** *** The array of paths *)

Section Paths.
Context `{Allocator} `{TextEncodings}.

Definition nodes_bytes (nodes : list service_node) : bytes := concat (node_bytes <$> convert_service_nodes nodes).

(** What the application reads: the nodes of each of the [n] paths. *)
Fixpoint load_paths (m : memory) (p : Z) (n : nat) : res (list bytes) :=
  match n with
  | O => Ok []
  | S n =>
      q ← load_word m p; len ← load_word m (p + 8); d ← load m q (sizeof_node * len);
      l ← load_paths m (p + sizeof_path) n; Ok (d :: l)
  end.

Lemma size_node_bytes node : size_of (node_bytes (convert_service_node node)) = 72.
Proof.
  unfold node_bytes, convert_service_node. cbn [nsn_ip nsn_quic_port nsn_ed25519_pubkey_hex].
  autorewrite with sizes. unfold size_of. rewrite size_strncpy.
  pose proof (length_Z_to_little_endian 2 8 (sn_port node) ltac:(lia)) as ->. done.
Qed.
Lemma size_nodes_bytes nodes : size_of (nodes_bytes nodes) = sizeof_node * size_of nodes.
Proof.
  unfold nodes_bytes, sizeof_node. induction nodes as [|node nodes IH]; [done|].
  cbn [fmap list_fmap concat convert_service_nodes] in *. rewrite size_of_app, size_node_bytes, size_cons.
  unfold convert_service_nodes in IH. rewrite IH. lia.
Qed.

Lemma apart_resize a D D' c : size_of D = size_of D' ->
  apart {| b_addr := a; b_data := D |} c -> apart {| b_addr := a; b_data := D' |} c.
Proof. unfold apart, b_end. cbn. by intros ->. Qed.
Lemma wf_memory_cons b m : wf_memory m -> Forall (apart b) m -> wf_memory (b :: m).
Proof.
  intros Hm Ha c c' Hc Hc'. rewrite Forall_forall in Ha.
  apply elem_of_cons in Hc as [->|Hc]; apply elem_of_cons in Hc' as [->|Hc']; auto.
  right. specialize (Ha c Hc). unfold apart in *. lia.
Qed.

Lemma put_nodes_ok m a D nodes nb :
  wf_memory m -> Forall (apart {| b_addr := a; b_data := D |}) m ->
  malloc ({| b_addr := a; b_data := D |} :: m) (sizeof_node * size_of (convert_service_nodes nodes)) = Some nb ->
  let nb' := {| b_addr := b_addr nb; b_data := nodes_bytes nodes |} in
  store nb (b_addr nb) (nodes_bytes nodes) = Ok nb' /\ wf_memory (nb' :: m) /\
  Forall (apart {| b_addr := a; b_data := D |}) (nb' :: m) /\
  0 <= b_addr nb < 2 ^ 64 /\ 0 <= size_of nodes < 2 ^ 64.
Proof.
  intros Hm Ha Hb nb'. pose proof (malloc_size _ _ _ Hb) as Hs. pose proof (malloc_range _ _ _ Hb) as [Hr He].
  apply malloc_apart in Hb as [Hba Hbm]%Forall_cons. unfold convert_service_nodes in Hs. rewrite size_fmap in Hs.
  pose proof (size_nodes_bytes nodes) as Hd. pose proof (size_of_nonneg nodes). unfold sizeof_node in *.
  destruct nb as [an Dn]. unfold nb', b_end in *. cbn [b_addr b_data] in *.
  assert (Hsz : size_of Dn = size_of (nodes_bytes nodes)) by lia.
  split; [|split; [|split; [|lia]]].
  - rewrite (store_at [] Dn [] an Dn) by (rewrite ?app_nil_r; auto; rewrite ?size_nil; lia). cbn [app]. by rewrite app_nil_r.
  - apply wf_memory_cons; [done|]. eapply Forall_impl; [exact Hbm|]. intros c. by apply apart_resize.
  - constructor; [|done]. apply (apart_resize _ _ (nodes_bytes nodes)) in Hba; [|done]. unfold apart in *. lia.
Qed.

(** Either an allocation fails, or the array holds all paths. *)
Lemma put_paths_ok paths : forall m a A P D p,
  D = A ++ P -> p = a + size_of A -> p mod 8 = 0 -> 16 * size_of paths <= size_of P ->
  wf_memory m -> Forall (apart {| b_addr := a; b_data := D |}) m ->
  (exists m' n, malloc m' n = None) \/
  exists m' P', put_paths m {| b_addr := a; b_data := D |} p paths = Ok (m', {| b_addr := a; b_data := A ++ P' |}) /\
    wf_memory ({| b_addr := a; b_data := A ++ P' |} :: m') /\ (forall b, b ∈ m -> b ∈ m') /\
    load_paths ({| b_addr := a; b_data := A ++ P' |} :: m') p (length paths) = Ok (nodes_bytes <$> paths).
Proof.
  induction paths as [|nodes paths IH]; intros m a A P D p -> Hp H8 HP Hm Ha.
  { right. exists m, P. split_and!; [done|by apply wf_memory_cons|done|done]. }
  cbn [put_paths]. rewrite size_cons in HP. pose proof (size_of_nonneg paths).
  destruct (split_size P 8) as (P1 & P0 & -> & HP1 & HP0); [lia|].
  destruct (split_size P0 8) as (P2 & P3 & -> & HP2 & HP3); [size_lia|].
  destruct (malloc _ _) as [nb|] eqn:Eb; [|left; by eexists _, _].
  destruct (put_nodes_ok _ _ _ _ _ Hm Ha Eb) as (Hst & Hm' & Ha' & Hq & Hlen).
  change (concat (node_bytes <$> convert_service_nodes nodes)) with (nodes_bytes nodes). rewrite Hst. cbn [mbind res_bind].
  rewrite (store_word_at A P1 (P2 ++ P3)) by (auto; apps). cbn [mbind res_bind].
  rewrite (store_word_at (A ++ word (b_addr nb)) P2 P3) by (auto with session; apps; size_lia). cbn [mbind res_bind].
  assert (Hl : size_of (convert_service_nodes nodes) = size_of nodes) by apply size_fmap. rewrite Hl in *.
  destruct (IH ({| b_addr := b_addr nb; b_data := nodes_bytes nodes |} :: m) a (A ++ word (b_addr nb) ++ word (size_of nodes)) P3
    ((A ++ word (b_addr nb)) ++ word (size_of nodes) ++ P3) (p + sizeof_path)) as [Hnone|(m' & P' & -> & Hw & Hsub & Hload)];
    try (unfold sizeof_path; auto with session; apps; size_lia).
  - unfold sizeof_path. rewrite <- Zplus_mod_idemp_r. change (16 mod 8) with 0. by rewrite Z.add_0_r.
  - eapply Forall_impl; [exact Ha'|]. intros c. apply apart_resize. size_lia.
  - right. exists m', (word (b_addr nb) ++ word (size_of nodes) ++ P'). rewrite <- !app_assoc in *.
    split_and!; [done|done|intros b Hb; apply Hsub; by constructor|]. cbn [load_paths length].
    set (B := {| b_addr := a; b_data := A ++ word (b_addr nb) ++ word (size_of nodes) ++ P' |}) in *. assert (HB : B ∈ B :: m') by constructor.
    rewrite (load_word_at _ B Hw HB A (b_addr nb) (word (size_of nodes) ++ P') p) by done. cbn [mbind res_bind].
    rewrite (load_word_at _ B Hw HB (A ++ word (b_addr nb)) (size_of nodes) P' (p + 8))
      by (subst B; cbn [b_data b_addr]; auto with session; apps; size_lia). cbn [mbind res_bind].
    assert (HN : {| b_addr := b_addr nb; b_data := nodes_bytes nodes |} ∈ B :: m') by (constructor; apply Hsub; constructor).
    rewrite (load_at _ _ Hw HN [] (nodes_bytes nodes) [] (b_addr nb))
      by (rewrite ?app_nil_r, ?size_nodes_bytes; auto; cbn [b_addr]; rewrite size_nil; lia).
    cbn [mbind res_bind]. rewrite Hload. done.
Qed.

Lemma paths_changed_ok m paths :
  wf_memory m ->
  (exists m' n, malloc m' n = None) \/
  exists m' p, paths_changed_out m paths = Ok (m', p) /\ load_paths m' p (length paths) = Ok (nodes_bytes <$> paths) /\
    (forall b, b ∈ m -> b ∈ m').
Proof.
  intros Hm. unfold paths_changed_out. destruct (malloc m _) as [b|] eqn:Eb; [|left; by eexists _, _].
  pose proof (malloc_size _ _ _ Eb) as Hs. pose proof (malloc_aligned _ _ _ Eb) as H8. pose proof (malloc_apart _ _ _ Eb) as Ha.
  assert (Hr : 16 * size_of paths <= size_of (b_data b)).
  { rewrite Hs. clear. unfold sizeof_path, sizeof_node. induction paths as [|nodes paths IH]; [done|].
    cbn [foldr]. rewrite size_cons. pose proof (size_of_nonneg nodes). lia. }
  destruct b as [a D]. cbn [b_addr b_data] in *.
  destruct (put_paths_ok paths m a [] D D a) as [?|(m' & P' & -> & _ & Hsub & Hl)]; auto; [by rewrite size_nil, Z.add_0_r|].
  right. cbn [mbind res_bind app] in *. eexists _, a. split_and!; [done|done|]. intros b Hb. constructor. auto.
Qed.
End Paths.

(** *** The builder

    A builder that is set up step by step through the C interface, with the X25519 keys that belong
    to the nodes, is the one that C++ makes of the destination and the nodes at once. *)
Section BuilderFacts.
Context `{Oxenc} `{TextEncodings} `{X25519} `{Aead} `{AesGcm} `{Json}.

Definition enc_type_number (t : EncryptType) : Z := match t with aes_gcm => 0 | xchacha20 => 1 end.
(** The pointers to the hex texts of the two keys of a node. *)
Definition holds_hop (m : memory) (hop : Z * Z) (node : bytes) : Prop :=
  size_of node = 32 /\ holds m hop.1 (to_hex node) /\
  exists x, compute_x25519_pubkey node = Ok x /\ size_of x = 32 /\ holds m hop.2 (to_hex x).

Lemma load_hex_key m p k : size_of k = 32 -> holds m p (to_hex k) ->
  load m p 64 = Ok (to_hex k) /\ load_from_hex 32 (to_hex k) = Ok k.
Proof.
  intros Hk Hp. pose proof (to_hex_size k) as Hs. split; [apply (holds_sized _ _ _ _ Hp); lia|].
  unfold load_from_hex. rewrite is_hex_to_hex, Hs, Hk, from_to_hex. done.
Qed.
Lemma c_add_hop m b hop node : holds_hop m hop node -> onion_request_builder_add_hop m b hop.1 hop.2 = add_hop b node.
Proof.
  intros (Hs & He & x & Hx & Hxs & Hxp). unfold onion_request_builder_add_hop, add_hop, load_from_bytes.
  destruct (load_hex_key m hop.1 node Hs He) as [-> E1]. destruct (load_hex_key m hop.2 x Hxs Hxp) as [-> E2].
  cbn [mbind res_bind]. rewrite E1. cbn [mbind res_bind]. rewrite E2, Hs, Hx. done.
Qed.
Lemma c_builder_equiv m t protocol host endpoint method port pk pkp hops nodes :
  size_of pk = 32 -> holds m pkp (to_hex pk) -> Forall2 (holds_hop m) hops nodes ->
  (b ← onion_request_builder_set_enc_type onion_request_builder_init (enc_type_number t);
   b ← onion_request_builder_set_destination_pubkey m b pkp;
   b ← onion_request_builder_set_server_destination m b protocol host endpoint method port pkp;
   foldM (fun b hop => onion_request_builder_add_hop m b hop.1 hop.2) b hops) =
  make_builder (DestServer {| sd_protocol := protocol; sd_host := host; sd_endpoint := endpoint; sd_x25519_pubkey := pk;
                              sd_port := Some port; sd_headers := None; sd_method := method |}) nodes t.
Proof.
  intros Hk Hp Hh. destruct (load_hex_key m pkp pk Hk Hp) as [El Eh].
  unfold onion_request_builder_set_destination_pubkey, onion_request_builder_set_server_destination. rewrite El.
  assert (onion_request_builder_set_enc_type onion_request_builder_init (enc_type_number t) = Ok (new_builder t)) as -> by (by destruct t).
  cbn [mbind res_bind]. rewrite Eh. cbn [mbind res_bind set_destination make_builder pubkey_for_destination].
  set (b := {| enc_type := _ |}). unfold make_builder. cbn [pubkey_for_destination mbind res_bind set_destination]. fold b. clearbody b.
  revert b. induction Hh as [|hop node hops nodes Hn _ IH]; intros b; [done|]. cbn [foldM].
  rewrite (c_add_hop m b hop node Hn). destruct (add_hop b node); [apply IH|done].
Qed.
End BuilderFacts.
