(* ===== verification/CurveInstance.v ===== *)
(** * A small curve for the examples

    A group of five points, whose [y] are in the field of seven elements, with the interfaces of
    [Blinding]: it shows that their laws can hold together, and lets the examples run. *)
From Stdlib Require Import Znumtheory Ring.
From S2P Require Import Prelude OMap Util Internal ThirdParty Instances Blinding.

Definition enc (z : Z) : bytes := fit 32 [byte_of z].
Definition small_scalar (b : bytes) : Z := match b with c :: _ => byte_val c | [] => 0 end.

(** The points by their number, those of opposite numbers with the same [y]. *)
Definition small_point (z : Z) : bytes :=
  match z mod 5 with
  | 0 => enc 1
  | 1 => enc 2 | 4 => flip_sign (enc 2)
  | 2 => enc 3 | _ => flip_sign (enc 3)
  end.
Definition small_index (p : bytes) : option Z :=
  find (fun z => bool_decide (small_point z = p)) [0; 1; 2; 3; 4].

Lemma mod5_cases z : z mod 5 = 0 \/ z mod 5 = 1 \/ z mod 5 = 2 \/ z mod 5 = 3 \/ z mod 5 = 4.
Proof. pose proof (Z.mod_pos_bound z 5). lia. Qed.
Ltac mod5 z := destruct (mod5_cases z) as [?E|[?E|[?E|[?E|?E]]]].

Lemma small_point_mod z : small_point (z mod 5) = small_point z.
Proof. unfold small_point. by rewrite Z.mod_mod by lia. Qed.
Lemma small_index_point z : small_index (small_point z) = Some (z mod 5).
Proof. rewrite <- small_point_mod. mod5 z; rewrite E; vm_compute; reflexivity. Qed.
Lemma small_point_negate z : z mod 5 <> 0 -> small_point (- z) = flip_sign (small_point z).
Proof.
  intros Hz. rewrite <- (small_point_mod (- z)), <- (small_point_mod z).
  replace (- z) with ((-1) * z) by lia. rewrite <- Z.mul_mod_idemp_r by lia. mod5 z; rewrite E in *; done || by vm_compute.
Qed.

(** The secret number of a seed, its [u] coordinate, and the number that is hashed into a signature. *)
Definition small_secret (sk : bytes) : Z := 1 + small_scalar sk mod 4.
Definition small_u (z : Z) : Z := match z mod 5 with 1 | 4 => 4 | _ => 5 end.
Definition small_sha (m : bytes) : bytes := fit 64 (rev m).
Definition small_reduce (b : bytes) : bytes := enc (small_scalar b mod 5).
Definition small_hram (R A m : bytes) : Z := small_scalar (small_reduce (small_sha (R ++ A ++ m))).

Lemma small_scalar_enc z : 0 <= z < 256 -> small_scalar (enc z) = z.
Proof. intros Hz. unfold enc, fit. cbn [app take firstn small_scalar]. by apply byte_val_of. Qed.
Lemma small_scalar_mod z : small_scalar (enc (z mod 5)) = z mod 5.
Proof. apply small_scalar_enc. pose proof (Z.mod_pos_bound z 5). lia. Qed.
Lemma small_secret_range sk : 1 <= small_secret sk < 5.
Proof. unfold small_secret. pose proof (Z.mod_pos_bound (small_scalar sk) 4). lia. Qed.
Lemma small_point_length z : length (small_point z) = 32%nat.
Proof. rewrite <- small_point_mod. mod5 z; by rewrite E. Qed.

#[refine] Definition small_ed : Ed25519 := {|
  ed_seed_keypair seed := (small_point (small_secret seed), seed ++ small_point (small_secret seed));
  ed_sign data sk :=
    small_point 1 ++
    enc ((1 + small_hram (small_point 1) (small_point (small_secret sk)) data * small_secret sk) mod 5);
  ed_verify sig data pk :=
    match small_index (take 32 sig), small_index pk with
    | Some r, Some a =>
        negb (r =? 0) && negb (a =? 0) &&
        (small_scalar (drop 32 sig) =? (r + small_hram (take 32 sig) pk data * a) mod 5)
    | _, _ => false
    end
|}.
Proof.
  - intros seed _. cbn. unfold size_of. by rewrite small_point_length.
  - done.
  - intros. unfold size_of, enc. by rewrite length_app, small_point_length, fit_length.
  - intros data seed Hs. cbn [fst snd].
    rewrite (take_app_length' (small_point 1)) by (by rewrite small_point_length).
    rewrite (drop_app_length' (small_point 1)) by (by rewrite small_point_length).
    rewrite !small_index_point, small_scalar_mod.
    replace (small_secret (seed ++ _)) with (small_secret seed)
      by (destruct seed; [discriminate Hs|done]).
    pose proof (small_secret_range seed). rewrite (Z.mod_small (small_secret seed)), (Z.mod_small 1) by lia.
    rewrite Z.eqb_refl. replace (small_secret seed =? 0) with false by lia. done.
Defined.

#[refine] Definition small_box : @CryptoBox toy_hash small_ed := {|
  ed_pk_to_curve25519 pk :=
    match small_index pk with Some 0 => None | Some z => Some (enc (small_u z)) | None => None end;
  ed_sk_to_curve25519 sk := enc (small_secret sk);
  scalarmult_base sk := enc (small_u (small_scalar sk));
  box_seed_keypair seed := (fit 32 seed, seed);
  box_easy m nonce pk sk := fit 16 pk ++ m;
  box_seal_open c pk sk := if decide (take 16 (drop 32 c) = fit 16 pk) then Some (drop 48 c) else None
|}.
Proof.
  - intros seed Hs. cbn [ed_seed_keypair small_ed fst snd]. rewrite small_index_point.
    replace (small_secret (seed ++ _)) with (small_secret seed) by (destruct seed; [discriminate Hs|done]).
    pose proof (small_secret_range seed). rewrite small_scalar_enc by lia.
    rewrite Z.mod_small by lia. destruct (small_secret seed); [lia| |lia]. done.
  - intros. apply fit_size.
  - intros. apply fit_size.
  - intros. apply fit_size.
  - intros. rewrite size_of_app, fit_size. lia.
  - intros m seed sk. cbn beta iota zeta.
    rewrite (drop_app_length' (fit 32 seed) _ 32) by (by rewrite fit_length).
    rewrite (take_app_length' (fit 16 _) _ 16) by (by rewrite fit_length).
    rewrite decide_True by done. rewrite app_assoc.
    by rewrite (drop_app_length' _ _ 48) by (by rewrite length_app, !fit_length).
Defined.

Lemma prime_5 : prime 5.
Proof.
  constructor; [lia|]. intros n Hn. apply Zgcd_1_rel_prime.
  assert (n = 1 \/ n = 2 \/ n = 3 \/ n = 4) as [->|[->|[->| ->]]] by lia; done.
Qed.

#[refine] Definition small_curve : @EdCurve toy_hash small_ed small_box := {|
  group_order := 5;
  scalar_of := small_scalar;
  point := small_point;
  sha512 := small_sha;
  clamp b := b;
  scalar_reduce := small_reduce;
  scalar_mul a b := enc ((small_scalar a * small_scalar b) mod 5);
  scalar_add a b := enc ((small_scalar a + small_scalar b) mod 5);
  scalar_negate a := enc ((- small_scalar a) mod 5);
  scalarmult_noclamp a p :=
    match small_index p with
    | Some z => if (small_scalar a * z) mod 5 =? 0 then None else Some (small_point (small_scalar a * z))
    | None => None
    end;
  scalarmult_base_noclamp a := small_point (small_scalar a);
  generichash_personal n personal m := fit (Z.to_nat n) (rev (personal ++ m))
|}.
Proof.
  - apply prime_5.
  - intros z. unfold size_of. by rewrite small_point_length.
  - apply small_point_mod.
  - apply small_point_negate.
  - intros. apply small_scalar_mod.
  - intros. apply small_scalar_mod.
  - intros. apply small_scalar_mod.
  - intros. apply fit_size.
  - intros. apply fit_size.
  - intros. apply fit_size.
  - done.
  - intros a z Hz. rewrite small_index_point. rewrite Z.mul_mod_idemp_r by lia.
    rewrite (proj2 (Z.eqb_neq _ _) Hz). f_equal.
    by rewrite <- small_point_mod, Z.mul_mod_idemp_r, small_point_mod by lia.
  - intros seed Hs. cbn [ed_seed_keypair small_ed ed_sk_to_curve25519 small_box fst snd].
    replace (small_secret (seed ++ _)) with (small_secret seed) by (destruct seed; [discriminate Hs|done]).
    pose proof (small_secret_range seed). rewrite small_scalar_enc by lia. rewrite Z.mod_small by lia. split; [done|lia].
  - intros sk. cbn [ed_sk_to_curve25519 small_box]. f_equal. unfold small_secret. by destruct sk.
  - done.
  - intros r a S m Hr Ha HS HE. cbn [ed_verify small_ed].
    rewrite (take_app_length' (small_point r)) by (by rewrite small_point_length).
    rewrite (drop_app_length' (small_point r)) by (by rewrite small_point_length).
    rewrite !small_index_point. fold (small_hram (small_point r) (small_point a) m) in HE.
    rewrite (proj2 (Z.eqb_neq _ _) Hr), (proj2 (Z.eqb_neq _ _) Ha), HE. cbn [negb andb].
    rewrite Z.add_mod_idemp_l, <- (Z.add_mod_idemp_r r (_ * (a mod 5))), Z.mul_mod_idemp_r, Z.add_mod_idemp_r by lia.
    apply Z.eqb_refl.
Defined.

(** The field of seven elements. *)
Inductive F7 := f0 | f1 | f2 | f3 | f4 | f5 | f6.
Definition f7_val (x : F7) : Z :=
  match x with f0 => 0 | f1 => 1 | f2 => 2 | f3 => 3 | f4 => 4 | f5 => 5 | f6 => 6 end.
Definition f7_of (z : Z) : F7 :=
  match z mod 7 with 0 => f0 | 1 => f1 | 2 => f2 | 3 => f3 | 4 => f4 | 5 => f5 | _ => f6 end.
Definition f7_op (op : Z -> Z -> Z) (x y : F7) : F7 := f7_of (op (f7_val x) (f7_val y)).
Definition f7_invert (x : F7) : F7 :=
  match x with f0 => f0 | f1 => f1 | f2 => f4 | f3 => f5 | f4 => f2 | f5 => f3 | f6 => f6 end.
Definition f7_frombytes (b : bytes) : F7 := f7_of (small_scalar b).

Lemma f7_ring : ring_theory f0 f1 (f7_op Z.add) (f7_op Z.mul) (f7_op Z.sub) (fun x => f7_of (- f7_val x)) eq.
Proof.
  constructor.
  - by intros [].
  - by intros [] [].
  - by intros [] [] [].
  - by intros [].
  - by intros [] [].
  - by intros [] [] [].
  - by intros [] [] [].
  - by intros [] [].
  - by intros [].
Qed.

#[refine] Definition small_field : @Fe25519 toy_hash small_ed small_box small_curve := {|
  fe := F7;
  fe_0 := f0; fe_1 := f1;
  fe_add := f7_op Z.add; fe_sub := f7_op Z.sub; fe_mul := f7_op Z.mul;
  fe_opp x := f7_of (- f7_val x);
  fe_invert := f7_invert;
  fe_frombytes := f7_frombytes;
  fe_tobytes x := enc (f7_val x)
|}.
Proof.
  - apply f7_ring.
  - intros [] Hx; done.
  - done.
  - intros z. cbn [point small_curve]. rewrite <- small_point_mod. mod5 z; rewrite E; by vm_compute.
  - intros p x Hx. cbn [ed_pk_to_curve25519 small_box] in Hx. destruct (small_index p) as [z|] eqn:Hz; [|done].
    unfold small_index in Hz. apply find_some in Hz as [Hz Hp]. apply bool_decide_eq_true in Hp as <-.
    destruct Hz as [<-|[<-|[<-|[<-|[<-|[]]]]]]; [done|injection Hx as <-; split; [by vm_compute|by vm_compute]..].
Defined.
