(* ===== verification/BlindingProperties.v ===== *)
(** * Properties of blinded ids, messages and swarm subaccounts *)
From S2P Require Import Prelude OMap Util Internal Bencode ThirdParty Instances SessionEncrypt.
From S2P Require Import Protos Blinding SessionMessages BlindingFacts BlindedMessageFacts CurveInstance.
From S2P Require Import BtValue GroupKeys.
From S2P Require Import SwarmSubaccount.
From S2P Require Import CStructs CMemory CMessages.

(** ** Ids *)

(** C23: every way to compute the blinded id of a key on a server gives the same id.  For an Ed25519
    key pair from any seed, the 25-blinded id that is computed from the Ed25519 key, from the raw
    session id and from the hex session id is the public key of the blinded key pair; the
    15-blinded id from the Ed25519 key is the public key of its key pair, and the one from the
    session id is that key up to its sign; and the matching check accepts exactly these ids: the
    one 25-blinded id, and the 15-blinded id with either sign. *)
Theorem blinded_ids_agree `{Fe25519} `{TextEncodings} seed server_pk :
  size_of seed = 32 -> size_of server_pk = 32 ->
  scalar_of (blind15_factor server_pk) mod group_order <> 0 ->
  scalar_of (blind25_factor (x_pubkey seed) server_pk) mod group_order <> 0 ->
  let pk := (ed_seed_keypair seed).1 in
  let session_id := byte_of 5 :: x_pubkey seed in
  exists A15 a15 A25 a25 k25,
    blind15_key_pair seed server_pk = Ok (A15, a15, blind15_factor server_pk) /\
    blind25_key_pair seed server_pk = Ok (A25, a25, k25) /\
    blinded25_id_from_ed pk server_pk (Some []) = Ok (byte_of 37 :: A25, Some session_id) /\
    blind25_id session_id server_pk = Ok (byte_of 37 :: A25) /\
    blind25_id_hex (to_hex session_id) (to_hex server_pk) = Ok (to_hex (byte_of 37 :: A25)) /\
    blinded15_id_from_ed pk server_pk (Some []) = Ok (byte_of 21 :: A15, Some session_id) /\
    blind15_id session_id server_pk = Ok (byte_of 21 :: if sign_bit pk then flip_sign A15 else A15) /\
    forall p,
      session_id_matches_blinded_id (to_hex session_id) (to_hex (byte_of 37 :: p)) (to_hex server_pk) =
        Ok (bool_decide (p = A25)) /\
      session_id_matches_blinded_id (to_hex session_id) (to_hex (byte_of 21 :: p)) (to_hex server_pk) =
        Ok (bool_decide (p = A15) || bool_decide (p = flip_sign A15)).
Proof.
  intros Hs Hp H15 H25 pk session_id.
  destruct (blind15_key_pair_of seed seed server_pk) as (a15 & E15 & _); [done|by left|done|].
  destruct (blind25_key_pair_of seed seed server_pk) as (a25 & E25 & _); [done|by left|done|].
  destruct (blind_id_seed seed server_pk session_id Hs Hp) as [I15 I25]; [by right|].
  exists (blinded15_key seed server_pk), a15, (blinded25_key seed server_pk), a25, (signed_factor seed server_pk).
  split_and!; [done|done|by apply blinded25_id_from_seed|by apply I25|by apply blind25_id_hex_seed|
    by apply blinded15_id_from_seed|by rewrite I15, blinded15_abs_key|].
  intros p. split; [by apply matches25|]. unfold session_id. by rewrite matches15, blinded15_either.
Qed.

(** ** Signatures *)

(** C24: a signature that is made with a blinded key is a valid Ed25519 signature of the message under
    the blinded public key, for both kinds of blinding, whether the private key is given as the
    seed or in full and the server key as bytes or as hex. *)
Theorem blinded_signatures_verify `{Fe25519} `{TextEncodings} seed sk server_pk server_pk_in message :
  size_of seed = 32 -> size_of server_pk = 32 -> sk = seed \/ sk = (ed_seed_keypair seed).2 ->
  server_pk_in = server_pk \/ server_pk_in = to_hex server_pk ->
  scalar_of (blind15_factor server_pk) mod group_order <> 0 ->
  scalar_of (blind25_factor (x_pubkey seed) server_pk) mod group_order <> 0 ->
  exists A15 a15 k15 A25 a25 k25,
    blind15_key_pair sk server_pk = Ok (A15, a15, k15) /\
    blind25_key_pair sk server_pk = Ok (A25, a25, k25) /\
    (scalar_of (blind15_nonce (ed_seed_keypair seed).2 A15 message) mod group_order <> 0 ->
     exists sig, blind15_sign sk server_pk_in message = Ok sig /\ ed25519_verify sig A15 message = Ok true) /\
    (scalar_of (blind25_nonce (ed_seed_keypair seed).2 A25 message) mod group_order <> 0 ->
     exists sig, blind25_sign sk server_pk_in message = Ok sig /\ ed25519_verify sig A25 message = Ok true).
Proof.
  intros Hs Hp Hsk Ht H15 H25.
  destruct (blind15_key_pair_of seed sk server_pk) as (a15 & E15 & _); [done..|].
  destruct (blind25_key_pair_of seed sk server_pk) as (a25 & E25 & _); [done..|].
  eexists _, _, _, _, _, _. split_and!; [exact E15|exact E25|intros Hr; by apply blind15_sign_valid|intros Hr; by apply blind25_sign_valid].
Qed.

(** The same through the C functions: the signature that they write into an array of 64 bytes is
    accepted by [session_ed25519_verify] in any memory that holds it, the blinded key and the message. *)
Lemma ed25519_verify_sizes `{Fe25519} sig pk message :
  ed25519_verify sig pk message = Ok true -> size_of sig = 64 /\ size_of pk = 32.
Proof. unfold ed25519_verify. destruct (Z.eqb_spec (size_of sig) 64), (Z.eqb_spec (size_of pk) 32); done. Qed.
Lemma c_ed25519_verify `{Fe25519} m sigp pkp mp sig pk message :
  holds m sigp sig -> holds m pkp pk -> holds m mp message -> ed25519_verify sig pk message = Ok true ->
  session_ed25519_verify m sigp pkp mp (size_of message) = Ok true.
Proof.
  intros Hs Hp Hm Hv. destruct (ed25519_verify_sizes _ _ _ Hv) as [E1 E2].
  unfold session_ed25519_verify. rewrite (holds_sized _ _ _ 64 Hs) by done. cbn [mbind res_bind].
  rewrite (holds_sized _ _ _ 32 Hp) by done. cbn [mbind res_bind]. rewrite Hm. done.
Qed.
Theorem c_blinded_signatures `{Fe25519} `{TextEncodings} m seed server_pk message skp sp mp sig_out :
  size_of seed = 32 -> size_of server_pk = 32 -> size_of sig_out = 64 ->
  holds m skp (ed_seed_keypair seed).2 -> holds m sp server_pk -> holds m mp message ->
  scalar_of (blind15_factor server_pk) mod group_order <> 0 ->
  scalar_of (blind25_factor (x_pubkey seed) server_pk) mod group_order <> 0 ->
  exists keys15 keys25, fst <$> blind15_key_pair (ed_seed_keypair seed).2 server_pk = Ok keys15 /\
    fst <$> blind25_key_pair (ed_seed_keypair seed).2 server_pk = Ok keys25 /\
    (scalar_of (blind15_nonce (ed_seed_keypair seed).2 keys15.1 message) mod group_order <> 0 ->
     exists sig, session_blind15_sign m skp sp mp (size_of message) sig_out = Ok (Some sig) /\
       forall m' sigp pkp, holds m' sigp sig -> holds m' pkp keys15.1 -> holds m' mp message ->
         session_ed25519_verify m' sigp pkp mp (size_of message) = Ok true) /\
    (scalar_of (blind25_nonce (ed_seed_keypair seed).2 keys25.1 message) mod group_order <> 0 ->
     exists sig, session_blind25_sign m skp sp mp (size_of message) sig_out = Ok (Some sig) /\
       forall m' sigp pkp, holds m' sigp sig -> holds m' pkp keys25.1 -> holds m' mp message ->
         session_ed25519_verify m' sigp pkp mp (size_of message) = Ok true).
Proof.
  intros Hs Hp Ho Hsk Hsp Hmp H15 H25. pose proof (seed_sk_size seed Hs) as Hsize.
  destruct (blind15_key_pair_of seed (ed_seed_keypair seed).2 server_pk) as (a15 & E15 & _); [done|by right|done|].
  destruct (blind25_key_pair_of seed (ed_seed_keypair seed).2 server_pk) as (a25 & E25 & _); [done|by right|done|].
  rewrite E15, E25. eexists _, _. split_and!; [done|done|intros Hr|intros Hr]; cbn [fst] in *.
  - destruct (blind15_sign_valid seed (ed_seed_keypair seed).2 server_pk server_pk message) as (sig & Es & Ev); try done; [by right|by left|].
    exists sig. split; [|intros; by eapply c_ed25519_verify].
    unfold session_blind15_sign. rewrite (holds_sized _ _ _ 64 Hsk), (holds_sized _ _ _ 32 Hsp), Hmp by done. cbn [mbind res_bind].
    rewrite Es. cbn [mbind res_bind]. apply ed25519_verify_sizes in Ev as [E64 _]. by rewrite copy_bytes_key by congruence.
  - destruct (blind25_sign_valid seed (ed_seed_keypair seed).2 server_pk server_pk message) as (sig & Es & Ev); try done; [by right|by left|].
    exists sig. split; [|intros; by eapply c_ed25519_verify].
    unfold session_blind25_sign. rewrite (holds_sized _ _ _ 64 Hsk), (holds_sized _ _ _ 32 Hsp), Hmp by done. cbn [mbind res_bind].
    rewrite Es. cbn [mbind res_bind]. apply ed25519_verify_sizes in Ev as [E64 _]. by rewrite copy_bytes_key by congruence.
Qed.

(** An XEd25519 signature that is made with the X25519 secret key of an account is accepted by
    the verification with the X25519 public key of that account, whichever sign its Ed25519 key has. *)
Theorem xed_signatures_verify `{Fe25519} seed message random :
  size_of seed = 32 ->
  let a := ed_sk_to_curve25519 (ed_seed_keypair seed).2 in
  let signed := if sign_bit (ed_seed_keypair seed).1 then scalar_negate a else a in
  scalar_of (xed25519_compute_r signed message random) mod group_order <> 0 ->
  xed_verify (xed_sign a message random) (x_pubkey seed) message = true.
Proof. intros Hs a signed Hr. by apply xed_sign_valid. Qed.

(** ** Messages *)

(** C21: a message that one blinded id sends to another through a server is decrypted, with the session
    id of the sender, by the recipient and also by the sender, from nothing but the own key and
    the two blinded ids; for both kinds of blinding, and also for a message to oneself. *)
Theorem blinded_message_roundtrip `{Fe25519} `{TextEncodings} `{Aead} (b25 : bool) seed1 seed2 sk1 server_pk message nonce :
  size_of seed1 = 32 -> size_of seed2 = 32 -> size_of server_pk = 32 -> size_of nonce = 24 ->
  sk1 = seed1 \/ sk1 = (ed_seed_keypair seed1).2 ->
  (forall seed, seed ∈ [seed1; seed2] ->
     scalar_of (if b25 then blind25_factor (x_pubkey seed) server_pk else blind15_factor server_pk) mod group_order <> 0) ->
  let kind := [byte_of (if b25 then 37 else 21)] in
  exists id1 id2 c,
    blinded_id_like kind (ed_seed_keypair seed1).1 server_pk None = Ok id1 /\
    blinded_id_like kind (ed_seed_keypair seed2).1 server_pk None = Ok id2 /\
    encrypt_for_blinded_recipient sk1 server_pk id2 message nonce = Ok c /\
    forall seed sk, seed ∈ [seed1; seed2] -> sk = seed \/ sk = (ed_seed_keypair seed).2 ->
      decrypt_from_blinded_recipient sk server_pk id1 id2 c = Ok (message, bs "05" ++ to_hex (x_pubkey seed1)).
Proof.
  intros Hs1 Hs2 Hp Hn Hsk Hk kind.
  assert (K1 : factor_ok b25 seed1 server_pk) by (apply Hk; set_solver).
  assert (K2 : factor_ok b25 seed2 server_pk) by (apply Hk; set_solver).
  exists (blinded_id b25 seed1 server_pk), (blinded_id b25 seed2 server_pk). eexists. split_and!.
  - by apply (blinded_id_like_seed b25 seed1 server_pk [] false).
  - by apply (blinded_id_like_seed b25 seed2 server_pk [] false).
  - exact (encrypt_blinded b25 seed1 seed2 server_pk Hs1 Hs2 Hp K1 K2 sk1 message nonce Hsk).
  - intros seed sk Hseed Hr. apply (decrypt_blinded b25 seed1 seed2 server_pk Hs1 Hs2 Hp K1 K2 seed); [set_solver|done..].
Qed.

(** a message that is sealed for a session id is opened by its owner, with the session id of
    the sender; also if the owner gives the X25519 key pair instead of the Ed25519 key. *)
Theorem sealed_message_roundtrip `{CryptoBox} `{TextEncodings} sender recipient message eph_seed :
  size_of sender = 32 -> size_of recipient = 32 ->
  exists c, encrypt_for_recipient sender (x_pubkey recipient) message eph_seed = Ok c /\
    decrypt_incoming_session_id recipient c = Ok (message, bs "05" ++ to_hex (x_pubkey sender)) /\
    decrypt_incoming_session_id_x (x_pubkey recipient) (ed_sk_to_curve25519 (ed_seed_keypair recipient).2) c =
      Ok (message, bs "05" ++ to_hex (x_pubkey sender)).
Proof.
  intros Hs Hr. destruct (sealed_opens sender recipient message eph_seed Hs Hr) as (c & Ec & Ed).
  exists c. split; [done|]. unfold decrypt_incoming_session_id, decrypt_incoming_session_id_x.
  assert (Ex : decrypt_incoming_x (x_pubkey recipient) (ed_sk_to_curve25519 (ed_seed_keypair recipient).2) c =
               decrypt_incoming recipient c) by (unfold decrypt_incoming, full_privkey; by rewrite Hr).
  rewrite Ex, Ed. unfold sender_session_id. by rewrite ed_curve_keys by done.
Qed.

(** ** Examples *)

Definition ex_seed (n : Z) : bytes := byte_of n :: replicate 31 "s"%char.
Definition ex_server : bytes := replicate 32 "C"%char.
Definition ex_nonce : bytes := replicate 24 "n"%char.
Existing Instances toy_hash small_ed small_box small_curve small_field hex_encodings toy_aead.

Lemma blinded_ids_agree_example :
  exists A15 a15 A25 a25 k25,
    blind15_key_pair (ex_seed 2) ex_server = Ok (A15, a15, blind15_factor ex_server) /\
    blind25_key_pair (ex_seed 2) ex_server = Ok (A25, a25, k25).
Proof.
  destruct (blinded_ids_agree (ex_seed 2) ex_server) as (A15 & a15 & A25 & a25 & k25 & E1 & E2 & _);
    [reflexivity|reflexivity|vm_compute; discriminate|vm_compute; discriminate|].
  exists A15, a15, A25, a25, k25. split; [exact E1|exact E2].
Defined.

Lemma blinded_signatures_verify_example :
  exists A25 a25 k25 sig, blind25_key_pair (ex_seed 2) ex_server = Ok (A25, a25, k25) /\
    blind25_sign (ex_seed 2) (to_hex ex_server) (bs "hello") = Ok sig /\ ed25519_verify sig A25 (bs "hello") = Ok true.
Proof.
  destruct (blinded_signatures_verify (ex_seed 2) (ex_seed 2) ex_server (to_hex ex_server) (bs "hello"))
    as (A15 & a15 & k15 & A25 & a25 & k25 & E1 & E2 & _ & H25);
    [reflexivity|reflexivity|left; reflexivity|right; reflexivity|vm_compute; discriminate|vm_compute; discriminate|].
  vm_compute in E2. injection E2 as <- <- <-. destruct H25 as (sig & Es & Ev); [vm_compute; discriminate|].
  eexists _, _, _, sig. split; [reflexivity|]. split; [exact Es|exact Ev].
Defined.

Lemma xed_signatures_verify_example :
  xed_verify (xed_sign (ed_sk_to_curve25519 (ed_seed_keypair (ex_seed 2)).2) (bs "hello") (bs "random")) (x_pubkey (ex_seed 2))
    (bs "hello") = true.
Proof. apply xed_signatures_verify; [reflexivity|vm_compute; discriminate]. Defined.

Lemma blinded_message_roundtrip_example :
  exists id1 id2 c,
    encrypt_for_blinded_recipient (ex_seed 2) ex_server id2 (bs "hello") ex_nonce = Ok c /\
    decrypt_from_blinded_recipient (ex_seed 5) ex_server id1 id2 c =
      Ok (bs "hello", bs "05" ++ to_hex (x_pubkey (ex_seed 2))).
Proof.
  destruct (blinded_message_roundtrip true (ex_seed 2) (ex_seed 5) (ex_seed 2) ex_server (bs "hello") ex_nonce)
    as (id1 & id2 & c & _ & _ & Ec & Ed); [reflexivity..|left; reflexivity| |].
  { intros seed [->|[->|[]%elem_of_nil]%elem_of_cons]%elem_of_cons; vm_compute; discriminate. }
  exists id1, id2, c. split; [exact Ec|]. apply (Ed (ex_seed 5)); [right; left|left; reflexivity].
Defined.

Lemma sealed_message_roundtrip_example :
  exists c, encrypt_for_recipient (ex_seed 2) (x_pubkey (ex_seed 5)) (bs "hello") (bs "e") = Ok c /\
    decrypt_incoming_session_id (ex_seed 5) c = Ok (bs "hello", bs "05" ++ to_hex (x_pubkey (ex_seed 2))).
Proof.
  destruct (sealed_message_roundtrip (ex_seed 2) (ex_seed 5) (bs "hello") (bs "e")) as (c & Ec & Ed & _); [reflexivity..|].
  exists c. split; [exact Ec|exact Ed].
Defined.

(** ** Swarm subaccounts *)

(** C22: what an admin makes for a member lets that member use the swarm with exactly the permissions
    that were given (no one else's use is spoken of).  The value that [swarm_make_subaccount] makes for the session id of a member
    has 100 bytes; the member's check accepts it if and only if it has the permissions that are
    asked for; and for any request the member signs, the storage server, which knows the group's
    key only, finds the token that [swarm_subaccount_token] computes for the member, a valid
    signature of the group for that token, and a valid signature of the request for the key in
    the token.  The blinding factor and the nonce, which are hashes, are not 0 modulo the order of
    the group. *)
Theorem subaccount_authenticates `{Fe25519} `{TextEncodings} gseed seed (k m : Keys) (write del : bool) :
  size_of gseed = 32 -> size_of seed = 32 ->
  sig_sk k = Some (ed_seed_keypair gseed).2 -> sig_pk k = Some (ed_seed_keypair gseed).1 ->
  user_ed25519_sk m = (ed_seed_keypair seed).2 -> sig_pk m = Some (ed_seed_keypair gseed).1 ->
  (forall fac, subaccount_blind_factor k (x_pubkey seed) = Ok fac -> scalar_of fac mod group_order <> 0) ->
  let session_id := to_hex (byte_of 5 :: x_pubkey seed) in
  exists v token,
    swarm_make_subaccount k session_id write del = Ok v /\ size_of v = 100 /\
    swarm_subaccount_token k session_id write del = Ok token /\
    (forall need_write need_del : bool,
       swarm_verify_subaccount m v need_write need_del = Ok (implb need_write write && implb need_del del)) /\
    (forall msg, scalar_of (subaccount_nonce (ed_seed_keypair seed).2 (drop 4 token) msg) mod group_order <> 0 ->
       exists auth, swarm_subaccount_sign m msg v true = Ok auth /\ subaccount auth = token /\
         ed_verify (subaccount_sig auth) token (ed_seed_keypair gseed).1 = true /\
         ed_verify (auth_signature auth) msg (drop 4 token) = true).
Proof.
  intros Hg Hs Hsk Hpk Hu Hm Hf session_id. assert (Hn := Hf _ (member_factor_of gseed seed Hg k Hsk Hpk)).
  exists (signing_value gseed seed write del), (member_token gseed seed write del). split_and!.
  - by apply make_subaccount.
  - by apply signing_value_parts.
  - by apply subaccount_token.
  - intros w d. unfold swarm_verify_subaccount. rewrite Hm, Hu. by apply verify_subaccount.
  - intros msg Hr. apply sign_subaccount; [done..| |done]. by rewrite Hm.
Qed.

(** ** An example *)

Definition ex_gseed : bytes := replicate 32 "g"%char.
Definition ex_member : bytes := byte_of 2 :: replicate 31 "s"%char.
Existing Instances toy_hash small_ed small_box small_curve small_field hex_encodings.

Definition ex_admin_keys : Keys :=
  set_sig (blank_keys []) None None (Some (ed_seed_keypair ex_gseed).2) (Some (ed_seed_keypair ex_gseed).1).
Definition ex_member_keys : Keys :=
  set_sig (blank_keys (ed_seed_keypair ex_member).2) None None None (Some (ed_seed_keypair ex_gseed).1).

Lemma subaccount_authenticates_example :
  exists v token,
    swarm_make_subaccount ex_admin_keys (to_hex (byte_of 5 :: x_pubkey ex_member)) true false = Ok v /\
    swarm_verify_subaccount ex_member_keys v true false = Ok true /\
    swarm_verify_subaccount ex_member_keys v true true = Ok false /\
    exists auth, swarm_subaccount_sign ex_member_keys (bs "retrieve") v true = Ok auth /\
      ed_verify (auth_signature auth) (bs "retrieve") (drop 4 token) = true.
Proof.
  destruct (subaccount_authenticates ex_gseed ex_member ex_admin_keys ex_member_keys true false)
    as (v & token & Ev & _ & Et & Hv & Hs); [reflexivity..| |].
  { intros fac E. vm_compute in E. injection E as <-. vm_compute. discriminate. }
  destruct (Hs (bs "retrieve")) as (auth & Ea & _ & _ & Es).
  { vm_compute in Et. injection Et as <-. vm_compute. discriminate. }
  exists v, token. split; [exact Ev|]. split; [apply Hv|]. split; [apply Hv|]. exists auth. split; [exact Ea|exact Es].
Defined.

(** ** Messages in the C interface *)

(** C33: a message that is sent with the C functions arrives.  With the keys and the message in memory
    and enough of it left (the allocations succeed),
    [session_encrypt_for_recipient_deterministic] adds one block, apart from all others, that is
    the ciphertext; [session_decrypt_incoming] with the pointer and the length it returned, in the
    memory as it then is, adds another one, apart from all others and from the ciphertext, that is
    exactly the message, and fills the array of 67 characters with the session id of the sender and
    its null byte.  The blocks that were there before either call are as they were. *)
Theorem c_message_roundtrip `{Allocator} `{CryptoBox} `{TextEncodings} m sender recipient message pt sk pk rsk id_out :
  wf_memory m -> size_of sender = 32 -> size_of recipient = 32 -> size_of id_out = 67 ->
  holds m sk (ed_seed_keypair sender).2 -> holds m pk (x_pubkey recipient) ->
  holds m rsk (ed_seed_keypair recipient).2 -> holds m pt message ->
  exists c, encrypt_for_recipient_deterministic (ed_seed_keypair sender).2 (x_pubkey recipient) message = Ok c /\
    (malloc m (size_of c) <> None ->
     exists m1 p, session_encrypt_for_recipient_deterministic m pt (size_of message) sk pk = Ok (Some (m1, p, size_of c)) /\
       wf_memory m1 /\ adds m m1 p c /\ holds m1 p c /\
       (malloc m1 (size_of message) <> None ->
        exists m2 q id, session_decrypt_incoming m1 p (size_of c) rsk id_out = Ok (Some (m2, q, size_of message, id)) /\
          adds m1 m2 q message /\ holds m2 q message /\
          id = bs "05" ++ to_hex (x_pubkey sender) ++ [char_nul] /\ size_of id = 67 /\
          c_string id = Ok (bs "05" ++ to_hex (x_pubkey sender)))).
Proof.
  intros Hm Hs Hr Hid Hsk Hpk Hrsk Hpt. destruct (deterministic_roundtrip sender recipient message Hs Hr) as (c & Ec & Ed).
  exists c. rewrite encrypt_deterministic_key by done. split; [done|]. intros Hb.
  destruct (copy_out_ok m c Hm Hb) as (m1 & p & Eo & Hc & Hw & Hsub & Ha). exists m1, p.
  unfold session_encrypt_for_recipient_deterministic.
  rewrite (holds_sized _ _ _ 64 Hsk) by (by apply seed_sk_size). cbn [mbind res_bind].
  rewrite (holds_sized _ _ _ 32 Hpk) by apply scalarmult_base_size. cbn [mbind res_bind].
  rewrite Hpt. cbn [mbind res_bind]. rewrite encrypt_deterministic_key, Ec by done. cbn [mbind res_bind]. rewrite Eo.
  split_and!; [done..|]. intros Hb1.
  destruct (session_id_array id_out (x_pubkey sender) Hid) as [Hc1 Hc2]; [apply scalarmult_base_size|].
  destruct (message_out_ok m1 id_out (decrypt_incoming_session_id recipient c) message (bs "05" ++ to_hex (x_pubkey sender)))
    as (m2 & q & id & E2 & Hq & Ha2 & Ei & Hn); [|done|done|rewrite Hid; apply session_id_text, scalarmult_base_size|].
  - unfold decrypt_incoming_session_id. rewrite Ed. unfold sender_session_id. by rewrite ed_curve_keys by done.
  - exists m2, q, id. unfold session_decrypt_incoming.
    pose proof (holds_extends m m1 rsk _ Hw Hsub Hrsk) as Hrsk1.
    rewrite (holds_sized _ _ _ 64 Hrsk1) by (by apply seed_sk_size). cbn [mbind res_bind].
    rewrite Hc. cbn [mbind res_bind]. rewrite decrypt_incoming_key by done. rewrite Hc1 in Ei. subst id. by split_and!.
Qed.

#[local] Existing Instance bump_allocator.
Definition ex_block (a : Z) (s : bytes) : block := {| b_addr := a; b_data := s |}.
Definition ex_memory : memory :=
  [ex_block 16 (ed_seed_keypair (ex_seed 2)).2; ex_block 96 (x_pubkey (ex_seed 5));
   ex_block 160 (ed_seed_keypair (ex_seed 5)).2; ex_block 256 (bs "hello")].

Lemma ex_memory_ok : wf_memory ex_memory.
Proof.
  intros b b' Hb Hb'. unfold ex_memory in *. rewrite !elem_of_cons, elem_of_nil in Hb, Hb'.
  destruct Hb as [->|[->|[->|[->|[]]]]]; destruct Hb' as [->|[->|[->|[->|[]]]]];
    first [by left | right; left; vm_compute; discriminate | right; right; vm_compute; discriminate].
Qed.

Lemma c_message_roundtrip_example :
  exists m1 p n m2 q id,
    session_encrypt_for_recipient_deterministic ex_memory 256 5 16 96 = Ok (Some (m1, p, n)) /\
    session_decrypt_incoming m1 p n 160 (zeros 67) = Ok (Some (m2, q, 5, id)) /\ load m2 q 5 = Ok (bs "hello") /\
    (exists c, m2 = ex_block q (bs "hello") :: ex_block p c :: ex_memory) /\
    id = bs "05" ++ to_hex (x_pubkey (ex_seed 2)) ++ [char_nul].
Proof.
  destruct (c_message_roundtrip ex_memory (ex_seed 2) (ex_seed 5) (bs "hello") 256 16 96 160 (zeros 67))
    as (c & Ec & Hc); [exact ex_memory_ok|vm_compute; reflexivity..|].
  vm_compute in Ec. injection Ec as <-.
  destruct Hc as (m1 & p & E1 & Hw & [Em1 _] & _ & Hd); [vm_compute; discriminate|].
  vm_compute in E1. injection E1 as <- <-. clear Em1.
  destruct Hd as (m2 & q & id & E2 & [Em2 _] & Hq & Hid & _); [vm_compute; discriminate|].
  eexists _, _, _, m2, q, id. split; [vm_compute; reflexivity|]. split; [exact E2|]. split; [exact Hq|].
  split; [|exact Hid]. eexists. rewrite Em2. vm_compute. reflexivity.
Defined.
