(* ===== verification/NetworkProperties.v ===== *)
(** * Properties of the network object *)
From S2P Require Import Prelude OMap Util Internal BtValue Bencode ThirdParty Protos Instances OnionRequest OnionFacts OnionProperties.
From S2P Require Import NetworkData NetworkResponse NetworkState NetworkRun NetworkFacts NetworkStepFacts NetworkDataFacts NetworkPathFacts.
From S2P Require Import Community Blinding CStructs CMemory CNetwork.

(** ** Libraries for the examples *)

Definition toy_parse_int (lo hi : Z) (s : bytes) : option Z :=
  match parse_int (s ++ ["e"%char]) with
  | Some (z, []) => if (lo <=? z) && (z <=? hi) then Some z else None
  | _ => None
  end.
Lemma toy_parse_print lo hi z : lo <= z <= hi -> toy_parse_int lo hi (print_int z) = Some z.
Proof.
  intros Hz. unfold toy_parse_int. rewrite parse_print_int.
  by rewrite (proj2 (Z.leb_le _ _) (proj1 Hz)), (proj2 (Z.leb_le _ _) (proj2 Hz)).
Qed.

(** Addresses as four numbers with dots. *)
Definition toy_print_ip (ip : Z) : bytes :=
  join_with (bs ".") (print_int <$> [(ip / 2 ^ 24) mod 256; (ip / 2 ^ 16) mod 256; (ip / 2 ^ 8) mod 256; ip mod 256]).
Definition toy_parse_ip (s : bytes) : res Z :=
  parts ← split s (bs ".") false;
  match toy_parse_int 0 255 <$> parts with
  | [Some a; Some b; Some c; Some d] => Ok (a * 2 ^ 24 + b * 2 ^ 16 + c * 2 ^ 8 + d)
  | _ => Throw InvalidArgument
  end.

#[refine] Definition toy_quic : Quic := {|
  parse_ip := toy_parse_ip;
  print_ip := toy_print_ip;
  quic_parse_int := toy_parse_int;
  address_rank a := Z.pos (encode a);
  quic_default_timeout := 10000
|}.
Proof.
  - intros a b [= Hab]. by apply (inj encode).
  - intros ip Hip. unfold toy_parse_ip, toy_print_ip. change (bs ".") with ["."%char].
    rewrite split_join; [|done|].
    2:{ apply Forall_fmap, Forall_true. intros z. apply not_in_print_int. by intros [?|?]. }
    cbn [mbind res_bind fmap list_fmap].
    assert (Hm : forall z, 0 <= z mod 256 <= 255) by (intros z; pose proof (Z.mod_pos_bound z 256 ltac:(lia)); lia).
    rewrite !toy_parse_print by apply Hm. f_equal. clear Hm.
    rewrite (Z.mod_small (ip / 2 ^ 24)) by (split; [apply Z.div_pos; lia|apply Z.div_lt_upper_bound; lia]).
    change (2 ^ 24) with (256 * 256 * 256). change (2 ^ 16) with (256 * 256). change (2 ^ 8) with 256.
    rewrite <- !Z.div_div by lia. pose proof (Z.div_mod ip 256). pose proof (Z.div_mod (ip / 256) 256).
    pose proof (Z.div_mod (ip / 256 / 256) 256). lia.
  - intros ip. unfold toy_print_ip. apply Forall_forall. intros c [Hc|(x & Hx & Hc)]%elem_join.
    + apply list_elem_of_singleton in Hc as ->. by right.
    + apply list_elem_of_fmap in Hx as (z & -> & Hz). left.
      assert (Hz0 : 0 <= z).
      { repeat (apply elem_of_cons in Hz as [->|Hz]; [by apply Z.mod_pos_bound|]). by apply elem_of_nil in Hz. }
      pose proof (print_int_digit z Hz0) as Hd. rewrite Forall_forall in Hd. by apply Hd.
  - apply toy_parse_print.
  - intros lo hi s z. unfold toy_parse_int. destruct (parse_int _) as [[z' [|]]|]; [|done..].
    destruct (Z.leb_spec lo z'), (Z.leb_spec z' hi); cbn; intros [= <-]; lia.
  - done.
Defined.

#[refine] Definition toy_rng : Rng := {|
  shuffle A i l := l;
  csrng i j := Z.of_nat i / 32 ^ Z.of_nat j;
  random_hops i := ex_random
|}.
Proof. done. Defined.
Definition toy_numbers : JsonNumbers := {| json_trunc s := 0 |}.
Definition toy_texts : Texts := {| what e s := bs "error" |}.

(** The operations with these libraries. *)
Abbreviation toy_new := (@new_network toy_quic toy_rng hex_encodings st_unknown None false false).
Abbreviation toy_run :=
  (@run toy_quic toy_rng bencode hex_encodings toy_hash toy_sign toy_box toy_exchange toy_aead toy_gcm toy_json
     toy_numbers toy_texts).
Abbreviation toy_step :=
  (@step toy_quic toy_rng bencode hex_encodings toy_hash toy_sign toy_box toy_exchange toy_aead toy_gcm toy_json
     toy_numbers toy_texts).

Section Properties.
Context `{Quic} `{Rng} `{Oxenc} `{TextEncodings} `{X25519} `{Aead} `{AesGcm} `{Json} `{JsonNumbers} `{Texts}.

(** ** Requests *)

(** C5: no request is lost and none is answered twice.  Whatever happens to a new object (calls of
    the application on any threads, with any events between the parts of a call, scheduled calls run
    in any order, connections that open, fail or close, any answers, suspension), the callback of a
    request has been called as often as requests with it were made, less those that are still queued,
    scheduled, in flight, waiting for a refresh or in a call that has not returned, and less those
    whose C++ caller got an exception of [Builder::make] instead, which callers of the C interface never
    do.  This holds as long as no exception has escaped the loop, which stops it; even then no callback
    has been called more often than that.  Callbacks of the application neither throw nor call the network object. *)
Theorem each_request_answered_once st cache testnet single pre es k :
  let n := run es (new_network st cache testnet single pre) in
  (answered k n + thrown k n + waiting k n <= sum (issued k) es)%nat /\
  (broken n = false -> (answered k n + thrown k n + waiting k n = sum (issued k) es)%nat) /\
  (thrown k n <= sum (issued_uncaught k) es)%nat.
Proof.
  cbv zeta. destruct (trans_new_network k st cache testnet single pre) as [d T].
  destruct (trans_thrown _ _ _ _ _ T) as [Et Eu]. destruct T as [[[_ _ Hl He _] _ _] _ _].
  destruct (acct_run k es (new_network st cache testnet single pre)) as [Hb _ Rl Re _].
  pose proof (thrown_run k es (new_network st cache testnet single pre)) as Rt.
  assert (E0 : (settled k (blank_network st testnet single d) + waiting k (blank_network st testnet single d) = 0)%nat) by done.
  assert (E1 : (thrown k (blank_network st testnet single d) + uncaught k (blank_network st testnet single d) = 0)%nat) by done.
  rewrite <- settled_split. split_and!; [lia| |lia]. intros Hn. specialize (Re Hn). specialize (He (Hb Hn)). lia.
Qed.

(** C6: retries come to an end: however the nodes answer (redirects to other nodes of the swarm,
    decryption failures, swarms that change with every refresh), at most fifteen commands are sent
    for a request of the application. *)
Theorem retries_bounded st cache testnet single pre es k :
  (sent k (run es (new_network st cache testnet single pre)) <= 15 * sum (issued k) es)%nat.
Proof.
  destruct (trans_new_network k st cache testnet single pre) as [d [[[_ _ _ _ Hl] _ _] _ _]].
  destruct (acct_run k es (new_network st cache testnet single pre)) as [_ _ _ _ Rl].
  assert (E0 : (sent k (blank_network st testnet single d) + budget k (blank_network st testnet single d) = 0)%nat) by done.
  lia.
Qed.

(** C7: in every state that a new object can reach, also between the parts of calls on threads of the
    application, each path (active, waiting to be dropped or held by such a call) has three nodes,
    its first node is the one its connection leads to, and it has failed less than three times;
    commands in flight, unused connections and calls that are about to send belong to connections of
    the object.  The 64-bit counter of pending requests of a connection is the number of its commands
    without an answer, with those a thread is about to post, as long as the counter was never written
    while a thread of the application was incrementing it: nothing in the code keeps these writes
    apart, and after such a race nothing is known of the counter. *)
Theorem network_invariant st cache testnet single pre n :
  reachable (new_network st cache testnet single pre) n -> inv n.
Proof.
  destruct (trans_new_network 0 st cache testnet single pre) as [d [[[_ Hi _ _ _] _ _] _ _]].
  induction 1 as [|n e _ IH]; [apply Hi, inv_blank|]. by apply (ac_inv _ _ _ _ _ (acct_step 0 e n)).
Qed.

(** C12: a request that waited for a path longer than it may is answered: as long as the object was
    never suspended, there is a scheduled call that removes it from the queue and calls its
    callback with the error for a timed out path build. *)
Theorem queued_requests_time_out st cache testnet single pre es r :
  Forall (fun e => ~ changes_suspension e) es ->
  let n := run es (new_network st cache testnet single pre) in
  r ∈ pall (request_queue n) -> timed_out n r.1 = true ->
  exists i, let n' := step (EvTask i) n in
    r ∉ pall (request_queue n') /\
    forall k, cb_owes k r.2 = 1%nat ->
      OutResponse k false true error_path_build_timeout plain (Some (bs "Timed out waiting for path build.")) ∈ outputs n'.
Proof.
  intros Hes. cbv zeta. destruct (trans_new_network 0 st cache testnet single pre) as [d [[_ Hs Hw] _ _]].
  destruct (watched_run es (new_network st cache testnet single pre)) as [Hs' Hw'].
  - done.
  - by rewrite Hs.
  - apply Hw; [done|apply watched_blank].
  - by apply watched_expires.
Qed.

(** Suspending the object answers every request that waits for a path, with the error for a
    suspended network, and leaves neither paths nor queued requests. *)
Theorem suspend_answers_queue n :
  let n' := suspend n in
  pall (request_queue n') = [] /\ pall (paths n') = [] /\ suspended n' = true /\
  forall r k, r ∈ pall (request_queue n) -> cb_owes k r.2 = 1%nat ->
    OutResponse k false false error_network_suspended plain (Some (bs "Network is suspended.")) ∈ outputs n'.
Proof. apply suspend_answers. Qed.

(** When the object is destroyed, every queued request is answered in the same way. *)
Theorem destroy_answers_queue ok n r k :
  r ∈ pall (request_queue n) -> cb_owes k r.2 = 1%nat ->
  pall (request_queue (destroy ok n)) = [] /\
  OutResponse k false false error_network_suspended plain (Some (bs "Network is suspended.")) ∈ outputs (destroy ok n).
Proof.
  intros Hr Hk. destruct (suspend_answers n) as (Hq & _ & _ & Ho). specialize (Ho r k Hr Hk). unfold destroy.
  revert Hq Ho. generalize (suspend n). clear. intros n Hq Ho. unfold disk_clear, disk_end, disk_begin.
  destruct (need_write n && _); cbn; repeat (case_match; cbn); done.
Qed.

(** C18: when a connection and enough unused nodes are there, [build_path] adds one path of exactly
    three nodes with different IP addresses: the node of the connection and two unused nodes, and
    none of the nodes that stay unused has one of these addresses; it only fails, leaving the
    paths as they are, if the addresses of all these nodes are among those of two. *)
Theorem path_built id t conn conns n :
  suspended n = false -> unused_connections n = conn :: conns -> (path_size <= length (unused_nodes n))%nat ->
  let n' := build_path id t n in
  (exists p, fresh_path conn (unused_nodes n) (unused_nodes n') p /\
     paths n' = pset t (pget t (paths n) ++ [p]) (paths n) /\ unused_connections n' = conns) \/
  (few_ips (ci_node conn :: unused_nodes n) /\ paths n' = paths n /\ unused_nodes n' = [] /\
     unused_connections n' = conn :: conns).
Proof. apply build_path_spec. Qed.

(** ** Nodes and swarms *)

(** C17: the swarm of an account is one of those nearest to it: among the nodes in the cache none has
    a swarm id with a smaller distance, on the ring of 64-bit numbers, from the place of the
    account's key; and all cached nodes of that swarm are returned, in their order. *)
Theorem swarm_is_nearest pk id n :
  all_swarms n = generate_swarms (snode_cache n) -> snode_cache n <> [] ->
  Forall (fun s => swarm_id_ok (sn_swarm s)) (snode_cache n) -> mfind (to_hex pk) (swarm_cache n) = None ->
  exists swarm_id nodes, outputs (get_swarm pk (SwUser id) n) = outputs n ++ [OutSwarm id swarm_id nodes] /\
    nodes = filter (fun s => sn_swarm s = swarm_id) (snode_cache n) /\ nodes <> [] /\
    forall s, s ∈ snode_cache n ->
      ring_distance (pubkey_to_swarm_space pk) swarm_id <= ring_distance (pubkey_to_swarm_space pk) (sn_swarm s).
Proof. apply get_swarm_nearest. Qed.


(** The cache survives a restart: if the disk thread gets to write it, a new object that is made
    from the same directory starts with the same nodes in the same order (their versions without
    trailing zeros, and without those of version 0), with the time of the write and with the
    swarms of these nodes. *)
Theorem cache_survives_restart st sp pre n :
  need_write n = true -> writing_ n = None -> (dk_testnet (disk n) = true -> use_testnet n = true) ->
  Forall node_ok (snode_cache n) ->
  let n' := new_network st (Some (disk (disk_end true (disk_begin n)))) (use_testnet n) sp pre in
  snode_cache n' = filter (fun s => sn_version s <> [0]) (trim_node <$> snode_cache n) /\
  all_swarms n' = generate_swarms (snode_cache n') /\ last_snode_cache_update n' = clock n.
Proof. apply restart_cache. Qed.

(** ** Errors *)

(** the status of a batch whose results all have one: it is that of the last result if every
    two neighbours differ, and 200 as soon as two neighbours have the same status, also if that
    is an error. *)
Theorem batch_status_exact results codes headers body :
  Forall2 has_code results codes -> codes <> [] ->
  exists h b, batch_loop results (-1) headers body =
    Ok (if neighbours_agree codes then 200 else value_or (last codes) (-1), h, b).
Proof. apply batch_status. Qed.
(** ** The C interface *)

(** C30: the request functions of the C interface lose no request either.  No exception leaves the part
    of a call before the request; a call that fails there calls the callback once, at once, and any
    other begins a request that is accounted for.  Whatever happens after the call, the callback is
    called at most once for it, and it has been called or is still due as long as no exception has
    escaped the loop (which stops it for good).  No exception of the request reaches the caller
    either: if nothing else uses the callback through C++, none is ever thrown for it, so that a
    failure of [Builder::make] calls the callback too. *)
Theorem c_requests_accounted m r t pbt id n k es :
  match c_call m r t pbt id n with
  | Ok n' =>
      let d := if decide (id = k) then 1%nat else 0%nat in
      let n'' := run es n' in
      (answered k n' + waiting k n' = answered k n + waiting k n + d)%nat /\ broken n' = broken n /\
      (answered k n'' + thrown k n'' + waiting k n'' <= answered k n + thrown k n + waiting k n + d + sum (issued k) es)%nat /\
      (broken n'' = false ->
       answered k n'' + thrown k n'' + waiting k n'' = answered k n + thrown k n + waiting k n + d + sum (issued k) es)%nat /\
      (thrown k n'' + uncaught k n'' <= thrown k n + uncaught k n + sum (issued_uncaught k) es)%nat
  | Throw e => is_std_exception e = false
  end.
Proof.
  pose proof (c_call_spec m r t pbt id n) as Hc. destruct (c_call m r t pbt id n) as [n'|e]; [|done]. cbv zeta.
  assert (Hn : (answered k n' + waiting k n' = answered k n + waiting k n + if decide (id = k) then 1 else 0)%nat /\
               broken n' = broken n /\ thrown k n' = thrown k n /\ uncaught k n' = uncaught k n).
  { destruct Hc as [[info ->]|[text ->]].
    - split_and!; [|done|done|].
      + unfold answered, waiting. cbn. rewrite sum_app, sum_one. cbn. lia.
      + rewrite (proj2 (add_call_thrown _ _ _)). cbn. rewrite Nat.add_0_r. reflexivity.
    - split_and!; [|done| |done].
      + unfold answered, waiting. cbn. rewrite sum_app, sum_one. cbn. lia.
      + unfold thrown. cbn. rewrite sum_app, sum_one. cbn. lia. }
  destruct Hn as (Ha & Hb & Ht & Hu). destruct (acct_run k es n') as [_ _ Rl Re _].
  pose proof (thrown_run k es n') as Rt. rewrite !settled_split in *. split_and!; [exact Ha|exact Hb|lia| |lia].
  intros Hbr. specialize (Re Hbr). lia.
Qed.

(** A request that the application sends through the C interface to a node of a swarm, and that the node
    refuses with 421, is tried next at any node of the swarm in random order: the node that
    refused it is not left out. *)
Theorem c_redirect_keeps_target node target swarm_pubkey sid swarm info status_code headers response cb n :
  node_of_struct node = Ok target -> ri_destination info = NodeDestination target ->
  ri_swarm_pubkey info = Some swarm_pubkey -> ri_retry_reason info = None ->
  mfind (to_hex swarm_pubkey) (swarm_cache n) = Some (sid, swarm) -> swarm <> [] ->
  Forall (fun s => sn_swarm s <> INVALID_SWARM_ID) swarm ->
  exists s, head (shuffle (draws n) swarm) = Some s /\ s ∈ swarm /\
    redirect info status_code headers response cb n =
      inl (call_soon (TSend (retried info (NodeDestination s) rr_redirect) cb) (next_draw n)).
Proof.
  intros Ht Hd Hp Hr Hc Hne Hs. unfold redirect, cached_swarm. rewrite Hd, Hp, Hr, Hc. cbn [node_for_destination value_or].
  cbn [fst snd]. rewrite bool_decide_eq_false_2, (target_differs node target swarm) by done.
  pose proof (shuffle_perm service_node (draws n) swarm) as Hsh. destruct (shuffle (draws n) swarm) as [|s l].
  - by apply Permutation_nil_l in Hsh.
  - exists s. split_and!; [done| |done]. rewrite <- Hsh. constructor.
Qed.
End Properties.

(** the delay before a retry is 100 milliseconds times two to the number of failures, at most
    the limit; from 57 failures on the value does not fit its type before the limit is applied. *)
Theorem retry_delay_exact failures max_delay :
  0 <= failures ->
  retry_delay failures max_delay =
    if decide (failures <= 56) then Ok (Z.min max_delay (100 * 2 ^ failures)) else Throw UB.
Proof. apply retry_delay_spec. Qed.

(** ** Examples *)

Definition ex_node (i : Z) : service_node :=
  {| sn_key := replicate 32 (byte_of i); sn_version := [2; 8; 0]; sn_swarm := 1000 * (i mod 3);
     sn_ip := 16777216 + i; sn_port := 20200 |}.
Definition ex_nodes : list service_node := ex_node <$> seqZ 1 18.

(** The answer of a seed node with these nodes. *)
Definition ex_bt_node (s : service_node) : bt_value :=
  BDict [(bs "pubkey_ed25519", BStr (@to_hex hex_encodings (sn_key s))); (bs "public_ip", BStr (toy_print_ip (sn_ip s)));
         (bs "storage_lmq_port", BInt (sn_port s)); (bs "storage_server_version", BList (BInt <$> sn_version s));
         (bs "swarm_id", BInt (sn_swarm s))].
Definition ex_seed_answer : message :=
  {| ms_timed_out := false; ms_is_error := false;
     ms_body := print_value (BList [BInt 200;
       BDict [(bs "result", BDict [(bs "service_node_states", BList (ex_bt_node <$> ex_nodes))])]]) |}.
Definition ex_error : message := {| ms_timed_out := false; ms_is_error := true; ms_body := bs "400 Bad Request" |}.

(** A request is queued; the cache is filled from a seed node, a path is built and the request is
    sent through it; the answer is an error. *)
Definition ex_start : list event :=
  [EvTick 1000000000000; EvSend false (NodeDestination (ex_node 50)) None None 1000 (Some 5000) pt_standard 7;
   EvCall 0 0; EvTask 1].
Definition ex_path : list event :=
  ex_start ++ [EvTask 0; EvTask 1; EvTask 1; EvConnected 0; EvAnswer 0 ex_seed_answer; EvTask 2; EvTask 2; EvConnected 1].
Definition ex_sent : list event := ex_path ++ [EvTask 2; EvTask 2; EvTask 2].
Definition ex_events : list event := ex_sent ++ [EvAnswer 0 ex_error].

Lemma each_request_answered_once_example :
  let n := toy_run ex_events (toy_new false) in
  broken n = false /\ answered 7 n = 1%nat /\ thrown 7 n = 0%nat /\ waiting 7 n = 0%nat /\
  (answered 7 n + thrown 7 n + waiting 7 n = sum (issued 7) ex_events)%nat.
Proof.
  cbv zeta. assert (Hb : broken (toy_run ex_events (toy_new false)) = false) by (vm_compute; reflexivity).
  split_and!; [exact Hb|vm_compute; reflexivity..|].
  destruct (@each_request_answered_once toy_quic toy_rng bencode hex_encodings toy_hash toy_sign toy_box
    toy_exchange toy_aead toy_gcm toy_json toy_numbers toy_texts st_unknown None false false false ex_events 7) as (_ & He & _).
  exact (He Hb).
Defined.

Lemma reachable_run `{Quic} `{Rng} `{Oxenc} `{TextEncodings} `{X25519} `{Aead} `{AesGcm} `{Json} `{JsonNumbers} `{Texts}
    n0 es : forall n, reachable n0 n -> reachable n0 (run es n).
Proof. induction es as [|e es IH]; intros n Hn; [done|]. apply (IH (step e n)). by apply reach_step. Qed.

Lemma network_invariant_example :
  let n := toy_run ex_sent (toy_new false) in
  length (pall (paths n)) = 1%nat /\ (lk_pending <$> links n) = [0; 1] /\ (lk_raced <$> links n) = [false; false] /\ inv n.
Proof.
  cbv zeta. split_and!; [vm_compute; reflexivity..|].
  refine (@network_invariant toy_quic toy_rng bencode hex_encodings toy_hash toy_sign toy_box
    toy_exchange toy_aead toy_gcm toy_json toy_numbers toy_texts st_unknown None false false false _ _).
  apply reachable_run, reach_start.
Defined.

(** Another request is sent while the first one is answered: the increment on the thread of the
    application reads the counter before, and writes it after the loop has decremented it.  When all
    commands have got their answers the counter still has one request, and a path that waits for it to
    be dropped would wait for good. *)
Definition ex_race : list event :=
  ex_sent ++ [EvSend false (NodeDestination (ex_node 50)) None None 1000 None pt_standard 8;
              EvCall 0 0; EvCall 0 0; EvCall 0 0; EvCall 0 0; EvAnswer 0 ex_error; EvCall 0 2; EvCall 0 0; EvAnswer 0 ex_error].
Example counter_race :
  let n := toy_run ex_race (toy_new false) in
  broken n = false /\ calls n = [] /\ in_flight n = [] /\ answered 8 n = 1%nat /\
  (lk_pending <$> links n) = [0; 1] /\ (lk_raced <$> links n) = [false; true].
Proof. vm_compute. repeat split. Qed.

(** The key of the destination has a wrong size, so that [Builder::make] throws. *)
Definition ex_bad_node : service_node :=
  {| sn_key := []; sn_version := [2; 8; 0]; sn_swarm := 0; sn_ip := 5; sn_port := 20200 |}.
Definition ex_bad (caught : bool) : list event :=
  ex_sent ++ [EvSend caught (NodeDestination ex_bad_node) None None 1000 None pt_standard 8; EvCall 0 0; EvCall 0 0].
Example bad_request :
  let n := toy_run (ex_bad true) (toy_new false) in
  let n' := toy_run (ex_bad false) (toy_new false) in
  last (outputs n) = Some (OutResponse 8 false false (-1) [] (Some (bs "error"))) /\ broken n = false /\ answered 8 n = 1%nat /\
  (exists e, last (outputs n') = Some (OutThrown 8 e)) /\ broken n' = false /\ thrown 8 n' = 1%nat.
Proof. vm_compute. repeat split. by eexists. Qed.

Definition ex_late : list event := ex_start ++ [EvTick 1006000000000].

Lemma queued_requests_time_out_example :
  let n := toy_run ex_late (toy_new false) in
  exists r i, r ∈ pall (request_queue n) /\
    r ∉ pall (request_queue (toy_step (EvTask i) n)).
Proof.
  cbv zeta. destruct (pall (request_queue (toy_run ex_late (toy_new false))) !! 0%nat) as [r|] eqn:Er.
  2:{ exfalso. vm_compute in Er. discriminate. }
  destruct (@queued_requests_time_out toy_quic toy_rng bencode hex_encodings toy_hash toy_sign toy_box
    toy_exchange toy_aead toy_gcm toy_json toy_numbers toy_texts st_unknown None false false false ex_late r) as (i & Hi & _).
  - repeat constructor; by intros [].
  - exact (list_elem_of_lookup_2 _ _ _ Er).
  - vm_compute in Er. injection Er as <-. vm_compute. reflexivity.
  - exists r, i. split; [exact (list_elem_of_lookup_2 _ _ _ Er)|exact Hi].
Defined.

Lemma suspend_answers_queue_example :
  exists r, r ∈ pall (request_queue (toy_run ex_start (toy_new false))) /\
    let n' := @suspend toy_quic toy_rng bencode hex_encodings toy_hash toy_sign toy_box toy_exchange toy_aead toy_gcm toy_json
                toy_numbers toy_texts (toy_run ex_start (toy_new false)) in
    pall (request_queue n') = [] /\
    OutResponse 7 false false error_network_suspended plain (Some (bs "Network is suspended.")) ∈ outputs n'.
Proof.
  destruct (pall (request_queue (toy_run ex_start (toy_new false))) !! 0%nat) as [r|] eqn:Er.
  2:{ exfalso. vm_compute in Er. discriminate. }
  destruct (@suspend_answers_queue toy_quic toy_rng bencode hex_encodings toy_hash toy_sign toy_box
    toy_exchange toy_aead toy_gcm toy_json toy_numbers toy_texts (toy_run ex_start (toy_new false))) as (Eq & _ & _ & Ho).
  exists r. split; [exact (list_elem_of_lookup_2 _ _ _ Er)|]. split; [exact Eq|].
  apply (Ho r 7%nat); [exact (list_elem_of_lookup_2 _ _ _ Er)|].
  vm_compute in Er. injection Er as <-. vm_compute. reflexivity.
Defined.

(** The state before the path is built. *)
Lemma path_built_example :
  let n := toy_run ex_path (toy_new false) in
  exists conn, unused_connections n = [conn] /\
    exists p, length (op_nodes p) = 3%nat /\
      p_standard (paths (@build_path toy_rng (bs "P-1") pt_standard n)) = [p].
Proof.
  cbv zeta. destruct (unused_connections (toy_run ex_path (toy_new false))) as [|conn conns] eqn:Ec.
  { exfalso. vm_compute in Ec. discriminate. }
  assert (En : conns = []) by (vm_compute in Ec; by injection Ec).
  exists conn. split; [by rewrite En|].
  destruct (@path_built toy_rng (bs "P-1") pt_standard conn conns (toy_run ex_path (toy_new false)))
    as [(p & Hp & Ep & _)|(Hf & Ep & _)].
  - vm_compute. reflexivity.
  - exact Ec.
  - vm_compute. repeat constructor.
  - exists p. split; [exact (fp_length _ _ _ _ Hp)|]. rewrite Ep. cbn [pset pget p_standard].
    assert (E0 : p_standard (paths (toy_run ex_path (toy_new false))) = []) by (vm_compute; reflexivity). by rewrite E0.
  - exfalso. assert (E1 : length (p_standard (paths (@build_path toy_rng (bs "P-1") pt_standard
                            (toy_run ex_path (toy_new false))))) = 1%nat) by (vm_compute; reflexivity).
    rewrite Ep in E1. vm_compute in E1. discriminate.
Defined.

Lemma ex_nodes_ok : Forall node_ok ex_nodes.
Proof.
  apply Forall_fmap. apply Forall_forall. intros i Hi. apply elem_of_seqZ in Hi.
  pose proof (Z.mod_pos_bound i 3 ltac:(lia)). split; cbn.
  - reflexivity.
  - split; [discriminate|]. unfold int32_ok, INT32_MIN, INT32_MAX. repeat constructor; lia.
  - unfold UINT64_MAX. lia.
  - lia.
  - lia.
Qed.

(** Three swarms, and the one of the key in the middle. *)
Definition ex_cached : Network :=
  (toy_new false) <| snode_cache := ex_nodes |> <| all_swarms := generate_swarms ex_nodes |>.
Lemma swarm_is_nearest_example :
  exists swarm_id nodes,
    outputs (@get_swarm toy_quic toy_rng bencode hex_encodings toy_hash toy_sign toy_box toy_exchange toy_aead toy_gcm
               toy_json toy_numbers toy_texts (replicate 31 (byte_of 0) ++ [byte_of 7]) (SwUser 5) ex_cached)
      = [OutSwarm 5 swarm_id nodes] /\ swarm_id = 0 /\ length nodes = 6%nat.
Proof.
  destruct (@swarm_is_nearest toy_quic toy_rng bencode hex_encodings toy_hash toy_sign toy_box toy_exchange toy_aead
    toy_gcm toy_json toy_numbers toy_texts (replicate 31 (byte_of 0) ++ [byte_of 7]) 5 ex_cached)
    as (swarm_id & nodes & Eo & En & _ & Hd).
  - reflexivity.
  - discriminate.
  - change (snode_cache ex_cached) with ex_nodes. eapply Forall_impl; [exact ex_nodes_ok|].
    intros s [_ _ Hs _ _]. unfold swarm_id_ok. unfold UINT64_MAX in Hs. lia.
  - reflexivity.
  - exists swarm_id, nodes. split; [exact Eo|].
    assert (E0 : swarm_id = 0) by (vm_compute in Eo; by injection Eo).
    split; [exact E0|]. rewrite En, E0. vm_compute. reflexivity.
Defined.




Lemma cache_survives_restart_example :
  let n := ex_cached <| need_write := true |> <| clock := 5 |> in
  let n' := @new_network toy_quic toy_rng hex_encodings st_unknown
              (Some (disk (@disk_end toy_quic hex_encodings true (disk_begin n)))) false false true in
  snode_cache n' = trim_node <$> ex_nodes /\ last_snode_cache_update n' = 5.
Proof.
  cbv zeta. destruct (@cache_survives_restart toy_quic toy_rng hex_encodings st_unknown false true
    (ex_cached <| need_write := true |> <| clock := 5 |>)) as (Ec & _ & Et).
  - reflexivity.
  - reflexivity.
  - discriminate.
  - exact ex_nodes_ok.
  - split; [|exact Et]. etrans; [exact Ec|]. vm_compute. reflexivity.
Defined.

Lemma batch_status_exact_example :
  let results := [JObj [(bs "code", JInt 404)]; JObj [(bs "code", JInt 404)]] in
  exists h b, @batch_loop toy_numbers results (-1) [] None = Ok (200, h, b).
Proof.
  cbv zeta. apply (@batch_status_exact toy_numbers _ [404; 404]); [|discriminate].
  repeat constructor; discriminate.
Defined.

Lemma retry_delay_exact_example : retry_delay 3 DEFAULT_MAX_DELAY = Ok 800 /\ retry_delay 57 DEFAULT_MAX_DELAY = Throw UB.
Proof.
  split; [exact (retry_delay_exact 3 DEFAULT_MAX_DELAY ltac:(lia))|exact (retry_delay_exact 57 DEFAULT_MAX_DELAY ltac:(lia))].
Defined.

(** A request is queued and watched; the object is suspended, and resumed after the check has run;
    another request is queued, and more than its time goes by. *)
Definition ex_suspended : list event :=
  ex_start ++ [EvTask 1; EvSuspend; EvTask 1; EvResume;
               EvSend false (NodeDestination (ex_node 50)) None None 1000 (Some 5000) pt_standard 8; EvCall 0 0; EvTask 2;
               EvTick 1006000000000; EvTask 2].

(** the condition on suspension in the theorem about timeouts is needed: after an object was
    suspended and resumed, a request whose time is up can be in the queue without any check of the
    timeouts being scheduled. *)
Theorem suspension_stops_timeouts :
  let n := toy_run ex_suspended (toy_new false) in
  suspended n = false /\ broken n = false /\ Exists (fun r => timed_out n r.1 = true) (pall (request_queue n)) /\
  Forall (fun t => ~ is_check t.2) (tasks n).
Proof.
  cbv zeta. split_and!; [vm_compute; reflexivity|vm_compute; reflexivity| |].
  - assert (Hx : existsb (fun r => timed_out (toy_run ex_suspended (toy_new false)) r.1)
                   (pall (request_queue (toy_run ex_suspended (toy_new false)))) = true) by (vm_compute; reflexivity).
    apply existsb_exists in Hx as (r & Hr & Ht). apply Exists_exists. exists r. split; [by apply list_elem_of_In|done].
  - assert (E : snd <$> tasks (toy_run ex_suspended (toy_new false)) =
                [TBuildPathIfNeeded pt_standard false; TBuildPathIfNeeded pt_standard false]) by (vm_compute; reflexivity).
    apply (proj1 (Forall_fmap snd (fun t => ~ is_check t) _)). rewrite E. repeat constructor; by intros [].
Qed.

(** A swarm of one node: it is tried again, although there is no other node. *)
Definition ex_redirect_pk : bytes := replicate 32 (byte_of 9).
Definition ex_alone : Network :=
  (toy_new false) <| swarm_cache := [(@to_hex hex_encodings ex_redirect_pk, (2000, [ex_node 2]))] |>.
Definition ex_target : service_node :=
  {| sn_key := sn_key (ex_node 2); sn_version := [0]; sn_swarm := INVALID_SWARM_ID; sn_ip := sn_ip (ex_node 2);
     sn_port := sn_port (ex_node 2) |}.
Definition ex_refused : request_info :=
  make_request 0 (bs "R-1") (NodeDestination ex_target) None (Some ex_redirect_pk) 1000 None pt_standard.

Lemma c_redirect_keeps_target_example :
  @node_of_struct toy_quic hex_encodings (@convert_service_node hex_encodings (ex_node 2)) = Ok ex_target /\
  @redirect toy_rng hex_encodings ex_refused 421 [] None (CbUser 7) ex_alone =
    inl (call_soon (TSend (retried ex_refused (NodeDestination (ex_node 2)) rr_redirect) (CbUser 7)) (next_draw ex_alone)).
Proof.
  assert (E : @node_of_struct toy_quic hex_encodings (@convert_service_node hex_encodings (ex_node 2)) = Ok ex_target)
    by (vm_compute; reflexivity).
  split; [exact E|].
  destruct (@c_redirect_keeps_target toy_quic toy_rng hex_encodings _ ex_target ex_redirect_pk 2000 [ex_node 2] ex_refused 421 []
    None (CbUser 7) ex_alone E) as (s & Hs & _ & Hr); [reflexivity..|vm_compute; reflexivity|discriminate| |].
  - repeat constructor. vm_compute. discriminate.
  - vm_compute in Hs. injection Hs as <-. exact Hr.
Defined.
